(* ===== verification/_CoqProject ===== *)
-Q . S2P
Turgon.v
Prelude.v
GoStr.v
GoText.v
GoErr.v
GoTime.v
GoDate.v
Regex.v
Semver.v
AuditLog.v
Policy.v
Governor.v
GuardData.v
Idempotency.v
Guard.v
GuardProps.v
GuardTheorems.v
Saga.v
Api.v
ApiKinds.v
ApiTheorems.v
Catalog.v
Report.v
Verifier.v
RecipeVerifier.v
BlueprintVerifier.v
VerifierProps.v
VerifierTheorems.v
BlueprintTheorems.v
RuntimeSpec.v
Compiler.v
CompileTheorems.v
Reproducible.v
Signing.v
Template.v
Engine.v
AgentData.v
Workflow.v
WorkflowTheorems.v
AgentWrites.v
Dispatcher.v
DispatcherTheorems.v
Identity.v
IdentityTheorems.v
PgStore.v
PgTheorems.v
Deployment.v
PgLinks.v
Mapping.v
Activities.v
ActivityProps.v
ActivityTheorems.v
ResolveTheorems.v
AgentTheorems.v
AgentTools.v
AgentToolTheorems.v
PgOutput.v
PgChanges.v
PgChangesProps.v
PgCaptureTheorems.v
PgAudit.v
Odoo.v
OdooProps.v
OdooPoll.v
OdooWrites.v
OdooMemory.v
NetGuard.v
Streams.v
RestAuth.v
Rest.v
Webhooks.v
PgTokens.v
RestTokens.v
RestProps.v
Sap.v
SapMesh.v
SapProps.v
Debezium.v
DebeziumProps.v
Appliance.v
