(* ===== verification/Turgon.v ===== *)
(** * Turgon: a verification development of its declarative core and its runtime

    Turgon deploys integrations between business systems from declarative documents.
    Connectors, mappings, recipes and blueprints are written as YAML, found in a catalog,
    verified, compiled into a signed runtime spec, and executed by workers that write to
    target systems only through a guard, under policy, approval, audit and idempotency.
    This library models that path, from documents to the calls a target receives, and
    proves what each part promises the next.

    ** Parts and how they fit

    Documents. [Semver] is [src/pkg/semver]; [Api] and [ApiKinds] are the kinds of
    [src/apis/v1alpha1] with their schema validation, [ApiTheorems] what it
    decides; [Catalog] is [src/pkg/catalog], references resolved to versions.

    Verification ([src/pkg/verifier]). [Report] builds reports and review queues; [Verifier]
    holds the checks of single documents, [RecipeVerifier] and [BlueprintVerifier] the
    stages of recipes and whole stacks in the order of the code. [VerifierProps] and
    [VerifierTheorems] give each check its condition;
    [VerifierTheorems] and [BlueprintTheorems] say what a deployable document is.

    Compilation ([src/pkg/compiler]) and signing ([src/pkg/signing]). [RuntimeSpec] is the
    data workers execute, [Compiler] the builder and its entry points;
    [CompileTheorems] and [Reproducible] prove that what is emitted was verified and does not depend on the order of Go's map
    iteration. [Signing] signs and verifies specs, and reads them strictly.

    The write guard ([src/pkg/writeguard], [src/pkg/policy], [src/pkg/audit]). [Policy]
    decides, [AuditLog] is the hash-chained log, [Governor] limits rates and breaks
    circuits, [Idempotency] is the store of keys with the interface [StoreLaws], [Guard]
    is the guard itself over an outside world [Env], [Saga] its compensations.
    [GuardProps] and [GuardTheorems] prove them for any store that keeps
    [StoreLaws] and any outside world.

    The engine ([src/pkg/engine]). [Template] renders idempotency keys, [Engine] and
    [AgentData] are its data; [Workflow] is the interpreter of compiled workflows and
    [AgentWrites] the workflow of an agent's write, both over a [World] of activities,
    signals and timers. [Activities] implements that world: a worker runs each activity
    over the real guard, with retries, deaths and lost answers. [ActivityProps] joins the
    two levels, so that [ActivityTheorems] and [AgentTheorems] speak of the calls a target
    receives during a run. [Dispatcher] starts runs from sources and inboxes, over a
    [Backend]; [DispatcherTheorems] states its invariant by rely and guarantee.

    State. [PgStore] is [src/pkg/store/pgstore]: tables and the SQL statements on them.
    [PgTheorems] shows that it is a store for the guard, and with [Deployment] that it
    is a backend for dispatchers, [PgLinks] loads links. [Identity] and [Mapping] are
    [src/pkg/identity] and [src/pkg/mapping], used by the activities; [AgentTools] is the
    part of [src/pkg/agent] that turns a tool call into a write.

    Sources. [PgOutput] and [PgChanges] are the change capture of
    [src/pkg/connector/postgres]: the wire format of logical replication, and the replication
    slot between polls of a server ([PgServer]) that keeps the
    documented behaviour of its log ([WalView], [WalLaws], [TextTypes]);
    [PgChangesProps] and [PgCaptureTheorems] prove that polls read each committed change
    once, in order. [Odoo] is [src/pkg/connector/odoo/odoo.go] over an instance behind its
    JSON-RPC ([OdooServer], [OdooText]): [OdooProps] on domains, positions and values,
    [OdooPoll] on polls ([OdooView], [PollLaws]), [OdooWrites] on the records it creates
    ([OdooStore], [WriteLaws]), [OdooMemory] an instance in memory that keeps these laws.
    [RestAuth] and [Rest] are [src/pkg/connector/rest] ([auth.go], [rest.go]) over a network
    and a clock ([Http]), its texts ([AuthText], [RestText]) and a store of rotated tokens
    ([TokenStore]); [RestProps] proves its polls for any API that lists its items in order
    ([ascending], [descending], [Framed]), [RestTokens] what becomes of refresh tokens that
    workers share ([AuthServer], [AuthServerLaws]). [PgTokens] is
    [src/pkg/store/pgstore/tokens.go], the vault that keeps them ([Aead], [AeadLaws]), which
    is a token store ([TokenValues], [TokenStoreLaws]).
    [Sap] is [src/pkg/connector/sap/sap.go] over the OData services of an SAP system
    ([SapURL], [SapText]), [SapMesh] its [eventmesh.go], streams of messages from queues
    ([MeshText]); [SapProps] proves its polls ([changes]), its filters, and which messages
    are acknowledged ([Broker], [Sink]).
    [Debezium] is [src/pkg/connector/debezium] ([debezium.go], [decode.go], [registry.go]),
    changes of tables read from Kafka ([Kafka], [DebeziumText]); [DebeziumProps] says which
    records a worker and its successors turn into events ([TopicLaws], [PositionSink],
    [PositionText]), what identifies a change, and that decimals keep their value.
    [Webhooks] is [src/pkg/engine/webhook.go] with the connector's [webhook.go], events that
    are pushed by HTTP into the inbox.
    [Streams] is [src/pkg/engine/stream.go], subscriptions that push ([Pushing],
    [PushedLog], [PushingLaws]) into the inbox of the state database.

    [Appliance] is [src/pkg/appliance], the supervisor that keeps a worker per spec of a
    directory on one machine ([Host]): which specs it runs, and when it stops a worker.

    [PgAudit] is [src/pkg/store/pgstore/audit.go], the audit log that workers share.
    [NetGuard] is [src/pkg/netguard]: which addresses are called on someone else's behalf
    ([NetText], [Net]).

    [Prelude], [GoStr], [GoText], [GoErr], [GoTime], [GoDate] and [Regex] hold what the parts
    share: Go's strings, escapes and encodings, formatted messages and errors, numbers,
    durations, calendar dates and regular expressions.

    ** Groups of theorems

    - Cleared writes: a target is written to only with the exact request that policy
      allowed, audited before, approved where policy or the request asks
      ([GuardTheorems.Commit_only_when_cleared]), and this lifts through activities and
      workflows to whole runs ([ActivityTheorems.run_targets_cleared]) and to agents
      ([AgentTheorems.agent_targets_cleared]).
    - Once: one commit per key among clients sharing a store
      ([Idempotency.one_commit_per_key]), over retries ([ActivityTheorems.CommitWrite_once]),
      over the database ([PgTheorems.pg_is_a_store]).
    - Undone: a failed run undoes its writes newest first
      ([WorkflowTheorems.failed_run_undoes_its_writes]).
    - One record: a create attempted again finds the record of the first attempt
      ([OdooWrites.create_makes_one_record]).
    - Verified to executed: verification decides what it says, the compiler emits what
      was verified, reproducibly; a spec is executed only when signed, by an appliance too
      ([Appliance.workers_run_accepted_specs]), which keeps serving what it serves
      ([Appliance.served_specs_stay_served]); a run executes its workflow step by step.
    - Nothing lost: dispatchers pass over no event and start one run per event
      ([DispatcherTheorems.Poll_loses_nothing]); change capture, changes from Kafka, polls of Odoo, SAP
      and REST APIs and subscriptions read what their systems recorded, in order
      ([PgCaptureTheorems.capture_polls_log], [DebeziumProps.changes_are_read_once], [OdooPoll.odoo_polls_lose_nothing],
      [SapProps.sap_polls_pass_over_nothing], [RestProps.polls_pass_over_nothing],
      [Streams.subscriptions_lose_nothing]), and a webhook or a message that is
      acknowledged is stored ([Webhooks.acknowledged_deliveries_are_stored],
      [SapProps.messages_acknowledged_once_stored]).
    - Credentials: refresh tokens are spent once ([RestTokens.refresh_tokens_spent_once])
      and kept by the vault ([PgTokens.vault_is_a_token_store]).
    - Tamper evidence of the audit log, the bounds of rates and circuits, unambiguous
      automatic matches, who owns an agent's write.
    - Where the code and its comments part, a lemma exhibits the run that shows it.

    ** How Go is modelled

    Integers are [Z], wrapped to 64 bits ([wrap]) where the code computes with them; float64
    is [PrimFloat], or any [FloatOps] where a bound is stated in exact arithmetic. Strings are
    bytes. Messages are kept as format and arguments; [errors.Is] is [errors_is]. A nil
    pointer is [None], a nil slice is the empty list where the code does not tell them
    apart. Mutable state is passed by state monads. Objects behind a mutex are atomic
    steps. Where Go iterates over a map the order is the caller's ([Visits]), or any.

    Parameters, each a class with laws where something is relied on: the outside of the
    guard ([Env]), validators and plugin hosts of the verifier ([Externals]), JSON and hash
    encoders ([Json], [JsonColumns], [Encoders], [Crypto]), rendering of texts ([Texts]),
    Unicode tables ([Unicode]), JSONata ([Jsonata]), number formats ([Numbers]), floats
    ([FloatOps], [FloatMath]), services around a worker ([Services]), a worker's world
    ([World], [GuardedWorld], [AgentWorld], [GuardedAgentWorld]), the Temporal client
    ([AgentClient]), the dispatcher's backend ([Backend], [BackendLaws]) and the kinds of
    database faults ([FaultKind]). Every theorem that uses laws has a witness in which they
    are given concrete functions.

    Fuel: recursion over events, retries, signals and pages is structural on the list or
    the count that the code consumes (eight attempts of an activity, three of a request to
    SAP, which are enough, the events of a batch, the approval signals of a run), and where it is not (reading PEM blocks,
    matching expressions, JSON paths, domains) the fuel is the length of what is read, with a
    lemma that it suffices.

    ** What is not modelled

    Pure input and output (HTTP servers and clients, the console, the command line, file
    loading), third-party protocols of single connectors, plugins' WebAssembly host,
    Kubernetes, metrics and logs. Wall-clock timeouts appear only as the errors they
    cause, and a worker that dies does so between activities, not inside one. *)

From stdpp Require Export base tactics list strings gmap sorting pretty.
From Stdlib Require Export ZArith Lia.

(** Section lemmas depend on the variables their statements mention. *)
#[export] Set Default Proof Using "Type".

(** Go integers are 64-bit two's complement on every platform the code targets. *)
Definition int_min : Z := -9223372036854775808.
Definition int_max : Z := 9223372036854775807.
Definition int_mod : Z := 18446744073709551616.

(** [wrap z] is the value an int64 result takes after overflow. *)
Definition wrap (z : Z) : Z := ((z - int_min) mod int_mod + int_min)%Z.

Lemma wrap_small (z : Z) : (int_min <= z <= int_max)%Z -> wrap z = z.
Proof.
  unfold wrap, int_min, int_max, int_mod. intros H.
  rewrite Z.mod_small; lia.
Qed.

Lemma wrap_range (z : Z) : (int_min <= wrap z <= int_max)%Z.
Proof.
  unfold wrap, int_min, int_max, int_mod.
  pose proof (Z.mod_pos_bound (z - -9223372036854775808) 18446744073709551616). lia.
Qed.
