(* ===== verification/Prelude.v ===== *)
(** Shared lemmas, notations and automation: reflection of boolean tests,
    lists, the stable sort Go's [sort.SliceStable] performs, and the
    reflexive-transitive closure the state machines are explored with. *)

From S2P Require Import Turgon.

Create HintDb turgon.

(** ** Tactics *)

(** Turn every boolean equation of the context into the proposition it decides. *)
Ltac bools :=
  repeat match goal with
  | H : andb _ _ = true |- _ => apply andb_true_iff in H; destruct H
  | H : orb _ _ = false |- _ => apply orb_false_iff in H; destruct H
  | H : negb _ = true |- _ => apply negb_true_iff in H
  | H : negb _ = false |- _ => apply negb_false_iff in H
  | H : Z.eqb _ _ = true |- _ => apply Z.eqb_eq in H
  | H : Z.eqb _ _ = false |- _ => apply Z.eqb_neq in H
  | H : Z.ltb _ _ = true |- _ => apply Z.ltb_lt in H
  | H : Z.ltb _ _ = false |- _ => apply Z.ltb_ge in H
  | H : Z.leb _ _ = true |- _ => apply Z.leb_le in H
  | H : Z.leb _ _ = false |- _ => apply Z.leb_gt in H
  | H : String.eqb _ _ = true |- _ => apply String.eqb_eq in H
  | H : String.eqb _ _ = false |- _ => apply String.eqb_neq in H
  | H : bool_decide _ = true |- _ => apply bool_decide_eq_true in H
  | H : bool_decide _ = false |- _ => apply bool_decide_eq_false in H
  end.

(** Split every [match] and [if] of a hypothesis, discarding impossible branches. *)
Ltac split_in H :=
  repeat (match type of H with context [match ?x with _ => _ end] =>
            destruct x eqn:?; simplify_eq/= end);
  simplify_eq/=.

(** Split every [match] and [if] of the goal. *)
Ltac split_goal :=
  repeat (match goal with |- context [match ?x with _ => _ end] =>
            destruct x eqn:?; simplify_eq/= end).

(** ** Options *)

Definition is_some {A} (o : option A) : bool := match o with Some _ => true | None => false end.

Lemma is_some_true {A} (o : option A) : is_some o = true <-> is_Some o.
Proof. destruct o; cbn; split; [eauto|done|done|]. intros [? [=]]. Qed.

(** ** Reachability *)

Section star.
Context {A : Type} (R : A -> A -> Prop).

Inductive star : A -> A -> Prop :=
| star_refl a : star a a
| star_snoc a b c : star a b -> R b c -> star a c.

(** An invariant of every step holds in every reachable state. *)
Lemma star_invariant (P : A -> Prop) a b :
  (forall x y, P x -> R x y -> P y) -> P a -> star a b -> P b.
Proof. intros Hstep Ha. induction 1; eauto. Qed.
End star.

(** ** Lists *)

(** First element satisfying a boolean test: the [for ... if ... return] loops. *)
Fixpoint find_first {A} (f : A -> bool) (l : list A) : option A :=
  match l with
  | [] => None
  | x :: l => if f x then Some x else find_first f l
  end.

Lemma find_first_some {A} (f : A -> bool) l x :
  find_first f l = Some x -> x ∈ l /\ f x = true.
Proof.
  induction l as [|y l IH]; [done|]. cbn. destruct (f y) eqn:E.
  - intros [= ->]. split; [left|done].
  - intros H. destruct (IH H). split; [by right|done].
Qed.

Lemma find_first_none {A} (f : A -> bool) l :
  find_first f l = None <-> Forall (fun x => f x = false) l.
Proof.
  induction l as [|y l IH]; cbn; [done|].
  destruct (f y) eqn:E; rewrite Forall_cons; [|by rewrite IH; split; [|intros []]].
  split; [done|]. intros []. congruence.
Qed.

Lemma find_first_is_some {A} (f : A -> bool) l x :
  x ∈ l -> f x = true -> is_Some (find_first f l).
Proof.
  intros Hx Hf. destruct (find_first f l) eqn:E; [eauto|].
  apply find_first_none in E. rewrite Forall_forall in E.
  specialize (E x Hx). congruence.
Qed.

(** A list indexed from [i], as [for i, x := range l] visits it. *)
Fixpoint indexed_from {A} (i : Z) (l : list A) : list (Z * A) :=
  match l with
  | [] => []
  | x :: l => (i, x) :: indexed_from (i + 1)%Z l
  end.
Definition indexed {A} (l : list A) : list (Z * A) := indexed_from 0 l.

Lemma indexed_from_snd {A} i (l : list A) : (indexed_from i l).*2 = l.
Proof. revert i. induction l as [|x l IH]; intros i; cbn; [done|]. by rewrite IH. Qed.

Lemma indexed_snd {A} (l : list A) : (indexed l).*2 = l.
Proof. apply indexed_from_snd. Qed.

Lemma elem_of_indexed {A} (l : list A) i x : (i, x) ∈ indexed l -> x ∈ l.
Proof.
  intros H. rewrite <- (indexed_snd l). apply (list_elem_of_fmap_2 snd _ (i, x) H).
Qed.

Lemma indexed_elem_of {A} (l : list A) x : x ∈ l -> exists i, (i, x) ∈ indexed l.
Proof.
  rewrite <- (indexed_snd l) at 1. intros H.
  apply list_elem_of_fmap_1 in H as ([i y] & -> & H). by exists i.
Qed.

(** Folding is blind to the order of a list when the steps commute on states that keep
    an invariant. *)
Lemma fold_left_perm_inv {A B} (P : B -> Prop) (f : B -> A -> B) (l1 l2 : list A) b :
  (forall b x, x ∈ l1 -> P b -> P (f b x)) ->
  (forall b x y, x ∈ l1 -> y ∈ l1 -> P b -> f (f b x) y = f (f b y) x) ->
  P b -> l1 ≡ₚ l2 -> fold_left f l1 b = fold_left f l2 b.
Proof.
  intros Hp Hc Hb Hl. revert b Hp Hc Hb.
  induction Hl as [|x l1 l2 Hl IH|x y l|l1 l2 l3 H1 IH1 H2 IH2]; intros b Hp Hc Hb; cbn.
  - done.
  - apply IH; [| |apply Hp; [left|done]]; intros; [apply Hp|apply Hc]; try done; by right.
  - f_equal. apply Hc; [set_solver..|done].
  - rewrite IH1 by done. apply IH2; [..|done]; intros; [apply Hp|apply Hc]; try done; by rewrite H1.
Qed.

(** ** A stable sort *)

(** Insertion before the first element strictly greater: elements that compare
    equal keep their order, as with [sort.SliceStable]. *)
Section isort.
Context {A : Type} (le : A -> A -> bool).

Fixpoint insert_sorted (x : A) (l : list A) : list A :=
  match l with
  | [] => [x]
  | y :: l' => if le x y then x :: l else y :: insert_sorted x l'
  end.

Fixpoint isort (l : list A) : list A :=
  match l with
  | [] => []
  | x :: l => insert_sorted x (isort l)
  end.

Lemma insert_sorted_perm x l : insert_sorted x l ≡ₚ x :: l.
Proof.
  induction l as [|y l IH]; cbn; [done|].
  destruct (le x y); [done|]. rewrite IH. apply Permutation_swap.
Qed.

Lemma isort_perm l : isort l ≡ₚ l.
Proof. induction l as [|x l IH]; cbn; [done|]. by rewrite insert_sorted_perm, IH. Qed.

Definition ordered (l : list A) : Prop := StronglySorted (fun x y => le x y = true) l.

(** On elements of [P] the comparison need only be total and transitive there. *)
Lemma insert_sorted_ordered_on (P : A -> Prop) x l :
  (forall x y, P x -> P y -> le x y = true \/ le y x = true) ->
  (forall x y z, P x -> P y -> P z -> le x y = true -> le y z = true -> le x z = true) ->
  P x -> Forall P l -> ordered l -> ordered (insert_sorted x l).
Proof.
  intros Htot Htr Hx HP Hl. induction Hl as [|y l Hl IH Hy]; cbn; [repeat constructor|].
  inversion HP as [|?? Py Pl]; subst. destruct (le x y) eqn:E.
  - constructor; [by constructor|]. constructor; [done|].
    rewrite Forall_forall in *. intros z Hz. apply (Htr x y z); auto.
  - constructor; [by apply IH|]. rewrite insert_sorted_perm. constructor; [|done].
    destruct (Htot x y); auto; congruence.
Qed.

Lemma isort_ordered_on (P : A -> Prop) l :
  (forall x y, P x -> P y -> le x y = true \/ le y x = true) ->
  (forall x y z, P x -> P y -> P z -> le x y = true -> le y z = true -> le x z = true) ->
  Forall P l -> ordered (isort l).
Proof.
  intros Htot Htr. induction 1 as [|x l Hx Hl IH]; cbn; [constructor|].
  apply (insert_sorted_ordered_on P); try done. by rewrite isort_perm.
Qed.

Context (le_total : forall x y, le x y = true \/ le y x = true).
Context (le_trans : forall x y z, le x y = true -> le y z = true -> le x z = true).

Lemma insert_sorted_ordered x l : ordered l -> ordered (insert_sorted x l).
Proof using le_total le_trans.
  induction 1 as [|y l Hl IH Hy]; cbn; [repeat constructor|].
  destruct (le x y) eqn:E.
  - constructor; [by constructor|]. constructor; [done|].
    eapply Forall_impl; [exact Hy|]. intros z Hz. by apply (le_trans x y z).
  - constructor; [done|]. rewrite insert_sorted_perm. constructor; [|done].
    destruct (le_total x y); congruence.
Qed.

Lemma isort_ordered l : ordered (isort l).
Proof using le_total le_trans. induction l; cbn; [constructor|]. by apply insert_sorted_ordered. Qed.

(** Two orderings of the same elements agree when ties are equal elements. *)
Lemma ordered_unique l1 l2 :
  (forall x y, x ∈ l1 -> y ∈ l1 -> le x y = true -> le y x = true -> x = y) ->
  l1 ≡ₚ l2 -> ordered l1 -> ordered l2 -> l1 = l2.
Proof.
  revert l2. induction l1 as [|x l1 IH]; intros l2 Hanti Hp H1 H2.
  { apply Permutation_nil_l in Hp. done. }
  destruct l2 as [|y l2]; [by apply Permutation_nil_r in Hp|].
  inversion H1 as [|?? Hl1 Hx]; subst. inversion H2 as [|?? Hl2 Hy]; subst.
  assert (x = y) as ->.
  { assert (x ∈ y :: l2) as Hxin by (rewrite <- Hp; left).
    assert (y ∈ x :: l1) as Hyin by (rewrite Hp; left).
    apply elem_of_cons in Hxin as [->|Hxin]; [done|].
    apply elem_of_cons in Hyin as [->|Hyin]; [done|].
    rewrite Forall_forall in Hx, Hy.
    apply Hanti; [left|by right|by apply Hx|by apply Hy]. }
  f_equal. apply IH; auto.
  - intros. apply Hanti; auto; by right.
  - by apply Permutation_cons_inv in Hp.
Qed.
End isort.

(** Sorting the same elements from two starting orders gives one list. *)
Lemma isort_unique {A} (le : A -> A -> bool) (l1 l2 : list A) :
  (forall x y, le x y = true \/ le y x = true) ->
  (forall x y z, le x y = true -> le y z = true -> le x z = true) ->
  (forall x y, x ∈ l1 -> y ∈ l1 -> le x y = true -> le y x = true -> x = y) ->
  l1 ≡ₚ l2 -> isort le l1 = isort le l2.
Proof.
  intros Ht Htr Ha Hp. apply (ordered_unique le).
  - intros x y. rewrite isort_perm. auto.
  - by rewrite !isort_perm.
  - by apply isort_ordered.
  - by apply isort_ordered.
Qed.

(** Elements the sort does not tell apart keep their order. *)
Lemma isort_stable {A} (le : A -> A -> bool) (p : A -> bool) (l : list A) :
  (forall x y, p x = true -> p y = true -> le x y = true) ->
  List.filter p (isort le l) = List.filter p l.
Proof.
  intros Hp. induction l as [|x l IH]; cbn; [done|].
  assert (Hins : forall l', List.filter p (insert_sorted le x l') = List.filter p (x :: l')).
  { intros l'. induction l' as [|y l' IH']; cbn; [done|].
    destruct (le x y) eqn:E; cbn; [done|]. rewrite IH'. cbn.
    destruct (p x) eqn:Px, (p y) eqn:Py; try done.
    by rewrite (Hp x y) in E. }
  rewrite Hins. cbn. by rewrite IH.
Qed.
