(* ===== verification/GoStr.v ===== *)
(** Go's byte strings and the functions of [strings], [strconv] and [fmt] the
    program uses. A Go string is a sequence of bytes, and so is Rocq's [string].
    [strings.ToLower] and [strings.ToUpper] are modelled on ASCII bytes. *)

From S2P Require Import Turgon Prelude.
From Stdlib Require Import Ascii String DecimalString DecimalN DecimalZ DecimalFacts.

Declare Scope go_scope.
Delimit Scope go_scope with go.
Open Scope string_scope.
Open Scope list_scope.

(** Concatenation of strings, kept apart from the one of lists. *)
Infix "+++" := String.append (at level 60, right associativity) : go_scope.
Open Scope go_scope.

#[global] Arguments String.append !_ _ /.
#[global] Arguments ascii_dec : simpl never.

(** ** Bytes *)

Definition byte_in (lo hi c : ascii) : bool := (lo <=? c)%char && (c <=? hi)%char.
Definition is_digit (c : ascii) : bool := byte_in "0" "9" c.
Definition is_lower (c : ascii) : bool := byte_in "a" "z" c.
Definition is_upper (c : ascii) : bool := byte_in "A" "Z" c.

(** Printable ASCII, the blank excluded: never part of white space. *)
Definition is_graph (c : ascii) : bool := byte_in "!" "~" c.

Fixpoint str_all (p : ascii -> bool) (s : string) : bool :=
  match s with
  | "" => true
  | String c s => p c && str_all p s
  end.

Fixpoint contains_byte (c : ascii) (s : string) : bool :=
  match s with
  | "" => false
  | String a s => if ascii_dec a c then true else contains_byte c s
  end.

(** ** Prefixes, cuts and splits *)

(** [strings.CutPrefix]: what follows the prefix, if it is one. *)
Fixpoint strip_prefix (p s : string) : option string :=
  match p, s with
  | "", _ => Some s
  | String a p, String b s => if ascii_dec a b then strip_prefix p s else None
  | String _ _, "" => None
  end.

Definition has_prefix (p s : string) : bool := is_some (strip_prefix p s).
Definition trim_prefix (p s : string) : string := default s (strip_prefix p s).

(** [strings.Contains]. *)
Fixpoint contains_text (p s : string) : bool :=
  is_some (strip_prefix p s) || match s with "" => false | String _ s => contains_text p s end.

Fixpoint str_rev_app (s acc : string) : string :=
  match s with
  | "" => acc
  | String c s => str_rev_app s (String c acc)
  end.
Definition str_rev (s : string) : string := str_rev_app s "".

Definition has_suffix (p s : string) : bool := has_prefix (str_rev p) (str_rev s).

(** [strings.Cut] at a one-byte separator: the parts around its first occurrence. *)
Fixpoint cut_first (c : ascii) (s : string) : option (string * string) :=
  match s with
  | "" => None
  | String a s' =>
      if ascii_dec a c then Some ("", s')
      else match cut_first c s' with
           | Some (l, r) => Some (String a l, r)
           | None => None
           end
  end.

(** The parts around the last occurrence ([strings.LastIndex]). *)
Fixpoint cut_last (c : ascii) (s : string) : option (string * string) :=
  match s with
  | "" => None
  | String a s' =>
      match cut_last c s' with
      | Some (l, r) => Some (String a l, r)
      | None => if ascii_dec a c then Some ("", s') else None
      end
  end.

(** [strings.Split] at a one-byte separator; never empty. *)
Fixpoint split_on (c : ascii) (s : string) : list string :=
  match s with
  | "" => [""]
  | String a s' =>
      if ascii_dec a c then "" :: split_on c s'
      else match split_on c s' with
           | h :: t => String a h :: t
           | [] => [String a ""]
           end
  end.

(** [strings.Join]. *)
Definition join (sep : string) (l : list string) : string := String.concat sep l.

(** [strings.ReplaceAll] of one byte by another. *)
Fixpoint replace_byte (from to : ascii) (s : string) : string :=
  match s with
  | "" => ""
  | String a s => String (if ascii_dec a from then to else a) (replace_byte from to s)
  end.

(** ** Letter case *)

Definition lower_byte (c : ascii) : ascii :=
  if is_upper c then ascii_of_N (N_of_ascii c + 32) else c.
Definition upper_byte (c : ascii) : ascii :=
  if is_lower c then ascii_of_N (N_of_ascii c - 32) else c.

Fixpoint to_lower (s : string) : string :=
  match s with
  | "" => ""
  | String c s => String (lower_byte c) (to_lower s)
  end.

(** Upper-case or lower-case the first letter only. *)
Definition upper_first (s : string) : string :=
  match s with "" => "" | String c s => String (upper_byte c) s end.
Definition lower_first (s : string) : string :=
  match s with "" => "" | String c s => String (lower_byte c) s end.

Fixpoint to_upper (s : string) : string :=
  match s with
  | "" => ""
  | String c s => String (upper_byte c) (to_upper s)
  end.

(** ** White space *)

Definition bytes (l : list N) : string := string_of_list_ascii (map ascii_of_N l).

(** UTF-8 encodings of the characters [unicode.IsSpace] accepts: the ASCII ones,
    U+0085, U+00A0, U+1680, U+2000 to U+200A, U+2028, U+2029, U+202F, U+205F, U+3000. *)
Definition space_seqs : list string :=
  ([bytes [9]; bytes [10]; bytes [11]; bytes [12]; bytes [13]; bytes [32];
    bytes [0xC2; 0x85]; bytes [0xC2; 0xA0]; bytes [0xE1; 0x9A; 0x80]] ++
   map (fun n => bytes [0xE2; 0x80; n])
     [0x80; 0x81; 0x82; 0x83; 0x84; 0x85; 0x86; 0x87; 0x88; 0x89; 0x8A; 0xA8; 0xA9; 0xAF] ++
   [bytes [0xE2; 0x81; 0x9F]; bytes [0xE3; 0x80; 0x80]])%N.

(** Strip one of the sequences from the front. *)
Fixpoint strip_any (seqs : list string) (s : string) : option string :=
  match seqs with
  | [] => None
  | p :: seqs => match strip_prefix p s with Some r => Some r | None => strip_any seqs s end
  end.

Fixpoint trim_left_with (seqs : list string) (fuel : nat) (s : string) : string :=
  match fuel with
  | O => s
  | S fuel => match strip_any seqs s with Some r => trim_left_with seqs fuel r | None => s end
  end.

Definition trim_left (s : string) : string := trim_left_with space_seqs (String.length s) s.
Definition trim_right (s : string) : string :=
  str_rev (trim_left_with (map str_rev space_seqs) (String.length s) (str_rev s)).

(** [strings.TrimSpace]. *)
Definition trim_space (s : string) : string := trim_right (trim_left s).

(** ** Decimal integers *)

(** [fmt]'s %d. *)
Definition itoa (z : Z) : string :=
  match z with
  | Z0 => "0"
  | Zpos p => NilEmpty.string_of_uint (Pos.to_uint p)
  | Zneg p => "-" +++ NilEmpty.string_of_uint (Pos.to_uint p)
  end.

(** A non-empty run of decimal digits, read in base ten. *)
Definition digits_value (s : string) : option Z :=
  match s with
  | "" => None
  | _ => match NilEmpty.uint_of_string s with
         | Some d => Some (Z.of_N (N.of_uint d))
         | None => None
         end
  end.

Definition in_int64 (o : option Z) : option Z :=
  match o with
  | Some z => if (int_min <=? z)%Z && (z <=? int_max)%Z then Some z else None
  | None => None
  end.

(** [strconv.Atoi]: an optional sign, digits, and the value within an int64. *)
Definition atoi (s : string) : option Z :=
  match s with
  | "" => None
  | String c r =>
      if ascii_dec c "+" then in_int64 (digits_value r)
      else if ascii_dec c "-" then in_int64 (Z.opp <$> digits_value r)
      else in_int64 (digits_value s)
  end.

(** The first [n] bytes, and the rest. *)
Fixpoint str_cut (n : nat) (s : string) : string * string :=
  match n, s with
  | S n, String c s => let (a, b) := str_cut n s in (String c a, b)
  | _, _ => ("", s)
  end.

(** Hexadecimal digits, as they are written and read. *)
Definition hex_digit (n : N) : ascii := ascii_of_N (if (n <? 10)%N then 48 + n else 55 + n)%N.
Definition unhex (c : ascii) : option N :=
  let n := N_of_ascii c in
  if byte_in "0" "9" c then Some (n - 48)%N
  else if byte_in "a" "f" c then Some (n - 87)%N
  else if byte_in "A" "F" c then Some (n - 55)%N
  else None.

(** ** Order: Go compares strings byte by byte *)

Definition str_le (s t : string) : bool := String.leb s t.
Definition str_lt (s t : string) : bool := String.ltb s t.

(** ** Lemmas *)

Lemma str_app_nil_r (s : string) : s +++ "" = s.
Proof. induction s as [|c s IH]; cbn; [done|]. by rewrite IH. Qed.

Lemma str_app_assoc (s t u : string) : (s +++ t) +++ u = s +++ (t +++ u).
Proof. induction s as [|c s IH]; cbn; [done|]. by rewrite IH. Qed.

Lemma str_length_app s t : String.length (s +++ t) = String.length s + String.length t.
Proof. induction s as [|c s IH]; [done|]. cbn. by rewrite IH. Qed.

Lemma str_cut_app s t : str_cut (String.length s) (s +++ t) = (s, t).
Proof. induction s as [|c s IH]; [by destruct t|]. cbn. by rewrite IH. Qed.

Lemma str_cut_spec n s a b : str_cut n s = (a, b) -> n <= String.length s -> s = a +++ b /\ String.length a = n.
Proof.
  revert s a b. induction n as [|n IH]; intros [|c s] a b H Hn; cbn in *; try (injection H as <- <-; done); [lia|].
  destruct (str_cut n s) as [a' b'] eqn:E. injection H as <- <-. apply IH in E as [-> <-]; [done|lia].
Qed.

Lemma str_app_eq_nil (s t : string) : s +++ t = "" -> s = "" /\ t = "".
Proof. destruct s; cbn; [done|discriminate]. Qed.

Lemma str_all_app p s t : str_all p (s +++ t) = str_all p s && str_all p t.
Proof. induction s as [|c s IH]; cbn; [done|]. by rewrite IH, andb_assoc. Qed.

Lemma str_all_impl (p q : ascii -> bool) s :
  (forall c, p c = true -> q c = true) -> str_all p s = true -> str_all q s = true.
Proof.
  intros Hpq. induction s as [|c s IH]; cbn; [done|]. intros H. bools.
  rewrite Hpq, IH; done.
Qed.

Lemma str_all_not_contains p c s :
  str_all p s = true -> p c = false -> contains_byte c s = false.
Proof.
  intros H Hc. induction s as [|a s IH]; cbn in *; [done|]. bools.
  destruct (ascii_dec a c); [congruence|]. auto.
Qed.

Lemma strip_prefix_spec p s r : strip_prefix p s = Some r <-> s = p +++ r.
Proof.
  revert s. induction p as [|a p IH]; intros s; cbn.
  - split; [by intros [= ->]|by intros ->].
  - destruct s as [|b s]; [by split|].
    destruct (ascii_dec a b) as [->|Hne].
    + rewrite IH. split; [by intros ->|by intros [= ->]].
    + split; [done|]. by intros [= ->].
Qed.

Lemma has_prefix_app p s : has_prefix p (p +++ s) = true.
Proof. unfold has_prefix. by rewrite (proj2 (strip_prefix_spec p (p +++ s) s)). Qed.

Lemma has_prefix_inv p s : has_prefix p s = true -> exists r, s = p +++ r.
Proof.
  unfold has_prefix. destruct (strip_prefix p s) as [r|] eqn:E; [|done].
  intros _. exists r. by apply strip_prefix_spec.
Qed.

Lemma cut_first_spec c s l r :
  cut_first c s = Some (l, r) <-> s = l +++ String c r /\ contains_byte c l = false.
Proof.
  revert l r. induction s as [|a s IH]; intros l r; cbn.
  - split; [done|]. intros [H _]. by destruct l.
  - destruct (ascii_dec a c) as [->|Hne].
    + split; [by intros [= <- <-]|]. intros [H Hl]. destruct l as [|b l]; cbn in *.
      * by simplify_eq.
      * simplify_eq. by destruct (ascii_dec b b).
    + split.
      * destruct (cut_first c s) as [[l' r']|] eqn:E; [|done]. intros [= <- <-].
        destruct (proj1 (IH l' r') eq_refl) as [-> Hl]. cbn.
        split; [done|]. by destruct (ascii_dec a c).
      * intros [H Hl]. destruct l as [|b l]; cbn in *; simplify_eq.
        destruct (ascii_dec b c); [done|].
        by rewrite (proj2 (IH l r)).
Qed.

Lemma cut_first_none c s : cut_first c s = None <-> contains_byte c s = false.
Proof.
  induction s as [|a s IH]; cbn; [done|].
  destruct (ascii_dec a c); [done|].
  rewrite <- IH. by destruct (cut_first c s) as [[l r]|].
Qed.

Lemma split_on_nonempty c s : split_on c s <> [].
Proof.
  destruct s as [|a s]; cbn; [done|]. destruct (ascii_dec a c); [done|].
  by destruct (split_on c s).
Qed.

Lemma split_on_none c s : contains_byte c s = false -> split_on c s = [s].
Proof.
  induction s as [|a s IH]; cbn; [done|].
  destruct (ascii_dec a c); [done|]. intros H. by rewrite IH.
Qed.

Lemma split_on_app c s t :
  contains_byte c s = false -> split_on c (s +++ String c t) = s :: split_on c t.
Proof.
  induction s as [|a s IH]; cbn.
  - by destruct (ascii_dec c c).
  - destruct (ascii_dec a c); [done|]. intros H. by rewrite IH.
Qed.

(** Joining what [split_on] separated gives the string back. *)
Lemma split_on_join c s : join (String c "") (split_on c s) = s.
Proof.
  unfold join. induction s as [|a s IH]; cbn; [done|].
  destruct (ascii_dec a c) as [->|Hne].
  - pose proof (split_on_nonempty c s). cbn in *.
    destruct (split_on c s) eqn:E; [done|]. cbn in *. by rewrite IH.
  - pose proof (split_on_nonempty c s).
    destruct (split_on c s) as [|h t] eqn:E; [done|]. rewrite <- IH.
    destruct t; done.
Qed.

Lemma str_rev_app_spec s acc : str_rev_app s acc = str_rev s +++ acc.
Proof.
  unfold str_rev. revert acc. induction s as [|c s IH]; intros acc; cbn; [done|].
  rewrite IH, (IH (String c "")), str_app_assoc. done.
Qed.

Lemma str_rev_cons c s : str_rev (String c s) = str_rev s +++ String c "".
Proof. unfold str_rev at 1. cbn. by rewrite str_rev_app_spec. Qed.

Lemma str_rev_app_dist s t : str_rev (s +++ t) = str_rev t +++ str_rev s.
Proof.
  induction s as [|c s IH]; cbn.
  - change (str_rev "") with "". by rewrite str_app_nil_r.
  - change (str_rev (String c (s +++ t)) = str_rev t +++ str_rev (String c s)). by rewrite !str_rev_cons, IH, str_app_assoc.
Qed.

Lemma str_rev_involutive s : str_rev (str_rev s) = s.
Proof.
  induction s as [|c s IH]; [done|]. rewrite str_rev_cons, str_rev_app_dist, IH. done.
Qed.

Lemma str_all_rev p s : str_all p (str_rev s) = str_all p s.
Proof.
  induction s as [|c s IH]; [done|].
  rewrite str_rev_cons, str_all_app, IH. cbn. rewrite andb_true_r. apply andb_comm.
Qed.

(** *** White space *)

Lemma trim_left_with_id seqs fuel s : strip_any seqs s = None -> trim_left_with seqs fuel s = s.
Proof. intros H. destruct fuel; cbn; [done|]. by rewrite H. Qed.

(** A text of printable bytes starts with no white space. *)
Lemma strip_any_graph seqs s :
  forallb (fun p => match p with String c _ => negb (is_graph c) | "" => false end) seqs = true ->
  str_all is_graph s = true -> strip_any seqs s = None.
Proof.
  intros Hs Hg. induction seqs as [|p seqs IH]; cbn in *; [done|].
  apply andb_true_iff in Hs as [Hp Hs]. rewrite IH by done.
  destruct p as [|c p]; [done|]. destruct s as [|d s]; cbn in *; [done|].
  destruct (ascii_dec c d) as [->|]; [|done]. bools. congruence.
Qed.

Lemma trim_space_graph s : str_all is_graph s = true -> trim_space s = s.
Proof.
  intros H. unfold trim_space, trim_left, trim_right.
  rewrite (trim_left_with_id space_seqs) by (by apply strip_any_graph).
  rewrite trim_left_with_id; [apply str_rev_involutive|].
  apply strip_any_graph; [done|]. by rewrite str_all_rev.
Qed.

(** *** Decimal integers *)

Lemma string_of_uint_digits d : str_all is_digit (NilEmpty.string_of_uint d) = true.
Proof. induction d; cbn; done. Qed.

Lemma pos_digits_value p :
  digits_value (NilEmpty.string_of_uint (Pos.to_uint p)) = Some (Zpos p).
Proof.
  unfold digits_value. rewrite NilEmpty.usu.
  destruct (NilEmpty.string_of_uint (Pos.to_uint p)) eqn:E.
  - destruct (Pos.to_uint p) eqn:E'; try discriminate.
    by apply DecimalPos.Unsigned.to_uint_nonnil in E'.
  - f_equal. change (Pos.to_uint p) with (N.to_uint (Npos p)).
    by rewrite DecimalN.Unsigned.of_to.
Qed.

Definition decimal_literal (s : string) : Prop :=
  str_all is_digit s = true /\ s <> "" /\
  match s with String c (String _ _) => c <> "0"%char | _ => True end.

Lemma pos_literal p : decimal_literal (NilEmpty.string_of_uint (Pos.to_uint p)).
Proof.
  split; [apply string_of_uint_digits|].
  assert (Hn : Pos.to_uint p <> Decimal.Nil) by apply DecimalPos.Unsigned.to_uint_nonnil.
  assert (Hz : Pos.to_uint p = Decimal.unorm (Pos.to_uint p)).
  { change (Pos.to_uint p) with (N.to_uint (Npos p)).
    rewrite <- DecimalN.Unsigned.to_of. by rewrite DecimalN.Unsigned.of_to. }
  assert (H0 : forall d, Decimal.D0 d = Decimal.unorm (Decimal.D0 d) -> d = Decimal.Nil).
  { intros d. unfold Decimal.unorm. cbn.
    destruct (Decimal.nzhead d) eqn:E; try congruence. by apply DecimalFacts.nzhead_nonzero in E. }
  destruct (Pos.to_uint p) as [|d|d|d|d|d|d|d|d|d|d]; [done|..].
  1: rewrite (H0 d Hz); done.
  all: cbn; split; [discriminate|]; destruct d; cbn; try exact I; discriminate.
Qed.

Lemma in_int64_some o z : in_int64 o = Some z <-> o = Some z /\ (int_min <= z <= int_max)%Z.
Proof.
  unfold in_int64. destruct o as [y|]; [|by split; [|intros []]].
  destruct ((int_min <=? y)%Z && (y <=? int_max)%Z) eqn:E; split.
  - intros [= ->]. bools. split; [done|lia].
  - by intros [[= ->] _].
  - done.
  - intros [[= ->] H]. apply andb_false_iff in E as [E|E]; bools; lia.
Qed.

Lemma atoi_bounds s z : atoi s = Some z -> (int_min <= z <= int_max)%Z.
Proof.
  unfold atoi. destruct s as [|c r]; [done|].
  intros H. repeat case_match; by apply in_int64_some in H as [_ H].
Qed.

Lemma itoa_literal z : (0 <= z)%Z -> decimal_literal (itoa z).
Proof. intros H. destruct z as [|p|p]; cbn; [done|apply pos_literal|lia]. Qed.

Lemma atoi_itoa z : (0 <= z <= int_max)%Z -> atoi (itoa z) = Some z.
Proof.
  intros H. destruct (itoa_literal z) as (Hd & Hn & _); [lia|].
  assert (Hv : digits_value (itoa z) = Some z).
  { destruct z as [|p|p]; [done|apply pos_digits_value|lia]. }
  unfold atoi. destruct (itoa z) as [|c r] eqn:E; [done|]. cbn in Hd. bools.
  destruct (ascii_dec c "+") as [->|_]; [done|].
  destruct (ascii_dec c "-") as [->|_]; [done|].
  apply in_int64_some. split; [done|]. unfold int_min. lia.
Qed.

(** *** Order *)

Lemma str_le_total s t : str_le s t = true \/ str_le t s = true.
Proof. apply String.leb_total. Qed.

Lemma str_le_antisym s t : str_le s t = true -> str_le t s = true -> s = t.
Proof. apply String.leb_antisym. Qed.

Lemma str_le_trans s t u : str_le s t = true -> str_le t u = true -> str_le s u = true.
Proof.
  unfold str_le. intros H1 H2.
  assert (String.le s u) as H; [|by apply Is_true_true in H].
  by etransitivity; apply Is_true_true.
Qed.

Lemma str_le_refl s : str_le s s = true.
Proof. by destruct (str_le_total s s). Qed.

Lemma str_compare_refl s : String.compare s s = Eq.
Proof.
  induction s as [|c s IH]; cbn; [done|].
  unfold Ascii.compare. by rewrite N.compare_refl.
Qed.

Lemma str_lt_spec s t : str_lt s t = true <-> str_le s t = true /\ s <> t.
Proof.
  unfold str_lt, str_le, String.ltb, String.leb.
  destruct (s ?= t)%string eqn:E; split; try done.
  - intros [_ H]. by apply String.compare_eq_iff in E.
  - intros _. split; [done|]. intros ->.
    pose proof (str_compare_refl t). congruence.
  - by intros [].
Qed.

(** Strings sorted byte by byte; ties are equal strings, so the result is unique. *)
Definition sort_strings (l : list string) : list string := isort str_le l.

Lemma sort_strings_perm l : sort_strings l ≡ₚ l.
Proof. apply isort_perm. Qed.

Lemma sort_strings_unique l1 l2 : l1 ≡ₚ l2 -> sort_strings l1 = sort_strings l2.
Proof.
  apply isort_unique; eauto using str_le_total, str_le_trans, str_le_antisym.
Qed.

#[export] Hint Resolve str_le_total str_le_antisym str_le_refl : turgon.

Lemma split_on_sep c s t : split_on c (s +++ String c t) = split_on c s ++ split_on c t.
Proof.
  induction s as [|a s IH]; cbn.
  - by destruct (ascii_dec c c).
  - rewrite IH. destruct (ascii_dec a c); [done|].
    pose proof (split_on_nonempty c s). by destruct (split_on c s).
Qed.

(** Splitting what was joined gives the parts back, if none holds the separator. *)
Lemma split_on_of_join c l :
  l <> [] -> Forall (fun s => contains_byte c s = false) l -> split_on c (join (String c "") l) = l.
Proof.
  unfold join. intros Hl H. induction H as [|s l Hs H IH]; [done|].
  destruct l as [|s' l]; [by apply split_on_none|].
  change (String.concat (String c "") (s :: s' :: l))
    with (s +++ String c (String.concat (String c "") (s' :: l))).
  rewrite split_on_app by done. by rewrite IH.
Qed.

Lemma str_all_join p c l :
  p c = true -> Forall (fun s => str_all p s = true) l -> str_all p (join (String c "") l) = true.
Proof.
  unfold join. intros Hc H. induction H as [|s l Hs H IH]; [done|].
  destruct l as [|s' l]; [done|].
  change (String.concat (String c "") (s :: s' :: l))
    with (s +++ String c (String.concat (String c "") (s' :: l))).
  rewrite str_all_app, Hs. cbn [str_all]. by rewrite Hc, IH.
Qed.

Lemma contains_app c s t : contains_byte c (s +++ t) = contains_byte c s || contains_byte c t.
Proof. induction s as [|a s IH]; cbn; [done|]. by destruct (ascii_dec a c). Qed.

Lemma itoa_digits z : (0 <= z)%Z -> str_all is_digit (itoa z) = true.
Proof. intros H. by apply itoa_literal. Qed.
