(* ===== verification/GoText.v ===== *)
(** Texts that stand for bytes: percent-escapes of [net/url], [encoding/hex],
    [encoding/base64] and the header keys of [net/http]. *)

From S2P Require Import Turgon Prelude GoStr.
From Stdlib Require Import Ascii String.

(** ** Percent-escapes *)

Definition letter_or_digit (c : ascii) : bool := byte_in "A" "Z" c || byte_in "a" "z" c || byte_in "0" "9" c.

(** [url.PathEscape]: what a path segment keeps, and the rest in hexadecimal. *)
Definition keep_byte (c : ascii) : bool :=
  letter_or_digit c || existsb (Ascii.eqb c) ["-"; "_"; "."; "~"; "$"; "&"; "+"; ":"; "="; "@"]%char.

Definition percent (c : ascii) : string :=
  String "%" (String (hex_digit (N_of_ascii c / 16)) (String (hex_digit (N_of_ascii c mod 16)) "")).

Fixpoint escape_with (keep : ascii -> bool) (s : string) : string :=
  match s with
  | "" => ""
  | String c s => if keep c then String c (escape_with keep s) else percent c +++ escape_with keep s
  end.
Definition path_escape : string -> string := escape_with keep_byte.

(** [url.PathUnescape]. *)
Fixpoint path_unescape (s : string) : option string :=
  match s with
  | "" => Some ""
  | String c s =>
      if ascii_dec c "%" then
        match s with
        | String a (String b s) =>
            match unhex a, unhex b, path_unescape s with
            | Some x, Some y, Some s => Some (String (ascii_of_N (16 * x + y)) s)
            | _, _, _ => None
            end
        | _ => None
        end
      else match path_unescape s with Some s => Some (String c s) | None => None end
  end.

(** [url.QueryEscape], and [Values.Encode] of single values. *)
Definition unreserved (c : ascii) : bool := letter_or_digit c || existsb (Ascii.eqb c) ["-"; "_"; "."; "~"]%char.
Definition query_escape (s : string) : string :=
  replace_byte " " "+" (escape_with (fun c => unreserved c || Ascii.eqb c " ") s).

Definition encode_query (q : gmap string string) : string :=
  join "&" (map (fun k => query_escape k +++ "=" +++ query_escape (default "" (q !! k))) (sort_strings (elements (dom q)))).

(** [QueryUnescape], and the value of a key of [ParseQuery]. *)
Definition query_unescape (s : string) : option string := path_unescape (replace_byte "+" " " s).
Definition pair_for (k p : string) : bool :=
  match cut_first "=" p with Some (l, _) => bool_decide (query_unescape l = Some k) | None => false end.
Definition query_value (k s : string) : option string :=
  match find_first (pair_for k) (split_on "&" s) with
  | Some p => match cut_first "=" p with Some (_, r) => query_unescape r | None => None end
  | None => None
  end.

(** ** Hexadecimal *)

Definition hex_lower (n : N) : ascii := ascii_of_N (if (n <? 10)%N then 48 + n else 87 + n)%N.

(** [hex.EncodeToString] and [hex.DecodeString]. *)
Fixpoint hex_encode (s : string) : string :=
  match s with
  | "" => ""
  | String c s => String (hex_lower (N_of_ascii c / 16)) (String (hex_lower (N_of_ascii c mod 16)) (hex_encode s))
  end.

Fixpoint hex_decode (s : string) : option string :=
  match s with
  | "" => Some ""
  | String a (String b s) =>
      match unhex a, unhex b, hex_decode s with
      | Some x, Some y, Some s => Some (String (ascii_of_N (16 * x + y)) s)
      | _, _, _ => None
      end
  | _ => None
  end.

(** ** Base64 *)

Definition base64_digits : string := "ABCDEFGHIJKLMNOPQRSTUVWXYZabcdefghijklmnopqrstuvwxyz0123456789+/".
Definition sextet (n : N) : ascii := default "="%char (String.get (N.to_nat n) base64_digits).
Definition of_sextet (c : ascii) : option N :=
  let n := N_of_ascii c in
  if byte_in "A" "Z" c then Some (n - 65)%N else if byte_in "a" "z" c then Some (n - 71)%N
  else if byte_in "0" "9" c then Some (n + 4)%N else if Ascii.eqb c "+" then Some 62%N else if Ascii.eqb c "/" then Some 63%N else None.

(** [base64.StdEncoding.EncodeToString]. *)
Fixpoint base64_encode (s : string) : string :=
  match s with
  | "" => ""
  | String a "" =>
      let n := (N_of_ascii a * 16)%N in String (sextet (n / 64)) (String (sextet (n mod 64)) "==")
  | String a (String b "") =>
      let n := ((N_of_ascii a * 256 + N_of_ascii b) * 4)%N in
      String (sextet (n / 4096)) (String (sextet (n / 64 mod 64)) (String (sextet (n mod 64)) "="))
  | String a (String b (String c s)) =>
      let n := ((N_of_ascii a * 256 + N_of_ascii b) * 256 + N_of_ascii c)%N in
      String (sextet (n / 262144)) (String (sextet (n / 4096 mod 64)) (String (sextet (n / 64 mod 64)) (String (sextet (n mod 64)) (base64_encode s))))
  end.

(** [DecodeString]: line ends are skipped, and the last group is padded. *)
Fixpoint skip_line_ends (s : string) : string :=
  match s with
  | "" => ""
  | String c s => if existsb (Ascii.eqb c) ["010"; "013"]%char then skip_line_ends s else String c (skip_line_ends s)
  end.

Definition byte_at (n p : N) : ascii := ascii_of_N (n / p mod 256).

Fixpoint decode_groups (s : string) : option string :=
  match s with
  | "" => Some ""
  | String a (String b (String c (String d s))) =>
      match of_sextet a, of_sextet b with
      | Some x, Some y =>
          let n := (x * 64 + y)%N in
          match of_sextet c with
          | None => if Ascii.eqb c "=" && Ascii.eqb d "=" && String.eqb s "" then Some (String (byte_at n 16) "") else None
          | Some z =>
              let n := (n * 64 + z)%N in
              match of_sextet d with
              | None => if Ascii.eqb d "=" && String.eqb s "" then Some (String (byte_at n 1024) (String (byte_at n 4) "")) else None
              | Some w =>
                  let n := (n * 64 + w)%N in
                  match decode_groups s with
                  | Some r => Some (String (byte_at n 65536) (String (byte_at n 256) (String (byte_at n 1) r)))
                  | None => None
                  end
              end
          end
      | _, _ => None
      end
  | _ => None
  end.
Definition base64_decode (s : string) : option string := decode_groups (skip_line_ends s).

(** ** Header keys *)

Definition token_byte (c : ascii) : bool :=
  letter_or_digit c || existsb (Ascii.eqb c) ["!"; "#"; "$"; "%"; "&"; "'"; "*"; "+"; "-"; "."; "^"; "_"; "`"; "|"; "~"]%char.
Fixpoint capitalize (up : bool) (s : string) : string :=
  match s with
  | "" => ""
  | String c s => String (if up then upper_byte c else lower_byte c) (capitalize (Ascii.eqb c "-") s)
  end.

(** [http.CanonicalHeaderKey]. *)
Definition canonical_key (k : string) : string := if str_all token_byte k then capitalize true k else k.

(** [Header.Set] and [Header.Get], of headers with one value each. *)
Definition Header : Type := gmap string string.
Definition set_header (k v : string) (h : Header) : Header := <[canonical_key k := v]> h.
Definition get_header (h : Header) (k : string) : string := default "" (h !! canonical_key k).

(** ** Round trips *)

Lemma unhex_digit n : (n < 16)%N -> unhex (hex_digit n) = Some n.
Proof. intros H. destruct n as [|p]; [done|]. do 4 (destruct p as [p|p|]; try reflexivity); lia. Qed.

Lemma unhex_lower n : (n < 16)%N -> unhex (hex_lower n) = Some n.
Proof. intros H. destruct n as [|p]; [done|]. do 4 (destruct p as [p|p|]; try reflexivity); lia. Qed.

Lemma byte_halves c : ascii_of_N (16 * (N_of_ascii c / 16) + N_of_ascii c mod 16) = c.
Proof. rewrite <- N.div_mod by done. apply ascii_N_embedding. Qed.

Lemma byte_bounds c : (N_of_ascii c / 16 < 16)%N /\ (N_of_ascii c mod 16 < 16)%N.
Proof. pose proof (N_ascii_bounded c). split; [apply N.Div0.div_lt_upper_bound; lia|apply N.mod_lt; lia]. Qed.

Lemma unescape_percent c s : path_unescape (percent c +++ s) = match path_unescape s with Some s => Some (String c s) | None => None end.
Proof.
  destruct (byte_bounds c) as [H1 H2]. unfold percent. cbn [append path_unescape]. destruct (ascii_dec "%" "%"); [|done].
  rewrite !unhex_digit by done. by rewrite byte_halves.
Qed.

(** Unescaping gives back what was escaped, whatever else was kept but the percent sign. *)
Lemma unescape_with keep s rest : keep "%"%char = false ->
  path_unescape (escape_with keep s +++ rest) = match path_unescape rest with Some r => Some (s +++ r) | None => None end.
Proof.
  intros Hp. induction s as [|c s IH]; cbn [escape_with append]; [by destruct (path_unescape rest)|].
  destruct (keep c) eqn:E.
  - cbn [append path_unescape]. destruct (ascii_dec c "%") as [->|]; [congruence|]. rewrite IH. by destruct (path_unescape rest).
  - rewrite str_app_assoc, unescape_percent, IH. by destruct (path_unescape rest).
Qed.

Lemma path_unescape_escape s : path_unescape (path_escape s) = Some s.
Proof. pose proof (unescape_with keep_byte s "" eq_refl) as H. rewrite str_app_nil_r in H. unfold path_escape. rewrite H. cbn. by rewrite str_app_nil_r. Qed.

Lemma hex_round_trip s : hex_decode (hex_encode s) = Some s.
Proof.
  induction s as [|c s IH]; [done|]. cbn [hex_encode hex_decode]. destruct (byte_bounds c) as [H1 H2].
  rewrite !unhex_lower by done. by rewrite IH, byte_halves.
Qed.

(** What escaping takes away: a byte that is neither kept nor part of an escape. *)
Definition escape_byte (c : ascii) : bool := is_digit c || is_upper c || Ascii.eqb c "%".

Lemma percent_bytes c d : escape_byte c = false -> contains_byte c (percent d) = false.
Proof.
  intros Hc. unfold percent. cbn [contains_byte]. destruct (byte_bounds d) as [H1 H2].
  assert (Hd : forall n, (n < 16)%N -> hex_digit n <> c).
  { intros n Hn <-. destruct n as [|p]; [done|]. do 4 (destruct p as [p|p|]; try done); lia. }
  destruct (ascii_dec "%" c) as [<-|_]; [done|]. destruct (ascii_dec _ c) as [E|_]; [by apply Hd in E|].
  destruct (ascii_dec _ c) as [E|_]; [by apply Hd in E|]. done.
Qed.

Lemma escape_with_bytes keep c s : keep c = false -> escape_byte c = false -> contains_byte c (escape_with keep s) = false.
Proof.
  intros Hk Hc. induction s as [|d s IH]; [done|]. cbn [escape_with]. destruct (keep d) eqn:E.
  - cbn [contains_byte]. destruct (ascii_dec d c) as [->|]; [congruence|done].
  - by rewrite contains_app, percent_bytes, IH.
Qed.

Lemma replace_byte_contains a b c s : contains_byte c s = false -> c <> b -> contains_byte c (replace_byte a b s) = false.
Proof.
  intros H Hb. induction s as [|d s IH]; [done|]. cbn [replace_byte contains_byte] in *. destruct (ascii_dec d c) as [|Hd]; [done|].
  destruct (ascii_dec d a) as [->|]; destruct (ascii_dec _ c); subst; try done; by apply IH.
Qed.

Lemma replace_byte_back a b s : contains_byte b s = false -> replace_byte b a (replace_byte a b s) = s.
Proof.
  intros H. induction s as [|d s IH]; [done|]. cbn [replace_byte contains_byte] in *. destruct (ascii_dec d b) as [|Hd]; [done|].
  rewrite IH by done. destruct (ascii_dec d a) as [->|Ha]; [by destruct (ascii_dec b b)|by destruct (ascii_dec d b)].
Qed.

Lemma query_escape_bytes c s : existsb (Ascii.eqb c) ["&"; "="; "#"]%char = true -> contains_byte c (query_escape s) = false.
Proof.
  intros Hc. apply List.existsb_exists in Hc as (x & Hin & Hx). apply Ascii.eqb_eq in Hx as <-.
  unfold query_escape. apply replace_byte_contains; [apply escape_with_bytes|]; by destruct Hin as [<-|[<-|[<-|[]]]].
Qed.

Lemma query_unescape_escape s : query_unescape (query_escape s) = Some s.
Proof.
  unfold query_unescape, query_escape. rewrite replace_byte_back by (by apply escape_with_bytes).
  pose proof (unescape_with (fun c => unreserved c || Ascii.eqb c " ") s "" eq_refl) as H. rewrite str_app_nil_r in H. rewrite H. cbn.
  by rewrite str_app_nil_r.
Qed.

Lemma query_pair_cut k v : cut_first "=" (query_escape k +++ "=" +++ v) = Some (query_escape k, v).
Proof. apply cut_first_spec. split; [done|by apply query_escape_bytes]. Qed.

(** The value of a key of an encoded query. *)
Lemma query_value_encode q k : query_value k (encode_query q) = q !! k.
Proof.
  unfold query_value, encode_query. set (pair := fun k => query_escape k +++ "=" +++ query_escape (default "" (q !! k))).
  assert (Hp : forall x, pair_for k (pair x) = bool_decide (x = k)).
  { intros x. unfold pair_for, pair. rewrite query_pair_cut, query_unescape_escape. apply bool_decide_ext. split; [by intros [= ->]|by intros ->]. }
  assert (Hin : forall x, x ∈ sort_strings (elements (dom q)) <-> is_Some (q !! x)).
  { intros x. rewrite sort_strings_perm, elem_of_elements. apply elem_of_dom. }
  revert Hin. generalize (sort_strings (elements (dom q))). intros l Hin. destruct (decide (l = [])) as [->|Hl].
  { cbn. destruct (q !! k) eqn:E; [|done]. assert (Hk : k ∈ ([] : list string)) by (apply Hin; eauto). by apply elem_of_nil in Hk. }
  change "&" with (String "&" ""). rewrite split_on_of_join; [|by destruct l|].
  2: { apply Forall_forall. intros x Hx. apply list_elem_of_In, List.in_map_iff in Hx as (y & <- & _). unfold pair.
       rewrite !contains_app. by rewrite !query_escape_bytes. }
  destruct (q !! k) as [v|] eqn:E.
  - assert (Hk : k ∈ l) by (apply Hin; eauto).
    destruct (find_first_is_some (pair_for k) (map pair l) (pair k)) as [p Hf].
    { apply list_elem_of_In, List.in_map. by apply list_elem_of_In. }
    { rewrite Hp. by apply bool_decide_eq_true_2. }
    rewrite Hf. apply find_first_some in Hf as [Hm Hk']. apply list_elem_of_In, List.in_map_iff in Hm as (y & <- & _).
    rewrite Hp in Hk'. apply bool_decide_eq_true_1 in Hk' as ->. unfold pair. rewrite query_pair_cut, query_unescape_escape. by rewrite E.
  - destruct (find_first (pair_for k) (map pair l)) as [p|] eqn:Ef; [|done].
    apply find_first_some in Ef as [Hm Hk']. apply list_elem_of_In, List.in_map_iff in Hm as (y & <- & Hy).
    rewrite Hp in Hk'. apply bool_decide_eq_true_1 in Hk' as ->. apply list_elem_of_In, Hin in Hy as [? ?]. congruence.
Qed.
