(* ===== verification/GoErr.v ===== *)
(** Go's errors and formatted messages.

    A message is kept as [fmt] receives it, the format and its arguments, and is
    not rendered: every branch, its wording and the values it quotes stay visible.
    An error is a sentinel ([errors.New] at package level), a message, a message
    that wraps others ([%w]) or a join; [errors_is] is [errors.Is]. *)

From S2P Require Import Turgon Prelude GoStr.
From Stdlib Require Export Floats.
From Stdlib Require Import String.

Abbreviation float64 := PrimFloat.float.

#[warnings="-register-all"]
Inductive goerr :=
| Sentinel (name : string)
| Errorf (m : message)
| Wrapf (m : message) (inner : list goerr)
| Joined (es : list goerr)
with message :=
| Msg (format : string) (args : list farg)
with farg :=
| FStr (s : string)
| FInt (z : Z)
| FFlt (f : float64)
| FStrs (l : list string)
| FErr (e : goerr)
| FMsg (m : message).

(** [errors.Is e target] for a sentinel target: some error of the chain is it. *)
Fixpoint errors_is (e : goerr) (name : string) {struct e} : bool :=
  let fix any (l : list goerr) : bool :=
    match l with
    | [] => false
    | e :: l => errors_is e name || any l
    end in
  match e with
  | Sentinel n => String.eqb n name
  | Errorf _ => false
  | Wrapf _ inner => any inner
  | Joined es => any es
  end.

(** [errors.Is] of a possibly nil error. *)
Definition err_is (e : option goerr) (name : string) : bool :=
  match e with Some e => errors_is e name | None => false end.

(** [errors.Join]: nil when every error is nil. *)
Definition errors_join (es : list goerr) : option goerr :=
  match es with [] => None | _ => Some (Joined es) end.

(** Wrapping keeps what an error is; this is what callers test for. *)
Lemma errors_is_wrap m e inner name :
  e ∈ inner -> errors_is e name = true -> errors_is (Wrapf m inner) name = true.
Proof.
  cbn. induction 1 as [e l|e x l H IH]; intros He; cbn.
  - by rewrite He.
  - rewrite IH by done. apply orb_true_r.
Qed.

Lemma errors_is_joined es name :
  errors_is (Joined es) name = true <-> exists e, e ∈ es /\ errors_is e name = true.
Proof.
  cbn. induction es as [|e es IH]; cbn.
  - split; [done|]. intros (e & He & _). by apply elem_of_nil in He.
  - rewrite orb_true_iff, IH. split.
    + intros [H|(x & Hx & H)]; [exists e|exists x]; split; auto; [left|by right].
    + intros (x & Hx & H). apply elem_of_cons in Hx as [->|Hx]; [by left|right; eauto].
Qed.

(** ** Results: a value with an error, as [(T, error)] returns it *)

Inductive result (A : Type) :=
| Ok (a : A)
| Err (e : goerr).
Arguments Ok {_} _.
Arguments Err {_} _.

Definition rbind {A B} (r : result A) (k : A -> result B) : result B :=
  match r with Ok a => k a | Err e => Err e end.

Declare Scope result_scope.
Delimit Scope result_scope with res.
Notation "'let!' x ':=' r 'in' k" := (rbind r (fun x => k))
  (at level 10, x name, r at level 200, k at level 200) : result_scope.
Notation "'let!' ' p ':=' r 'in' k" := (rbind r (fun x => match x with p => k end))
  (at level 10, p pattern, r at level 200, k at level 200) : result_scope.
Open Scope result_scope.

Definition is_ok {A} (r : result A) : bool := match r with Ok _ => true | Err _ => false end.

Lemma rbind_ok {A B} (r : result A) (k : A -> result B) b :
  rbind r k = Ok b <-> exists a, r = Ok a /\ k a = Ok b.
Proof.
  destruct r as [a|e]; cbn; split; [eauto|by intros (? & [= ->] & ?)|done|by intros (? & ? & ?)].
Qed.

(** The first error of a loop that stops at one. *)
Fixpoint first_error {A} (check : A -> option goerr) (l : list A) : option goerr :=
  match l with
  | [] => None
  | a :: l => match check a with Some e => Some e | None => first_error check l end
  end.

(** A short way to write a message. *)
Definition msg0 (format : string) : message := Msg format [].
