(* ===== verification/GoTime.v ===== *)
(** Conversions between Go's integers and float64, and [time.ParseDuration]. *)

From S2P Require Import Turgon Prelude GoStr GoErr.
From Stdlib Require Import Ascii String Uint63.

(** Conversion of an int64, rounded to nearest. *)
Definition float_of_Z (z : Z) : float64 :=
  if (z <? 0)%Z then PrimFloat.opp (PrimFloat.of_uint63 (Uint63.of_Z (- z)))
  else PrimFloat.of_uint63 (Uint63.of_Z z).

(** Conversion to int64: towards zero; a value with no int64 gives the minimum,
    as amd64 does (the language leaves it open). *)
Definition float_trunc (f : float64) : Z :=
  match Prim2SF f with
  | S754_zero _ => 0
  | S754_infinity _ | S754_nan => int_min
  | S754_finite s m e =>
      let n := if (0 <=? e)%Z then (Z.pos m * 2 ^ e)%Z else (Z.pos m / 2 ^ (- e))%Z in
      let z := if s then (- n)%Z else n in
      if (int_min <=? z)%Z && (z <=? int_max)%Z then z else int_min
  end.

(** ** Durations *)

(** 2^63, the bound [ParseDuration] compares with. *)
Definition two63 : Z := 9223372036854775808.

Definition digit_val (c : ascii) : Z := Z.of_nat (nat_of_ascii c) - 48.

(** [leadingInt]: the leading digits' value and the rest; [None] on overflow. *)
Fixpoint leading_int (s : string) (x : Z) : option (Z * string) :=
  match s with
  | String c s' =>
      if is_digit c then
        if (two63 / 10 <? x)%Z then None
        else let x := (x * 10 + digit_val c)%Z in
             if (two63 <? x)%Z then None else leading_int s' x
      else Some (x, s)
  | "" => Some (x, "")
  end.

(** [leadingFraction]: digits that no longer fit are dropped. *)
Fixpoint leading_fraction (s : string) (x : Z) (scale : float64) (overflow : bool) : Z * float64 * string :=
  match s with
  | String c s' =>
      if is_digit c then
        if overflow then leading_fraction s' x scale true
        else if ((two63 - 1) / 10 <? x)%Z then leading_fraction s' x scale true
        else let y := (x * 10 + digit_val c)%Z in
             if (two63 <? y)%Z then leading_fraction s' x scale true
             else leading_fraction s' y (PrimFloat.mul scale 10%float) false
      else (x, scale, s)
  | "" => (x, scale, "")
  end.

(** The letters of a unit: up to a period or a digit. *)
Fixpoint leading_unit (s : string) : string * string :=
  match s with
  | String c s' =>
      if Ascii.eqb c "." || is_digit c then ("", s)
      else let (u, r) := leading_unit s' in (String c u, r)
  | "" => ("", "")
  end.

(** Nanoseconds of a unit; both micro signs, in UTF-8, are accepted. *)
Definition unit_ns (u : string) : option Z :=
  if String.eqb u "ns" then Some 1%Z
  else if String.eqb u "us" then Some 1000%Z
  else if String.eqb u (String "194" (String "181" "s")) then Some 1000%Z
  else if String.eqb u (String "206" (String "188" "s")) then Some 1000%Z
  else if String.eqb u "ms" then Some 1000000%Z
  else if String.eqb u "s" then Some 1000000000%Z
  else if String.eqb u "m" then Some 60000000000%Z
  else if String.eqb u "h" then Some 3600000000000%Z
  else None.

(** The loop over the parts; each consumes at least one byte, so the string's length
    is enough fuel. *)
Fixpoint duration_parts (fuel : nat) (s : string) (d : Z) : option Z :=
  match s, fuel with
  | "", _ => Some d
  | _, 0 => None
  | String c _, S fuel =>
      if negb (Ascii.eqb c "." || is_digit c) then None else
      match leading_int s 0 with
      | None => None
      | Some (v, s1) =>
          let pre := negb (String.eqb s1 s) in
          let '(f, scale, s2, post) :=
            match s1 with
            | String c1 s1' =>
                if Ascii.eqb c1 "." then
                  let '(f, scale, s2) := leading_fraction s1' 0 1%float false in
                  (f, scale, s2, negb (String.eqb s2 s1'))
                else (0%Z, 1%float, s1, false)
            | "" => (0%Z, 1%float, s1, false)
            end in
          if negb pre && negb post then None else
          let (u, s3) := leading_unit s2 in
          if String.eqb u "" then None else
          match unit_ns u with
          | None => None
          | Some unit =>
              if (two63 / unit <? v)%Z then None else
              let v := (v * unit)%Z in
              let v := if (0 <? f)%Z
                       then (v + float_trunc (PrimFloat.mul (float_of_Z f) (PrimFloat.div (float_of_Z unit) scale)))%Z
                       else v in
              if (two63 <? v)%Z then None else
              let d := (d + v)%Z in
              if (two63 <? d)%Z then None else duration_parts fuel s3 d
          end
      end
  end.

(** [ParseDuration]: nanoseconds, or [None] for an error. *)
Definition ParseDuration (s : string) : option Z :=
  let '(neg, s) :=
    match s with
    | String c s' => if Ascii.eqb c "-" then (true, s') else if Ascii.eqb c "+" then (false, s') else (false, s)
    | "" => (false, s)
    end in
  if String.eqb s "0" then Some 0%Z
  else if String.eqb s "" then None
  else match duration_parts (String.length s) s 0 with
  | None => None
  | Some d => if neg then Some (- d)%Z else if (two63 - 1 <? d)%Z then None else Some d
  end.

Example duration_ms : ParseDuration "1.5s" = Some 1500000000%Z.
Proof. reflexivity. Qed.
Example duration_hm : ParseDuration "2h45m" = Some 9900000000000%Z.
Proof. reflexivity. Qed.
Example duration_bad : ParseDuration "2 s" = None.
Proof. reflexivity. Qed.
