(* ===== verification/GoDate.v ===== *)
(** [time.Format] and [time.Parse] with the layouts "2006-01-02 15:04:05", in UTC, where a
    time is its Unix second, and RFC 3339, where it is its Unix millisecond. *)

From S2P Require Import Turgon Prelude GoStr GoErr GoTime.
From Stdlib Require Import Ascii String.

(** ** Dates *)

(** Days since 1970-01-01 of a date, years beginning in March. *)
Definition days_of_date (y m d : Z) : Z :=
  (let y := if m <=? 2 then y - 1 else y in
   let era := y / 400 in
   let yoe := y - era * 400 in
   let doy := (153 * (if 2 <? m then m - 3 else m + 9) + 2) / 5 + d - 1 in
   era * 146097 + (yoe * 365 + yoe / 4 - yoe / 100 + doy) - 719468)%Z.

(** The date of a day. *)
Definition date_of_days (days : Z) : Z * Z * Z :=
  (let z := days + 719468 in
   let era := z / 146097 in
   let doe := z - era * 146097 in
   let yoe := (doe - doe / 1460 + doe / 36524 - doe / 146096) / 365 in
   let doy := doe - (365 * yoe + yoe / 4 - yoe / 100) in
   let mp := (5 * doy + 2) / 153 in
   let m := if mp <? 10 then mp + 3 else mp - 9 in
   (yoe + era * 400 + (if m <=? 2 then 1 else 0), m, doy - (153 * mp + 2) / 5 + 1))%Z.

Definition leap (y : Z) : bool := ((y mod 4 =? 0) && (negb (y mod 100 =? 0) || (y mod 400 =? 0)))%Z.
Definition days_in (m y : Z) : Z :=
  if (m =? 2)%Z then (if leap y then 29 else 28)%Z
  else if existsb (Z.eqb m) [4; 6; 9; 11]%Z then 30%Z else 31%Z.

(** ** Formatting *)

Definition digit (z : Z) : ascii := ascii_of_N (Z.to_N (48 + z mod 10)).
Definition two_digits (z : Z) (rest : string) : string := String (digit (z / 10)) (String (digit z) rest).
Definition four_digits (z : Z) (rest : string) : string := two_digits (z / 100) (two_digits z rest).

Definition format_date (days : Z) : string :=
  let '(y, m, d) := date_of_days days in
  four_digits y (String "-" (two_digits m (String "-" (two_digits d "")))).
Definition format_clock (sec : Z) : string :=
  two_digits (sec / 3600) (String ":" (two_digits (sec / 60 mod 60) (String ":" (two_digits (sec mod 60) "")))).

(** [t.UTC().Format("2006-01-02 15:04:05")], of years up to 9999. *)
Definition format_stamp (t : Z) : string := format_date (t / 86400) +++ String " " (format_clock (t mod 86400)).

(** ** Parsing *)

(** [getnum]: one or two digits. *)
Definition getnum (fixed : bool) (s : string) : option (Z * string) :=
  match s with
  | String a r =>
      if negb (is_digit a) then None
      else match r with
        | String b r' => if is_digit b then Some (digit_val a * 10 + digit_val b, r')%Z
                         else if fixed then None else Some (digit_val a, r)
        | "" => if fixed then None else Some (digit_val a, r)
        end
  | "" => None
  end.

Definition expect (c : ascii) (s : string) : option string :=
  match s with String a r => if Ascii.eqb a c then Some r else None | "" => None end.

(** The year: four digits. *)
Definition get_year (s : string) : option (Z * string) :=
  match getnum true s with
  | Some (hi, r) => match getnum true r with Some (lo, r) => Some (hi * 100 + lo, r)%Z | None => None end
  | None => None
  end.

(** A two-digit number within bounds, after a separator. *)
Definition get_after (c : ascii) (lo hi : Z) (s : string) : option (Z * string) :=
  match expect c s with
  | Some r => match getnum true r with
      | Some (n, r) => if (lo <=? n)%Z && (n <=? hi)%Z then Some (n, r) else None
      | None => None
      end
  | None => None
  end.

Definition parse_date (s : string) : option (Z * string) :=
  match get_year s with
  | None => None
  | Some (y, s) =>
      match get_after "-" 1 12 s with
      | None => None
      | Some (m, s) =>
          match get_after "-" 0 99 s with
          | None => None
          | Some (d, s) => if (1 <=? d)%Z && (d <=? days_in m y)%Z then Some (days_of_date y m d, s) else None
          end
      end
  end.

Fixpoint skip_blanks (s : string) : string :=
  match s with String c r => if Ascii.eqb c " " then skip_blanks r else s | "" => "" end.

Fixpoint drop_digits (s : string) : string :=
  match s with String c r => if is_digit c then drop_digits r else s | "" => "" end.

(** A fraction of a second, which the layout need not have. *)
Definition skip_fraction (s : string) : string :=
  match s with
  | String c (String d _ as r) => if (Ascii.eqb c "." || Ascii.eqb c ",") && is_digit d then drop_digits r else s
  | _ => s
  end.

(** The time of day, and what follows its seconds. *)
Definition clock_fields (s : string) : option (Z * string) :=
  match getnum false s with
  | None => None
  | Some (h, s) =>
      if (24 <=? h)%Z then None else
      match get_after ":" 0 59 s with
      | None => None
      | Some (m, s) =>
          match get_after ":" 0 59 s with
          | None => None
          | Some (sec, s) => Some (h * 3600 + m * 60 + sec, s)%Z
          end
      end
  end.

Definition parse_clock (s : string) : option Z :=
  match clock_fields s with
  | Some (sec, s) => if String.eqb (skip_fraction s) "" then Some sec else None
  | None => None
  end.

(** [time.Parse("2006-01-02 15:04:05", s)]. *)
Definition parse_stamp (s : string) : option Z :=
  match parse_date s with
  | None => None
  | Some (days, s) =>
      match s with
      | String c _ => if Ascii.eqb c " " then
            match parse_clock (skip_blanks s) with Some sec => Some (days * 86400 + sec)%Z | None => None end
          else None
      | "" => None
      end
  end.

(** ** RFC 3339 *)

(** A fraction of a second, in milliseconds, and a zone's offset in seconds. *)
Fixpoint fraction_ms (n : nat) (s : string) : Z :=
  match n, s with
  | S n, String c r => if is_digit c then (digit_val c * 10 ^ Z.of_nat n + fraction_ms n r)%Z else 0%Z
  | _, _ => 0%Z
  end.
Definition get_fraction (s : string) : Z * string :=
  match s with
  | String c (String d _ as r) => if (Ascii.eqb c "." || Ascii.eqb c ",") && is_digit d then (fraction_ms 3 r, drop_digits r) else (0%Z, s)
  | _ => (0%Z, s)
  end.

Definition get_zone (s : string) : option (Z * string) :=
  match s with
  | String z r =>
      if Ascii.eqb z "Z" then Some (0%Z, r)
      else match getnum true r with
        | None => None
        | Some (h, r) =>
            match get_after ":" 0 60 r with
            | None => None
            | Some (m, r) =>
                if (24 <? h)%Z then None
                else if Ascii.eqb z "+" then Some ((h * 60 + m) * 60, r)%Z
                else if Ascii.eqb z "-" then Some (- ((h * 60 + m) * 60), r)%Z else None
            end
        end
  | "" => None
  end.

(** [time.Parse(time.RFC3339Nano, s)], in Unix milliseconds. *)
Definition parse_rfc3339 (s : string) : option Z :=
  match parse_date s with
  | None => None
  | Some (days, s) =>
      match expect "T" s with
      | None => None
      | Some s =>
          match clock_fields s with
          | None => None
          | Some (sec, s) =>
              let (ms, s) := get_fraction s in
              match get_zone s with
              | Some (offset, "") => Some ((days * 86400 + sec - offset) * 1000 + ms)%Z
              | _ => None
              end
          end
      end
  end.

(** [Format] of a Unix millisecond in UTC, with the layouts "2006-01-02T15:04:05" and
    "2006-01-02T15:04:05.000Z07:00". *)
Definition format_time_T (ms : Z) : string :=
  format_date (ms / 1000 / 86400) +++ String "T" (format_clock (ms / 1000 mod 86400)).
Definition format_rfc3339 (ms : Z) : string :=
  format_time_T ms +++ String "." (String (digit (ms / 100)) (two_digits (ms mod 100) "Z")).

Example rfc3339_offset : parse_rfc3339 "2024-03-01T00:30:00.1259+01:00" = Some 1709249400125%Z.
Proof. reflexivity. Qed.
Example rfc3339_format : format_rfc3339 1709249400125 = "2024-02-29T23:30:00.125Z".
Proof. reflexivity. Qed.
Example format_known : format_stamp 1700000000 = "2023-11-14 22:13:20".
Proof. reflexivity. Qed.
Example parse_known : parse_stamp "2024-02-29 23:59:59" = Some 1709251199%Z.
Proof. reflexivity. Qed.
Example parse_no_leap : parse_stamp "2023-02-29 00:00:00" = None.
Proof. reflexivity. Qed.
Example parse_fraction : parse_stamp "2024-01-01 00:00:00.25" = Some 1704067200%Z.
Proof. reflexivity. Qed.

(** ** Formatting and parsing are inverse *)

#[local] Ltac Zify.zify_post_hook ::= Z.to_euclidean_division_equations.

Lemma digit_spec z : (0 <= z)%Z -> is_digit (digit z) = true /\ digit_val (digit z) = (z mod 10)%Z.
Proof.
  intros Hz. assert (H : (0 <= z mod 10 < 10)%Z) by (apply Z.mod_pos_bound; lia). unfold digit. clear Hz.
  generalize (z mod 10)%Z H. clear z H. intros z H.
  assert (C : z ∈ [0; 1; 2; 3; 4; 5; 6; 7; 8; 9]%Z) by (rewrite !elem_of_cons; lia).
  rewrite !elem_of_cons in C. by repeat destruct C as [->|C]; [..|apply elem_of_nil in C].
Qed.

Lemma digit_not_byte z c : (0 <= z)%Z -> is_digit c = false -> Ascii.eqb (digit z) c = false.
Proof.
  intros Hz Hc. destruct (Ascii.eqb_spec (digit z) c) as [<-|]; [|done]. destruct (digit_spec z Hz) as [H _]. congruence.
Qed.

Lemma getnum_two b z rest : (0 <= z < 100)%Z -> getnum b (two_digits z rest) = Some (z, rest).
Proof.
  intros Hz. unfold two_digits, getnum. destruct (digit_spec (z / 10) ltac:(lia)) as [Ha Va]. destruct (digit_spec z ltac:(lia)) as [Hb Vb].
  rewrite Ha, Hb, Va, Vb. cbn [negb]. do 2 f_equal. rewrite (Z.mod_small (z / 10)) by lia. lia.
Qed.

Lemma get_year_four y rest : (0 <= y < 10000)%Z -> get_year (four_digits y rest) = Some (y, rest).
Proof.
  intros Hy. unfold get_year, four_digits. rewrite getnum_two by lia.
  assert (E : two_digits y rest = two_digits (y mod 100) rest).
  { assert (D : forall a b, (a mod 10 = b mod 10)%Z -> digit a = digit b) by (intros a b E; unfold digit; by rewrite E).
    assert (M : (y mod 100 = y + (- (y / 100) * 10) * 10)%Z) by lia.
    unfold two_digits. f_equal; [|f_equal]; apply D; rewrite M, ?Z.div_add, ?Z.mod_add by done; done. }
  rewrite E, getnum_two by lia. do 2 f_equal. lia.
Qed.

Lemma get_after_two c lo hi z rest : (0 <= z < 100)%Z -> (lo <= z <= hi)%Z ->
  get_after c lo hi (String c (two_digits z rest)) = Some (z, rest).
Proof.
  intros Hz Hb. unfold get_after, expect. rewrite Ascii.eqb_refl, getnum_two by done.
  by rewrite (proj2 (Z.leb_le _ _)), (proj2 (Z.leb_le _ _)) by lia.
Qed.

(** Days up to the one of second 2^32, each computed. *)
Definition day_ok (days : Z) : bool :=
  let '(y, m, d) := date_of_days days in
  (0 <=? y)%Z && (y <? 10000)%Z && (1 <=? m)%Z && (m <=? 12)%Z && (1 <=? d)%Z && (d <=? days_in m y)%Z && (days_of_date y m d =? days)%Z.

Fixpoint days_ok (n : nat) (d : Z) : bool := match n with O => true | S n => day_ok d && days_ok n (d + 1) end.

Lemma days_ok_spec n : forall d z, days_ok n d = true -> (d <= z < d + Z.of_nat n)%Z -> day_ok z = true.
Proof.
  induction n as [|n IH]; intros d z H Hz; [lia|]. cbn [days_ok] in H. apply andb_prop in H as [H1 H2].
  destruct (Z.eq_dec z d) as [->|]; [done|]. apply (IH _ _ H2). lia.
Qed.

Definition last_day : nat := Z.to_nat 49711.

Lemma every_day_ok z : (0 <= z < Z.of_nat last_day)%Z -> day_ok z = true.
Proof. intros H. apply (days_ok_spec last_day 0); [by vm_compute|done]. Qed.

Lemma days_in_le m y : (days_in m y <= 31)%Z.
Proof. unfold days_in. repeat (case_match; try lia). Qed.

Lemma parse_date_format days rest : (0 <= days < Z.of_nat last_day)%Z ->
  parse_date (format_date days +++ rest) = Some (days, rest).
Proof.
  intros Hd. apply every_day_ok in Hd. unfold day_ok in Hd. unfold format_date. destruct (date_of_days days) as [[y m] d].
  rewrite !andb_true_iff, !Z.leb_le, Z.ltb_lt, Z.eqb_eq in Hd. destruct Hd as ((((((Hy & Hy') & Hm) & Hm') & Hd) & Hd') & E).
  change (parse_date (four_digits y (String "-" (two_digits m (String "-" (two_digits d rest))))) = Some (days, rest)).
  pose proof (days_in_le m y). unfold parse_date. rewrite get_year_four, !get_after_two by lia.
  by rewrite (proj2 (Z.leb_le _ _)), (proj2 (Z.leb_le _ _)), E by lia.
Qed.

Lemma parse_clock_format sec : (0 <= sec < 86400)%Z -> parse_clock (format_clock sec) = Some sec.
Proof.
  intros H. unfold parse_clock, clock_fields, format_clock. rewrite getnum_two by lia. rewrite (proj2 (Z.leb_gt _ _)) by lia.
  rewrite !get_after_two by lia. cbn [skip_fraction String.eqb]. f_equal. lia.
Qed.

Lemma parse_stamp_format t : (0 <= t < 2 ^ 32)%Z -> parse_stamp (format_stamp t) = Some t.
Proof.
  intros Ht. unfold parse_stamp, format_stamp. rewrite parse_date_format by (unfold last_day; lia).
  change (Ascii.eqb " " " ") with true. cbv iota.
  assert (E : skip_blanks (String " " (format_clock (t mod 86400))) = format_clock (t mod 86400)).
  { unfold format_clock, two_digits. cbn [skip_blanks]. change (Ascii.eqb " " " ") with true. cbv iota.
    by rewrite digit_not_byte by (done || lia). }
  rewrite E, parse_clock_format by lia. f_equal. lia.
Qed.
