(* ===== verification/Regex.v ===== *)
(** Regular expressions over bytes, matched by derivatives, with their language as
    the reference. They stand for the package-level [regexp.MustCompile] values. *)

From S2P Require Import Turgon Prelude GoStr.
From Stdlib Require Import Ascii String.

Inductive re :=
| REmpty
| REps
| RCls (p : ascii -> bool)
| RSeq (a b : re)
| RAlt (a b : re)
| RStar (a : re).

Definition ROpt (a : re) : re := RAlt REps a.
Definition RPlus (a : re) : re := RSeq a (RStar a).
Definition RChr (c : ascii) : re := RCls (Ascii.eqb c).
Fixpoint RStr (s : string) : re :=
  match s with "" => REps | String c s => RSeq (RChr c) (RStr s) end.

(** The language an expression denotes. *)
Inductive lang : re -> string -> Prop :=
| lang_eps : lang REps ""
| lang_cls p c : p c = true -> lang (RCls p) (String c "")
| lang_seq a b s t : lang a s -> lang b t -> lang (RSeq a b) (s +++ t)
| lang_alt_l a b s : lang a s -> lang (RAlt a b) s
| lang_alt_r a b s : lang b s -> lang (RAlt a b) s
| lang_star_nil a : lang (RStar a) ""
| lang_star_cons a s t : lang a s -> lang (RStar a) t -> lang (RStar a) (s +++ t).

Fixpoint nullable (r : re) : bool :=
  match r with
  | REmpty | RCls _ => false
  | REps | RStar _ => true
  | RSeq a b => nullable a && nullable b
  | RAlt a b => nullable a || nullable b
  end.

(** Constructors that drop what is empty, so derivatives stay small. *)
Definition seq_ (a b : re) : re :=
  match a with REmpty => REmpty | REps => b | _ => RSeq a b end.
Definition alt_ (a b : re) : re :=
  match a, b with REmpty, _ => b | _, REmpty => a | _, _ => RAlt a b end.

Fixpoint deriv (c : ascii) (r : re) : re :=
  match r with
  | REmpty | REps => REmpty
  | RCls p => if p c then REps else REmpty
  | RSeq a b =>
      if nullable a then alt_ (seq_ (deriv c a) b) (deriv c b) else seq_ (deriv c a) b
  | RAlt a b => alt_ (deriv c a) (deriv c b)
  | RStar a => seq_ (deriv c a) (RStar a)
  end.

(** [^...$]: the whole string. *)
Fixpoint fullmatch (r : re) (s : string) : bool :=
  match s with
  | "" => nullable r
  | String c s => fullmatch (deriv c r) s
  end.

(** A prefix in the language that ends at a line end ([$] with the flag [m]). *)
Fixpoint prefix_to_eol (r : re) (s : string) : bool :=
  nullable r && match s with "" => true | String c _ => Ascii.eqb c "010" end ||
  match s with "" => false | String c s => prefix_to_eol (deriv c r) s end.

(** [(?m)^...$], unanchored: some line start has such a prefix. *)
Fixpoint find_lines (r : re) (bol : bool) (s : string) : bool :=
  bol && prefix_to_eol r s ||
  match s with "" => false | String c s => find_lines r (Ascii.eqb c "010") s end.

(** ** Correctness *)

Lemma nullable_lang r : nullable r = true <-> lang r "".
Proof.
  induction r as [| |p|a IHa b IHb|a IHa b IHb|a IHa]; cbn.
  - split; [done|]. by inversion 1.
  - split; [constructor|done].
  - split; [done|]. by inversion 1.
  - rewrite andb_true_iff, IHa, IHb. split.
    + intros [Ha Hb]. by apply (lang_seq a b "" "").
    + intros Hl. inversion Hl as [| |a' b' s t Ha Hb Ea Es| | | |]; subst.
      destruct s; [|done]. by destruct t.
  - rewrite orb_true_iff, IHa, IHb. split.
    + intros [Ha|Hb]; [by apply lang_alt_l|by apply lang_alt_r].
    + inversion 1; auto.
  - split; [constructor|done].
Qed.

Lemma seq_lang a b s : lang (seq_ a b) s <-> lang (RSeq a b) s.
Proof.
  destruct a; cbn; try done.
  - split; inversion 1; subst. match goal with Hx : lang REmpty _ |- _ => inversion Hx end.
  - split.
    + intros Hb. apply (lang_seq REps b "" s); [constructor|done].
    + inversion 1 as [| |a' b' u t Ha Hb| | | |]; subst. inversion Ha; subst. done.
Qed.

Lemma alt_lang a b s : lang (alt_ a b) s <-> lang a s \/ lang b s.
Proof.
  assert (He : forall s, ~ lang REmpty s) by (intros ?; by inversion 1).
  assert (Hr : lang (RAlt a b) s <-> lang a s \/ lang b s).
  { split; [inversion 1; auto|]. intros [Ha|Hb]; [by apply lang_alt_l|by apply lang_alt_r]. }
  destruct a, b; cbn; try exact Hr; (split; [auto|]); intros [Hx|Hx]; auto; by apply He in Hx.
Qed.

Lemma deriv_lang c r s : lang (deriv c r) s <-> lang r (String c s).
Proof.
  revert s. induction r as [| |p|a IHa b IHb|a IHa b IHb|a IHa]; intros s; cbn [deriv].
  - split; inversion 1.
  - split; inversion 1.
  - destruct (p c) eqn:E.
    + split; inversion 1; subst; [by constructor|constructor].
    + split; inversion 1; subst. congruence.
  - assert (Hseq : lang (seq_ (deriv c a) b) s <->
              exists u t, s = u +++ t /\ lang a (String c u) /\ lang b t).
    { rewrite seq_lang. split.
      - inversion 1 as [| |a' b' u t Ha Hb| | | |]; subst. exists u, t. by rewrite <- IHa.
      - intros (u & t & -> & Ha & Hb). apply lang_seq; [by apply IHa|done]. }
    assert (Hfull : lang (RSeq a b) (String c s) <->
              (exists u t, s = u +++ t /\ lang a (String c u) /\ lang b t) \/
              lang a "" /\ lang b (String c s)).
    { split.
      - inversion 1 as [| |a' b' u t Ha Hb Ea Es| | | |]; subst. destruct u as [|c' u]; cbn in Es.
        + right. by subst t.
        + injection Es as -> <-. left. eauto.
      - intros [(u & t & -> & Ha & Hb)|[Ha Hb]].
        + by apply (lang_seq a b (String c u) t).
        + by apply (lang_seq a b "" (String c s)). }
    destruct (nullable a) eqn:En.
    + rewrite alt_lang, Hseq, IHb, Hfull. apply nullable_lang in En.
      split; (intros [?|?]; [by left|right; tauto]).
    + rewrite Hseq, Hfull. split; [auto|]. intros [?|[Ha _]]; [done|].
      apply nullable_lang in Ha. congruence.
  - rewrite alt_lang, IHa, IHb. split.
    + intros [Ha|Hb]; [by apply lang_alt_l|by apply lang_alt_r].
    + inversion 1; auto.
  - rewrite seq_lang. split.
    + inversion 1 as [| |a' b' u t Ha Hb| | | |]; subst. apply IHa in Ha.
      by apply (lang_star_cons a (String c u) t).
    + intros Hl. remember (RStar a) as r eqn:Er. remember (String c s) as w eqn:Ew.
      revert Er Ew. induction Hl as [| | | | | |a' u t Ha _ Ht IH]; intros Er Ew; try discriminate Er; try discriminate Ew.
      injection Er as ->. destruct u as [|c' u]; cbn in Ew; [by apply IH|].
      injection Ew as -> <-. apply lang_seq; [by apply IHa|done].
Qed.

(** The matcher decides the language. *)
Lemma fullmatch_lang r s : fullmatch r s = true <-> lang r s.
Proof.
  revert r. induction s as [|c s IH]; intros r; cbn; [apply nullable_lang|].
  by rewrite IH, deriv_lang.
Qed.

(** Strings of an expression whose classes are all within [q] are within [q]. *)
Fixpoint re_within (q : ascii -> bool) (r : re) : Prop :=
  match r with
  | REmpty | REps => True
  | RCls p => forall c, p c = true -> q c = true
  | RSeq a b | RAlt a b => re_within q a /\ re_within q b
  | RStar a => re_within q a
  end.

Lemma lang_within q r s : lang r s -> re_within q r -> str_all q s = true.
Proof.
  induction 1; cbn [re_within]; intros Hw; try done.
  - cbn. by rewrite Hw.
  - rewrite str_all_app. destruct Hw. by rewrite IHlang1, IHlang2.
  - apply IHlang, Hw.
  - apply IHlang, Hw.
  - rewrite str_all_app. by rewrite IHlang1, IHlang2.
Qed.
