(* ===== verification/Semver.v ===== *)
(** Semantic versions and constraints: [src/pkg/semver/semver.go].

    Components are Go [int]s: arithmetic on them is wrapped to 64 bits, as the
    code's subtraction in [Compare] and increments in [ParseConstraint] are. *)

From S2P Require Import Turgon Prelude GoStr GoErr.
From Stdlib Require Import Ascii String.

Record Version := mkVersion {
  Major : Z;
  Minor : Z;
  Patch : Z;
  Pre : string
}.

#[export] Instance Version_eq_dec : EqDecision Version.
Proof. solve_decision. Defined.

Definition zeroVersion : Version := mkVersion 0 0 0 "".

Definition starts_with_zero (p : string) : bool :=
  match p with String c _ => if ascii_dec c "0" then true else false | "" => false end.

(** One numeric component: [strconv.Atoi], non-negative, no leading zero. *)
Definition parse_component (p orig : string) : result Z :=
  match atoi p with
  | Some n =>
      if (n <? 0)%Z || ((1 <? String.length p)%nat && starts_with_zero p)
      then Err (Errorf (Msg "semver: invalid component %q in %q" [FStr p; FStr orig]))
      else Ok n
  | None => Err (Errorf (Msg "semver: invalid component %q in %q" [FStr p; FStr orig]))
  end.

Fixpoint parse_components (ps : list string) (orig : string) : result (list Z) :=
  match ps with
  | [] => Ok []
  | p :: ps =>
      let! n := parse_component p orig in
      let! ns := parse_components ps orig in
      Ok (n :: ns)
  end.

(** Up to three components and how many were present; absent ones are 0. *)
Definition parsePartial (orig : string) : result (Version * Z) :=
  let s := trim_prefix "v" (trim_space orig) in
  let! '(s, pre) :=
    match cut_first "-" s with
    | Some (l, "") => Err (Errorf (Msg "semver: empty pre-release in %q" [FStr orig]))
    | Some (l, r) => Ok (l, r)
    | None => Ok (s, "")
    end in
  let parts := split_on "." s in
  if (List.length parts =? 0)%nat || (3 <? List.length parts)%nat
  then Err (Errorf (Msg "semver: invalid version %q" [FStr orig]))
  else
    let! nums := parse_components parts orig in
    if negb (String.eqb pre "") && negb (List.length parts =? 3)%nat
    then Err (Errorf (Msg "semver: pre-release requires a full version in %q" [FStr orig]))
    else Ok (mkVersion (nth 0 nums 0%Z) (nth 1 nums 0%Z) (nth 2 nums 0%Z) pre,
             Z.of_nat (List.length parts)).

Definition Parse (s : string) : result Version :=
  let! '(v, n) := parsePartial s in
  if (n =? 3)%Z then Ok v
  else Err (Errorf (Msg "semver: %q must have major, minor and patch" [FStr s])).

(** [Version.String]. *)
Definition version_string (v : Version) : string :=
  itoa (Major v) +++ "." +++ itoa (Minor v) +++ "." +++ itoa (Patch v) +++
  (if String.eqb (Pre v) "" then "" else "-" +++ Pre v).

(** The sign of the first non-zero difference; each difference wraps. *)
Fixpoint first_difference (ds : list Z) : option Z :=
  match ds with
  | [] => None
  | d :: ds => if (d <? 0)%Z then Some (-1)%Z else if (0 <? d)%Z then Some 1%Z else first_difference ds
  end.

Definition Compare (v o : Version) : Z :=
  match first_difference [wrap (Major v - Major o); wrap (Minor v - Minor o); wrap (Patch v - Patch o)] with
  | Some r => r
  | None =>
      if String.eqb (Pre v) (Pre o) then 0
      else if String.eqb (Pre v) "" then 1
      else if String.eqb (Pre o) "" then -1
      else if str_lt (Pre v) (Pre o) then -1
      else 1
  end%Z.

(** A half-open range [[min, max)]; unbounded above when [bounded] is false. *)
Record Constraint := mkConstraint {
  raw : string;
  cmin : Version;
  cmax : Version;
  bounded : bool;
  exact : bool
}.

Definition incr (n : Z) : Z := wrap (n + 1).

Definition caret_max (v : Version) : Version :=
  if (0 <? Major v)%Z then mkVersion (incr (Major v)) 0 0 ""
  else if (0 <? Minor v)%Z then mkVersion 0 (incr (Minor v)) 0 ""
  else mkVersion 0 0 (incr (Patch v)) "".

Definition tilde_max (v : Version) (n : Z) : Version :=
  if (n =? 1)%Z then mkVersion (incr (Major v)) 0 0 ""
  else mkVersion (Major v) (incr (Minor v)) 0 "".

Definition plain_max (v : Version) (n : Z) : Version :=
  if (n =? 1)%Z then mkVersion (incr (Major v)) 0 0 ""
  else if (n =? 2)%Z then mkVersion (Major v) (incr (Minor v)) 0 ""
  else mkVersion (Major v) (Minor v) (incr (Patch v)) "".

Definition ParseConstraint (s0 : string) : result Constraint :=
  let s := trim_space s0 in
  if String.eqb s "" || String.eqb s "*" then Ok (mkConstraint s zeroVersion zeroVersion false false)
  else match strip_prefix ">=" s with
  | Some r =>
      let! '(v, _) := parsePartial r in
      Ok (mkConstraint s v zeroVersion false false)
  | None =>
  match strip_prefix "^" s with
  | Some r =>
      let! '(v, _) := parsePartial r in
      Ok (mkConstraint s v (caret_max v) true false)
  | None =>
  match strip_prefix "~" s with
  | Some r =>
      let! '(v, n) := parsePartial r in
      Ok (mkConstraint s v (tilde_max v n) true false)
  | None =>
      let! '(v, n) := parsePartial s in
      Ok (mkConstraint s v (plain_max v n) true
            (negb (n =? 1)%Z && negb (n =? 2)%Z && negb (String.eqb (Pre v) "")))
  end end end.

(** [Constraint.Check]. *)
Definition constraint_check (c : Constraint) (v : Version) : bool :=
  if exact c then (Compare v (cmin c) =? 0)%Z
  else if negb (String.eqb (Pre v) "") && String.eqb (Pre (cmin c)) "" then false
  else if (Compare v (cmin c) <? 0)%Z then false
  else if bounded c then
    let maxv := cmax c in
    if String.eqb (Pre maxv) "" && negb (String.eqb (Pre v) "") && (Major v =? Major maxv)%Z
       && (Minor v =? Minor maxv)%Z && (Patch v =? Patch maxv)%Z then false
    else (Compare v maxv <? 0)%Z
  else true.

(** [Constraint.String]. *)
Definition constraint_string (c : Constraint) : string :=
  if String.eqb (raw c) "" then "*" else raw c.

(** ** Well-formed versions: what parsing produces *)

Definition wf_num (n : Z) : Prop := (0 <= n <= int_max)%Z.
Definition wf_version (v : Version) : Prop :=
  wf_num (Major v) /\ wf_num (Minor v) /\ wf_num (Patch v).

Lemma parse_component_ok p orig n :
  parse_component p orig = Ok n -> wf_num n /\ atoi p = Some n.
Proof.
  unfold parse_component, wf_num. destruct (atoi p) as [m|] eqn:E; [|done].
  destruct (_ || _) eqn:O; [done|]. intros [= ->]. bools.
  apply atoi_bounds in E. split; [lia|done].
Qed.

Lemma parse_components_ok ps orig ns :
  parse_components ps orig = Ok ns -> Forall wf_num ns /\ List.length ns = List.length ps.
Proof.
  revert ns. induction ps as [|p ps IH]; intros ns; cbn.
  - intros [= <-]. done.
  - intros H. apply rbind_ok in H as (n & Hn & H). apply rbind_ok in H as (ns' & Hns & [= <-]).
    apply parse_component_ok in Hn as [Hn _]. destruct (IH _ Hns) as [H1 H2].
    split; [by constructor|cbn; lia].
Qed.

Lemma wf_nth ns i : Forall wf_num ns -> wf_num (nth i ns 0%Z).
Proof.
  intros H. revert i. induction H; intros i; destruct i; cbn; auto; unfold wf_num, int_max; lia.
Qed.

Lemma parsePartial_wf s v n :
  parsePartial s = Ok (v, n) ->
  wf_version v /\ (1 <= n <= 3)%Z /\ (Pre v <> "" -> n = 3%Z) /\
  (n = 1%Z -> Minor v = 0%Z /\ Patch v = 0%Z) /\ (n = 2%Z -> Patch v = 0%Z).
Proof.
  unfold parsePartial. intros H. apply rbind_ok in H as ([s' pre] & _ & H).
  destruct (_ || _) eqn:Hl; [done|]. apply rbind_ok in H as (ns & Hns & H).
  destruct (_ && _) eqn:Hp; [done|]. injection H as <- <-.
  apply parse_components_ok in Hns as [Hwf Hlen].
  apply orb_false_iff in Hl as [H0 H3]. apply Nat.eqb_neq in H0. apply Nat.ltb_ge in H3.
  pose proof (fun i => wf_nth ns i Hwf) as W.
  split; [exact (conj (W 0%nat) (conj (W 1%nat) (W 2%nat)))|].
  cbn. split_and!; [lia|lia| | | ].
  - intros Hpre. apply andb_false_iff in Hp as [Hp|Hp]; bools; [done|].
    apply Nat.eqb_eq in Hp. lia.
  - intros Hn. destruct ns as [|? [|? ?]]; cbn in *; [lia|done|lia].
  - intros Hn. destruct ns as [|? [|? [|? ?]]]; cbn in *; [lia|lia|done|lia].
Qed.

Lemma Parse_wf s v : Parse s = Ok v -> wf_version v.
Proof.
  unfold Parse. intros H. apply rbind_ok in H as ([v' n] & Hv & H).
  destruct (n =? 3)%Z; [|done]. injection H as ->. by apply parsePartial_wf in Hv as [].
Qed.

(** ** The order on versions *)

(** Pre-releases sort before their release and lexically among themselves. *)
Definition pre_lt (p q : string) : Prop :=
  p <> "" /\ (q = "" \/ (q <> "" /\ str_lt p q = true)).

Definition ver_lt (v o : Version) : Prop :=
  (Major v < Major o)%Z \/ Major v = Major o /\
  ((Minor v < Minor o)%Z \/ Minor v = Minor o /\
   ((Patch v < Patch o)%Z \/ Patch v = Patch o /\ pre_lt (Pre v) (Pre o))).

Lemma str_lt_irrefl s : str_lt s s = false.
Proof. unfold str_lt, String.ltb. by rewrite str_compare_refl. Qed.

Lemma str_lt_trans s t u : str_lt s t = true -> str_lt t u = true -> str_lt s u = true.
Proof.
  rewrite !str_lt_spec. intros [H1 N1] [H2 N2]. split; [by eapply str_le_trans|].
  intros ->. by apply N2, str_le_antisym.
Qed.

Lemma str_lt_trichotomy s t : str_lt s t = true \/ s = t \/ str_lt t s = true.
Proof.
  destruct (decide (s = t)) as [->|N]; [by right; left|].
  destruct (str_le_total s t) as [H|H]; [left|do 2 right]; apply str_lt_spec; auto.
Qed.

#[export] Instance pre_lt_strict : StrictOrder pre_lt.
Proof.
  split.
  - intros p [Hp [->|[_ H]]]; [done|]. by rewrite str_lt_irrefl in H.
  - intros p q r [Hp Hpq] [Hq Hqr]. split; [done|].
    destruct Hpq as [->|[_ Hpq]]; [done|]. destruct Hqr as [->|[Hr Hqr]]; [by left|].
    right. split; [done|]. by eapply str_lt_trans.
Qed.

#[export] Instance ver_lt_strict : StrictOrder ver_lt.
Proof.
  unfold ver_lt. split.
  - intros v [H|[_ [H|[_ [H|[_ H]]]]]]; [lia..|].
    by apply (irreflexivity pre_lt) in H.
  - intros x y z H1 H2.
    assert (Htr : pre_lt (Pre x) (Pre y) -> pre_lt (Pre y) (Pre z) -> pre_lt (Pre x) (Pre z))
      by apply transitivity.
    repeat match goal with H : _ \/ _ |- _ => destruct H | H : _ /\ _ |- _ => destruct H end;
      first [left; lia | right; split; [lia|]];
      first [left; lia | right; split; [lia|]];
      first [left; lia | right; split; [lia|]]; auto.
Qed.

Lemma pre_trichotomy p q : pre_lt p q \/ p = q \/ pre_lt q p.
Proof.
  unfold pre_lt. destruct (decide (p = "")) as [->|Hp], (decide (q = "")) as [->|Hq].
  - by right; left.
  - do 2 right. auto.
  - left. auto.
  - destruct (str_lt_trichotomy p q) as [H|[H|H]]; auto 6.
Qed.

Lemma ver_lt_pre a b c p q : pre_lt p q -> ver_lt (mkVersion a b c p) (mkVersion a b c q).
Proof. intros H. right; split; [done|]. right; split; [done|]. right; split; done. Qed.

(** How the four fields of two well-formed versions decide [Compare]. *)
Lemma Compare_cases v o :
  wf_version v -> wf_version o ->
  ver_lt v o /\ Compare v o = (-1)%Z \/ v = o /\ Compare v o = 0%Z \/ ver_lt o v /\ Compare v o = 1%Z.
Proof.
  intros (V1 & V2 & V3) (O1 & O2 & O3). unfold wf_num in *.
  unfold Compare. rewrite !wrap_small by (unfold int_min, int_max in *; lia).
  destruct v as [a b c p], o as [a' b' c' p']; cbn in *.
  destruct (Z.ltb_spec (a - a') 0); [left; split; [unfold ver_lt; cbn; lia|done]|].
  destruct (Z.ltb_spec 0 (a - a')); [do 2 right; split; [unfold ver_lt; cbn; lia|done]|].
  destruct (Z.ltb_spec (b - b') 0); [left; split; [unfold ver_lt; cbn; lia|done]|].
  destruct (Z.ltb_spec 0 (b - b')); [do 2 right; split; [unfold ver_lt; cbn; lia|done]|].
  destruct (Z.ltb_spec (c - c') 0); [left; split; [unfold ver_lt; cbn; lia|done]|].
  destruct (Z.ltb_spec 0 (c - c')); [do 2 right; split; [unfold ver_lt; cbn; lia|done]|].
  assert (a = a') as -> by lia. assert (b = b') as -> by lia. assert (c = c') as -> by lia.
  destruct (String.eqb_spec p p') as [->|Hne]; [by right; left|].
  destruct (String.eqb_spec p "") as [->|Hp]; [do 2 right; split; [|done]|].
  { apply ver_lt_pre. split; auto. }
  destruct (String.eqb_spec p' "") as [->|Hp']; [left; split; [|done]|].
  { apply ver_lt_pre. split; auto. }
  destruct (str_lt p p') eqn:E; [left|do 2 right]; (split; [apply ver_lt_pre|done]).
  - split; auto.
  - split; [done|]. right. split; [done|].
    destruct (str_lt_trichotomy p p') as [H'|[H'|H']]; congruence.
Qed.

Lemma Compare_lt v o : wf_version v -> wf_version o -> ((Compare v o < 0)%Z <-> ver_lt v o).
Proof.
  intros Hv Ho. destruct (Compare_cases v o Hv Ho) as [[H ->]|[[-> ->]|[H ->]]].
  - by split.
  - split; [lia|]. intros H. by apply (irreflexivity ver_lt) in H.
  - split; [lia|]. intros H'. exfalso. apply (irreflexivity ver_lt v). by transitivity o.
Qed.

Lemma Compare_eq v o : wf_version v -> wf_version o -> (Compare v o = 0%Z <-> v = o).
Proof.
  intros Hv Ho. destruct (Compare_cases v o Hv Ho) as [[H ->]|[[-> ->]|[H ->]]]; [|done|].
  - split; [lia|]. intros ->. by apply (irreflexivity ver_lt) in H.
  - split; [lia|]. intros ->. by apply (irreflexivity ver_lt) in H.
Qed.

Lemma Compare_gt v o : wf_version v -> wf_version o -> ((0 < Compare v o)%Z <-> ver_lt o v).
Proof.
  intros Hv Ho. destruct (Compare_cases v o Hv Ho) as [[H ->]|[[-> ->]|[H ->]]].
  - split; [lia|]. intros H'. exfalso. apply (irreflexivity ver_lt v). by transitivity o.
  - split; [lia|]. intros H. by apply (irreflexivity ver_lt) in H.
  - by split.
Qed.

(** ** What a constraint means *)

Inductive level := LMajor | LMinor | LPatch.

(** Two versions agree on the components down to a level. *)
Definition same_to (k : level) (v w : Version) : Prop :=
  Major w = Major v /\
  match k with
  | LMajor => True
  | LMinor => Minor w = Minor v
  | LPatch => Minor w = Minor v /\ Patch w = Patch v
  end.

(** The exclusive upper bound that keeps a level fixed. *)
Definition range_max (k : level) (v : Version) : Version :=
  match k with
  | LMajor => mkVersion (incr (Major v)) 0 0 ""
  | LMinor => mkVersion (Major v) (incr (Minor v)) 0 ""
  | LPatch => mkVersion (Major v) (Minor v) (incr (Patch v)) ""
  end.

(** The level a caret keeps: the leftmost non-zero component. *)
Definition caret_level (v : Version) : level :=
  if (0 <? Major v)%Z then LMajor else if (0 <? Minor v)%Z then LMinor else LPatch.

Inductive form :=
| Any
| AtLeast (v : Version)
| SameTo (k : level) (v : Version)
| Exactly (v : Version).

(** Pre-releases only match a constraint whose bound is itself one. *)
Definition pre_allowed (v w : Version) : Prop := Pre w <> "" -> Pre v <> "".

Definition accepts (f : form) (w : Version) : Prop :=
  match f with
  | Any => Pre w = ""
  | AtLeast v => ~ ver_lt w v /\ pre_allowed v w
  | SameTo k v => same_to k v w /\ ~ ver_lt w v /\ pre_allowed v w
  | Exactly v => w = v
  end.

(** The documented syntax of constraints. *)
Inductive denotes : string -> form -> Prop :=
| den_empty : denotes "" Any
| den_star : denotes "*" Any
| den_at_least r v n : parsePartial r = Ok (v, n) -> denotes (">=" +++ r) (AtLeast v)
| den_caret r v n : parsePartial r = Ok (v, n) -> denotes ("^" +++ r) (SameTo (caret_level v) v)
| den_tilde r v n : parsePartial r = Ok (v, n) ->
    denotes ("~" +++ r) (SameTo (if decide (n = 1%Z) then LMajor else LMinor) v)
| den_partial s v n : parsePartial s = Ok (v, n) -> n <> 3%Z ->
    denotes s (SameTo (if decide (n = 1%Z) then LMajor else LMinor) v)
| den_release s v : parsePartial s = Ok (v, 3%Z) -> Pre v = "" -> denotes s (SameTo LPatch v)
| den_pre s v : parsePartial s = Ok (v, 3%Z) -> Pre v <> "" -> denotes s (Exactly v).

(** The test of the upper bound in [Check]. *)
Definition below_max (w maxv : Version) : bool :=
  if String.eqb (Pre maxv) "" && negb (String.eqb (Pre w) "") && (Major w =? Major maxv)%Z
     && (Minor w =? Minor maxv)%Z && (Patch w =? Patch maxv)%Z then false
  else (Compare w maxv <? 0)%Z.

Lemma incr_cases n : wf_num n -> incr n = (n + 1)%Z \/ n = int_max /\ incr n = int_min.
Proof.
  unfold wf_num, incr. intros H. destruct (decide (n = int_max)) as [->|Hn]; [right; done|left].
  apply wrap_small. unfold int_min, int_max in *. lia.
Qed.

(** At a level that is equal above, the bound is passed exactly when the level's
    component grew; the overflow of the largest int is undone by the subtraction's. *)
Lemma diff_incr n m :
  wf_num n -> wf_num m -> (n <= m)%Z ->
  (m = n /\ wrap (m - incr n) = (-1)%Z /\ m <> incr n) \/
  ((n < m)%Z /\ (0 <= wrap (m - incr n))%Z /\ (wrap (m - incr n) = 0%Z <-> m = incr n)).
Proof.
  unfold wf_num. intros Hn Hm Hle. destruct (incr_cases n Hn) as [->|[-> ->]].
  - rewrite wrap_small by (unfold int_min, int_max in *; lia).
    destruct (decide (m = n)); [left|right]; lia.
  - assert (m = int_max) as -> by lia. by left.
Qed.

Lemma Compare_max_neg w a b c :
  (Compare w (mkVersion a b c "") < 0)%Z <->
  let d1 := wrap (Major w - a) in let d2 := wrap (Minor w - b) in let d3 := wrap (Patch w - c) in
  (d1 < 0 \/ d1 = 0 /\ (d2 < 0 \/ d2 = 0 /\ (d3 < 0 \/ d3 = 0 /\ Pre w <> "")))%Z.
Proof.
  unfold Compare. cbn [Major Minor Patch Pre first_difference]. cbv zeta.
  generalize (wrap (Major w - a)) (wrap (Minor w - b)) (wrap (Patch w - c)). intros d1 d2 d3.
  destruct (Z.ltb_spec d1 0); [lia|]. destruct (Z.ltb_spec 0 d1); [lia|].
  destruct (Z.ltb_spec d2 0); [lia|]. destruct (Z.ltb_spec 0 d2); [lia|].
  destruct (Z.ltb_spec d3 0); [lia|]. destruct (Z.ltb_spec 0 d3); [lia|].
  destruct (String.eqb_spec (Pre w) "") as [E|E]; cbn; split; try lia; intros Hd.
  - destruct Hd as [?|[_ [?|[_ [?|[_ ?]]]]]]; [lia..|done].
  - do 3 (right; split; [lia|]). done.
Qed.

Lemma below_max_neg w a b c :
  below_max w (mkVersion a b c "") = true <->
  ~ (Pre w <> "" /\ Major w = a /\ Minor w = b /\ Patch w = c) /\
  (Compare w (mkVersion a b c "") < 0)%Z.
Proof.
  unfold below_max. cbn [Pre Major Minor Patch]. rewrite String.eqb_refl. cbn.
  destruct (String.eqb_spec (Pre w) "") as [E|E]; cbn.
  { rewrite Z.ltb_lt. tauto. }
  destruct (Z.eqb_spec (Major w) a), (Z.eqb_spec (Minor w) b), (Z.eqb_spec (Patch w) c);
    cbn; rewrite ?Z.ltb_lt; split; try done; tauto.
Qed.

Lemma ver_ge_nums w v :
  ~ ver_lt w v ->
  (Major v < Major w \/ Major w = Major v /\
    (Minor v < Minor w \/ Minor w = Minor v /\ Patch v <= Patch w))%Z.
Proof.
  unfold ver_lt. intros H.
  destruct (Z.lt_trichotomy (Major w) (Major v)) as [?|[?|?]]; [tauto| |by left]. right; split; [done|].
  destruct (Z.lt_trichotomy (Minor w) (Minor v)) as [?|[?|?]]; [tauto| |by left]. right; split; [done|].
  destruct (Z.lt_ge_cases (Patch w) (Patch v)); [tauto|done].
Qed.

(** From [v] upwards, the bound of a level admits exactly the versions that keep it. *)
Lemma below_max_spec k v w :
  wf_version v -> wf_version w -> ~ ver_lt w v ->
  below_max w (range_max k v) = true <-> same_to k v w.
Proof.
  intros (V1 & V2 & V3) (W1 & W2 & W3) Hge%ver_ge_nums.
  assert (Hsub : forall x y, wf_num x -> wf_num y -> wrap (x - y) = (x - y)%Z).
  { unfold wf_num. intros. apply wrap_small. unfold int_min, int_max in *. lia. }
  assert (Hz : forall x, wf_num x -> wrap (x - 0) = x).
  { intros x Hx. rewrite Hsub; [lia|done|unfold wf_num, int_max; lia]. }
  assert (Hpre : (Pre w <> "" <-> False) \/ (Pre w <> "" <-> True)).
  { destruct (decide (Pre w = "")); [left|right]; tauto. }
  unfold range_max, same_to.
  destruct k; rewrite below_max_neg, Compare_max_neg; cbv zeta; rewrite ?Hz, ?Hsub by done.
  - pose proof (diff_incr (Major v) (Major w) V1 W1). unfold wf_num in *.
    destruct Hpre as [Hp|Hp]; rewrite Hp; lia.
  - pose proof (diff_incr (Minor v) (Minor w) V2 W2). unfold wf_num in *.
    destruct Hpre as [Hp|Hp]; rewrite Hp; lia.
  - pose proof (diff_incr (Patch v) (Patch w) V3 W3). unfold wf_num in *.
    destruct Hpre as [Hp|Hp]; rewrite Hp; lia.
Qed.

Lemma pre_allowed_test v w :
  negb (String.eqb (Pre w) "") && String.eqb (Pre v) "" = false <-> pre_allowed v w.
Proof.
  unfold pre_allowed. destruct (String.eqb_spec (Pre w) ""), (String.eqb_spec (Pre v) ""); cbn;
    split; try done; tauto.
Qed.

Lemma check_unbounded r v m w :
  wf_version v -> wf_version w ->
  constraint_check (mkConstraint r v m false false) w = true <-> ~ ver_lt w v /\ pre_allowed v w.
Proof.
  intros Hv Hw. unfold constraint_check. cbn [exact cmin cmax bounded].
  rewrite <- (Compare_lt w v), <- pre_allowed_test by done.
  destruct (_ && _); [split; [done|by intros []]|].
  destruct (Z.ltb_spec (Compare w v) 0); split; try done; try lia.
  all: intros []; lia.
Qed.

Lemma check_bounded r v k w :
  wf_version v -> wf_version w ->
  constraint_check (mkConstraint r v (range_max k v) true false) w = true <->
  same_to k v w /\ ~ ver_lt w v /\ pre_allowed v w.
Proof.
  intros Hv Hw. unfold constraint_check. cbn [exact cmin cmax bounded].
  fold (below_max w (range_max k v)). rewrite <- pre_allowed_test.
  destruct (_ && _); [split; [done|by intros (_ & _ & ?)]|].
  destruct (Z.ltb_spec (Compare w v) 0) as [H|H].
  - apply Compare_lt in H; [|done..]. split; [done|]. by intros (_ & ? & _).
  - assert (~ ver_lt w v) by (rewrite <- Compare_lt by done; lia).
    rewrite (below_max_spec k v w) by done. tauto.
Qed.

Lemma caret_max_level v : wf_version v -> caret_max v = range_max (caret_level v) v.
Proof.
  intros (H1 & H2 & H3). unfold wf_num, caret_max, caret_level, range_max in *.
  destruct (Z.ltb_spec 0 (Major v)); [done|]. assert (Major v = 0%Z) as -> by lia.
  destruct (Z.ltb_spec 0 (Minor v)); [done|]. by assert (Minor v = 0%Z) as -> by lia.
Qed.

Lemma wf_zero : wf_version zeroVersion.
Proof. unfold wf_version, wf_num, int_max. cbn. lia. Qed.

Lemma zero_least w : wf_version w -> Pre w = "" -> ~ ver_lt w zeroVersion.
Proof.
  intros (H1 & H2 & H3) Hp. unfold wf_num, ver_lt, zeroVersion in *. cbn.
  intros [H|[_ [H|[_ [H|[_ [H _]]]]]]]; [lia..|done].
Qed.

(** The shape [ParseConstraint] gives a constraint, by its syntax. *)
Lemma ParseConstraint_form s c :
  ParseConstraint s = Ok c ->
  exists f, denotes (trim_space s) f /\
  match f with
  | Any => c = mkConstraint (trim_space s) zeroVersion zeroVersion false false
  | AtLeast v => wf_version v /\ c = mkConstraint (trim_space s) v zeroVersion false false
  | SameTo k v => wf_version v /\ c = mkConstraint (trim_space s) v (range_max k v) true false
  | Exactly v => wf_version v /\ exact c = true /\ cmin c = v
  end.
Proof.
  unfold ParseConstraint. generalize (trim_space s). clear s. intros s.
  destruct (String.eqb_spec s "") as [->|_]; [intros [= <-]; exists Any; split; [constructor|done]|].
  destruct (String.eqb_spec s "*") as [->|_]; [intros [= <-]; exists Any; split; [constructor|done]|].
  cbn [orb].
  destruct (strip_prefix ">=" s) as [r|] eqn:E1.
  { intros H. apply rbind_ok in H as ([v n] & Hv & [= <-]). apply strip_prefix_spec in E1 as ->.
    exists (AtLeast v). split; [by econstructor|]. by apply parsePartial_wf in Hv as []. }
  destruct (strip_prefix "^" s) as [r|] eqn:E2.
  { intros H. apply rbind_ok in H as ([v n] & Hv & [= <-]). apply strip_prefix_spec in E2 as ->.
    exists (SameTo (caret_level v) v). split; [by econstructor|].
    apply parsePartial_wf in Hv as [Hv _]. split; [done|]. by rewrite caret_max_level. }
  destruct (strip_prefix "~" s) as [r|] eqn:E3.
  { intros H. apply rbind_ok in H as ([v n] & Hv & [= <-]). apply strip_prefix_spec in E3 as ->.
    exists (SameTo (if decide (n = 1%Z) then LMajor else LMinor) v). split; [by econstructor|].
    apply parsePartial_wf in Hv as [Hv _]. split; [done|]. unfold tilde_max.
    destruct (decide (n = 1%Z)) as [->|N]; [done|]. by rewrite (proj2 (Z.eqb_neq n 1) N). }
  intros H. apply rbind_ok in H as ([v n] & Hv & [= <-]).
  pose proof (parsePartial_wf _ _ _ Hv) as (Hwf & Hn & _). unfold plain_max.
  destruct (Z.eqb_spec n 1) as [->|N1].
  { exists (SameTo LMajor v). split; [by apply (den_partial s v 1)|done]. }
  destruct (Z.eqb_spec n 2) as [->|N2].
  { exists (SameTo LMinor v). split; [by apply (den_partial s v 2)|done]. }
  assert (n = 3%Z) as -> by lia. destruct (String.eqb_spec (Pre v) "") as [Hp|Hp]; cbn.
  - exists (SameTo LPatch v). split; [by constructor|done].
  - exists (Exactly v). split; [by constructor|done].
Qed.

(** A constraint's test decides what its form accepts. *)
Lemma check_form s c f w :
  wf_version w ->
  match f with
  | Any => c = mkConstraint s zeroVersion zeroVersion false false
  | AtLeast v => wf_version v /\ c = mkConstraint s v zeroVersion false false
  | SameTo k v => wf_version v /\ c = mkConstraint s v (range_max k v) true false
  | Exactly v => wf_version v /\ exact c = true /\ cmin c = v
  end ->
  constraint_check c w = true <-> accepts f w.
Proof.
  intros Hw. destruct f as [|v|k v|v]; cbn [accepts].
  - intros ->. rewrite check_unbounded by (done || apply wf_zero). unfold pre_allowed. cbn.
    split; [|intros Hp; split; [by apply zero_least|done]].
    intros [_ H]. destruct (decide (Pre w = "")); tauto.
  - intros [Hv ->]. by apply check_unbounded.
  - intros [Hv ->]. by apply check_bounded.
  - intros (Hv & He & <-). unfold constraint_check. rewrite He, Z.eqb_eq. by apply Compare_eq.
Qed.

(** ** Printing and parsing *)

Lemma digit_graph c : is_digit c = true -> is_graph c = true.
Proof. destruct c as [[] [] [] [] [] [] [] []]; vm_compute; done. Qed.

Lemma parse_component_itoa z orig : wf_num z -> parse_component (itoa z) orig = Ok z.
Proof.
  unfold wf_num. intros H. unfold parse_component. rewrite atoi_itoa by done.
  destruct (itoa_literal z) as (_ & _ & Hl); [lia|].
  destruct (Z.ltb_spec z 0); [lia|]. cbn.
  destruct (itoa z) as [|c [|d r]]; try done. cbn. by destruct (ascii_dec c "0").
Qed.

Definition triple_string (v : Version) : string :=
  itoa (Major v) +++ String "." (itoa (Minor v) +++ String "." (itoa (Patch v))).

Lemma version_string_cut v :
  version_string v = triple_string v +++ (if String.eqb (Pre v) "" then "" else String "-" (Pre v)).
Proof. unfold version_string, triple_string. rewrite !str_app_assoc. cbn. by rewrite str_app_assoc. Qed.

Lemma triple_string_graph v : wf_version v -> str_all is_graph (triple_string v) = true.
Proof.
  intros (H1 & H2 & H3). unfold wf_num, triple_string in *.
  rewrite !str_all_app. cbn. rewrite !str_all_app. cbn.
  rewrite !(str_all_impl is_digit is_graph _ digit_graph) by (apply itoa_digits; lia). done.
Qed.

Lemma itoa_no_byte z c : (0 <= z)%Z -> is_digit c = false -> contains_byte c (itoa z) = false.
Proof. intros H. apply str_all_not_contains. by apply itoa_digits. Qed.

Lemma triple_split v : wf_version v -> split_on "." (triple_string v) = [itoa (Major v); itoa (Minor v); itoa (Patch v)].
Proof.
  intros (H1 & H2 & H3). unfold wf_num, triple_string in *.
  rewrite !split_on_app by (apply itoa_no_byte; [lia|done]).
  by rewrite split_on_none by (apply itoa_no_byte; [lia|done]).
Qed.

Lemma triple_no_dash v : wf_version v -> contains_byte "-" (triple_string v) = false.
Proof.
  intros (H1 & H2 & H3). unfold wf_num, triple_string in *.
  rewrite !contains_app. cbn. rewrite !contains_app. cbn.
  by rewrite !itoa_no_byte by (done || lia).
Qed.

Lemma trim_v_digit s : str_all is_digit s = true -> s <> "" -> forall t, trim_prefix "v" (s +++ t) = s +++ t.
Proof.
  intros H N t. unfold trim_prefix. destruct s as [|c s]; [done|]. cbn in *. bools.
  destruct (ascii_dec "v" c) as [<-|]; done.
Qed.

Lemma parsePartial_print v :
  wf_version v -> str_all is_graph (Pre v) = true -> parsePartial (version_string v) = Ok (v, 3%Z).
Proof.
  intros Hv Hg. unfold parsePartial. rewrite version_string_cut.
  assert (Hpre : str_all is_graph (if String.eqb (Pre v) "" then "" else String "-" (Pre v)) = true)
    by (destruct (String.eqb (Pre v) ""); [done|exact Hg]).
  rewrite trim_space_graph by (by rewrite str_all_app, triple_string_graph, Hpre).
  assert (Ht : forall t, trim_prefix "v" (triple_string v +++ t) = triple_string v +++ t).
  { intros t. unfold triple_string. rewrite str_app_assoc. destruct Hv as (H1 & _).
    destruct (itoa_literal (Major v)) as (Hd & Hn & _); [unfold wf_num in H1; lia|].
    by apply trim_v_digit. }
  rewrite Ht.
  assert (Hcut : cut_first "-" (triple_string v +++ (if String.eqb (Pre v) "" then "" else String "-" (Pre v)))
    = if String.eqb (Pre v) "" then None else Some (triple_string v, Pre v)).
  { destruct (String.eqb (Pre v) "").
    - rewrite str_app_nil_r. apply cut_first_none. by apply triple_no_dash.
    - apply cut_first_spec. split; [done|]. by apply triple_no_dash. }
  rewrite Hcut. pose proof Hv as (H1 & H2 & H3). destruct v as [a b c p]; cbn [Pre] in *.
  destruct (String.eqb_spec p "") as [->|N].
  - rewrite str_app_nil_r. cbn [rbind].
    rewrite triple_split by done. cbn. by rewrite !parse_component_itoa.
  - destruct p as [|d p]; [done|]. cbn [rbind].
    rewrite triple_split by done. cbn. by rewrite !parse_component_itoa.
Qed.

(** * Properties *)

(** [Compare] decides a strict total order on parsed versions: negative
    exactly when the left version precedes the right one (numerically by component,
    a pre-release before its release, pre-releases bytewise), zero exactly on equal
    versions, and antisymmetric in its arguments; no subtraction overflows. *)
Theorem Compare_total_order (v o : Version) :
  wf_version v -> wf_version o ->
  ((Compare v o < 0)%Z <-> ver_lt v o) /\ (Compare v o = 0%Z <-> v = o) /\
  Compare o v = (- Compare v o)%Z.
Proof.
  intros Hv Ho. split; [by apply Compare_lt|]. split; [by apply Compare_eq|].
  destruct (Compare_cases v o Hv Ho) as [[H ->]|[[-> ->]|[H ->]]].
  - destruct (Compare_cases o v Ho Hv) as [[H' _]|[[-> _]|[H' ->]]]; [|by apply (irreflexivity ver_lt) in H|done].
    exfalso. apply (irreflexivity ver_lt v). by transitivity o.
  - done.
  - destruct (Compare_cases o v Ho Hv) as [[H' ->]|[[-> _]|[H' _]]]; [done|by apply (irreflexivity ver_lt) in H|].
    exfalso. apply (irreflexivity ver_lt v). by transitivity o.
Qed.

(** Printing a version and parsing the text gives the version back, for any
    components an int holds and any printable pre-release tag. *)
Theorem Parse_String_roundtrip (v : Version) :
  wf_version v -> str_all is_graph (Pre v) = true -> Parse (version_string v) = Ok v.
Proof. intros Hv Hg. unfold Parse. by rewrite parsePartial_print. Qed.

(** Every constraint [ParseConstraint] accepts has a documented syntactic form,
    and [Check] accepts exactly the versions that form admits: the largest int
    included, where the bound's increment overflows. *)
Theorem ParseConstraint_Check_refines (s : string) (c : Constraint) (w : Version) :
  ParseConstraint s = Ok c -> wf_version w ->
  exists f, denotes (trim_space s) f /\ (constraint_check c w = true <-> accepts f w).
Proof.
  intros Hc Hw. destruct (ParseConstraint_form s c Hc) as (f & Hf & Hshape).
  exists f. split; [done|]. by apply (check_form (trim_space s) c f w).
Qed.

(** * Witnesses *)

Lemma Compare_total_order_witness :
  ver_lt (mkVersion 1 2 3 "rc.1") (mkVersion 1 2 3 "").
Proof.
  apply (Compare_total_order (mkVersion 1 2 3 "rc.1") (mkVersion 1 2 3 ""));
    [unfold wf_version, wf_num, int_max; cbn; lia..|vm_compute; reflexivity].
Defined.

Lemma Parse_String_roundtrip_witness :
  Parse "9223372036854775807.0.42-rc.1" = Ok (mkVersion int_max 0 42 "rc.1").
Proof.
  apply (Parse_String_roundtrip (mkVersion int_max 0 42 "rc.1"));
    [unfold wf_version, wf_num, int_max; cbn; lia|vm_compute; reflexivity].
Defined.

Lemma ParseConstraint_Check_refines_witness :
  exists f, denotes "^9223372036854775807" f /\ accepts f (mkVersion int_max 4 0 "").
Proof.
  destruct (ParseConstraint_Check_refines " ^9223372036854775807 "
    (mkConstraint "^9223372036854775807" (mkVersion int_max 0 0 "") (mkVersion int_min 0 0 "") true false)
    (mkVersion int_max 4 0 "")) as (f & Hf & Hacc).
  - vm_compute. reflexivity.
  - unfold wf_version, wf_num, int_max; cbn; lia.
  - exists f. split; [exact Hf|]. apply Hacc. vm_compute. reflexivity.
Defined.
