(* ===== verification/AuditLog.v ===== *)
(** The append-only, hash-chained audit log: [src/pkg/audit/audit.go].

    [digest] stands for SHA-256 (in hexadecimal) of an entry's JSON, and
    [encode_entry]/[decode_entry] for [encoding/json] on one line. A log file is
    its bytes; a line is what [bufio.ScanLines] yields. Times are nanoseconds. *)

From S2P Require Import Turgon Prelude GoStr GoErr.
From Stdlib Require Import Ascii String.

(** [Genesis]: the previous hash of the first entry, 64 zeros. *)
Definition Genesis : string :=
  "0000000000000000000000000000000000000000000000000000000000000000".

Definition ErrTampered : string := "audit log tampered".

Record Entry := mkEntry {
  Seq : Z;
  Time : Z;
  Actor : string;
  Action : string;
  Data : string;
  EPrev : string;
  Hash : string
}.

#[export] Instance Entry_eq_dec : EqDecision Entry.
Proof. solve_decision. Defined.

Definition with_hash (e : Entry) (h : string) : Entry :=
  mkEntry (Seq e) (Time e) (Actor e) (Action e) (Data e) (EPrev e) h.

(** Sequence numbers are uint64. *)
Definition next_seq (seq : Z) : Z := ((seq + 1) mod int_mod)%Z.

(** [now.UTC().Truncate(time.Microsecond)]. *)
Definition truncate_us (ns : Z) : Z := (ns - ns mod 1000)%Z.

(** A log under construction: what its writer holds and the head of the chain. *)
Record Log := mkLog {
  contents : string;
  log_seq : Z;
  log_last : string
}.

(** What the writer does with one line: accept it, or fail after some bytes of it. *)
Inductive write_outcome :=
| Written
| WriteFailed (accepted : nat) (err : goerr).

Fixpoint take_bytes (n : nat) (s : string) : string :=
  match n, s with
  | S n, String c s => String c (take_bytes n s)
  | _, _ => ""
  end.

Definition newline : ascii := "010".

(** [bufio.ScanLines] drops a trailing carriage return. *)
Fixpoint drop_cr (s : string) : string :=
  match s with
  | "" => ""
  | String c "" => if ascii_dec c "013" then "" else s
  | String c s => String c (drop_cr s)
  end.

Definition scan_lines (s : string) : list string := map drop_cr (split_on newline s).

(** [Encode]: nil data stays nil; [marshal] is [json.Marshal]. *)
Definition Encode {D} (marshal : D -> result string) (data : option D) : result string :=
  match data with
  | None => Ok ""
  | Some d =>
      match marshal d with
      | Ok b => Ok b
      | Err e => Err (Wrapf (msg0 "audit: encode data: %w") [e])
      end
  end.

Section Audit.
Variable digest : Entry -> string.
Variable encode_entry : Entry -> result string.
Variable decode_entry : string -> result Entry.

(** Hash every field except [Hash] itself. *)
Definition computeHash (e : Entry) : string := digest (with_hash e "").

Definition Next (seq : Z) (prev : string) (now : Z) (actor action data : string) : Entry :=
  let e := mkEntry (next_seq seq) (truncate_us now) actor action data prev "" in
  with_hash e (computeHash e).

(** [Link]: the error of an entry that does not follow [(seq, prev)]. *)
Definition Link (seq : Z) (prev : string) (e : Entry) : option goerr :=
  if negb (Seq e =? next_seq seq)%Z then
    Some (Wrapf (Msg "%w: entry has seq %d, want %d" [FInt (Seq e); FInt (next_seq seq)]) [Sentinel ErrTampered])
  else if negb (String.eqb (EPrev e) prev) then
    Some (Wrapf (Msg "%w: entry %d does not link to entry %d" [FInt (Seq e); FInt seq]) [Sentinel ErrTampered])
  else if negb (String.eqb (computeHash e) (Hash e)) then
    Some (Wrapf (Msg "%w: entry %d content does not match its hash" [FInt (Seq e)]) [Sentinel ErrTampered])
  else None.

Definition New : Log := mkLog "" 0 Genesis.

(** [Record]: nothing changes unless the writer accepted the whole line. *)
Definition Record_ {D} (marshal : D -> result string) (l : Log) (now : Z)
    (actor action : string) (data : option D) (w : write_outcome) : result Entry * Log :=
  match Encode marshal data with
  | Err e => (Err e, l)
  | Ok raw =>
      let e := Next (log_seq l) (log_last l) now actor action raw in
      match encode_entry e with
      | Err err => (Err err, l)
      | Ok line =>
          match w with
          | WriteFailed n err =>
              (Err (Wrapf (msg0 "audit: write: %w") [err]),
               mkLog (contents l +++ take_bytes n (line +++ String newline "")) (log_seq l) (log_last l))
          | Written =>
              (Ok e, mkLog (contents l +++ line +++ String newline "") (Seq e) (Hash e))
          end
      end
  end.

(** The loop of [Verify] over the remaining lines, from entry [last] on. *)
Fixpoint verify_lines (n : Z) (lines : list string) (seq : Z) (prev : string)
    (lst : option Entry) : option Entry * option goerr :=
  match lines with
  | [] => (lst, None)
  | line :: lines =>
      if String.eqb line "" then verify_lines (n + 1) lines seq prev lst
      else match decode_entry line with
      | Err err =>
          (lst, Some (Wrapf (Msg "%w: line %d is not a valid entry: %v" [FInt n; FErr err]) [Sentinel ErrTampered]))
      | Ok e =>
          match Link seq prev e with
          | Some err => (lst, Some (Wrapf (Msg "line %d: %w" [FInt n]) [err]))
          | None => verify_lines (n + 1) lines (Seq e) (Hash e) (Some e)
          end
      end
  end.

(** [Verify]: the last entry, or nil, and what is wrong. [scan_err] is [sc.Err()]:
    a read error or a line longer than the buffer. *)
Definition Verify (s : string) (scan_err : option goerr) : option Entry * option goerr :=
  match verify_lines 1 (scan_lines s) 0 Genesis None with
  | (lst, None) => (lst, scan_err)
  | r => r
  end.

(** [OpenFile] on a file's contents: continue a verified chain, refuse any other. *)
Definition OpenFile (s : string) (scan_err : option goerr) : result Log :=
  match Verify s scan_err with
  | (_, Some err) => Err err
  | (None, None) => Ok (mkLog s 0 Genesis)
  | (Some e, None) => Ok (mkLog s (Seq e) (Hash e))
  end.
End Audit.

(** ** The chain as a list of entries *)

Section Chain.
Context (digest : Entry -> string).

(** Every entry has the next number, names its predecessor's hash, and its own
    hash commits to all of its other fields. *)
Inductive linked : Z -> string -> list Entry -> Prop :=
| linked_nil n h : linked n h []
| linked_cons n h e es :
    Seq e = next_seq n -> EPrev e = h -> digest (with_hash e "") = Hash e ->
    linked (Seq e) (Hash e) es -> linked n h (e :: es).

Lemma Link_none n h e :
  Link digest n h e = None <->
  Seq e = next_seq n /\ EPrev e = h /\ digest (with_hash e "") = Hash e.
Proof.
  unfold Link, computeHash.
  destruct (Z.eqb_spec (Seq e) (next_seq n)), (String.eqb_spec (EPrev e) h),
    (String.eqb_spec (digest (with_hash e "")) (Hash e)); cbn; split; try done; tauto.
Qed.

Lemma Link_tampered n h e err : Link digest n h e = Some err -> errors_is err ErrTampered = true.
Proof. unfold Link. repeat case_match; intros [= <-]; reflexivity. Qed.

(** What follows a chain's head: the last entry if there is one. *)
Definition head_after (o : option Entry) (es : list Entry) : option Entry :=
  match last es with Some e => Some e | None => o end.

Lemma head_after_cons o e es : head_after o (e :: es) = head_after (Some e) es.
Proof. unfold head_after. rewrite last_cons. by destruct (last es). Qed.

Context (decode_entry : string -> result Entry).

(** The entries on the non-empty lines; [None] if one of them is not an entry. *)
Fixpoint entries_of (lines : list string) : option (list Entry) :=
  match lines with
  | [] => Some []
  | line :: lines =>
      if String.eqb line "" then entries_of lines
      else match decode_entry line, entries_of lines with
           | Ok e, Some es => Some (e :: es)
           | _, _ => None
           end
  end.

Lemma verify_lines_ok n lines sq prev o r :
  verify_lines digest decode_entry n lines sq prev o = (r, None) <->
  exists es, entries_of lines = Some es /\ linked sq prev es /\ r = head_after o es.
Proof.
  revert n sq prev o. induction lines as [|line lines IH]; intros n sq prev o; cbn.
  { split; [intros [= <-]; exists []; by repeat constructor|].
    by intros (es & [= <-] & _ & ->). }
  destruct (String.eqb line ""); [apply IH|].
  destruct (decode_entry line) as [e|err]; [|split; [done|by intros (? & ? & _)]].
  destruct (Link digest sq prev e) as [err|] eqn:El.
  - split; [done|]. intros (es & He & Hl & _).
    destruct (entries_of lines); [|done]. injection He as <-. inversion Hl; subst.
    by rewrite (proj2 (Link_none _ _ _)) in El.
  - apply Link_none in El as (H1 & H2 & H3). rewrite IH. split.
    + intros (es & -> & Hl & ->). exists (e :: es).
      split; [done|]. split; [by constructor|]. by rewrite head_after_cons.
    + intros (es & He & Hl & ->). destruct (entries_of lines) as [es'|]; [|done].
      injection He as <-. inversion Hl; subst. exists es'. by rewrite head_after_cons.
Qed.

(** Anything else [verify_lines] reports is tampering. *)
Lemma verify_lines_tampered n lines sq prev o r err :
  verify_lines digest decode_entry n lines sq prev o = (r, Some err) ->
  errors_is err ErrTampered = true.
Proof.
  revert n sq prev o. induction lines as [|line lines IH]; intros n sq prev o; cbn; [done|].
  destruct (String.eqb line ""); [apply IH|].
  destruct (decode_entry line) as [e|]; [|by intros [= _ <-]].
  destruct (Link digest sq prev e) as [e'|] eqn:El; [|apply IH].
  intros [= _ <-]. apply Link_tampered in El. cbn. by rewrite El.
Qed.
End Chain.

Section ChainLemmas.
Context (digest : Entry -> string).
Abbreviation linked := (linked digest).

(** Where a chain starting at [(n, h)] stands after some entries. *)
Definition after (n : Z) (h : string) (es : list Entry) : Z * string :=
  match last es with Some e => (Seq e, Hash e) | None => (n, h) end.

Lemma after_cons n h e es : after n h (e :: es) = after (Seq e) (Hash e) es.
Proof. unfold after. rewrite last_cons. by destruct (last es). Qed.

Lemma linked_snoc n h es e :
  linked n h (es ++ [e]) <->
  linked n h es /\ Link digest (after n h es).1 (after n h es).2 e = None.
Proof.
  rewrite Link_none. revert n h. induction es as [|x es IH]; intros n h.
  - cbn. split; [intros H; inversion H; subst; split; [constructor|done]|].
    intros [_ (H1 & H2 & H3)]. apply linked_cons; [done..|constructor].
  - rewrite after_cons. cbn. split.
    + intros H. inversion H as [|???? S1 P1 D1 Hl]; subst. apply IH in Hl as [Hl ?].
      split; [by constructor|done].
    + intros [H1 H2]. inversion H1; subst. constructor; [done..|]. by apply IH.
Qed.

Lemma Next_links n h now actor action data :
  Link digest n h (Next digest n h now actor action data) = None.
Proof. by apply Link_none. Qed.

(** Two chains with the same last hash are the same chain, unless two entries
    with different contents share a hash or an entry hashes to [Genesis]. *)
Definition digest_broken : Prop :=
  (exists x y, with_hash x "" <> with_hash y "" /\ computeHash digest x = computeHash digest y) \/
  (exists x, computeHash digest x = Genesis).

Lemma with_hash_eq x y : with_hash x "" = with_hash y "" -> Hash x = Hash y -> x = y.
Proof. destruct x, y; cbn. by intros [= -> -> -> -> -> ->] ->. Qed.

Lemma linked_same_head es1 es2 :
  linked 0 Genesis es1 -> linked 0 Genesis es2 ->
  (after 0 Genesis es1).2 = (after 0 Genesis es2).2 -> es1 = es2 \/ digest_broken.
Proof.
  revert es2. induction es1 as [|e1 es1 IH] using rev_ind; intros es2 H1 H2 Hh;
    destruct es2 as [|e2 es2 _] using rev_ind; [by left| | |].
  - apply linked_snoc in H2 as [_ H2]. apply Link_none in H2 as (_ & _ & H2).
    right; right. exists e2. unfold computeHash. rewrite H2. unfold after in Hh.
    by rewrite last_snoc in Hh.
  - apply linked_snoc in H1 as [_ H1]. apply Link_none in H1 as (_ & _ & H1).
    right; right. exists e1. unfold computeHash. rewrite H1. unfold after in Hh.
    by rewrite last_snoc in Hh.
  - apply linked_snoc in H1 as [L1 H1]. apply linked_snoc in H2 as [L2 H2].
    apply Link_none in H1 as (S1 & P1 & D1). apply Link_none in H2 as (S2 & P2 & D2).
    unfold after in Hh at 1 2. rewrite !last_snoc in Hh. cbn in Hh.
    destruct (decide (with_hash e1 "" = with_hash e2 "")) as [E|N].
    + assert (e1 = e2) as -> by (by apply with_hash_eq).
      destruct (IH es2 L1 L2) as [->|]; [congruence|by left|by right].
    + right; left. exists e1, e2. split; [done|]. unfold computeHash. congruence.
Qed.

Context (decode_entry : string -> result Entry).
Abbreviation entries_of := (entries_of decode_entry).

Lemma entries_of_app l1 l2 :
  entries_of (l1 ++ l2) =
  match entries_of l1, entries_of l2 with Some a, Some b => Some (a ++ b) | _, _ => None end.
Proof.
  induction l1 as [|x l1 IH]; cbn; [by destruct (entries_of l2)|].
  destruct (String.eqb x ""); [done|]. destruct (decode_entry x); [|done].
  rewrite IH. by destruct (entries_of l1), (entries_of l2).
Qed.

(** A line [json.Marshal] writes: one non-empty line, without control characters. *)
Definition clean_line (s : string) : Prop :=
  s <> "" /\ contains_byte newline s = false /\ drop_cr s = s.

(** Text is terminated when it ends with a newline or is empty. *)
Definition terminated (s : string) : Prop := s = "" \/ exists t, s = t +++ String newline "".

(** Appending a terminated line appends its entry. *)
Lemma entries_append s line e :
  terminated s -> clean_line line -> decode_entry line = Ok e ->
  entries_of (scan_lines (s +++ line +++ String newline "")) =
  match entries_of (scan_lines s) with Some es => Some (es ++ [e]) | None => None end.
Proof.
  intros Hs (Hn & Hnl & Hcr) Hd.
  assert (Hline : entries_of (scan_lines (line +++ String newline "")) = Some [e]).
  { unfold scan_lines. rewrite split_on_sep, split_on_none by done. cbn.
    rewrite Hcr, Hd. by destruct (String.eqb_spec line ""). }
  destruct Hs as [->|[t ->]].
  - cbn. exact Hline.
  - unfold scan_lines in *. rewrite str_app_assoc. cbn [String.append].
    rewrite (split_on_sep newline t (line +++ String newline "")), (split_on_sep newline t "").
    rewrite !map_app, !entries_of_app, Hline.
    destruct (entries_of (map drop_cr (split_on newline t))); [|done]. cbn. by rewrite app_nil_r.
Qed.

(** The writer's bytes are a chain that ends where the log's head says. *)
Definition log_ok (l : Log) : Prop :=
  terminated (contents l) /\
  exists es, entries_of (scan_lines (contents l)) = Some es /\ linked 0 Genesis es /\
    after 0 Genesis es = (log_seq l, log_last l).

Lemma New_ok : log_ok New.
Proof. split; [by left|]. exists []. split; [done|]. split; [constructor|done]. Qed.

End ChainLemmas.

Lemma drop_cr_graph s : str_all is_graph s = true -> drop_cr s = s.
Proof.
  induction s as [|c s IH]; [done|]. intros H. cbn in H. bools. cbn [drop_cr].
  destruct s as [|d s]; [|by rewrite IH]. by destruct (ascii_dec c "013") as [->|].
Qed.

Section Reachable.
Context (digest : Entry -> string) (encode_entry : Entry -> result string)
  (decode_entry : string -> result Entry).
Context {D : Type} (marshal : D -> result string).

(** What [encoding/json] promises of an entry and its line. *)
Definition codec_ok : Prop :=
  forall e line, encode_entry e = Ok line -> decode_entry line = Ok e /\ clean_line line.

(** One call of [Record] whose write is whole or refused. *)
Inductive log_step : Log -> Log -> Prop :=
| step_record l now actor action data r l' :
    Record_ digest encode_entry marshal l now actor action data Written = (r, l') -> log_step l l'
| step_refused l now actor action data err r l' :
    Record_ digest encode_entry marshal l now actor action data (WriteFailed 0 err) = (r, l') ->
    log_step l l'.

Lemma log_step_ok l l' :
  codec_ok -> log_ok digest decode_entry l -> log_step l l' -> log_ok digest decode_entry l'.
Proof.
  intros Hc Hl H. destruct H as [l now actor action data r l' H|l now actor action data err r l' H];
    unfold Record_ in H; destruct (Encode marshal data) as [raw|]; try (by injection H as _ <-);
    destruct (encode_entry _) as [line|] eqn:He; try (by injection H as _ <-); injection H as _ <-.
  - destruct (Hc _ _ He) as [Hd Hcl]. destruct Hl as [Ht (es & Hes & Hlk & Ha)].
    split; [right; exists (contents l +++ line); by rewrite str_app_assoc|].
    exists (es ++ [Next digest (log_seq l) (log_last l) now actor action raw]). cbn [contents].
    rewrite (entries_append _ _ _ _ Ht Hcl Hd), Hes. split; [done|].
    split; [|by unfold after; rewrite last_snoc].
    apply linked_snoc. split; [done|]. rewrite Ha. apply Next_links.
  - cbn. rewrite str_app_nil_r. by destruct l.
Qed.

Lemma log_ok_verifies l :
  log_ok digest decode_entry l ->
  OpenFile digest decode_entry (contents l) None = Ok l /\
  exists o, Verify digest decode_entry (contents l) None = (o, None) /\
    match o with Some e => log_seq l = Seq e /\ log_last l = Hash e
               | None => log_seq l = 0%Z /\ log_last l = Genesis end.
Proof.
  intros [_ (es & Hes & Hlk & Ha)].
  assert (Hv : verify_lines digest decode_entry 1 (scan_lines (contents l)) 0 Genesis None =
               (head_after None es, None)) by (apply verify_lines_ok; eauto).
  unfold OpenFile, Verify. rewrite Hv. unfold head_after, after in *. destruct l as [s n h].
  cbn in *. destruct (last es); injection Ha as <- <-;
    (split; [reflexivity|eexists; split; [reflexivity|done]]).
Qed.
End Reachable.

(** * Properties *)

(** Every log built from an empty one by [Record] calls whose writes are whole
    or refused verifies, and [OpenFile] continues it with exactly its head. *)
Theorem recorded_log_verifies (digest : Entry -> string) (encode_entry : Entry -> result string)
    (decode_entry : string -> result Entry) {D} (marshal : D -> result string) (l : Log) :
  codec_ok encode_entry decode_entry ->
  star (log_step digest encode_entry marshal) New l ->
  OpenFile digest decode_entry (contents l) None = Ok l /\
  exists o, Verify digest decode_entry (contents l) None = (o, None) /\
    match o with Some e => log_seq l = Seq e /\ log_last l = Hash e
               | None => log_seq l = 0%Z /\ log_last l = Genesis end.
Proof.
  intros Hc Hs. apply log_ok_verifies.
  apply (star_invariant (log_step digest encode_entry marshal) (log_ok digest decode_entry) New l); [|apply New_ok|done].
  intros x y Hx Hxy. by eapply log_step_ok.
Qed.

(** C35: The chain is tamper-evident: two logs that verify and end with the same
    hash hold the same entries, unless two entries with different contents share a
    SHA-256 hash or an entry hashes to the all-zero [Genesis]. *)
Theorem Verify_tamper_evident (digest : Entry -> string) (decode_entry : string -> result Entry)
    (s1 s2 : string) (e1 e2 : Entry) :
  Verify digest decode_entry s1 None = (Some e1, None) ->
  Verify digest decode_entry s2 None = (Some e2, None) ->
  Hash e1 = Hash e2 ->
  entries_of decode_entry (scan_lines s1) = entries_of decode_entry (scan_lines s2) \/
  digest_broken digest.
Proof.
  unfold Verify. intros H1 H2 Hh.
  destruct (verify_lines _ _ _ (scan_lines s1) _ _ _) as [o1 [|]] eqn:E1; [done|]. injection H1 as ->.
  destruct (verify_lines _ _ _ (scan_lines s2) _ _ _) as [o2 [|]] eqn:E2; [done|]. injection H2 as ->.
  apply verify_lines_ok in E1 as (es1 & -> & L1 & A1). apply verify_lines_ok in E2 as (es2 & -> & L2 & A2).
  unfold head_after in *.
  destruct (linked_same_head digest es1 es2 L1 L2) as [->|]; [|by left|by right].
  unfold after. destruct (last es1), (last es2); cbn; congruence.
Qed.

(** A short write damages the log for good: the bytes it left and the next
    accepted entry share a line, so unless that line happens to parse as an entry,
    [OpenFile] refuses the log as tampered although every entry was recorded by
    this code. *)
Theorem short_write_corrupts (digest : Entry -> string) (encode_entry : Entry -> result string)
    (decode_entry : string -> result Entry) {D} (marshal : D -> result string)
    (l l1 l2 : Log) (t1 t2 : Z) (n : nat) (a1 x1 a2 x2 : string) (d1 d2 : option D)
    (err derr : goerr) (r1 : result Entry) (e2 : Entry) (rest line2 : string) :
  log_ok digest decode_entry l ->
  Record_ digest encode_entry marshal l t1 a1 x1 d1 (WriteFailed n err) = (r1, l1) ->
  contents l1 = contents l +++ rest -> contains_byte newline rest = false ->
  Record_ digest encode_entry marshal l1 t2 a2 x2 d2 Written = (Ok e2, l2) ->
  encode_entry e2 = Ok line2 -> contains_byte newline line2 = false ->
  drop_cr (rest +++ line2) <> "" -> decode_entry (drop_cr (rest +++ line2)) = Err derr ->
  exists e, OpenFile digest decode_entry (contents l2) None = Err e /\ errors_is e ErrTampered = true.
Proof.
  intros [Ht (es & Hes & Hlk & Ha)] _ Hc1 Hr H2 He2 Hl2 Hne Hd.
  assert (Hc2 : contents l2 = contents l +++ (rest +++ line2) +++ String newline "").
  { unfold Record_ in H2. destruct (Encode marshal d2); [|done].
    destruct (encode_entry _) eqn:E in H2; [|done]. injection H2 as <- <-.
    rewrite He2 in E. injection E as <-. cbn. by rewrite Hc1, !str_app_assoc. }
  assert (Hnone : entries_of decode_entry (scan_lines (contents l2)) = None).
  { assert (Hline : entries_of decode_entry (scan_lines ((rest +++ line2) +++ String newline "")) = None).
    { unfold scan_lines. rewrite split_on_sep, split_on_none by (by rewrite contains_app, Hr, Hl2).
      cbn. rewrite Hd. by destruct (String.eqb_spec (drop_cr (rest +++ line2)) ""). }
    rewrite Hc2. destruct Ht as [->|[t ->]]; [exact Hline|].
    unfold scan_lines in *. rewrite str_app_assoc. cbn [String.append].
    rewrite split_on_sep, map_app, entries_of_app, Hline.
    by case_match. }
  unfold OpenFile, Verify.
  destruct (verify_lines _ _ _ (scan_lines (contents l2)) _ _ _) as [o [e|]] eqn:E.
  - exists e. split; [by destruct o|]. eapply verify_lines_tampered, E.
  - apply verify_lines_ok in E as (? & E & _). congruence.
Qed.

(** * Witnesses: a codec of fields joined with bars *)

Module Bars.
Definition plain (s : string) : bool := str_all (fun c => is_graph c && negb (Ascii.eqb c "|")) s.

Definition encode (e : Entry) : result string :=
  if ((0 <=? Seq e) && (Seq e <=? int_max) && (0 <=? Time e) && (Time e <=? int_max))%Z &&
     forallb plain [Actor e; Action e; Data e; EPrev e; Hash e]
  then Ok (join "|" [itoa (Seq e); itoa (Time e); Actor e; Action e; Data e; EPrev e; Hash e])
  else Err (Errorf (msg0 "not plain")).

Definition decode (s : string) : result Entry :=
  match split_on "|" s with
  | [a; b; actor; action; data; prev; hash] =>
      match atoi a, atoi b with
      | Some n, Some t => Ok (mkEntry n t actor action data prev hash)
      | _, _ => Err (Errorf (msg0 "bad number"))
      end
  | _ => Err (Errorf (msg0 "bad line"))
  end.

(** Stands for SHA-256: some function of all the fields but [Hash]. *)
Definition digest (e : Entry) : string :=
  join "/" [itoa (Seq e); itoa (Time e); Actor e; Action e; Data e; EPrev e].

Lemma codec : codec_ok encode decode.
Proof.
  intros e line. unfold encode.
  set (l := [itoa (Seq e); itoa (Time e); Actor e; Action e; Data e; EPrev e; Hash e]).
  destruct (_ && _) eqn:Hp; [|done]. intros Hok.
  assert (line = join "|" l) as -> by congruence. clear Hok.
  apply andb_true_iff in Hp as [Hn Hp]. bools.
  assert (Hd : forall z, (0 <= z)%Z -> plain (itoa z) = true).
  { intros z Hz. unfold plain. apply (str_all_impl is_digit); [|by apply itoa_digits].
    intros [[] [] [] [] [] [] [] []]; vm_compute; done. }
  cbn in Hp. bools.
  assert (Hl : Forall (fun s => plain s = true) l) by (repeat constructor; auto).
  assert (Hb : Forall (fun s => contains_byte "|" s = false) l).
  { eapply Forall_impl; [exact Hl|]. intros s Hs.
    by apply (str_all_not_contains _ "|" s Hs). }
  assert (Hg : str_all is_graph (join "|" l) = true).
  { apply str_all_join; [done|]. eapply Forall_impl; [exact Hl|]. intros s Hs.
    apply (str_all_impl _ is_graph s) in Hs; [done|]. intros c Hc. by bools. }
  pose proof (split_on_of_join "|" l ltac:(done) Hb) as Hs.
  split; [|split; [|split]].
  - unfold decode. rewrite Hs. cbn. rewrite !atoi_itoa by done. by destruct e.
  - intros E. rewrite E in Hs. discriminate.
  - by apply (str_all_not_contains is_graph newline _ Hg).
  - by apply drop_cr_graph.
Qed.

(** Two entries, recorded one after the other. *)
Definition log0 : Log := Eval vm_compute in
  (Record_ digest encode (fun x : string => Ok x) New 1500 "ada" "approve" (Some "x") Written).2.
Definition log1 : Log := Eval vm_compute in
  (Record_ digest encode (fun x : string => Ok x) log0 2500 "bob" "commit" None Written).2.

(** The second one again, after a write that stopped at its third byte. *)
Definition disk_full : goerr := Errorf (msg0 "no space left on device").
Definition torn1 : Log := Eval vm_compute in
  (Record_ digest encode (fun x : string => Ok x) log0 2500 "bob" "commit" None (WriteFailed 3 disk_full)).2.
Definition torn2 : Log := Eval vm_compute in
  (Record_ digest encode (fun x : string => Ok x) torn1 3500 "bob" "commit" None Written).2.
End Bars.

Lemma recorded_log_verifies_witness :
  OpenFile Bars.digest Bars.decode (contents Bars.log1) None = Ok Bars.log1.
Proof.
  apply (recorded_log_verifies Bars.digest Bars.encode Bars.decode (fun x : string => Ok x) Bars.log1).
  - exact Bars.codec.
  - apply (star_snoc _ _ Bars.log0); [apply (star_snoc _ _ New); [apply star_refl|]|].
    + eapply (step_record _ _ _ _ 1500%Z "ada" "approve" (Some "x")). vm_compute. reflexivity.
    + eapply (step_record _ _ _ _ 2500%Z "bob" "commit" None). vm_compute. reflexivity.
Defined.

Lemma Verify_tamper_evident_witness :
  entries_of Bars.decode (scan_lines (contents Bars.log1)) =
  entries_of Bars.decode (scan_lines ("" +++ String newline (contents Bars.log1))) \/
  digest_broken Bars.digest.
Proof.
  eapply Verify_tamper_evident; vm_compute; reflexivity.
Defined.

Lemma short_write_corrupts_witness :
  exists e, OpenFile Bars.digest Bars.decode (contents Bars.torn2) None = Err e /\
    errors_is e ErrTampered = true.
Proof.
  eapply (short_write_corrupts Bars.digest Bars.encode Bars.decode (fun x : string => Ok x) Bars.log0
    Bars.torn1 Bars.torn2 2500 3500 3 "bob" "commit" "bob" "commit" None None Bars.disk_full);
    [|vm_compute; reflexivity..|vm_compute; discriminate|vm_compute; reflexivity].
  apply (log_step_ok Bars.digest Bars.encode Bars.decode (fun x : string => Ok x) New);
    [exact Bars.codec|apply New_ok|].
  eapply (step_record _ _ _ _ 1500%Z "ada" "approve" (Some "x")). vm_compute. reflexivity.
Defined.
