(* ===== verification/Policy.v ===== *)
(** The authorization decision of every action: [src/pkg/policy/policy.go]. *)

From S2P Require Import Turgon Prelude GoStr GoErr.
From Stdlib Require Import String.

(** Risk tiers ([src/apis/v1alpha1/meta.go]). *)
Definition RiskRead : string := "read".
Definition RiskLow : string := "low".
Definition RiskHigh : string := "high".

Definition ApprovalApproved : string := "approved".
Definition ApprovalRejected : string := "rejected".

Record Tool := mkTool { ToolName : string; Risk : string }.

Record Subject := mkSubject {
  SubjID : string;
  Roles : list string;
  Agent : bool;
  OnBehalfOf : string
}.

(** [Subject.HasRole]. *)
Fixpoint has_role (roles : list string) (role : string) : bool :=
  match roles with
  | [] => false
  | r :: roles => if String.eqb r role then true else has_role roles role
  end.
Definition HasRole (s : Subject) (role : string) : bool := has_role (Roles s) role.

Record PAction := mkAction { ActEntity : string; Amount : float64 }.
Record Approval := mkApproval { ApStatus : string; ApBy : string; ApNote : string }.

Record Input := mkInput {
  InRecipe : string;
  InTool : Tool;
  InSubject : Subject;
  InAction : PAction;
  InApproval : Approval
}.

Record Decision := mkDecision {
  Allow : bool;
  RequireApproval : bool;
  Denied : bool;
  Reasons : list string
}.

Definition noApproval : Approval := mkApproval "" "" "".
Definition RoleOperator : string := "integration-operator".
Definition RoleReader : string := "integration-reader".

(** Field updates, in the order [Decide] makes them. *)
Definition allow_if (b : bool) (d : Decision) : Decision :=
  mkDecision b (RequireApproval d) (Denied d) (Reasons d).
Definition require_approval (why : string) (d : Decision) : Decision :=
  mkDecision (Allow d) true (Denied d) (Reasons d ++ [why]).
Definition deny (why : string) (d : Decision) : Decision :=
  mkDecision false (RequireApproval d) true (Reasons d ++ [why]).
Definition add_reason (why : string) (d : Decision) : Decision :=
  mkDecision (Allow d) (RequireApproval d) (Denied d) (Reasons d ++ [why]).

(** The default amount threshold, when none is configured. *)
Definition threshold_of (t : float64) : float64 :=
  if PrimFloat.eqb t PrimFloat.zero then 50000%float else t.

Definition by_risk (i : Input) : Decision :=
  let d := mkDecision false false false [] in
  let risk := Risk (InTool i) in
  if String.eqb risk RiskRead then
    allow_if (HasRole (InSubject i) RoleOperator || HasRole (InSubject i) RoleReader) d
  else if String.eqb risk RiskLow then allow_if (HasRole (InSubject i) RoleOperator) d
  else if String.eqb risk RiskHigh then
    require_approval "high-risk tool" (allow_if (String.eqb (ApStatus (InApproval i)) ApprovalApproved) d)
  else add_reason ("unknown risk tier " +++ risk) d.

(** [WritebackDefault.Decide]; it never returns an error. *)
Definition Decide (AmountThreshold : float64) (i : Input) : Decision :=
  let risk := Risk (InTool i) in
  let d := by_risk i in
  let d := if PrimFloat.ltb (threshold_of AmountThreshold) (Amount (InAction i))
           then require_approval "amount above approval threshold" d else d in
  let d := if Agent (InSubject i) && (String.eqb risk RiskLow || String.eqb risk RiskHigh)
              && negb (HasRole (InSubject i) RoleOperator)
           then deny "agents need the integration-operator role to write" d else d in
  if String.eqb (ApStatus (InApproval i)) ApprovalRejected
  then deny "approval rejected" d else d.

Lemma HasRole_in s r : HasRole s r = true <-> r ∈ Roles s.
Proof.
  unfold HasRole. induction (Roles s) as [|x l IH]; cbn.
  - split; [done|]. intros H. by apply elem_of_nil in H.
  - destruct (String.eqb_spec x r) as [->|N]; [split; [by left|done]|].
    rewrite IH, elem_of_cons. split; [by right|]. by intros [->|].
Qed.

(** * Properties *)

(** C32: The default policy is deny-by-default. Whatever it allows has a known risk
    tier and was not rejected; a high-risk action is allowed only once approved and
    a low-risk write or a read only to a subject with the role it needs; an agent
    writes only with the operator role; and a denial is never also an allowance. *)
Theorem Decide_deny_by_default (t : float64) (i : Input) :
  Allow (Decide t i) = true ->
  let risk := Risk (InTool i) in let s := InSubject i in
  Denied (Decide t i) = false /\
  ApStatus (InApproval i) <> ApprovalRejected /\
  (risk = RiskRead /\ (RoleOperator ∈ Roles s \/ RoleReader ∈ Roles s) \/
   risk = RiskLow /\ RoleOperator ∈ Roles s \/
   risk = RiskHigh /\ ApStatus (InApproval i) = ApprovalApproved /\
     RequireApproval (Decide t i) = true) /\
  (Agent s = true -> risk <> RiskRead -> RoleOperator ∈ Roles s).
Proof.
  cbv zeta. unfold Decide.
  destruct (String.eqb_spec (ApStatus (InApproval i)) ApprovalRejected) as [|Hrej]; [done|].
  destruct (Agent (InSubject i) && _ && _) eqn:Ha; [done|].
  intros Hall.
  assert (Hb : Allow (by_risk i) = true /\ Denied (by_risk i) = false)
    by (unfold by_risk in *; repeat case_match; auto).
  destruct Hb as [Hb Hd].
  split; [by case_match|]. split; [done|].
  assert (Hag : Agent (InSubject i) = true ->
    Risk (InTool i) = RiskLow \/ Risk (InTool i) = RiskHigh -> RoleOperator ∈ Roles (InSubject i)).
  { intros Hagent Hr. rewrite Hagent in Ha. cbn in Ha. apply HasRole_in.
    destruct (HasRole (InSubject i) RoleOperator); [done|].
    by destruct Hr as [Hr|Hr]; rewrite Hr in Ha. }
  unfold by_risk in Hb, Hall |- *.
  destruct (String.eqb_spec (Risk (InTool i)) RiskRead) as [Hr|N1].
  { cbn in Hb. apply orb_true_iff in Hb. rewrite !HasRole_in in Hb. split; [by left|done]. }
  destruct (String.eqb_spec (Risk (InTool i)) RiskLow) as [Hr|N2].
  { cbn in Hb. apply HasRole_in in Hb. split; [by right; left|auto]. }
  destruct (String.eqb_spec (Risk (InTool i)) RiskHigh) as [Hr|N3]; [|by cbn in Hb].
  cbn in Hb. apply String.eqb_eq in Hb. split; [|auto].
  do 2 right. split; [done|]. split; [done|]. by case_match.
Qed.

(** Approval can be required but never grants what the tier does not: an
    amount above the threshold always asks for approval, and the decision on an
    unknown tier is a refusal that names it. *)
Theorem Decide_threshold_and_unknown (t : float64) (i : Input) :
  (PrimFloat.ltb (threshold_of t) (Amount (InAction i)) = true -> RequireApproval (Decide t i) = true) /\
  (Risk (InTool i) ∉ [RiskRead; RiskLow; RiskHigh] ->
     Allow (Decide t i) = false /\ "unknown risk tier " +++ Risk (InTool i) ∈ Reasons (Decide t i)).
Proof.
  unfold Decide. split.
  - intros ->. by repeat case_match.
  - intros Hu.
    assert (Hb : by_risk i = mkDecision false false false ["unknown risk tier " +++ Risk (InTool i)]).
    { unfold by_risk. repeat case_match; bools; try done; set_solver. }
    rewrite Hb. split; repeat case_match; cbn; try done; set_solver.
Qed.

(** * Witnesses *)

Definition sample_input (risk status : string) (amount : float64) : Input :=
  mkInput "orders" (mkTool "create_order" risk) (mkSubject "ada" [RoleOperator] true "bob")
    (mkAction "SalesOrder" amount) (mkApproval status "eve" "").

Lemma Decide_deny_by_default_witness :
  RequireApproval (Decide 0 (sample_input RiskHigh ApprovalApproved 12)) = true.
Proof.
  destruct (Decide_deny_by_default 0 (sample_input RiskHigh ApprovalApproved 12))
    as (_ & _ & [[H _]|[[H _]|(_ & _ & H)]] & _); [vm_compute; reflexivity|discriminate H..|exact H].
Defined.
