(* ===== verification/Governor.v ===== *)
(** The per-target rate governor and circuit breaker:
    [src/pkg/writeguard/governor.go].

    Both are objects behind a mutex: each method is one atomic step here. Token
    arithmetic is Go's float64; it is written against the class [FloatOps], with
    the IEEE instance the code executes ([ieee]) and an exact rational one
    ([exact]) in which the rate bound is stated without rounding noise. Times and
    durations are int64 nanoseconds. *)

From S2P Require Import Turgon Prelude GoStr GoErr GoTime.
From Stdlib Require Import String QArith Qround Lqa Uint63.
Close Scope Q_scope.

Definition ErrCircuitOpen : string := "circuit open: target is failing, writes paused".

(** ** Floating-point operations *)

Class FloatOps (F : Type) := {
  f_of_Z : Z -> F;
  f_add : F -> F -> F;
  f_sub : F -> F -> F;
  f_mul : F -> F -> F;
  f_div : F -> F -> F;
  f_ltb : F -> F -> bool;
  f_leb : F -> F -> bool;
  f_trunc : F -> Z
}.

#[export] Instance ieee : FloatOps float64 := {
  f_of_Z := float_of_Z;
  f_add := PrimFloat.add;
  f_sub := PrimFloat.sub;
  f_mul := PrimFloat.mul;
  f_div := PrimFloat.div;
  f_ltb := PrimFloat.ltb;
  f_leb := PrimFloat.leb;
  f_trunc := float_trunc
}.

Definition Qltb (x y : Q) : bool := negb (Qle_bool y x).

#[export] Instance exact : FloatOps Q := {
  f_of_Z := inject_Z;
  f_add := Qplus;
  f_sub := Qminus;
  f_mul := Qmult;
  f_div := Qdiv;
  f_ltb := Qltb;
  f_leb := Qle_bool;
  f_trunc q := Z.quot (Qnum q) (Zpos (Qden q))
}.

(** ** The governor *)

Section Governor.
Context {F : Type} `{FloatOps F}.

Definition one : F := f_of_Z 1.
Definition second : F := f_of_Z 1000000000.

(** [slots] is how many values the channel [sem] of capacity [cap] holds. *)
Record governor := mkGovernor {
  rate : F;
  burst : F;
  tokens : F;
  last_take : Z;
  slots : Z;
  cap : Z
}.

Definition newGovernor (rps : F) (concurrency : Z) (now : Z) : governor :=
  let concurrency := if (concurrency <? 1)%Z then 1%Z else concurrency in
  let b := if f_ltb rps one then one else rps in
  mkGovernor rps b b now 0 concurrency.

(** [Duration.Seconds]: whole seconds plus the fraction. *)
Definition Seconds (d : Z) : F :=
  f_add (f_of_Z (Z.quot d 1000000000)) (f_div (f_of_Z (Z.rem d 1000000000)) second).

(** [now.Sub(last)] saturates at the ends of int64. *)
Definition time_sub (t u : Z) : Z := Z.max int_min (Z.min int_max (t - u)).

Definition set_tokens (g : governor) (x : F) (now : Z) : governor :=
  mkGovernor (rate g) (burst g) x now (slots g) (cap g).

Definition set_slots (g : governor) (n : Z) : governor :=
  mkGovernor (rate g) (burst g) (tokens g) (last_take g) n (cap g).

(** The tokens [take] finds at [now]. *)
Definition refill (g : governor) (now : Z) : F :=
  let t := f_add (tokens g) (f_mul (Seconds (time_sub now (last_take g))) (rate g)) in
  if f_ltb (burst g) t then burst g else t.

Definition take (now : Z) (g : governor) : Z * governor :=
  let t := refill g now in
  if f_leb one t then (0%Z, set_tokens g (f_sub t one) now)
  else (f_trunc (f_mul (f_div (f_sub one t) (rate g)) second), set_tokens g t now).

(** The [for] loop of [acquire] once a slot is held: one [take] at [now], then one
    per time its timer fires; the script ends when the context is done. *)
Fixpoint take_loop (now : Z) (fired : list Z) (g : governor) : bool * governor :=
  let (wait, g) := take now g in
  if (wait =? 0)%Z then (true, g)
  else match fired with
       | [] => (false, g)
       | t :: fired => take_loop t fired g
       end.

(** [release]: one value leaves the channel. *)
Definition release (g : governor) : governor := set_slots g (slots g - 1).

(** What happens to a call of [acquire]: the context ends before a slot is free, or
    a slot is taken at a time, then timers fire, until the script ends with the
    context. A slot is never taken when the channel is full. *)
Inductive acquire_script :=
| NoSlot
| Slot (now : Z) (fired : list Z).

Definition acquire (s : acquire_script) (g : governor) : bool * governor :=
  match s with
  | NoSlot => (false, g)
  | Slot now fired =>
      if (slots g <? cap g)%Z then
        match take_loop now fired (set_slots g (slots g + 1)) with
        | (true, g) => (true, g)
        | (false, g) => (false, release g)
        end
      else (false, g)
  end.
End Governor.
Arguments governor _ : clear implicits.

(** ** The circuit breaker *)

Record breaker := mkBreaker {
  brk_Failures : Z;
  brk_Cooldown : Z;
  failures : Z;
  openedAt : Z;
  open : bool;
  trial : bool
}.

(** [newBreaker]: the defaults are five failures and thirty seconds. *)
Definition newBreaker (Failures Cooldown : Z) : breaker :=
  mkBreaker (if Failures <=? 0 then 5 else Failures)%Z
            (if Cooldown <=? 0 then 30000000000 else Cooldown)%Z 0 0 false false.

(** [allow] at [now]: [true] lets the request through, [false] is [ErrCircuitOpen]. *)
Definition allow (now : Z) (b : breaker) : bool * breaker :=
  if negb (open b) then (true, b)
  else if negb (trial b) && (brk_Cooldown b <=? time_sub now (openedAt b))%Z then
    (true, mkBreaker (brk_Failures b) (brk_Cooldown b) (failures b) (openedAt b) (open b) true)
  else (false, b).

Definition isOpen (b : breaker) : bool := open b.

Definition success (b : breaker) : breaker :=
  mkBreaker (brk_Failures b) (brk_Cooldown b) 0 (openedAt b) false false.

Definition failure (now : Z) (b : breaker) : breaker :=
  let n := wrap (failures b + 1) in
  if trial b || (brk_Failures b <=? n)%Z then
    mkBreaker (brk_Failures b) (brk_Cooldown b) n now true false
  else mkBreaker (brk_Failures b) (brk_Cooldown b) n (openedAt b) (open b) (trial b).

(** One call of a method, and the answer [allow] gives. *)
Inductive brk_event :=
| BAllow (now : Z)
| BSuccess
| BFailure (now : Z).

Definition brk_step (b : breaker) (e : brk_event) : option bool * breaker :=
  match e with
  | BAllow now => let (ok, b) := allow now b in (Some ok, b)
  | BSuccess => (None, success b)
  | BFailure now => (None, failure now b)
  end.

Fixpoint brk_run (b : breaker) (es : list brk_event) : list bool * breaker :=
  match es with
  | [] => ([], b)
  | e :: es =>
      let (a, b) := brk_step b e in
      let (l, b) := brk_run b es in
      (match a with Some ok => ok :: l | None => l end, b)
  end.

(** *** The automaton the comments describe *)

Inductive circuit :=
| Closed (consecutive : Z)
| Open (since : Z)
| HalfOpen (since : Z).

Section Circuit.
Variables (Failures Cooldown : Z).

Definition circuit_step (c : circuit) (e : brk_event) : option bool * circuit :=
  match c, e with
  | Closed _, BAllow _ => (Some true, c)
  | Open t, BAllow now =>
      if (Cooldown <=? time_sub now t)%Z then (Some true, HalfOpen t) else (Some false, c)
  | HalfOpen _, BAllow _ => (Some false, c)
  | _, BSuccess => (None, Closed 0)
  | Closed n, BFailure now =>
      if (Failures <=? n + 1)%Z then (None, Open now) else (None, Closed (n + 1))
  | _, BFailure now => (None, Open now)
  end.

Fixpoint circuit_run (c : circuit) (es : list brk_event) : list bool * circuit :=
  match es with
  | [] => ([], c)
  | e :: es =>
      let (a, c) := circuit_step c e in
      let (l, c) := circuit_run c es in
      (match a with Some ok => ok :: l | None => l end, c)
  end.
End Circuit.

Definition circuit_of (b : breaker) : circuit :=
  if open b then if trial b then HalfOpen (openedAt b) else Open (openedAt b)
  else Closed (failures b).

(** What every reachable breaker satisfies: a trial only while open, and an open
    circuit has counted enough failures. [k] bounds the failures so far. *)
Definition brk_ok (k : Z) (b : breaker) : Prop :=
  (0 < brk_Failures b)%Z /\ (0 < brk_Cooldown b)%Z /\ (0 <= failures b <= k)%Z /\
  (trial b = true -> open b = true) /\
  (open b = true -> brk_Failures b <= failures b)%Z.

(** ** The breaker follows the automaton *)

Lemma newBreaker_ok F c : brk_ok 0 (newBreaker F c).
Proof. unfold brk_ok, newBreaker. cbn. repeat case_match; bools; repeat split; try done; lia. Qed.

Lemma brk_step_ok k b e a b' :
  brk_ok k b -> (k < int_max)%Z -> brk_step b e = (a, b') ->
  brk_ok (k + 1) b' /\ brk_Failures b' = brk_Failures b /\ brk_Cooldown b' = brk_Cooldown b /\
  circuit_step (brk_Failures b) (brk_Cooldown b) (circuit_of b) e = (a, circuit_of b').
Proof.
  destruct b as [F c n t op tr]. unfold brk_ok, brk_step, allow, success, failure, circuit_of. cbn.
  intros (HF & Hc & Hn & Ht & Ho) Hk.
  destruct e as [now| |now].
  - destruct op, tr; cbn; try (specialize (Ht eq_refl); discriminate);
      try destruct (c <=? _)%Z; intros [= <- <-]; cbn; repeat split; auto; lia.
  - intros [= <- <-]. cbn. repeat split; try done; try lia. by destruct op, tr.
  - rewrite wrap_small by (unfold int_min, int_max in *; lia).
    destruct op, tr; cbn; try (specialize (Ht eq_refl); discriminate).
    + intros [= <- <-]. cbn. specialize (Ho eq_refl). repeat split; try done; lia.
    + specialize (Ho eq_refl). destruct (Z.leb_spec F (n + 1)); [|lia].
      intros [= <- <-]. cbn. repeat split; try done; lia.
    + destruct (Z.leb_spec F (n + 1)); intros [= <- <-]; cbn; repeat split; try done; lia.
Qed.

Lemma brk_run_ok es k b :
  brk_ok k b -> (k + Z.of_nat (List.length es) <= int_max)%Z ->
  brk_ok (k + Z.of_nat (List.length es)) (snd (brk_run b es)) /\
  circuit_run (brk_Failures b) (brk_Cooldown b) (circuit_of b) es =
    (fst (brk_run b es), circuit_of (snd (brk_run b es))).
Proof.
  revert k b. induction es as [|e es IH]; intros k b Hb Hk; cbn [List.length brk_run circuit_run] in *.
  { rewrite Z.add_0_r. done. }
  destruct (brk_step b e) as [a b1] eqn:E.
  apply (brk_step_ok k) in E as (Hb1 & EF & Ec & ->); [|done|lia].
  destruct (IH (k + 1)%Z b1 Hb1) as [Hok Hrun]; [lia|].
  rewrite EF, Ec in Hrun. rewrite Hrun.
  destruct (brk_run b1 es) as [l b2]. cbn in *. split; [|done].
  by replace (k + Z.of_nat (S (List.length es)))%Z with (k + 1 + Z.of_nat (List.length es))%Z by lia.
Qed.

(** A pending trial refuses everyone, whatever the clock says. *)
Lemma trial_refuses now b : open b = true -> trial b = true -> allow now b = (false, b).
Proof. intros Ho Ht. unfold allow. by rewrite Ho, Ht. Qed.

Lemma allow_closed now b : open b = false -> allow now b = (true, b).
Proof. intros Ho. unfold allow. by rewrite Ho. Qed.

(** [allow] never closes a circuit and keeps its settings. *)
Lemma allow_keeps now b ok b' :
  allow now b = (ok, b') -> open b' = open b /\ openedAt b' = openedAt b /\
  brk_Failures b' = brk_Failures b /\ brk_Cooldown b' = brk_Cooldown b /\ failures b' = failures b.
Proof. unfold allow. intros H. split_in H; auto. Qed.

Lemma brk_run_cfg es b :
  brk_Failures (snd (brk_run b es)) = brk_Failures b /\
  brk_Cooldown (snd (brk_run b es)) = brk_Cooldown b.
Proof.
  revert b. induction es as [|e es IH]; intros b; cbn [brk_run]; [done|].
  destruct (brk_step b e) as [a b'] eqn:E. specialize (IH b').
  assert (Hb : brk_Failures b' = brk_Failures b /\ brk_Cooldown b' = brk_Cooldown b).
  { destruct e as [now| |now]; cbn in E.
    - destruct (allow now b) as [ok b1] eqn:Ea. injection E as _ <-.
      apply allow_keeps in Ea. tauto.
    - by injection E as _ <-.
    - injection E as _ <-. unfold failure. by case_match. }
  destruct (brk_run b' es). cbn in *. destruct Hb, IH. by split; etransitivity.
Qed.

Lemma allows_pending ts b :
  open b = true -> trial b = true -> brk_run b (map BAllow ts) = (map (fun _ => false) ts, b).
Proof.
  intros Ho Ht. induction ts as [|t ts IH]; cbn; [done|].
  rewrite trial_refuses by done. by rewrite IH.
Qed.

Definition count_true (l : list bool) : nat := List.length (List.filter (fun b => b) l).

Lemma count_true_none {A} (l : list A) : count_true (map (fun _ => false) l) = 0.
Proof. induction l; done. Qed.

Lemma open_single_trial ts b :
  open b = true ->
  count_true (fst (brk_run b (map BAllow ts))) <= 1 /\
  (Forall (fun t => time_sub t (openedAt b) < brk_Cooldown b)%Z ts ->
   count_true (fst (brk_run b (map BAllow ts))) = 0).
Proof.
  revert b. induction ts as [|t ts IH]; intros b Ho; cbn [map brk_run brk_step]; [by cbn; lia|].
  destruct (allow t b) as [ok b'] eqn:E. pose proof (allow_keeps _ _ _ _ E) as (Ho' & Ha & _ & Hc & _).
  destruct ok.
  - assert (open b' = true /\ trial b' = true /\ (brk_Cooldown b <= time_sub t (openedAt b))%Z) as (H1 & H2 & H3).
    { unfold allow in E. rewrite Ho in E. cbn in E. case_match; [|done].
      injection E as <-. bools. done. }
    rewrite (allows_pending ts b') by done. cbn.
    change (List.length (List.filter (fun b => b) (map (fun _ => false) ts)))
      with (count_true (map (fun _ : Z => false) ts)).
    rewrite count_true_none. split; [lia|]. intros HF. inversion HF; subst. lia.
  - rewrite Ho in Ho'. specialize (IH b' Ho'). rewrite Ha, Hc in IH.
    destruct (brk_run b' (map BAllow ts)) as [l b2]. cbn in *.
    split; [apply IH|]. intros HF. inversion HF; subst. by apply IH.
Qed.

(** Failures in a row, with requests asking in between. *)
Inductive no_success : list brk_event -> nat -> Prop :=
| ns_nil : no_success [] 0
| ns_allow t es n : no_success es n -> no_success (BAllow t :: es) n
| ns_failure t es n : no_success es n -> no_success (BFailure t :: es) (S n).

Lemma failures_open es n k b :
  brk_ok k b -> (k + Z.of_nat (List.length es) <= int_max)%Z -> no_success es n ->
  (brk_Failures b <= failures b + Z.of_nat n)%Z -> open b = true \/ (0 < n)%nat ->
  open (snd (brk_run b es)) = true.
Proof.
  intros Hb Hk Hn. revert k b Hb Hk.
  induction Hn as [|t es n Hn IH|t es n Hn IH]; intros k b Hb Hk Hf Ho; cbn [brk_run].
  - destruct Ho as [|?]; [done|lia].
  - cbn [brk_step]. destruct (allow t b) as [ok b'] eqn:E.
    pose proof (allow_keeps _ _ _ _ E) as (Ho' & _ & HF & _ & Hfl).
    apply (brk_step_ok k b (BAllow t) (Some ok) b') in Hb as (Hb & _); [|cbn in Hk; lia|cbn; by rewrite E].
    specialize (IH (k + 1)%Z b' Hb). destruct (brk_run b' es). cbn in *. apply IH; [lia|lia|].
    by rewrite Ho'.
  - destruct (brk_step b (BFailure t)) as [a b'] eqn:E. pose proof Hb as Hb0.
    destruct (brk_step_ok k b _ a b' Hb ltac:(cbn in Hk; lia) E) as (Hb1 & HF & _).
    clear Hb; rename Hb1 into Hb. cbn in E. injection E as <- <-.
    specialize (IH (k + 1)%Z (failure t b) Hb). destruct (brk_run (failure t b) es). cbn in *.
    assert (failures (failure t b) = failures b + 1)%Z as Hfl.
    { unfold failure. destruct Hb0 as (_ & _ & Hr & _). rewrite wrap_small by (unfold int_min; lia).
      by case_match. }
    apply IH; [lia|lia|].
    destruct n; [|right; lia]. left. unfold failure in *.
    destruct Hb0 as (_ & _ & Hr & _). rewrite wrap_small in * by (unfold int_min; lia).
    destruct (trial b); [done|]. cbn. destruct (Z.leb_spec (brk_Failures b) (failures b + 1)); [done|lia].
Qed.

(** ** The governor in exact arithmetic *)

Section Exact.
Open Scope Q_scope.

Definition gov_ok (g : governor Q) : Prop :=
  0 < rate g /\ 1 <= burst g /\ 0 <= tokens g <= burst g.

Lemma Seconds_exact (d : Z) : Seconds (F:=Q) d == inject_Z d / inject_Z 1000000000.
Proof.
  unfold Seconds, second. cbn [f_of_Z f_add f_div exact].
  pose proof (Z.quot_rem' d 1000000000) as E.
  rewrite E at 3. rewrite inject_Z_plus, inject_Z_mult. field.
Qed.

Lemma Qltb_lt x y : Qltb x y = true <-> x < y.
Proof.
  unfold Qltb. rewrite negb_true_iff. split.
  - intros E. apply Qnot_le_lt. intros Hle. apply Qle_bool_iff in Hle. congruence.
  - intros Hlt. destruct (Qle_bool y x) eqn:E; [|done]. apply Qle_bool_iff in E. lra.
Qed.

Lemma Qltb_ge x y : Qltb x y = false <-> y <= x.
Proof.
  unfold Qltb. rewrite negb_false_iff. apply Qle_bool_iff.
Qed.

(** What [refill] finds: more by the elapsed time, capped at the burst. *)
Lemma refill_bounds (g : governor Q) (now : Z) :
  gov_ok g -> (last_take g <= now)%Z ->
  tokens g <= refill g now <= burst g /\
  refill g now <= tokens g + inject_Z (now - last_take g) / inject_Z 1000000000 * rate g.
Proof.
  intros (Hr & Hb & Ht) Hle. unfold refill.
  cbn [f_ltb f_add f_mul exact].
  assert (HS : 0 <= Seconds (F:=Q) (time_sub now (last_take g)) <=
               inject_Z (now - last_take g) / inject_Z 1000000000).
  { rewrite Seconds_exact. unfold time_sub.
    set (d := (now - last_take g)%Z) in *.
    assert (0 <= Z.max int_min (Z.min int_max d) <= d)%Z as [H0 H1] by (unfold int_min, int_max; lia).
    rewrite Zle_Qle in H0, H1. change (inject_Z 0) with 0 in H0.
    unfold Qdiv. split.
    - apply Qmult_le_0_compat; [exact H0|]. discriminate.
    - apply Qmult_le_compat_r; [exact H1|]. discriminate. }
  set (S := Seconds (F:=Q) (time_sub now (last_take g))) in *.
  set (E := inject_Z (now - last_take g) / inject_Z 1000000000) in *.
  assert (0 <= S * rate g) by (apply Qmult_le_0_compat; lra).
  assert (S * rate g <= E * rate g) by (apply Qmult_le_compat_r; lra).
  case_match eqn:C.
  - apply Qltb_lt in C. lra.
  - apply Qltb_ge in C. lra.
Qed.

(** A [take] that consumes a token, or one that finds less than a token. *)
Lemma take_cases (g : governor Q) (now : Z) w g' :
  take now g = (w, g') ->
  (1 <= refill g now /\ w = 0%Z /\ g' = set_tokens g (refill g now - 1) now) \/
  (refill g now < 1 /\ g' = set_tokens g (refill g now) now /\
   w = f_trunc ((1 - refill g now) / rate g * inject_Z 1000000000)).
Proof.
  unfold take. cbn [f_leb exact one f_of_Z].
  destruct (Qle_bool (inject_Z 1) (refill g now)) eqn:E; intros [= <- <-].
  - left. apply Qle_bool_iff in E. done.
  - right. split; [|done]. apply Qnot_le_lt. intros Hle.
    change 1 with (inject_Z 1) in Hle. apply Qle_bool_iff in Hle. congruence.
Qed.

Lemma take_ok (g : governor Q) (now : Z) w g' :
  gov_ok g -> (last_take g <= now)%Z -> take now g = (w, g') -> gov_ok g' /\ last_take g' = now.
Proof.
  intros Hg Hle Htk. pose proof (refill_bounds g now Hg Hle) as [Hr _].
  destruct Hg as (H0 & H1 & H2).
  apply take_cases in Htk as [(Hq & -> & ->)|(Hq & -> & _)]; cbn; unfold gov_ok; cbn; (split; [|done]); lra.
Qed.

Lemma Qtrunc_nonneg (q : Q) : 0 <= q -> 0 <= inject_Z (f_trunc q) <= q /\ q < inject_Z (f_trunc q + 1).
Proof.
  intros Hq. cbn [f_trunc exact]. destruct q as [n d]. cbn [Qnum Qden] in *.
  unfold Qle in Hq. cbn in Hq. rewrite Z.mul_1_r in Hq.
  rewrite Z.quot_div_nonneg by lia.
  pose proof (Z.div_mod n (Z.pos d)) as E. pose proof (Z.mod_pos_bound n (Z.pos d)) as B.
  specialize (E ltac:(lia)). specialize (B ltac:(lia)).
  assert (0 <= n / Z.pos d)%Z by (apply Z.div_pos; lia).
  unfold Qle, Qlt, inject_Z. cbn [Qnum Qden]. repeat split; nia.
Qed.

(** Waiting as long as [take] says is enough when nobody else takes: the next
    [take] lets the caller through. *)
Lemma take_wait_enough (g : governor Q) (now : Z) w g' :
  gov_ok g -> (last_take g <= now)%Z -> take now g = (w, g') -> (w <= int_max)%Z ->
  (0 <= w)%Z /\ (w <> 0%Z -> fst (take (now + w) g') = 0%Z).
Proof.
  intros Hg Hle Htk Hw. pose proof (take_ok g now w g' Hg Hle Htk) as [Hg' Hl].
  apply take_cases in Htk as [(Hq & -> & ->)|(Hq & Eg & Ew)]; [done|].
  destruct Hg as (Hr & Hb & Ht).
  set (t := refill g now) in *.
  set (x := (1 - t) / rate g * inject_Z 1000000000) in *.
  assert (Hx : 0 <= x).
  { unfold x, Qdiv. repeat apply Qmult_le_0_compat; [lra| |discriminate].
    apply Qinv_le_0_compat. lra. }
  pose proof (Qtrunc_nonneg x Hx) as [[H1 H2] H3]. rewrite <- Ew in H1, H2, H3.
  assert (H0w : (0 <= w)%Z) by (rewrite Zle_Qle; exact H1).
  split; [done|intros _].
  set (t' := t + inject_Z w / inject_Z 1000000000 * rate g).
  assert (Hx' : (1 - t') / rate g * inject_Z 1000000000 == x - inject_Z w).
  { unfold t', x. field. lra. }
  assert (Hle1 : t' <= 1).
  { destruct (Qlt_le_dec 1 t') as [Hgt|]; [exfalso|done].
    assert (Hk : 0 < / rate g) by (apply Qinv_lt_0_compat; lra).
    unfold Qdiv in Hx'. change (inject_Z 1000000000) with 1000000000 in Hx'. nra. }
  assert (Hrefill : refill g' (now + w) == t').
  { rewrite Eg. unfold refill. cbn [f_ltb f_add f_mul exact tokens rate burst last_take set_tokens].
    replace (time_sub (now + w) now) with w
      by (unfold time_sub; replace (now + w - now)%Z with w by lia; unfold int_min; lia).
    destruct (Qltb _ _) eqn:C.
    - apply Qltb_lt in C. rewrite Seconds_exact in C. fold t t' in C. lra.
    - rewrite Seconds_exact. done. }
  destruct (take (now + w) g') as [w2 g2] eqn:E2.
  apply take_cases in E2 as [(_ & -> & _)|(Hq2 & _ & Ew2)]; [done|].
  rewrite Eg in Ew2 at 2. cbn [rate set_tokens] in Ew2.
  set (y := (1 - refill g' (now + w)) / rate g * inject_Z 1000000000) in *.
  assert (Hy : y == x - inject_Z w) by (unfold y; rewrite Hrefill; exact Hx').
  pose proof (Qtrunc_nonneg y) as [[Y1 Y2] Y3]; [lra|]. rewrite <- Ew2 in Y1, Y2, Y3.
  cbn [fst].
  rewrite inject_Z_plus in H3. change (inject_Z 1) with 1 in H3.
  assert (inject_Z w2 < inject_Z 1) as Hlt by (change (inject_Z 1) with 1; lra).
  rewrite <- Zlt_Qlt in Hlt. change 0 with (inject_Z 0) in Y1. rewrite <- Zle_Qle in Y1. lia.
Qed.

(** *** Callers interleaved *)

(** The governor with how many callers hold a slot and still wait, how many run
    their request, and how many tokens were consumed. *)
Record gov_state := mkGovState {
  gov : governor Q;
  waiting : Z;
  running : Z;
  consumed : Z
}.

Inductive gov_step : gov_state -> gov_state -> Prop :=
| gs_enter g w r c :
    (slots g < cap g)%Z ->
    gov_step (mkGovState g w r c) (mkGovState (set_slots g (slots g + 1)) (w + 1) r c)
| gs_take g w r c now wait g' :
    (0 < w)%Z -> (last_take g <= now)%Z -> take now g = (wait, g') ->
    gov_step (mkGovState g w r c)
      (mkGovState g' (if (wait =? 0)%Z then w - 1 else w)%Z (if (wait =? 0)%Z then r + 1 else r)%Z
        (if Qle_bool 1 (refill g now) then c + 1 else c)%Z)
| gs_cancel g w r c :
    (0 < w)%Z -> gov_step (mkGovState g w r c) (mkGovState (release g) (w - 1) r c)
| gs_finish g w r c :
    (0 < r)%Z -> gov_step (mkGovState g w r c) (mkGovState (release g) w (r - 1) c).

Definition gov_inv (g0 : governor Q) (s : gov_state) : Prop :=
  let g := gov s in
  gov_ok g /\ rate g = rate g0 /\ burst g = burst g0 /\ cap g = cap g0 /\
  (0 <= waiting s)%Z /\ (0 <= running s)%Z /\ (0 <= consumed s)%Z /\
  (waiting s + running s = slots g)%Z /\ (slots g <= cap g)%Z /\
  (last_take g0 <= last_take g)%Z /\
  inject_Z (consumed s) + tokens g <=
    burst g0 + inject_Z (last_take g - last_take g0) / inject_Z 1000000000 * rate g0.

Lemma gov_step_inv g0 s s' : gov_inv g0 s -> gov_step s s' -> gov_inv g0 s'.
Proof.
  intros (Hok & Hr & Hb & Hc & H1 & H2 & H3 & H4 & H5 & H6 & H7) Hstep.
  destruct Hstep as [g w r c Hs|g w r c now wait g' Hw Hl Htk|g w r c Hw|g w r c Hw];
    cbn in *; try (unfold gov_inv; cbn; repeat split; try done; try lia; apply Hok).
  pose proof (take_ok g now wait g' Hok Hl Htk) as [Hok' Hl'].
  pose proof (refill_bounds g now Hok Hl) as [_ Hup].
  set (E := inject_Z (now - last_take g) / inject_Z 1000000000 * rate g) in *.
  assert (HE : inject_Z (now - last_take g0) / inject_Z 1000000000 * rate g0 ==
    inject_Z (last_take g - last_take g0) / inject_Z 1000000000 * rate g0 + E).
  { unfold E. rewrite <- Hr.
    replace (now - last_take g0)%Z with ((last_take g - last_take g0) + (now - last_take g))%Z by lia.
    rewrite inject_Z_plus. field. }
  assert (Hsame : rate g' = rate g /\ burst g' = burst g /\ cap g' = cap g /\ slots g' = slots g).
  { unfold take in Htk. repeat case_match; injection Htk as _ <-; done. }
  destruct Hsame as (S1 & S2 & S3 & S4).
  unfold gov_inv; cbn [gov waiting running consumed]. rewrite ?S1, ?S2, ?S3, ?S4, Hl', HE.
  assert (Hbud : inject_Z (if Qle_bool 1 (refill g now) then c + 1 else c)%Z + tokens g'
                 <= inject_Z c + refill g now).
  { apply take_cases in Htk as [(Hq & -> & ->)|(Hq & -> & _)]; cbn [tokens set_tokens].
    - apply Qle_bool_iff in Hq. rewrite Hq, inject_Z_plus. change (inject_Z 1) with 1. lra.
    - destruct (Qle_bool 1 (refill g now)) eqn:C; [apply Qle_bool_iff in C; lra|lra]. }
  split; [done|]. repeat split; try done; try lra; try (repeat case_match; lia).
Qed.
End Exact.

Lemma newGovernor_ok (rps : Q) (conc now : Z) : (0 < rps)%Q -> gov_ok (newGovernor rps conc now).
Proof.
  intros Hr. unfold gov_ok, newGovernor. cbn -[Qltb]. change (inject_Z 1) with 1%Q.
  destruct (Qltb rps 1) eqn:E; [apply Qltb_lt in E|apply Qltb_ge in E]; repeat split; lra.
Qed.

(** [take] leaves the channel alone. *)
Lemma take_slots {F} `{FloatOps F} now (g : governor F) w g' :
  take now g = (w, g') -> slots g' = slots g /\ cap g' = cap g.
Proof. unfold take. intros E. case_match; injection E as _ <-; done. Qed.

Lemma take_loop_slots {F} `{FloatOps F} fired now (g : governor F) ok g' :
  take_loop now fired g = (ok, g') -> slots g' = slots g /\ cap g' = cap g.
Proof.
  revert now g. induction fired as [|t fired IH]; intros now g; cbn [take_loop];
    destruct (take now g) as [w g1] eqn:E; apply take_slots in E as [<- <-];
    (destruct (w =? 0)%Z; [intros [= <- <-]; done|]).
  - intros [= <- <-]. done.
  - apply IH.
Qed.

(** * Properties *)

(** The breaker implements the automaton its comments describe (closed with a
    count of consecutive failures, open since a time, half-open with one trial
    pending): over any sequence of calls it gives the same answers and ends in the
    corresponding state. *)
Theorem breaker_refines_circuit (F cd : Z) (es : list brk_event) :
  (Z.of_nat (List.length es) <= int_max)%Z ->
  let b := newBreaker F cd in
  circuit_run (brk_Failures b) (brk_Cooldown b) (Closed 0) es =
    (fst (brk_run b es), circuit_of (snd (brk_run b es))).
Proof.
  intros Hl b. apply (brk_run_ok es 0 b); [apply newBreaker_ok|lia].
Qed.

(** A failing target is left alone. Whatever happened before, once as many
    failures as configured come in without a success, the circuit is open; from
    then on the requests that ask get through at most once, and not at all before
    the cooldown has passed. *)
Theorem breaker_protects_target (F cd : Z) (es es' : list brk_event) (n : nat) (asks : list Z) :
  (Z.of_nat (List.length es + List.length es') <= int_max)%Z ->
  no_success es' n -> (brk_Failures (newBreaker F cd) <= Z.of_nat n)%Z ->
  let b := snd (brk_run (snd (brk_run (newBreaker F cd) es)) es') in
  let answers := fst (brk_run b (map BAllow asks)) in
  open b = true /\ count_true answers <= 1 /\
  (Forall (fun t => time_sub t (openedAt b) < brk_Cooldown b)%Z asks -> count_true answers = 0).
Proof.
  intros Hl Hn HF b answers.
  destruct (brk_run_ok es 0 (newBreaker F cd)) as [Hok Hrun]; [apply newBreaker_ok|lia|].
  destruct (brk_run_cfg es (newBreaker F cd)) as [HFs _].
  assert (Ho : open b = true).
  { eapply failures_open; [exact Hok|lia|exact Hn| |].
    - rewrite HFs. destruct Hok as (_ & _ & ? & _). lia.
    - right. destruct (newBreaker_ok F cd) as (? & _). lia. }
  split; [done|]. by apply open_single_trial.
Qed.

(** The declared limits hold in exact arithmetic: however callers interleave,
    no more of them run or wait for a token than the concurrency limit allows, and
    the tokens consumed never exceed the burst plus the rate times the time
    elapsed. *)
Theorem governor_limits (rps : Q) (conc now : Z) (s : gov_state) :
  (0 < rps)%Q ->
  let g0 := newGovernor rps conc now in
  star gov_step (mkGovState g0 0 0 0) s ->
  (waiting s + running s <= Z.max 1 conc)%Z /\
  (inject_Z (consumed s) <=
     burst g0 + inject_Z (last_take (gov s) - now) / inject_Z 1000000000 * rps)%Q.
Proof.
  intros Hr g0 Hs.
  apply (star_invariant gov_step (gov_inv g0)) in Hs.
  - destruct Hs as ((_ & _ & Ht) & Er & _ & Ec & _ & _ & _ & H4 & H5 & _ & H7).
    split.
    + rewrite H4. etransitivity; [exact H5|]. rewrite Ec. cbn. destruct (Z.ltb_spec conc 1); lia.
    + change (last_take g0) with now in H7. change (rate g0) with rps in H7. lra.
  - intros x y. apply gov_step_inv.
  - pose proof (newGovernor_ok rps conc now Hr) as (H1 & H2 & H3).
    unfold gov_inv. cbn [gov waiting running consumed]. fold g0 in H1, H2, H3.
    repeat split; try done; try lra; try lia; try apply H3.
    + cbn. destruct (conc <? 1)%Z eqn:E; bools; lia.
    + cbn [last_take newGovernor]. rewrite Z.sub_diag. change (inject_Z 0) with 0%Q.
      assert (0 / inject_Z 1000000000 * rate g0 == 0)%Q as -> by (unfold Qdiv; ring).
      change (tokens g0) with (burst g0). lra.
Qed.

(** A caller alone waits at most once: in exact arithmetic, [acquire] with a
    free slot succeeds at the latest when the one timer it sets fires. *)
Theorem acquire_waits_once (g : governor Q) (now : Z) :
  gov_ok g -> (last_take g <= now)%Z -> (slots g < cap g)%Z -> (fst (take now g) <= int_max)%Z ->
  fst (acquire (Slot now [(now + fst (take now g))%Z]) g) = true.
Proof.
  intros Hok Hl Hs Hw. unfold acquire.
  destruct (Z.ltb_spec (slots g) (cap g)); [|lia].
  assert (Hsl : take now (set_slots g (slots g + 1)) =
    (fst (take now g), set_slots (snd (take now g)) (slots g + 1))).
  { unfold take, refill, set_slots, set_tokens. cbn -[Qltb Qle_bool Qplus]. by case_match. }
  cbn [take_loop]. rewrite Hsl. destruct (take now g) as [w g'] eqn:E. cbn [fst snd] in *.
  destruct (take_wait_enough g now w g' Hok Hl E Hw) as [H0 Hnext].
  destruct (Z.eqb_spec w 0) as [->|N]; [done|]. specialize (Hnext N).
  destruct (take (now + w) (set_slots g' (slots g + 1))) as [w2 g2] eqn:E2.
  assert (w2 = 0%Z) as ->; [|done].
  rewrite <- Hnext. unfold take, refill, set_slots in *. cbn -[Qltb Qle_bool Qplus] in *.
  case_match; injection E2 as <- _; done.
Qed.

(** A slot is held exactly while a request may run: [acquire] takes one when
    it succeeds, never beyond the channel's capacity, gives it back when the
    context ends first, and [release] undoes it. *)
Theorem acquire_balanced {F} `{FloatOps F} (s : acquire_script) (g : governor F) :
  let (ok, g') := acquire s g in
  slots g' = (if ok then slots g + 1 else slots g)%Z /\ cap g' = cap g /\
  (if ok then slots g < cap g /\ slots (release g') = slots g else True)%Z.
Proof.
  unfold acquire. destruct s as [|now fired]; [done|].
  destruct (Z.ltb_spec (slots g) (cap g)) as [Hlt|]; [|done].
  destruct (take_loop now fired _) as [ok g'] eqn:E. apply take_loop_slots in E as [E1 E2].
  cbn in E1, E2. destruct ok; cbn; rewrite E1; repeat split; auto; lia.
Qed.

(** The first [n] calls of [take] at one time. *)
Fixpoint takes {F} `{FloatOps F} (n : nat) (now : Z) (g : governor F) : list Z * governor F :=
  match n with
  | 0 => ([], g)
  | S n => let (w, g) := take now g in let (l, g) := takes n now g in (w :: l, g)
  end.

(** A target limited to three requests per second, its burst used up, after the
    wait it asked the fourth caller for. *)
Definition three_rps : governor float64 := newGovernor 3%float 10 0.
Definition used_up : governor float64 := snd (takes 4 0 three_rps).

(** The rate limit leaks. A wait shorter than a nanosecond is cut to zero, which
    [acquire] takes for a consumed token: after the wait the governor itself asked
    for, any number of requests pass at once without consuming anything. *)
Theorem governor_leaks (n : nat) :
  fst (takes 4 0 three_rps) = [0; 0; 0; 333333333]%Z /\
  fst (takes n 333333333 used_up) = repeat 0%Z n.
Proof.
  split; [by vm_compute|].
  destruct n as [|n]; [done|]. cbn [takes repeat].
  destruct (take 333333333 used_up) as [w g] eqn:E.
  assert (w = 0%Z) as -> by (assert (fst (take 333333333 used_up) = w) as <- by (by rewrite E); by vm_compute).
  assert (Hfix : take 333333333 g = (0%Z, g))
    by (assert (snd (take 333333333 used_up) = g) as <- by (by rewrite E); by vm_compute).
  assert (Hn : takes n 333333333 g = (repeat 0%Z n, g)).
  { induction n as [|n IH]; cbn [takes repeat]; [done|]. rewrite Hfix. by rewrite IH. }
  by rewrite Hn.
Qed.

(** * Witnesses *)

Definition flaky : list brk_event :=
  [BAllow 0; BFailure 1; BAllow 2; BFailure 3; BAllow 4; BFailure 5].

Definition two_rps : Q := 2.

Lemma breaker_refines_circuit_witness :
  snd (circuit_run 2 100 (Closed 0) (flaky ++ [BAllow 300; BAllow 301; BSuccess])) = Closed 0.
Proof.
  exact (f_equal snd (breaker_refines_circuit 2 100 (flaky ++ [BAllow 300; BAllow 301; BSuccess])
                        ltac:(vm_compute; discriminate))).
Defined.

Lemma breaker_protects_target_witness :
  count_true (fst (brk_run (snd (brk_run (newBreaker 2 100) flaky)) (map BAllow [50; 104; 106; 107]%Z))) <= 1.
Proof.
  apply (breaker_protects_target 2 100 [BSuccess] flaky 3 [50; 104; 106; 107]%Z).
  - vm_compute. discriminate.
  - repeat constructor.
  - vm_compute. discriminate.
Defined.

Definition one_running : gov_state :=
  mkGovState (snd (take 7 (set_slots (newGovernor two_rps 4 0) 1))) 0 1 1.

Lemma governor_limits_witness :
  (waiting one_running + running one_running <= Z.max 1 4)%Z.
Proof.
  apply (governor_limits two_rps 4 0 one_running); [reflexivity|].
  eapply star_snoc; [eapply star_snoc; [apply star_refl|apply gs_enter; reflexivity]|].
  pose proof (gs_take (set_slots (newGovernor two_rps 4 0) 1) 1 0 0 7 0 _ eq_refl ltac:(discriminate) eq_refl) as H.
  vm_compute in H |- *. exact H.
Defined.

Lemma acquire_waits_once_witness :
  fst (acquire (Slot 0 [500000000%Z]) (mkGovernor two_rps two_rps 0%Q 0 0 4)) = true.
Proof.
  apply (acquire_waits_once (mkGovernor two_rps two_rps 0%Q 0 0 4) 0);
    [repeat split; discriminate|discriminate|reflexivity|vm_compute; discriminate].
Defined.
