(* ===== verification/GuardData.v ===== *)
(** The data of the write guard: requests, outcomes, prepared writes and the
    package's errors ([src/pkg/writeguard/guard.go]). JSON documents are their
    bytes; a nil [json.RawMessage] is the empty string. *)

From S2P Require Import Turgon Prelude GoStr GoErr Policy.
From Stdlib Require Import String.

Definition ErrSimulationUnsupported : string := "simulation not supported".
Definition ErrDenied : string := "write denied by policy".
Definition ErrRejected : string := "write rejected".
Definition ErrInvalid : string := "write payload invalid".
Definition ErrUnconfirmed : string := "write committed but not confirmed".
Definition ErrInFlight : string := "a write with this idempotency key is in progress".
Definition ErrNotFound : string := "record not found".

Record AmountCheck := mkAmountCheck { AcPreview : string; AcTolerance : float64 }.

Record Request := mkRequest {
  RTarget : string;
  ROperation : string;
  RTool : string;
  RRisk : string;
  RSubject : Subject;
  RKey : string;
  RPayload : string;
  REntity : string;
  RAmount : float64;
  RSimulate : bool;
  RCompensation : string;
  RRecipe : string;
  RRequireApproval : bool;
  RReason : string;
  RCheckAmount : option AmountCheck
}.

Inductive Status :=
| StatusCommitted
| StatusDuplicate
| StatusDenied
| StatusRejected
| StatusFailed.

#[export] Instance Status_eq_dec : EqDecision Status.
Proof. solve_decision. Defined.

Record Outcome := mkOutcome {
  OStatus : Status;
  OResult : string;
  OPreview : string;
  OApproval : option Approval;
  OReasons : list string
}.

(** [Outcome{Status: s}]. *)
Definition outcome (s : Status) : Outcome := mkOutcome s "" "" None [].

Definition set_status (s : Status) (o : Outcome) : Outcome :=
  mkOutcome s (OResult o) (OPreview o) (OApproval o) (OReasons o).
Definition set_preview (p : string) (o : Outcome) : Outcome :=
  mkOutcome (OStatus o) (OResult o) p (OApproval o) (OReasons o).

(** A request under another idempotency key. *)
Definition with_key (r : Request) (k : string) : Request :=
  mkRequest (RTarget r) (ROperation r) (RTool r) (RRisk r) (RSubject r) k (RPayload r) (REntity r)
    (RAmount r) (RSimulate r) (RCompensation r) (RRecipe r) (RRequireApproval r) (RReason r)
    (RCheckAmount r).

Record Prepared := mkPrepared {
  PDuplicate : option Outcome;
  PDecision : Decision;
  PPreview : string;
  PNeedsApproval : bool;
  PAmountMismatch : string
}.

Definition noDecision : Decision := mkDecision false false false [].
Definition noPrepared : Prepared := mkPrepared None noDecision "" false "".

Record ApprovalRequest := mkApprovalRequest {
  AprRequest : Request;
  AprPreview : string;
  AprReasons : list string
}.

Record ReadRequest := mkReadRequest {
  QTarget : string;
  QOperation : string;
  QTool : string;
  QSubject : Subject;
  QEntity : string;
  QID : string
}.

Definition storeKey (req : Request) : string :=
  RTarget req +++ "/" +++ ROperation req +++ "/" +++ RKey req.

(** The store key of the compensation that undoes [req]. *)
Definition compensateKey (req : Request) : string :=
  RTarget req +++ "/" +++ RCompensation req +++ "/" +++ RKey req +++ "#compensate".

Definition actor (req : Request) : string :=
  if Agent (RSubject req) && negb (String.eqb (OnBehalfOf (RSubject req)) "")
  then SubjID (RSubject req) +++ " for " +++ OnBehalfOf (RSubject req)
  else SubjID (RSubject req).

Definition input (req : Request) : Input :=
  mkInput (RRecipe req) (mkTool (RTool req) (RRisk req)) (RSubject req)
    (mkAction (REntity req) (RAmount req)) noApproval.

Definition with_approval (i : Input) (a : Approval) : Input :=
  mkInput (InRecipe i) (InTool i) (InSubject i) (InAction i) a.
