(* ===== verification/Idempotency.v ===== *)
(** The idempotency store: [src/pkg/writeguard/idempotency.go].

    [Store] is the interface the guard uses and [StoreLaws] what it promises; the
    in-memory store implements both, and [Faulty] wraps a store whose calls may
    fail. The protocol of the clients that share a store is a step relation. *)

From S2P Require Import Turgon Prelude GoStr GoErr Policy GuardData.
From Stdlib Require Import String.

Class Store (S : Type) := {
  Begin : string -> S -> result (option Outcome) * S;
  Lookup : string -> S -> result (option Outcome) * S;
  Complete : string -> Outcome -> S -> option goerr * S;
  AbortClaim : string -> S -> option goerr * S
}.

(** What a store holds: the outcome of each completed key, and who is claimed. *)
Class StoreView (S : Type) := {
  done_at : S -> string -> option Outcome;
  held : S -> string -> bool
}.

Definition same_view {S} `{StoreView S} (s s' : S) : Prop :=
  forall k, done_at s' k = done_at s k /\ held s' k = held s k.

(** A call fails without effect or does what its comment says. *)
Class StoreLaws (S : Type) `{Store S} `{StoreView S} := {
  Begin_law k s r s' : Begin k s = (r, s') ->
    match r with
    | Err _ => same_view s s'
    | Ok (Some o) => done_at s k = Some o /\ same_view s s'
    | Ok None => done_at s k = None /\ held s k = false /\
        forall k', done_at s' k' = done_at s k' /\ held s' k' = String.eqb k' k || held s k'
    end;
  Lookup_law k s r s' : Lookup k s = (r, s') ->
    same_view s s' /\ (forall o, r = Ok o -> o = done_at s k);
  Complete_law k o s r s' : Complete k o s = (r, s') ->
    match r with
    | Some _ => same_view s s'
    | None => forall k', done_at s' k' = (if String.eqb k' k then Some o else done_at s k') /\
                         held s' k' = negb (String.eqb k' k) && held s k'
    end;
  Abort_law k s r s' : AbortClaim k s = (r, s') ->
    match r with
    | Some _ => same_view s s'
    | None => forall k', done_at s' k' = done_at s k' /\
                         held s' k' = negb (String.eqb k' k) && held s k'
    end
}.

(** A store whose calls never fail, a held key apart. *)
Class Reliable (S : Type) `{Store S} `{StoreView S} := {
  Begin_total k s : is_ok (fst (Begin k s)) = false -> held s k = true;
  Lookup_total k s : is_ok (fst (Lookup k s)) = true;
  Complete_total k o s : fst (Complete k o s) = None;
  Abort_total k s : fst (AbortClaim k s) = None
}.

(** ** The in-memory store *)

Record MemoryStore := mkMemoryStore {
  done : gmap string Outcome;
  inflight : gset string
}.

Definition NewMemoryStore : MemoryStore := mkMemoryStore ∅ ∅.

Definition mem_Begin (key : string) (s : MemoryStore) : result (option Outcome) * MemoryStore :=
  match done s !! key with
  | Some out => (Ok (Some out), s)
  | None =>
      if bool_decide (key ∈ inflight s) then (Err (Sentinel ErrInFlight), s)
      else (Ok None, mkMemoryStore (done s) ({[key]} ∪ inflight s))
  end.

Definition mem_Lookup (key : string) (s : MemoryStore) : result (option Outcome) * MemoryStore :=
  (Ok (done s !! key), s).

Definition mem_Complete (key : string) (out : Outcome) (s : MemoryStore) : option goerr * MemoryStore :=
  (None, mkMemoryStore (<[key := out]> (done s)) (inflight s ∖ {[key]})).

Definition mem_Abort (key : string) (s : MemoryStore) : option goerr * MemoryStore :=
  (None, mkMemoryStore (done s) (inflight s ∖ {[key]})).

#[export] Instance memory_store : Store MemoryStore := {
  Begin := mem_Begin;
  Lookup := mem_Lookup;
  Complete := mem_Complete;
  AbortClaim := mem_Abort
}.

#[export] Instance memory_view : StoreView MemoryStore := {
  done_at s k := done s !! k;
  held s k := bool_decide (k ∈ inflight s)
}.

#[export] Instance memory_laws : StoreLaws MemoryStore.
Proof.
  split; cbn.
  - unfold mem_Begin. intros k s r s'. destruct (done s !! k) as [o|] eqn:E; [by intros [= <- <-]|].
    case_bool_decide as Hk; intros [= <- <-]; [done|]. cbn.
    split; [done|]. split; [done|]. intros k'. split; [done|].
    destruct (String.eqb_spec k' k) as [->|N]; cbn; [apply bool_decide_eq_true_2; set_solver|].
    apply bool_decide_ext. set_solver.
  - unfold mem_Lookup. intros k s r s' [= <- <-]. split; [done|]. by intros o [= <-].
  - unfold mem_Complete. intros k o s r s' [= <- <-] k'. cbn.
    destruct (String.eqb_spec k' k) as [->|N]; cbn.
    + rewrite lookup_insert_eq. split; [done|]. apply bool_decide_eq_false_2. set_solver.
    + rewrite lookup_insert_ne by done. split; [done|]. apply bool_decide_ext. set_solver.
  - unfold mem_Abort. intros k s r s' [= <- <-] k'. cbn. split; [done|].
    destruct (String.eqb_spec k' k) as [->|N]; cbn;
      [apply bool_decide_eq_false_2; set_solver|apply bool_decide_ext; set_solver].
Qed.

#[export] Instance memory_reliable : Reliable MemoryStore.
Proof.
  split; cbn; try done. unfold mem_Begin. intros k s. by repeat case_match.
Qed.

(** ** A store whose calls fail as a schedule says *)

Record Faulty := mkFaulty { base : MemoryStore; faults : list (option goerr) }.

(** The fault of the next call, and the schedule after it. *)
Definition next_fault (s : Faulty) : option goerr * Faulty :=
  match faults s with
  | [] => (None, s)
  | f :: l => (f, mkFaulty (base s) l)
  end.

Definition faulty_result {A} (f : MemoryStore -> result A * MemoryStore) (s : Faulty) : result A * Faulty :=
  match next_fault s with
  | (Some e, s) => (Err e, s)
  | (None, s) => let (r, b) := f (base s) in (r, mkFaulty b (faults s))
  end.

Definition faulty_error (f : MemoryStore -> option goerr * MemoryStore) (s : Faulty) : option goerr * Faulty :=
  match next_fault s with
  | (Some e, s) => (Some e, s)
  | (None, s) => let (r, b) := f (base s) in (r, mkFaulty b (faults s))
  end.

#[export] Instance faulty_store : Store Faulty := {
  Begin k := faulty_result (Begin k);
  Lookup k := faulty_result (Lookup k);
  Complete k o := faulty_error (Complete k o);
  AbortClaim k := faulty_error (AbortClaim k)
}.

#[export] Instance faulty_view : StoreView Faulty := {
  done_at s := done_at (base s);
  held s := held (base s)
}.

Lemma next_fault_base s f s' : next_fault s = (f, s') -> base s' = base s.
Proof. unfold next_fault. by case_match; intros [= <- <-]. Qed.

Lemma faulty_result_view {A} (f : MemoryStore -> result A * MemoryStore) s r s' :
  faulty_result f s = (r, s') ->
  f (base s) = (r, base s') \/ (is_ok r = false /\ base s' = base s).
Proof.
  unfold faulty_result. destruct (next_fault s) as [[e|] s1] eqn:E; apply next_fault_base in E.
  - intros [= <- <-]. auto.
  - rewrite <- E. destruct (f (base s1)) as [r1 b]. intros [= <- <-]. auto.
Qed.

Lemma faulty_error_view (f : MemoryStore -> option goerr * MemoryStore) s r s' :
  faulty_error f s = (r, s') ->
  f (base s) = (r, base s') \/ (is_some r = true /\ base s' = base s).
Proof.
  unfold faulty_error. destruct (next_fault s) as [[e|] s1] eqn:E; apply next_fault_base in E.
  - intros [= <- <-]. auto.
  - rewrite <- E. destruct (f (base s1)) as [r1 b]. intros [= <- <-]. auto.
Qed.

Lemma same_base (s s' : Faulty) : base s' = base s -> same_view s s'.
Proof. intros E k. cbn. by rewrite E. Qed.

#[export] Instance faulty_laws : StoreLaws Faulty.
Proof.
  split.
  - intros k s r s' Hs. apply faulty_result_view in Hs as [Hs|[Hr Hs]].
    + apply (Begin_law (S:=MemoryStore)) in Hs. exact Hs.
    + destruct r; [done|]. by apply same_base.
  - intros k s r s' Hs. apply faulty_result_view in Hs as [Hs|[Hr Hs]].
    + apply (Lookup_law (S:=MemoryStore)) in Hs. exact Hs.
    + destruct r; [done|]. split; [by apply same_base|done].
  - intros k o s r s' Hs. apply faulty_error_view in Hs as [Hs|[Hr Hs]].
    + apply (Complete_law (S:=MemoryStore)) in Hs. exact Hs.
    + destruct r; [|done]. by apply same_base.
  - intros k s r s' Hs. apply faulty_error_view in Hs as [Hs|[Hr Hs]].
    + apply (Abort_law (S:=MemoryStore)) in Hs. exact Hs.
    + destruct r; [|done]. by apply same_base.
Qed.

(** ** Clients that share a store *)

(** Where a client of the store is: it holds a key's claim and may commit, or it
    has committed the target's document and must record the outcome. *)
Inductive phase :=
| Holding (key : string)
| Committed (key : string) (out : Outcome).

Definition phase_key (p : phase) : string :=
  match p with Holding k | Committed k _ => k end.

Section Protocol.
Context {T : Type} `{StoreLaws T}.

(** The store, the clients' phases, and the keys under which the target committed. *)
Record shared := mkShared {
  store : T;
  clients : gmap nat phase;
  commits : list string
}.

(** One step of one client, in the order [commitRequest] makes them. *)
Inductive client_step : shared -> shared -> Prop :=
| cs_begin c k r s s' cl l :
    cl !! c = None -> Begin k s = (r, s') ->
    client_step (mkShared s cl l)
      (mkShared s' (match r with Ok None => <[c := Holding k]> cl | _ => cl end) l)
| cs_lookup c k r s s' cl l :
    cl !! c = None -> Lookup k s = (r, s') -> client_step (mkShared s cl l) (mkShared s' cl l)
| cs_abort c k r s s' cl l :
    cl !! c = Some (Holding k) -> AbortClaim k s = (r, s') ->
    client_step (mkShared s cl l) (mkShared s' (delete c cl) l)
| cs_commit c k out s cl l :
    cl !! c = Some (Holding k) ->
    client_step (mkShared s cl l) (mkShared s (<[c := Committed k out]> cl) (k :: l))
| cs_complete c k out r s s' cl l :
    cl !! c = Some (Committed k out) -> Complete k out s = (r, s') ->
    client_step (mkShared s cl l)
      (mkShared s' (match r with None => delete c cl | Some _ => cl end) l).

Definition occurrences (k : string) (l : list string) : nat :=
  List.length (List.filter (String.eqb k) l).
#[local] Arguments occurrences : simpl never.

Lemma occurrences_cons k k' l :
  occurrences k' (k :: l) = if decide (k' = k) then S (occurrences k' l) else occurrences k' l.
Proof.
  unfold occurrences. cbn. destruct (String.eqb_spec k' k) as [E|E]; case_decide; done.
Qed.

(** A client's key is claimed, by that client alone, and not completed; a key was
    committed at most once, and if it was, its outcome is recorded or its client
    is about to record it. *)
Definition shared_inv (sh : shared) : Prop :=
  (forall c p, clients sh !! c = Some p ->
     held (store sh) (phase_key p) = true /\ done_at (store sh) (phase_key p) = None) /\
  (forall c d p q, clients sh !! c = Some p -> clients sh !! d = Some q ->
     phase_key p = phase_key q -> c = d) /\
  (forall k, occurrences k (commits sh) <= 1) /\
  (forall k, occurrences k (commits sh) = 1 ->
     is_Some (done_at (store sh) k) \/ exists c out, clients sh !! c = Some (Committed k out)).

Lemma inv_same_view s s' cl l :
  same_view s s' -> shared_inv (mkShared s cl l) -> shared_inv (mkShared s' cl l).
Proof.
  intros Hv (I1 & I2 & I3 & I4). unfold shared_inv. cbn in *. split; [|split; [done|split; [done|]]].
  - intros c p Hc. destruct (Hv (phase_key p)) as [-> ->]. by eapply I1.
  - intros k Hk. destruct (Hv k) as [-> _]. by apply I4.
Qed.

(** Dropping a client whose key is no longer claimed. *)
Lemma inv_drop s s' cl l c p :
  cl !! c = Some p -> shared_inv (mkShared s cl l) ->
  (forall k', k' <> phase_key p -> done_at s' k' = done_at s k' /\ held s' k' = held s k') ->
  (occurrences (phase_key p) l = 1 -> is_Some (done_at s' (phase_key p))) ->
  shared_inv (mkShared s' (delete c cl) l).
Proof.
  intros Hc (I1 & I2 & I3 & I4) Hs Hd. unfold shared_inv. cbn in *.
  assert (Hne : forall d q, delete c cl !! d = Some q -> cl !! d = Some q /\ phase_key q <> phase_key p).
  { intros d q Hdq. apply lookup_delete_Some in Hdq as [Hcd Hdq]. split; [done|].
    intros E. apply Hcd. symmetry. by apply (I2 d c q p). }
  split; [|split; [|split; [done|]]].
  - intros d q Hdq. apply Hne in Hdq as [Hdq Hkq]. destruct (Hs _ Hkq) as [-> ->]. by eapply I1.
  - intros d e q r Hd1 He1. apply Hne in Hd1 as [Hd1 _]. apply Hne in He1 as [He1 _]. by eapply I2.
  - intros k Hk. destruct (String.eqb_spec k (phase_key p)) as [->|N]; [left; auto|].
    destruct (Hs k N) as [-> _]. destruct (I4 k Hk) as [?|(d & out & Hdo)]; [by left|right].
    exists d, out. rewrite lookup_delete_ne; [done|]. intros ->. rewrite Hc in Hdo. injection Hdo as ->.
    by apply N.
Qed.

(** A client's own key has not been committed unless its outcome is recorded. *)
Lemma holding_uncommitted s cl l c k :
  cl !! c = Some (Holding k) -> shared_inv (mkShared s cl l) -> occurrences k l = 0.
Proof.
  intros Hc (I1 & I2 & I3 & I4). cbn in *. specialize (I3 k).
  destruct (occurrences k l) as [|[|n]] eqn:Eo; [done| |exfalso; lia].
  destruct (I4 k Eo) as [[o Hd]|(d & out & Hdo)].
  - destruct (I1 c _ Hc) as [_ Hn]. cbn in Hn. congruence.
  - assert (d = c) as -> by (by eapply (I2 d c)). congruence.
Qed.

Lemma inv_claim s s' cl l c k :
  cl !! c = None -> done_at s k = None -> held s k = false ->
  (forall k', done_at s' k' = done_at s k' /\ held s' k' = String.eqb k' k || held s k') ->
  shared_inv (mkShared s cl l) -> shared_inv (mkShared s' (<[c := Holding k]> cl) l).
Proof.
  intros Hc Hd Hh Hv (I1 & I2 & I3 & I4). unfold shared_inv. cbn in *.
  assert (Hfree : forall d q, cl !! d = Some q -> phase_key q <> k).
  { intros d q Hq E. destruct (I1 d q Hq) as [E1 _]. congruence. }
  split; [|split; [|split; [done|]]].
  - intros d q Hq. destruct (Hv (phase_key q)) as [-> ->].
    apply lookup_insert_Some in Hq as [[<- <-]|[Hcd Hq]]; cbn.
    { by rewrite String.eqb_refl. }
    destruct (I1 d q Hq) as [-> ->]. by rewrite orb_true_r.
  - intros d e q r Hq Hr E.
    apply lookup_insert_Some in Hq as [[<- <-]|[Hcd Hq]];
      apply lookup_insert_Some in Hr as [[<- <-]|[Hce Hr]]; cbn in E; [done| | |by eapply I2].
    + symmetry in E. by apply Hfree in Hr.
    + by apply Hfree in Hq.
  - intros k' Hk'. destruct (Hv k') as [-> _].
    destruct (I4 k' Hk') as [?|(d & out & Hdo)]; [by left|right].
    exists d, out. rewrite lookup_insert_ne; [done|]. intros ->. congruence.
Qed.

Lemma inv_commit s cl l c k out :
  cl !! c = Some (Holding k) -> shared_inv (mkShared s cl l) ->
  shared_inv (mkShared s (<[c := Committed k out]> cl) (k :: l)).
Proof.
  intros Hc Hinv. pose proof (holding_uncommitted s cl l c k Hc Hinv) as H0k.
  destruct Hinv as (I1 & I2 & I3 & I4). cbn in *.
  assert (Hins : forall d q, <[c := Committed k out]> cl !! d = Some q ->
            exists q', cl !! d = Some q' /\ phase_key q' = phase_key q).
  { intros d q Hq. apply lookup_insert_Some in Hq as [[<- <-]|[_ Hq]]; eauto. }
  unfold shared_inv. cbn. split; [|split; [|split]].
  - intros d q Hq. apply Hins in Hq as (q' & Hq' & <-). by eapply I1.
  - intros d e q r Hq Hr E. apply Hins in Hq as (q' & Hq' & Eq). apply Hins in Hr as (r' & Hr' & Er).
    eapply (I2 d e q' r'); try done. by rewrite Eq, Er.
  - intros k'. rewrite occurrences_cons. destruct (decide (k' = k)) as [->|]; [|done]. by rewrite H0k.
  - intros k' Hk'. rewrite occurrences_cons in Hk'. destruct (decide (k' = k)) as [->|N].
    + right. exists c, out. by rewrite lookup_insert_eq.
    + destruct (I4 k' Hk') as [?|(d & out' & Hdo)]; [by left|right]. exists d, out'.
      rewrite lookup_insert_ne; [done|]. intros ->. congruence.
Qed.

Lemma client_step_inv sh sh' : shared_inv sh -> client_step sh sh' -> shared_inv sh'.
Proof using All.
  intros Hinv Hstep. destruct Hstep as [c k r s s' cl l Hc Hb|c k r s s' cl l Hc Hb|c k r s s' cl l Hc Hb
                               |c k out s cl l Hc|c k out r s s' cl l Hc Hb].
  - apply Begin_law in Hb. destruct r as [[o|]|e].
    + eapply inv_same_view; [|done]. apply Hb.
    + destruct Hb as (Hd & Hh & Hv). by eapply inv_claim.
    + by eapply inv_same_view.
  - apply Lookup_law in Hb as [Hv _]. by eapply inv_same_view.
  - pose proof (holding_uncommitted s cl l c k Hc Hinv) as H0k.
    apply Abort_law in Hb. eapply (inv_drop s s' cl l c (Holding k)); [done|done| |cbn; lia].
    cbn. intros k' N. destruct r as [e|]; [apply Hb|].
    destruct (Hb k') as [-> ->]. by destruct (String.eqb_spec k' k).
  - by apply inv_commit.
  - apply Complete_law in Hb. destruct r as [e|].
    + by eapply inv_same_view.
    + eapply (inv_drop s s' cl l c (Committed k out)); [done|done| |]; cbn.
      * intros k' N. destruct (Hb k') as [-> ->]. by destruct (String.eqb_spec k' k).
      * intros _. destruct (Hb k) as [-> _]. rewrite String.eqb_refl. eauto.
Qed.
End Protocol.
Arguments shared _ : clear implicits.

(** * Properties *)

(** C8: Retries never create duplicates. However any number of clients interleave
    their calls to a store that keeps its interface's promises (calls that fail
    without effect included), the target commits each idempotency key at most once
    while every client that has committed goes on to record the outcome; at most
    one client at a time holds a key, and no key is both held and done. *)
Theorem one_commit_per_key {S} `{StoreLaws S} (s : S) (sh : shared S) (k : string) :
  star client_step (mkShared s ∅ []) sh ->
  occurrences k (commits sh) <= 1 /\
  (forall c d p q, clients sh !! c = Some p -> clients sh !! d = Some q ->
     phase_key p = phase_key q -> c = d) /\
  (forall c p, clients sh !! c = Some p ->
     held (store sh) (phase_key p) = true /\ done_at (store sh) (phase_key p) = None).
Proof.
  intros Hs. apply (star_invariant client_step shared_inv) in Hs.
  - destruct Hs as (I1 & I2 & I3 & _). done.
  - intros x y. apply client_step_inv.
  - unfold shared_inv. cbn. split; [|split; [|split]]; intros; rewrite ?lookup_empty in *; try done; lia.
Qed.

(** * Witnesses *)

Definition sample_outcome : Outcome := mkOutcome StatusCommitted "{}" "" None [].

Definition contended : shared MemoryStore :=
  mkShared (snd (mem_Begin "k" NewMemoryStore)) (<[1 := Committed "k" sample_outcome]> {[1 := Holding "k"]}) ["k"].

Lemma one_commit_per_key_witness : occurrences "k" (commits contended) <= 1.
Proof.
  apply (one_commit_per_key NewMemoryStore contended "k").
  eapply star_snoc; [eapply star_snoc; [eapply star_snoc; [apply star_refl|]|]|].
  - apply (cs_begin 1 "k" (Ok None) _ (snd (mem_Begin "k" NewMemoryStore))); reflexivity.
  - apply (cs_begin 2 "k" (Err (Sentinel ErrInFlight)) _ (snd (mem_Begin "k" NewMemoryStore))); reflexivity.
  - apply (cs_commit 1 "k" sample_outcome). reflexivity.
Defined.
