(* ===== verification/Guard.v ===== *)
(** The write guard: [src/pkg/writeguard/guard.go] and [read.go].

    A guard's state is its targets (each with a governor and a breaker), its store,
    what it has metered, and the trace of its calls to the world outside: policy,
    audit log, validator, approver, the targets. The outside is an [Env]: every
    answer may depend on the whole trace so far, so an environment is any behaviour
    of the world as one caller sees it. Operations are in a state monad, written
    statement by statement after the code. Metrics are left out. *)

From S2P Require Import Turgon Prelude GoStr GoErr Policy GuardData Idempotency Governor.
From Stdlib Require Import Ascii String.

(** ** The world outside *)

(** What an audit entry's data maps hold. *)
#[warnings="-register-all"]
Inductive aval :=
| AStr (s : string)
| ABool (b : bool)
| ANum (z : Z)
| AErr (e : goerr)
| AInput (i : Input)
| ADecision (d : Decision).

Definition adata := list (string * aval).

(** One call to the outside and its answer. *)
#[warnings="-register-all"]
Inductive event :=
| EvDecide (i : Input) (r : result Decision)
| EvAudit (by_ action : string) (data : adata) (err : option goerr)
| EvValidate (req : Request) (err : option goerr)
| EvSimulate (tgt op payload : string) (r : result string)
| EvAcquire (tgt : string) (ok : bool)
| EvCommit (tgt op key payload : string) (r : result string)
| EvConfirm (tgt op res : string) (err : option goerr)
| EvApprove (req : ApprovalRequest) (r : result Approval)
| EvRead (tgt op id : string) (r : result string).

(** Traces are latest first. *)
Definition history := list event.

(** The answers of the outside. A target may lack the optional interfaces
    [Confirmer] and [Reader], a guard a validator and an approver. *)
Record Env := mkEnv {
  e_now : history -> Z;
  e_decide : history -> Input -> result Decision;
  e_audit : history -> string -> string -> adata -> option goerr;
  e_validate : option (history -> Request -> option goerr);
  e_approve : option (history -> ApprovalRequest -> result Approval);
  e_slot : history -> string -> acquire_script;
  e_ctx_err : history -> goerr;
  e_simulate : string -> history -> string -> string -> result string;
  e_commit : string -> history -> string -> string -> string -> result string;
  e_confirm : string -> option (history -> string -> string -> option goerr);
  e_read : string -> option (history -> string -> string -> result string)
}.

(** ** The guard's state *)

Record TargetConfig := mkTargetConfig {
  tc_implemented : bool;
  tc_RequestsPerSecond : float64;
  tc_MaxConcurrentCalls : Z;
  tc_Metered : bool
}.

Record target := mkTarget {
  t_conf : TargetConfig;
  t_gov : governor float64;
  t_brk : breaker
}.

Record Guard (T : Type) := mkGuard {
  g_targets : gmap string target;
  g_store : T;
  g_metered : gmap string Z;
  g_trace : history
}.
Arguments mkGuard {_} _ _ _ _.
Arguments g_targets {_} _.
Arguments g_store {_} _.
Arguments g_metered {_} _.
Arguments g_trace {_} _.

(** [New]. [targets] lists the configured targets in the order the loop over the map
    visits them; the store is the configured one or a fresh memory store. *)
Fixpoint new_targets (cfg_Failures cfg_Cooldown now : Z) (targets : list (string * TargetConfig))
    (acc : gmap string target) : result (gmap string target) :=
  match targets with
  | [] => Ok acc
  | (name, tc) :: targets =>
      if negb (tc_implemented tc) then
        Err (Errorf (Msg "writeguard: target %q has no implementation" [FStr name]))
      else if PrimFloat.leb (tc_RequestsPerSecond tc) 0%float || (tc_MaxConcurrentCalls tc <=? 0)%Z then
        Err (Errorf (Msg "writeguard: target %q needs positive rate and concurrency limits" [FStr name]))
      else
        new_targets cfg_Failures cfg_Cooldown now targets
          (<[name := mkTarget tc (newGovernor (tc_RequestsPerSecond tc) (tc_MaxConcurrentCalls tc) now)
                       (newBreaker cfg_Failures cfg_Cooldown)]> acc)
  end.

Definition New {T} (has_policy has_audit : bool) (store : T) (cfg_Failures cfg_Cooldown now : Z)
    (targets : list (string * TargetConfig)) : result (Guard T) :=
  if negb has_policy then Err (Errorf (msg0 "writeguard: a policy decider is required"))
  else if negb has_audit then
    Err (Errorf (msg0 "writeguard: an audit recorder is required; every write is audited"))
  else let! ts := new_targets cfg_Failures cfg_Cooldown now targets ∅ in
    Ok (mkGuard ts store ∅ []).

(** ** Amounts in a dry run *)

(** A decoded JSON document. [JNum] is a [json.Number], [JFloat] a number decoded
    without [UseNumber]; an object's keys are distinct. *)
#[warnings="-register-all"]
Inductive json :=
| JNull
| JBool (b : bool)
| JNum (literal : string)
| JFloat (f : float64)
| JStr (s : string)
| JArr (l : list json)
| JObj (fields : list (string * json)).

(** [m[k]] of a map: a missing key gives nil. *)
Definition json_field (fields : list (string * json)) (k : string) : json :=
  match find_first (fun f => String.eqb (fst f) k) fields with
  | Some (_, v) => v
  | None => JNull
  end.

(** The loop of [AmountAt] over the path's keys. *)
Fixpoint json_at (v : json) (path : list string) : option json :=
  match path with
  | [] => Some v
  | k :: path =>
      match v with
      | JObj fields => json_at (json_field fields k) path
      | _ => None
      end
  end.

(** [math.Max]. *)
Definition float_max (x y : float64) : float64 :=
  if PrimFloat.eqb x infinity || PrimFloat.eqb y infinity then infinity
  else if PrimFloat.is_nan x || PrimFloat.is_nan y then nan
  else if PrimFloat.is_zero x && PrimFloat.is_zero y then
    (if PrimFloat.get_sign x then y else x)
  else if PrimFloat.ltb y x then x else y.

Section Amounts.
(** [encoding/json] with [UseNumber], [strconv.ParseFloat] and [fmt.Sprintf]. *)
Variable decode_json : string -> option json.
Variable parse_float : string -> option float64.
Variable sprintf : message -> string.

Definition AmountAt (doc : json) (path : string) : option float64 :=
  match json_at doc (split_on "." path) with
  | Some (JFloat f) => Some f
  | Some (JNum lit) => parse_float lit
  | Some (JStr s) => parse_float (trim_space s)
  | _ => None
  end.

(** [mismatch]: [None] is the empty string. *)
#[warnings="-inexact-float"]
Definition mismatch (amount : float64) (preview : string) (c : AmountCheck) : option message :=
  if String.eqb preview "" then
    Some (Msg "the amount %.2f could not be checked: the target gave no dry run" [FFlt amount])
  else match decode_json preview with
  | None => Some (Msg "the amount %.2f could not be checked: the dry run is not JSON" [FFlt amount])
  | Some doc =>
      match AmountAt doc (AcPreview c) with
      | None =>
          Some (Msg "the amount %.2f could not be checked: the dry run shows no amount at %s"
                  [FFlt amount; FStr (AcPreview c)])
      | Some shown =>
          if PrimFloat.leb (PrimFloat.abs (PrimFloat.sub shown amount))
               (float_max (PrimFloat.mul (AcTolerance c) (PrimFloat.abs amount)) 0.005%float)
          then None
          else Some (Msg "the target's dry run shows %.2f at %s, the source %.2f"
                       [FFlt shown; FStr (AcPreview c); FFlt amount])
      end
  end.
End Amounts.

(** ** Operations *)

Section Operations.
Context {T : Type} `{Store T} (env : Env).
Context (decode_json : string -> option json) (parse_float : string -> option float64)
        (sprintf : message -> string).

(** Computations that change the guard. *)
Definition M (A : Type) : Type := Guard T -> A * Guard T.
#[export] Instance M_ret : MRet M := fun A a g => (a, g).
#[export] Instance M_bind : MBind M := fun A B k m g => let (a, g) := m g in k a g.

(** Ask the outside: the answer joins the trace. *)
Definition ask {A} (f : history -> A) (ev : A -> event) : M A := fun g =>
  let a := f (g_trace g) in
  (a, mkGuard (g_targets g) (g_store g) (g_metered g) (ev a :: g_trace g)).

Definition audit (by_ action : string) (data : adata) : M (option goerr) :=
  ask (fun h => e_audit env h by_ action data) (EvAudit by_ action data).

Definition ctx_err : M goerr := fun g => (e_ctx_err env (g_trace g), g).

(** A call of the store. *)
Definition on_store {A} (f : T -> A * T) : M A := fun g =>
  let (a, s) := f (g_store g) in (a, mkGuard (g_targets g) s (g_metered g) (g_trace g)).

(** A method of a target's breaker or governor, read at the present time. Callers
    have looked the target up and targets are never removed, so [absent] is never
    the answer. *)
Definition on_target {A} (name : string) (absent : A) (f : Z -> target -> A * target) : M A := fun g =>
  match g_targets g !! name with
  | Some t =>
      let (a, t) := f (e_now env (g_trace g)) t in
      (a, mkGuard (<[name := t]> (g_targets g)) (g_store g) (g_metered g) (g_trace g))
  | None => (absent, g)
  end.

Definition brk_allow (name : string) : M bool :=
  on_target name false (fun now t =>
    let (ok, b) := allow now (t_brk t) in (ok, mkTarget (t_conf t) (t_gov t) b)).
Definition brk_success (name : string) : M unit :=
  on_target name tt (fun _ t => (tt, mkTarget (t_conf t) (t_gov t) (success (t_brk t)))).
Definition brk_failure (name : string) : M unit :=
  on_target name tt (fun now t => (tt, mkTarget (t_conf t) (t_gov t) (failure now (t_brk t)))).
Definition gov_release (name : string) : M unit :=
  on_target name tt (fun _ t => (tt, mkTarget (t_conf t) (release (t_gov t)) (t_brk t))).

Definition gov_acquire (name : string) : M bool := fun g =>
  let script := e_slot env (g_trace g) name in
  (ok ← on_target name false (fun _ t =>
     let (ok, gov) := acquire script (t_gov t) in (ok, mkTarget (t_conf t) gov (t_brk t)));
   ask (fun _ => ok) (EvAcquire name)) g.

(** [g.metered[req.Target]++]: an int, absent counts as zero. *)
Definition meter (name : string) : M unit := fun g =>
  (tt, mkGuard (g_targets g) (g_store g)
         (<[name := wrap (default 0%Z (g_metered g !! name) + 1)]> (g_metered g)) (g_trace g)).

(** [commit]: through the breaker and the governor, then metered and audited. *)
Definition commit (t : target) (actor op key : string) (req : Request) : M (string * option goerr) :=
  ok ← brk_allow (RTarget req);
  if negb ok then
    mret ("", Some (Wrapf (Msg "writeguard: %s: %w" [FStr (RTarget req)]) [Sentinel ErrCircuitOpen]))
  else
  ok ← gov_acquire (RTarget req);
  if negb ok then e ← ctx_err; mret ("", Some e)
  else
  r ← ask (fun h => e_commit env (RTarget req) h op key (RPayload req))
        (EvCommit (RTarget req) op key (RPayload req));
  _ ← gov_release (RTarget req);
  match r with
  | Err err =>
      _ ← brk_failure (RTarget req);
      _ ← audit actor "writeback.failed"
            [("target", AStr (RTarget req)); ("operation", AStr op); ("key", AStr key); ("error", AErr err)];
      mret ("", Some (Wrapf (Msg "writeguard: commit %s.%s: %w" [FStr (RTarget req); FStr op]) [err]))
  | Ok res =>
      _ ← brk_success (RTarget req);
      _ ← (if tc_Metered (t_conf t) then meter (RTarget req) else mret tt);
      aerr ← audit actor "writeback.committed"
               [("target", AStr (RTarget req)); ("operation", AStr op); ("key", AStr key);
                ("reason", AStr (RReason req)); ("result", AStr res); ("metered", ABool (tc_Metered (t_conf t)))];
      mret (res, aerr)
  end.

(** [maxGenerations]: 50, so the loop's [n] runs from 2 to 50. *)
Definition maxGenerations : Z := 50.

Fixpoint generation_loop (fuel : nat) (n : Z) (req r : Request) : M (Request * option goerr) :=
  match fuel with
  | 0 =>
      mret (req, Some (Wrapf (Msg "%w: %s.%s %s was undone %d times; give the write another idempotency key"
              [FStr (RTarget req); FStr (ROperation req); FStr (RKey req); FInt (maxGenerations - 1)])
              [Sentinel ErrInvalid]))
  | S fuel =>
      undo ← on_store (Lookup (compensateKey r));
      match undo with
      | Err e => mret (req, Some e)
      | Ok undo =>
          match undo with
          | Some o =>
              if decide (OStatus o = StatusCommitted)
              then generation_loop fuel (n + 1) req (with_key r (RKey req +++ "~" +++ itoa n))
              else mret (r, None)
          | None => mret (r, None)
          end
      end
  end.

Definition generation (req : Request) : M (Request * option goerr) :=
  if String.eqb (RCompensation req) "" then mret (req, None)
  else generation_loop (Z.to_nat (maxGenerations - 1)) 2 req req.

(** [g.target]: the target a request names, and its key. *)
Definition lookup_target (req : Request) : M (result target) := fun g =>
  (match g_targets g !! RTarget req with
   | None => Err (Errorf (Msg "writeguard: unknown target %q" [FStr (RTarget req)]))
   | Some t =>
       if String.eqb (RKey req) "" then Err (Errorf (msg0 "writeguard: an idempotency key is required"))
       else Ok t
   end, g).

Definition decide_ (actor : string) (i : Input) : M (Decision * option goerr) :=
  r ← ask (fun h => e_decide env h i) (EvDecide i);
  match r with
  | Err err => mret (noDecision, Some (Wrapf (msg0 "writeguard: policy: %w") [err]))
  | Ok dec =>
      aerr ← audit actor "policy.decision" [("input", AInput i); ("decision", ADecision dec)];
      mret (dec, aerr)
  end.

(** The data of the entries about one write. *)
Definition write_data (req : Request) (more : adata) : adata :=
  ("target", AStr (RTarget req)) :: ("operation", AStr (ROperation req)) :: more.

(** The simulation step of [Prepare]: the preview, or the error that stops it. *)
Definition simulate_step (actor : string) (req : Request) : M (string * option goerr) :=
  if RSimulate req then
    r ← ask (fun h => e_simulate env (RTarget req) h (ROperation req) (RPayload req))
          (EvSimulate (RTarget req) (ROperation req) (RPayload req));
    match r with
    | Err err =>
        if errors_is err ErrSimulationUnsupported then mret ("", None)
        else
          _ ← audit actor "writeback.simulation-failed" (write_data req [("error", AErr err)]);
          mret ("", Some (Wrapf (msg0 "writeguard: simulation: %w") [err]))
    | Ok preview =>
        aerr ← audit actor "writeback.simulated" (write_data req [("preview", AStr preview)]);
        mret (preview, aerr)
    end
  else mret ("", None).

(** The amount check of [Prepare]. *)
Definition amount_step (actor : string) (req : Request) (p : Prepared) : M (Prepared * option goerr) :=
  match RCheckAmount req with
  | None => mret (p, None)
  | Some c =>
      match mismatch decode_json parse_float (RAmount req) (PPreview p) c with
      | None => mret (p, None)
      | Some why =>
          let d := PDecision p in
          let p := mkPrepared (PDuplicate p)
                     (mkDecision (Allow d) (RequireApproval d) (Denied d) (Reasons d ++ [sprintf why]))
                     (PPreview p) true (sprintf why) in
          aerr ← audit actor "writeback.amount-mismatch"
                   (write_data req [("key", AStr (RKey req)); ("reason", AStr (sprintf why))]);
          mret (p, aerr)
      end
  end.

Definition validate_step (actor : string) (req : Request) : M (option goerr) :=
  match e_validate env with
  | None => mret None
  | Some validate =>
      verr ← ask (fun h => validate h req) (EvValidate req);
      match verr with
      | None => mret None
      | Some err =>
          _ ← audit actor "writeback.invalid" (write_data req [("error", AErr err)]);
          mret (Some (Wrapf (Msg "%w: %v" [FErr err]) [Sentinel ErrInvalid]))
      end
  end.

(** [Prepare]: everything before a person may have to approve. *)
Definition Prepare (req : Request) : M (Prepared * option goerr) :=
  t ← lookup_target req;
  match t with Err e => mret (noPrepared, Some e) | Ok _ =>
  '(req, gerr) ← generation req;
  match gerr with Some e => mret (noPrepared, Some e) | None =>
  let actor := actor req in
  prior ← on_store (Lookup (storeKey req));
  match prior with
  | Err e => mret (noPrepared, Some e)
  | Ok (Some prior) =>
      aerr ← audit actor "writeback.duplicate" (write_data req [("key", AStr (RKey req))]);
      mret (mkPrepared (Some (set_status StatusDuplicate prior)) noDecision "" false "", aerr)
  | Ok None =>
  '(dec, derr) ← decide_ actor (input req);
  match derr with Some e => mret (noPrepared, Some e) | None =>
  let needs := RequireApproval dec || RRequireApproval req in
  let p := mkPrepared None dec "" needs "" in
  if Denied dec || (negb (Allow dec) && negb needs) then mret (p, Some (Sentinel ErrDenied)) else
  verr ← validate_step actor req;
  match verr with Some e => mret (p, Some e) | None =>
  '(preview, serr) ← simulate_step actor req;
  let p := mkPrepared None dec preview needs "" in
  match serr with Some e => mret (p, Some e) | None =>
  amount_step actor req p
  end end end end end end.

(** [commitRequest] after the key is claimed: the outcome, the error, and the flag
    the deferred release looks at. *)
Definition commit_claimed (t : target) (req : Request) (approval : option Approval)
    : M (Outcome * option goerr * bool) :=
  let actor := actor req in
  let key := storeKey req in
  aerr ← (match approval with
          | None => mret None
          | Some a =>
              audit (ApBy a) "writeback.approval"
                (write_data req [("key", AStr (RKey req)); ("status", AStr (ApStatus a)); ("note", AStr (ApNote a))])
          end);
  match aerr with Some e => mret (outcome StatusFailed, Some e, false) | None =>
  let rejected :=
    match approval with
    | Some a => if String.eqb (ApStatus a) ApprovalApproved then None else Some a
    | None => None
    end in
  match rejected with
  | Some a =>
      let err := Wrapf (Msg "%w by %s" [FStr (ApBy a)]) [Sentinel ErrRejected] in
      let err := if String.eqb (ApNote a) "" then err else Wrapf (Msg "%w: %s" [FStr (ApNote a)]) [err] in
      mret (mkOutcome StatusRejected "" "" approval [], Some err, false)
  | None =>
  let i := match approval with Some a => with_approval (input req) a | None => input req end in
  '(dec, derr) ← decide_ actor i;
  match derr with Some e => mret (outcome StatusFailed, Some e, false) | None =>
  if (RequireApproval dec || RRequireApproval req) && negb (is_some approval) then
    mret (mkOutcome StatusDenied "" "" None (Reasons dec),
          Some (Wrapf (msg0 "%w: approval required") [Sentinel ErrDenied]), false)
  else if negb (Allow dec) then
    mret (mkOutcome StatusDenied "" "" approval (Reasons dec), Some (Sentinel ErrDenied), false)
  else
  '(res, cerr) ← commit t actor (ROperation req) (RKey req) req;
  match cerr with Some e => mret (mkOutcome StatusFailed "" "" approval [], Some e, false) | None =>
  let out := mkOutcome StatusCommitted res "" approval [] in
  serr ← on_store (Complete key out);
  match serr with Some e => mret (out, Some e, false) | None =>
  match e_confirm env (RTarget req) with
  | None => mret (out, None, true)
  | Some confirm =>
      ferr ← ask (fun h => confirm h (ROperation req) res) (EvConfirm (RTarget req) (ROperation req) res);
      match ferr with
      | None => mret (out, None, true)
      | Some err =>
          _ ← audit actor "writeback.unconfirmed" (write_data req [("error", AErr err)]);
          mret (out, Some (Wrapf (Msg "%w: %v" [FErr err]) [Sentinel ErrUnconfirmed]), true)
      end
  end end end end end end.

(** [Commit] ([commitRequest]; the counter it increments is a metric). *)
Definition Commit (req : Request) (approval : option Approval) : M (Outcome * option goerr) :=
  t ← lookup_target req;
  match t with Err e => mret (outcome StatusFailed, Some e) | Ok t =>
  '(req, gerr) ← generation req;
  match gerr with Some e => mret (outcome StatusFailed, Some e) | None =>
  let key := storeKey req in
  prior ← on_store (Begin key);
  match prior with
  | Err e => mret (outcome StatusFailed, Some e)
  | Ok (Some prior) =>
      aerr ← audit (actor req) "writeback.duplicate" (write_data req [("key", AStr (RKey req))]);
      mret (set_status StatusDuplicate prior, aerr)
  | Ok None =>
      '(out, err, committed) ← commit_claimed t req approval;
      _ ← (if committed : bool then mret None else on_store (AbortClaim key));
      mret (out, err)
  end end end.

(** [Execute]: [Prepare], the configured approver if needed, then [Commit]. *)
Definition Execute (req : Request) : M (Outcome * option goerr) :=
  '(p, err) ← Prepare req;
  match err with
  | Some e =>
      let status := if errors_is e ErrDenied then StatusDenied else StatusFailed in
      mret (mkOutcome status "" (PPreview p) None (Reasons (PDecision p)), Some e)
  | None =>
  match PDuplicate p with
  | Some dup => mret (dup, None)
  | None =>
  let finish approval :=
    '(out, err) ← Commit req approval; mret (set_preview (PPreview p) out, err) in
  if PNeedsApproval p then
    match e_approve env with
    | None =>
        mret (mkOutcome StatusDenied "" (PPreview p) None (Reasons (PDecision p)),
              Some (Wrapf (msg0 "%w: approval required but no approver is configured") [Sentinel ErrDenied]))
    | Some approve =>
        let areq := mkApprovalRequest req (PPreview p) (Reasons (PDecision p)) in
        a ← ask (fun h => approve h areq) (EvApprove areq);
        match a with
        | Err err =>
            mret (mkOutcome StatusFailed "" (PPreview p) None [],
                  Some (Wrapf (msg0 "writeguard: approval: %w") [err]))
        | Ok a => finish (Some a)
        end
    end
  else finish None
  end end.

(** The request [compensate] commits. *)
Definition compensation_of (req : Request) (res : string) : Request :=
  mkRequest (RTarget req) (RCompensation req) (RTool req) (RRisk req) (RSubject req)
    (RKey req +++ "#compensate") res (REntity req) (RAmount req) (RSimulate req) (RCompensation req)
    (RRecipe req) (RRequireApproval req) ("compensating " +++ ROperation req) (RCheckAmount req).

(** [compensate] and [Compensate]: undo a committed write, given its result. *)
Definition compensate (req : Request) (res : string) : M (option goerr) := fun g =>
  match g_targets g !! RTarget req with
  | None => (Some (Errorf (Msg "writeguard: unknown target %q" [FStr (RTarget req)])), g)
  | Some t =>
      (if String.eqb (RCompensation req) "" then
         mret (Some (Errorf (Msg "writeguard: %s.%s has no compensation" [FStr (RTarget req); FStr (ROperation req)])))
       else
       '(req, gerr) ← generation req;
       match gerr with Some e => mret (Some e) | None =>
       let creq := compensation_of req res in
       let key := storeKey creq in
       prior ← on_store (Begin key);
       match prior with
       | Err e => mret (Some e)
       | Ok (Some _) => mret None
       | Ok None =>
           '(res, cerr) ← commit t "turgon/saga" (ROperation creq) (RKey creq) creq;
           match cerr with
           | Some e => _ ← on_store (AbortClaim key); mret (Some e)
           | None => on_store (Complete key (mkOutcome StatusCommitted res "" None []))
           end
       end end) g
  end.

(** [Read]: a governed read; the trace of the audit log never holds its data. *)
Definition Read (q : ReadRequest) : M (string * option goerr) := fun g =>
  match g_targets g !! QTarget q with
  | None => ("", Some (Errorf (Msg "writeguard: unknown target %q" [FStr (QTarget q)])), g)
  | Some _ =>
  match e_read env (QTarget q) with
  | None => ("", Some (Errorf (Msg "writeguard: target %q cannot answer reads" [FStr (QTarget q)])), g)
  | Some read =>
  (let s := QSubject q in
   let who := if Agent s && negb (String.eqb (OnBehalfOf s) "")
              then SubjID s +++ " for " +++ OnBehalfOf s else SubjID s in
   let i := mkInput "" (mkTool (QTool q) RiskRead) s (mkAction (QEntity q) 0%float) noApproval in
   '(dec, derr) ← decide_ who i;
   match derr with Some e => mret ("", Some e) | None =>
   if Denied dec || negb (Allow dec) then
     mret ("", Some (Wrapf (Msg "%w: %v" [FStrs (Reasons dec)]) [Sentinel ErrDenied]))
   else
   ok ← brk_allow (QTarget q);
   if negb ok then
     mret ("", Some (Wrapf (Msg "writeguard: %s: %w" [FStr (QTarget q)]) [Sentinel ErrCircuitOpen]))
   else
   ok ← gov_acquire (QTarget q);
   if negb ok then e ← ctx_err; mret ("", Some e)
   else
   r ← ask (fun h => read h (QOperation q) (QID q)) (EvRead (QTarget q) (QOperation q) (QID q));
   _ ← gov_release (QTarget q);
   _ ← (match r with
        | Ok _ => brk_success (QTarget q)
        | Err e => if errors_is e ErrNotFound then brk_success (QTarget q) else brk_failure (QTarget q)
        end);
   aerr ← audit who "read"
            [("target", AStr (QTarget q)); ("operation", AStr (QOperation q)); ("tool", AStr (QTool q));
             ("id", AStr (QID q)); ("found", ABool (is_ok r))];
   match aerr with
   | Some e => mret ("", Some e)
   | None => match r with Ok data => mret (data, None) | Err e => mret ("", Some e) end
   end
   end) g
  end end.
End Operations.
