(* ===== verification/GuardProps.v ===== *)
(** Lemmas about the guard: its monad, its reads, and everything a commit does. *)

From S2P Require Import Turgon Prelude GoStr GoErr Policy Governor GuardData Idempotency Guard.
From Stdlib Require Import String.

(** What the write guard guarantees: lemmas on its operations, stated on the calls
    each adds to the trace and on what it leaves in the store, and the properties
    of [Prepare], [Commit], [Execute], [compensate] and [Read]. *)

Section Laws.
Context {T : Type} `{Hst : Store T} `{Hvw : StoreView T} `{Hlaw : !StoreLaws T} (env : Env).
Context (decode_json : string -> option json) (parse_float : string -> option float64)
        (sprintf : message -> string).
#[local] Abbreviation M := (M (T:=T)).
Implicit Types g : Guard T.

Lemma bind_inv {A B} (m : M A) (k : A -> M B) g r :
  mbind k m g = r -> exists a g1, m g = (a, g1) /\ k a g1 = r.
Proof. unfold mbind, M_bind. intros <-. destruct (m g) as [a g1]. eauto. Qed.

Lemma ret_inv {A} (a b : A) g g' : (mret a : M A) g = (b, g') -> b = a /\ g' = g.
Proof. by intros [= -> ->]. Qed.

(** [g'] continues [g]: the new calls, the store and the configured targets. *)
Record continues g g' (new : history) (s : T) : Prop := mkContinues {
  c_trace : g_trace g' = new ++ g_trace g;
  c_store : g_store g' = s;
  c_targets : t_conf <$> g_targets g' = t_conf <$> g_targets g
}.

Lemma continues_refl g : continues g g [] (g_store g).
Proof. done. Qed.

Lemma continues_trans g g1 g2 n1 n2 s1 s2 :
  continues g g1 n1 s1 -> continues g1 g2 n2 s2 -> continues g g2 (n2 ++ n1) s2.
Proof.
  intros [T1 S1 C1] [T2 S2 C2]. split; [|done|congruence].
  rewrite T2, T1. by rewrite app_assoc.
Qed.

Lemma ask_inv {A} (f : history -> A) ev g a g' :
  ask f ev g = (a, g') -> a = f (g_trace g) /\ continues g g' [ev a] (g_store g).
Proof. unfold ask. by intros [= <- <-]. Qed.

Lemma audit_inv b act d g e g' :
  audit env b act d g = (e, g') -> continues g g' [EvAudit b act d e] (g_store g).
Proof. intros Ha. by apply ask_inv in Ha as [_ ?]. Qed.

Lemma on_store_inv {A} (f : T -> A * T) g a g' :
  on_store f g = (a, g') -> f (g_store g) = (a, g_store g') /\ continues g g' [] (g_store g').
Proof. unfold on_store. destruct (f (g_store g)) as [x s]. by intros [= <- <-]. Qed.

Lemma on_target_inv {A} name (absent : A) f g a g' :
  (forall now t, t_conf (snd (f now t)) = t_conf t) ->
  on_target env name absent f g = (a, g') -> continues g g' [] (g_store g).
Proof.
  intros Hf. unfold on_target. destruct (g_targets g !! name) as [t|] eqn:Et; [|by intros [= <- <-]].
  specialize (Hf (e_now env (g_trace g)) t). destruct (f _ t) as [x t']. intros [= <- <-].
  split; [done|done|]. cbn in *. rewrite fmap_insert, Hf. apply map_eq. intros k.
  destruct (decide (k = name)) as [->|N].
  - by rewrite lookup_insert_eq, lookup_fmap, Et.
  - by rewrite lookup_insert_ne.
Qed.

Lemma brk_allow_inv name g ok g' : brk_allow env name g = (ok, g') -> continues g g' [] (g_store g).
Proof. apply on_target_inv. intros now t. by destruct (allow now (t_brk t)). Qed.

Lemma brk_success_inv name g u g' : brk_success env name g = (u, g') -> continues g g' [] (g_store g).
Proof. by apply on_target_inv. Qed.

Lemma brk_failure_inv name g u g' : brk_failure env name g = (u, g') -> continues g g' [] (g_store g).
Proof. by apply on_target_inv. Qed.

Lemma gov_release_inv name g u g' : gov_release env name g = (u, g') -> continues g g' [] (g_store g).
Proof. by apply on_target_inv. Qed.

Lemma gov_acquire_inv name g ok g' :
  gov_acquire env name g = (ok, g') -> continues g g' [EvAcquire name ok] (g_store g).
Proof.
  unfold gov_acquire. intros Ha. apply bind_inv in Ha as (x & g1 & Hx & Ha).
  apply on_target_inv in Hx; [|intros now t; by destruct (acquire _ (t_gov t))].
  apply ask_inv in Ha as [-> Ha]. pose proof (continues_trans _ _ _ _ _ _ _ Hx Ha) as Hc.
  by rewrite (c_store _ _ _ _ Hx) in Hc.
Qed.

Lemma on_store_targets {A} (f : T -> A * T) g a g' :
  on_store f g = (a, g') -> g_targets g' = g_targets g /\ g_metered g' = g_metered g.
Proof. unfold on_store. destruct (f (g_store g)). by intros [= _ <-]. Qed.

Lemma generation_loop_targets fuel n req r0 g r g' :
  generation_loop fuel n req r0 g = (r, g') -> g_targets g' = g_targets g /\ g_metered g' = g_metered g.
Proof.
  revert n r0 g. induction fuel as [|fuel IH]; intros n r0 g; cbn [generation_loop]; [by intros [= _ <-]|].
  intros Hg. apply bind_inv in Hg as (u & g1 & Hl & Hg). apply on_store_targets in Hl as [<- <-].
  destruct u as [[o|]|e]; [|by injection Hg as _ <-..]. case_decide; [by apply IH in Hg|by injection Hg as _ <-].
Qed.

Lemma generation_targets req g r g' :
  generation req g = (r, g') -> g_targets g' = g_targets g /\ g_metered g' = g_metered g.
Proof. unfold generation. case_match; [by intros [= _ <-]|]. apply generation_loop_targets. Qed.

Lemma meter_inv name g u g' : meter name g = (u, g') -> continues g g' [] (g_store g).
Proof. unfold meter. by intros [= <- <-]. Qed.
End Laws.

(** Take the leading step of a hypothesis on a run apart. *)
Ltac bind_step H x g1 Hx :=
  apply bind_inv in H as (x & g1 & Hx & H).

(** Chain the continuations of consecutive steps into one. *)
Ltac chain :=
  repeat match goal with
  | H1 : continues ?g ?g1 _ _, H2 : continues ?g1 ?g2 _ _ |- _ =>
      let Hs := fresh in
      pose proof (c_store _ _ _ _ H1) as Hs;
      pose proof (continues_trans _ _ _ _ _ _ _ H1 H2); clear H1 H2;
      try rewrite Hs in *; clear Hs
  end.

Section Operations.
Context {T : Type} `{Hst : Store T} `{Hvw : StoreView T} `{Hlaw : !StoreLaws T} (env : Env).
Context (decode_json : string -> option json) (parse_float : string -> option float64)
        (sprintf : message -> string).
Implicit Types g : Guard T.

(** ** [commit] *)

(** The calls one governed commit makes: none while the circuit is open, an
    abandoned wait, or the target's commit, audited as failed or committed. *)
Inductive commit_calls (who op key : string) (req : Request) : history -> string -> option goerr -> Prop :=
| cc_open : commit_calls who op key req [] ""
    (Some (Wrapf (Msg "writeguard: %s: %w" [FStr (RTarget req)]) [Sentinel ErrCircuitOpen]))
| cc_cancelled e : commit_calls who op key req [EvAcquire (RTarget req) false] "" (Some e)
| cc_failed e data aerr : commit_calls who op key req
    [EvAudit who "writeback.failed" data aerr;
     EvCommit (RTarget req) op key (RPayload req) (Err e);
     EvAcquire (RTarget req) true] ""
    (Some (Wrapf (Msg "writeguard: commit %s.%s: %w" [FStr (RTarget req); FStr op]) [e]))
| cc_done res data aerr : commit_calls who op key req
    [EvAudit who "writeback.committed" data aerr;
     EvCommit (RTarget req) op key (RPayload req) (Ok res);
     EvAcquire (RTarget req) true] res aerr.

Lemma commit_inv t who op key req g res err g' :
  commit env t who op key req g = ((res, err), g') ->
  exists new, continues g g' new (g_store g) /\ commit_calls who op key req new res err.
Proof.
  unfold commit. intros Hc. bind_step Hc ok g1 H1. apply brk_allow_inv in H1.
  destruct ok; cbn in Hc.
  2: { injection Hc as <- <- <-. exists []. split; [done|constructor]. }
  bind_step Hc ok g2 H2. apply gov_acquire_inv in H2. destruct ok; cbn in Hc.
  2: { bind_step Hc e g3 H3. injection H3 as _ <-. injection Hc as <- <- <-. chain.
       exists [EvAcquire (RTarget req) false]. split; [done|constructor]. }
  bind_step Hc r g3 H3. apply ask_inv in H3 as [_ H3].
  bind_step Hc u g4 H4. apply gov_release_inv in H4. destruct r as [r|e].
  - bind_step Hc u5 g5 H5. apply brk_success_inv in H5.
    bind_step Hc u6 g6 H6.
    assert (H6' : continues g5 g6 [] (g_store g5)).
    { case_match; [by apply meter_inv in H6|]. by injection H6 as _ <-. }
    clear H6. bind_step Hc aerr g7 H7. apply audit_inv in H7. injection Hc as <- <- <-. chain.
    eexists. split; [done|constructor].
  - bind_step Hc u5 g5 H5. apply brk_failure_inv in H5.
    bind_step Hc aerr g6 H6. apply audit_inv in H6. injection Hc as <- <- <-. chain.
    eexists. split; [done|econstructor].
Qed.

(** ** [generation] *)

(** Generation [n] of a request: its own key, then the key with [~n]. *)
Definition generation_key (req : Request) (n : Z) : string :=
  if (n =? 1)%Z then RKey req else RKey req +++ "~" +++ itoa n.

Definition undone (s : T) (req : Request) : Prop :=
  exists o, done_at s (compensateKey req) = Some o /\ OStatus o = StatusCommitted.

(** What [generation] answers for a store: the first generation, of at most
    [maxGenerations - 1], whose compensation has not committed. *)
Definition is_generation (s : T) (req r : Request) : Prop :=
  if String.eqb (RCompensation req) "" then r = req else
  exists n, (1 <= n < maxGenerations)%Z /\ r = with_key req (generation_key req n) /\
    ~ undone s r /\
    forall m, (1 <= m < n)%Z -> undone s (with_key req (generation_key req m)).

Lemma same_view_undone s s' r : same_view s s' -> undone s' r <-> undone s r.
Proof. intros Hv. unfold undone. by destruct (Hv (compensateKey r)) as [-> _]. Qed.

Lemma same_view_generation s s' req r : same_view s s' -> is_generation s' req r -> is_generation s req r.
Proof.
  intros Hv. unfold is_generation. case_match; [done|]. intros (n & Hn & Hr & Hu & Hm).
  exists n. split; [done|]. split; [done|]. split.
  - by rewrite <- (same_view_undone s s').
  - intros m Hlt. apply (same_view_undone s s' _ Hv). auto.
Qed.

Lemma same_view_trans (s1 s2 s3 : T) : same_view s1 s2 -> same_view s2 s3 -> same_view s1 s3.
Proof. intros A B k. destruct (A k) as [<- <-]. apply B. Qed.

Lemma same_view_refl (s : T) : same_view s s.
Proof. done. Qed.

Lemma with_key_self req : with_key req (generation_key req 1) = req.
Proof. by destruct req. Qed.

Lemma with_key_twice req a b : with_key (with_key req a) b = with_key req b.
Proof. done. Qed.

Lemma generation_loop_inv fuel n req g r err g' :
  RCompensation req <> "" ->
  Z.of_nat fuel = (maxGenerations - n + 1)%Z -> (2 <= n)%Z ->
  (forall m, (1 <= m < n - 1)%Z -> undone (g_store g) (with_key req (generation_key req m))) ->
  generation_loop fuel n req (with_key req (generation_key req (n - 1))) g = ((r, err), g') ->
  same_view (g_store g) (g_store g') /\ continues g g' [] (g_store g') /\
  (err = None -> is_generation (g_store g) req r).
Proof using Hlaw.
  intros Hcomp. revert n g. induction fuel as [|fuel IH]; intros n g Hf Hn Hm Hg; cbn [generation_loop] in Hg.
  { injection Hg as <- <- <-. done. }
  bind_step Hg undo g1 H1. apply on_store_inv in H1 as [Hl Hc].
  apply Lookup_law in Hl as [Hv Hres]. destruct undo as [undo|e].
  2: { injection Hg as <- <- <-. done. }
  specialize (Hres undo eq_refl).
  set (r0 := with_key req (generation_key req (n - 1))) in *.
  assert (Hstop : ~ undone (g_store g) r0 -> is_generation (g_store g) req r0).
  { intros Hu. unfold is_generation. destruct (String.eqb_spec (RCompensation req) ""); [done|].
    exists (n - 1)%Z. split; [unfold maxGenerations in *; lia|]. done. }
  assert (Hdec : undone (g_store g) r0 \/ ~ undone (g_store g) r0 /\ (g1, r0, None) = (g', r, err)).
  { unfold undone. rewrite <- Hres. destruct undo as [o|].
    - case_decide; [left; eauto|]. right. split; [intros (? & [= <-] & ?); done|]. injection Hg as <- <- <-. done.
    - right. split; [by intros (? & ? & ?)|]. injection Hg as <- <- <-. done. }
  destruct Hdec as [Hu|[Hu [= -> -> <-]]].
  - assert (exists o, undo = Some o /\ OStatus o = StatusCommitted) as (o & -> & Ho)
      by (destruct Hu as (o & Ho1 & Ho2); rewrite <- Hres in Ho1; eauto).
    case_decide; [|done].
    specialize (IH (n + 1)%Z g1).
    assert (Hkey : with_key r0 (RKey req +++ "~" +++ itoa n) = with_key req (generation_key req (n + 1 - 1))).
    { unfold r0. rewrite with_key_twice. unfold generation_key. replace (n + 1 - 1)%Z with n by lia.
      destruct (Z.eqb_spec n 1); [lia|done]. }
    rewrite Hkey in Hg. apply IH in Hg; try lia.
    + destruct Hg as (Hv2 & Hc2 & Hr). split; [by eapply same_view_trans|].
      split; [apply (continues_trans _ _ _ _ _ _ _ Hc Hc2)|].
      intros E. by apply (same_view_generation _ _ req r Hv), Hr.
    + intros m Hlt. apply (same_view_undone _ _ _ Hv).
      destruct (decide (m = n - 1)%Z) as [->|]; [done|]. apply Hm. lia.
  - split; [done|]. split; [done|]. intros _. by apply Hstop.
Qed.

Lemma generation_inv req g r err g' :
  generation req g = ((r, err), g') ->
  same_view (g_store g) (g_store g') /\ continues g g' [] (g_store g') /\
  (err = None -> is_generation (g_store g) req r).
Proof using Hlaw.
  unfold generation. destruct (String.eqb_spec (RCompensation req) "") as [E|N].
  - intros [= <- <- <-]. split; [done|]. split; [done|]. intros _. unfold is_generation. by rewrite E.
  - intros Hg. apply (generation_loop_inv (Z.to_nat (maxGenerations - 1)) 2 req); try done.
    + intros m Hlt. lia.
    + change (2 - 1)%Z with 1%Z. by rewrite with_key_self.
Qed.

(** A generation is the request under another key. *)
Lemma is_generation_with_key s req r : is_generation s req r -> exists k, r = with_key req k.
Proof.
  unfold is_generation. case_match.
  - intros ->. exists (RKey req). by destruct req.
  - intros (n & _ & -> & _). eauto.
Qed.

(** ** Calls that commit nothing *)

Definition is_commit (e : event) : bool :=
  match e with EvCommit _ _ _ _ _ => true | _ => false end.

Definition quiet (h : history) : Prop := Forall (fun e => is_commit e = false) h.

Lemma quiet_app h1 h2 : quiet (h1 ++ h2) <-> quiet h1 /\ quiet h2.
Proof. apply Forall_app. Qed.

Lemma quiet_no_commit h tgt op key payload r : quiet h -> EvCommit tgt op key payload r ∉ h.
Proof. intros Hq Hin. unfold quiet in Hq. rewrite Forall_forall in Hq. by apply Hq in Hin. Qed.

(** The steps of [Prepare] keep targets and store as they are. *)
Record observes g g' (new : history) : Prop := mkObserves {
  ob_trace : g_trace g' = new ++ g_trace g;
  ob_store : g_store g' = g_store g;
  ob_targets : g_targets g' = g_targets g;
  ob_metered : g_metered g' = g_metered g;
  ob_quiet : quiet new
}.

Lemma observes_refl g : observes g g [].
Proof. split; try done. constructor. Qed.

Lemma observes_trans g g1 g2 n1 n2 : observes g g1 n1 -> observes g1 g2 n2 -> observes g g2 (n2 ++ n1).
Proof.
  intros [A1 A2 A3 A4 A5] [B1 B2 B3 B4 B5]. split; try congruence.
  - rewrite B1, A1. by rewrite app_assoc.
  - by apply quiet_app.
Qed.

Lemma ask_observes {A} (f : history -> A) ev g a g' :
  ask f ev g = (a, g') -> (forall x, is_commit (ev x) = false) -> observes g g' [ev a].
Proof. unfold ask. intros [= <- <-] He. split; try done. by repeat constructor. Qed.

Lemma audit_observes b act d g e g' : audit env b act d g = (e, g') -> observes g g' [EvAudit b act d e].
Proof. intros Ha. by apply ask_observes in Ha. Qed.

Lemma observes_continues g g' new : observes g g' new -> continues g g' new (g_store g).
Proof. intros [A B C D E]. split; [done|done|by rewrite C]. Qed.

(** [decide_]: the decision is asked for and recorded, or an error stops the write. *)
Lemma decide_inv who i g dec err g' :
  decide_ env who i g = ((dec, err), g') ->
  exists new, observes g g' new /\
  (err = None -> exists data, new = [EvAudit who "policy.decision" data None; EvDecide i (Ok dec)]) /\
  (exists r audited, new = audited ++ [EvDecide i r] /\
     (audited = [] \/ exists data aerr, audited = [EvAudit who "policy.decision" data aerr])).
Proof.
  unfold decide_. intros Hd. bind_step Hd r g1 H1. apply ask_observes in H1; [|done]. destruct r as [d|e].
  - bind_step Hd aerr g2 H2. apply audit_observes in H2. injection Hd as <- <- <-.
    eexists. split; [by eapply observes_trans|]. split; [intros ->; eexists; reflexivity|].
    eexists _, [_]. split; [reflexivity|]. right. eauto.
  - injection Hd as <- <- <-. eexists. split; [done|]. split; [done|]. exists (Err e), []. eauto.
Qed.

Lemma validate_step_inv who req g err g' :
  validate_step env who req g = (err, g') -> exists new, observes g g' new.
Proof.
  unfold validate_step. intros Hv. destruct (e_validate env); [|injection Hv as _ <-; eexists; apply observes_refl].
  bind_step Hv r g1 H1. apply ask_observes in H1; [|done]. destruct r as [e|]; [|injection Hv as _ <-; eauto].
  bind_step Hv aerr g2 H2. apply audit_observes in H2. injection Hv as _ <-.
  eexists. by eapply observes_trans.
Qed.

Lemma simulate_step_inv who req g p err g' :
  simulate_step env who req g = ((p, err), g') -> exists new, observes g g' new.
Proof.
  unfold simulate_step. intros Hs. destruct (RSimulate req); [|injection Hs as _ _ <-; eexists; apply observes_refl].
  bind_step Hs r g1 H1. apply ask_observes in H1; [|done]. destruct r as [pv|e].
  - bind_step Hs aerr g2 H2. apply audit_observes in H2. injection Hs as _ _ <-.
    eexists. by eapply observes_trans.
  - destruct (errors_is e _); [injection Hs as _ _ <-; eauto|].
    bind_step Hs aerr g2 H2. apply audit_observes in H2. injection Hs as _ _ <-.
    eexists. by eapply observes_trans.
Qed.

(** The amount check asks for a person or changes nothing. *)
Lemma amount_step_inv who req p g p' err g' :
  amount_step env decode_json parse_float sprintf who req p g = ((p', err), g') ->
  (exists new, observes g g' new) /\ PDuplicate p' = PDuplicate p /\ PPreview p' = PPreview p /\
  (p' = p /\ (forall c, RCheckAmount req = Some c ->
               mismatch decode_json parse_float (RAmount req) (PPreview p) c = None) \/
   PNeedsApproval p' = true).
Proof.
  unfold amount_step. intros Ha.
  destruct (RCheckAmount req) as [c|].
  2: { injection Ha as <- _ <-. split; [eexists; apply observes_refl|]. split; [done|]. split; [done|]. by left. }
  destruct (mismatch _ _ _ _ c) as [why|] eqn:Em.
  2: { injection Ha as <- _ <-. split; [eexists; apply observes_refl|]. split; [done|]. split; [done|].
       left. split; [done|]. by intros c' [= <-]. }
  bind_step Ha aerr g1 H1. apply audit_observes in H1. injection Ha as <- _ <-. split; [by eexists|].
  split; [done|]. split; [done|]. by right.
Qed.

(** ** [Prepare] *)

(** What a prepared write is, when nothing stopped it. *)
Definition prepared_for (s : T) (req : Request) (new : history) (p : Prepared) : Prop :=
  exists r, is_generation s req r /\
  match PDuplicate p with
  | Some dup => exists prior, done_at s (storeKey r) = Some prior /\ dup = set_status StatusDuplicate prior
  | None =>
      done_at s (storeKey r) = None /\
      exists dec data,
        EvDecide (input r) (Ok dec) ∈ new /\ EvAudit (actor r) "policy.decision" data None ∈ new /\
        Denied dec = false /\ (Allow dec = true \/ PNeedsApproval p = true) /\
        (RequireApproval dec || RRequireApproval req = true -> PNeedsApproval p = true) /\
        (PNeedsApproval p = false -> forall c, RCheckAmount req = Some c ->
           mismatch decode_json parse_float (RAmount req) (PPreview p) c = None)
  end.

Lemma lookup_target_inv req g r g' :
  lookup_target req g = (r, g') -> g' = g /\
  (forall t, r = Ok t -> g_targets g !! RTarget req = Some t /\ RKey req <> "").
Proof.
  unfold lookup_target. intros [= <- <-]. split; [done|]. intros t.
  destruct (g_targets g !! RTarget req); [|done]. by destruct (String.eqb_spec (RKey req) ""); [|intros [= ->]].
Qed.

Lemma Prepare_inv req g p err g' :
  Prepare env decode_json parse_float sprintf req g = ((p, err), g') ->
  same_view (g_store g) (g_store g') /\
  exists new, g_trace g' = new ++ g_trace g /\ quiet new /\
    g_targets g' = g_targets g /\ g_metered g' = g_metered g /\
    (err = None -> prepared_for (g_store g) req new p).
Proof using Hlaw.
  unfold Prepare. intros Hp.
  bind_step Hp t g0 H0. apply lookup_target_inv in H0 as [-> Ht].
  destruct t as [t|e]; [|injection Hp as _ <- <-; split; [done|exists []; by repeat constructor]].
  bind_step Hp rg g1 H1. destruct rg as [r gerr].
  pose proof (generation_targets _ _ _ _ H1) as (Gt & Gm).
  apply generation_inv in H1 as (Hv1 & Hc1 & Hgen). pose proof (c_trace _ _ _ _ Hc1) as Tr1. cbn in Tr1.
  destruct gerr as [e|]; [injection Hp as _ <- <-; split; [done|exists []; by repeat constructor]|].
  specialize (Hgen eq_refl).
  bind_step Hp prior g2 H2. pose proof (on_store_targets _ _ _ _ H2) as (Gt2 & Gm2).
  apply on_store_inv in H2 as [Hl Hc2]. apply Lookup_law in Hl as [Hv2 Hprior].
  pose proof (c_trace _ _ _ _ Hc2) as Tr2. cbn in Tr2.
  assert (Hv : same_view (g_store g) (g_store g2)) by (by eapply same_view_trans).
  assert (Hd : forall o, prior = Ok o -> o = done_at (g_store g) (storeKey r)).
  { intros o ->. rewrite (Hprior o eq_refl). by destruct (Hv1 (storeKey r)) as [-> _]. }
  assert (Hobs : forall g3 n, observes g2 g3 n -> same_view (g_store g) (g_store g3) /\
            g_trace g3 = n ++ g_trace g /\ quiet n /\ g_targets g3 = g_targets g /\ g_metered g3 = g_metered g).
  { intros g3 n [A B C D E]. rewrite B, A, C, D, Tr2, Tr1. repeat split; try done; try apply Hv; congruence. }
  destruct prior as [[prior|]|e].
  - bind_step Hp aerr g3 H3. apply audit_observes in H3. injection Hp as <- -> <-.
    apply Hobs in H3 as (? & ? & ? & ? & ?). split; [done|]. eexists. repeat split; try done.
    intros _. exists r. split; [done|]. exists prior. split; [|done]. by rewrite (Hd _ eq_refl).
  - bind_step Hp dd g3 H3. destruct dd as [dec derr]. apply decide_inv in H3 as (n3 & O3 & Hdec & _).
    destruct derr as [e|].
    { injection Hp as _ <- <-. apply Hobs in O3 as (? & ? & ? & ? & ?). split; [done|]. by eexists. }
    destruct (Hdec eq_refl) as [data ->]. clear Hdec.
    destruct (Denied dec || _) eqn:Hden.
    { injection Hp as _ <- <-. apply Hobs in O3 as (? & ? & ? & ? & ?). split; [done|]. by eexists. }
    bind_step Hp verr g4 H4. apply validate_step_inv in H4 as (n4 & O4).
    pose proof (observes_trans _ _ _ _ _ O3 O4) as O34.
    destruct verr as [e|].
    { injection Hp as _ <- <-. apply Hobs in O34 as (? & ? & ? & ? & ?). split; [done|]. by eexists. }
    bind_step Hp ps g5 H5. destruct ps as [preview serr]. apply simulate_step_inv in H5 as (n5 & O5).
    pose proof (observes_trans _ _ _ _ _ O34 O5) as O35.
    destruct serr as [e|].
    { injection Hp as _ <- <-. apply Hobs in O35 as (? & ? & ? & ? & ?). split; [done|]. by eexists. }
    apply amount_step_inv in Hp as ((n6 & O6) & Edup & Eprev & Hmis).
    pose proof (observes_trans _ _ _ _ _ O35 O6) as O36.
    apply Hobs in O36 as (? & ? & ? & ? & ?). split; [done|]. eexists. repeat split; try done.
    intros _. destruct (is_generation_with_key _ _ _ Hgen) as [k Ek].
    assert (ER : RCheckAmount r = RCheckAmount req /\ RAmount r = RAmount req /\
                 RRequireApproval r = RRequireApproval req) by (by rewrite Ek).
    destruct ER as (E1 & E2 & E3).
    exists r. split; [done|]. rewrite Edup. cbn [PDuplicate].
    split; [by rewrite (Hd _ eq_refl)|].
    exists dec, data. rewrite !elem_of_app.
    split; [do 3 right; right; left|]. split; [do 3 right; left|].
    apply orb_false_iff in Hden as [Hden Hallow]. split; [done|].
    rewrite <- E3. rewrite Eprev, <- E1, <- E2. cbn [PPreview] in *.
    destruct Hmis as [[-> Hm]|Hn]; cbn [PNeedsApproval].
    + split; [|by split; [|intros _]].
      destruct (Allow dec); [by left|right]. cbn in Hallow.
      by destruct (RequireApproval dec || RRequireApproval r).
    + rewrite Hn. split; [by right|]. split; [done|]. done.
  - injection Hp as _ <- <-. split; [done|]. exists []. cbn. split; [congruence|]. split; [constructor|]. repeat split; try done; congruence.
Qed.
End Operations.

(** The properties of the write guard: when a target's system is written to, what
    the store holds afterwards, and where the code falls short of its comments. *)

(** A commit among calls that commit nothing. *)
Ltac quiet_absurd :=
  exfalso; match goal with
  | Hq : quiet ?h, Hi : EvCommit _ _ _ _ _ ∈ ?h |- _ => exact (quiet_no_commit _ _ _ _ _ _ Hq Hi)
  end.

Section Commits.
Context {T : Type} `{Hst : Store T} `{Hvw : StoreView T} `{Hlaw : !StoreLaws T} (env : Env).
Context (decode_json : string -> option json) (parse_float : string -> option float64)
        (sprintf : message -> string).
Implicit Types g : Guard T.

Definition approved_input (req : Request) (approval : option Approval) : Input :=
  match approval with Some a => with_approval (input req) a | None => input req end.

(** What stands before every commit: a recorded policy decision, made with the
    approval, that allows the write; an approval whenever one is asked for; and any
    approval given recorded and granted. *)
Record cleared (req : Request) (approval : option Approval) (before : history) : Prop := mkCleared {
  cl_decision : exists dec data,
    EvDecide (approved_input req approval) (Ok dec) ∈ before /\
    EvAudit (actor req) "policy.decision" data None ∈ before /\
    Allow dec = true /\
    (RequireApproval dec || RRequireApproval req = true -> is_Some approval);
  cl_approval : forall a, approval = Some a ->
    ApStatus a = ApprovalApproved /\
    exists data, EvAudit (ApBy a) "writeback.approval" data None ∈ before
}.

(** The ways a claimed write ends: its calls, store, outcome, error and the flag that
    keeps the claim from being released. *)
Inductive claimed_end (req : Request) (approval : option Approval) (s : T) :
    history -> T -> Outcome -> option goerr -> bool -> Prop :=
| ce_refused new out e :
    quiet new -> OStatus out ∈ [StatusFailed; StatusDenied; StatusRejected] ->
    claimed_end req approval s new s out (Some e) false
| ce_failed before calls res out e :
    quiet before -> cleared req approval before ->
    commit_calls (actor req) (ROperation req) (RKey req) req calls res (Some e) ->
    OStatus out = StatusFailed ->
    claimed_end req approval s (calls ++ before) s out (Some e) false
| ce_unrecorded before calls res e s' :
    quiet before -> cleared req approval before ->
    commit_calls (actor req) (ROperation req) (RKey req) req calls res None ->
    Complete (storeKey req) (mkOutcome StatusCommitted res "" approval []) s = (Some e, s') ->
    claimed_end req approval s (calls ++ before) s'
      (mkOutcome StatusCommitted res "" approval []) (Some e) false
| ce_committed before calls after res err s' :
    quiet before -> cleared req approval before -> quiet after ->
    commit_calls (actor req) (ROperation req) (RKey req) req calls res None ->
    Complete (storeKey req) (mkOutcome StatusCommitted res "" approval []) s = (None, s') ->
    (forall e, err = Some e -> errors_is e ErrUnconfirmed = true) ->
    claimed_end req approval s (after ++ calls ++ before) s'
      (mkOutcome StatusCommitted res "" approval []) err true.

Lemma commit_claimed_inv t req approval g out err cm g' :
  commit_claimed env t req approval g = ((out, err, cm), g') ->
  exists new, continues g g' new (g_store g') /\
    claimed_end req approval (g_store g) new (g_store g') out err cm.
Proof.
  unfold commit_claimed. intros Hc.
  bind_step Hc aerr g1 H1.
  assert (Happ : exists n1, observes g g1 n1 /\ (aerr = None -> forall a, approval = Some a ->
            exists data, EvAudit (ApBy a) "writeback.approval" data None ∈ n1)).
  { destruct approval as [a|].
    - apply audit_observes in H1. eexists. split; [exact H1|]. intros -> a' [= <-].
      eexists. left.
    - injection H1 as _ <-. eexists. split; [apply observes_refl|done]. }
  clear H1. destruct Happ as (n1 & O1 & Hrec).
  assert (Hstop : forall n e, observes g g' n -> err = Some e -> cm = false ->
            OStatus out ∈ [StatusFailed; StatusDenied; StatusRejected] ->
            exists new, continues g g' new (g_store g') /\
              claimed_end req approval (g_store g) new (g_store g') out err cm).
  { intros n e O -> -> Ho. exists n. rewrite (ob_store _ _ _ O).
    split; [by apply observes_continues|]. by apply ce_refused; [apply O|]. }
  destruct aerr as [e|].
  { injection Hc as <- <- <- <-. eapply Hstop; [exact O1|done..|]. by left. }
  specialize (Hrec eq_refl).
  destruct (match approval with Some a => _ | None => None end) as [a|] eqn:Erej.
  { injection Hc as <- <- <- <-. eapply Hstop; [exact O1|done..|]. do 2 right. by left. }
  bind_step Hc dd g2 H2. destruct dd as [dec derr]. apply decide_inv in H2 as (n2 & O2 & Hdec & _).
  pose proof (observes_trans _ _ _ _ _ O1 O2) as O12.
  destruct derr as [e|].
  { injection Hc as <- <- <- <-. eapply Hstop; [exact O12|done..|]. by left. }
  destruct (Hdec eq_refl) as [data ->]. clear Hdec.
  destruct ((RequireApproval dec || RRequireApproval req) && negb (is_some approval)) eqn:Ereq.
  { injection Hc as <- <- <- <-. eapply Hstop; [exact O12|done..|]. right. by left. }
  destruct (Allow dec) eqn:Eall; cbn in Hc.
  2: { injection Hc as <- <- <- <-. eapply Hstop; [exact O12|done..|]. right. by left. }
  set (before := _ ++ n1) in O12.
  assert (Hcl : cleared req approval before).
  { split.
    - exists dec, data. unfold before. split; [do 1 right; left|]. split; [left|]. split; [done|].
      intros E. rewrite E in Ereq. cbn in Ereq. destruct approval; [done|done].
    - intros a ->. cbn in Erej. destruct (String.eqb_spec (ApStatus a) ApprovalApproved) as [Ea|]; [|done].
      split; [done|]. destruct (Hrec a eq_refl) as [d Hd]. exists d. unfold before. by do 2 right. }
  clearbody before. clear Hstop Erej Ereq Hrec O1 O2.
  bind_step Hc cc g3 H3. destruct cc as [res cerr]. apply commit_inv in H3 as (calls & C3 & Hcalls).
  pose proof (observes_continues _ _ _ O12) as C12. pose proof (ob_store _ _ _ O12) as S12.
  pose proof (continues_trans _ _ _ _ _ _ _ C12 C3) as C13. rewrite S12 in C13.
  destruct cerr as [e|].
  { injection Hc as <- <- <- <-. exists (calls ++ before). rewrite (c_store _ _ _ _ C13).
    split; [done|]. eapply ce_failed; eauto; apply O12. }
  bind_step Hc serr g4 H4. apply on_store_inv in H4 as [Hs C4].
  rewrite (c_store _ _ _ _ C13) in Hs.
  pose proof (continues_trans _ _ _ _ _ _ _ C13 C4) as C14. cbn in C14.
  destruct serr as [e|].
  { injection Hc as <- <- <- <-. exists (calls ++ before). split; [done|].
    eapply ce_unrecorded; eauto; apply O12. }
  destruct (e_confirm env (RTarget req)) as [confirm|].
  2: { injection Hc as <- <- <- <-. exists ([] ++ calls ++ before). split; [done|].
       eapply ce_committed; eauto; [apply O12|constructor|done]. }
  bind_step Hc ferr g5 H5. apply ask_observes in H5; [|done]. destruct ferr as [e|].
  - bind_step Hc aerr g6 H6. apply audit_observes in H6.
    pose proof (observes_trans _ _ _ _ _ H5 H6) as O56.
    pose proof (continues_trans _ _ _ _ _ _ _ C14 (observes_continues _ _ _ O56)) as C16.
    injection Hc as <- <- <- <-. rewrite <- (ob_store _ _ _ O56) in C16. eexists. split; [exact C16|].
    rewrite (ob_store _ _ _ O56). eapply ce_committed; eauto; [apply O12|apply O56|]. by intros ? [= <-].
  - pose proof (continues_trans _ _ _ _ _ _ _ C14 (observes_continues _ _ _ H5)) as C16.
    injection Hc as <- <- <- <-. rewrite <- (ob_store _ _ _ H5) in C16. eexists. split; [exact C16|].
    rewrite (ob_store _ _ _ H5). eapply ce_committed; eauto; [apply O12|apply H5|done].
Qed.

(** ** [Commit] *)

(** The ways [Commit] ends. *)
Inductive commit_end (req : Request) (approval : option Approval) (s : T) :
    history -> T -> Outcome -> option goerr -> Prop :=
| me_refused new s' out e :
    quiet new -> same_view s s' -> OStatus out = StatusFailed ->
    commit_end req approval s new s' out (Some e)
| me_duplicate r prior new s' err :
    quiet new -> same_view s s' -> is_generation s req r ->
    done_at s (storeKey r) = Some prior ->
    commit_end req approval s new s' (set_status StatusDuplicate prior) err
| me_claimed r s1 s2 s3 aerr new out err (cm : bool) :
    is_generation s req r ->
    done_at s (storeKey r) = None -> held s (storeKey r) = false ->
    (forall k, done_at s1 k = done_at s k /\ held s1 k = String.eqb k (storeKey r) || held s k) ->
    claimed_end r approval s1 new s2 out err cm ->
    (if cm then (aerr, s3) = (None, s2) else AbortClaim (storeKey r) s2 = (aerr, s3)) ->
    commit_end req approval s new s3 out err.

Lemma Commit_inv req approval g out err g' :
  Commit env req approval g = ((out, err), g') ->
  exists new, g_trace g' = new ++ g_trace g /\
    t_conf <$> g_targets g' = t_conf <$> g_targets g /\
    commit_end req approval (g_store g) new (g_store g') out err.
Proof using Hlaw.
  unfold Commit. intros Hc.
  bind_step Hc t g0 H0. apply lookup_target_inv in H0 as [-> Ht].
  destruct t as [t|e].
  2: { injection Hc as <- <- <-. exists []. split; [done|]. split; [done|].
       by apply me_refused; [constructor| |]. }
  bind_step Hc rg g1 H1. destruct rg as [r gerr]. apply generation_inv in H1 as (Hv1 & C1 & Hgen).
  destruct gerr as [e|].
  { injection Hc as <- <- <-. exists []. split; [apply C1|]. split; [apply C1|].
    by apply me_refused; [constructor| |]. }
  specialize (Hgen eq_refl).
  bind_step Hc prior g2 H2. apply on_store_inv in H2 as [Hb C2]. apply Begin_law in Hb.
  pose proof (continues_trans _ _ _ _ _ _ _ C1 C2) as C12. cbn in C12.
  destruct prior as [[prior|]|e].
  - destruct Hb as [Hd Hv2]. bind_step Hc aerr g3 H3. apply audit_inv in H3.
    pose proof (continues_trans _ _ _ _ _ _ _ C12 H3) as C13.
    injection Hc as <- <- <-. eexists. split; [apply C13|]. split; [apply C13|].
    eapply me_duplicate; [by repeat constructor| |exact Hgen|].
    + rewrite (c_store _ _ _ _ H3). by eapply same_view_trans.
    + by destruct (Hv1 (storeKey r)) as [<- _].
  - destruct Hb as (Hd & Hh & Hv2).
    bind_step Hc ce g3 H3. destruct ce as [[out' err'] cm]. apply commit_claimed_inv in H3 as (new & C3 & Hend).
    pose proof (continues_trans _ _ _ _ _ _ _ C12 C3) as C13. rewrite app_nil_r in C13.
    bind_step Hc aerr g4 H4. injection Hc as <- <- <-.
    assert (C14 : g_trace g4 = new ++ g_trace g /\ t_conf <$> g_targets g4 = t_conf <$> g_targets g /\
                  (if cm then (aerr, g_store g4) = (None, g_store g3)
                   else AbortClaim (storeKey r) (g_store g3) = (aerr, g_store g4))).
    { destruct cm.
      - injection H4 as -> <-. split; [apply C13|]. split; [apply C13|done].
      - apply on_store_inv in H4 as [Ha C4]. pose proof (continues_trans _ _ _ _ _ _ _ C13 C4) as C14.
        split; [apply C14|]. split; [apply C14|done]. }
    destruct C14 as (C4 & Ct & Ha). exists new. split; [done|]. split; [done|].
    destruct (Hv1 (storeKey r)) as [Ed Eh].
    apply (me_claimed req approval (g_store g) r (g_store g2) (g_store g3) (g_store g4) aerr new out' err' cm);
      try done; try congruence.
    intros k. destruct (Hv2 k) as [-> ->], (Hv1 k) as [-> ->]. done.
  - injection Hc as <- <- <-. exists []. split; [apply C12|]. split; [apply C12|].
    apply me_refused; [constructor|by eapply same_view_trans|done].
Qed.

(** At most one commit, of the arguments given, with its fate audited. *)
Lemma commit_calls_in who op key req calls res err tgt op' key' payload r :
  commit_calls who op key req calls res err -> EvCommit tgt op' key' payload r ∈ calls ->
  tgt = RTarget req /\ op' = op /\ key' = key /\ payload = RPayload req /\
  exists data aerr,
    EvAudit who (if is_ok r then "writeback.committed" else "writeback.failed") data aerr ∈ calls.
Proof.
  intros [] Hin; repeat (apply elem_of_cons in Hin as [Hin|Hin]; [try discriminate Hin|]);
    try (by apply elem_of_nil in Hin);
    injection Hin as -> -> -> -> ->; repeat split; do 2 eexists; left.
Qed.

Definition commit_count (h : history) : nat := List.length (List.filter is_commit h).

Lemma commit_count_quiet h : quiet h -> commit_count h = 0.
Proof.
  unfold commit_count. induction 1 as [|e h He Hh IH]; cbn; [done|]. by rewrite He.
Qed.

Lemma commit_count_app h1 h2 : commit_count (h1 ++ h2) = commit_count h1 + commit_count h2.
Proof. unfold commit_count. by rewrite List.filter_app, List.length_app. Qed.

Lemma commit_calls_count who op key req calls res err :
  commit_calls who op key req calls res err -> commit_count calls <= 1.
Proof. intros []; cbn; lia. Qed.

(** The decisions and approvals before a commit, and its audit after it, when the
    claimed write's calls contain one. *)
Lemma claimed_end_commit req approval s new s' out err cm tgt op key payload r :
  claimed_end req approval s new s' out err cm -> EvCommit tgt op key payload r ∈ new ->
  tgt = RTarget req /\ op = ROperation req /\ key = RKey req /\ payload = RPayload req /\
  exists after before data aerr, new = after ++ before /\ quiet before /\ cleared req approval before /\
    EvAudit (actor req) (if is_ok r then "writeback.committed" else "writeback.failed") data aerr ∈ after.
Proof.
  assert (Hmain : forall after calls before res cerr,
    quiet after -> quiet before -> cleared req approval before ->
    commit_calls (actor req) (ROperation req) (RKey req) req calls res cerr ->
    EvCommit tgt op key payload r ∈ after ++ calls ++ before ->
    tgt = RTarget req /\ op = ROperation req /\ key = RKey req /\ payload = RPayload req /\
    exists after' before' data aerr, after ++ calls ++ before = after' ++ before' /\ quiet before' /\
      cleared req approval before' /\
      EvAudit (actor req) (if is_ok r then "writeback.committed" else "writeback.failed") data aerr ∈ after').
  { intros after calls before res cerr Hqa Hqb Hcl Hcalls Hin.
    rewrite !elem_of_app in Hin. destruct Hin as [Hin|[Hin|Hin]];
      [by apply quiet_no_commit in Hin| |by apply quiet_no_commit in Hin].
    destruct (commit_calls_in _ _ _ _ _ _ _ _ _ _ _ _ Hcalls Hin) as (-> & -> & -> & -> & data & aerr & Ha).
    split; [done|]. split; [done|]. split; [done|]. split; [done|].
    exists (after ++ calls), before, data, aerr. split; [by rewrite app_assoc|].
    split; [done|]. split; [done|].
    apply elem_of_app. by right. }
  intros Hend Hin. destruct Hend.
  - by apply quiet_no_commit in Hin.
  - apply (Hmain [] calls before res (Some e)); try done. constructor.
  - apply (Hmain [] calls before res None); try done. constructor.
  - by apply (Hmain after calls before res None).
Qed.

Lemma claimed_end_count req approval s new s' out err cm :
  claimed_end req approval s new s' out err cm -> commit_count new <= 1.
Proof.
  intros Hend. destruct Hend as [new out e Hq _|before calls res out e Hq _ Hc _|
    before calls res e s' Hq _ Hc _|before calls after res err s' Hq _ Hqa Hc _ _];
    rewrite ?commit_count_app, ?(commit_count_quiet before), ?(commit_count_quiet after) by done.
  - rewrite commit_count_quiet by done. lia.
  - apply commit_calls_count in Hc. lia.
  - apply commit_calls_count in Hc. lia.
  - apply commit_calls_count in Hc. lia.
Qed.

(** A commit among the calls of [Commit], and what stands before and after it. *)
Lemma Commit_cleared req approval g out err g' :
  Commit env req approval g = ((out, err), g') ->
  exists new, g_trace g' = new ++ g_trace g /\ commit_count new <= 1 /\
  forall tgt op key payload r, EvCommit tgt op key payload r ∈ new ->
    exists rq, is_generation (g_store g) req rq /\
    tgt = RTarget req /\ op = ROperation req /\ key = RKey rq /\ payload = RPayload req /\
    exists after before data aerr, new = after ++ before /\ quiet before /\
      cleared rq approval before /\
      EvAudit (actor req) (if is_ok r then "writeback.committed" else "writeback.failed") data aerr ∈ after.
Proof using Hlaw.
  intros Hc. apply Commit_inv in Hc as (new & Htr & _ & Hend). exists new. split; [done|].
  destruct Hend as [new s' out e Hq _ _|r prior new s' err Hq _ _ _|r s1 s2 s3 aerr new out err cm Hg _ _ _ Hcl _].
  - split; [by rewrite commit_count_quiet; [lia|]|]. intros. quiet_absurd.
  - split; [by rewrite commit_count_quiet; [lia|]|]. intros. quiet_absurd.
  - split; [by eapply claimed_end_count|]. intros tgt op key payload res Hin.
    destruct (is_generation_with_key _ _ _ Hg) as [k ->].
    apply (claimed_end_commit _ _ _ _ _ _ _ _ _ _ _ _ _ Hcl) in Hin
      as (-> & -> & -> & -> & after & before & data & ae & Hn & Hqb & Hclr & Ha).
    exists (with_key req k). split; [done|]. do 4 (split; [done|]). by exists after, before, data, ae.
Qed.


(** What a claimed write leaves in the store, when the store's calls do not fail. *)
Lemma claimed_end_store `{!Reliable T} req approval s new s' out err cm :
  claimed_end req approval s new s' out err cm ->
  if cm then OStatus out = StatusCommitted /\
    forall k, done_at s' k = (if String.eqb k (storeKey req) then Some out else done_at s k) /\
              held s' k = negb (String.eqb k (storeKey req)) && held s k
  else OStatus out <> StatusCommitted /\ s' = s /\ is_Some err.
Proof using Hlaw.
  intros [new' out' e Hq Ho|before calls res out' e _ _ _ Ho|before calls res e s'' _ _ _ Hc|
          before calls after res err' s'' _ _ _ _ Hc _].
  - split; [|eauto]. intros E. rewrite E in Ho. by repeat (apply elem_of_cons in Ho as [Ho|Ho]; [discriminate Ho|]); apply elem_of_nil in Ho.
  - split; [|eauto]. congruence.
  - pose proof (Complete_total (storeKey req) (mkOutcome StatusCommitted res "" approval []) s) as Hn.
    by rewrite Hc in Hn.
  - split; [done|]. by apply Complete_law in Hc.
Qed.

(** A request has one generation. *)
Lemma is_generation_unique (s : T) req r1 r2 : is_generation s req r1 -> is_generation s req r2 -> r1 = r2.
Proof.
  unfold is_generation. case_match; [congruence|].
  intros (n & Hn & -> & Hu1 & Hm1) (m & Hm & -> & Hu2 & Hm2).
  assert (n = m) as ->; [|done].
  destruct (Z.lt_trichotomy n m) as [Hlt|[?|Hlt]]; [|done|].
  - exfalso. apply Hu1, Hm2. lia.
  - exfalso. apply Hu2, Hm1. lia.
Qed.

(** ** [compensate] *)

Inductive compensate_end (req : Request) (res : string) (s : T) : history -> T -> option goerr -> Prop :=
| pe_refused s' e : same_view s s' -> compensate_end req res s [] s' (Some e)
| pe_already r s' prior :
    RCompensation req <> "" -> same_view s s' -> is_generation s req r -> done_at s (compensateKey r) = Some prior ->
    compensate_end req res s [] s' None
| pe_failed r s1 calls res' e :
    is_generation s req r ->
    commit_calls "turgon/saga" (RCompensation req) (RKey r +++ "#compensate") (compensation_of r res)
      calls res' (Some e) ->
    compensate_end req res s calls (snd (AbortClaim (compensateKey r) s1)) (Some e)
| pe_committed r s1 s' calls res' err :
    RCompensation req <> "" -> is_generation s req r ->
    (forall k, done_at s1 k = done_at s k) ->
    commit_calls "turgon/saga" (RCompensation req) (RKey r +++ "#compensate") (compensation_of r res)
      calls res' None ->
    Complete (compensateKey r) (mkOutcome StatusCommitted res' "" None []) s1 = (err, s') ->
    compensate_end req res s calls s' err.

Lemma compensate_inv req res g err g' :
  compensate env req res g = (err, g') ->
  exists new, g_trace g' = new ++ g_trace g /\ compensate_end req res (g_store g) new (g_store g') err.
Proof using Hlaw.
  unfold compensate. destruct (g_targets g !! RTarget req) as [t|].
  2: { intros [= <- <-]. exists []. split; [done|]. by apply pe_refused. }
  destruct (String.eqb_spec (RCompensation req) "").
  { intros [= <- <-]. exists []. split; [done|]. by apply pe_refused. }
  intros Hc. bind_step Hc rg g1 H1. destruct rg as [r gerr]. apply generation_inv in H1 as (Hv1 & C1 & Hgen).
  destruct gerr as [e|].
  { injection Hc as <- <-. exists []. split; [apply C1|]. by apply pe_refused. }
  specialize (Hgen eq_refl). destruct (is_generation_with_key _ _ _ Hgen) as [k Ek].
  change (storeKey (compensation_of r res)) with (compensateKey r) in Hc.
  bind_step Hc prior g2 H2. apply on_store_inv in H2 as [Hb C2]. apply Begin_law in Hb.
  pose proof (continues_trans _ _ _ _ _ _ _ C1 C2) as C12. cbn in C12.
  destruct prior as [[prior|]|e].
  - destruct Hb as [Hd Hv2]. injection Hc as <- <-. exists []. split; [apply C12|].
    eapply pe_already; [done|by eapply same_view_trans|exact Hgen|].
    by destruct (Hv1 (compensateKey r)) as [<- _].
  - destruct Hb as (_ & _ & Hv2).
    bind_step Hc cc g3 H3. destruct cc as [res' cerr]. apply commit_inv in H3 as (calls & C3 & Hcalls).
    pose proof (continues_trans _ _ _ _ _ _ _ C12 C3) as C13. rewrite app_nil_r in C13.
    replace (ROperation (compensation_of r res)) with (RCompensation req) in Hcalls by (by rewrite Ek).
    destruct cerr as [e|].
    + bind_step Hc aerr g4 H4. apply on_store_inv in H4 as [Ha C4]. injection Hc as <- <-.
      exists calls. split; [apply (continues_trans _ _ _ _ _ _ _ C13 C4)|].
      replace (g_store g4) with (snd (AbortClaim (compensateKey r) (g_store g3))) by (by rewrite Ha).
      by eapply pe_failed.
    + apply on_store_inv in Hc as [Ha C4]. exists calls.
      split; [apply (continues_trans _ _ _ _ _ _ _ C13 C4)|].
      eapply pe_committed; [done|exact Hgen| |exact Hcalls|exact Ha].
      intros k'. rewrite (c_store _ _ _ _ C3). destruct (Hv2 k') as [-> _]. by destruct (Hv1 k') as [-> _].
  - injection Hc as <- <-. exists []. split; [apply C12|]. apply pe_refused. by eapply same_view_trans.
Qed.

(** Every recorded outcome is "committed", the only status the guard records. *)
Definition only_committed (s : T) : Prop :=
  forall k o, done_at s k = Some o -> OStatus o = StatusCommitted.

Lemma only_committed_complete k o s err s' :
  only_committed s -> OStatus o = StatusCommitted -> Complete k o s = (err, s') -> only_committed s'.
Proof using Hlaw.
  intros Hs Ho Hc. apply Complete_law in Hc. intros k' o'. destruct err as [e|].
  - destruct (Hc k') as [-> _]. apply Hs.
  - destruct (Hc k') as [-> _]. destruct (String.eqb k' k); [by intros [= <-]|apply Hs].
Qed.

(** A compensation that reports success committed, under the key of a generation
    not undone before, and recorded it. *)
Lemma compensate_commits req res g g' :
  only_committed (g_store g) -> compensate env req res g = (None, g') ->
  only_committed (g_store g') /\ (forall r', undone (g_store g) r' -> undone (g_store g') r') /\
  exists new r res', g_trace g' = new ++ g_trace g /\ is_generation (g_store g) req r /\
    ~ undone (g_store g) r /\ undone (g_store g') r /\
    EvCommit (RTarget req) (RCompensation req) (RKey r +++ "#compensate") res (Ok res') ∈ new.
Proof using Hlaw.
  intros Hs Hc. apply compensate_inv in Hc as (new & Htr & Hend).
  inversion Hend as [|r s' prior Hne Hv Hg Hd|r s1 calls res' e Hg Hcalls|r s1 s' calls res' err Hne Hg Hs1 Hcalls Hcp];
    subst.
  - exfalso. unfold is_generation in Hg. destruct (String.eqb_spec (RCompensation req) "") as [|Hc0]; [done|].
    destruct Hg as (n & _ & -> & Hu & _). apply Hu. exists prior. split; [exact Hd|]. by eapply Hs.
  - assert (Hs1' : only_committed s1) by (intros k o; rewrite Hs1; apply Hs).
    split; [eapply only_committed_complete; [exact Hs1'| |exact Hcp]; done|].
    split.
    { intros r' (o & Ho & Hoc). apply Complete_law in Hcp. destruct (Hcp (compensateKey r')) as [E _].
      unfold undone. rewrite E, Hs1. destruct (String.eqb _ _); [eexists; done|by exists o]. }
    exists new, r, res'. split; [done|]. split; [done|].
    pose proof Hg as Hg'. unfold is_generation in Hg'. destruct (String.eqb_spec (RCompensation req) "") as [|Hc0]; [done|].
    destruct Hg' as (n & _ & -> & Hu & _). split; [done|]. split.
    + apply Complete_law in Hcp. eexists. destruct (Hcp (compensateKey (with_key req (generation_key req n)))) as [-> _].
      rewrite String.eqb_refl. done.
    + inversion Hcalls; subst. apply elem_of_cons. right. cbn. apply elem_of_cons. by left.
Qed.

(** ** [generation] when lookups do not fail *)

Lemma generation_loop_exhausted `{!Reliable T} fuel n req g r e g' :
  RCompensation req <> "" ->
  Z.of_nat fuel = (maxGenerations - n + 1)%Z -> (2 <= n)%Z ->
  (forall m, (1 <= m < n - 1)%Z -> undone (g_store g) (with_key req (generation_key req m))) ->
  generation_loop fuel n req (with_key req (generation_key req (n - 1))) g = ((r, Some e), g') ->
  errors_is e ErrInvalid = true /\
  forall m, (1 <= m < maxGenerations)%Z -> undone (g_store g) (with_key req (generation_key req m)).
Proof using Hlaw.
  intros Hcomp. revert n g. induction fuel as [|fuel IH]; intros n g Hf Hn Hm Hg; cbn [generation_loop] in Hg.
  { injection Hg as <- <- <-. split; [done|]. intros m Hlt. apply Hm. lia. }
  bind_step Hg undo g1 H1. apply on_store_inv in H1 as [Hl _].
  pose proof (Lookup_total (compensateKey (with_key req (generation_key req (n - 1)))) (g_store g)) as Htot.
  rewrite Hl in Htot. apply Lookup_law in Hl as [Hv Hres].
  destruct undo as [[o|]|e']; [|done|done].
  case_decide as Ho; [|done]. specialize (Hres _ eq_refl).
  rewrite with_key_twice in Hg.
  assert (Hkey : RKey req +++ "~" +++ itoa n = generation_key req (n + 1 - 1)).
  { unfold generation_key. replace (n + 1 - 1)%Z with n by lia. destruct (Z.eqb_spec n 1); [lia|done]. }
  rewrite Hkey in Hg. apply IH in Hg as [He Hall]; try lia.
  - split; [done|]. intros m Hlt. apply (same_view_undone _ _ _ Hv). auto.
  - intros m Hlt. apply (same_view_undone _ _ _ Hv).
    destruct (decide (m = n - 1)%Z) as [->|]; [|apply Hm; lia]. exists o. by rewrite <- Hres.
Qed.

(** ** [Read] *)

Definition is_read (e : event) : bool := match e with EvRead _ _ _ _ => true | _ => false end.

Definition read_input (q : ReadRequest) : Input :=
  mkInput "" (mkTool (QTool q) RiskRead) (QSubject q) (mkAction (QEntity q) 0%float) noApproval.

Definition read_actor (q : ReadRequest) : string :=
  if Agent (QSubject q) && negb (String.eqb (OnBehalfOf (QSubject q)) "")
  then SubjID (QSubject q) +++ " for " +++ OnBehalfOf (QSubject q) else SubjID (QSubject q).

(** What the audit log keeps of a read. *)
Definition read_record (q : ReadRequest) (r : result string) : adata :=
  [("target", AStr (QTarget q)); ("operation", AStr (QOperation q)); ("tool", AStr (QTool q));
   ("id", AStr (QID q)); ("found", ABool (is_ok r))].

(** The calls of a read: none of the target, or one between the recorded decision
    that allows it and its own record. *)
Inductive read_calls (q : ReadRequest) : history -> string -> option goerr -> Prop :=
| rc_refused new e :
    Forall (fun e => is_read e = false) new -> quiet new -> read_calls q new "" (Some e)
| rc_read dec dd r aerr data err :
    Allow dec = true -> Denied dec = false -> (err = None -> r = Ok data) ->
    read_calls q
      [EvAudit (read_actor q) "read" (read_record q r) aerr;
       EvRead (QTarget q) (QOperation q) (QID q) r;
       EvAcquire (QTarget q) true;
       EvAudit (read_actor q) "policy.decision" dd None;
       EvDecide (read_input q) (Ok dec)] data err.

Lemma Read_inv q g data err g' :
  Read env q g = ((data, err), g') ->
  exists new, continues g g' new (g_store g) /\ read_calls q new data err.
Proof.
  unfold Read. destruct (g_targets g !! QTarget q) as [t|].
  2: { intros [= <- <- <-]. exists []. split; [done|]. apply rc_refused; constructor. }
  destruct (e_read env (QTarget q)) as [read|].
  2: { intros [= <- <- <-]. exists []. split; [done|]. apply rc_refused; constructor. }
  fold (read_actor q) (read_input q). cbv zeta.
  intros Hr. bind_step Hr dd g1 Hd. destruct dd as [dec derr].
  apply decide_inv in Hd as (n1 & O1 & Hdec & (rd & aud & En1 & Haud)).
  pose proof (observes_continues _ _ _ O1) as C1. pose proof (ob_store _ _ _ O1) as S1.
  assert (Hn1 : Forall (fun e => is_read e = false) n1).
  { rewrite En1. destruct Haud as [->|(? & ? & ->)]; repeat constructor. }
  destruct derr as [e|].
  { injection Hr as <- <- <-. exists n1. split; [done|]. apply rc_refused; [done|apply O1]. }
  destruct (Hdec eq_refl) as [ddata En]. clear Hdec rd aud En1 Haud.
  destruct (Denied dec) eqn:Eden; cbn [orb] in Hr.
  { injection Hr as <- <- <-. exists n1. split; [done|]. apply rc_refused; [done|apply O1]. }
  destruct (Allow dec) eqn:Eall; cbn [negb] in Hr.
  2: { injection Hr as <- <- <-. exists n1. split; [done|]. apply rc_refused; [done|apply O1]. }
  bind_step Hr ok g2 H2. apply brk_allow_inv in H2.
  pose proof (continues_trans _ _ _ _ _ _ _ C1 H2) as C2. cbn [app] in C2. rewrite S1 in C2.
  destruct ok; cbn [negb] in Hr.
  2: { injection Hr as <- <- <-. exists n1. split; [done|]. apply rc_refused; [done|apply O1]. }
  bind_step Hr ok g3 H3. apply gov_acquire_inv in H3.
  pose proof (continues_trans _ _ _ _ _ _ _ C2 H3) as C3. rewrite (c_store _ _ _ _ C2) in C3.
  destruct ok; cbn [negb] in Hr.
  2: { bind_step Hr e g4 H4. injection H4 as _ <-. injection Hr as <- <- <-. eexists. split; [exact C3|].
       apply rc_refused; [by constructor|]. constructor; [done|apply O1]. }
  bind_step Hr r g4 H4. apply ask_inv in H4 as [_ H4].
  bind_step Hr u g5 H5. apply gov_release_inv in H5.
  bind_step Hr u6 g6 H6.
  assert (H6' : continues g5 g6 [] (g_store g5)).
  { destruct r as [x|e]; [by apply brk_success_inv in H6|].
    destruct (errors_is e ErrNotFound); [by apply brk_success_inv in H6|by apply brk_failure_inv in H6]. }
  clear H6. bind_step Hr aerr g7 H7. apply audit_inv in H7. chain.
  assert (g7 = g' /\ (err = None -> r = Ok data)) as [<- Hok].
  { destruct aerr as [e|]; [|destruct r as [x|e]]; injection Hr as <- <- <-; done. }
  eexists. split; [eassumption|]. rewrite En. by apply rc_read.
Qed.
End Commits.
