(* ===== verification/GuardTheorems.v ===== *)
(** The write guard's properties, for any store that keeps its promises and any
    outside world, and the runs that witness them. *)

From S2P Require Import Turgon Prelude GoStr GoErr Policy GuardData Idempotency Governor Guard GuardProps.
From Stdlib Require Import String.

(** * Properties *)

(** C2: Nothing reaches a target's system of record unless it is allowed. If a run
    of [Commit] calls the target's commit, it does so once, for the request's own
    target, operation and payload under the key of its current generation, and only
    after policy allowed that very write (with the approval given, if any), the
    decision was recorded in the audit log, an approval was given wherever policy
    or the request asks for one, and a given approval was granted and recorded;
    afterwards its success or failure is written to the audit log. *)
Theorem Commit_only_when_cleared {T} `{StoreLaws T} (env : Env) (req : Request)
    (approval : option Approval) (g g' : Guard T) (out : Outcome) (err : option goerr) :
  Commit env req approval g = ((out, err), g') ->
  exists new, g_trace g' = new ++ g_trace g /\ commit_count new <= 1 /\
  forall tgt op key payload r, EvCommit tgt op key payload r ∈ new ->
    exists rq, is_generation (g_store g) req rq /\
    tgt = RTarget req /\ op = ROperation req /\ key = RKey rq /\ payload = RPayload req /\
    exists after before data aerr, new = after ++ before /\ quiet before /\
      cleared rq approval before /\
      EvAudit (actor req) (if is_ok r then "writeback.committed" else "writeback.failed") data aerr ∈ after.
Proof. apply Commit_cleared. Qed.

(** A write leaves every claim as it found it and records only what committed.
    With a store whose calls do not fail, after any run of [Commit] exactly the keys
    claimed before are claimed; and either nothing is recorded and the outcome is
    not "committed", or the outcome is "committed" and recorded, under the key of
    the request's generation, and nothing else changed. *)
Theorem Commit_keeps_claims {T} `{StoreLaws T} `{!Reliable T} (env : Env) (req : Request)
    (approval : option Approval) (g g' : Guard T) (out : Outcome) (err : option goerr) :
  Commit env req approval g = ((out, err), g') ->
  (forall k, held (g_store g') k = held (g_store g) k) /\
  (OStatus out <> StatusCommitted /\ (forall k, done_at (g_store g') k = done_at (g_store g) k) \/
   OStatus out = StatusCommitted /\ exists r, is_generation (g_store g) req r /\
     done_at (g_store g) (storeKey r) = None /\
     forall k, done_at (g_store g') k =
       if String.eqb k (storeKey r) then Some out else done_at (g_store g) k).
Proof.
  intros Hc. apply Commit_inv in Hc as (new & _ & _ & Hend).
  destruct Hend as [new s' out e _ Hv Ho|r prior new s' err _ Hv _ _|
                    r s1 s2 s3 aerr new out err cm Hg Hd Hh Hs1 Hcl Hab].
  - split; [intros k; apply Hv|]. left. split; [congruence|intros k; apply Hv].
  - split; [intros k; apply Hv|]. left. split; [done|intros k; apply Hv].
  - apply claimed_end_store in Hcl. destruct cm.
    + injection Hab as -> ->. destruct Hcl as [Ho Hs2]. split.
      * intros k. destruct (Hs2 k) as [_ ->], (Hs1 k) as [_ ->].
        destruct (String.eqb_spec k (storeKey r)) as [->|]; cbn; congruence.
      * right. split; [done|]. exists r. split; [done|]. split; [done|]. intros k.
        destruct (Hs2 k) as [-> _], (Hs1 k) as [-> _]. done.
    + destruct Hcl as (Ho & -> & _). pose proof (Abort_total (storeKey r) s1) as Ha.
      rewrite Hab in Ha. cbn in Ha. subst aerr. apply Abort_law in Hab. split.
      * intros k. destruct (Hab k) as [_ ->], (Hs1 k) as [_ ->].
        destruct (String.eqb_spec k (storeKey r)) as [->|]; cbn; congruence.
      * left. split; [done|]. intros k. by destruct (Hab k) as [-> _], (Hs1 k) as [-> _].
Qed.

(** A write that already committed is answered, not repeated: once an outcome is
    recorded under the key of a request's generation, [Commit] calls no target,
    changes nothing in the store and returns that outcome as a duplicate (or fails
    because the store or the audit log did). *)
Theorem Commit_answers_duplicates {T} `{StoreLaws T} (env : Env) (req r : Request)
    (approval : option Approval) (g g' : Guard T) (prior out : Outcome) (err : option goerr) :
  is_generation (g_store g) req r -> done_at (g_store g) (storeKey r) = Some prior ->
  Commit env req approval g = ((out, err), g') ->
  same_view (g_store g) (g_store g') /\
  (exists new, g_trace g' = new ++ g_trace g /\ quiet new) /\
  (out = set_status StatusDuplicate prior \/ OStatus out = StatusFailed /\ is_Some err).
Proof.
  intros Hg Hd Hc. apply Commit_inv in Hc as (new & Htr & _ & Hend).
  destruct Hend as [new s' out e Hq Hv Ho|r' prior' new s' err Hq Hv Hg' Hd'|r' s1 s2 s3 aerr new out err cm Hg' Hd' _ _ _ _].
  - split; [done|]. split; [eauto|]. right. eauto.
  - split; [done|]. split; [eauto|]. left. rewrite (is_generation_unique _ _ _ _ Hg Hg') in Hd. congruence.
  - rewrite (is_generation_unique _ _ _ _ Hg Hg') in Hd. congruence.
Qed.

(** [Prepare] only looks. It commits nothing, claims nothing, records nothing in
    the store and leaves governors, breakers and the meter alone; a write it
    prepares is either a duplicate answered from the store, or one that policy has
    decided on for the request's generation, did not deny, and allows or sends to a
    person; it needs approval whenever policy or the request asks for one, and
    whenever the dry run's amount does not agree with the request's. *)
Theorem Prepare_only_looks {T} `{StoreLaws T} (env : Env) decode_json parse_float sprintf
    (req : Request) (g g' : Guard T) (p : Prepared) (err : option goerr) :
  Prepare env decode_json parse_float sprintf req g = ((p, err), g') ->
  same_view (g_store g) (g_store g') /\ g_targets g' = g_targets g /\ g_metered g' = g_metered g /\
  exists new, g_trace g' = new ++ g_trace g /\ quiet new /\
    (err = None -> prepared_for decode_json parse_float (g_store g) req new p).
Proof.
  intros Hp. apply Prepare_inv in Hp as (Hv & new & Htr & Hq & Ht & Hm & Hpre).
  split; [done|]. split; [done|]. split; [done|]. by exists new.
Qed.

(** C24: [Execute] asks a person before it commits. If a run of it calls the target's
    commit, the write had been prepared without error and was no duplicate; when
    policy, the request or a dry run's differing amount called for a person, the
    configured approver was then asked about this very request and its preview and
    reasons; and with that answer (approved, by [cleared]) or with none, everything
    a commit needs was in place before it. *)
Theorem Execute_asks_first {T} `{StoreLaws T} (env : Env) decode_json parse_float sprintf
    (req : Request) (g g' : Guard T) (out : Outcome) (err : option goerr) :
  Execute env decode_json parse_float sprintf req g = ((out, err), g') ->
  exists new, g_trace g' = new ++ g_trace g /\ commit_count new <= 1 /\
  forall tgt op key payload r, EvCommit tgt op key payload r ∈ new ->
    tgt = RTarget req /\ op = ROperation req /\ payload = RPayload req /\
    exists p rq approval after before asked prep,
      new = after ++ before ++ asked ++ prep /\ EvCommit tgt op key payload r ∈ after /\
      prepared_for decode_json parse_float (g_store g) req prep p /\ PDuplicate p = None /\
      match approval with
      | Some a => asked = [EvApprove (mkApprovalRequest req (PPreview p) (Reasons (PDecision p))) (Ok a)]
      | None => asked = [] /\ PNeedsApproval p = false
      end /\
      key = RKey rq /\ cleared rq approval before.
Proof.
  unfold Execute. intros Hx. bind_step Hx pe g1 Hp. destruct pe as [p perr].
  apply Prepare_inv in Hp as (Hv & prep & Htr & Hq & _ & _ & Hpre).
  destruct perr as [e|].
  { injection Hx as <- <- <-. exists prep. split; [done|]. split; [rewrite commit_count_quiet; [lia|done]|].
    intros. quiet_absurd. }
  specialize (Hpre eq_refl).
  destruct (PDuplicate p) as [dup|] eqn:Edup.
  { injection Hx as <- <- <-. exists prep. split; [done|]. split; [rewrite commit_count_quiet; [lia|done]|].
    intros. quiet_absurd. }
  assert (Hfin : forall approval asked g2,
    g_trace g2 = asked ++ g_trace g1 -> quiet asked ->
    match approval with
    | Some a => asked = [EvApprove (mkApprovalRequest req (PPreview p) (Reasons (PDecision p))) (Ok a)]
    | None => asked = [] /\ PNeedsApproval p = false
    end ->
    (('(out, err) ← Commit env req approval; mret (set_preview (PPreview p) out, err)) : M _) g2 = (out, err, g') ->
    exists new, g_trace g' = new ++ g_trace g /\ commit_count new <= 1 /\
    forall tgt op key payload r, EvCommit tgt op key payload r ∈ new ->
      tgt = RTarget req /\ op = ROperation req /\ payload = RPayload req /\
      exists p rq approval after before asked prep,
        new = after ++ before ++ asked ++ prep /\ EvCommit tgt op key payload r ∈ after /\
        prepared_for decode_json parse_float (g_store g) req prep p /\ PDuplicate p = None /\
        match approval with
        | Some a => asked = [EvApprove (mkApprovalRequest req (PPreview p) (Reasons (PDecision p))) (Ok a)]
        | None => asked = [] /\ PNeedsApproval p = false
        end /\
        key = RKey rq /\ cleared rq approval before).
  { intros approval asked g2 Htr2 Hqa Hasked Hc. bind_step Hc oe g3 Hco. destruct oe as [o e].
    apply Commit_cleared in Hco as (newc & Htr3 & Hcount & Hin). injection Hc as _ _ <-.
    exists (newc ++ asked ++ prep). split; [by rewrite Htr3, Htr2, Htr, !app_assoc|].
    split.
    { rewrite !commit_count_app, (commit_count_quiet asked), (commit_count_quiet prep) by done. lia. }
    intros tgt op key payload r Hev. rewrite !elem_of_app in Hev.
    destruct Hev as [Hev|[Hev|Hev]]; [|quiet_absurd..].
    destruct (Hin _ _ _ _ _ Hev) as (rq & _ & -> & -> & -> & -> & after & before & data & aerr & Hn & Hqb & Hcl & _).
    split; [done|]. split; [done|]. split; [done|].
    exists p, rq, approval, after, before, asked, prep. rewrite Hn, <- app_assoc. split; [done|].
    split; [|done]. rewrite Hn, elem_of_app in Hev. destruct Hev as [Hev|Hev]; [done|].
    quiet_absurd. }
  cbv zeta in Hx. destruct (PNeedsApproval p) eqn:En.
  2: { by apply (Hfin None [] g1) in Hx; [|done|constructor|]. }
  destruct (e_approve env) as [approve|].
  2: { injection Hx as <- <- <-. exists prep. split; [done|]. split; [rewrite commit_count_quiet; [lia|done]|].
       intros. quiet_absurd. }
  bind_step Hx a g2 Ha. apply ask_observes in Ha; [|done]. destruct a as [a|e].
  - apply (Hfin (Some a) [EvApprove (mkApprovalRequest req (PPreview p) (Reasons (PDecision p))) (Ok a)] g2) in Hx;
      [done|apply Ha|by repeat constructor|done].
  - injection Hx as <- <- <-. eexists (_ ++ prep). split; [by rewrite (ob_trace _ _ _ Ha), Htr, app_assoc|].
    assert (Hq' : quiet ([EvApprove (mkApprovalRequest req (PPreview p) (Reasons (PDecision p))) (Err e)] ++ prep))
      by (by constructor).
    split; [rewrite commit_count_quiet; [lia|done]|]. intros. quiet_absurd.
Qed.

(** A retried write gets the first key that is not undone. When the store's
    lookups do not fail, [generation] ends within its bound: it answers the request
    under its own key or the first of "key~2", "key~3", ... whose compensation has
    not committed, the same whoever asks, or refuses the write as invalid exactly
    when all 49 were undone; it changes nothing. *)
Theorem generation_first_not_undone {T} `{StoreLaws T} `{!Reliable T} (env : Env) (req r : Request)
    (g g' : Guard T) (err : option goerr) :
  generation req g = ((r, err), g') ->
  same_view (g_store g) (g_store g') /\ g_trace g' = g_trace g /\ g_targets g' = g_targets g /\
  match err with
  | None => is_generation (g_store g) req r /\ forall r', is_generation (g_store g) req r' -> r' = r
  | Some e => errors_is e ErrInvalid = true /\
      (forall m, (1 <= m < maxGenerations)%Z -> undone (g_store g) (with_key req (generation_key req m)))
  end.
Proof.
  intros Hg. pose proof (generation_targets _ _ _ _ Hg) as [Ht _].
  pose proof (generation_inv _ _ _ _ _ Hg) as (Hv & Hc & Hgen).
  split; [done|]. split; [apply Hc|]. split; [done|]. destruct err as [e|].
  - unfold generation in Hg. destruct (String.eqb_spec (RCompensation req) "") as [|Hne]; [done|].
    apply (generation_loop_exhausted (Z.to_nat (maxGenerations - 1)) 2 req g r e g'); try done.
    + intros m Hlt. lia.
    + change (2 - 1)%Z with 1%Z. by rewrite with_key_self.
  - split; [auto|]. intros r' Hr'. by eapply is_generation_unique; [|apply Hgen].
Qed.

(** Compensating twice undoes twice, although compensations are meant to be
    idempotent under a derived key. That key moves with the generation, and the
    first compensation is what moves it: after a compensation that reported success,
    running the same compensation again and getting success has called the target's
    commit a second time, with the same payload under another key. *)
Theorem compensation_not_idempotent {T} `{StoreLaws T} (env : Env) (req : Request) (res : string)
    (g g1 g2 : Guard T) :
  only_committed (g_store g) ->
  compensate env req res g = (None, g1) -> compensate env req res g1 = (None, g2) ->
  exists new1 new2 k1 k2 res1 res2,
    g_trace g2 = new2 ++ new1 ++ g_trace g /\ k1 <> k2 /\
    EvCommit (RTarget req) (RCompensation req) k1 res (Ok res1) ∈ new1 /\
    EvCommit (RTarget req) (RCompensation req) k2 res (Ok res2) ∈ new2.
Proof.
  intros Hs H1c H2c.
  apply compensate_commits in H1c as (Hs1 & _ & new1 & r1 & res1 & Ht1 & Hg1 & _ & Hu1 & Hin1); [|done].
  apply compensate_commits in H2c as (_ & _ & new2 & r2 & res2 & Ht2 & Hg2 & Hn2 & _ & Hin2); [|done].
  exists new1, new2, (RKey r1 +++ "#compensate"), (RKey r2 +++ "#compensate"), res1, res2.
  split; [by rewrite Ht2, Ht1|]. split; [|done].
  intros E. apply Hn2.
  destruct (is_generation_with_key _ _ _ Hg1) as [k1 ->], (is_generation_with_key _ _ _ Hg2) as [k2 ->].
  unfold undone, compensateKey in *. cbn in *. by rewrite <- E.
Qed.

(** A cancelled trial blocks a target for good. When the cooldown has passed, the
    one trial request takes the half-open slot before it waits for the governor; if
    its context ends during that wait, it reports neither success nor failure, and
    from then on every commit on the target is refused as "circuit open", at any
    time and in any environment, without changing anything. *)
Theorem cancelled_trial_blocks_target {T} `{Store T} (env : Env) (t : target) (who op key : string)
    (req : Request) (g g' : Guard T) (tg : target) (r : string * option goerr) :
  g_targets g !! RTarget req = Some tg -> open (t_brk tg) = true ->
  (brk_Cooldown (t_brk tg) <= time_sub (e_now env (g_trace g)) (openedAt (t_brk tg)))%Z ->
  e_slot env (g_trace g) (RTarget req) = NoSlot ->
  commit env t who op key req g = (r, g') ->
  forall env' t' who' op' key' req', RTarget req' = RTarget req ->
  commit env' t' who' op' key' req' g' =
    ("", Some (Wrapf (Msg "writeguard: %s: %w" [FStr (RTarget req)]) [Sentinel ErrCircuitOpen]), g').
Proof.
  intros Ht Ho Hcd Hslot Hc env' t' who' op' key' req' Etgt.
  assert (Hstuck : exists tg', g_targets g' !! RTarget req = Some tg' /\
            open (t_brk tg') = true /\ trial (t_brk tg') = true).
  { unfold commit in Hc. bind_step Hc ok g1 Ha. unfold brk_allow, on_target in Ha. rewrite Ht in Ha.
    unfold allow in Ha. rewrite Ho in Ha. cbn [negb] in Ha.
    destruct (trial (t_brk tg)) eqn:Etr; cbn [negb andb] in Ha.
    - injection Ha as <- <-. cbn in Hc. injection Hc as _ <-. cbn. rewrite lookup_insert_eq. eauto.
    - destruct (Z.leb_spec (brk_Cooldown (t_brk tg)) (time_sub (e_now env (g_trace g)) (openedAt (t_brk tg))));
        [|lia].
      injection Ha as <- <-. cbn [negb] in Hc.
      bind_step Hc ok g2 Hacq. unfold gov_acquire in Hacq. cbn [g_trace] in Hacq. rewrite Hslot in Hacq.
      bind_step Hacq ok' g3 Hon. unfold on_target in Hon. cbn [g_targets] in Hon.
      rewrite lookup_insert_eq in Hon. cbn in Hon. injection Hon as <- <-.
      unfold ask in Hacq. injection Hacq as <- <-. cbn [negb] in Hc.
      bind_step Hc e g4 He. injection He as _ <-. injection Hc as _ <-.
      cbn [g_targets]. rewrite lookup_insert_eq. eexists. by split. }
  destruct Hstuck as (tg' & Ht' & Ho' & Htr').
  unfold commit, mbind, M_bind, brk_allow, on_target. rewrite Etgt, Ht'.
  rewrite trial_refuses by done. cbn [negb]. unfold mret, M_ret.
  repeat f_equal. destruct g' as [ts st mt tr], tg' as [c gv b]. cbn in *. f_equal.
  by apply insert_id.
Qed.

(** Reads are governed too. [Read] touches no store and commits nothing; it asks
    the target only after a recorded policy decision that allows the read and does
    not deny it, and the audit log then says who read which record and whether it
    was found, never what was read; without an error the data is the target's. *)
Theorem Read_governed {T} `{StoreLaws T} (env : Env) (q : ReadRequest) (g g' : Guard T)
    (data : string) (err : option goerr) :
  Read env q g = ((data, err), g') ->
  g_store g' = g_store g /\ exists new, g_trace g' = new ++ g_trace g /\ quiet new /\
  (err = None -> EvRead (QTarget q) (QOperation q) (QID q) (Ok data) ∈ new) /\
  forall tgt op id r, EvRead tgt op id r ∈ new ->
    tgt = QTarget q /\ op = QOperation q /\ id = QID q /\
    exists after before dec dd aerr, new = after ++ before /\
      EvDecide (read_input q) (Ok dec) ∈ before /\
      EvAudit (read_actor q) "policy.decision" dd None ∈ before /\
      Allow dec = true /\ Denied dec = false /\
      EvAudit (read_actor q) "read" (read_record q r) aerr ∈ after.
Proof.
  intros Hr. apply Read_inv in Hr as (new & C & Hcalls).
  split; [apply C|]. exists new. split; [apply C|].
  destruct Hcalls as [new e Hn Hq|dec dd r aerr data err Hal Hden Hok].
  - split; [done|]. split; [done|]. intros tgt op id r Hin. exfalso.
    rewrite Forall_forall in Hn. by apply Hn in Hin.
  - split; [by repeat constructor|]. split; [intros E; rewrite (Hok E); right; left|].
    intros tgt op id r' Hin. repeat (apply elem_of_cons in Hin as [Hin|Hin]; [try discriminate Hin|]);
      [|by apply elem_of_nil in Hin].
    injection Hin as -> -> -> ->. do 3 (split; [done|]).
    exists [EvAudit (read_actor q) "read" (read_record q r) aerr;
            EvRead (QTarget q) (QOperation q) (QID q) r; EvAcquire (QTarget q) true],
      [EvAudit (read_actor q) "policy.decision" dd None; EvDecide (read_input q) (Ok dec)], dec, dd, aerr.
    split; [done|]. split; [right; left|]. split; [left|]. do 2 (split; [done|]). left.
Qed.

(** * Runs *)

Lemma triple {A B C} (x : A * B * C) : x = (x.1.1, x.1.2, x.2).
Proof. by destruct x as [[? ?] ?]. Qed.

Lemma pair_fst {A B} (x : A * B) a : x.1 = a -> x = (a, x.2).
Proof. intros <-. by destruct x. Qed.

Lemma triple_fst {A B C} (x : A * B * C) a : x.1.1 = a -> x = (a, x.1.2, x.2).
Proof. intros <-. apply triple. Qed.

(** A world in which policy is the default one, the approver approves and every other
    call succeeds. *)
Definition calm (audit : history -> string -> string -> adata -> option goerr)
    (slot : history -> string -> acquire_script) (now : history -> Z) : Env :=
  mkEnv now (fun _ i => Ok (Decide 0 i)) audit None
    (Some (fun _ _ => Ok (mkApproval ApprovalApproved "eve" "looks right")))
    slot (fun _ => Sentinel "context canceled")
    (fun _ _ _ _ => Err (Sentinel ErrSimulationUnsupported))
    (fun _ _ _ key _ => Ok ("document for " +++ key)) (fun _ => None)
    (fun _ => Some (fun _ _ id => Ok ("record " +++ id))).

Definition calm_env : Env := calm (fun _ _ _ _ => None) (fun _ _ => Slot 0 []) (fun _ => 0%Z).

Definition erp : target :=
  mkTarget (mkTargetConfig true 10%float 2 true) (newGovernor 10%float 2 0) (newBreaker 0 0).

Definition guard0 : Guard MemoryStore := mkGuard {["erp" := erp]} NewMemoryStore ∅ [].

Definition order (compensation : string) (approve : bool) : Request :=
  mkRequest "erp" "create-order" "orders" RiskLow (mkSubject "ada" [RoleOperator] false "") "opp-9" "{}"
    "SalesOrder" 12%float false compensation "" approve "won" None.

Definition granted : option Approval := Some (mkApproval ApprovalApproved "eve" "").

Definition committed_run := Commit calm_env (order "cancel-order" true) granted guard0.

Lemma Commit_only_when_cleared_witness :
  committed_run.1.1 = mkOutcome StatusCommitted "document for opp-9" "" granted [] /\
  exists new, g_trace committed_run.2 = new ++ g_trace guard0 /\ commit_count new <= 1.
Proof.
  split; [vm_compute; reflexivity|].
  destruct (Commit_only_when_cleared calm_env (order "cancel-order" true) granted guard0 _ _ _
              (triple committed_run)) as (new & Hn & Hc & _).
  exists new. split; [exact Hn|exact Hc].
Defined.

Lemma Commit_keeps_claims_witness :
  held (g_store committed_run.2) "erp/create-order/opp-9" = false.
Proof.
  refine (eq_trans _ (eq_refl : held NewMemoryStore "erp/create-order/opp-9" = false)).
  apply (Commit_keeps_claims calm_env (order "cancel-order" true) granted guard0 _ _ _ (triple committed_run)).
Defined.

Definition repeated_run := Commit calm_env (order "" true) granted (Commit calm_env (order "" true) granted guard0).2.

Lemma Commit_answers_duplicates_witness :
  exists new, g_trace repeated_run.2 = new ++ g_trace (Commit calm_env (order "" true) granted guard0).2 /\ quiet new.
Proof.
  apply (Commit_answers_duplicates calm_env (order "" true) (order "" true) granted
           (Commit calm_env (order "" true) granted guard0).2 repeated_run.2
           (mkOutcome StatusCommitted "document for opp-9" "" granted []) repeated_run.1.1 repeated_run.1.2).
  - reflexivity.
  - vm_compute. reflexivity.
  - apply triple.
Defined.

Definition prepared_run :=
  Prepare calm_env (fun _ => None) (fun _ => None) (fun _ => "why") (order "cancel-order" true) guard0.

Lemma Prepare_only_looks_witness :
  prepared_run.1.2 = None /\ PNeedsApproval prepared_run.1.1 = true /\
  g_targets prepared_run.2 = g_targets guard0.
Proof.
  split; [vm_compute; reflexivity|]. split; [vm_compute; reflexivity|].
  apply (Prepare_only_looks calm_env _ _ _ _ _ _ _ _ (triple prepared_run)).
Defined.

Definition executed_run :=
  Execute calm_env (fun _ => None) (fun _ => None) (fun _ => "why") (order "cancel-order" true) guard0.

Lemma Execute_asks_first_witness :
  OStatus executed_run.1.1 = StatusCommitted /\
  exists new, g_trace executed_run.2 = new ++ g_trace guard0 /\ commit_count new <= 1.
Proof.
  split; [vm_compute; reflexivity|].
  destruct (Execute_asks_first calm_env _ _ _ _ _ _ _ _ (triple executed_run)) as (new & Hn & Hc & _).
  exists new. split; [exact Hn|exact Hc].
Defined.

Definition generation_run : (Request * option goerr) * Guard MemoryStore :=
  generation (order "cancel-order" true) guard0.

Lemma generation_first_not_undone_witness : g_trace generation_run.2 = [].
Proof.
  apply (generation_first_not_undone calm_env (order "cancel-order" true) _ _ _ _ (triple generation_run)).
Defined.

Definition undo1 := compensate calm_env (order "cancel-order" true) "doc 1" committed_run.2.
Definition undo2 := compensate calm_env (order "cancel-order" true) "doc 1" undo1.2.

Lemma compensation_not_idempotent_witness :
  exists new1 new2 k1 k2 res1 res2,
    g_trace undo2.2 = new2 ++ new1 ++ g_trace committed_run.2 /\ k1 <> k2 /\
    EvCommit "erp" "cancel-order" k1 "doc 1" (Ok res1) ∈ new1 /\
    EvCommit "erp" "cancel-order" k2 "doc 1" (Ok res2) ∈ new2.
Proof.
  apply (compensation_not_idempotent calm_env (order "cancel-order" true) "doc 1" committed_run.2 undo1.2 undo2.2).
  - intros k o Hk. change (done (g_store committed_run.2) !! k = Some o) in Hk.
    replace (done (g_store committed_run.2))
      with ({["erp/create-order/opp-9" := mkOutcome StatusCommitted "document for opp-9" "" granted []]}
              : gmap string Outcome) in Hk by (vm_compute; reflexivity).
    apply lookup_singleton_Some in Hk as [_ <-]. reflexivity.
  - refine (pair_fst undo1 None _). vm_compute. reflexivity.
  - refine (pair_fst undo2 None _). vm_compute. reflexivity.
Defined.

(** The circuit of the ERP opened at time 0; the trial comes after the cooldown and
    its context ends while it waits. *)
Definition tripped : Guard MemoryStore :=
  mkGuard {["erp" := mkTarget (t_conf erp) (t_gov erp) (mkBreaker 5 30000000000 5 0 true false)]}
    NewMemoryStore ∅ [].
Definition cancelled_env : Env := calm (fun _ _ _ _ => None) (fun _ _ => NoSlot) (fun _ => 40000000000%Z).
Definition trial_run := commit cancelled_env erp "ada" "create-order" "opp-9" (order "" false) tripped.

Lemma cancelled_trial_blocks_target_witness :
  trial_run.1 = ("", Some (Sentinel "context canceled")) /\
  commit calm_env erp "bob" "create-order" "opp-10" (order "" false) trial_run.2 =
    ("", Some (Wrapf (Msg "writeguard: %s: %w" [FStr "erp"]) [Sentinel ErrCircuitOpen]), trial_run.2).
Proof.
  split; [vm_compute; reflexivity|].
  apply (cancelled_trial_blocks_target cancelled_env erp "ada" "create-order" "opp-9" (order "" false)
           tripped trial_run.2 (mkTarget (t_conf erp) (t_gov erp) (mkBreaker 5 30000000000 5 0 true false)) trial_run.1);
    try reflexivity; vm_compute; discriminate.
Defined.

Definition lookup_order : ReadRequest :=
  mkReadRequest "erp" "get-order" "orders" (mkSubject "ada" [RoleReader] false "") "SalesOrder" "7".
Definition read_run := Read calm_env lookup_order guard0.

Lemma Read_governed_witness :
  read_run.1 = ("record 7", None) /\ g_store read_run.2 = NewMemoryStore.
Proof.
  split; [vm_compute; reflexivity|].
  apply (Read_governed calm_env lookup_order guard0 _ _ _ (triple read_run)).
Defined.

(** An audit log that refuses the first entry of a committed write. *)
Definition forgetful : Env :=
  calm (fun h _ action _ =>
          if String.eqb action "writeback.committed" &&
             negb (List.existsb (fun e => match e with
                                    | EvAudit _ a _ _ => String.eqb a "writeback.committed"
                                    | _ => false end) h)
          then Some (Sentinel "disk full") else None)
    (fun _ _ => Slot 0 []) (fun _ => 0%Z).

Definition unaudited := Commit forgetful (order "" false) None guard0.
Definition retried := Commit forgetful (order "" false) None unaudited.2.

(** A commit whose audit entry cannot be written is committed again by its retry.
    The target has written the document, but [Commit] reports "failed" and releases
    the key; the retry calls the target's commit a second time, under the same key
    and payload, and only the target's own idempotency can stop a duplicate. *)
Theorem unaudited_commit_repeats :
  OStatus unaudited.1.1 = StatusFailed /\ OStatus retried.1.1 = StatusCommitted /\
  List.filter is_commit (g_trace retried.2) =
    [EvCommit "erp" "create-order" "opp-9" "{}" (Ok "document for opp-9");
     EvCommit "erp" "create-order" "opp-9" "{}" (Ok "document for opp-9")].
Proof. vm_compute. auto. Qed.
