(* ===== verification/Saga.v ===== *)
(** Sagas: [src/pkg/writeguard/saga.go]. A saga is passed explicitly beside the
    guard; [None] for a step's error is nil. *)

From S2P Require Import Turgon Prelude GoStr GoErr Policy GuardData Idempotency Governor Guard GuardProps GuardTheorems.
From Stdlib Require Import String.

Record step := mkStep { st_req : Request; st_result : string }.

Record Saga := mkSaga { sg_id : string; sg_done : list step }.

Definition NewSaga (id : string) : Saga := mkSaga id [].

Section Saga.
Context {T : Type} `{Hst : Store T} (env : Env).
Context (decode_json : string -> option json) (parse_float : string -> option float64)
        (sprintf : message -> string).

Definition step_error (s : Saga) (st : step) (e : goerr) : goerr :=
  Wrapf (Msg "saga %s: compensate %s.%s: %w"
    [FStr (sg_id s); FStr (RTarget (st_req st)); FStr (ROperation (st_req st))]) [e].

(** The loop of [Compensate], from index [n - 1] down to 0. *)
Fixpoint compensate_loop (s : Saga) (n : nat) (errs : list goerr) : M (T:=T) (list goerr) :=
  match n with
  | 0 => mret errs
  | S i =>
      match sg_done s !! i with
      | None => mret errs
      | Some st =>
          err ← compensate env (st_req st) (st_result st);
          compensate_loop s i (match err with Some e => errs ++ [step_error s st e] | None => errs end)
      end
  end.

Definition Compensate (s : Saga) : M (T:=T) (option goerr * Saga) :=
  errs ← compensate_loop s (List.length (sg_done s)) [];
  aerr ← audit env "turgon/saga" "saga.compensated"
           [("saga", AStr (sg_id s)); ("errors", ANum (Z.of_nat (List.length errs)))];
  let errs := match aerr with Some e => errs ++ [e] | None => errs end in
  mret (errors_join errs, mkSaga (sg_id s) []).

Definition Write (s : Saga) (req : Request) : M (T:=T) (Outcome * option goerr * Saga) :=
  if String.eqb (RCompensation req) "" then
    mret (outcome StatusFailed,
          Some (Errorf (Msg "saga %s: %s.%s must declare a compensation"
                  [FStr (sg_id s); FStr (RTarget req); FStr (ROperation req)])), s)
  else
  '(out, err) ← Execute env decode_json parse_float sprintf req;
  let failed :=
    match err with
    | Some e => negb (errors_is e ErrUnconfirmed && bool_decide (OStatus out = StatusCommitted))
    | None => false
    end in
  if failed then
    '(cerr, s) ← Compensate s;
    match err, cerr with
    | Some e, Some c => mret (out, Some (Joined [e; c]), s)
    | _, _ => mret (out, err, s)
    end
  else if bool_decide (OStatus out = StatusCommitted) || bool_decide (OStatus out = StatusDuplicate) then
    mret (out, err, mkSaga (sg_id s) (sg_done s ++ [mkStep req (OResult out)]))
  else mret (out, err, s).

(** Compensating a list of steps in order. *)
Fixpoint compensate_all (s : Saga) (steps : list step) : M (T:=T) (list goerr) :=
  match steps with
  | [] => mret []
  | st :: steps =>
      err ← compensate env (st_req st) (st_result st);
      errs ← compensate_all s steps;
      mret (match err with Some e => step_error s st e :: errs | None => errs end)
  end.
End Saga.

Section Laws.
Context {T : Type} `{Hst : Store T} `{Hvw : StoreView T} `{Hlaw : !StoreLaws T} (env : Env).
Implicit Types g : Guard T.

(** The loop by descending index is newest first. *)
Lemma compensate_loop_rev s n errs g :
  n <= List.length (sg_done s) ->
  compensate_loop env s n errs g =
    (let (l, g') := compensate_all env s (reverse (firstn n (sg_done s))) g in (errs ++ l, g')).
Proof.
  revert errs g. induction n as [|i IH]; intros errs g Hn; cbn [compensate_loop].
  { rewrite firstn_O, reverse_nil. cbn. unfold mret, M_ret. by rewrite app_nil_r. }
  destruct (lookup_lt_is_Some_2 (sg_done s) i) as [st Hst']; [lia|]. rewrite Hst'.
  rewrite (take_S_r _ _ _ Hst'), reverse_snoc. cbn [compensate_all].
  unfold mbind, M_bind, mret, M_ret.
  destruct (compensate env (st_req st) (st_result st) g) as [err g1].
  rewrite IH by lia.
  destruct (compensate_all env s (reverse (firstn i (sg_done s))) g1) as [l g2].
  destruct err; [by rewrite <- app_assoc|done].
Qed.

Lemma Compensate_rev s g :
  Compensate env s g =
    (let (l, g1) := compensate_all env s (reverse (sg_done s)) g in
     let (aerr, g2) := audit env "turgon/saga" "saga.compensated"
        [("saga", AStr (sg_id s)); ("errors", ANum (Z.of_nat (List.length l)))] g1 in
     (errors_join (match aerr with Some e => l ++ [e] | None => l end), mkSaga (sg_id s) [], g2)).
Proof.
  unfold Compensate, mbind, M_bind. rewrite compensate_loop_rev by done. rewrite firstn_all.
  destruct (compensate_all env s (reverse (sg_done s)) g) as [l g1]. cbn [app].
  destruct (audit _ _ _ _ g1). done.
Qed.

(** Steps that are undone: a generation of each has its compensation recorded. *)
Definition step_undone (s0 s : T) (st : step) : Prop :=
  exists k, let r := with_key (st_req st) k in ~ undone s0 r /\ undone s r.

(** Compensations without an error undo every step and commit one after the other. *)
Lemma compensate_all_undoes s steps g g' :
  only_committed (g_store g) -> compensate_all env s steps g = ([], g') ->
  only_committed (g_store g') /\ (forall r, undone (g_store g) r -> undone (g_store g') r) /\
  Forall (step_undone (g_store g) (g_store g')) steps /\
  exists news, g_trace g' = List.concat (reverse news) ++ g_trace g /\
    Forall2 (fun st new => exists key res, EvCommit (RTarget (st_req st)) (RCompensation (st_req st)) key
                             (st_result st) (Ok res) ∈ new) steps news.
Proof using Hlaw.
  revert g. induction steps as [|st steps IH]; intros g Hoc Hc; cbn [compensate_all] in Hc.
  { injection Hc as <-. split; [done|]. split; [done|]. split; [constructor|]. by exists []. }
  bind_step Hc err g1 H1. bind_step Hc errs g2 H2.
  destruct err as [e|]; [by injection Hc|]. injection Hc as -> <-.
  apply compensate_commits in H1 as (Hoc1 & Hmono1 & new & r & res & Htr1 & Hg & Hn & Hu & Hin); [|done].
  apply IH in H2 as (Hoc2 & Hmono2 & Hall & news & Htr2 & Hf2); [|done].
  split; [done|]. split; [auto|]. split.
  - constructor.
    + destruct (is_generation_with_key _ _ _ Hg) as [k ->]. exists k. auto.
    + eapply Forall_impl; [exact Hall|]. intros st' (k & Hk1 & Hk2). exists k. auto.
  - exists (new :: news). split.
    + rewrite Htr2, Htr1, reverse_cons, List.concat_app. cbn. by rewrite app_nil_r, app_assoc.
    + constructor; [eauto|done].
Qed.

End Laws.

(** * Properties *)

(** A saga compensates newest first, every committed step once, whatever fails on
    the way, and is then empty: [Compensate] runs the compensations of its steps in
    reverse order, records how many failed, and joins their errors. *)
Theorem Compensate_newest_first {T} `{Store T} (env : Env) (s : Saga) (g : Guard T) :
  Compensate env s g =
    (let (errs, g1) := compensate_all env s (reverse (sg_done s)) g in
     let (aerr, g2) := audit env "turgon/saga" "saga.compensated"
        [("saga", AStr (sg_id s)); ("errors", ANum (Z.of_nat (List.length errs)))] g1 in
     (errors_join (match aerr with Some e => errs ++ [e] | None => errs end), mkSaga (sg_id s) [], g2)).
Proof. apply Compensate_rev. Qed.

(** A saga that compensates without an error is undone. Each of its steps, newest
    first, has called its target's commit of the declared compensation with the
    result the step returned, and the store records the compensation of a generation
    that was not undone before. *)
Theorem Compensate_undoes_all {T} `{StoreLaws T} (env : Env) (s s' : Saga) (g g' : Guard T) :
  only_committed (g_store g) -> Compensate env s g = (None, s', g') ->
  sg_done s' = [] /\ Forall (step_undone (g_store g) (g_store g')) (sg_done s) /\
  exists news data, g_trace g' =
      EvAudit "turgon/saga" "saga.compensated" data None :: List.concat (reverse news) ++ g_trace g /\
    Forall2 (fun st new => exists key res, EvCommit (RTarget (st_req st)) (RCompensation (st_req st)) key
                             (st_result st) (Ok res) ∈ new) (reverse (sg_done s)) news.
Proof.
  intros Hoc Hc. rewrite Compensate_rev in Hc.
  destruct (compensate_all env s (reverse (sg_done s)) g) as [errs g1] eqn:Hall.
  destruct (audit env _ _ _ g1) as [aerr g2] eqn:Ha. apply audit_inv in Ha.
  destruct aerr as [e|]; [by destruct errs|]. destruct errs as [|e errs]; [|done].
  injection Hc as <- <-.
  apply compensate_all_undoes in Hall as (_ & _ & Hund & news & Htr & Hf); [|done].
  split; [done|]. split.
  - rewrite (c_store _ _ _ _ Ha). by rewrite reverse_Permutation in Hund.
  - exists news. eexists. split; [|done]. by rewrite (c_trace _ _ _ _ Ha), Htr.
Qed.

(** A failing step brings the whole saga down, and nothing else does. [Write] keeps
    a step that committed or was a duplicate, in order, with its compensation and its
    result; an unconfirmed commit is kept although its error is returned; on any
    other error every earlier step is compensated, the saga is emptied, and the
    step's error comes back, joined with the compensations' errors if there are any. *)
Theorem Write_keeps_or_compensates {T} `{Store T} (env : Env) decode_json parse_float sprintf
    (s : Saga) (req : Request) (g : Guard T) :
  RCompensation req <> "" ->
  let '(out, err, g1) := Execute env decode_json parse_float sprintf req g in
  let kept := match err with
              | None => OStatus out = StatusCommitted \/ OStatus out = StatusDuplicate
              | Some e => errors_is e ErrUnconfirmed = true /\ OStatus out = StatusCommitted
              end in
  let '(out', err', s', g') := Write env decode_json parse_float sprintf s req g in
  out' = out /\
  (kept -> err' = err /\ g' = g1 /\ s' = mkSaga (sg_id s) (sg_done s ++ [mkStep req (OResult out)])) /\
  (~ kept -> forall e, err = Some e ->
     sg_done s' = [] /\ exists cerr, Compensate env s g1 = (cerr, s', g') /\
     err' = match cerr with Some c => Some (Joined [e; c]) | None => Some e end).
Proof.
  intros Hne. unfold Write. destruct (String.eqb_spec (RCompensation req) "") as [|_]; [done|].
  unfold mbind, M_bind. destruct (Execute env decode_json parse_float sprintf req g) as [[out err] g1].
  cbv zeta. destruct err as [e|].
  - destruct (errors_is e ErrUnconfirmed) eqn:Eu, (bool_decide_reflect (OStatus out = StatusCommitted)) as [Eo|Eo];
      cbn [andb orb negb].
    { split; [done|]. split; [done|]. intros Hk. by exfalso; apply Hk. }
    all: rewrite Compensate_rev; destruct (compensate_all _ _ _ _) as [l g2]; destruct (audit _ _ _ _ g2) as [ae g3];
      destruct (errors_join _) as [c|]; cbn; (split; [done|]); (split; [by intros [? ?]|]);
      intros _ e' [= <-]; eauto.
  - destruct (bool_decide_reflect (OStatus out = StatusCommitted)) as [Eo|Eo],
      (bool_decide_reflect (OStatus out = StatusDuplicate)) as [Ed|Ed]; cbn [andb orb];
      (split; [done|]); (split; [|done]); try done. by intros [?|?].
Qed.

(** * Witnesses *)

Definition saga1 : Saga := mkSaga "opp-9" [mkStep (order "cancel-order" true) "document for opp-9"].
Definition undone_run := Compensate calm_env saga1 committed_run.2.

Lemma Compensate_undoes_all_witness : sg_done undone_run.1.2 = [].
Proof.
  apply (Compensate_undoes_all calm_env saga1 undone_run.1.2 committed_run.2 undone_run.2).
  - intros k o Hk. change (done (g_store committed_run.2) !! k = Some o) in Hk.
    replace (done (g_store committed_run.2))
      with ({["erp/create-order/opp-9" := mkOutcome StatusCommitted "document for opp-9" "" granted []]}
              : gmap string Outcome) in Hk by (vm_compute; reflexivity).
    apply lookup_singleton_Some in Hk as [_ <-]. reflexivity.
  - refine (triple_fst undone_run None _). vm_compute. reflexivity.
Defined.

Lemma Write_keeps_or_compensates_witness :
  sg_done (Write calm_env (fun _ => None) (fun _ => None) (fun _ => "why") (NewSaga "opp-9")
             (order "cancel-order" true) guard0).1.2 =
    [mkStep (order "cancel-order" true) "document for opp-9"].
Proof.
  pose proof (Write_keeps_or_compensates calm_env (fun _ => None) (fun _ => None) (fun _ => "why") (NewSaga "opp-9")
    (order "cancel-order" true) guard0 ltac:(discriminate)) as Hw.
  destruct (Execute calm_env _ _ _ (order "cancel-order" true) guard0) as [[out err] g1] eqn:E.
  destruct (Write calm_env _ _ _ (NewSaga "opp-9") (order "cancel-order" true) guard0) as [[[out' err'] s'] g'].
  assert (Ho : (out, err) = (executed_run.1)) by (unfold executed_run; rewrite E; reflexivity).
  vm_compute in Ho. injection Ho as -> ->.
  destruct Hw as (_ & Hk & _). destruct (Hk (or_introl eq_refl)) as (_ & _ & ->). reflexivity.
Defined.
