(* ===== verification/Api.v ===== *)
(** The declarative object model: [src/apis/v1alpha1]. Every kind is a record of the
    source's fields; [Validate] is the list of schema violations, in order, each with
    its path and its unrendered message. A nil pointer is [None]; a nil slice is []. *)

From S2P Require Import Turgon Prelude GoStr GoErr GoTime Regex.
From Stdlib Require Import Ascii String.

(** ** Common metadata ([meta.go]) *)

Definition APIVersion : string := "turgon.dev/v1alpha1".

Definition KindConnectorManifest : string := "ConnectorManifest".
Definition KindConnection : string := "Connection".
Definition KindRecipe : string := "Recipe".
Definition KindMapping : string := "Mapping".
Definition KindSlotContract : string := "SlotContract".
Definition KindPlugin : string := "Plugin".
Definition KindStackBlueprint : string := "StackBlueprint".
Definition KindPolicyPack : string := "PolicyPack".

(** [Kinds], in load order. *)
Definition Kinds : list string :=
  [KindConnectorManifest; KindConnection; KindSlotContract; KindPolicyPack; KindMapping; KindPlugin;
   KindRecipe; KindStackBlueprint].

Record TypeMeta := mkTypeMeta { tm_APIVersion : string; tm_Kind : string }.

Record ObjectMeta := mkObjectMeta {
  om_Name : string;
  om_Version : string;
  om_Publisher : string;
  om_Certification : string;
  om_Description : string;
  om_Labels : gmap string string
}.

Record FieldError := mkFieldError { fe_Path : string; fe_Message : message }.
Abbreviation FieldErrors := (list FieldError).

(** [if b { es.add(path, ...) }]. *)
Definition add_if (b : bool) (path : string) (format : string) (args : list farg) : FieldErrors :=
  if b then [mkFieldError path (Msg format args)] else [].

Definition LevelL0 : string := "L0".
Definition LevelL1 : string := "L1".
Definition LevelL2 : string := "L2".
Definition LevelL3 : string := "L3".

Definition RiskRead : string := "read".
Definition RiskLow : string := "low".
Definition RiskHigh : string := "high".

Definition lower_digit (c : ascii) : bool := is_lower c || is_digit c.
Definition lower_digit_dash (c : ascii) : bool := lower_digit c || Ascii.eqb c "-".
Definition word_start (c : ascii) : bool := is_upper c || is_lower c || Ascii.eqb c "_".
Definition word_char (c : ascii) : bool := word_start c || is_digit c.

(** [[a-z0-9]([a-z0-9-]*[a-z0-9])?] *)
Definition label_re : re :=
  RSeq (RCls lower_digit) (ROpt (RSeq (RStar (RCls lower_digit_dash)) (RCls lower_digit))).
Definition nameRE : re := label_re.
Definition handleRE : re := label_re.

(** [0|[1-9]\d*] *)
Definition number_re : re :=
  RAlt (RChr "0") (RSeq (RCls (fun c => is_digit c && negb (Ascii.eqb c "0"))) (RStar (RCls is_digit))).

Definition prerelease_char (c : ascii) : bool :=
  is_digit c || is_upper c || is_lower c || Ascii.eqb c "." || Ascii.eqb c "-".

Definition semverRE : re :=
  RSeq (ROpt (RChr "v")) (RSeq number_re (RSeq (RChr ".") (RSeq number_re (RSeq (RChr ".") (RSeq number_re
    (ROpt (RSeq (RChr "-") (RPlus (RCls prerelease_char))))))))).

(** [\s] of RE2: tab, newline, form feed, carriage return, space. *)
Definition re_space (c : ascii) : bool :=
  Ascii.eqb c "009" || Ascii.eqb c "010" || Ascii.eqb c "012" || Ascii.eqb c "013" || Ascii.eqb c " ".

Definition scheme_char (c : ascii) : bool :=
  lower_digit c || Ascii.eqb c "+" || Ascii.eqb c "." || Ascii.eqb c "-".

Definition secretRefRE : re :=
  RSeq (RCls is_lower) (RSeq (RStar (RCls scheme_char)) (RSeq (RStr "://") (RPlus (RCls (fun c => negb (re_space c)))))).

Definition fieldRE : re := RSeq (RCls word_start) (RStar (RCls word_char)).
Definition fieldNameRE : re := fieldRE.

Definition validateTypeMeta (t : TypeMeta) (kind : string) : FieldErrors :=
  add_if (negb (String.eqb (tm_APIVersion t) APIVersion)) "apiVersion" "must be %q, got %q"
    [FStr APIVersion; FStr (tm_APIVersion t)] ++
  add_if (negb (String.eqb (tm_Kind t) kind)) "kind" "must be %q, got %q" [FStr kind; FStr (tm_Kind t)].

(** [oneOf]. *)
Fixpoint oneOf (v : string) (allowed : list string) : bool :=
  match allowed with
  | [] => false
  | a :: allowed => if String.eqb v a then true else oneOf v allowed
  end.

Definition validateMeta (m : ObjectMeta) (versionRequired : bool) : FieldErrors :=
  add_if (negb (fullmatch nameRE (om_Name m))) "metadata.name"
    "must be lowercase alphanumerics and dashes, got %q" [FStr (om_Name m)] ++
  (if String.eqb (om_Version m) "" && versionRequired then
     add_if true "metadata.version" "is required" []
   else add_if (negb (String.eqb (om_Version m) "") && negb (fullmatch semverRE (om_Version m)))
          "metadata.version" "must be a semantic version, got %q" [FStr (om_Version m)]) ++
  add_if (negb (oneOf (om_Certification m) [""; LevelL0; LevelL1; LevelL2; LevelL3]))
    "metadata.certification" "must be one of L0, L1, L2, L3, got %q" [FStr (om_Certification m)].

Definition validRisk (r : string) : bool :=
  String.eqb r RiskRead || String.eqb r RiskLow || String.eqb r RiskHigh.

(** [ParseRef]: "name@constraint", split at the last at sign. *)
Definition ParseRef (ref : string) : string * string :=
  match cut_last "@" ref with
  | Some (name, constraint) => (name, constraint)
  | None => (ref, "")
  end.

(** A double-quoted word of a message. *)
Definition quoted (s : string) : string := String "034" (s +++ String "034" "").

(** [path[i]]. *)
Definition at_index (path : string) (i : Z) : string := path +++ "[" +++ itoa i +++ "]".

(** A loop's errors, over the indexed elements. *)
Definition for_each {A} (f : Z -> A -> FieldErrors) (l : list A) : FieldErrors :=
  List.concat (map (fun ix => f (fst ix) (snd ix)) (indexed l)).

(** ** Connector manifests ([connector.go]) *)

Record Interface := mkInterface { if_Kind : string; if_Simulation : string }.
Record ProhibitedInterface := mkProhibited { pi_Kind : string; pi_Reason : string }.

Record Interfaces := mkInterfaces {
  ifs_Read : list Interface;
  ifs_Write : list Interface;
  ifs_Events : list Interface;
  ifs_Prohibited : list ProhibitedInterface
}.

Record ConnectorAuth := mkAuth { auth_Methods : list string; auth_SecretRef : string }.

Record ConnectorEvent := mkEvent { ev_Name : string; ev_Entity : string; ev_Interface : string }.

Definition DirectionRead : string := "read".
Definition DirectionWrite : string := "write".

Record Operation := mkOperation {
  op_Name : string;
  op_Entity : string;
  op_Direction : string;
  op_Interface : string;
  op_Risk : string;
  op_Compensation : string
}.

Record Limits := mkLimits { MaxConcurrentCalls : Z; RequestsPerSecond : float64 }.

Record ConnectorSpec := mkConnectorSpec {
  cs_System : string;
  cs_Runtime : string;
  cs_Auth : ConnectorAuth;
  cs_Discovery : list string;
  cs_Interfaces : Interfaces;
  cs_Entities : list string;
  cs_Events : list ConnectorEvent;
  cs_Operations : list Operation;
  cs_Limits : Limits;
  cs_SAPDigitalAccess : bool;
  cs_SemanticBindings : list string
}.

Record ConnectorManifest := mkConnectorManifest {
  cm_TypeMeta : TypeMeta;
  cm_Metadata : ObjectMeta;
  cm_Spec : ConnectorSpec
}.

(** [Operation], [Event], [HasEntity]: the first declared. *)
Definition find_operation (c : ConnectorManifest) (name : string) : option Operation :=
  find_first (fun o => String.eqb (op_Name o) name) (cs_Operations (cm_Spec c)).
Definition find_event (c : ConnectorManifest) (name : string) : option ConnectorEvent :=
  find_first (fun e => String.eqb (ev_Name e) name) (cs_Events (cm_Spec c)).
Definition HasEntity (c : ConnectorManifest) (name : string) : bool :=
  is_some (find_first (fun e => String.eqb e name) (cs_Entities (cm_Spec c))).

Definition permitted_in (ifs : Interfaces) (direction kind : string) : result Interface :=
  match find_first (fun p => String.eqb (pi_Kind p) kind) (ifs_Prohibited ifs) with
  | Some p => Err (Errorf (Msg "interface %q is prohibited: %s" [FStr kind; FStr (pi_Reason p)]))
  | None =>
      let search list :=
        match find_first (fun i => String.eqb (if_Kind i) kind) list with
        | Some i => Ok i
        | None => Err (Errorf (Msg "interface %q is not declared for %s" [FStr kind; FStr direction]))
        end in
      if String.eqb direction DirectionRead then search (ifs_Read ifs)
      else if String.eqb direction DirectionWrite then search (ifs_Write ifs)
      else if String.eqb direction "events" then search (ifs_Events ifs)
      else Err (Errorf (Msg "unknown direction %q" [FStr direction]))
  end.

(** [Permitted]. *)
Definition Permitted (c : ConnectorManifest) (direction kind : string) : result Interface :=
  permitted_in (cs_Interfaces (cm_Spec c)) direction kind.

(** [es.add(path, "%v", err)] if there is an error. *)
Definition add_err {A} (path : string) (r : result A) : FieldErrors :=
  match r with Ok _ => [] | Err e => [mkFieldError path (Msg "%v" [FErr e])] end.

Definition checkList (prohibited : list string) (dir : string) (list : list Interface) : FieldErrors :=
  for_each (fun i ifc =>
    let path := at_index ("spec.interfaces." +++ dir) i in
    add_if (String.eqb (if_Kind ifc) "") (path +++ ".kind") "is required" [] ++
    add_if (bool_decide (if_Kind ifc ∈ prohibited)) (path +++ ".kind")
      "interface %q is both permitted and prohibited" [FStr (if_Kind ifc)] ++
    add_if (negb (String.eqb (if_Simulation ifc) "") && negb (String.eqb dir DirectionWrite))
      (path +++ ".simulation") "only write interfaces can declare a simulation mode" []) list.

(** The loop over events, with the names seen so far. *)
Fixpoint check_events (ifs : Interfaces) (i : Z) (evs : list ConnectorEvent) (seen : gset string) : FieldErrors :=
  match evs with
  | [] => []
  | ev :: evs =>
      let path := at_index "spec.events" i in
      (if String.eqb (ev_Name ev) "" then add_if true (path +++ ".name") "is required" []
       else add_if (bool_decide (ev_Name ev ∈ seen)) (path +++ ".name") "duplicate event %q" [FStr (ev_Name ev)]) ++
      add_err (path +++ ".interface") (permitted_in ifs "events" (ev_Interface ev)) ++
      check_events ifs (i + 1) evs ({[ev_Name ev]} ∪ seen)
  end.

(** One operation's own checks, after its name. *)
Definition check_operation (ifs : Interfaces) (path : string) (op : Operation) : FieldErrors :=
  if negb (oneOf (op_Direction op) [DirectionRead; DirectionWrite]) then
    add_if true (path +++ ".direction") "must be read or write, got %q" [FStr (op_Direction op)]
  else
    add_err (path +++ ".interface") (permitted_in ifs (op_Direction op) (op_Interface op)) ++
    (if negb (validRisk (op_Risk op)) then
       add_if true (path +++ ".risk") "must be read, low or high, got %q" [FStr (op_Risk op)]
     else if String.eqb (op_Direction op) DirectionWrite && String.eqb (op_Risk op) RiskRead then
       add_if true (path +++ ".risk") "write operations must be low or high risk" []
     else add_if (String.eqb (op_Direction op) DirectionRead && negb (String.eqb (op_Risk op) RiskRead))
            (path +++ ".risk") ("read operations must have risk " +++ quoted "read") []).

(** The loop over operations; [ops] is the map it builds, the last of a name wins. *)
Fixpoint check_operations (ifs : Interfaces) (i : Z) (l : list Operation) (ops : gmap string Operation)
    : FieldErrors * gmap string Operation :=
  match l with
  | [] => ([], ops)
  | op :: l =>
      let path := at_index "spec.operations" i in
      let es :=
        add_if (negb (fullmatch nameRE (op_Name op))) (path +++ ".name")
          "must be lowercase alphanumerics and dashes, got %q" [FStr (op_Name op)] ++
        add_if (is_some (ops !! op_Name op)) (path +++ ".name") "duplicate operation %q" [FStr (op_Name op)] ++
        check_operation ifs path op in
      let (rest, ops) := check_operations ifs (i + 1) l (<[op_Name op := op]> ops) in
      (es ++ rest, ops)
  end.

Definition check_compensations (ops : gmap string Operation) (l : list Operation) : FieldErrors :=
  for_each (fun i op =>
    if String.eqb (op_Compensation op) "" then [] else
    let path := at_index "spec.operations" i +++ ".compensation" in
    if negb (String.eqb (op_Direction op) DirectionWrite) then
      add_if true path "only write operations can declare a compensation" []
    else match ops !! op_Compensation op with
    | None => add_if true path "unknown operation %q" [FStr (op_Compensation op)]
    | Some comp =>
        add_if (negb (String.eqb (op_Direction comp) DirectionWrite)) path
          "compensation %q must be a write operation" [FStr (op_Compensation op)]
    end) l.

Definition Runtimes : list string :=
  ["camel-java"; "debezium"; "files-edi"; "screen"; "wasm"; "container"; "native"].

Definition check_limits (l : Limits) : FieldErrors :=
  add_if (MaxConcurrentCalls l <=? 0)%Z "spec.limits.maxConcurrentCalls" "must be positive" [] ++
  add_if (PrimFloat.leb (RequestsPerSecond l) 0%float) "spec.limits.requestsPerSecond" "must be positive" [].

(** [ConnectorManifest.Validate]. *)
Definition Validate_connector (c : ConnectorManifest) : FieldErrors :=
  let s := cm_Spec c in
  let ifs := cs_Interfaces s in
  let prohibited := map pi_Kind (ifs_Prohibited ifs) in
  validateTypeMeta (cm_TypeMeta c) KindConnectorManifest ++
  validateMeta (cm_Metadata c) true ++
  add_if (String.eqb (cs_System s) "") "spec.system" "is required" [] ++
  add_if (negb (oneOf (cs_Runtime s) Runtimes)) "spec.runtime" "unknown runtime %q" [FStr (cs_Runtime s)] ++
  add_if (bool_decide (auth_Methods (cs_Auth s) = [])) "spec.auth.methods" "at least one method is required" [] ++
  add_if (negb (fullmatch secretRefRE (auth_SecretRef (cs_Auth s)))) "spec.auth.secretRef"
    "must be a secret-store reference such as openbao://path, got %q" [FStr (auth_SecretRef (cs_Auth s))] ++
  for_each (fun i p =>
    let path := at_index "spec.interfaces.prohibited" i in
    add_if (String.eqb (pi_Kind p) "") (path +++ ".kind") "is required" [] ++
    add_if (String.eqb (pi_Reason p) "") (path +++ ".reason")
      "is required so the verifier can explain refusals" []) (ifs_Prohibited ifs) ++
  checkList prohibited DirectionRead (ifs_Read ifs) ++
  checkList prohibited DirectionWrite (ifs_Write ifs) ++
  checkList prohibited "events" (ifs_Events ifs) ++
  check_events ifs 0 (cs_Events s) ∅ ++
  (let (es, ops) := check_operations ifs 0 (cs_Operations s) ∅ in
   es ++ check_compensations ops (cs_Operations s)) ++
  check_limits (cs_Limits s).
