(* ===== verification/ApiKinds.v ===== *)
(** The other kinds of [src/apis/v1alpha1]: connections, mappings, recipes, slot
    contracts, plugins, stack blueprints and policy packs. *)

From S2P Require Import Turgon Prelude GoStr GoErr GoTime Regex Api.
From Stdlib Require Import Ascii String.

(** ** Connections ([connection.go]) *)

Record ConnectionSpec := mkConnectionSpec {
  cn_Connector : string;
  cn_SecretRef : string;
  cn_Entities : list string;
  cn_Events : list ConnectorEvent;
  cn_Operations : list Operation;
  cn_Config : string;
  cn_Limits : option Limits
}.

Record Connection := mkConnection {
  cn_TypeMeta : TypeMeta;
  cn_Metadata : ObjectMeta;
  cn_Spec : ConnectionSpec
}.

(** [json_object] says whether a document decodes into a map ([encoding/json]). *)
Definition Validate_connection (json_object : string -> bool) (c : Connection) : FieldErrors :=
  let s := cn_Spec c in
  validateTypeMeta (cn_TypeMeta c) KindConnection ++
  validateMeta (cn_Metadata c) false ++
  add_if (negb (fullmatch nameRE (fst (ParseRef (cn_Connector s))))) "spec.connector"
    "must reference a connector by name, got %q" [FStr (cn_Connector s)] ++
  add_if (negb (String.eqb (cn_SecretRef s) "") && negb (fullmatch secretRefRE (cn_SecretRef s))) "spec.secretRef"
    "must be a secret-store reference such as openbao://path, got %q" [FStr (cn_SecretRef s)] ++
  add_if (negb (String.eqb (cn_Config s) "") && negb (json_object (cn_Config s))) "spec.config"
    "must be an object" [] ++
  match cn_Limits s with Some l => check_limits l | None => [] end.

(** [Effective]: the manifest as the connection sees it. *)
Definition Effective (c : Connection) (m : ConnectorManifest) : ConnectorManifest :=
  let s := cm_Spec m in
  let k := cn_Spec c in
  mkConnectorManifest (cm_TypeMeta m) (cm_Metadata m)
    (mkConnectorSpec (cs_System s) (cs_Runtime s)
       (mkAuth (auth_Methods (cs_Auth s))
          (if String.eqb (cn_SecretRef k) "" then auth_SecretRef (cs_Auth s) else cn_SecretRef k))
       (cs_Discovery s) (cs_Interfaces s)
       (cs_Entities s ++ cn_Entities k)
       (cs_Events s ++ cn_Events k)
       (cs_Operations s ++ cn_Operations k)
       (match cn_Limits k with Some l => l | None => cs_Limits s end)
       (cs_SAPDigitalAccess s) (cs_SemanticBindings s)).

(** The limits of a connector that declares its own operations may only be lowered. *)
Definition raises_limits (l m : Limits) : bool :=
  PrimFloat.ltb (RequestsPerSecond m) (RequestsPerSecond l) || (MaxConcurrentCalls m <? MaxConcurrentCalls l)%Z.

Definition ValidateEffective (c : Connection) (m : ConnectorManifest) : FieldErrors :=
  map (fun e => mkFieldError ("connection " +++ om_Name (cn_Metadata c) +++ ": " +++ fe_Path e) (fe_Message e))
    (Validate_connector (Effective c m)) ++
  match cn_Limits (cn_Spec c) with
  | Some l =>
      add_if (negb (bool_decide (List.length (cs_Operations (cm_Spec m)) = 0)) && raises_limits l (cs_Limits (cm_Spec m)))
        ("connection " +++ om_Name (cn_Metadata c) +++ ": spec.limits")
        "can only lower %s's limits (%g requests/s, %d concurrent calls)"
        [FStr (om_Name (cm_Metadata m)); FFlt (RequestsPerSecond (cs_Limits (cm_Spec m)));
         FInt (MaxConcurrentCalls (cs_Limits (cm_Spec m)))]
  | None => []
  end.

(** ** Mappings ([mapping.go]) *)

Record FieldMapping := mkFieldMapping {
  fm_Target : string;
  fm_Expression : string;
  fm_Origin : string;
  fm_Confidence : float64;
  fm_Approved : bool;
  fm_Rationale : string
}.

Record Mapping := mkMapping {
  mp_TypeMeta : TypeMeta;
  mp_Metadata : ObjectMeta;
  mp_From : string;
  mp_To : string;
  mp_Fields : list FieldMapping
}.

Definition OriginCertified : string := "certified".
Definition OriginAI : string := "ai".
Definition OriginHuman : string := "human".

Fixpoint check_fields (i : Z) (fs : list FieldMapping) (seen : gset string) : FieldErrors :=
  match fs with
  | [] => []
  | f :: fs =>
      let path := at_index "spec.fields" i in
      (if String.eqb (fm_Target f) "" then add_if true (path +++ ".target") "is required" []
       else add_if (bool_decide (fm_Target f ∈ seen)) (path +++ ".target") "duplicate target %q" [FStr (fm_Target f)]) ++
      add_if (String.eqb (fm_Expression f) "") (path +++ ".expression") "is required" [] ++
      add_if (negb (oneOf (fm_Origin f) [OriginCertified; OriginAI; OriginHuman])) (path +++ ".origin")
        "must be certified, ai or human, got %q" [FStr (fm_Origin f)] ++
      add_if (PrimFloat.ltb (fm_Confidence f) 0%float || PrimFloat.ltb 1%float (fm_Confidence f))
        (path +++ ".confidence") "must be in [0, 1], got %v" [FFlt (fm_Confidence f)] ++
      check_fields (i + 1) fs ({[fm_Target f]} ∪ seen)
  end.

Definition Validate_mapping (m : Mapping) : FieldErrors :=
  validateTypeMeta (mp_TypeMeta m) KindMapping ++
  validateMeta (mp_Metadata m) true ++
  add_if (String.eqb (mp_From m) "") "spec.from" "is required" [] ++
  add_if (String.eqb (mp_To m) "") "spec.to" "is required" [] ++
  add_if (bool_decide (List.length (mp_Fields m) = 0)) "spec.fields" "at least one field is required" [] ++
  check_fields 0 (mp_Fields m) ∅.

(** ** Recipes ([recipe.go]) *)

Record Trigger := mkTrigger { tr_Source : string; tr_Event : string }.

Record MapStep := mkMapStep { ms_From : string; ms_To : string; ms_Mapping : string }.

Record MatchField := mkMatchField { mf_Field : string; mf_Kind : string }.

Record ResolveStep := mkResolveStep {
  rs_Entity : string;
  rs_Strategy : string;
  rs_AutoMatchAbove : float64;
  rs_Match : list MatchField;
  rs_Ref : string;
  rs_Into : string
}.

Record AmountCheck := mkAmountCheck { ac_Preview : string; ac_Tolerance : float64 }.

Record WriteStep := mkWriteStep {
  ws_Target : string;
  ws_Operation : string;
  ws_IdempotencyKey : string;
  ws_Simulate : bool;
  ws_Approval : string;
  ws_Compensation : string;
  ws_Output : string;
  ws_Amount : string;
  ws_CheckAmount : option AmountCheck
}.

(** A step as it is decoded: any of the three pointers may be set. *)
Record Step := mkStep {
  s_Map : option MapStep;
  s_Resolve : option ResolveStep;
  s_Write : option WriteStep
}.

Definition StrategyExact : string := "exact".
Definition StrategyProbabilistic : string := "probabilistic".
Definition StrategySplink : string := "splink".
Definition MatchEmail : string := "email".
Definition MatchDomain : string := "domain".
Definition MatchName : string := "name".
Definition MatchExact : string := "exact".
Definition ApprovalPolicy : string := "policy".
Definition ApprovalRequired : string := "required".
Definition ApprovalNone : string := "none".

(** [Step.Kind], counting what is set. *)
Definition step_kind (s : Step) : string :=
  let '(n, kind) := (0%Z, "") in
  let '(n, kind) := if is_some (s_Map s) then (n + 1, "map")%Z else (n, kind) in
  let '(n, kind) := if is_some (s_Resolve s) then (n + 1, "resolve")%Z else (n, kind) in
  let '(n, kind) := if is_some (s_Write s) then (n + 1, "write")%Z else (n, kind) in
  if negb (n =? 1)%Z then "" else kind.

Record RecipeSpec := mkRecipeSpec {
  rc_Trigger : Trigger;
  rc_Connectors : gmap string string;
  rc_Steps : list Step;
  rc_Policies : list string;
  rc_PeakPerSecond : option float64;
  rc_P95Latency : option string;
  rc_Extensions : list string
}.

Record Recipe := mkRecipe {
  r_TypeMeta : TypeMeta;
  r_Metadata : ObjectMeta;
  r_Spec : RecipeSpec
}.

(** [Endpoints]: the trigger's source, then the write targets, each once. *)
Definition add_endpoint (n : string) (out : list string) : list string :=
  if negb (String.eqb n "") && negb (bool_decide (n ∈ out)) then out ++ [n] else out.

Definition Endpoints (r : Recipe) : list string :=
  fold_left (fun out s => match s_Write s with Some w => add_endpoint (ws_Target w) out | None => out end)
    (rc_Steps (r_Spec r)) (add_endpoint (tr_Source (rc_Trigger (r_Spec r))) []).

Definition check_resolve (path : string) (r : ResolveStep) : FieldErrors :=
  add_if (String.eqb (rs_Entity r) "") (path +++ ".resolve.entity") "is required" [] ++
  add_if (PrimFloat.leb (rs_AutoMatchAbove r) 0%float || PrimFloat.ltb 1%float (rs_AutoMatchAbove r))
    (path +++ ".resolve.autoMatchAbove") "must be in (0, 1], got %v" [FFlt (rs_AutoMatchAbove r)] ++
  for_each (fun j m =>
    add_if (negb (fullmatch fieldNameRE (mf_Field m))) (at_index (path +++ ".resolve.match") j +++ ".field")
      "must be a document field name, got %q" [FStr (mf_Field m)] ++
    add_if (negb (String.eqb (mf_Kind m) MatchEmail) && negb (String.eqb (mf_Kind m) MatchDomain) &&
            negb (String.eqb (mf_Kind m) MatchName) && negb (String.eqb (mf_Kind m) MatchExact))
      (at_index (path +++ ".resolve.match") j +++ ".kind")
      "must be email, domain, name or exact, got %q" [FStr (mf_Kind m)]) (rs_Match r) ++
  add_if (String.eqb (rs_Strategy r) StrategyProbabilistic && bool_decide (List.length (rs_Match r) = 0))
    (path +++ ".resolve.match") "the probabilistic strategy needs the fields to match on" [].

Definition check_write (path : string) (w : WriteStep) : FieldErrors :=
  add_if (String.eqb (ws_Target w) "") (path +++ ".write.target") "is required" [] ++
  add_if (String.eqb (ws_Operation w) "") (path +++ ".write.operation") "is required" [] ++
  add_if (String.eqb (trim_space (ws_IdempotencyKey w)) "") (path +++ ".write.idempotencyKey")
    "is required so retries never create duplicates" [] ++
  add_if (negb (String.eqb (ws_Output w) "") && negb (fullmatch fieldRE (ws_Output w))) (path +++ ".write.output")
    "must be a field name, got %q" [FStr (ws_Output w)] ++
  add_if (negb (String.eqb (ws_Approval w) "") &&
          negb (oneOf (ws_Approval w) [ApprovalPolicy; ApprovalRequired; ApprovalNone]))
    (path +++ ".write.approval") "must be policy, required or none, got %q" [FStr (ws_Approval w)].

Definition check_map (path : string) (m : MapStep) : FieldErrors :=
  add_if (String.eqb (ms_From m) "" || String.eqb (ms_To m) "") (path +++ ".map") "from and to are required" [] ++
  add_if (String.eqb (ms_Mapping m) "") (path +++ ".map.mapping") "is required" [].

Definition check_step (i : Z) (s : Step) : FieldErrors :=
  let path := at_index "spec.steps" i in
  match step_kind s, s_Map s, s_Resolve s, s_Write s with
  | "map", Some m, _, _ => check_map path m
  | "resolve", _, Some r, _ => check_resolve path r
  | "write", _, _, Some w => check_write path w
  | _, _, _, _ => add_if true path "exactly one of map, resolve or write must be set" []
  end.

Definition Validate_recipe (r : Recipe) : FieldErrors :=
  let s := r_Spec r in
  validateTypeMeta (r_TypeMeta r) KindRecipe ++
  validateMeta (r_Metadata r) false ++
  add_if (String.eqb (tr_Source (rc_Trigger s)) "") "spec.trigger.source" "is required" [] ++
  add_if (String.eqb (tr_Event (rc_Trigger s)) "") "spec.trigger.event" "is required" [] ++
  add_if (bool_decide (List.length (rc_Steps s) = 0)) "spec.steps" "at least one step is required" [] ++
  for_each (fun i x =>
    add_if (negb (fullmatch nameRE (fst (ParseRef x)))) (at_index "spec.extensions" i)
      "must be a plugin reference such as credit-check@1.2, got %q" [FStr x]) (rc_Extensions s) ++
  for_each check_step (rc_Steps s) ++
  match rc_P95Latency s with
  | Some p95 =>
      add_if (negb (String.eqb p95 "") &&
              negb (match ParseDuration p95 with Some d => (0 <? d)%Z | None => false end))
        "spec.slo.p95Latency" "must be a positive duration such as 2s or 500ms, got %q" [FStr p95]
  | None => []
  end ++
  match rc_PeakPerSecond s with
  | Some peak => add_if (PrimFloat.leb peak 0%float) "spec.capacity.peakPerSecond" "must be positive" []
  | None => []
  end.

(** ** Slot contracts, plugins, blueprints and policy packs ([stack.go]) *)

Record ContractAction := mkContractAction { ca_Name : string; ca_Entity : string; ca_Risk : string }.

Record SlotContract := mkSlotContract {
  sc_TypeMeta : TypeMeta;
  sc_Metadata : ObjectMeta;
  sc_Model : string;
  sc_Entities : list string;
  sc_Events : list string;
  sc_Actions : list ContractAction
}.

Definition Validate_contract (c : SlotContract) : FieldErrors :=
  validateTypeMeta (sc_TypeMeta c) KindSlotContract ++
  validateMeta (sc_Metadata c) true ++
  add_if (bool_decide (List.length (sc_Entities c) = 0)) "spec.entities" "at least one entity is required" [] ++
  for_each (fun i a =>
    let path := at_index "spec.actions" i in
    add_if (negb (fullmatch nameRE (ca_Name a))) (path +++ ".name")
      "must be lowercase alphanumerics and dashes, got %q" [FStr (ca_Name a)] ++
    add_if (negb (validRisk (ca_Risk a))) (path +++ ".risk") "must be read, low or high, got %q" [FStr (ca_Risk a)])
    (sc_Actions c).

Definition PluginConnector : string := "connector".
Definition PluginLogic : string := "logic".
Definition PluginRecipePack : string := "recipe-pack".
Definition PluginModelExtension : string := "model-extension".
Definition PluginPolicyPack : string := "policy-pack".
Definition PluginUIPanel : string := "ui-panel".
Definition PluginAgent : string := "agent".
Definition PluginApp : string := "app".
Definition PluginRuntimeWasm : string := "wasm".
Definition PluginRuntimeContainer : string := "container".
Definition PluginRuntimeExternal : string := "external".
Definition PluginRuntimeDeclarative : string := "declarative".
Definition PluginRuntimeIframe : string := "iframe".

Record EntityPermissions := mkEntityPermissions { ep_Read : list string; ep_Propose : list string }.

(** [Network] and [Events] hold the lists of their permission objects. *)
Record PluginPermissions := mkPluginPermissions {
  pp_Entities : option EntityPermissions;
  pp_Network : option (list string);
  pp_Events : option (list string);
  pp_Secrets : list string
}.

Record PluginLimits := mkPluginLimits { MemoryMB : Z; TimeoutMs : Z }.

Record PluginSpec := mkPluginSpec {
  ps_Type : string;
  ps_Runtime : string;
  ps_World : string;
  ps_Module : string;
  ps_Implements : list string;
  ps_Connector : string;
  ps_Subscribes : list string;
  ps_Permissions : PluginPermissions;
  ps_Limits : option PluginLimits;
  ps_UI : option string
}.

Record Plugin := mkPlugin {
  p_TypeMeta : TypeMeta;
  p_Metadata : ObjectMeta;
  p_Spec : PluginSpec
}.

(** [\.label] repeated. *)
Definition dot_label : re := RSeq (RChr ".") label_re.
Definition topicRE : re := RSeq label_re (RStar dot_label).
Definition hostRE : re :=
  RSeq label_re (RSeq (RPlus dot_label) (ROpt (RSeq (RChr ":") (RPlus (RCls is_digit))))).

Definition allowedRuntimes (type : string) : option (list string) :=
  if String.eqb type PluginConnector then Some [PluginRuntimeContainer; PluginRuntimeWasm]
  else if String.eqb type PluginLogic then Some [PluginRuntimeWasm]
  else if String.eqb type PluginRecipePack then Some [PluginRuntimeDeclarative]
  else if String.eqb type PluginModelExtension then Some [PluginRuntimeDeclarative]
  else if String.eqb type PluginPolicyPack then Some [PluginRuntimeDeclarative]
  else if String.eqb type PluginUIPanel then Some [PluginRuntimeIframe]
  else if String.eqb type PluginAgent then Some [PluginRuntimeWasm; PluginRuntimeContainer; PluginRuntimeExternal]
  else if String.eqb type PluginApp then Some [PluginRuntimeContainer]
  else None.

(** Whether a module path stays next to or below its manifest. *)
Definition bad_module (m : string) : bool :=
  negb (has_suffix ".wasm" m) || has_prefix "/" m || bool_decide (".." ∈ split_on "/" m).

Definition check_module (s : PluginSpec) : FieldErrors :=
  if negb (String.eqb (ps_Type s) PluginLogic) then []
  else if String.eqb (ps_Module s) "" then
    add_if true "spec.module" "is required for logic plugins: the .wasm file, relative to this manifest" []
  else add_if (bad_module (ps_Module s)) "spec.module"
         "must be a .wasm file next to or below this manifest, got %q" [FStr (ps_Module s)].

Definition check_permissions (p : PluginPermissions) : FieldErrors :=
  match pp_Network p with
  | Some hosts =>
      for_each (fun i h =>
        add_if (contains_byte "*" h || negb (fullmatch hostRE h)) (at_index "spec.permissions.network.allow" i)
          "must be an explicit host name without wildcards, got %q" [FStr h]) hosts
  | None => []
  end ++
  match pp_Events p with
  | Some topics =>
      for_each (fun i t =>
        add_if (negb (fullmatch topicRE t)) (at_index "spec.permissions.events.publish" i)
          "must be a topic such as credit.checked (lowercase, digits, '.', '-'), got %q" [FStr t]) topics
  | None => []
  end ++
  for_each (fun i sec =>
    add_if (negb (fullmatch handleRE sec)) (at_index "spec.permissions.secrets" i)
      "must be a secret handle (lowercase name), never a value" []) (pp_Secrets p).

Definition sandboxed (s : PluginSpec) : bool :=
  String.eqb (ps_Runtime s) PluginRuntimeWasm || String.eqb (ps_Runtime s) PluginRuntimeContainer.

Definition Validate_plugin (p : Plugin) : FieldErrors :=
  let s := p_Spec p in
  validateTypeMeta (p_TypeMeta p) KindPlugin ++
  validateMeta (p_Metadata p) true ++
  add_if (String.eqb (om_Publisher (p_Metadata p)) "") "metadata.publisher" "is required" [] ++
  match allowedRuntimes (ps_Type s) with
  | None => add_if true "spec.type" "unknown plugin type %q" [FStr (ps_Type s)]
  | Some runtimes =>
      add_if (negb (oneOf (ps_Runtime s) runtimes)) "spec.runtime" "a %s plugin must run in one of %v, got %q"
        [FStr (ps_Type s); FStrs runtimes; FStr (ps_Runtime s)]
  end ++
  add_if (String.eqb (ps_Runtime s) PluginRuntimeWasm && String.eqb (ps_World s) "") "spec.world"
    "is required for wasm plugins" [] ++
  check_module s ++
  add_if (sandboxed s && match ps_Limits s with
                         | None => true
                         | Some l => (MemoryMB l <=? 0)%Z || (TimeoutMs l <=? 0)%Z
                         end)
    "spec.limits" "memoryMB and timeoutMs must be set for sandboxed plugins" [] ++
  (if String.eqb (ps_Type s) PluginConnector then
     add_if (bool_decide (List.length (ps_Implements s) = 0)) "spec.implements"
       "a connector plugin must implement at least one slot contract" [] ++
     add_if (String.eqb (ps_Connector s) "") "spec.connector" "a connector plugin must name its connector manifest" []
   else []) ++
  check_permissions (ps_Permissions s) ++
  match ps_UI s with
  | Some panel =>
      add_if (negb (has_prefix "ui://" panel)) "spec.ui.panel" "must be a ui:// resource URI, got %q" [FStr panel]
  | None => []
  end.

Record SlotBinding := mkSlotBinding { sb_Plugin : string; sb_Version : string; sb_Connection : string }.

Record StackBlueprint := mkStackBlueprint {
  b_TypeMeta : TypeMeta;
  b_Metadata : ObjectMeta;
  b_Model : string;
  b_Slots : gmap string SlotBinding;
  b_Extensions : list string;
  b_Recipes : list string;
  b_Policies : list string
}.

(** [slots] lists the map's entries in the order the loop visits them. *)
Definition Validate_blueprint (slots : list (string * SlotBinding)) (b : StackBlueprint) : FieldErrors :=
  validateTypeMeta (b_TypeMeta b) KindStackBlueprint ++
  validateMeta (b_Metadata b) false ++
  add_if (bool_decide (List.length slots = 0)) "spec.slots" "at least one slot is required" [] ++
  List.concat (map (fun '(name, s) =>
    add_if (negb (fullmatch nameRE name)) ("spec.slots." +++ name)
      "slot names must be lowercase alphanumerics and dashes" [] ++
    add_if (String.eqb (sb_Plugin s) "") ("spec.slots." +++ name +++ ".plugin") "is required" []) slots).

Record PolicyPack := mkPolicyPack {
  k_TypeMeta : TypeMeta;
  k_Metadata : ObjectMeta;
  k_Rego : string
}.

Definition package_char (c : ascii) : bool := word_char c || Ascii.eqb c ".".
Definition regoPackageRE : re :=
  RSeq (RStar (RCls re_space)) (RSeq (RStr "package") (RSeq (RPlus (RCls re_space))
    (RSeq (RCls word_start) (RSeq (RStar (RCls package_char)) (RStar (RCls re_space)))))).

Definition Validate_policy (p : PolicyPack) : FieldErrors :=
  validateTypeMeta (k_TypeMeta p) KindPolicyPack ++
  validateMeta (k_Metadata p) false ++
  add_if (negb (find_lines regoPackageRE true (k_Rego p))) "spec.rego"
    "must be a Rego module with a package declaration" [].

(** ** Objects of any kind *)

Inductive Object :=
| OConnector (c : ConnectorManifest)
| OConnection (c : Connection)
| ORecipe (r : Recipe)
| OMapping (m : Mapping)
| OContract (c : SlotContract)
| OPlugin (p : Plugin)
| OBlueprint (b : StackBlueprint)
| OPolicy (p : PolicyPack).

Definition GetTypeMeta (o : Object) : TypeMeta :=
  match o with
  | OConnector c => cm_TypeMeta c
  | OConnection c => cn_TypeMeta c
  | ORecipe r => r_TypeMeta r
  | OMapping m => mp_TypeMeta m
  | OContract c => sc_TypeMeta c
  | OPlugin p => p_TypeMeta p
  | OBlueprint b => b_TypeMeta b
  | OPolicy p => k_TypeMeta p
  end.

Definition GetMeta (o : Object) : ObjectMeta :=
  match o with
  | OConnector c => cm_Metadata c
  | OConnection c => cn_Metadata c
  | ORecipe r => r_Metadata r
  | OMapping m => mp_Metadata m
  | OContract c => sc_Metadata c
  | OPlugin p => p_Metadata p
  | OBlueprint b => b_Metadata b
  | OPolicy p => k_Metadata p
  end.

(** [Validate] of any object; a blueprint's slots in map order [slots_of]. *)
Definition Validate (json_object : string -> bool)
    (slots_of : StackBlueprint -> list (string * SlotBinding)) (o : Object) : FieldErrors :=
  match o with
  | OConnector c => Validate_connector c
  | OConnection c => Validate_connection json_object c
  | ORecipe r => Validate_recipe r
  | OMapping m => Validate_mapping m
  | OContract c => Validate_contract c
  | OPlugin p => Validate_plugin p
  | OBlueprint b => Validate_blueprint (slots_of b) b
  | OPolicy p => Validate_policy p
  end.
