(* ===== verification/ApiTheorems.v ===== *)
(** What schema validation decides. *)

From S2P Require Import Turgon Prelude GoStr GoErr GoTime Regex Api ApiKinds.
From Stdlib Require Import Ascii String.

(** What [Validate] guarantees, kind by kind: an object without violations is well
    formed, and a well-formed object has none; a connection narrows its connector. *)

(** ** Empty lists of violations *)

Lemma add_if_nil b path f args : add_if b path f args = [] <-> b = false.
Proof. by destruct b. Qed.

Lemma app_nil_iff {A} (a b : list A) : a ++ b = [] <-> a = [] /\ b = [].
Proof. split; [apply app_eq_nil|]. by intros [-> ->]. Qed.

Lemma for_each_nil {A} (f : Z -> A -> FieldErrors) (P : A -> Prop) l :
  (forall i x, f i x = [] <-> P x) -> for_each f l = [] <-> Forall P l.
Proof.
  intros Hf. unfold for_each, indexed. generalize 0%Z. induction l as [|x l IH]; intros i; cbn.
  - done.
  - by rewrite app_nil_iff, Forall_cons, Hf, IH.
Qed.

Lemma add_err_nil {A} path (r : result A) : add_err path r = [] <-> is_ok r = true.
Proof. by destruct r. Qed.

Lemma oneOf_in v l : oneOf v l = true <-> v ∈ l.
Proof.
  induction l as [|a l IH]; cbn.
  - split; [done|]. intros Hv. by apply elem_of_nil in Hv.
  - rewrite elem_of_cons. destruct (String.eqb_spec v a) as [->|N]; [by split; [left|]|].
    rewrite IH. split; [auto|]. by intros [?|].
Qed.

(** Turn the equations of violations into the conditions they check. *)
Ltac nils :=
  repeat first
    [ rewrite app_nil_iff | rewrite add_if_nil | rewrite add_err_nil
    | rewrite negb_false_iff | rewrite orb_false_iff | rewrite String.eqb_eq | rewrite String.eqb_neq
    | rewrite bool_decide_eq_false | rewrite bool_decide_eq_true | rewrite oneOf_in ].

(** ** Metadata *)

Definition type_ok (t : TypeMeta) (kind : string) : Prop :=
  tm_APIVersion t = APIVersion /\ tm_Kind t = kind.

Definition meta_ok (m : ObjectMeta) (versionRequired : bool) : Prop :=
  lang nameRE (om_Name m) /\
  (om_Version m = "" /\ versionRequired = false \/ om_Version m <> "" /\ lang semverRE (om_Version m)) /\
  om_Certification m ∈ [""; LevelL0; LevelL1; LevelL2; LevelL3].

Lemma validateTypeMeta_nil t kind : validateTypeMeta t kind = [] <-> type_ok t kind.
Proof. unfold validateTypeMeta, type_ok. by nils. Qed.

Lemma validateMeta_nil m v : validateMeta m v = [] <-> meta_ok m v.
Proof.
  unfold validateMeta, meta_ok. nils. rewrite <- !fullmatch_lang.
  destruct (String.eqb_spec (om_Version m) "") as [->|N]; destruct v; cbn [andb negb].
  - nils. split; [intros (_ & ? & _); done|]. intros (_ & [[_ ?]|[? _]] & _); done.
  - nils. split; intros (? & _ & ?); auto.
  - nils. split; [intros (? & ? & ?); auto|]. intros (? & [[? _]|[_ ?]] & ?); done.
  - nils. split; [intros (? & ? & ?); auto|]. intros (? & [[? _]|[_ ?]] & ?); done.
Qed.

(** ** Connector manifests *)

(** Operations and interfaces agree: the interface is declared for the direction and
    not prohibited; a write is low or high risk and a read is risk "read". *)
Definition operation_ok (ifs : Interfaces) (op : Operation) : Prop :=
  lang nameRE (op_Name op) /\
  (op_Direction op = DirectionRead /\ op_Risk op = RiskRead \/
   op_Direction op = DirectionWrite /\ (op_Risk op = RiskLow \/ op_Risk op = RiskHigh)) /\
  is_ok (permitted_in ifs (op_Direction op) (op_Interface op)) = true.

(** A declared compensation is another write operation of the list. *)
Definition compensation_ok (l : list Operation) (op : Operation) : Prop :=
  op_Compensation op = "" \/
  op_Direction op = DirectionWrite /\
  exists comp, comp ∈ l /\ op_Name comp = op_Compensation op /\ op_Direction comp = DirectionWrite.

Definition interface_ok (prohibited : list string) (dir : string) (i : Interface) : Prop :=
  if_Kind i <> "" /\ (if_Kind i ∉ prohibited) /\ (if_Simulation i = "" \/ dir = DirectionWrite).

Definition event_ok (ifs : Interfaces) (ev : ConnectorEvent) : Prop :=
  ev_Name ev <> "" /\ is_ok (permitted_in ifs "events" (ev_Interface ev)) = true.

Definition limits_ok (l : Limits) : Prop :=
  (0 < MaxConcurrentCalls l)%Z /\ PrimFloat.leb (RequestsPerSecond l) 0%float = false.

Definition manifest_ok (c : ConnectorManifest) : Prop :=
  let s := cm_Spec c in
  let ifs := cs_Interfaces s in
  let prohibited := map pi_Kind (ifs_Prohibited ifs) in
  (type_ok (cm_TypeMeta c) KindConnectorManifest /\ meta_ok (cm_Metadata c) true /\
   cs_System s <> "" /\ cs_Runtime s ∈ Runtimes /\ auth_Methods (cs_Auth s) <> [] /\
   lang secretRefRE (auth_SecretRef (cs_Auth s)) /\ limits_ok (cs_Limits s)) /\
  (Forall (fun p => pi_Kind p <> "" /\ pi_Reason p <> "") (ifs_Prohibited ifs) /\
   Forall (interface_ok prohibited DirectionRead) (ifs_Read ifs) /\
   Forall (interface_ok prohibited DirectionWrite) (ifs_Write ifs) /\
   Forall (interface_ok prohibited "events") (ifs_Events ifs)) /\
  (NoDup (map ev_Name (cs_Events s)) /\ Forall (event_ok ifs) (cs_Events s)) /\
  (NoDup (map op_Name (cs_Operations s)) /\ Forall (operation_ok ifs) (cs_Operations s) /\
   Forall (compensation_ok (cs_Operations s)) (cs_Operations s)).

(** A loop that remembers the names it has seen refuses exactly repetitions. *)
Lemma seen_cons {A} (name : A -> string) x l (seen : gset string) :
  Forall (fun e => name e ∉ {[name x]} ∪ seen) l <->
  (name x ∉ map name l) /\ Forall (fun e => name e ∉ seen) l.
Proof.
  rewrite !Forall_forall. setoid_rewrite not_elem_of_union. setoid_rewrite not_elem_of_singleton.
  split.
  - intros Hall. split; [|intros e He; by apply Hall].
    intros Hin. apply list_elem_of_fmap in Hin as (e & E & He). destruct (Hall e He) as [Hn _]. by apply Hn.
  - intros [Hn Hs] e He. split; [|by apply Hs]. intros E. apply Hn. rewrite <- E. by apply list_elem_of_fmap_2.
Qed.

Lemma check_limits_nil l : check_limits l = [] <-> limits_ok l.
Proof. unfold check_limits, limits_ok. nils. by rewrite Z.leb_gt. Qed.

Lemma checkList_nil prohibited dir l :
  checkList prohibited dir l = [] <-> Forall (interface_ok prohibited dir) l.
Proof.
  apply for_each_nil. intros i x. unfold interface_ok. nils. rewrite andb_false_iff. nils. done.
Qed.

Lemma check_events_nil ifs i evs seen :
  check_events ifs i evs seen = [] <->
  NoDup (map ev_Name evs) /\ Forall (event_ok ifs) evs /\ Forall (fun ev => ev_Name ev ∉ seen) evs.
Proof.
  revert i seen. induction evs as [|ev evs IH]; intros i seen; cbn [check_events map].
  { split; [|done]. intros _. repeat constructor. }
  nils. rewrite IH, NoDup_cons, !Forall_cons. unfold event_ok at 2.
  rewrite (seen_cons ev_Name). destruct (String.eqb_spec (ev_Name ev) "") as [E|N]; nils.
  - split; [intros (? & _); done|]. intros (_ & [[? _] _] & _). done.
  - tauto.
Qed.

Lemma check_operation_nil ifs path op :
  check_operation ifs path op = [] <->
  (op_Direction op = DirectionRead /\ op_Risk op = RiskRead \/
   op_Direction op = DirectionWrite /\ (op_Risk op = RiskLow \/ op_Risk op = RiskHigh)) /\
  is_ok (permitted_in ifs (op_Direction op) (op_Interface op)) = true.
Proof.
  unfold check_operation, validRisk. cbn [oneOf].
  destruct (String.eqb_spec (op_Direction op) DirectionRead) as [Er|Nr];
    [|destruct (String.eqb_spec (op_Direction op) DirectionWrite) as [Ew|Nw]]; cbn [negb]; nils.
  - rewrite Er. cbn [String.eqb DirectionRead DirectionWrite andb].
    destruct (String.eqb_spec (op_Risk op) RiskRead) as [->|N1]; [cbn; tauto|].
    destruct (String.eqb_spec (op_Risk op) RiskLow) as [->|N2]; [cbn; naive_solver|].
    destruct (String.eqb_spec (op_Risk op) RiskHigh) as [->|N3]; cbn; naive_solver.
  - rewrite Ew. cbn [String.eqb DirectionRead DirectionWrite andb].
    destruct (String.eqb_spec (op_Risk op) RiskRead) as [->|N1]; [cbn; naive_solver|].
    destruct (String.eqb_spec (op_Risk op) RiskLow) as [->|N2]; [cbn; naive_solver|].
    destruct (String.eqb_spec (op_Risk op) RiskHigh) as [->|N3]; cbn; naive_solver.
  - split; [done|]. intros [[[? _]|[? _]] _]; done.
Qed.

Lemma check_operations_nil ifs i l ops :
  fst (check_operations ifs i l ops) = [] <->
  NoDup (map op_Name l) /\ Forall (operation_ok ifs) l /\ Forall (fun op => ops !! op_Name op = None) l.
Proof.
  revert i ops. induction l as [|op l IH]; intros i ops; cbn [check_operations map].
  { split; [|done]. intros _. repeat constructor. }
  specialize (IH (i + 1)%Z (<[op_Name op := op]> ops)).
  destruct (check_operations _ _ l _) as [rest ops']. cbn [fst] in *. nils.
  rewrite IH, check_operation_nil, NoDup_cons, !Forall_cons. unfold operation_ok at 2. rewrite <- fullmatch_lang.
  assert (Hrest : Forall (fun o => <[op_Name op := op]> ops !! op_Name o = None) l <->
            (op_Name op ∉ map op_Name l) /\ Forall (fun o => ops !! op_Name o = None) l).
  { rewrite !Forall_forall. setoid_rewrite lookup_insert_None. split.
    - intros Hall. split; [|intros o Ho; by apply Hall].
      intros Hin. apply list_elem_of_fmap in Hin as (o & E & Ho). destruct (Hall o Ho) as [_ Hn]. by apply Hn.
    - intros [Hn Hs] o Ho. split; [by apply Hs|]. intros E. apply Hn. rewrite E. by apply list_elem_of_fmap_2. }
  assert (Hsome : is_some (ops !! op_Name op) = false <-> ops !! op_Name op = None)
    by (by destruct (ops !! op_Name op)).
  rewrite Hrest, Hsome. tauto.
Qed.

(** Without repetitions the map holds each operation under its name. *)
Lemma check_operations_map ifs i l ops name :
  NoDup (map op_Name l) ->
  snd (check_operations ifs i l ops) !! name =
    match find_first (fun o => String.eqb (op_Name o) name) l with Some o => Some o | None => ops !! name end.
Proof.
  revert i ops. induction l as [|op l IH]; intros i ops Hnd; cbn [check_operations find_first]; [done|].
  inversion Hnd as [|?? Hn Hnd']; subst. specialize (IH (i + 1)%Z (<[op_Name op := op]> ops) Hnd').
  destruct (check_operations _ _ l _) as [rest ops']. cbn [snd] in *. rewrite IH.
  destruct (String.eqb_spec (op_Name op) name) as [<-|N].
  - destruct (find_first _ l) as [o|] eqn:E; [|by rewrite lookup_insert_eq].
    apply find_first_some in E as [Ho E]. apply String.eqb_eq in E.
    exfalso. apply Hn. rewrite <- E. by apply list_elem_of_fmap_2.
  - destruct (find_first _ l); [done|]. by rewrite lookup_insert_ne.
Qed.

Lemma find_named l name :
  NoDup (map op_Name l) ->
  forall op, find_first (fun o => String.eqb (op_Name o) name) l = Some op <-> op ∈ l /\ op_Name op = name.
Proof.
  intros Hnd op. split.
  - intros Hf. apply find_first_some in Hf as [Ho E]. by apply String.eqb_eq in E.
  - intros [Ho <-]. induction l as [|o l IH]; [by apply elem_of_nil in Ho|].
    inversion Hnd as [|?? Hn Hnd']; subst. cbn [find_first].
    apply elem_of_cons in Ho as [->|Ho]; [by rewrite String.eqb_refl|].
    destruct (String.eqb_spec (op_Name o) (op_Name op)) as [E|_]; [|by apply IH].
    exfalso. apply Hn. rewrite E. by apply list_elem_of_fmap_2.
Qed.

Lemma check_compensations_nil ops l :
  NoDup (map op_Name l) ->
  (forall name, ops !! name = find_first (fun o => String.eqb (op_Name o) name) l) ->
  check_compensations ops l = [] <-> Forall (compensation_ok l) l.
Proof.
  intros Hnd Hops. apply for_each_nil. intros i op. unfold compensation_ok.
  destruct (String.eqb_spec (op_Compensation op) "") as [->|N]; [by split; [left|]|].
  destruct (String.eqb_spec (op_Direction op) DirectionWrite) as [->|Nw]; cbn [negb].
  2: { split; [done|]. by intros [?|[? _]]. }
  rewrite Hops. pose proof (find_named l (op_Compensation op) Hnd) as Hfind.
  destruct (find_first _ l) as [comp|].
  - nils. specialize (Hfind comp) as [Hfind _]. destruct (Hfind eq_refl) as [Hin Hname].
    split; [intros Hd; right; split; [done|]; by exists comp|].
    intros [?|[_ (c' & Hc' & En & Hd)]]; [done|].
    assert (c' = comp) as ->; [|done].
    destruct (find_named l (op_Compensation op) Hnd c') as [_ Hc].
    destruct (find_named l (op_Compensation op) Hnd comp) as [_ Hcomp].
    specialize (Hc (conj Hc' En)). specialize (Hcomp (conj Hin Hname)). congruence.
  - split; [done|]. intros [?|[_ (c' & Hc' & En & Hd)]]; [done|].
    destruct (Hfind c') as [_ Hc]. by specialize (Hc (conj Hc' En)).
Qed.

Lemma manifest_nil c : Validate_connector c = [] <-> manifest_ok c.
Proof.
  unfold Validate_connector, manifest_ok. cbv zeta.
  set (s := cm_Spec c). set (ifs := cs_Interfaces s).
  nils. rewrite validateTypeMeta_nil, validateMeta_nil, !checkList_nil, check_events_nil, check_limits_nil, fullmatch_lang.
  rewrite (for_each_nil _ (fun p => pi_Kind p <> "" /\ pi_Reason p <> "")) by (intros i p; by nils).
  assert (Hops : (let (es, ops) := check_operations ifs 0 (cs_Operations s) ∅ in
                  es ++ check_compensations ops (cs_Operations s)) = [] <->
    NoDup (map op_Name (cs_Operations s)) /\ Forall (operation_ok ifs) (cs_Operations s) /\
    Forall (compensation_ok (cs_Operations s)) (cs_Operations s)).
  { pose proof (check_operations_nil ifs 0 (cs_Operations s) ∅) as Hn.
    pose proof (check_operations_map ifs 0 (cs_Operations s) ∅) as Hm.
    destruct (check_operations ifs 0 (cs_Operations s) ∅) as [es ops]. cbn [fst snd] in *.
    rewrite app_nil_iff, Hn. split.
    - intros [(Hnd & Hok & _) Hc]. split; [done|]. split; [done|].
      apply (check_compensations_nil ops); [done| |done].
      intros name. rewrite Hm by done. by case_match.
    - intros (Hnd & Hok & Hc). split; [split; [done|split; [done|]]|].
      + apply Forall_forall. intros op _. apply lookup_empty.
      + apply (check_compensations_nil ops); [done| |done]. intros name. rewrite Hm by done. by case_match. }
  rewrite Hops.
  assert (Hempty : Forall (fun ev => ev_Name ev ∉ (∅ : gset string)) (cs_Events s))
    by (apply Forall_forall; intros ev _; apply not_elem_of_empty).
  tauto.
Qed.

(** ** Recipes *)

Definition map_ok (m : MapStep) : Prop := ms_From m <> "" /\ ms_To m <> "" /\ ms_Mapping m <> "".

Definition match_ok (m : MatchField) : Prop :=
  lang fieldNameRE (mf_Field m) /\ mf_Kind m ∈ [MatchEmail; MatchDomain; MatchName; MatchExact].

Definition resolve_ok (r : ResolveStep) : Prop :=
  rs_Entity r <> "" /\
  (PrimFloat.leb (rs_AutoMatchAbove r) 0%float = false /\ PrimFloat.ltb 1%float (rs_AutoMatchAbove r) = false) /\
  Forall match_ok (rs_Match r) /\ (rs_Strategy r = StrategyProbabilistic -> rs_Match r <> []).

Definition write_ok (w : WriteStep) : Prop :=
  ws_Target w <> "" /\ ws_Operation w <> "" /\ trim_space (ws_IdempotencyKey w) <> "" /\
  (ws_Output w = "" \/ lang fieldRE (ws_Output w)) /\
  ws_Approval w ∈ [""; ApprovalPolicy; ApprovalRequired; ApprovalNone].

(** A step is exactly one of the three, and that one is complete. *)
Definition step_ok (s : Step) : Prop :=
  (exists m, s = mkStep (Some m) None None /\ map_ok m) \/
  (exists r, s = mkStep None (Some r) None /\ resolve_ok r) \/
  (exists w, s = mkStep None None (Some w) /\ write_ok w).

Lemma check_map_nil path m : check_map path m = [] <-> map_ok m.
Proof. unfold check_map, map_ok. nils. tauto. Qed.

Lemma length_0 {A} (l : list A) : List.length l = 0 <-> l = [].
Proof. by destruct l. Qed.

Lemma check_resolve_nil path r : check_resolve path r = [] <-> resolve_ok r.
Proof.
  unfold check_resolve, resolve_ok. nils.
  rewrite (for_each_nil _ match_ok).
  - rewrite andb_false_iff. nils. rewrite length_0.
    destruct (String.eqb_spec (rs_Strategy r) StrategyProbabilistic) as [E|N]; [rewrite E|]; intuition congruence.
  - intros j m. unfold match_ok. nils. rewrite fullmatch_lang, !elem_of_cons, elem_of_nil, !andb_false_iff. nils. tauto.
Qed.

Lemma check_write_nil path w : check_write path w = [] <-> write_ok w.
Proof.
  unfold check_write, write_ok. nils. rewrite !andb_false_iff. nils. rewrite fullmatch_lang, (elem_of_cons _ _ ""). tauto.
Qed.

Lemma check_step_nil i s : check_step i s = [] <-> step_ok s.
Proof.
  unfold check_step, step_ok.
  destruct s as [[m|] [r|] [w|]];
    match goal with |- context [step_kind ?x] =>
      let k := eval vm_compute in (step_kind x) in change (step_kind x) with k end;
    cbn [s_Map s_Resolve s_Write].
  all: rewrite ?check_map_nil, ?check_resolve_nil, ?check_write_nil.
  all: split;
    [intros Hs|intros [(x & E & Hx)|[(x & E & Hx)|(x & E & Hx)]]; (discriminate E || (injection E as <-; exact Hx))].
  all: try discriminate Hs.
  - by left; exists m.
  - by right; left; exists r.
  - by right; right; exists w.
Qed.

Definition recipe_ok (r : Recipe) : Prop :=
  let s := r_Spec r in
  (type_ok (r_TypeMeta r) KindRecipe /\ meta_ok (r_Metadata r) false) /\
  (tr_Source (rc_Trigger s) <> "" /\ tr_Event (rc_Trigger s) <> "") /\
  (rc_Steps s <> [] /\ Forall step_ok (rc_Steps s)) /\
  Forall (fun x => lang nameRE (fst (ParseRef x))) (rc_Extensions s) /\
  (forall p95, rc_P95Latency s = Some p95 -> p95 = "" \/ exists d, ParseDuration p95 = Some d /\ (0 < d)%Z) /\
  (forall peak, rc_PeakPerSecond s = Some peak -> PrimFloat.leb peak 0%float = false).

Lemma recipe_nil r : Validate_recipe r = [] <-> recipe_ok r.
Proof.
  unfold Validate_recipe, recipe_ok. cbv zeta. set (s := r_Spec r).
  nils. rewrite length_0, validateTypeMeta_nil, validateMeta_nil.
  rewrite (for_each_nil check_step step_ok) by apply check_step_nil.
  rewrite (for_each_nil _ (fun x => lang nameRE (fst (ParseRef x)))) by (intros i x; nils; apply fullmatch_lang).
  assert (Hp95 : match rc_P95Latency s with
    | Some p95 =>
        add_if (negb (String.eqb p95 "") && negb (match ParseDuration p95 with Some d => (0 <? d)%Z | None => false end))
          "spec.slo.p95Latency" "must be a positive duration such as 2s or 500ms, got %q" [FStr p95]
    | None => [] end = [] <->
    forall p95, rc_P95Latency s = Some p95 -> p95 = "" \/ exists d, ParseDuration p95 = Some d /\ (0 < d)%Z).
  { destruct (rc_P95Latency s) as [p|]; [|by split]. nils. rewrite andb_false_iff. nils. split.
    - intros [->|Hd] p' [= <-]; [by left|]. destruct (ParseDuration p) as [d|]; [|done].
      right. exists d. by apply Z.ltb_lt in Hd.
    - intros Hall. destruct (Hall p eq_refl) as [->|(d & -> & Hd)]; [by left|right]. by apply Z.ltb_lt. }
  rewrite Hp95.
  assert (Hpeak : match rc_PeakPerSecond s with
    | Some peak => add_if (PrimFloat.leb peak 0%float) "spec.capacity.peakPerSecond" "must be positive" []
    | None => [] end = [] <->
    forall peak, rc_PeakPerSecond s = Some peak -> PrimFloat.leb peak 0%float = false).
  { destruct (rc_PeakPerSecond s) as [p|]; [|by split]. nils. split; [by intros ? p' [= <-]|auto]. }
  rewrite Hpeak. tauto.
Qed.

(** [Endpoints]: no name twice, and exactly the trigger's source and the targets. *)
Lemma add_endpoint_in n m out : m ∈ add_endpoint n out <-> m ∈ out \/ m = n /\ n <> "".
Proof.
  unfold add_endpoint. destruct (String.eqb_spec n "") as [->|N]; cbn [negb andb]; [naive_solver|].
  case_bool_decide as Hn; cbn [negb]; rewrite ?elem_of_app, ?elem_of_cons, ?elem_of_nil; naive_solver.
Qed.

Lemma add_endpoint_NoDup n out : NoDup out -> NoDup (add_endpoint n out).
Proof.
  unfold add_endpoint. intros Hnd. destruct (negb (String.eqb n "")); [|done]. cbn [andb].
  case_bool_decide as Hn; [done|]. cbn [negb]. apply NoDup_app. split; [done|].
  split; [|apply NoDup_singleton]. intros x Hx Hn'. apply list_elem_of_singleton in Hn' as ->. done.
Qed.

Lemma endpoints_fold steps out :
  let es := fold_left (fun out s => match s_Write s with Some w => add_endpoint (ws_Target w) out | None => out end) steps out in
  (NoDup out -> NoDup es) /\
  forall n, n ∈ es <-> n ∈ out \/ n <> "" /\ exists s w, s ∈ steps /\ s_Write s = Some w /\ ws_Target w = n.
Proof.
  revert out. induction steps as [|s steps IH]; intros out; cbn [fold_left].
  { split; [done|]. intros n. split; [auto|]. intros [?|(_ & s & w & Hs & _)]; [done|]. by apply elem_of_nil in Hs. }
  destruct (IH (match s_Write s with Some w => add_endpoint (ws_Target w) out | None => out end)) as [IHd IHn].
  split.
  - intros Hnd. apply IHd. destruct (s_Write s); [by apply add_endpoint_NoDup|done].
  - intros n. rewrite IHn. setoid_rewrite elem_of_cons. destruct (s_Write s) as [w|] eqn:Ew.
    + rewrite add_endpoint_in. split.
      * intros [[?|[-> Hne]]|(Hne & s' & w' & Hs' & Hw' & <-)]; [by left|right; eauto 10|right; eauto 10].
      * intros [?|(Hne & s' & w' & [->|Hs'] & Hw' & <-)]; [auto| |right; eauto 10].
        left. right. split; [congruence|]. congruence.
    + split.
      * intros [?|(Hne & s' & w' & Hs' & Hw' & <-)]; [by left|right; eauto 10].
      * intros [?|(Hne & s' & w' & [->|Hs'] & Hw' & <-)]; [auto|congruence|right; eauto 10].
Qed.

(** ** Mappings *)

Definition field_ok (f : FieldMapping) : Prop :=
  fm_Target f <> "" /\ fm_Expression f <> "" /\ fm_Origin f ∈ [OriginCertified; OriginAI; OriginHuman] /\
  PrimFloat.ltb (fm_Confidence f) 0%float = false /\ PrimFloat.ltb 1%float (fm_Confidence f) = false.

Definition mapping_ok (m : Mapping) : Prop :=
  (type_ok (mp_TypeMeta m) KindMapping /\ meta_ok (mp_Metadata m) true /\ mp_From m <> "" /\ mp_To m <> "") /\
  mp_Fields m <> [] /\ NoDup (map fm_Target (mp_Fields m)) /\ Forall field_ok (mp_Fields m).

Lemma check_fields_nil i fs seen :
  check_fields i fs seen = [] <->
  NoDup (map fm_Target fs) /\ Forall field_ok fs /\ Forall (fun f => fm_Target f ∉ seen) fs.
Proof.
  revert i seen. induction fs as [|f fs IH]; intros i seen; cbn [check_fields map].
  { split; [|done]. intros _. repeat constructor. }
  nils. rewrite IH, NoDup_cons, !Forall_cons. unfold field_ok at 2. rewrite (seen_cons fm_Target).
  destruct (String.eqb_spec (fm_Target f) "") as [E|N]; nils.
  - split; [intros (? & _); done|]. intros (_ & [[? _] _] & _). done.
  - tauto.
Qed.

Lemma mapping_nil m : Validate_mapping m = [] <-> mapping_ok m.
Proof.
  unfold Validate_mapping, mapping_ok. nils. rewrite length_0, validateTypeMeta_nil, validateMeta_nil, check_fields_nil.
  assert (Hempty : Forall (fun f => fm_Target f ∉ (∅ : gset string)) (mp_Fields m))
    by (apply Forall_forall; intros f _; apply not_elem_of_empty).
  tauto.
Qed.

(** ** Plugins *)

Definition plugin_ok (p : Plugin) : Prop :=
  let s := p_Spec p in
  (type_ok (p_TypeMeta p) KindPlugin /\ meta_ok (p_Metadata p) true /\ om_Publisher (p_Metadata p) <> "") /\
  (exists runtimes, allowedRuntimes (ps_Type s) = Some runtimes /\ ps_Runtime s ∈ runtimes) /\
  (ps_Runtime s = PluginRuntimeWasm -> ps_World s <> "") /\
  (ps_Type s = PluginLogic ->
     ps_Module s <> "" /\ has_suffix ".wasm" (ps_Module s) = true /\ has_prefix "/" (ps_Module s) = false /\
     ".." ∉ split_on "/" (ps_Module s)) /\
  (sandboxed s = true -> exists l, ps_Limits s = Some l /\ (0 < MemoryMB l)%Z /\ (0 < TimeoutMs l)%Z) /\
  (ps_Type s = PluginConnector -> ps_Implements s <> [] /\ ps_Connector s <> "") /\
  (forall hosts, pp_Network (ps_Permissions s) = Some hosts ->
     Forall (fun h => contains_byte "*" h = false /\ lang hostRE h) hosts) /\
  (forall topics, pp_Events (ps_Permissions s) = Some topics -> Forall (lang topicRE) topics) /\
  Forall (lang handleRE) (pp_Secrets (ps_Permissions s)) /\
  (forall panel, ps_UI s = Some panel -> has_prefix "ui://" panel = true).

Lemma check_module_nil s :
  check_module s = [] <->
  (ps_Type s = PluginLogic ->
     ps_Module s <> "" /\ has_suffix ".wasm" (ps_Module s) = true /\ has_prefix "/" (ps_Module s) = false /\
     ".." ∉ split_on "/" (ps_Module s)).
Proof.
  unfold check_module, bad_module. destruct (String.eqb_spec (ps_Type s) PluginLogic) as [E|N]; cbn [negb].
  2: { by split. }
  destruct (String.eqb_spec (ps_Module s) "") as [Em|Nm]; nils; [split; [done|]; intros Hx; by destruct (Hx E)|].
  rewrite E. tauto.
Qed.

Lemma check_permissions_nil p :
  check_permissions p = [] <->
  (forall hosts, pp_Network p = Some hosts -> Forall (fun h => contains_byte "*" h = false /\ lang hostRE h) hosts) /\
  (forall topics, pp_Events p = Some topics -> Forall (lang topicRE) topics) /\
  Forall (lang handleRE) (pp_Secrets p).
Proof.
  unfold check_permissions. nils.
  rewrite (for_each_nil _ (lang handleRE)) by (intros i x; nils; apply fullmatch_lang).
  assert (Hn : match pp_Network p with
    | Some hosts => for_each (fun i h =>
        add_if (contains_byte "*" h || negb (fullmatch hostRE h)) (at_index "spec.permissions.network.allow" i)
          "must be an explicit host name without wildcards, got %q" [FStr h]) hosts
    | None => [] end = [] <->
    forall hosts, pp_Network p = Some hosts -> Forall (fun h => contains_byte "*" h = false /\ lang hostRE h) hosts).
  { destruct (pp_Network p) as [hs|]; [|by split].
    rewrite (for_each_nil _ (fun h => contains_byte "*" h = false /\ lang hostRE h))
      by (intros i x; nils; by rewrite fullmatch_lang).
    split; [by intros ? ? [= <-]|auto]. }
  assert (He : match pp_Events p with
    | Some topics => for_each (fun i t =>
        add_if (negb (fullmatch topicRE t)) (at_index "spec.permissions.events.publish" i)
          "must be a topic such as credit.checked (lowercase, digits, '.', '-'), got %q" [FStr t]) topics
    | None => [] end = [] <->
    forall topics, pp_Events p = Some topics -> Forall (lang topicRE) topics).
  { destruct (pp_Events p) as [ts|]; [|by split].
    rewrite (for_each_nil _ (lang topicRE)) by (intros i x; nils; apply fullmatch_lang).
    split; [by intros ? ? [= <-]|auto]. }
  by rewrite Hn, He.
Qed.

Lemma plugin_nil p : Validate_plugin p = [] <-> plugin_ok p.
Proof.
  unfold Validate_plugin, plugin_ok. cbv zeta. set (s := p_Spec p).
  nils. rewrite validateTypeMeta_nil, validateMeta_nil, check_module_nil, check_permissions_nil.
  assert (Hr : match allowedRuntimes (ps_Type s) with
    | None => add_if true "spec.type" "unknown plugin type %q" [FStr (ps_Type s)]
    | Some runtimes =>
        add_if (negb (oneOf (ps_Runtime s) runtimes)) "spec.runtime" "a %s plugin must run in one of %v, got %q"
          [FStr (ps_Type s); FStrs runtimes; FStr (ps_Runtime s)]
    end = [] <-> exists runtimes, allowedRuntimes (ps_Type s) = Some runtimes /\ ps_Runtime s ∈ runtimes).
  { destruct (allowedRuntimes (ps_Type s)) as [rs|]; nils.
    - split; [eauto|]. by intros (rs' & [= <-] & ?).
    - split; [done|]. by intros (rs' & ? & ?). }
  assert (Hl : sandboxed s && match ps_Limits s with
                              | None => true
                              | Some l => (MemoryMB l <=? 0)%Z || (TimeoutMs l <=? 0)%Z end = false <->
    (sandboxed s = true -> exists l, ps_Limits s = Some l /\ (0 < MemoryMB l)%Z /\ (0 < TimeoutMs l)%Z)).
  { destruct (sandboxed s); [|by split]. destruct (ps_Limits s) as [l|]; cbn [andb].
    - rewrite orb_false_iff, !Z.leb_gt. split; [eauto|]. intros Hx. by destruct (Hx eq_refl) as (l' & [= <-] & ?).
    - split; [done|]. intros Hx. by destruct (Hx eq_refl) as (l' & ? & ?). }
  assert (Hc : (if String.eqb (ps_Type s) PluginConnector then
     add_if (bool_decide (List.length (ps_Implements s) = 0)) "spec.implements"
       "a connector plugin must implement at least one slot contract" [] ++
     add_if (String.eqb (ps_Connector s) "") "spec.connector" "a connector plugin must name its connector manifest" []
     else []) = [] <-> (ps_Type s = PluginConnector -> ps_Implements s <> [] /\ ps_Connector s <> "")).
  { destruct (String.eqb_spec (ps_Type s) PluginConnector) as [E|N]; [|by split]. nils. rewrite length_0. tauto. }
  assert (Hu : match ps_UI s with
    | Some panel => add_if (negb (has_prefix "ui://" panel)) "spec.ui.panel" "must be a ui:// resource URI, got %q" [FStr panel]
    | None => [] end = [] <-> (forall panel, ps_UI s = Some panel -> has_prefix "ui://" panel = true)).
  { destruct (ps_UI s) as [pn|]; [|by split]. nils. split; [by intros ? ? [= <-]|auto]. }
  rewrite Hr, Hl, Hc, Hu, andb_false_iff. nils.
  assert (Hw : ps_Runtime s <> PluginRuntimeWasm \/ ps_World s <> "" <-> (ps_Runtime s = PluginRuntimeWasm -> ps_World s <> "")).
  { destruct (decide (ps_Runtime s = PluginRuntimeWasm)); tauto. }
  rewrite Hw. tauto.
Qed.

(** The properties of the object model: schema validation decides well-formedness, a
    connection narrows its connector and never widens it, a recipe's endpoints are
    what it touches; and sample objects that witness them. *)

Lemma float_ltb_irrefl (x : float64) : PrimFloat.ltb x x = false.
Proof.
  rewrite FloatAxioms.ltb_spec. unfold SFltb, SFcompare.
  destruct (Prim2SF x) as [s|s| |s m e]; [done|by destruct s|done|].
  rewrite Z.compare_refl. destruct s; by rewrite Pos.compare_cont_refl.
Qed.

Lemma map_nil_iff {A B} (f : A -> B) l : map f l = [] <-> l = [].
Proof. by destruct l. Qed.

Lemma find_first_app {A} (f : A -> bool) l1 l2 x :
  find_first f l1 = Some x -> find_first f (l1 ++ l2) = Some x.
Proof. induction l1 as [|y l1 IH]; cbn; [done|]. by destruct (f y). Qed.

Lemma ParseRef_spec name constraint :
  contains_byte "@" constraint = false -> ParseRef (name +++ "@" +++ constraint) = (name, constraint).
Proof.
  intros Hc. unfold ParseRef.
  assert (cut_last "@" (name +++ "@" +++ constraint) = Some (name, constraint)) as ->; [|done].
  assert (Hnone : forall s, contains_byte "@" s = false -> cut_last "@" s = None).
  { induction s as [|a s IH]; cbn; [done|]. destruct (ascii_dec a "@"); [done|]. intros Hs. by rewrite IH. }
  induction name as [|a name IH].
  - change ("" +++ "@" +++ constraint) with (String "@" constraint). cbn [cut_last].
    rewrite Hnone by done. by destruct (ascii_dec "@" "@").
  - change (String a name +++ "@" +++ constraint) with (String a (name +++ "@" +++ constraint)).
    cbn [cut_last]. by rewrite IH.
Qed.

(** * Properties *)

(** [Validate] decides whether a connector manifest is well formed: there are no
    violations exactly when its names, version, runtime, secret reference and limits
    are as the schema wants, no interface is both permitted and prohibited, events
    and operations have distinct names and use interfaces declared for their
    direction and not prohibited, risk agrees with direction, and every compensation
    is a write operation of the manifest declared by a write operation. *)
Theorem Validate_connector_decides (c : ConnectorManifest) :
  Validate_connector c = [] <-> manifest_ok c.
Proof. apply manifest_nil. Qed.

(** A connection narrows what a connector does and never widens how it does it.
    When the merged manifest has no violations, every operation and event in it, the
    connection's included, uses an interface the connector itself permits for that
    direction; no operation of the connector is redefined; the secret is still a
    reference; and the limits of a connector with operations of its own are not
    raised. *)
Theorem connection_never_widens (c : Connection) (m : ConnectorManifest) :
  ValidateEffective c m = [] ->
  let e := Effective c m in
  (forall op, op ∈ cs_Operations (cm_Spec e) ->
     exists i, Permitted m (op_Direction op) (op_Interface op) = Ok i) /\
  (forall ev, ev ∈ cs_Events (cm_Spec e) -> exists i, Permitted m "events" (ev_Interface ev) = Ok i) /\
  (forall name op, find_operation m name = Some op -> find_operation e name = Some op /\
     forall op', op' ∈ cs_Operations (cm_Spec e) -> op_Name op' = name -> op' = op) /\
  lang secretRefRE (auth_SecretRef (cs_Auth (cm_Spec e))) /\
  (cs_Operations (cm_Spec m) <> [] -> raises_limits (cs_Limits (cm_Spec e)) (cs_Limits (cm_Spec m)) = false).
Proof.
  unfold ValidateEffective. rewrite app_nil_iff, map_nil_iff, manifest_nil. intros [Hok Hlim]. cbv zeta.
  destruct Hok as ((_ & _ & _ & _ & _ & Hsec & _) & _ & (_ & Hev) & (Hnd & Hops & _)).
  rewrite Forall_forall in Hops. rewrite Forall_forall in Hev.
  split; [|split; [|split; [|split]]].
  - intros op Hop. destruct (Hops op Hop) as (_ & _ & Hp). unfold Permitted.
    cbn [Effective cm_Spec cs_Interfaces] in Hp. destruct (permitted_in _ _ _) as [i|]; [eauto|done].
  - intros ev Hin. destruct (Hev ev Hin) as (_ & Hp). unfold Permitted.
    cbn [Effective cm_Spec cs_Interfaces] in Hp. destruct (permitted_in _ _ _) as [i|]; [eauto|done].
  - intros name op Hf.
    assert (Hfe : find_operation (Effective c m) name = Some op) by (by apply find_first_app).
    split; [done|]. intros op' Hin Hn.
    pose proof (proj2 (find_named _ name Hnd op') (conj Hin Hn)) as Hf'. unfold find_operation in Hfe. congruence.
  - exact Hsec.
  - intros Hne. cbn [Effective cm_Spec cs_Limits]. destruct (cn_Limits (cn_Spec c)) as [l|].
    + apply add_if_nil in Hlim. apply andb_false_iff in Hlim as [Hl|Hl]; [|done].
      apply negb_false_iff, bool_decide_eq_true in Hl. apply length_0 in Hl. done.
    + unfold raises_limits. by rewrite float_ltb_irrefl, Z.ltb_irrefl.
Qed.

(** [Validate] decides whether a recipe is well formed: a trigger, at least one
    step, and every step exactly one of map, resolve and write with what that one
    needs (a write its target, operation, non-blank idempotency key and a known
    approval mode); a latency objective that parses as a positive duration; a
    positive capacity. And [Endpoints] lists exactly the systems the recipe touches,
    the trigger's source and the write targets, none twice. *)
Theorem Validate_recipe_decides (r : Recipe) :
  (Validate_recipe r = [] <-> recipe_ok r) /\
  NoDup (Endpoints r) /\
  forall n, n ∈ Endpoints r <->
    n <> "" /\ (n = tr_Source (rc_Trigger (r_Spec r)) \/
                exists s w, s ∈ rc_Steps (r_Spec r) /\ s_Write s = Some w /\ ws_Target w = n).
Proof.
  split; [apply recipe_nil|]. unfold Endpoints.
  destruct (endpoints_fold (rc_Steps (r_Spec r)) (add_endpoint (tr_Source (rc_Trigger (r_Spec r))) [])) as [Hd Hn].
  split.
  - apply Hd, add_endpoint_NoDup. constructor.
  - intros n. rewrite Hn, add_endpoint_in, elem_of_nil. split.
    + intros [[[]|[-> ?]]|(? & ?)]; [by split; [|left]|by split; [|right]].
    + intros (Hne & [->|?]); [by left; right|by right].
Qed.

(** [Validate] decides whether mappings and plugins are well formed: a mapping's
    fields have distinct targets, expressions, a known origin and a confidence in
    [0, 1]; a plugin runs in an isolation tier its type allows, a sandboxed one with
    positive limits, its module stays below its manifest, its hosts are explicit and
    its secrets are handles, never values. *)
Theorem Validate_mapping_plugin_decide (m : Mapping) (p : Plugin) :
  (Validate_mapping m = [] <-> mapping_ok m) /\ (Validate_plugin p = [] <-> plugin_ok p).
Proof. split; [apply mapping_nil|apply plugin_nil]. Qed.

(** * Witnesses *)

Definition meta (name version : string) : ObjectMeta := mkObjectMeta name version "turgon" LevelL1 "" ∅.

Definition sap_interfaces : Interfaces :=
  mkInterfaces [mkInterface "rfc" ""] [mkInterface "bapi" "testrun"] [mkInterface "idoc" ""]
    [mkProhibited "table-write" "writes past the application"].

Definition create_order : Operation :=
  mkOperation "create-order" "SalesOrder" DirectionWrite "bapi" RiskHigh "cancel-order".
Definition cancel_order : Operation :=
  mkOperation "cancel-order" "SalesOrder" DirectionWrite "bapi" RiskLow "".
Definition get_order : Operation := mkOperation "get-order" "SalesOrder" DirectionRead "rfc" RiskRead "".

Definition sap : ConnectorManifest :=
  mkConnectorManifest (mkTypeMeta APIVersion KindConnectorManifest) (meta "sap-ecc" "0.4.1")
    (mkConnectorSpec "SAP ECC 6.0" "camel-java" (mkAuth ["x509"] "openbao://sap") [] sap_interfaces
       ["SalesOrder"] [mkEvent "order-changed" "SalesOrder" "idoc"] [create_order; cancel_order; get_order]
       (mkLimits 2 5%float) true []).

Definition plant : Connection :=
  mkConnection (mkTypeMeta APIVersion KindConnection) (meta "sap-plant-1" "")
    (mkConnectionSpec "sap-ecc@^0.4" "openbao://plant1" ["Invoice"] []
       [mkOperation "get-invoice" "Invoice" DirectionRead "rfc" RiskRead ""] "" (Some (mkLimits 1 2%float))).

Example sap_valid : Validate_connector sap = [].
Proof. vm_compute. reflexivity. Qed.

Lemma connection_never_widens_witness :
  exists i, Permitted sap DirectionRead "rfc" = Ok i.
Proof.
  apply (connection_never_widens plant sap ltac:(vm_compute; reflexivity)) with
    (op := mkOperation "get-invoice" "Invoice" DirectionRead "rfc" RiskRead "").
  vm_compute. do 3 right. left.
Defined.
