(* ===== verification/Catalog.v ===== *)
(** The catalog: [src/pkg/catalog/catalog.go]. Objects are indexed by kind and name,
    their versions highest first; references resolve to the highest version that
    satisfies a constraint. Reading files ([Load], [PluginModule]) is left out. *)

From S2P Require Import Turgon Prelude GoStr GoErr Semver Api ApiKinds ApiTheorems.
From Stdlib Require Import Ascii String.

Definition ErrNotFound : string := "not found".

Record entry := mkEntry { e_version : Version; e_obj : Object; e_source : string }.

(** [objects]: kind, name, versions highest first. *)
Definition Catalog := gmap string (gmap string (list entry)).

Definition New : Catalog := ∅.

(** The entries under a kind and name; a missing key gives nil. *)
Definition entries (c : Catalog) (kind name : string) : list entry :=
  default [] (default ∅ (c !! kind) !! name).

(** [sort.Slice] with the highest version first. *)
Definition higher (a b : entry) : bool := (0 <=? Compare (e_version a) (e_version b))%Z.
Definition sort_entries (l : list entry) : list entry := isort higher l.

(** The version an object is indexed under; none means 0.0.0. *)
Definition object_version (o : Object) : result Version :=
  let raw := om_Version (GetMeta o) in Parse (if String.eqb raw "" then "0.0.0" else raw).

Definition add (c : Catalog) (o : Object) (source : string) : result Catalog :=
  let kind := tm_Kind (GetTypeMeta o) in
  let name := om_Name (GetMeta o) in
  match object_version o with
  | Err err => Err (Wrapf (Msg "%s/%s: %w" [FStr kind; FStr name]) [err])
  | Ok v =>
      let byName := default ∅ (c !! kind) in
      match find_first (fun e => (Compare (e_version e) v =? 0)%Z) (default [] (byName !! name)) with
      | Some e =>
          Err (Errorf (Msg "duplicate %s %s@%s (%s and %s)"
            [FStr kind; FStr name; FStr (version_string v); FStr (e_source e); FStr source]))
      | None =>
          Ok (<[kind := <[name := sort_entries (default [] (byName !! name) ++ [mkEntry v o source])]> byName]> c)
      end
  end.

Definition Add (c : Catalog) (o : Object) : result Catalog := add c o "".

(** [FromDocuments]: objects with their sources, in order. *)
Fixpoint add_all (c : Catalog) (docs : list (Object * string)) : result Catalog :=
  match docs with
  | [] => Ok c
  | (o, source) :: docs => let! c := add c o source in add_all c docs
  end.
Definition FromDocuments (docs : list (Object * string)) : result Catalog := add_all New docs.

Definition Resolve (c : Catalog) (kind name constraint : string) : result Object :=
  match ParseConstraint constraint with
  | Err err => Err (Wrapf (Msg "%s %s: %w" [FStr kind; FStr name]) [err])
  | Ok con =>
      match find_first (fun e => constraint_check con (e_version e)) (entries c kind name) with
      | Some e => Ok (e_obj e)
      | None =>
          match entries c kind name with
          | [] => Err (Wrapf (Msg "%s %q: %w" [FStr kind; FStr name]) [Sentinel ErrNotFound])
          | _ => Err (Wrapf (Msg "%s %q: no version satisfies %s: %w"
                        [FStr kind; FStr name; FStr (constraint_string con)]) [Sentinel ErrNotFound])
          end
      end
  end.

Definition ResolveRef (c : Catalog) (kind ref : string) : result Object :=
  let (name, con) := ParseRef ref in Resolve c kind name con.

(** A failed type assertion panics. *)
Definition Panic : string := "panic: interface conversion".

Definition assert_type {A} (cast : Object -> option A) (r : result Object) : result A :=
  match r with
  | Err e => Err e
  | Ok o => match cast o with Some a => Ok a | None => Err (Sentinel Panic) end
  end.

Definition as_connector (o : Object) := match o with OConnector c => Some c | _ => None end.
Definition as_connection (o : Object) := match o with OConnection c => Some c | _ => None end.
Definition as_mapping (o : Object) := match o with OMapping m => Some m | _ => None end.
Definition as_contract (o : Object) := match o with OContract c => Some c | _ => None end.
Definition as_plugin (o : Object) := match o with OPlugin p => Some p | _ => None end.
Definition as_recipe (o : Object) := match o with ORecipe r => Some r | _ => None end.
Definition as_policy (o : Object) := match o with OPolicy p => Some p | _ => None end.

Definition Connector (c : Catalog) (name constraint : string) : result ConnectorManifest :=
  assert_type as_connector (Resolve c KindConnectorManifest name constraint).
Definition get_Connection (c : Catalog) (name : string) : result Connection :=
  assert_type as_connection (Resolve c KindConnection name "").
Definition get_Mapping (c : Catalog) (ref : string) : result Mapping :=
  assert_type as_mapping (ResolveRef c KindMapping ref).
Definition Contract (c : Catalog) (ref : string) : result SlotContract :=
  assert_type as_contract (ResolveRef c KindSlotContract ref).
Definition get_Plugin (c : Catalog) (name constraint : string) : result Plugin :=
  assert_type as_plugin (Resolve c KindPlugin name constraint).
Definition get_Recipe (c : Catalog) (ref : string) : result Recipe :=
  assert_type as_recipe (ResolveRef c KindRecipe ref).
Definition get_Policy (c : Catalog) (ref : string) : result PolicyPack :=
  assert_type as_policy (ResolveRef c KindPolicyPack ref).

(** [Find]: the latest object of the name, kinds from the end of [Kinds]. *)
Fixpoint find_in (c : Catalog) (kinds : list string) (name : string) : result Object :=
  match kinds with
  | [] => Err (Wrapf (Msg "%q: %w" [FStr name]) [Sentinel ErrNotFound])
  | kind :: kinds =>
      match entries c kind name with
      | e :: _ => Ok (e_obj e)
      | [] => find_in c kinds name
      end
  end.
Definition Find (c : Catalog) (name : string) : result Object := find_in c (rev Kinds) name.

(** [All]: kind order, then names sorted, then versions highest first. *)
Definition names_of (c : Catalog) (kind : string) : list string :=
  sort_strings (map fst (map_to_list (default ∅ (c !! kind)))).
Definition All (c : Catalog) : list Object :=
  List.concat (map (fun kind => List.concat (map (fun n => map e_obj (entries c kind n)) (names_of c kind))) Kinds).

(** ** Invariant *)

(** The Go type of an object agrees with the kind it declares, as documents are
    decoded ([pkg/spec]). *)
Definition kind_of (o : Object) : string :=
  match o with
  | OConnector _ => KindConnectorManifest
  | OConnection _ => KindConnection
  | ORecipe _ => KindRecipe
  | OMapping _ => KindMapping
  | OContract _ => KindSlotContract
  | OPlugin _ => KindPlugin
  | OBlueprint _ => KindStackBlueprint
  | OPolicy _ => KindPolicyPack
  end.

(** The document an entry indexes. *)
Definition entry_doc (e : entry) : Object * string := (e_obj e, e_source e).

Definition same_key (kind name : string) (d : Object * string) : bool :=
  String.eqb (tm_Kind (GetTypeMeta (fst d))) kind && String.eqb (om_Name (GetMeta (fst d))) name.

(** Each list holds exactly the documents of its kind and name, under their own
    versions, strictly descending. *)
Definition cat_ok (c : Catalog) (docs : list (Object * string)) : Prop :=
  forall kind name,
    map entry_doc (entries c kind name) ≡ₚ List.filter (same_key kind name) docs /\
    Forall (fun e => object_version (e_obj e) = Ok (e_version e)) (entries c kind name) /\
    StronglySorted (fun a b => ver_lt (e_version b) (e_version a)) (entries c kind name).

Lemma object_version_wf o v : object_version o = Ok v -> wf_version v.
Proof. apply Parse_wf. Qed.

Lemma New_catalog_ok : cat_ok New [].
Proof. intros kind name. change (entries New kind name) with (@nil entry). repeat constructor. Qed.

Lemma entries_insert c kind name l k n :
  entries (<[kind := <[name := l]> (default ∅ (c !! kind))]> c) k n =
  if String.eqb k kind && String.eqb n name then l else entries c k n.
Proof.
  revert c. unfold entries, Catalog. intros c.
  destruct (String.eqb_spec k kind) as [->|Nk]; cbn [andb].
  - rewrite lookup_insert_eq. cbn. destruct (String.eqb_spec n name) as [->|Nn].
    + by rewrite lookup_insert_eq.
    + by rewrite lookup_insert_ne.
  - by rewrite lookup_insert_ne.
Qed.

(** Sorting entries with distinct well-formed versions makes them strictly descend. *)
Lemma sort_entries_descend l :
  Forall (fun e => wf_version (e_version e)) l -> NoDup (map e_version l) ->
  StronglySorted (fun a b => ver_lt (e_version b) (e_version a)) (sort_entries l).
Proof.
  intros Hwf Hnd. unfold sort_entries.
  assert (Ho : ordered higher (isort higher l)).
  { apply (isort_ordered_on _ (fun e => wf_version (e_version e))); [| |done].
    - intros x y Hx Hy. unfold higher. rewrite !Z.leb_le.
      destruct (Compare_cases _ _ Hx Hy) as [[H ->]|[[E ->]|[H ->]]]; [right|by left|by left].
      apply (Compare_gt _ _ Hy Hx) in H. lia.
    - intros x y z Hx Hy Hz. unfold higher. rewrite !Z.leb_le. intros H1 H2.
      destruct (Z.lt_ge_cases (Compare (e_version x) (e_version z)) 0) as [Hlt|]; [|done].
      apply (Compare_lt _ _ Hx Hz) in Hlt.
      assert (~ ver_lt (e_version x) (e_version y)) as N1 by (rewrite <- Compare_lt by done; lia).
      assert (~ ver_lt (e_version y) (e_version z)) as N2 by (rewrite <- Compare_lt by done; lia).
      exfalso. apply N1.
      destruct (Compare_cases _ _ Hy Hz) as [[H _]|[[E _]|[H _]]]; [done|by rewrite E|by etransitivity]. }
  assert (Hwf' : Forall (fun e => wf_version (e_version e)) (isort higher l)) by (by rewrite isort_perm).
  assert (Hnd' : NoDup (map e_version (isort higher l))) by (by rewrite isort_perm).
  clear Hwf Hnd. induction Ho as [|x l' Ho IH Hx]; [constructor|].
  inversion Hwf'; subst. inversion Hnd' as [|?? Hn Hnd'']; subst. constructor; [by apply IH|].
  rewrite Forall_forall in *. intros y Hy. specialize (Hx y Hy). unfold higher in Hx. rewrite Z.leb_le in Hx.
  assert (wf_version (e_version y)) by auto. assert (wf_version (e_version x)) by done.
  apply (Compare_gt (e_version x) (e_version y)); [done..|].
  assert (Compare (e_version x) (e_version y) <> 0)%Z; [|lia].
  intros E. apply (Compare_eq (e_version x) (e_version y)) in E; [|done..].
  apply Hn. rewrite E. by apply list_elem_of_fmap_2.
Qed.

Lemma descend_NoDup l :
  StronglySorted (fun a b => ver_lt (e_version b) (e_version a)) l -> NoDup (map e_version l).
Proof.
  induction 1 as [|x l Hl IH Hx]; cbn; constructor; [|done].
  intros Hin. apply list_elem_of_fmap in Hin as (y & E & Hy). rewrite Forall_forall in Hx.
  specialize (Hx y Hy). rewrite E in Hx. by apply (irreflexivity ver_lt) in Hx.
Qed.

Lemma filter_snoc {A} (f : A -> bool) l x :
  List.filter f (l ++ [x]) = List.filter f l ++ if f x then [x] else [].
Proof. by rewrite List.filter_app. Qed.

Lemma add_ok c docs o source c' :
  cat_ok c docs -> add c o source = Ok c' -> cat_ok c' (docs ++ [(o, source)]).
Proof.
  intros Hc. unfold add. destruct (object_version o) as [v|] eqn:Hv; [|done].
  set (kind := tm_Kind (GetTypeMeta o)). set (name := om_Name (GetMeta o)).
  change (default [] (default ∅ (c !! kind) !! name)) with (entries c kind name).
  destruct (find_first _ (entries c kind name)) as [e|] eqn:Hf; [done|]. intros [= <-] k n.
  apply find_first_none in Hf. rewrite entries_insert, filter_snoc.
  unfold same_key at 2. cbn [fst]. fold kind name.
  destruct (Hc k n) as (Hp & Hver & Hs).
  rewrite (String.eqb_sym kind k), (String.eqb_sym name n).
  destruct (String.eqb_spec k kind) as [->|Nk]; cbn [andb]; [|by rewrite app_nil_r].
  destruct (String.eqb_spec n name) as [->|Nn]; [|by rewrite app_nil_r].
  set (e := mkEntry v o source).
  assert (Hwf : Forall (fun e => wf_version (e_version e)) (entries c kind name ++ [e])).
  { apply Forall_app. split; [|apply Forall_singleton; exact (object_version_wf o _ Hv)].
    eapply Forall_impl; [exact Hver|]. intros x Hx. exact (object_version_wf (e_obj x) _ Hx). }
  assert (Hnd : NoDup (map e_version (entries c kind name ++ [e]))).
  { rewrite map_app. apply NoDup_app. split; [by apply descend_NoDup|]. split; [|apply NoDup_singleton].
    intros w Hw Hwe. apply list_elem_of_singleton in Hwe as ->.
    apply list_elem_of_fmap in Hw as (x & E & Hx). rewrite Forall_forall in Hf. specialize (Hf x Hx). cbn in Hf.
    apply Forall_app in Hwf as [Hwf1 Hwf2]. rewrite Forall_forall in Hwf1. inversion Hwf2; subst.
    apply Z.eqb_neq in Hf. apply Hf, Compare_eq; [by apply Hwf1|done|]. by rewrite <- E. }
  split; [|split].
  - unfold sort_entries. rewrite isort_perm, map_app, Hp. done.
  - unfold sort_entries. rewrite isort_perm. apply Forall_app. split; [done|]. by repeat constructor.
  - by apply sort_entries_descend.
Qed.

Lemma add_all_ok c docs docs' c' :
  cat_ok c docs -> add_all c docs' = Ok c' -> cat_ok c' (docs ++ docs').
Proof.
  revert c docs. induction docs' as [|[o src] docs' IH]; intros c docs Hc; cbn [add_all].
  { intros [= <-]. by rewrite app_nil_r. }
  intros Ha. apply rbind_ok in Ha as (c1 & H1 & Ha).
  change ((o, src) :: docs') with ([(o, src)] ++ docs'). rewrite app_assoc.
  apply (IH c1); [by apply (add_ok c)|done].
Qed.

Lemma FromDocuments_ok docs c : FromDocuments docs = Ok c -> cat_ok c docs.
Proof. intros Hf. apply (add_all_ok New [] docs c New_catalog_ok Hf). Qed.

(** ** Resolution *)

Lemma find_first_sorted {A} (R : A -> A -> Prop) (f : A -> bool) l x :
  StronglySorted R l -> find_first f l = Some x ->
  forall y, y ∈ l -> f y = true -> y = x \/ R x y.
Proof.
  induction 1 as [|z l Hl IH Hz]; cbn; [done|]. intros Hf y Hy Hfy.
  apply elem_of_cons in Hy as [->|Hy].
  - rewrite Hfy in Hf. injection Hf as ->. by left.
  - destruct (f z) eqn:E; [|by apply IH]. injection Hf as ->.
    rewrite Forall_forall in Hz. right. by apply Hz.
Qed.

Lemma filter_elem {A} (f : A -> bool) l x : x ∈ List.filter f l <-> x ∈ l /\ f x = true.
Proof. rewrite !list_elem_of_In. apply List.filter_In. Qed.

Lemma entry_in c docs kind name o src :
  cat_ok c docs -> (o, src) ∈ docs -> same_key kind name (o, src) = true ->
  exists e, e ∈ entries c kind name /\ e_obj e = o /\ object_version o = Ok (e_version e).
Proof.
  intros Hc Hin Hk. destruct (Hc kind name) as (Hp & Hver & _).
  assert ((o, src) ∈ map entry_doc (entries c kind name)) as He by (rewrite Hp; by apply filter_elem).
  apply list_elem_of_fmap in He as (e & E & He). exists e.
  rewrite Forall_forall in Hver. specialize (Hver e He). injection E as -> ->. done.
Qed.

Lemma entry_out c docs kind name e :
  cat_ok c docs -> e ∈ entries c kind name ->
  (e_obj e, e_source e) ∈ docs /\ same_key kind name (e_obj e, e_source e) = true /\
  object_version (e_obj e) = Ok (e_version e).
Proof.
  intros Hc He. destruct (Hc kind name) as (Hp & Hver & _).
  assert (entry_doc e ∈ List.filter (same_key kind name) docs) as Hin
    by (rewrite <- Hp; by apply list_elem_of_fmap_2).
  apply filter_elem in Hin as [Hin Hk]. rewrite Forall_forall in Hver. auto.
Qed.

(** What [Resolve] answers on a catalog built from documents. *)
Definition resolves_to (docs : list (Object * string)) (kind name : string) (k : Constraint)
    (r : result Object) : Prop :=
  match r with
  | Ok o => exists src v, (o, src) ∈ docs /\ same_key kind name (o, src) = true /\
      object_version o = Ok v /\ constraint_check k v = true /\
      forall o' src' v', (o', src') ∈ docs -> same_key kind name (o', src') = true ->
        object_version o' = Ok v' -> constraint_check k v' = true -> o' = o \/ ver_lt v' v
  | Err e => errors_is e ErrNotFound = true /\
      forall o' src' v', (o', src') ∈ docs -> same_key kind name (o', src') = true ->
        object_version o' = Ok v' -> constraint_check k v' = false
  end.

Lemma Resolve_spec docs c kind name con k :
  cat_ok c docs -> ParseConstraint con = Ok k -> resolves_to docs kind name k (Resolve c kind name con).
Proof.
  intros Hc Hk. unfold Resolve. rewrite Hk.
  destruct (find_first _ (entries c kind name)) as [e|] eqn:Hf.
  - pose proof Hf as Hf'. apply find_first_some in Hf' as [He Hck].
    destruct (entry_out c docs kind name e Hc He) as (Hin & Hkey & Hv).
    exists (e_source e), (e_version e). do 4 (split; [done|]).
    intros o' src' v' Hin' Hkey' Hv' Hck'.
    destruct (entry_in c docs kind name o' src' Hc Hin' Hkey') as (e' & He' & Eo & Ev).
    destruct (Hc kind name) as (_ & _ & Hs).
    rewrite Hv' in Ev. injection Ev as ->.
    destruct (find_first_sorted _ _ _ _ Hs Hf e' He' Hck') as [->|Hlt]; [by left|by right].
  - apply find_first_none in Hf. rewrite Forall_forall in Hf. unfold resolves_to.
    assert (Hnone : forall o' src' v', (o', src') ∈ docs -> same_key kind name (o', src') = true ->
              object_version o' = Ok v' -> constraint_check k v' = false).
    { intros o' src' v' Hin' Hkey' Hv'.
      destruct (entry_in c docs kind name o' src' Hc Hin' Hkey') as (e' & He' & Eo & Ev).
      rewrite Hv' in Ev. injection Ev as ->. by apply Hf. }
    by destruct (entries c kind name).
Qed.

(** With documents whose kind is their type, typed resolvers never panic. *)
Lemma Resolve_kind docs c kind name con o :
  cat_ok c docs -> Forall (fun d => tm_Kind (GetTypeMeta (fst d)) = kind_of (fst d)) docs ->
  Resolve c kind name con = Ok o -> kind_of o = kind /\ om_Name (GetMeta o) = name /\ exists src, (o, src) ∈ docs.
Proof.
  intros Hc Hty Hr. destruct (ParseConstraint con) as [k|e] eqn:Hk.
  2: { unfold Resolve in Hr. by rewrite Hk in Hr. }
  pose proof (Resolve_spec docs c kind name con k Hc Hk) as Hs. rewrite Hr in Hs.
  destruct Hs as (src & v & Hin & Hkey & _). rewrite Forall_forall in Hty.
  specialize (Hty _ Hin). cbn in Hty. unfold same_key in Hkey. cbn in Hkey. bools.
  split; [congruence|]. split; [done|eauto].
Qed.

(** * Properties *)

(** A reference resolves to the highest version that satisfies it. In a catalog
    built from documents, [Resolve] with a constraint answers a document of that
    kind and name whose version satisfies it, above every other one that does; it
    reports "not found" exactly when none does; and on documents decoded by their
    kind the typed resolvers never fail their type assertion. *)
Theorem Resolve_highest (docs : list (Object * string)) (c : Catalog) (kind name con : string) (k : Constraint) :
  FromDocuments docs = Ok c -> ParseConstraint con = Ok k ->
  resolves_to docs kind name k (Resolve c kind name con) /\
  (Forall (fun d => tm_Kind (GetTypeMeta (fst d)) = kind_of (fst d)) docs ->
   Connector c name con <> Err (Sentinel Panic) /\ get_Plugin c name con <> Err (Sentinel Panic) /\
   get_Connection c name <> Err (Sentinel Panic)).
Proof.
  intros Hf Hk. pose proof (FromDocuments_ok docs c Hf) as Hc.
  split; [by apply Resolve_spec|]. intros Hty.
  assert (Hno : forall A (cast : Object -> option A) kind' con',
    (forall o, kind_of o = kind' -> is_some (cast o) = true) ->
    assert_type cast (Resolve c kind' name con') <> Err (Sentinel Panic)).
  { intros A cast kind' con' Hcast. unfold assert_type. destruct (Resolve c kind' name con') as [o|e] eqn:Hr.
    - destruct (Resolve_kind docs c kind' name con' o Hc Hty Hr) as (Ek & _).
      specialize (Hcast o Ek). by destruct (cast o).
    - intros [= ->]. unfold Resolve in Hr. by repeat case_match. }
  split; [|split]; apply Hno; intros o; by destruct o.
Qed.

(** * Witnesses *)

(** The manifest [m] published again as another version. *)
Definition republish (version : string) (m : ConnectorManifest) : ConnectorManifest :=
  mkConnectorManifest (cm_TypeMeta m) (meta (om_Name (cm_Metadata m)) version) (cm_Spec m).

Definition sap_docs : list (Object * string) :=
  [(OConnector (republish "0.3.9" sap), "sap-0.3.yaml"); (OConnector sap, "sap-0.4.yaml");
   (OConnection plant, "plant.yaml"); (OConnector (republish "0.5.0" sap), "sap-0.5.yaml")].

Definition sap_catalog : Catalog := match FromDocuments sap_docs with Ok c => c | Err _ => New end.

Definition caret_0_4 : Constraint := match ParseConstraint "^0.4" with Ok k => k | Err _ => mkConstraint "" zeroVersion zeroVersion false false end.

Lemma Resolve_highest_witness :
  Resolve sap_catalog KindConnectorManifest "sap-ecc" "^0.4" = Ok (OConnector sap) /\
  Connector sap_catalog "sap-ecc" "^0.4" <> Err (Sentinel Panic).
Proof.
  split; [vm_compute; reflexivity|].
  destruct (Resolve_highest sap_docs sap_catalog KindConnectorManifest "sap-ecc" "^0.4" caret_0_4) as [_ Hp];
    [vm_compute; reflexivity..|].
  apply Hp. repeat constructor.
Defined.
