(* ===== verification/Report.v ===== *)
(** Verification reports: [src/pkg/verifier/report.go] and [reviews.go]. A report is
    built by adding findings and queueing reviews, then finished; a blueprint's report
    has its recipes' and plugins' reports as children. *)

From S2P Require Import Turgon Prelude GoStr GoErr GoTime Api ApiKinds.
From Stdlib Require Import Ascii String.

Inductive Severity := SeverityError | SeverityReview | SeverityWarning | SeverityInfo.

#[export] Instance Severity_eq_dec : EqDecision Severity.
Proof. solve_decision. Defined.

Definition StageSchema : string := "schema".
Definition StageResolve : string := "resolve".
Definition StageInterfaces : string := "interfaces".
Definition StageMapping : string := "mapping".
Definition StagePolicy : string := "policy".
Definition StageCapacity : string := "capacity".
Definition StageContract : string := "contract".
Definition StageDryRun : string := "dry-run".

Record Finding := mkFinding {
  f_Stage : string;
  f_Severity : Severity;
  f_Path : string;
  f_Message : message
}.

Record ReviewItem := mkReviewItem {
  ri_Mapping : string;
  ri_Target : string;
  ri_Expression : string;
  ri_Origin : string;
  ri_Confidence : float64;
  ri_Rationale : string
}.

Record Resolution := mkResolution {
  res_Recipe : option Recipe;
  res_Connectors : gmap string ConnectorManifest;
  res_Connections : gmap string Connection;
  res_Mappings : gmap string Mapping;
  res_Slots : gmap string Plugin;
  res_Contracts : gmap string SlotContract;
  res_Extensions : list Plugin;
  res_Policies : list PolicyPack
}.

(** [Report]; [r_level] is the unexported [level], 0 to 3. *)
#[warnings="-register-all"]
Inductive Report := mkReport {
  Subject : string;
  Level : string;
  Deployable : bool;
  Findings : list Finding;
  ReviewQueue : list ReviewItem;
  Children : list Report;
  r_Resolution : Resolution;
  r_level : Z
}.

Definition newResolution : Resolution := mkResolution None ∅ ∅ ∅ ∅ ∅ [] [].

Definition newReport (obj : Object) : Report :=
  let m := GetMeta obj in
  let subject := tm_Kind (GetTypeMeta obj) +++ "/" +++ om_Name m in
  let subject := if String.eqb (om_Version m) "" then subject else subject +++ "@" +++ om_Version m in
  mkReport subject "" false [] [] [] newResolution 0.

(** Field assignments. *)
Definition with_findings (l : list Finding) (r : Report) : Report :=
  mkReport (Subject r) (Level r) (Deployable r) l (ReviewQueue r) (Children r) (r_Resolution r) (r_level r).
Definition with_resolution (s : Resolution) (r : Report) : Report :=
  mkReport (Subject r) (Level r) (Deployable r) (Findings r) (ReviewQueue r) (Children r) s (r_level r).

(** [r.add]. *)
Definition add_finding (stage : string) (sev : Severity) (path : string) (m : message) (r : Report) : Report :=
  with_findings (Findings r ++ [mkFinding stage sev path m]) r.

(** [raise] lowers the one-click level to at least [lvl]. *)
Definition raise (lvl : Z) (r : Report) : Report :=
  if (r_level r <? lvl)%Z then
    mkReport (Subject r) (Level r) (Deployable r) (Findings r) (ReviewQueue r) (Children r) (r_Resolution r) lvl
  else r.

(** [r.ReviewQueue = append(r.ReviewQueue, item)]. *)
Definition queue_review (item : ReviewItem) (r : Report) : Report :=
  mkReport (Subject r) (Level r) (Deployable r) (Findings r) (ReviewQueue r ++ [item]) (Children r)
    (r_Resolution r) (r_level r).

(** [r.Children = append(r.Children, c)]. *)
Definition add_child (c : Report) (r : Report) : Report :=
  mkReport (Subject r) (Level r) (Deployable r) (Findings r) (ReviewQueue r) (Children r ++ [c])
    (r_Resolution r) (r_level r).

Definition is_error (f : Finding) : bool := bool_decide (f_Severity f = SeverityError).

(** [Errors]: the error findings, then the children's with their subjects. *)
Fixpoint Errors (r : Report) : list Finding :=
  List.filter is_error (Findings r) ++
  (fix below (cs : list Report) : list Finding :=
     match cs with
     | [] => []
     | c :: cs =>
         map (fun f => mkFinding (f_Stage f) (f_Severity f)
                         (trim_prefix " " (Subject c +++ " " +++ f_Path f)) (f_Message f)) (Errors c) ++ below cs
     end) (Children r).

Definition levelIndex (l : string) : Z :=
  if String.eqb l LevelL0 then 0 else if String.eqb l LevelL1 then 1 else if String.eqb l LevelL2 then 2 else 3.

(** The position of a stage, 99 for an unknown one. *)
Definition stageOrder (s : string) : Z :=
  match find_first (fun ix => String.eqb (snd ix) s)
          (indexed [StageSchema; StageResolve; StageInterfaces; StageContract; StageMapping; StagePolicy;
                    StageCapacity; StageDryRun]) with
  | Some (i, _) => i
  | None => 99
  end.

Definition stage_le (a b : Finding) : bool := (stageOrder (f_Stage a) <=? stageOrder (f_Stage b))%Z.

(** The loop over children: their levels, and an error for each undeployable one. *)
Definition finish_children (r : Report) (errs : Z) : Report * Z :=
  fold_left (fun '(r, errs) c =>
      (raise (levelIndex (Level c)) r, if Deployable c then errs else (errs + 1)%Z))
    (Children r) (r, errs).

(** [finish]. *)
Definition finish (r : Report) : Report :=
  let reviews := Z.of_nat (List.length (ReviewQueue r)) in
  let errs := Z.of_nat (List.length (List.filter is_error (Findings r))) in
  let (r, errs) := finish_children r errs in
  let r := if (0 <? reviews)%Z then raise 1 r else r in
  mkReport (Subject r) ("L" +++ itoa (r_level r)) ((errs =? 0)%Z && (reviews =? 0)%Z)
    (isort stage_le (Findings r)) (ReviewQueue r) (Children r) (r_Resolution r) (r_level r).

(** ** Reviews ([reviews.go]) *)

Definition ReviewApproved : string := "approved".
Definition ReviewRejected : string := "rejected".

(** [At] as [Format] renders it ("2006-01-02"). *)
Record Review := mkReview {
  rv_Mapping : string;
  rv_Target : string;
  rv_Expression : string;
  rv_Decision : string;
  rv_Reviewer : string;
  rv_Note : string;
  rv_At : string
}.

(** Mapping, target, expression digest. *)
Definition ReviewKey : Type := string * string * string.

Definition Reviews := gmap ReviewKey Review.

(** [Reviews.Find]; [digest] is the hex SHA-256 of [ExpressionDigest]. *)
Definition Find_review (digest : string -> string) (rs : Reviews) (mapping target expr : string) : option Review :=
  rs !! (mapping, target, digest expr).

(** [or]. *)
Definition or_default (s def : string) : string := if String.eqb s "" then def else s.

(** ** Lemmas *)

Lemma raise_findings n r : Findings (raise n r) = Findings r.
Proof. unfold raise. by destruct (_ <? _)%Z. Qed.
Lemma raise_queue n r : ReviewQueue (raise n r) = ReviewQueue r.
Proof. unfold raise. by destruct (_ <? _)%Z. Qed.
Lemma raise_children n r : Children (raise n r) = Children r.
Proof. unfold raise. by destruct (_ <? _)%Z. Qed.
Lemma raise_resolution n r : r_Resolution (raise n r) = r_Resolution r.
Proof. unfold raise. by destruct (_ <? _)%Z. Qed.
Lemma raise_subject n r : Subject (raise n r) = Subject r.
Proof. unfold raise. by destruct (_ <? _)%Z. Qed.
Lemma raise_level n r : r_level (raise n r) = Z.max (r_level r) n.
Proof. unfold raise. destruct (Z.ltb_spec (r_level r) n); cbn; lia. Qed.
Create Rewrite HintDb report.
#[export] Hint Rewrite raise_findings raise_queue raise_children raise_resolution raise_subject raise_level : report.

Lemma errors_length l : List.length (List.filter is_error l) = 0 <-> Forall (fun f => f_Severity f <> SeverityError) l.
Proof.
  induction l as [|f l IH]; cbn; [split; [constructor|done]|]. rewrite Forall_cons, <- IH. unfold is_error.
  case_bool_decide; cbn; split; [done|by intros []|done|by intros []].
Qed.

Lemma errors_nil l : List.filter is_error l = [] <-> Forall (fun f => f_Severity f <> SeverityError) l.
Proof. rewrite <- errors_length. destruct (List.filter is_error l); done. Qed.

(** The worst level among reports. *)
Fixpoint worst (cs : list Report) : Z :=
  match cs with [] => 0 | c :: cs => Z.max (levelIndex (Level c)) (worst cs) end.

Lemma levelIndex_bounds l : (0 <= levelIndex l <= 3)%Z.
Proof. unfold levelIndex. repeat case_match; lia. Qed.

Lemma worst_bounds cs : (0 <= worst cs <= 3)%Z.
Proof. induction cs as [|c cs IH]; cbn; [lia|]. pose proof (levelIndex_bounds (Level c)). lia. Qed.

Lemma worst_in c cs : c ∈ cs -> (levelIndex (Level c) <= worst cs)%Z.
Proof. induction 1; cbn; lia. Qed.

(** Two reports that differ in their level only. *)
Definition same_but_level (r r' : Report) : Prop :=
  Subject r' = Subject r /\ Level r' = Level r /\ Deployable r' = Deployable r /\ Findings r' = Findings r /\
  ReviewQueue r' = ReviewQueue r /\ Children r' = Children r /\ r_Resolution r' = r_Resolution r.

Lemma raise_same n r : same_but_level r (raise n r).
Proof. unfold raise, same_but_level. by destruct (_ <? _)%Z. Qed.

Lemma same_but_level_trans r1 r2 r3 : same_but_level r1 r2 -> same_but_level r2 r3 -> same_but_level r1 r3.
Proof. unfold same_but_level. intuition congruence. Qed.

Lemma finish_children_spec cs r e :
  let p := fold_left (fun '(r, errs) c =>
      (raise (levelIndex (Level c)) r, if Deployable c then errs else (errs + 1)%Z)) cs (r, e) in
  same_but_level r (fst p) /\ (0 <= r_level r -> r_level (fst p) = Z.max (r_level r) (worst cs))%Z /\
  (snd p >= e)%Z /\ ((snd p = e)%Z <-> Forall (fun c => Deployable c = true) cs).
Proof.
  revert r e. induction cs as [|c cs IH]; intros r e; cbn [fold_left].
  { cbn. repeat split; try done; intros; lia. }
  destruct (IH (raise (levelIndex (Level c)) r) (if Deployable c then e else (e + 1)%Z)) as (Hs & Hl & Hge & Hall).
  cbv zeta. split; [|split; [|split]].
  - eapply same_but_level_trans; [apply raise_same|exact Hs].
  - intros H0. rewrite Hl; rewrite raise_level; cbn [worst]; pose proof (levelIndex_bounds (Level c)); lia.
  - destruct (Deployable c); lia.
  - rewrite Forall_cons. destruct (Deployable c) eqn:Hd.
    + rewrite Hall. split; [done|by intros []].
    + split; [lia|by intros []].
Qed.

Lemma level_name n : (0 <= n <= 3)%Z -> levelIndex ("L" +++ itoa n) = n /\ "L" +++ itoa n ∈ [LevelL0; LevelL1; LevelL2; LevelL3].
Proof.
  intros H. assert (n = 0 \/ n = 1 \/ n = 2 \/ n = 3)%Z as [->|[->|[->| ->]]] by lia;
    (split; [reflexivity|apply (bool_decide_unpack _); vm_compute; exact I]).
Qed.

(** What [finish] does to a report. *)
Record finished_from (r f : Report) : Prop := mkFinished {
  fin_deployable : Deployable f = true <->
    Forall (fun x => f_Severity x <> SeverityError) (Findings r) /\ ReviewQueue r = [] /\
    Forall (fun c => Deployable c = true) (Children r);
  fin_perm : Findings f ≡ₚ Findings r;
  fin_sorted : ordered stage_le (Findings f);
  fin_stable : forall s, List.filter (fun x => String.eqb (f_Stage x) s) (Findings f) =
                         List.filter (fun x => String.eqb (f_Stage x) s) (Findings r);
  fin_level : levelIndex (Level f) =
    Z.max (Z.max (r_level r) (worst (Children r))) (if bool_decide (ReviewQueue r = []) then 0 else 1)%Z;
  fin_name : Level f ∈ [LevelL0; LevelL1; LevelL2; LevelL3];
  fin_keep : Subject f = Subject r /\ ReviewQueue f = ReviewQueue r /\ Children f = Children r /\
             r_Resolution f = r_Resolution r
}.

Lemma finish_spec r : (0 <= r_level r <= 3)%Z -> finished_from r (finish r).
Proof.
  intros Hlev. unfold finish, finish_children.
  set (e0 := Z.of_nat (List.length (List.filter is_error (Findings r)))).
  destruct (finish_children_spec (Children r) r e0) as (Hs & Hl & Hge & Hall). cbv zeta in *.
  destruct (fold_left _ (Children r) (r, e0)) as [r1 e1]. cbn [fst snd] in *.
  specialize (Hl ltac:(lia)). pose proof (worst_bounds (Children r)) as Hw.
  set (q := Z.of_nat (List.length (ReviewQueue r))).
  assert (Hq : (q = 0)%Z <-> ReviewQueue r = []) by (unfold q; destruct (ReviewQueue r); split; done || (cbn; lia)).
  set (r2 := if (0 <? q)%Z then raise 1 r1 else r1).
  assert (Hs2 : same_but_level r r2).
  { unfold r2. destruct (_ <? _)%Z; [|done]. eapply same_but_level_trans; [exact Hs|apply raise_same]. }
  assert (Hl2 : r_level r2 = Z.max (Z.max (r_level r) (worst (Children r)))
                  (if bool_decide (ReviewQueue r = []) then 0 else 1)%Z).
  { unfold r2. destruct (Z.ltb_spec 0 q); case_bool_decide as Hb; try (apply Hq in Hb); rewrite ?raise_level; try lia.
    exfalso. apply Hb, Hq. unfold q in *. lia. }
  clearbody r2. destruct Hs2 as (? & _ & _ & Hf & Hrq & Hc & Hres).
  assert (Hb : (0 <= r_level r2 <= 3)%Z) by (rewrite Hl2; case_bool_decide; lia).
  destruct (level_name (r_level r2) Hb) as [Hli Hin].
  split; cbn [Subject Level Deployable Findings ReviewQueue Children r_Resolution].
  - rewrite andb_true_iff, !Z.eqb_eq, Hq, <- errors_length, <- Hall. unfold e0 in *. split.
    + intros [? ?]. split; [lia|]. split; [done|lia].
    + intros (? & ? & ?). split; [lia|done].
  - by rewrite isort_perm, Hf.
  - apply isort_ordered; unfold stage_le; intros; rewrite ?Z.leb_le in *; lia.
  - intros s. rewrite <- Hf. apply isort_stable. intros x y Hx Hy. bools. unfold stage_le. rewrite Hx, Hy. apply Z.leb_refl.
  - by rewrite Hli.
  - done.
  - done.
Qed.

(** ** Report trees *)

(** [sub s r]: [s] is [r] or a report below it. *)
Inductive sub : Report -> Report -> Prop :=
| sub_self r : sub r r
| sub_child s c r : c ∈ Children r -> sub s c -> sub s r.

(** A report the verifier returns: finished, with finished children. *)
Inductive complete : Report -> Prop :=
| complete_finish r : (0 <= r_level r <= 3)%Z -> (forall c, c ∈ Children r -> complete c) -> complete (finish r).

(** Nothing in the report itself blocks it. *)
Definition unblocked (r : Report) : Prop :=
  Forall (fun f => f_Severity f <> SeverityError) (Findings r) /\ ReviewQueue r = [].

Lemma sub_below s r : sub s r <-> s = r \/ exists c, c ∈ Children r /\ sub s c.
Proof.
  split.
  - intros Hs. destruct Hs as [r|s c r Hc Hs]; [by left|right; eauto].
  - intros [->|(c & Hc & Hs)]; [constructor|by econstructor].
Qed.

Lemma complete_deployable r :
  complete r -> (Deployable r = true <-> forall s, sub s r -> unblocked s).
Proof.
  induction 1 as [r Hlev Hc IH]. pose proof (finish_spec r Hlev) as [Hd Hp _ _ _ _ (_ & Hq & Hch & _)].
  rewrite Hd. split.
  - intros (He & Hrq & Hall) s Hs. apply sub_below in Hs as [->|(c & Hin & Hs)].
    + split; [by rewrite Hp|by rewrite Hq].
    + rewrite Hch in Hin. rewrite Forall_forall in Hall. by apply (proj1 (IH c Hin) (Hall c Hin)).
  - intros Hall. destruct (Hall (finish r) (sub_self _)) as [He Hrq].
    rewrite Hp in He. rewrite Hq in Hrq. split; [done|]. split; [done|].
    apply Forall_forall. intros c Hin. apply (IH c Hin). intros s Hs. apply Hall.
    econstructor; [by rewrite Hch|done].
Qed.

Lemma Errors_nil_below cs :
  (fix below (cs : list Report) : list Finding :=
     match cs with
     | [] => []
     | c :: cs =>
         map (fun f => mkFinding (f_Stage f) (f_Severity f)
                         (trim_prefix " " (Subject c +++ " " +++ f_Path f)) (f_Message f)) (Errors c) ++ below cs
     end) cs = [] <-> forall c, c ∈ cs -> Errors c = [].
Proof.
  induction cs as [|c cs IH].
  - split; [|done]. intros _ c Hc. by apply elem_of_nil in Hc.
  - split.
    + intros H. apply app_eq_nil in H as [H1 H2]. intros x Hx. apply elem_of_cons in Hx as [->|Hx].
      * by apply map_eq_nil in H1.
      * by apply IH.
    + intros H. rewrite (H c) by left. cbn. apply IH. intros x Hx. apply H. by right.
Qed.

Lemma Errors_nil r :
  Errors r = [] <-> Forall (fun f => f_Severity f <> SeverityError) (Findings r) /\
                    forall c, c ∈ Children r -> Errors c = [].
Proof.
  rewrite <- (Errors_nil_below (Children r)), <- errors_nil.
  destruct r. cbn. split; [intros H; by apply app_eq_nil in H|by intros [-> ->]].
Qed.

Lemma complete_Errors r :
  complete r ->
  (Errors r = [] <-> forall s, sub s r -> Forall (fun f => f_Severity f <> SeverityError) (Findings s)).
Proof.
  induction 1 as [r Hlev Hc IH]. pose proof (finish_spec r Hlev) as [_ _ _ _ _ _ (_ & _ & Hch & _)].
  rewrite Errors_nil. split.
  - intros [He Hb] s Hs. apply sub_below in Hs as [->|(c & Hin & Hs)]; [done|].
    apply (proj1 (IH c ltac:(by rewrite <- Hch)) (Hb c Hin) s Hs).
  - intros Hall. split; [apply Hall; constructor|]. intros c Hin.
    apply (IH c ltac:(by rewrite <- Hch)). intros s Hs. apply Hall. by econstructor.
Qed.

Lemma complete_level r s : complete r -> sub s r -> (levelIndex (Level s) <= levelIndex (Level r))%Z.
Proof.
  intros Hr. revert s. induction Hr as [r Hlev Hc IH]. intros s Hs.
  pose proof (finish_spec r Hlev) as [_ _ _ _ Hl _ (_ & _ & Hch & _)].
  apply sub_below in Hs as [->|(c & Hin & Hs)]; [done|]. rewrite Hch in Hin.
  pose proof (IH c Hin s Hs). pose proof (worst_in c _ Hin). lia.
Qed.

(** * Properties *)

(** [finish] decides deployment. A report is deployable exactly when none of its
    findings is an error, its review queue is empty and every child is deployable; its
    level is the worst of what was raised, its children's and, with reviews pending,
    L1; and its findings are sorted by stage, those of one stage in the order they
    were added, none lost. *)
Theorem finish_decides (r : Report) : (0 <= r_level r <= 3)%Z -> finished_from r (finish r).
Proof. apply finish_spec. Qed.

(** A finished report speaks for its whole tree. It is deployable exactly when no
    report in it, however deep, has an error finding or a review waiting; [Errors] is
    empty exactly when none has an error finding; and no report below it has a worse
    level than it shows. *)
Theorem Deployable_whole_tree (r : Report) :
  complete r ->
  (Deployable r = true <-> forall s, sub s r -> unblocked s) /\
  (Errors r = [] <-> forall s, sub s r -> Forall (fun f => f_Severity f <> SeverityError) (Findings s)) /\
  (forall s, sub s r -> levelIndex (Level s) <= levelIndex (Level r))%Z.
Proof.
  intros Hr. split; [by apply complete_deployable|]. split; [by apply complete_Errors|].
  intros s. by apply complete_level.
Qed.

(** * Witnesses *)

Definition low_confidence : ReviewItem := mkReviewItem "m@1.0.0" "total" "$.amount" "ai" 0.5%float "".
Definition recipe_report : Report :=
  queue_review low_confidence
    (add_finding StageMapping SeverityReview "spec.steps[0].map" (msg0 "needs review")
      (mkReport "Recipe/order-sync" "" false [] [] [] newResolution 0)).
Definition stack_report : Report :=
  add_child (finish recipe_report)
    (add_finding StageSchema SeverityWarning "" (msg0 "unused")
      (mkReport "StackBlueprint/plant" "" false [] [] [] newResolution 0)).

Lemma finish_decides_witness :
  Deployable (finish recipe_report) = false /\ levelIndex (Level (finish recipe_report)) = 1%Z.
Proof.
  destruct (finish_decides recipe_report) as [_ _ _ _ Hlevel _ _]; [vm_compute; split; discriminate|].
  split; [vm_compute; reflexivity|]. exact Hlevel.
Defined.

Lemma Deployable_whole_tree_witness :
  Deployable (finish stack_report) = false /\ Errors (finish stack_report) = [] /\
  (levelIndex (Level (finish recipe_report)) <= levelIndex (Level (finish stack_report)))%Z.
Proof.
  assert (complete (finish recipe_report)) as H1.
  { constructor; [vm_compute; split; discriminate|]. intros c Hc. inversion Hc. }
  assert (complete (finish stack_report)) as H2.
  { constructor; [vm_compute; split; discriminate|]. intros c Hc.
    apply list_elem_of_singleton in Hc as ->. exact H1. }
  split; [vm_compute; reflexivity|]. split; [vm_compute; reflexivity|].
  destruct (Deployable_whole_tree _ H2) as (_ & _ & Hl). apply Hl.
  apply (sub_child _ (finish recipe_report)); [left|constructor].
Defined.
