(* ===== verification/Verifier.v ===== *)
(** The verifier: [src/pkg/verifier/verifier.go] and [extensions.go]. Each check takes
    the report under construction and returns it with what it adds; the loops fold the
    checks over the object's parts, in order, as the code runs them. *)

From S2P Require Import Turgon Prelude GoStr GoErr GoTime Regex Semver Api ApiKinds Catalog Report.
From Stdlib Require Import Ascii String.

(** ** What the verifier calls outside this development *)

(** [opa.Module] and [opa.TestFailure]; the rest of [plugin.Module] is the runtime's. *)
Record Module_opa := mkModule { mod_Name : string; mod_Source : string }.
Record TestFailure := mkTestFailure { tf_Name : string; tf_Message : string }.
Record WasmModule := mkWasmModule { wm_Imports : list string; wm_World : string }.

Class Externals := {
  (** [encoding/json]: whether a document decodes into an object. *)
  json_object : string -> bool;
  (** The order in which [range] visits a map. *)
  range : forall {A}, gmap string A -> list (string * A);
  (** [ExpressionDigest]: hex SHA-256. *)
  ExpressionDigest : string -> string;
  (** [mapping.Check]: the JSONata compiler. *)
  mapping_Check : string -> option goerr;
  (** [Catalog.PluginModule] reads a file; [plugin.Load] compiles it within limits
      (MiB, nanoseconds). *)
  PluginModule : Plugin -> result string;
  plugin_Load : string -> Z -> Z -> result WasmModule;
  (** Open Policy Agent: compile, run the tests (failures, count), and whether some
      module defines the write-back package. *)
  opa_Compile : list Module_opa -> option goerr;
  opa_Test : list Module_opa -> result (list TestFailure * Z);
  opa_DefinesWriteback : list Module_opa -> bool
}.

(** [opa.WritebackPackage]. *)
Definition WritebackPackage : string := "turgon.writeback".

(** [plugin.World] and [plugin.Worlds]. *)
Definition World : string := "turgon:stack/logic-plugin@0.2.0".
Definition World_0_1 : string := "turgon:stack/logic-plugin@0.1.0".
Definition Worlds : list string := [World_0_1; World].

(** [kebab] on ASCII names: a dash before every capital but the first byte. *)
Definition kebab (s : string) : string :=
  let fix go (first : bool) (s : string) : string :=
    match s with
    | "" => ""
    | String c s =>
        if is_upper c then (if first then "" else "-") +++ String (lower_byte c) (go false s)
        else String c (go false s)
    end in
  go true s.
Definition ReadOperation (entity : string) : string := "get-" +++ kebab entity.
Definition ProposeOperation (entity : string) : string := "update-" +++ kebab entity.

(** ** Options *)

Record Options := mkOptions {
  ReviewThreshold : float64;
  WriteReviewThreshold : float64;
  CapacityHeadroom : float64;
  o_Reviews : Reviews
}.

Definition withDefaults (o : Options) : Options :=
  mkOptions
    (if PrimFloat.eqb (ReviewThreshold o) 0%float then 0x1.ccccccccccccdp-1%float else ReviewThreshold o)
    (if PrimFloat.eqb (WriteReviewThreshold o) 0%float then 0x1.e666666666666p-1%float else WriteReviewThreshold o)
    (if PrimFloat.eqb (CapacityHeadroom o) 0%float then 0x1.999999999999ap-1%float else CapacityHeadroom o)
    (o_Reviews o).

(** ** Assignments to the report's resolution *)

Definition update_resolution (f : Resolution -> Resolution) (r : Report) : Report :=
  with_resolution (f (r_Resolution r)) r.

Definition set_Recipe (rec : Recipe) : Report -> Report := update_resolution (fun s =>
  mkResolution (Some rec) (res_Connectors s) (res_Connections s) (res_Mappings s) (res_Slots s) (res_Contracts s)
    (res_Extensions s) (res_Policies s)).
Definition set_Connector (k : string) (m : ConnectorManifest) : Report -> Report := update_resolution (fun s =>
  mkResolution (res_Recipe s) (<[k := m]> (res_Connectors s)) (res_Connections s) (res_Mappings s) (res_Slots s)
    (res_Contracts s) (res_Extensions s) (res_Policies s)).
Definition set_Connection (k : string) (c : Connection) : Report -> Report := update_resolution (fun s =>
  mkResolution (res_Recipe s) (res_Connectors s) (<[k := c]> (res_Connections s)) (res_Mappings s) (res_Slots s)
    (res_Contracts s) (res_Extensions s) (res_Policies s)).
Definition set_Mapping (k : string) (m : Mapping) : Report -> Report := update_resolution (fun s =>
  mkResolution (res_Recipe s) (res_Connectors s) (res_Connections s) (<[k := m]> (res_Mappings s)) (res_Slots s)
    (res_Contracts s) (res_Extensions s) (res_Policies s)).
Definition set_Slot (k : string) (p : Plugin) (c : SlotContract) : Report -> Report := update_resolution (fun s =>
  mkResolution (res_Recipe s) (res_Connectors s) (res_Connections s) (res_Mappings s) (<[k := p]> (res_Slots s))
    (<[k := c]> (res_Contracts s)) (res_Extensions s) (res_Policies s)).
Definition add_Extension (p : Plugin) : Report -> Report := update_resolution (fun s =>
  mkResolution (res_Recipe s) (res_Connectors s) (res_Connections s) (res_Mappings s) (res_Slots s) (res_Contracts s)
    (res_Extensions s ++ [p]) (res_Policies s)).
Definition add_Policy (p : PolicyPack) : Report -> Report := update_resolution (fun s =>
  mkResolution (res_Recipe s) (res_Connectors s) (res_Connections s) (res_Mappings s) (res_Slots s) (res_Contracts s)
    (res_Extensions s) (res_Policies s ++ [p])).

(** ** Checks that need no catalog *)

(** [contains]. *)
Fixpoint contains (l : list string) (s : string) : bool :=
  match l with
  | [] => false
  | x :: l => if String.eqb x s then true else contains l s
  end.

(** What precedes the first dot. *)
Definition before_dot (ref : string) : string :=
  match cut_first "." ref with Some (e, _) => e | None => ref end.

Definition riskRank (r : string) : Z :=
  if String.eqb r RiskRead then 0 else if String.eqb r RiskLow then 1 else 2.

(** What a contract's action lacks on a connector, if anything. *)
Definition action_failure (m : ConnectorManifest) (a : ContractAction) : option message :=
  match find_operation m (ca_Name a) with
  | None => Some (Msg "missing action %s" [FStr (ca_Name a)])
  | Some op =>
      if negb (Bool.eqb (String.eqb (ca_Risk a) RiskRead) (String.eqb (op_Direction op) DirectionRead)) then
        Some (Msg "action %s is a %s in the contract but a %s on the connector"
          [FStr (ca_Name a); FStr (ca_Risk a); FStr (op_Direction op)])
      else if (riskRank (op_Risk op) <? riskRank (ca_Risk a))%Z then
        Some (Msg "action %s is %s risk in the contract but only %s on the connector"
          [FStr (ca_Name a); FStr (ca_Risk a); FStr (op_Risk op)])
      else None
  end.

(** [fail]: the report with the finding, and no longer ok. *)
Definition fail (path : string) (c : SlotContract) (m : ConnectorManifest) (why : message) (st : Report * bool)
    : Report * bool :=
  (add_finding StageContract SeverityError path
     (Msg "%s does not satisfy contract %s@%s: %s"
        [FStr (om_Name (cm_Metadata m)); FStr (om_Name (sc_Metadata c)); FStr (om_Version (sc_Metadata c)); FMsg why])
     (fst st), false).

Definition satisfies (r : Report) (path : string) (c : SlotContract) (m : ConnectorManifest) : Report * bool :=
  let st := (r, true) in
  let st := fold_left (fun st e =>
    if negb (HasEntity m e) then fail path c m (Msg "missing entity %s" [FStr e]) st else st) (sc_Entities c) st in
  let st := fold_left (fun st e =>
    if negb (is_some (find_event m e)) then fail path c m (Msg "missing event %s" [FStr e]) st else st)
    (sc_Events c) st in
  fold_left (fun st a => match action_failure m a with Some why => fail path c m why st | None => st end)
    (sc_Actions c) st.

(** [addPublished]. *)
Definition addPublished (events : gset string) (p : Plugin) : gset string :=
  match pp_Events (ps_Permissions (p_Spec p)) with
  | Some topics =>
      fold_left (fun ev topic => {["plugin." +++ om_Name (p_Metadata p) +++ "." +++ topic]} ∪ ev) topics events
  | None => events
  end.

(** Whether some slot emits an event an extension subscribes to. *)
Definition emitted (entities events : gset string) (ev : string) : bool :=
  match strip_prefix "model." ev with
  | Some rest =>
      match split_on "." rest with
      | [entity; verb] => bool_decide (entity ∈ entities) && contains ["created"; "updated"; "deleted"] verb
      | _ => false
      end
  | None => bool_decide (ev ∈ events)
  end.

Definition checkExtension (r : Report) (path : string) (p : Plugin) (entities events : gset string) : Report :=
  let name := FStr (om_Name (p_Metadata p)) in
  let r := match pp_Entities (ps_Permissions (p_Spec p)) with
    | Some e => fold_left (fun r ref =>
        if bool_decide (before_dot ref ∈ entities) then r
        else add_finding StageContract SeverityError path
               (Msg "%s asks for entity %s, which no slot in this stack provides" [name; FStr (before_dot ref)]) r)
        (ep_Read e ++ ep_Propose e) r
    | None => r
    end in
  fold_left (fun r ev =>
    if emitted entities events ev then r
    else add_finding StageContract SeverityError path
           (Msg "%s subscribes to %s, which no slot in this stack emits" [name; FStr ev]) r)
    (ps_Subscribes (p_Spec p)) r.

Section externals.
Context `{E : Externals}.

(** Whether some connector of the map has the operation, in that direction. *)
Definition has_operation (conns : gmap string ConnectorManifest) (op dir : string) : bool :=
  existsb (fun '(_, m) => match find_operation m op with Some o => String.eqb (op_Direction o) dir | None => false end)
    (range conns).

(** The loops over [e.Read] and [e.Propose], with what was already warned of. *)
Definition check_served (conns : gmap string ConnectorManifest) (path tag dir : string) (operation : string -> string)
    (warning : string -> message) (refs : list string) (st : Report * gset string) : Report * gset string :=
  fold_left (fun '(r, seen) ref =>
    let en := before_dot ref in
    if negb (bool_decide (tag +++ en ∈ seen)) && negb (has_operation conns (operation en) dir) then
      (add_finding StageContract SeverityWarning path (warning en) r, {[tag +++ en]} ∪ seen)
    else (r, seen)) refs st.

Definition checkPluginOperations (r : Report) (path : string) (p : Plugin) (conns : gmap string ConnectorManifest)
    : Report :=
  let name := FStr (om_Name (p_Metadata p)) in
  let r := match pp_Entities (ps_Permissions (p_Spec p)) with
    | Some e =>
        let st := check_served conns path "r" DirectionRead ReadOperation (fun en =>
          Msg "%s may read %s, but no connection or slot offers a %s operation: get will answer invalid"
            [name; FStr en; FStr (ReadOperation en)]) (ep_Read e) (r, ∅) in
        fst (check_served conns path "p" DirectionWrite ProposeOperation (fun en =>
          Msg "%s may propose changes to %s, but no connection or slot offers a %s operation: propose-change will answer invalid"
            [name; FStr en; FStr (ProposeOperation en)]) (ep_Propose e) st)
    | None => r
    end in
  let other := List.filter (fun ev => negb (has_prefix "model." ev) && negb (has_prefix "plugin." ev))
                 (ps_Subscribes (p_Spec p)) in
  match other with
  | [] => r
  | _ => add_finding StageContract SeverityWarning path
           (Msg "%s subscribes to %s: plugins receive model lifecycle events (model.<Entity>.created|updated|deleted) and events other plugins publish (plugin.<name>.<topic>) only, for now"
              [name; FStr (join ", " (sort_strings other))]) r
  end.

(** [PolicyModules]. *)
Definition PolicyModules (packs : list PolicyPack) : list Module_opa :=
  map (fun p => mkModule (om_Name (k_Metadata p)) (k_Rego p)) packs.

Definition checkPolicies (r : Report) (packs : list PolicyPack) (hasWrites : bool) : Report :=
  let policy_error m := add_finding StagePolicy SeverityError "spec.policies" m in
  match packs with
  | [] => r
  | _ =>
      let mods := PolicyModules packs in
      match opa_Compile mods with
      | Some err => policy_error (Msg "policy packs do not compile: %v" [FErr err]) r
      | None =>
          match opa_Test mods with
          | Err err => policy_error (Msg "policy tests could not run: %v" [FErr err]) r
          | Ok (fails, n) =>
              let r := fold_left (fun r f =>
                policy_error (Msg "policy test %s: %s" [FStr (tf_Name f); FStr (tf_Message f)]) r) fails r in
              let r := if (0 <? n)%Z && bool_decide (List.length fails = 0) then
                add_finding StagePolicy SeverityInfo "spec.policies" (Msg "%d policy test(s) passed" [FInt n]) r
                else r in
              if hasWrites && negb (opa_DefinesWriteback mods) then
                add_finding StagePolicy SeverityWarning "spec.policies"
                  (Msg "no policy pack defines package %s; writes use the built-in write-back default"
                    [FStr WritebackPackage]) r
              else r
          end
      end
  end.

(** [schema]; a blueprint's slots are validated in map order. *)
Definition schema (r : Report) (obj : Object) : Report * bool :=
  let errs := Validate json_object (fun b => range (b_Slots b)) obj in
  let r := fold_left (fun r e =>
    add_finding StageSchema SeverityError (fe_Path e) (Msg "%s" [FMsg (fe_Message e)]) r) errs r in
  match errs with
  | [] => (r, true)
  | _ => (raise 3 r, false)
  end.

(** ** Plugins *)

(** The limits a logic plugin is loaded with; schema validation has made sure that
    they are set ([logic_limits_set]). *)
Definition plugin_limits (p : Plugin) : PluginLimits := default (mkPluginLimits 0 0) (ps_Limits (p_Spec p)).

(** The grants a module's world or imports leave unused. *)
Definition check_grants (p : Plugin) (m : WasmModule) (r : Report) : Report :=
  let s := p_Spec p in
  let warn path m := add_finding StageContract SeverityWarning path m in
  let network := match pp_Network (ps_Permissions s) with Some (_ :: _) => true | _ => false end in
  if String.eqb (ps_World s) World_0_1 then
    let r := if network then warn "spec.permissions.network"
        (Msg "%s offers no network access; this grant is unused (0.2.0 does)" [FStr (ps_World s)]) r else r in
    if negb (bool_decide (List.length (pp_Secrets (ps_Permissions s)) = 0)) then warn "spec.permissions.secrets"
        (Msg "%s offers no secrets; this grant is unused (0.2.0 does)" [FStr (ps_World s)]) r else r
  else if network && negb (contains (wm_Imports m) "http.send") then
    warn "spec.permissions.network" (msg0 "the module makes no HTTP requests; this grant is unused") r
  else r.

Definition logicPlugin (r : Report) (p : Plugin) : Report :=
  let s := p_Spec p in
  if negb (contains Worlds (ps_World s)) then
    add_finding StageContract SeverityError "spec.world" (Msg "this Turgon runs logic plugins for %s, not %s"
      [FStr (join " or " Worlds); FStr (ps_World s)]) r
  else match PluginModule p with
  | Err err => add_finding StageResolve SeverityError "spec.module" (Msg "%v" [FErr err]) r
  | Ok b =>
      match plugin_Load b (MemoryMB (plugin_limits p)) (wrap (TimeoutMs (plugin_limits p) * 1000000)) with
      | Err err =>
          add_finding StageContract SeverityError "spec.module" (Msg "%s: %v" [FStr (ps_Module s); FErr err]) r
      | Ok m =>
          if negb (String.eqb (wm_World m) "") && negb (String.eqb (wm_World m) (ps_World s)) then
            add_finding StageContract SeverityError "spec.world" (Msg "%s is built for %s, but the manifest says %s"
              [FStr (ps_Module s); FStr (wm_World m); FStr (ps_World s)]) r
          else
            let imports := match wm_Imports m with [] => "nothing" | l => join ", " l end in
            let r := add_finding StageContract SeverityInfo "spec.module" (Msg "%s: %d KiB, imports %s"
              [FStr (ps_Module s); FInt ((Z.of_nat (String.length b) + 1023) / 1024); FStr imports]) r in
            check_grants p m r
      end
  end.
End externals.
