(* ===== verification/RecipeVerifier.v ===== *)
(** The verifier's entry points over a catalog: [Plugin], [recipe], [Blueprint] and
    [Verify] of [src/pkg/verifier/verifier.go], with the stages in the order they run. *)

From S2P Require Import Turgon Prelude GoStr GoErr GoTime Regex Semver Api ApiKinds Catalog Report Verifier.
From Stdlib Require Import Ascii String.

(** A verifier: its catalog and its options, with their defaults. *)
Class Verifier := mkVerifier { v_cat : Catalog; v_opts : Options }.

(** [New]. *)
Definition New (cat : Catalog) (opts : Options) : Verifier := mkVerifier cat (withDefaults opts).

Section verifier.
Context `{E : Externals} `{V : Verifier}.

(** ** Plugins *)

(** The contracts a connector plugin says it implements, against its connector. *)
Definition check_implements (m : ConnectorManifest) (r : Report) (ref : string) : Report :=
  match Contract v_cat ref with
  | Err err =>
      add_finding StageResolve SeverityError "spec.implements" (Msg "slot contract %q: %v" [FStr ref; FErr err]) r
  | Ok c => fst (satisfies r "spec.implements" c m)
  end.

(** After schema validation. *)
Definition plugin_stages (r : Report) (p : Plugin) : Report :=
  let s := p_Spec p in
  let r :=
    if String.eqb (ps_Runtime s) PluginRuntimeWasm && negb (has_prefix "turgon:stack/" (ps_World s)) then
      add_finding StageContract SeverityError "spec.world"
        (Msg "wasm plugins must target a turgon:stack world, got %q" [FStr (ps_World s)]) r
    else if String.eqb (ps_Type s) PluginLogic then logicPlugin r p
    else r in
  if String.eqb (ps_Type s) PluginConnector then
    let (name, con) := ParseRef (ps_Connector s) in
    match Connector v_cat name con with
    | Err err => raise 3 (add_finding StageResolve SeverityError "spec.connector" (Msg "%v" [FErr err]) r)
    | Ok m => fold_left (check_implements m) (ps_Implements s) r
    end
  else r.

(** [Plugin]; the deferred [finish] runs on every return. *)
Definition verify_plugin (p : Plugin) : Report :=
  finish (match schema (newReport (OPlugin p)) (OPlugin p) with
          | (r, false) => r
          | (r, true) => plugin_stages r p
          end).

(** [v.cat.Plugin(v1alpha1.ParseRef(ref))]. *)
Definition plugin_of_ref (ref : string) : result Plugin :=
  let (name, con) := ParseRef ref in get_Plugin v_cat name con.

(** The events extensions publish to each other, added to those emitted. *)
Definition published (refs : list string) (events : gset string) : gset string :=
  fold_left (fun events ref => match plugin_of_ref ref with Ok p => addPublished events p | Err _ => events end)
    refs events.

(** ** Extensions of a recipe ([extensions.go]) *)

Definition check_logic_extension (conns : gmap string ConnectorManifest) (entities events : gset string)
    (r : Report) (ix : Z * string) : Report :=
  let path := at_index "spec.extensions" (fst ix) in
  match plugin_of_ref (snd ix) with
  | Err err => raise 3 (add_finding StageResolve SeverityError path (Msg "%v" [FErr err]) r)
  | Ok p =>
      let r := add_Extension p (add_child (verify_plugin p) r) in
      if negb (String.eqb (ps_Type (p_Spec p)) PluginLogic) then
        add_finding StageContract SeverityError path
          (Msg "a recipe's extensions are logic plugins; %s is a %s plugin"
            [FStr (om_Name (p_Metadata p)); FStr (ps_Type (p_Spec p))]) r
      else checkPluginOperations (checkExtension r path p entities events) path p conns
  end.

(** The entities and the events the connectors of a map offer. *)
Definition entities_of (conns : gmap string ConnectorManifest) : gset string :=
  fold_left (fun s '(_, m) => fold_left (fun s e => {[e]} ∪ s) (cs_Entities (cm_Spec m)) s) (range conns) ∅.
Definition events_of (conns : gmap string ConnectorManifest) : gset string :=
  fold_left (fun s '(_, m) => fold_left (fun s e => {[ev_Name e]} ∪ s) (cs_Events (cm_Spec m)) s) (range conns) ∅.

Definition extensions (r : Report) (refs : list string) (conns : gmap string ConnectorManifest) : Report :=
  let entities := entities_of conns in
  let events := published refs (events_of conns) in
  fold_left (check_logic_extension conns entities events) (indexed refs) r.

(** ** Resolving connectors *)

Definition connection (r : Report) (c : Connection) (pin : string) : Report * option ConnectorManifest :=
  let (name, con) := ParseRef (cn_Connector (cn_Spec c)) in
  let con := if String.eqb pin "" then con else pin in
  match Connector v_cat name con with
  | Err err =>
      (raise 3 (add_finding StageResolve SeverityError ""
        (Msg "connection %s: %v; an engineer must build the connector with the SDK"
          [FStr (om_Name (cn_Metadata c)); FErr err]) r), None)
  | Ok m =>
      let errs := ValidateEffective c m in
      let r := fold_left (fun r e =>
        add_finding StageInterfaces SeverityError (fe_Path e) (Msg "%s" [FMsg (fe_Message e)]) r) errs r in
      match errs with
      | [] => (r, Some (Effective c m))
      | _ => (raise 3 r, None)
      end
  end.

Definition resolve_endpoint (bound : gmap string ConnectorManifest) (rec : Recipe) (r : Report) (ep : string)
    : Report :=
  let pin := default "" (rc_Connectors (r_Spec rec) !! ep) in
  match bound !! ep with
  | Some m => set_Connector ep m r
  | None =>
      match get_Connection v_cat ep with
      | Ok conn =>
          match connection r conn pin with
          | (r, Some m) => set_Connection ep conn (set_Connector ep m r)
          | (r, None) => r
          end
      | Err _ =>
          match Connector v_cat ep pin with
          | Ok m => set_Connector ep m r
          | Err err =>
              match Contract v_cat ep with
              | Ok _ =>
                  add_finding StageResolve SeverityError ""
                    (Msg "%q is a stack slot, not a connector; verify this recipe within a StackBlueprint that fills the slot"
                      [FStr ep]) r
              | Err _ =>
                  raise 3 (add_finding StageResolve SeverityError ""
                    (Msg "no connector for %q in the catalog (%v); an engineer must build one with the connector SDK"
                      [FStr ep; FErr err]) r)
              end
          end
      end
  end.

Definition check_pin (rec : Recipe) (r : Report) (name : string) : Report :=
  if contains (Endpoints rec) name then r
  else add_finding StageResolve SeverityWarning ("spec.connectors." +++ name)
         (Msg "pinned connector %q is not used by any step" [FStr name]) r.

(** ** Permitted interfaces *)

Definition check_trigger (rec : Recipe) (r : Report) : Report :=
  let t := rc_Trigger (r_Spec rec) in
  match res_Connectors (r_Resolution r) !! tr_Source t with
  | None => r
  | Some src =>
      match find_event src (tr_Event t) with
      | None =>
          raise 2 (add_finding StageInterfaces SeverityError "spec.trigger.event"
            (Msg "connector %s does not emit event %q" [FStr (om_Name (cm_Metadata src)); FStr (tr_Event t)]) r)
      | Some ev =>
          match Permitted src "events" (ev_Interface ev) with
          | Err err =>
              raise 3 (add_finding StageInterfaces SeverityError "spec.trigger.event"
                (Msg "%s: %v" [FStr (om_Name (cm_Metadata src)); FErr err]) r)
          | Ok _ => r
          end
      end
  end.

(** [writeStep] after the operation and its interface are found, in its parts. *)
Definition check_simulation (m : ConnectorManifest) (path : string) (w : WriteStep) (ifc : Interface) (r : Report)
    : Report :=
  if ws_Simulate w && String.eqb (if_Simulation ifc) "" then
    add_finding StageInterfaces SeverityWarning (path +++ ".write.simulate")
      (Msg "%s interface %q cannot simulate writes; the dry-run needs a sandbox"
        [FStr (om_Name (cm_Metadata m)); FStr (if_Kind ifc)]) r
  else r.

Definition check_amount (m : ConnectorManifest) (path : string) (w : WriteStep) (ifc : Interface) (r : Report)
    : Report :=
  let error path m := add_finding StagePolicy SeverityError path m in
  match ws_CheckAmount w with
  | None => r
  | Some c =>
      if String.eqb (if_Simulation ifc) "" then
        error (path +++ ".write.checkAmount")
          (Msg "checking the amount needs the target's dry run, and %s interface %q cannot simulate writes"
            [FStr (om_Name (cm_Metadata m)); FStr (if_Kind ifc)]) r
      else if negb (ws_Simulate w) then
        error (path +++ ".write.checkAmount")
          (msg0 "checking the amount needs the target's dry run: set simulate: true") r
      else if String.eqb (trim_space (ac_Preview c)) "" then
        error (path +++ ".write.checkAmount.preview")
          (msg0 "name where the dry run shows the amount, such as record.TotalNetAmount") r
      else if PrimFloat.ltb (ac_Tolerance c) 0%float || PrimFloat.leb 1%float (ac_Tolerance c) then
        error (path +++ ".write.checkAmount.tolerance")
          (Msg "the tolerance is a fraction of the amount, from 0 to below 1 (0.01 is 1%%), not %v"
            [FFlt (ac_Tolerance c)]) r
      else r
  end.

Definition check_produced (m : ConnectorManifest) (path : string) (op : Operation) (producing : string) (r : Report)
    : Report :=
  if negb (String.eqb producing "") && negb (String.eqb (op_Entity op) "") &&
     negb (String.eqb (op_Entity op) producing) then
    raise 2 (add_finding StageInterfaces SeverityError (path +++ ".write.operation")
      (Msg "%s.%s expects %s but the preceding map step produces %s"
        [FStr (om_Name (cm_Metadata m)); FStr (op_Name op); FStr (op_Entity op); FStr producing]) r)
  else r.

(** The compensation a write step uses: its own or its operation's. *)
Definition write_compensation (w : WriteStep) (op : Operation) : string :=
  if String.eqb (ws_Compensation w) "" then op_Compensation op else ws_Compensation w.

Definition check_compensation (m : ConnectorManifest) (path : string) (w : WriteStep) (op : Operation) (r : Report)
    : Report :=
  let comp := write_compensation w op in
  let error m := add_finding StageInterfaces SeverityError (path +++ ".write.compensation") m in
  if String.eqb comp "" then
    error (Msg "every write step must declare its undo action; %s.%s has none"
      [FStr (om_Name (cm_Metadata m)); FStr (op_Name op)]) r
  else match find_operation m comp with
  | None => error (Msg "connector %s has no compensation operation %q" [FStr (om_Name (cm_Metadata m)); FStr comp]) r
  | Some cop =>
      if negb (String.eqb (op_Direction cop) DirectionWrite) then
        error (Msg "compensation %q must be a write operation" [FStr comp]) r
      else r
  end.

Definition check_approval (m : ConnectorManifest) (path : string) (w : WriteStep) (op : Operation) (r : Report)
    : Report :=
  let approval := if String.eqb (ws_Approval w) "" then ApprovalPolicy else ws_Approval w in
  if String.eqb (op_Risk op) RiskHigh && String.eqb approval ApprovalNone then
    add_finding StagePolicy SeverityError (path +++ ".write.approval")
      (Msg "%s.%s is a high-risk write and cannot disable approval"
        [FStr (om_Name (cm_Metadata m)); FStr (op_Name op)]) r
  else r.

Definition writeStep (r : Report) (path : string) (w : WriteStep) (producing : string) : Report :=
  match res_Connectors (r_Resolution r) !! ws_Target w with
  | None => r
  | Some m =>
      let name := FStr (om_Name (cm_Metadata m)) in
      let error m := add_finding StageInterfaces SeverityError (path +++ ".write.operation") m in
      match find_operation m (ws_Operation w) with
      | None => raise 3 (error (Msg "connector %s has no operation %q" [name; FStr (ws_Operation w)]) r)
      | Some op =>
          if negb (String.eqb (op_Direction op) DirectionWrite) then
            error (Msg "%s.%s is a read operation" [name; FStr (op_Name op)]) r
          else match Permitted m DirectionWrite (op_Interface op) with
          | Err err => raise 3 (error (Msg "%s.%s: %v" [name; FStr (op_Name op); FErr err]) r)
          | Ok ifc =>
              let r := check_simulation m path w ifc r in
              let r := check_amount m path w ifc r in
              let r := check_produced m path op producing r in
              let r := check_compensation m path w op r in
              check_approval m path w op r
          end
      end
  end.

(** One step of the interface stage, with the entity the latest map step produces. *)
Definition interface_step (st : Report * string) (ix : Z * Step) : Report * string :=
  let (r, producing) := st in
  let path := at_index "spec.steps" (fst ix) in
  match s_Map (snd ix), s_Write (snd ix) with
  | Some m, _ => (r, trim_prefix "model." (ms_To m))
  | None, Some w => (writeStep r path w producing, producing)
  | None, None => (r, producing)
  end.

(** ** Mappings and identity resolution *)

Definition check_expression (path ref : string) (r : Report) (f : FieldMapping) : Report :=
  match mapping_Check (fm_Expression f) with
  | Some err =>
      add_finding StageMapping SeverityError (path +++ ".map")
        (Msg "%s.%s: invalid JSONata expression: %v" [FStr ref; FStr (fm_Target f); FErr err]) r
  | None => r
  end.

Definition review_item (ref : string) (f : FieldMapping) : ReviewItem :=
  mkReviewItem ref (fm_Target f) (fm_Expression f) (fm_Origin f) (fm_Confidence f) (fm_Rationale f).

Definition check_confidence (path ref : string) (threshold : float64) (r : Report) (f : FieldMapping) : Report :=
  if fm_Approved f || String.eqb (fm_Origin f) OriginCertified || PrimFloat.leb threshold (fm_Confidence f) then r
  else match Find_review ExpressionDigest (o_Reviews v_opts) ref (fm_Target f) (fm_Expression f) with
  | Some rv =>
      if String.eqb (rv_Decision rv) ReviewApproved then
        add_finding StageMapping SeverityInfo (path +++ ".map")
          (Msg "%s.%s (confidence %.2f) approved by %s on %s"
            [FStr ref; FStr (fm_Target f); FFlt (fm_Confidence f); FStr (rv_Reviewer rv); FStr (rv_At rv)]) r
      else
        raise 2 (add_finding StageMapping SeverityError (path +++ ".map")
          (Msg "%s.%s was rejected by %s: %s; change the mapping"
            [FStr ref; FStr (fm_Target f); FStr (rv_Reviewer rv);
             FStr (or_default (rv_Note rv) "no reason given")]) r)
  | None =>
      add_finding StageMapping SeverityReview (path +++ ".map")
        (Msg "%s.%s has confidence %.2f, below the %.2f threshold; it needs review"
          [FStr ref; FStr (fm_Target f); FFlt (fm_Confidence f); FFlt threshold])
        (queue_review (review_item ref f) r)
  end.

Definition mapStep (r : Report) (path : string) (s : MapStep) (threshold : float64) : Report :=
  match get_Mapping v_cat (ms_Mapping s) with
  | Err err =>
      raise 2 (add_finding StageMapping SeverityError (path +++ ".map.mapping")
        (Msg "mapping %q: %v; mappings must be confirmed in the console" [FStr (ms_Mapping s); FErr err]) r)
  | Ok m =>
      let r := set_Mapping (ms_Mapping s) m r in
      if negb (String.eqb (mp_From m) (ms_From s)) || negb (String.eqb (mp_To m) (ms_To s)) then
        raise 2 (add_finding StageMapping SeverityError (path +++ ".map")
          (Msg "mapping %s maps %s to %s, but the step needs %s to %s"
            [FStr (ms_Mapping s); FStr (mp_From m); FStr (mp_To m); FStr (ms_From s); FStr (ms_To s)]) r)
      else
        let ref := om_Name (mp_Metadata m) +++ "@" +++ om_Version (mp_Metadata m) in
        let r := fold_left (check_expression path ref) (mp_Fields m) r in
        fold_left (check_confidence path ref threshold) (mp_Fields m) r
  end.

(** [strings.ToLower(entity[:1]) + entity[1:]]; a byte that starts a longer
    character is not one by itself and becomes U+FFFD. *)
Definition lower_head (s : string) : string :=
  match s with
  | "" => ""
  | String c s => (if (N_of_ascii c <? 128)%N then String (lower_byte c) "" else bytes [239; 191; 189]%N) +++ s
  end.

(** The fields a resolve step reads and sets. *)
Definition resolve_fields (s : ResolveStep) : string * string :=
  let entity := trim_prefix "model." (rs_Entity s) in
  if String.eqb entity "" then (rs_Ref s, rs_Into s)
  else
    let lower := lower_head entity in
    (if String.eqb (rs_Ref s) "" then lower +++ "Ref" else rs_Ref s,
     if String.eqb (rs_Into s) "" then lower +++ "Id" else rs_Into s).

(** The document's fields once a map step set them, and that mapping. *)
Definition doc_state : Type := option (gset string) * string.

(** [fields[x] = true] where the fields are known. *)
Definition set_field (x : string) (d : doc_state) : doc_state :=
  (match fst d with Some fields => Some ({[x]} ∪ fields) | None => None end, snd d).

(** Whether the fields are known and lack one. *)
Definition lacks (d : doc_state) (x : string) : bool :=
  match fst d with Some fields => negb (bool_decide (x ∈ fields)) | None => false end.

Definition check_map_step (path : string) (threshold : float64) (s : MapStep) (st : Report * doc_state)
    : Report * doc_state :=
  let r := mapStep (fst st) path s threshold in
  (r, (match res_Mappings (r_Resolution r) !! ms_Mapping s with
       | Some m => Some (list_to_set (map fm_Target (mp_Fields m)))
       | None => None
       end, ms_Mapping s)).

(** The field an amount is read from. *)
Definition check_write_amount (path : string) (w : WriteStep) (st : Report * doc_state) : Report * doc_state :=
  let (r, d) := st in
  match fst d with
  | None => (r, d)
  | Some _ =>
      let r :=
        if negb (String.eqb (ws_Amount w) "") && lacks d (before_dot (ws_Amount w)) then
          add_finding StagePolicy SeverityError (path +++ ".write.amount")
            (Msg "the amount is read from %s, which mapping %s does not set: approval thresholds would see 0"
              [FStr (ws_Amount w); FStr (snd d)]) r
        else r in
      (r, if String.eqb (ws_Output w) "" then d else set_field (ws_Output w) d)
  end.

Definition check_strategy (path : string) (s : ResolveStep) (r : Report) : Report :=
  if String.eqb (rs_Strategy s) StrategyExact || String.eqb (rs_Strategy s) StrategyProbabilistic then r
  else if String.eqb (rs_Strategy s) StrategySplink then
    add_finding StageMapping SeverityInfo (path +++ ".resolve.strategy")
      (msg0 "matched by the Splink service (deploy/splink) the workers reach at TURGON_SPLINK_URL; without it, unmatched records go to a data steward") r
  else
    add_finding StageMapping SeverityError (path +++ ".resolve.strategy")
      (Msg "unknown identity-resolution strategy %q (want exact, probabilistic or splink)" [FStr (rs_Strategy s)]) r.

Definition check_resolve_step (path : string) (s : ResolveStep) (st : Report * doc_state) : Report * doc_state :=
  let (r, d) := st in
  let (ref, into) := resolve_fields s in
  let r :=
    if lacks d ref then
      add_finding StageMapping SeverityError
        (if String.eqb (rs_Ref s) "" then path +++ ".resolve" else path +++ ".resolve.ref")
        (Msg "resolve reads the source record's reference from %s, which mapping %s does not set; map it, or name the field with ref"
          [FStr ref; FStr (snd d)]) r
    else r in
  let d := set_field into d in
  let r := check_strategy path s r in
  let r :=
    if PrimFloat.ltb (rs_AutoMatchAbove s) 0x1.999999999999ap-1%float then
      add_finding StageMapping SeverityWarning (path +++ ".resolve.autoMatchAbove")
        (Msg "auto-matching above %.2f risks merging distinct records; ambiguous matches should go to a data steward"
          [FFlt (rs_AutoMatchAbove s)]) r
    else r in
  (r, d).

(** One step of the mapping stage. *)
Definition mapping_step (threshold : float64) (st : Report * doc_state) (ix : Z * Step) : Report * doc_state :=
  let path := at_index "spec.steps" (fst ix) in
  let s := snd ix in
  let st := match s_Map s with Some m => check_map_step path threshold m st | None => st end in
  let st := match s_Write s with Some w => check_write_amount path w st | None => st end in
  match s_Resolve s with Some rs => check_resolve_step path rs st | None => st end.

(** ** Policy and capacity *)

Definition resolve_policy (r : Report) (ref : string) : Report :=
  match get_Policy v_cat ref with
  | Err err => add_finding StagePolicy SeverityError "spec.policies" (Msg "policy pack %q: %v" [FStr ref; FErr err]) r
  | Ok p => add_Policy p r
  end.

Definition capacity_step (rec : Recipe) (r : Report) (ix : Z * Step) : Report :=
  match s_Write (snd ix) with
  | None => r
  | Some w =>
      match res_Connectors (r_Resolution r) !! ws_Target w with
      | None => r
      | Some m =>
          let path := at_index "spec.steps" (fst ix) +++ ".write" in
          let name := FStr (om_Name (cm_Metadata m)) in
          let limit := RequestsPerSecond (cs_Limits (cm_Spec m)) in
          match rc_PeakPerSecond (r_Spec rec) with
          | None =>
              add_finding StageCapacity SeverityInfo path
                (Msg "no peak load declared; the rate governor will hold %s to %g requests/s" [name; FFlt limit]) r
          | Some peak =>
              if PrimFloat.ltb limit peak then
                add_finding StageCapacity SeverityError path
                  (Msg "peak load %g/s exceeds %s's declared limit of %g requests/s" [FFlt peak; name; FFlt limit]) r
              else if PrimFloat.ltb (limit * CapacityHeadroom v_opts)%float peak then
                add_finding StageCapacity SeverityWarning path
                  (Msg "peak load %g/s leaves little headroom under %s's limit of %g requests/s"
                    [FFlt peak; name; FFlt limit]) r
              else r
          end
      end
  end.

(** ** Recipes *)

Definition hasWrites (rec : Recipe) : bool := existsb (fun s => is_some (s_Write s)) (rc_Steps (r_Spec rec)).

Definition threshold_of (rec : Recipe) : float64 :=
  if hasWrites rec then WriteReviewThreshold v_opts else ReviewThreshold v_opts.

Definition resolve_stage (bound : gmap string ConnectorManifest) (rec : Recipe) (r : Report) : Report :=
  let r := fold_left (resolve_endpoint bound rec) (Endpoints rec) r in
  let r := extensions r (rc_Extensions (r_Spec rec)) (res_Connectors (r_Resolution r)) in
  fold_left (fun r '(name, _) => check_pin rec r name) (range (rc_Connectors (r_Spec rec))) r.

Definition interface_stage (rec : Recipe) (r : Report) : Report :=
  let r := check_trigger rec r in
  fst (fold_left interface_step (indexed (rc_Steps (r_Spec rec))) (r, "")).

Definition mapping_stage (rec : Recipe) (r : Report) : Report :=
  fst (fold_left (mapping_step (threshold_of rec)) (indexed (rc_Steps (r_Spec rec))) (r, (None, ""))).

Definition policy_stage (rec : Recipe) (r : Report) : Report :=
  let refs := rc_Policies (r_Spec rec) in
  let r := fold_left resolve_policy refs r in
  let r := if hasWrites rec && bool_decide (List.length refs = 0) then
    add_finding StagePolicy SeverityWarning "spec.policies"
      (msg0 "no policy packs referenced; writes fall back to the built-in write-back default") r
    else r in
  checkPolicies r (res_Policies (r_Resolution r)) (hasWrites rec).

Definition capacity_stage (rec : Recipe) (r : Report) : Report :=
  fold_left (capacity_step rec) (indexed (rc_Steps (r_Spec rec))) r.

Definition dry_run_stage (rec : Recipe) (r : Report) : Report :=
  if hasWrites rec then
    add_finding StageDryRun SeverityInfo "" (msg0 "sample dry-run deferred to deployment (simulation or shadow mode)") r
  else r.

(** After schema validation: the stages in order. *)
Definition recipe_stages (bound : gmap string ConnectorManifest) (rec : Recipe) (r : Report) : Report :=
  let r := if negb (String.eqb (om_Certification (r_Metadata rec)) LevelL0) then raise 1 r else r in
  let r := resolve_stage bound rec r in
  let r := interface_stage rec r in
  let r := mapping_stage rec r in
  let r := policy_stage rec r in
  let r := capacity_stage rec r in
  dry_run_stage rec r.

(** [recipe]: the deferred [finish] runs on every return. *)
Definition verify_recipe (rec : Recipe) (bound : gmap string ConnectorManifest) : Report :=
  finish (match schema (set_Recipe rec (newReport (ORecipe rec))) (ORecipe rec) with
          | (r, false) => r
          | (r, true) => recipe_stages bound rec r
          end).
End verifier.
