(* ===== verification/BlueprintVerifier.v ===== *)
(** Whole stacks: [Blueprint] and [Verify] of [src/pkg/verifier/verifier.go]. Slots are
    bound first, then extensions and recipes are checked against what the slots offer. *)

From S2P Require Import Turgon Prelude GoStr GoErr GoTime Regex Semver Api ApiKinds Catalog Report Verifier.
From S2P Require Import RecipeVerifier.
From Stdlib Require Import Ascii String.

Section verifier.
Context `{E : Externals} `{V : Verifier}.

(** ** Binding slots *)

(** The loop's variables beside the report. *)
Record scope := mkScope {
  bound : gmap string ConnectorManifest;
  byConnector : gmap string string;
  entities : gset string;
  events : gset string
}.

Definition empty_scope : scope := mkScope ∅ ∅ ∅ ∅.

Definition add_all (l : list string) (s : gset string) : gset string := fold_left (fun s e => {[e]} ∪ s) l s.

Definition bind_in_scope (slot : string) (c : SlotContract) (m : ConnectorManifest) (s : scope) : scope :=
  mkScope (<[slot := m]> (bound s)) (<[om_Name (cm_Metadata m) := slot]> (byConnector s))
    (add_all (sc_Entities c) (entities s)) (add_all (sc_Events c) (events s)).

(** The last contract a plugin implements whose name is the slot's. *)
Definition contract_ref (slot : string) (p : Plugin) : string :=
  fold_left (fun found ref => if String.eqb (fst (ParseRef ref)) slot then ref else found)
    (ps_Implements (p_Spec p)) "".

Definition check_model (b : StackBlueprint) (path contractRef : string) (c : SlotContract) (r : Report) : Report :=
  if negb (String.eqb (b_Model b) "") && negb (String.eqb (sc_Model c) "") &&
     negb (String.eqb (sc_Model c) (b_Model b)) then
    add_finding StageContract SeverityError path
      (Msg "contract %s is defined on model %s, but the stack uses %s"
        [FStr contractRef; FStr (sc_Model c); FStr (b_Model b)]) r
  else r.

(** The manifest the slot's connection gives, the connector's own without one; nothing
    once a finding says why not. *)
Definition bind_connection (path slot : string) (bind : SlotBinding) (p : Plugin) (m : ConnectorManifest) (r : Report)
    : Report * option ConnectorManifest :=
  if String.eqb (sb_Connection bind) "" then
    (add_finding StageResolve SeverityWarning (path +++ ".connection")
       (Msg "no connection configures the %s slot: its connector runs with no configuration and the manifest's default secret; name the Connection for this stack's %s"
         [FStr slot; FStr (om_Name (cm_Metadata m))]) r, Some m)
  else match get_Connection v_cat (sb_Connection bind) with
  | Err err =>
      (raise 3 (add_finding StageResolve SeverityError (path +++ ".connection")
         (Msg "connection %q: %v" [FStr (sb_Connection bind); FErr err]) r), None)
  | Ok conn =>
      let (name, pin) := ParseRef (ps_Connector (p_Spec p)) in
      let cname := fst (ParseRef (cn_Connector (cn_Spec conn))) in
      if negb (String.eqb cname name) then
        (raise 3 (add_finding StageContract SeverityError (path +++ ".connection")
           (Msg "connection %s uses connector %s, but plugin %s is the %s connector"
             [FStr (om_Name (cn_Metadata conn)); FStr cname; FStr (om_Name (p_Metadata p)); FStr name]) r), None)
      else match connection r conn pin with
      | (r, None) => (r, None)
      | (r, Some em) => (set_Connection slot conn r, Some em)
      end
  end.

(** A slot whose plugin and contract are known. *)
Definition bind_contract (b : StackBlueprint) (path slot : string) (bind : SlotBinding) (p : Plugin)
    (contractRef : string) (c : SlotContract) (r : Report) (s : scope) : Report * scope :=
  let r := check_model b path contractRef c r in
  let (name, con) := ParseRef (ps_Connector (p_Spec p)) in
  match Connector v_cat name con with
  | Err _ => (r, s)
  | Ok m =>
      match bind_connection path slot bind p m r with
      | (r, None) => (r, s)
      | (r, Some m) =>
          match satisfies r path c m with
          | (r, false) => (raise 2 r, s)
          | (r, true) => (set_Connector slot m (set_Slot slot p c r), bind_in_scope slot c m s)
          end
      end
  end.

(** One slot of the blueprint. *)
Definition bind_slot (b : StackBlueprint) (st : Report * scope) (slot : string) : Report * scope :=
  let (r, s) := st in
  let path := "spec.slots." +++ slot in
  let bind := default (mkSlotBinding "" "" "") (b_Slots b !! slot) in
  match get_Plugin v_cat (sb_Plugin bind) (sb_Version bind) with
  | Err err =>
      (raise 3 (add_finding StageResolve SeverityError path
         (Msg "%v; no certified plugin fills this slot" [FErr err]) r), s)
  | Ok p =>
      let r := add_child (verify_plugin p) r in
      if negb (String.eqb (ps_Type (p_Spec p)) PluginConnector) then
        (add_finding StageContract SeverityError path
           (Msg "plugin %s is a %s plugin; slots take connector plugins"
             [FStr (om_Name (p_Metadata p)); FStr (ps_Type (p_Spec p))]) r, s)
      else
        let contractRef := contract_ref slot p in
        if String.eqb contractRef "" then
          (raise 2 (add_finding StageContract SeverityError path
             (Msg "plugin %s does not implement the %s slot contract" [FStr (om_Name (p_Metadata p)); FStr slot]) r), s)
        else match Contract v_cat contractRef with
        | Err err =>
            (add_finding StageResolve SeverityError path
               (Msg "slot contract %q: %v" [FStr contractRef; FErr err]) r, s)
        | Ok c => bind_contract b path slot bind p contractRef c r s
        end
  end.

Definition slot_names (b : StackBlueprint) : list string := sort_strings (map fst (range (b_Slots b))).

(** ** Extensions *)

Definition check_stack_extension (s : scope) (events : gset string) (r : Report) (ix : Z * string) : Report :=
  let path := at_index "spec.extensions" (fst ix) in
  match plugin_of_ref (snd ix) with
  | Err err => raise 3 (add_finding StageResolve SeverityError path (Msg "%v" [FErr err]) r)
  | Ok p =>
      let r := add_Extension p (add_child (verify_plugin p) r) in
      let r := if String.eqb (ps_Type (p_Spec p)) PluginConnector then
        add_finding StageContract SeverityError path
          (Msg "connector plugins fill slots; %s cannot be an extension" [FStr (om_Name (p_Metadata p))]) r
        else r in
      checkPluginOperations (checkExtension r path p (entities s) events) path p (bound s)
  end.

(** ** Recipes *)

Definition check_endpoint (b : StackBlueprint) (path : string) (rec : Recipe) (s : scope)
    (st : Report * gmap string ConnectorManifest) (ep : string) : Report * gmap string ConnectorManifest :=
  let (r, names) := st in
  let name := FStr (om_Name (r_Metadata rec)) in
  if is_some (b_Slots b !! ep) then (r, names)
  else match byConnector s !! ep with
  | Some slot =>
      (add_finding StageContract SeverityInfo path
         (Msg "recipe %s names tool %q directly; naming slot %q would survive a swap" [name; FStr ep; FStr slot]) r,
       match bound s !! slot with Some m => <[ep := m]> names | None => names end)
  | None =>
      (add_finding StageContract SeverityError path
         (Msg "recipe %s uses %q, which is not a slot in this stack" [name; FStr ep]) r, names)
  end.

Definition check_recipe (b : StackBlueprint) (s : scope) (r : Report) (ix : Z * string) : Report :=
  let path := at_index "spec.recipes" (fst ix) in
  match get_Recipe v_cat (snd ix) with
  | Err err => raise 2 (add_finding StageResolve SeverityError path (Msg "recipe %q: %v" [FStr (snd ix); FErr err]) r)
  | Ok rec =>
      let (r, names) := fold_left (check_endpoint b path rec s) (Endpoints rec) (r, bound s) in
      add_child (verify_recipe rec names) r
  end.

(** ** Blueprints *)

Definition blueprint_stages (b : StackBlueprint) (r : Report) : Report :=
  let (r, s) := fold_left (bind_slot b) (slot_names b) (r, empty_scope) in
  let events := published (b_Extensions b) (events s) in
  let r := fold_left (check_stack_extension s events) (indexed (b_Extensions b)) r in
  let r := fold_left (check_recipe b s) (indexed (b_Recipes b)) r in
  let r := fold_left resolve_policy (b_Policies b) r in
  checkPolicies r (res_Policies (r_Resolution r)) false.

Definition verify_blueprint (b : StackBlueprint) : Report :=
  finish (match schema (newReport (OBlueprint b)) (OBlueprint b) with
          | (r, false) => r
          | (r, true) => blueprint_stages b r
          end).

(** [Verify]. *)
Definition Verify (obj : Object) : Report :=
  match obj with
  | ORecipe rec => verify_recipe rec ∅
  | OBlueprint b => verify_blueprint b
  | OPlugin p => verify_plugin p
  | _ => finish (fst (schema (newReport obj) obj))
  end.
End verifier.
