(* ===== verification/VerifierProps.v ===== *)
(** Lemmas about the verifier: how findings are collected, and the condition of each check. *)

From S2P Require Import Turgon Prelude GoStr GoErr GoTime Regex Semver Api ApiKinds ApiTheorems Catalog Report Verifier.
From S2P Require Import RecipeVerifier.
From Stdlib Require Import Ascii String.

(** How checks change a report's verdict: each adds nothing that blocks exactly when its
    condition holds, and keeps the report well formed. The lemmas compose along
    sequences and loops, and give every check of the verifier its condition. *)

(** ** Verdicts *)

(** Nothing blocks the report as built so far. *)
Definition clean (r : Report) : Prop := unblocked r /\ Forall (fun c => Deployable c = true) (Children r).

(** A report that [finish] may finish. *)
Definition wf (r : Report) : Prop := (0 <= r_level r <= 3)%Z /\ forall c, c ∈ Children r -> complete c.

(** [r'] is [r] with the outcome of a check: it blocks unless [ok]. *)
Definition verdict (r r' : Report) (ok : Prop) : Prop := (wf r -> wf r') /\ (clean r' <-> clean r /\ ok).

(** A verdict that leaves what was resolved alone. *)
Definition quiet (r r' : Report) (ok : Prop) : Prop := r_Resolution r' = r_Resolution r /\ verdict r r' ok.

Lemma clean_error st path m r : ~ clean (add_finding st SeverityError path m r).
Proof.
  unfold clean, unblocked, add_finding. cbn. intros [[H _] _].
  apply Forall_app in H as [_ H]. inversion H; subst. cbn in *. done.
Qed.

Lemma clean_note st sev path m r : sev <> SeverityError -> (clean (add_finding st sev path m r) <-> clean r).
Proof.
  intros Hs. unfold clean, unblocked, add_finding. cbn. rewrite Forall_app, Forall_singleton. cbn. tauto.
Qed.

Lemma clean_raise n r : clean (raise n r) <-> clean r.
Proof. unfold clean, unblocked. by rewrite raise_findings, raise_queue, raise_children. Qed.

Lemma clean_queue item r : ~ clean (queue_review item r).
Proof. unfold clean, unblocked, queue_review. cbn. intros [[_ H] _]. by apply app_eq_nil in H as [_ H]. Qed.

Lemma clean_child c r : clean (add_child c r) <-> clean r /\ Deployable c = true.
Proof. unfold clean, unblocked, add_child. cbn. rewrite Forall_app, Forall_singleton. tauto. Qed.

Lemma verdict_refl r : verdict r r True.
Proof. split; [done|tauto]. Qed.

Lemma verdict_trans r1 r2 r3 a b : verdict r1 r2 a -> verdict r2 r3 b -> verdict r1 r3 (a /\ b).
Proof. intros [W1 C1] [W2 C2]. split; [auto|]. rewrite C2, C1. tauto. Qed.

Lemma verdict_iff r r' a b : (a <-> b) -> verdict r r' a -> verdict r r' b.
Proof. intros Hab [W C]. split; [done|]. by rewrite C, Hab. Qed.

Lemma quiet_refl r : quiet r r True.
Proof. split; [done|apply verdict_refl]. Qed.

Lemma quiet_trans r1 r2 r3 a b : quiet r1 r2 a -> quiet r2 r3 b -> quiet r1 r3 (a /\ b).
Proof. intros [R1 V1] [R2 V2]. split; [congruence|by apply (verdict_trans r1 r2)]. Qed.

Lemma quiet_iff r r' a b : (a <-> b) -> quiet r r' a -> quiet r r' b.
Proof. intros Hab [R V]. split; [done|by apply (verdict_iff r r' a)]. Qed.

#[export] Instance verdict_proper r r' : Proper (iff ==> iff) (verdict r r').
Proof. intros a b H. split; apply verdict_iff; tauto. Qed.

#[export] Instance quiet_proper r r' : Proper (iff ==> iff) (quiet r r').
Proof. intros a b H. split; apply quiet_iff; tauto. Qed.

Lemma quiet_id r ok : ok -> quiet r r ok.
Proof. intros H. apply (quiet_iff _ _ True); [tauto|apply quiet_refl]. Qed.

Lemma quiet_error st path m r ok : ~ ok -> quiet r (add_finding st SeverityError path m r) ok.
Proof.
  intros Hn. split; [done|]. split; [intros W; exact W|].
  pose proof (clean_error st path m r). tauto.
Qed.

Lemma quiet_raise n r r' ok : (0 <= n <= 3)%Z -> quiet r r' ok -> quiet r (raise n r') ok.
Proof.
  intros Hn [R [W C]]. split; [by rewrite raise_resolution|]. split; [|by rewrite clean_raise].
  intros Hw. destruct (W Hw) as [L D]. split; [rewrite raise_level; lia|by rewrite raise_children].
Qed.

Lemma quiet_note st sev path m r r' ok :
  sev <> SeverityError -> quiet r r' ok -> quiet r (add_finding st sev path m r') ok.
Proof. intros Hs [R [W C]]. split; [done|]. split; [exact W|]. by rewrite clean_note. Qed.

Lemma quiet_queue item r ok : ~ ok -> quiet r (queue_review item r) ok.
Proof.
  intros Hn. split; [done|]. split; [intros W; exact W|]. pose proof (clean_queue item r). tauto.
Qed.

Lemma verdict_resolution f r r' ok : verdict r r' ok -> verdict r (update_resolution f r') ok.
Proof. intros [W C]. split; [exact W|exact C]. Qed.

Lemma verdict_child c r r' ok :
  complete c -> verdict r r' ok -> verdict r (add_child c r') (ok /\ Deployable c = true).
Proof.
  intros Hc [W C]. split.
  - intros Hw. destruct (W Hw) as [L D]. split; [exact L|]. cbn. intros x Hx.
    apply elem_of_app in Hx as [Hx|Hx]; [by apply D|]. by apply list_elem_of_singleton in Hx as ->.
  - rewrite clean_child, C. tauto.
Qed.

Lemma newReport_clean obj : clean (newReport obj) /\ wf (newReport obj).
Proof.
  split; [split; [split|]; cbn; constructor|]. split; [cbn; lia|]. intros c Hc. by apply elem_of_nil in Hc.
Qed.

(** A finished report is complete, and deployable exactly when it was clean. *)
Lemma finish_verdict r : wf r -> complete (finish r) /\ (Deployable (finish r) = true <-> clean r).
Proof.
  intros [L D]. split; [by constructor|]. rewrite (fin_deployable _ _ (finish_spec r L)). unfold clean, unblocked. tauto.
Qed.

(** ** Loops *)

Section along.
Context {S X : Type} (next : S -> X -> S) (ok : S -> X -> Prop).

(** [ok] holds of every element, with the state the elements before it leave. *)
Fixpoint along (s : S) (l : list X) : Prop :=
  match l with
  | [] => True
  | x :: l => ok s x /\ along (next s x) l
  end.

Lemma along_split s l :
  along s l <-> forall pre x post, l = pre ++ x :: post -> ok (fold_left next pre s) x.
Proof.
  revert s. induction l as [|y l IH]; intros s; cbn [along].
  - split; [|done]. intros _ pre x post H. by destruct pre.
  - rewrite IH. split.
    + intros [Hy Hl] [|z pre] x post [= -> ->]; [done|]. cbn. by apply (Hl pre x post).
    + intros H. split; [by apply (H [] y l)|]. intros pre x post ->. by apply (H (y :: pre) x post).
Qed.
End along.

Lemma along_indexed {S X} (next : S -> X -> S) (ok : S -> X -> Prop) s l i :
  along (fun s ix => next s (snd ix)) (fun s ix => ok s (snd ix)) s (indexed_from i l) <-> along next ok s l.
Proof. revert s i. induction l as [|x l IH]; intros s i; cbn; [done|]. by rewrite IH. Qed.

Lemma fold_indexed {S X} (next : S -> X -> S) s (l : list X) i :
  fold_left (fun s ix => next s (snd ix)) (indexed_from i l) s = fold_left next l s.
Proof. revert s i. induction l as [|x l IH]; intros s i; cbn; [done|]. apply IH. Qed.

(** The loop rule: an invariant of the report, a loop variable and each pass's verdict. *)
Lemma verdict_loop {S X} (I : Report -> Prop) (f : Report * S -> X -> Report * S) next ok l r s :
  (forall r s x, I r -> I (fst (f (r, s) x)) /\ snd (f (r, s) x) = next s x /\ verdict r (fst (f (r, s) x)) (ok s x)) ->
  I r ->
  I (fst (fold_left f l (r, s))) /\ snd (fold_left f l (r, s)) = fold_left next l s /\
  verdict r (fst (fold_left f l (r, s))) (along next ok s l).
Proof.
  intros Hf. revert r s. induction l as [|x l IH]; intros r s HI; cbn [fold_left along].
  { split; [done|]. split; [done|apply verdict_refl]. }
  destruct (Hf r s x HI) as (HI' & Hn & Hv). destruct (f (r, s) x) as [r1 s1]. cbn [fst snd] in *. subst s1.
  destruct (IH r1 (next s x) HI') as (HI2 & Hn2 & Hv2).
  split; [done|]. split; [done|]. by apply (verdict_trans r r1).
Qed.

Lemma quiet_loop {S X} (f : Report * S -> X -> Report * S) next (ok : Resolution -> S -> X -> Prop) l r s :
  (forall r s x, snd (f (r, s) x) = next s x /\ quiet r (fst (f (r, s) x)) (ok (r_Resolution r) s x)) ->
  snd (fold_left f l (r, s)) = fold_left next l s /\
  quiet r (fst (fold_left f l (r, s))) (along next (ok (r_Resolution r)) s l).
Proof.
  intros Hf.
  destruct (verdict_loop (fun r' => r_Resolution r' = r_Resolution r) f next (ok (r_Resolution r)) l r s) as (HR & Hn & Hv).
  - intros r' s' x HI. destruct (Hf r' s' x) as [Hn [R V]]. rewrite HI in V, R. done.
  - done.
  - done.
Qed.

Lemma fold_unit {X} (f : Report -> X -> Report) l r :
  fst (fold_left (fun st x => (f (fst st) x, tt)) l (r, tt)) = fold_left f l r.
Proof. revert r. induction l as [|x l IH]; intros r; cbn; [done|]. apply IH. Qed.

Lemma along_unit {X} (ok : X -> Prop) l : along (fun _ _ => tt) (fun _ => ok) tt l <-> Forall ok l.
Proof. induction l as [|x l IH]; cbn; [split; [constructor|done]|]. by rewrite Forall_cons, IH. Qed.

Lemma verdict_fold {X} (I : Report -> Prop) (f : Report -> X -> Report) ok l r :
  (forall r x, I r -> I (f r x) /\ verdict r (f r x) (ok x)) -> I r ->
  I (fold_left f l r) /\ verdict r (fold_left f l r) (Forall ok l).
Proof.
  intros Hf HI. rewrite <- fold_unit.
  destruct (verdict_loop I (fun st x => (f (fst st) x, tt)) (fun _ _ => tt) (fun _ => ok) l r tt) as (H1 & _ & H2).
  - intros r' [] x HI'. destruct (Hf r' x HI'). done.
  - done.
  - split; [done|]. eapply verdict_iff; [apply along_unit|done].
Qed.

Lemma quiet_fold {X} (f : Report -> X -> Report) (ok : Resolution -> X -> Prop) l r :
  (forall r x, quiet r (f r x) (ok (r_Resolution r) x)) -> quiet r (fold_left f l r) (Forall (ok (r_Resolution r)) l).
Proof.
  intros Hf. apply (verdict_fold (fun r' => r_Resolution r' = r_Resolution r)).
  - intros r' x HI. destruct (Hf r' x) as [R V]. rewrite HI in R, V. done.
  - done.
Qed.

(** ** Tactics *)

(** A check without loops: every branch is a note, an error or nothing. *)
Ltac quiet_leaf :=
  match goal with
  | |- quiet _ (raise _ _) _ => apply quiet_raise; [lia|]; quiet_leaf
  | |- quiet _ (add_finding _ SeverityError _ _ _) _ => apply quiet_error
  | |- quiet _ (add_finding _ _ _ _ _) _ => apply quiet_note; [discriminate|]; quiet_leaf
  | |- quiet _ (queue_review _ _) _ => apply quiet_queue
  | |- quiet _ _ _ => apply quiet_id
  end.

(** The condition each check of the verifier decides. *)

Lemma contains_in l s : contains l s = true <-> s ∈ l.
Proof.
  induction l as [|x l IH]; cbn; [split; [done|intros H; by apply elem_of_nil in H]|].
  rewrite elem_of_cons. destruct (String.eqb_spec x s) as [->|N]; [split; [by left|done]|].
  rewrite IH. split; [by right|]. intros [->|?]; done.
Qed.

(** ** Contracts *)

(** An action of a contract, on the connector: there, in its direction, no riskier. *)
Definition action_ok (m : ConnectorManifest) (a : ContractAction) : Prop :=
  exists op, find_operation m (ca_Name a) = Some op /\
    (ca_Risk a = RiskRead <-> op_Direction op = DirectionRead) /\ (riskRank (ca_Risk a) <= riskRank (op_Risk op))%Z.

(** The connector provides what the contract requires. *)
Definition provides (m : ConnectorManifest) (c : SlotContract) : Prop :=
  Forall (fun e => e ∈ cs_Entities (cm_Spec m)) (sc_Entities c) /\
  Forall (fun e => exists ev, ev ∈ cs_Events (cm_Spec m) /\ ev_Name ev = e) (sc_Events c) /\
  Forall (action_ok m) (sc_Actions c).

Lemma HasEntity_in m e : HasEntity m e = true <-> e ∈ cs_Entities (cm_Spec m).
Proof.
  unfold HasEntity. rewrite is_some_true. split.
  - intros [x Hx]. apply find_first_some in Hx as [Hx E]. apply String.eqb_eq in E as ->. done.
  - intros Hin. apply (find_first_is_some _ _ e Hin), String.eqb_refl.
Qed.

Lemma find_event_in m e : is_some (find_event m e) = true <-> exists ev, ev ∈ cs_Events (cm_Spec m) /\ ev_Name ev = e.
Proof.
  unfold find_event. rewrite is_some_true. split.
  - intros [x Hx]. apply find_first_some in Hx as [Hx E]. apply String.eqb_eq in E. eauto.
  - intros (ev & Hin & Hn). apply (find_first_is_some _ _ ev Hin). by apply String.eqb_eq.
Qed.

Lemma action_failure_none m a : action_failure m a = None <-> action_ok m a.
Proof.
  unfold action_failure, action_ok. destruct (find_operation m (ca_Name a)) as [op|].
  2: { split; [done|]. by intros (? & [=] & _). }
  destruct (Bool.eqb _ _) eqn:Hb; cbn [negb].
  - apply Bool.eqb_prop in Hb.
    assert (Hd : ca_Risk a = RiskRead <-> op_Direction op = DirectionRead) by (rewrite <- !String.eqb_eq, Hb; done).
    destruct (Z.ltb_spec (riskRank (op_Risk op)) (riskRank (ca_Risk a))) as [Hlt|Hge].
    + split; [done|]. intros (x & [= <-] & _ & Hr). lia.
    + split; [|done]. intros _. exists op. split; [done|]. split; [done|lia].
  - split; [done|]. intros (x & [= <-] & Hd & _). rewrite <- !String.eqb_eq in Hd.
    destruct (String.eqb (ca_Risk a) _), (String.eqb (op_Direction op) _); try done; destruct Hd; naive_solver.
Qed.

(** A loop of [fail]s. *)
Lemma fail_loop {X} (f : Report * bool -> X -> Report * bool) (bad : X -> option message) path c m l st :
  (forall st x, f st x = match bad x with Some why => fail path c m why st | None => st end) ->
  let st' := fold_left f l st in
  quiet (fst st) (fst st') (Forall (fun x => bad x = None) l) /\
  (snd st' = true <-> snd st = true /\ Forall (fun x => bad x = None) l).
Proof.
  intros Hf. revert st. induction l as [|x l IH]; intros st; cbn [fold_left].
  { split; [apply quiet_id; constructor|]. split; [by repeat constructor|by intros []]. }
  specialize (IH (f st x)). cbv zeta in *. rewrite Hf in *. destruct (bad x) as [why|] eqn:Hb.
  - destruct IH as [Hq Hs]. cbn [fail fst snd] in Hq, Hs. split.
    + eapply quiet_iff; [|eapply (quiet_trans _ _ _ False); [apply quiet_error; tauto|exact Hq]].
      rewrite Forall_cons, Hb. split; [by intros []|by intros [[=] _]].
    + rewrite Hs, Forall_cons, Hb. split; [by intros [[=] _]|by intros [_ [[=] _]]].
  - destruct IH as [Hq Hs]. split.
    + eapply quiet_iff; [|exact Hq]. rewrite Forall_cons. tauto.
    + rewrite Hs, Forall_cons. tauto.
Qed.

Lemma satisfies_spec r path c m :
  quiet r (fst (satisfies r path c m)) (provides m c) /\ (snd (satisfies r path c m) = true <-> provides m c).
Proof.
  unfold satisfies.
  set (bad1 e := if HasEntity m e then None else Some (Msg "missing entity %s" [FStr e])).
  set (bad2 e := if is_some (find_event m e) then None else Some (Msg "missing event %s" [FStr e])).
  set (f1 st e := if negb (HasEntity m e) then fail path c m (Msg "missing entity %s" [FStr e]) st else st).
  set (f2 st e := if negb (is_some (find_event m e)) then fail path c m (Msg "missing event %s" [FStr e]) st else st).
  set (f3 st a := match action_failure m a with Some why => fail path c m why st | None => st end).
  destruct (fail_loop f1 bad1 path c m (sc_Entities c) (r, true)
              ltac:(intros st x; unfold f1, bad1; by destruct (HasEntity m x))) as [Q1 S1].
  set (st1 := fold_left _ (sc_Entities c) _) in *.
  destruct (fail_loop f2 bad2 path c m (sc_Events c) st1
              ltac:(intros st x; unfold f2, bad2; by destruct (is_some (find_event m x)))) as [Q2 S2].
  set (st2 := fold_left _ (sc_Events c) _) in *.
  destruct (fail_loop f3 (action_failure m) path c m (sc_Actions c) st2 ltac:(done)) as [Q3 S3].
  set (st3 := fold_left _ (sc_Actions c) _) in *. cbn [fst snd] in *.
  assert (Hp : provides m c <-> Forall (fun x => bad1 x = None) (sc_Entities c) /\
            Forall (fun x => bad2 x = None) (sc_Events c) /\
            Forall (fun x => action_failure m x = None) (sc_Actions c)).
  { unfold provides. rewrite !Forall_forall. unfold bad1, bad2.
    setoid_rewrite <- HasEntity_in. setoid_rewrite <- find_event_in. setoid_rewrite <- action_failure_none.
    split; (intros (H1 & H2 & H3); split; [|split]; [intros e He|intros e He|done]);
      [by rewrite (H1 e He)|by rewrite (H2 e He)| |];
      [specialize (H1 e He); by destruct (HasEntity m e)|specialize (H2 e He); by destruct (is_some _)]. }
  split.
  - eapply quiet_iff; [|eapply quiet_trans; [exact Q1|eapply quiet_trans; [exact Q2|exact Q3]]]. tauto.
  - rewrite S3, S2, S1. tauto.
Qed.

(** ** Extensions *)

(** An extension asks only for entities some slot provides and events it emits. *)
Definition grants_ok (p : Plugin) (entities events : gset string) : Prop :=
  (forall e, pp_Entities (ps_Permissions (p_Spec p)) = Some e ->
     Forall (fun ref => before_dot ref ∈ entities) (ep_Read e ++ ep_Propose e)) /\
  Forall (fun ev => emitted entities events ev = true) (ps_Subscribes (p_Spec p)).

Lemma checkExtension_quiet r path p entities events :
  quiet r (checkExtension r path p entities events) (grants_ok p entities events).
Proof.
  unfold checkExtension, grants_ok. cbv zeta.
  eapply quiet_trans; [|apply (quiet_fold _ (fun _ ev => emitted entities events ev = true))].
  - destruct (pp_Entities _) as [e|].
    + eapply quiet_iff; [|apply (quiet_fold _ (fun _ ref => before_dot ref ∈ entities))].
      * split; [by intros H ? [= <-]|by intros H; apply H].
      * intros r' ref. case_bool_decide; by quiet_leaf.
    + by apply quiet_id.
  - intros r' ev. destruct (emitted _ _ ev) eqn:He; quiet_leaf; done.
Qed.

Section verifier.
Context `{E : Externals} `{V : Verifier}.

Lemma check_served_quiet conns path tag dir operation warning refs r seen :
  quiet r (fst (check_served conns path tag dir operation warning refs (r, seen))) True.
Proof.
  unfold check_served. revert r seen. induction refs as [|ref refs IH]; intros r seen; cbn [fold_left].
  { apply quiet_refl. }
  destruct (_ && _).
  - eapply quiet_iff; [|eapply quiet_trans; [|apply IH]]; [split; [done|exact (fun H => conj H H)]|].
    by quiet_leaf.
  - apply IH.
Qed.

Lemma checkPluginOperations_quiet r path p conns : quiet r (checkPluginOperations r path p conns) True.
Proof.
  unfold checkPluginOperations. cbv zeta.
  assert (H : quiet r (match pp_Entities (ps_Permissions (p_Spec p)) with
    | Some e => fst (check_served conns path "p" DirectionWrite ProposeOperation (fun en =>
          Msg "%s may propose changes to %s, but no connection or slot offers a %s operation: propose-change will answer invalid"
            [FStr (om_Name (p_Metadata p)); FStr en; FStr (ProposeOperation en)]) (ep_Propose e)
         (check_served conns path "r" DirectionRead ReadOperation (fun en =>
          Msg "%s may read %s, but no connection or slot offers a %s operation: get will answer invalid"
            [FStr (om_Name (p_Metadata p)); FStr en; FStr (ReadOperation en)]) (ep_Read e) (r, ∅)))
    | None => r end) True).
  { destruct (pp_Entities _) as [e|]; [|apply quiet_refl].
    destruct (check_served _ _ _ _ _ _ (ep_Read e) (r, ∅)) as [r1 seen1] eqn:H1.
    eapply quiet_iff; [|eapply quiet_trans; [|apply check_served_quiet]].
    - split; [done|exact (fun H => conj H H)].
    - change r1 with (fst (r1, seen1)). rewrite <- H1. apply check_served_quiet. }
  destruct (List.filter _ _); [done|]. by apply quiet_note.
Qed.

(** ** Policies *)

(** The packs compile together and their tests pass. *)
Definition policies_pass (packs : list PolicyPack) : Prop :=
  packs = [] \/
  opa_Compile (PolicyModules packs) = None /\ exists n, opa_Test (PolicyModules packs) = Ok ([], n).

Lemma checkPolicies_quiet r packs writes : quiet r (checkPolicies r packs writes) (policies_pass packs).
Proof.
  unfold checkPolicies, policies_pass. destruct packs as [|p packs]; [apply quiet_id; by left|].
  set (mods := PolicyModules (p :: packs)). cbv zeta.
  destruct (opa_Compile mods) as [err|].
  { apply quiet_error. by intros [|[[=] _]]. }
  destruct (opa_Test mods) as [[fails n]|err].
  2: { apply quiet_error. by intros [|[_ (? & [=])]]. }
  destruct fails as [|f fails].
  - assert (Hok : p :: packs = [] \/ @None goerr = None /\ exists n', Ok ([] : list TestFailure, n) = Ok ([], n'))
      by (right; eauto).
    cbn [fold_left List.length]. rewrite bool_decide_true, andb_true_r by done. destruct (0 <? n)%Z, (writes && negb (opa_DefinesWriteback mods)); by quiet_leaf.
  - assert (Hno : ~ (p :: packs = [] \/ @None goerr = None /\ exists n', Ok (f :: fails, n) = Ok ([], n')))
      by (by intros [|[_ (? & [=])]]).
    assert (Hf : quiet r (fold_left (fun r f => add_finding StagePolicy SeverityError "spec.policies"
        (Msg "policy test %s: %s" [FStr (tf_Name f); FStr (tf_Message f)]) r) (f :: fails) r)
        (p :: packs = [] \/ @None goerr = None /\ exists n', Ok (f :: fails, n) = Ok ([], n'))).
    { eapply quiet_iff; [|apply (quiet_fold _ (fun _ _ => False))].
      - rewrite Forall_cons. tauto.
      - intros r' f'. apply quiet_error; tauto. }
    rewrite bool_decide_false by done. rewrite andb_false_r.
    destruct (writes && _); [by apply quiet_note|done].
Qed.

Lemma schema_quiet r obj :
  let errs := Validate json_object (fun b => range (b_Slots b)) obj in
  quiet r (fst (schema r obj)) (errs = []) /\ (snd (schema r obj) = true <-> errs = []).
Proof.
  unfold schema. cbv zeta. set (errs := Validate _ _ _).
  assert (Hq : quiet r (fold_left (fun r e =>
    add_finding StageSchema SeverityError (fe_Path e) (Msg "%s" [FMsg (fe_Message e)]) r) errs r) (errs = [])).
  { eapply quiet_iff; [|apply (quiet_fold _ (fun _ _ => False))]; [|intros r' e; apply quiet_error; tauto].
    destruct errs; [by repeat constructor|]. rewrite Forall_cons. split; [by intros []|done]. }
  destruct errs; cbn [fst snd]; [done|]. split; [apply quiet_raise; [lia|done]|done].
Qed.

(** ** Plugins *)

(** A logic plugin's module loads within its limits, for the world it declares. *)
Definition module_loads (p : Plugin) : Prop :=
  ps_World (p_Spec p) ∈ Worlds /\
  exists b m, PluginModule p = Ok b /\
    plugin_Load b (MemoryMB (plugin_limits p)) (wrap (TimeoutMs (plugin_limits p) * 1000000)) = Ok m /\
    (wm_World m = "" \/ wm_World m = ps_World (p_Spec p)).

Lemma check_grants_quiet p m r : quiet r (check_grants p m r) True.
Proof. unfold check_grants. cbv zeta. repeat case_match; by quiet_leaf. Qed.

Lemma logicPlugin_quiet r p : quiet r (logicPlugin r p) (module_loads p).
Proof.
  unfold logicPlugin, module_loads. cbv zeta.
  destruct (contains Worlds _) eqn:Hw; cbn [negb].
  2: { apply quiet_error. intros [Hin _]. apply contains_in in Hin. congruence. }
  apply contains_in in Hw.
  destruct (PluginModule p) as [b|err] eqn:Hb.
  2: { apply quiet_error. by intros [_ (? & ? & [=] & _)]. }
  destruct (plugin_Load b _ _) as [m|err] eqn:Hm.
  2: { apply quiet_error. intros [_ (? & ? & [= <-] & ? & _)]. congruence. }
  destruct (negb _ && negb _) eqn:Hd.
  - apply quiet_error. intros [_ (? & x & [= <-] & Hx & Ho)]. rewrite Hm in Hx. injection Hx as <-.
    bools. by destruct Ho.
  - assert (Hok : ps_World (p_Spec p) ∈ Worlds /\ exists b' m', Ok b = Ok b' /\
      plugin_Load b' (MemoryMB (plugin_limits p)) (wrap (TimeoutMs (plugin_limits p) * 1000000)) = Ok m' /\
      (wm_World m' = "" \/ wm_World m' = ps_World (p_Spec p))).
    { split; [done|]. exists b, m. split; [done|]. split; [done|].
      apply andb_false_iff in Hd as [Hd|Hd]; bools; auto. }
    eapply quiet_iff; [|eapply quiet_trans; [|apply check_grants_quiet]].
    2: { apply quiet_note; [discriminate|]. apply quiet_refl. }
    tauto.
Qed.

(** A contract a connector plugin implements. *)
Definition implements_ok (m : ConnectorManifest) (ref : string) : Prop :=
  exists c, Contract v_cat ref = Ok c /\ provides m c.

(** What makes a plugin deployable. *)
Record plugin_verified (p : Plugin) : Prop := mkPluginVerified {
  pv_schema : Validate_plugin p = [];
  pv_world : ps_Runtime (p_Spec p) = PluginRuntimeWasm -> has_prefix "turgon:stack/" (ps_World (p_Spec p)) = true;
  pv_module : ps_Type (p_Spec p) = PluginLogic -> module_loads p;
  pv_connector : ps_Type (p_Spec p) = PluginConnector ->
    exists m, Connector v_cat (fst (ParseRef (ps_Connector (p_Spec p)))) (snd (ParseRef (ps_Connector (p_Spec p)))) = Ok m /\
      Forall (implements_ok m) (ps_Implements (p_Spec p))
}.

Lemma check_implements_quiet m r ref : quiet r (check_implements m r ref) (implements_ok m ref).
Proof.
  unfold check_implements, implements_ok. destruct (Contract v_cat ref) as [c|err].
  - eapply quiet_iff; [|apply satisfies_spec]. split; [eauto|]. by intros (? & [= <-] & ?).
  - apply quiet_error. by intros (? & [=] & _).
Qed.

Lemma plugin_stages_quiet r p :
  Validate_plugin p = [] -> quiet r (plugin_stages r p) (plugin_verified p).
Proof.
  intros Hv. unfold plugin_stages. cbv zeta.
  destruct (ParseRef (ps_Connector (p_Spec p))) as [name con] eqn:Hp.
  set (r1 := if String.eqb (ps_Runtime (p_Spec p)) PluginRuntimeWasm && negb (has_prefix "turgon:stack/" _) then _ else _).
  assert (H1 : quiet r r1
    ((ps_Runtime (p_Spec p) = PluginRuntimeWasm -> has_prefix "turgon:stack/" (ps_World (p_Spec p)) = true) /\
     (ps_Type (p_Spec p) = PluginLogic -> module_loads p))).
  { unfold r1. destruct (String.eqb_spec (ps_Runtime (p_Spec p)) PluginRuntimeWasm) as [Ew|Nw];
      destruct (has_prefix _ _) eqn:Hpre; cbn [andb negb].
    2: { apply quiet_error. intros [H _]. by specialize (H Ew). }
    all: destruct (String.eqb_spec (ps_Type (p_Spec p)) PluginLogic) as [El|Nl];
      [eapply quiet_iff; [|apply logicPlugin_quiet]; tauto|apply quiet_id; by split]. }
  clearbody r1.
  assert (Hall : forall c, (ps_Type (p_Spec p) = PluginConnector -> exists m,
      Connector v_cat name con = Ok m /\ Forall (implements_ok m) (ps_Implements (p_Spec p))) <-> c ->
      (((ps_Runtime (p_Spec p) = PluginRuntimeWasm -> has_prefix "turgon:stack/" (ps_World (p_Spec p)) = true) /\
        (ps_Type (p_Spec p) = PluginLogic -> module_loads p)) /\ c <-> plugin_verified p)).
  { intros c Hc. rewrite <- Hc. split.
    - intros [[Hw Hl] Hcon]. constructor; rewrite ?Hp; done.
    - intros [_ Hw Hl Hcon]. rewrite Hp in Hcon. done. }
  destruct (String.eqb_spec (ps_Type (p_Spec p)) PluginConnector) as [Ec|Nc].
  2: { eapply quiet_iff; [|exact H1]. rewrite <- (Hall True); [tauto|]. split; [done|]. intros _ Hc. done. }
  destruct (Connector v_cat name con) as [m|err].
  - eapply quiet_iff; [|eapply quiet_trans; [exact H1|apply (quiet_fold _ (fun _ ref => implements_ok m ref))]].
    + apply Hall. split; [|intros; eauto]. intros H. destruct (H Ec) as (? & [= <-] & ?). done.
    + intros r' ref. apply check_implements_quiet.
  - eapply quiet_iff; [|eapply (quiet_trans _ _ _ _ False); [exact H1|]].
    + apply Hall. split; [|done]. intros H. by destruct (H Ec) as (? & [=] & _).
    + apply quiet_raise; [lia|]. apply quiet_error. tauto.
Qed.

Lemma verify_plugin_complete p :
  complete (verify_plugin p) /\ (Deployable (verify_plugin p) = true <-> plugin_verified p).
Proof.
  unfold verify_plugin. destruct (newReport_clean (OPlugin p)) as [Hc Hw].
  destruct (schema_quiet (newReport (OPlugin p)) (OPlugin p)) as [[_ [W C]] Hs]. cbn [Validate] in *.
  destruct (schema _ _) as [r ok]. cbn [fst snd] in *. destruct ok.
  - assert (Hv : Validate_plugin p = []) by (by apply Hs).
    destruct (plugin_stages_quiet r p Hv) as [_ [W2 C2]].
    destruct (finish_verdict (plugin_stages r p)) as [F1 F2]; [auto|]. split; [done|]. rewrite F2, C2, C. tauto.
  - destruct (finish_verdict r) as [F1 F2]; [auto|]. split; [done|]. rewrite F2, C.
    assert (Hv : Validate_plugin p <> []) by (intros Hv; by apply Hs in Hv). split; [tauto|]. by intros [H _ _ _].
Qed.

(** The nil dereference the loader would hit is excluded by the schema. *)
Lemma logic_limits_set p :
  Validate_plugin p = [] -> ps_Type (p_Spec p) = PluginLogic -> is_Some (ps_Limits (p_Spec p)).
Proof.
  unfold Validate_plugin. cbv zeta. intros Hv Ht. rewrite Ht in Hv. cbn [allowedRuntimes String.eqb] in Hv.
  rewrite !app_nil_iff, !add_if_nil in Hv. unfold sandboxed in Hv.
  destruct Hv as (_ & _ & _ & Hr & _ & _ & Hl & _). apply andb_false_iff in Hl as [Hl|Hl].
  - apply orb_false_iff in Hl as [Hl _]. change (allowedRuntimes PluginLogic) with (Some [PluginRuntimeWasm]) in Hr.
    apply add_if_nil in Hr. cbn [oneOf] in Hr. by rewrite Hl in Hr.
  - destruct (ps_Limits (p_Spec p)); [eauto|done].
Qed.
End verifier.
