(* ===== verification/VerifierTheorems.v ===== *)
(** The checks of recipes and mappings, each with its condition, and what verification
    promises of plugins, contracts and recipes. *)

From S2P Require Import Turgon Prelude GoStr GoErr GoTime Regex Semver Api ApiKinds ApiTheorems Catalog Report Verifier.
From S2P Require Import RecipeVerifier VerifierProps.
From Stdlib Require Import Ascii String.

(** Lemmas about the checks of recipes and of mappings. *)

(** What makes a recipe deployable: the condition of every stage, and the verdict of the
    stages in order. *)

Section verifier.
Context `{E : Externals} `{V : Verifier}.

(** ** What the stages read of the resolution *)

(** The connectors and policies resolved, and mappings the catalog gave. *)
Definition resolved (C : gmap string ConnectorManifest) (P : list PolicyPack) (r : Report) : Prop :=
  res_Connectors (r_Resolution r) = C /\ res_Policies (r_Resolution r) = P /\
  forall k m, res_Mappings (r_Resolution r) !! k = Some m -> get_Mapping v_cat k = Ok m.

(** A stage: keeps what was resolved, and blocks unless its condition holds. *)
Definition stage C P (r r' : Report) (ok : Prop) : Prop := resolved C P r' /\ verdict r r' ok.

Lemma quiet_stage C P r r' ok : resolved C P r -> quiet r r' ok -> stage C P r r' ok.
Proof. intros (HC & HP & HM) [R Hv]. split; [|done]. unfold resolved. by rewrite R. Qed.

Lemma stage_trans C P r1 r2 r3 a b :
  stage C P r1 r2 a -> (resolved C P r2 -> stage C P r2 r3 b) -> stage C P r1 r3 (a /\ b).
Proof.
  intros [R1 V1] H. destruct (H R1) as [R2 V2]. split; [done|]. by apply (verdict_trans r1 r2).
Qed.

Lemma stage_iff C P r r' a b : (a <-> b) -> stage C P r r' a -> stage C P r r' b.
Proof. intros Hab [R Hv]. split; [done|]. by apply (verdict_iff r r' a). Qed.

#[export] Instance stage_proper C P r r' : Proper (iff ==> iff) (stage C P r r').
Proof. intros a b H. split; apply stage_iff; tauto. Qed.

Lemma stage_fold {X} C P (f : Report -> X -> Report) ok l r :
  (forall r x, resolved C P r -> stage C P r (f r x) (ok x)) -> resolved C P r ->
  stage C P r (fold_left f l r) (Forall ok l).
Proof.
  intros Hf HR. destruct (verdict_fold (resolved C P) f ok l r) as [H1 H2]; [|done|by split].
  intros r' x HR'. destruct (Hf r' x HR'). by split.
Qed.

Lemma forall_indexed {X} (ok : X -> Prop) (l : list X) : Forall (fun ix => ok (snd ix)) (indexed l) <-> Forall ok l.
Proof.
  unfold indexed. generalize 0%Z. induction l as [|x l IH]; intros i; cbn; [by repeat constructor|].
  by rewrite !Forall_cons, IH.
Qed.

(** ** Endpoints *)

(** The manifest a connection gives, if its connector resolves and sanctions it. *)
Definition connected (c : Connection) (pin : string) : option ConnectorManifest :=
  let con := if String.eqb pin "" then snd (ParseRef (cn_Connector (cn_Spec c))) else pin in
  match Connector v_cat (fst (ParseRef (cn_Connector (cn_Spec c)))) con with
  | Ok m => if bool_decide (List.length (ValidateEffective c m) = 0) then Some (Effective c m) else None
  | Err _ => None
  end.

(** The manifest an endpoint resolves to: bound, by a connection of its name, or the
    connector of its name. *)
Definition endpoint_manifest (bound : gmap string ConnectorManifest) (rec : Recipe) (ep : string)
    : option ConnectorManifest :=
  let pin := default "" (rc_Connectors (r_Spec rec) !! ep) in
  match bound !! ep with
  | Some m => Some m
  | None =>
      match get_Connection v_cat ep with
      | Ok conn => connected conn pin
      | Err _ => match Connector v_cat ep pin with Ok m => Some m | Err _ => None end
      end
  end.

Definition connect (bound : gmap string ConnectorManifest) (rec : Recipe) (C : gmap string ConnectorManifest)
    (ep : string) : gmap string ConnectorManifest :=
  match endpoint_manifest bound rec ep with Some m => <[ep := m]> C | None => C end.

(** The connectors of a recipe, by endpoint. *)
Definition connectors (bound : gmap string ConnectorManifest) (rec : Recipe) : gmap string ConnectorManifest :=
  fold_left (connect bound rec) (Endpoints rec) ∅.

Lemma connect_lookup bound rec eps C name m :
  fold_left (connect bound rec) eps C !! name = Some m <->
  (name ∈ eps /\ endpoint_manifest bound rec name = Some m) \/
  ((name ∈ eps -> endpoint_manifest bound rec name = None) /\ C !! name = Some m).
Proof.
  revert C. induction eps as [|ep eps IH]; intros C; cbn [fold_left].
  { rewrite elem_of_nil. split; [by right|]. by intros [[[] _]|[_ ?]]. }
  rewrite IH, elem_of_cons. unfold connect. destruct (decide (name = ep)) as [->|N].
  - destruct (endpoint_manifest bound rec ep) as [x|].
    + rewrite lookup_insert_eq. destruct (decide (ep ∈ eps)); naive_solver.
    + naive_solver.
  - destruct (endpoint_manifest bound rec ep) as [x|]; [rewrite lookup_insert_ne by done|]; naive_solver.
Qed.

Lemma connectors_lookup bound rec name m :
  connectors bound rec !! name = Some m <-> name ∈ Endpoints rec /\ endpoint_manifest bound rec name = Some m.
Proof.
  unfold connectors. rewrite connect_lookup, lookup_empty. naive_solver.
Qed.

Lemma error_loop st (l : list FieldError) r :
  quiet r (fold_left (fun r e => add_finding st SeverityError (fe_Path e) (Msg "%s" [FMsg (fe_Message e)]) r) l r)
    (l = []).
Proof.
  eapply quiet_iff; [|apply (quiet_fold _ (fun _ _ => False))]; [|intros r' e; apply quiet_error; tauto].
  destruct l; [by repeat constructor|]. rewrite Forall_cons. split; [by intros []|done].
Qed.

Lemma connection_spec r c pin :
  quiet r (fst (connection r c pin)) (is_Some (connected c pin)) /\ snd (connection r c pin) = connected c pin.
Proof.
  unfold connection, connected. destruct (ParseRef _) as [name con]. cbn [fst snd]. cbv zeta.
  destruct (Connector v_cat name _) as [m|err]; cbn [fst snd].
  2: { split; [|done]. apply quiet_raise; [lia|]. apply quiet_error. by intros [? [=]]. }
  pose proof (error_loop StageInterfaces (ValidateEffective c m) r) as Hq.
  destruct (ValidateEffective c m) as [|e errs]; cbn [fst snd].
  - split; [|done]. eapply quiet_iff; [|exact Hq]. split; [eauto|done].
  - split; [|done]. apply quiet_raise; [lia|]. eapply quiet_iff; [|exact Hq]. split; [done|]. by intros [? [=]].
Qed.

Lemma resolve_endpoint_spec bound rec r ep :
  verdict r (resolve_endpoint bound rec r ep) (is_Some (endpoint_manifest bound rec ep)) /\
  res_Connectors (r_Resolution (resolve_endpoint bound rec r ep)) =
    connect bound rec (res_Connectors (r_Resolution r)) ep /\
  res_Policies (r_Resolution (resolve_endpoint bound rec r ep)) = res_Policies (r_Resolution r) /\
  res_Mappings (r_Resolution (resolve_endpoint bound rec r ep)) = res_Mappings (r_Resolution r).
Proof.
  unfold resolve_endpoint, connect, endpoint_manifest. cbv zeta.
  set (pin := default "" _).
  assert (Hok : forall m, verdict r (set_Connector ep m r) (is_Some (Some m))).
  { intros m. apply verdict_resolution, (verdict_iff _ _ True); [split; eauto|apply verdict_refl]. }
  destruct (bound !! ep) as [m|]; [by split|].
  destruct (get_Connection v_cat ep) as [conn|err].
  - destruct (connection_spec r conn pin) as [[R Hv] Hs]. destruct (connection r conn pin) as [r1 o].
    cbn [fst snd] in *. subst o. destruct (connected conn pin) as [m|].
    + split; [by do 2 apply verdict_resolution|]. cbn. by rewrite R.
    + by rewrite R.
  - destruct (Connector v_cat ep pin) as [m|err']; [by split|].
    destruct (Contract v_cat ep).
    + split; [|done]. apply quiet_error. by intros [? [=]].
    + rewrite raise_resolution. split; [|done]. apply (quiet_raise 3); [lia|]. apply quiet_error. by intros [? [=]].
Qed.

Lemma resolve_endpoints_spec bound rec eps r :
  verdict r (fold_left (resolve_endpoint bound rec) eps r) (Forall (fun ep => is_Some (endpoint_manifest bound rec ep)) eps) /\
  res_Connectors (r_Resolution (fold_left (resolve_endpoint bound rec) eps r)) =
    fold_left (connect bound rec) eps (res_Connectors (r_Resolution r)) /\
  res_Policies (r_Resolution (fold_left (resolve_endpoint bound rec) eps r)) = res_Policies (r_Resolution r) /\
  res_Mappings (r_Resolution (fold_left (resolve_endpoint bound rec) eps r)) = res_Mappings (r_Resolution r).
Proof.
  revert r. induction eps as [|ep eps IH]; intros r; cbn [fold_left].
  { split; [|done]. apply (verdict_iff _ _ True); [split; [constructor|done]|apply verdict_refl]. }
  destruct (resolve_endpoint_spec bound rec r ep) as (V1 & C1 & P1 & M1).
  destruct (IH (resolve_endpoint bound rec r ep)) as (V2 & C2 & P2 & M2).
  rewrite C2, P2, M2, C1, P1, M1. split; [|done].
  eapply verdict_iff; [|apply (verdict_trans _ _ _ _ _ V1 V2)]. by rewrite Forall_cons.
Qed.

(** ** Extensions *)

(** An extension of a recipe: a deployable logic plugin whose grants the recipe's
    connectors serve. *)
Definition extension_ok (entities events : gset string) (ref : string) : Prop :=
  exists p, plugin_of_ref ref = Ok p /\ plugin_verified p /\ ps_Type (p_Spec p) = PluginLogic /\
    grants_ok p entities events.

Lemma check_logic_extension_stage C P conns entities events r ix :
  resolved C P r ->
  stage C P r (check_logic_extension conns entities events r ix) (extension_ok entities events (snd ix)).
Proof.
  intros HR. unfold check_logic_extension, extension_ok. cbv zeta.
  destruct (plugin_of_ref (snd ix)) as [p|err].
  2: { apply quiet_stage; [done|]. apply quiet_raise; [lia|]. apply quiet_error. by intros (? & [=] & _). }
  destruct (verify_plugin_complete p) as [Hc Hd].
  set (r1 := add_Extension p (add_child (verify_plugin p) r)).
  assert (H1 : stage C P r r1 (plugin_verified p)).
  { split; [exact HR|]. apply verdict_resolution. eapply verdict_iff; [|apply (verdict_child _ _ _ True); [exact Hc|]].
    - rewrite Hd. tauto.
    - apply verdict_refl. }
  clearbody r1. destruct (String.eqb_spec (ps_Type (p_Spec p)) PluginLogic) as [Et|Nt]; cbn [negb].
  - eapply stage_iff; [|eapply (stage_trans C P r r1 _ _ (grants_ok p entities events /\ True)); [exact H1|]].
    + split; [intros (? & ? & _); by exists p|]. by intros (? & [= <-] & ? & _ & ?).
    + intros HR1. apply quiet_stage; [done|].
      eapply quiet_trans; [apply checkExtension_quiet|apply checkPluginOperations_quiet].
  - eapply stage_iff; [|eapply (stage_trans C P r r1 _ _ False); [exact H1|]].
    + split; [by intros []|]. by intros (? & [= <-] & _ & ? & _).
    + intros HR1. apply quiet_stage; [done|]. apply quiet_error. tauto.
Qed.

(** Every extension of the recipe, against its connectors. *)
Definition extensions_ok (rec : Recipe) (C : gmap string ConnectorManifest) : Prop :=
  Forall (extension_ok (entities_of C) (published (rc_Extensions (r_Spec rec)) (events_of C)))
    (rc_Extensions (r_Spec rec)).

Lemma resolve_stage_verdict bound rec r :
  res_Connectors (r_Resolution r) = ∅ -> res_Policies (r_Resolution r) = [] -> res_Mappings (r_Resolution r) = ∅ ->
  stage (connectors bound rec) [] r (resolve_stage bound rec r)
    (Forall (fun ep => is_Some (endpoint_manifest bound rec ep)) (Endpoints rec) /\
     extensions_ok rec (connectors bound rec)).
Proof.
  intros HC HP HM. unfold resolve_stage. cbv zeta.
  destruct (resolve_endpoints_spec bound rec (Endpoints rec) r) as (V1 & C1 & P1 & M1).
  set (r1 := fold_left (resolve_endpoint bound rec) (Endpoints rec) r) in *.
  rewrite HC in C1. rewrite HP in P1. rewrite HM in M1. fold (connectors bound rec) in C1. rewrite C1.
  assert (H1 : stage (connectors bound rec) [] r r1
    (Forall (fun ep => is_Some (endpoint_manifest bound rec ep)) (Endpoints rec))).
  { split; [|done]. split; [done|]. split; [done|]. intros k m. by rewrite M1, lookup_empty. }
  clearbody r1. eapply stage_iff; [|eapply stage_trans; [exact H1|]].
  2: { intros HR. eapply (stage_trans _ _ _ (extensions r1 (rc_Extensions (r_Spec rec)) (connectors bound rec))).
    - unfold extensions. cbv zeta.
      apply (stage_fold _ _ _ (fun ix : Z * string => extension_ok (entities_of (connectors bound rec))
        (published (rc_Extensions (r_Spec rec)) (events_of (connectors bound rec))) (snd ix))); [|exact HR].
      intros r' ix HR'. by apply check_logic_extension_stage.
    - intros HR'. apply (stage_fold _ _ _ (fun _ => True)); [|exact HR'].
      intros r' [name pin] HR2. apply quiet_stage; [done|]. unfold check_pin.
      destruct (contains _ _); by quiet_leaf. }
  cbv beta. unfold extensions_ok. rewrite (forall_indexed (extension_ok _ _)).
  assert (Forall (fun _ : string * string => True) (range (rc_Connectors (r_Spec rec)))) by (by apply Forall_true).
  tauto.
Qed.

(** ** Permitted interfaces *)

(** The connector emits the trigger's event, over an interface permitted for events. *)
Definition emits (src : ConnectorManifest) (event : string) : Prop :=
  exists ev i, find_event src event = Some ev /\ Permitted src "events" (ev_Interface ev) = Ok i.

Lemma check_trigger_quiet rec r :
  quiet r (check_trigger rec r)
    (forall src, res_Connectors (r_Resolution r) !! tr_Source (rc_Trigger (r_Spec rec)) = Some src ->
       emits src (tr_Event (rc_Trigger (r_Spec rec)))).
Proof.
  unfold check_trigger, emits. cbv zeta. destruct (res_Connectors _ !! _) as [src|]; [|by apply quiet_id].
  destruct (find_event src _) as [ev|] eqn:He.
  2: { apply quiet_raise; [lia|]. apply quiet_error. intros H. destruct (H src eq_refl) as (? & ? & ? & _). congruence. }
  destruct (Permitted src _ _) as [i|err] eqn:Hp.
  - apply quiet_id. intros ? [= <-]. eauto.
  - apply quiet_raise; [lia|]. apply quiet_error. intros H. destruct (H src eq_refl) as (? & ? & ? & ?). congruence.
Qed.

(** What a write step needs of its operation and interface. *)
Definition amount_checkable (w : WriteStep) (ifc : Interface) : Prop :=
  forall c, ws_CheckAmount w = Some c ->
    if_Simulation ifc <> "" /\ ws_Simulate w = true /\ trim_space (ac_Preview c) <> "" /\
    PrimFloat.ltb (ac_Tolerance c) 0%float = false /\ PrimFloat.leb 1%float (ac_Tolerance c) = false.

Definition takes (op : Operation) (producing : string) : Prop :=
  producing = "" \/ op_Entity op = "" \/ op_Entity op = producing.

Definition undoable (m : ConnectorManifest) (w : WriteStep) (op : Operation) : Prop :=
  write_compensation w op <> "" /\
  exists cop, find_operation m (write_compensation w op) = Some cop /\ op_Direction cop = DirectionWrite.

Definition approved (w : WriteStep) (op : Operation) : Prop := op_Risk op = RiskHigh -> ws_Approval w <> ApprovalNone.

(** A write the connector sanctions, can undo and that keeps its approval. *)
Definition write_ok (m : ConnectorManifest) (w : WriteStep) (producing : string) : Prop :=
  exists op ifc, find_operation m (ws_Operation w) = Some op /\ op_Direction op = DirectionWrite /\
    Permitted m DirectionWrite (op_Interface op) = Ok ifc /\
    amount_checkable w ifc /\ takes op producing /\ undoable m w op /\ approved w op.

Lemma check_simulation_quiet m path w ifc r : quiet r (check_simulation m path w ifc r) True.
Proof. unfold check_simulation. destruct (_ && _); by quiet_leaf. Qed.

Lemma check_amount_quiet m path w ifc r : quiet r (check_amount m path w ifc r) (amount_checkable w ifc).
Proof.
  unfold check_amount, amount_checkable. cbv zeta. destruct (ws_CheckAmount w) as [c|]; [|by apply quiet_id].
  destruct (String.eqb_spec (if_Simulation ifc) "") as [Es|Ns].
  { apply quiet_error. intros H. by destruct (H c eq_refl). }
  destruct (ws_Simulate w); cbn [negb].
  2: { apply quiet_error. intros H. by destruct (H c eq_refl) as (_ & ? & _). }
  destruct (String.eqb_spec (trim_space (ac_Preview c)) "") as [Ep|Np].
  { apply quiet_error. intros H. by destruct (H c eq_refl) as (_ & _ & ? & _). }
  destruct (_ || _) eqn:Ht.
  - apply quiet_error. intros H. destruct (H c eq_refl) as (_ & _ & _ & H1 & H2). by rewrite H1, H2 in Ht.
  - apply orb_false_iff in Ht. apply quiet_id. intros ? [= <-]. tauto.
Qed.

Lemma check_produced_quiet m path op producing r : quiet r (check_produced m path op producing r) (takes op producing).
Proof.
  unfold check_produced, takes.
  destruct (String.eqb_spec producing ""); cbn [andb negb]; [by apply quiet_id; left|].
  destruct (String.eqb_spec (op_Entity op) ""); cbn [andb negb]; [by apply quiet_id; right; left|].
  destruct (String.eqb_spec (op_Entity op) producing); cbn [andb negb]; [by apply quiet_id; right; right|].
  apply quiet_raise; [lia|]. apply quiet_error. naive_solver.
Qed.

Lemma check_compensation_quiet m path w op r : quiet r (check_compensation m path w op r) (undoable m w op).
Proof.
  unfold check_compensation, undoable. cbv zeta.
  destruct (String.eqb_spec (write_compensation w op) ""); [by apply quiet_error; intros []|].
  destruct (find_operation m _) as [cop|].
  2: { apply quiet_error. by intros (_ & ? & [=] & _). }
  destruct (String.eqb_spec (op_Direction cop) DirectionWrite) as [Ed|Nd]; cbn [negb].
  - apply quiet_id. eauto.
  - apply quiet_error. by intros (_ & ? & [= <-] & ?).
Qed.

Lemma check_approval_quiet m path w op r : quiet r (check_approval m path w op r) (approved w op).
Proof.
  unfold check_approval, approved. cbv zeta.
  destruct (String.eqb_spec (op_Risk op) RiskHigh) as [Er|Nr]; cbn [andb]; [|by apply quiet_id].
  destruct (String.eqb_spec (ws_Approval w) "") as [Ea|Na].
  - apply quiet_id. intros _. by rewrite Ea.
  - destruct (String.eqb_spec (ws_Approval w) ApprovalNone) as [En|Nn]; [|by apply quiet_id].
    apply quiet_error. intros H. by specialize (H Er).
Qed.

Lemma writeStep_quiet r path w producing :
  quiet r (writeStep r path w producing)
    (forall m, res_Connectors (r_Resolution r) !! ws_Target w = Some m -> write_ok m w producing).
Proof.
  unfold writeStep. destruct (res_Connectors _ !! _) as [m|]; [|by apply quiet_id]. cbv zeta.
  apply (quiet_iff _ _ (write_ok m w producing)); [split; [by intros ? ? [= <-]|by intros H; apply H]|].
  unfold write_ok. destruct (find_operation m (ws_Operation w)) as [op|].
  2: { apply quiet_raise; [lia|]. apply quiet_error. by intros (? & ? & [=] & _). }
  destruct (String.eqb_spec (op_Direction op) DirectionWrite) as [Ed|Nd]; cbn [negb].
  2: { apply quiet_error. by intros (? & ? & [= <-] & ? & _). }
  destruct (Permitted m DirectionWrite (op_Interface op)) as [ifc|err] eqn:Hp.
  2: { apply quiet_raise; [lia|]. apply quiet_error. intros (? & ? & [= <-] & _ & ? & _). congruence. }
  eapply quiet_iff; [|eapply quiet_trans; [apply check_simulation_quiet|
    eapply quiet_trans; [apply check_amount_quiet|eapply quiet_trans; [apply check_produced_quiet|
    eapply quiet_trans; [apply check_compensation_quiet|apply check_approval_quiet]]]]].
  split.
  - intros (_ & ? & ? & ? & ?). by exists op, ifc.
  - intros (? & ? & [= <-] & _ & Hp' & ? & ? & ? & ?). rewrite Hp in Hp'. by injection Hp' as <-.
Qed.

(** The entity the latest map step produces. *)
Definition produces (producing : string) (s : Step) : string :=
  match s_Map s with Some m => trim_prefix "model." (ms_To m) | None => producing end.

(** A step of the interface stage, with the connectors [C]. *)
Definition interface_ok (C : gmap string ConnectorManifest) (producing : string) (s : Step) : Prop :=
  forall w m, s_Map s = None -> s_Write s = Some w -> C !! ws_Target w = Some m -> write_ok m w producing.

Lemma interface_stage_quiet rec r :
  quiet r (interface_stage rec r)
    ((forall src, res_Connectors (r_Resolution r) !! tr_Source (rc_Trigger (r_Spec rec)) = Some src ->
        emits src (tr_Event (rc_Trigger (r_Spec rec)))) /\
     along produces (interface_ok (res_Connectors (r_Resolution r))) "" (rc_Steps (r_Spec rec))).
Proof.
  unfold interface_stage. cbv zeta. destruct (check_trigger_quiet rec r) as [R V1].
  eapply quiet_trans; [split; [exact R|exact V1]|].
  destruct (quiet_loop interface_step (fun p ix => produces p (snd ix))
    (fun R p ix => interface_ok (res_Connectors R) p (snd ix)) (indexed (rc_Steps (r_Spec rec))) (check_trigger rec r) "")
    as [_ Q].
  - intros r' p [i s]. cbn [interface_step snd]. unfold produces, interface_ok.
    destruct (s_Map s) as [mp|]; [split; [done|by apply quiet_id]|].
    destruct (s_Write s) as [w|]; (split; [done|]).
    + eapply quiet_iff; [|apply writeStep_quiet]. split; [intros H ? ? _ [= <-]; apply H|by intros H m; apply H].
    + by apply quiet_id.
  - rewrite R in Q. eapply quiet_iff; [|exact Q]. unfold indexed.
    apply (along_indexed produces (interface_ok (res_Connectors (r_Resolution r)))).
Qed.
End verifier.

(** The mapping, policy and capacity stages of a recipe, and the recipe's verdict. *)

Section verifier.
Context `{E : Externals} `{V : Verifier}.

(** ** Mappings *)

(** How a mapping version is named in findings and reviews. *)
Definition mapping_ref (m : Mapping) : string := om_Name (mp_Metadata m) +++ "@" +++ om_Version (mp_Metadata m).

(** A field nobody has to look at any more. *)
Definition confident (ref : string) (threshold : float64) (f : FieldMapping) : Prop :=
  fm_Approved f = true \/ fm_Origin f = OriginCertified \/ PrimFloat.leb threshold (fm_Confidence f) = true \/
  exists rv, Find_review ExpressionDigest (o_Reviews v_opts) ref (fm_Target f) (fm_Expression f) = Some rv /\
             rv_Decision rv = ReviewApproved.

(** A map step whose mapping is known, fits, compiles and is confident. *)
Definition map_ok (threshold : float64) (s : MapStep) : Prop :=
  exists m, get_Mapping v_cat (ms_Mapping s) = Ok m /\ mp_From m = ms_From s /\ mp_To m = ms_To s /\
    Forall (fun f => mapping_Check (fm_Expression f) = None) (mp_Fields m) /\
    Forall (confident (mapping_ref m) threshold) (mp_Fields m).

Lemma check_expression_quiet path ref r f :
  quiet r (check_expression path ref r f) (mapping_Check (fm_Expression f) = None).
Proof. unfold check_expression. destruct (mapping_Check _); [by apply quiet_error|by apply quiet_id]. Qed.

Lemma check_confidence_quiet path ref threshold r f :
  quiet r (check_confidence path ref threshold r f) (confident ref threshold f).
Proof.
  unfold check_confidence, confident.
  destruct (fm_Approved f); cbn [orb]; [apply quiet_id; by left|].
  destruct (String.eqb_spec (fm_Origin f) OriginCertified); cbn [orb]; [apply quiet_id; by right; left|].
  destruct (PrimFloat.leb threshold (fm_Confidence f)) eqn:Hl; [apply quiet_id; by right; right; left|].
  destruct (Find_review _ _ _ _ _) as [rv|] eqn:Hr.
  - destruct (String.eqb_spec (rv_Decision rv) ReviewApproved) as [Ea|Na].
    + apply quiet_note; [discriminate|]. apply quiet_id. right; right; right. eauto.
    + apply quiet_raise; [lia|]. apply quiet_error. intros [|[|[|(? & [= <-] & ?)]]]; done.
  - apply quiet_note; [discriminate|]. apply quiet_queue. intros [|[|[|(? & [=] & _)]]]; done.
Qed.

Lemma mapStep_stage C P r path s threshold :
  resolved C P r ->
  stage C P r (mapStep r path s threshold) (map_ok threshold s) /\
  res_Mappings (r_Resolution (mapStep r path s threshold)) !! ms_Mapping s =
    match get_Mapping v_cat (ms_Mapping s) with Ok m => Some m | Err _ => None end.
Proof.
  intros HR. pose proof HR as (HC & HP & HM). unfold mapStep, map_ok.
  destruct (get_Mapping v_cat (ms_Mapping s)) as [m|err] eqn:Hg.
  2: { split.
       - apply quiet_stage; [done|]. apply quiet_raise; [lia|]. apply quiet_error. by intros (? & [=] & _).
       - rewrite raise_resolution. cbn. destruct (res_Mappings _ !! _) as [m|] eqn:Hm; [|done].
         apply HM in Hm. congruence. }
  cbv zeta. set (r1 := set_Mapping (ms_Mapping s) m r).
  assert (H1 : stage C P r r1 True).
  { split; [|apply verdict_resolution, verdict_refl]. split; [done|]. split; [done|]. intros k x. cbn.
    destruct (decide (ms_Mapping s = k)) as [<-|N]; [rewrite lookup_insert_eq; congruence|].
    rewrite lookup_insert_ne by done. apply HM. }
  assert (Hl : res_Mappings (r_Resolution r1) !! ms_Mapping s = Some m) by apply lookup_insert_eq.
  clearbody r1. fold (mapping_ref m).
  assert (Hq : forall ok r', quiet r1 r' ok -> (ok <-> map_ok threshold s) ->
            stage C P r r' (map_ok threshold s) /\ res_Mappings (r_Resolution r') !! ms_Mapping s = Some m).
  { intros ok r' Q Hok. split; [|by rewrite (proj1 Q)].
    eapply stage_iff; [|eapply stage_trans; [exact H1|intros HR1; apply (quiet_stage C P r1 r' ok HR1 Q)]]. tauto. }
  unfold map_ok in Hq. rewrite Hg in Hq.
  destruct (String.eqb_spec (mp_From m) (ms_From s)) as [Ef|Nf]; cbn [negb orb].
  2: { apply (Hq False); [apply quiet_raise; [lia|]; apply quiet_error; tauto|].
       split; [done|]. by intros (? & [= <-] & ? & _). }
  destruct (String.eqb_spec (mp_To m) (ms_To s)) as [Et|Nt]; cbn [negb].
  2: { apply (Hq False); [apply quiet_raise; [lia|]; apply quiet_error; tauto|].
       split; [done|]. by intros (? & [= <-] & _ & ? & _). }
  eapply Hq.
  - eapply quiet_trans; [apply (quiet_fold (check_expression path (mapping_ref m)) (fun _ f => mapping_Check (fm_Expression f) = None))|
      apply (quiet_fold (check_confidence path (mapping_ref m) threshold) (fun _ f => confident (mapping_ref m) threshold f))].
    + intros r' f. apply check_expression_quiet.
    + intros r' f. apply check_confidence_quiet.
  - split; [intros [? ?]; by exists m|]. by intros (? & [= <-] & _ & _ & ? & ?).
Qed.

(** ** The fields a document has, step by step *)

Definition after_map (d : doc_state) (s : Step) : doc_state :=
  match s_Map s with
  | Some m =>
      (match get_Mapping v_cat (ms_Mapping m) with
       | Ok mp => Some (list_to_set (map fm_Target (mp_Fields mp)))
       | Err _ => None
       end, ms_Mapping m)
  | None => d
  end.

Definition after_write (d : doc_state) (s : Step) : doc_state :=
  match s_Write s with
  | Some w => if String.eqb (ws_Output w) "" then d else set_field (ws_Output w) d
  | None => d
  end.

Definition after_resolve (d : doc_state) (s : Step) : doc_state :=
  match s_Resolve s with Some rs => set_field (snd (resolve_fields rs)) d | None => d end.

Definition doc_next (d : doc_state) (s : Step) : doc_state := after_resolve (after_write (after_map d s) s) s.

(** What the mapping stage wants of a step, the document being [d] before it. *)
Definition amount_known (d : doc_state) (w : WriteStep) : Prop :=
  ws_Amount w = "" \/ lacks d (before_dot (ws_Amount w)) = false.

Definition resolve_ok (d : doc_state) (s : ResolveStep) : Prop :=
  lacks d (fst (resolve_fields s)) = false /\ rs_Strategy s ∈ [StrategyExact; StrategyProbabilistic; StrategySplink].

Definition doc_ok (threshold : float64) (d : doc_state) (s : Step) : Prop :=
  (forall m, s_Map s = Some m -> map_ok threshold m) /\
  (forall w, s_Write s = Some w -> amount_known (after_map d s) w) /\
  (forall rs, s_Resolve s = Some rs -> resolve_ok (after_write (after_map d s) s) rs).

Lemma check_write_amount_spec path w r d :
  snd (check_write_amount path w (r, d)) = (if String.eqb (ws_Output w) "" then d else set_field (ws_Output w) d) /\
  quiet r (fst (check_write_amount path w (r, d))) (amount_known d w).
Proof.
  unfold check_write_amount, amount_known. destruct d as [[fields|] mapping]; cbn [fst snd].
  - split; [done|]. destruct (String.eqb_spec (ws_Amount w) ""); cbn [andb negb]; [by apply quiet_id; left|].
    destruct (lacks _ _) eqn:Hl; [apply quiet_error; intros [|]; done|by apply quiet_id; right].
  - split; [by destruct (String.eqb _ _)|]. by apply quiet_id; right.
Qed.

Lemma check_strategy_quiet path s r :
  quiet r (check_strategy path s r) (rs_Strategy s ∈ [StrategyExact; StrategyProbabilistic; StrategySplink]).
Proof.
  unfold check_strategy. rewrite !elem_of_cons, elem_of_nil.
  destruct (String.eqb_spec (rs_Strategy s) StrategyExact); cbn [orb]; [apply quiet_id; tauto|].
  destruct (String.eqb_spec (rs_Strategy s) StrategyProbabilistic); [apply quiet_id; tauto|].
  destruct (String.eqb_spec (rs_Strategy s) StrategySplink).
  - apply quiet_note; [discriminate|]. apply quiet_id. tauto.
  - apply quiet_error. tauto.
Qed.

Lemma check_resolve_step_spec path s r d :
  snd (check_resolve_step path s (r, d)) = set_field (snd (resolve_fields s)) d /\
  quiet r (fst (check_resolve_step path s (r, d))) (resolve_ok d s).
Proof.
  unfold check_resolve_step, resolve_ok. destruct (resolve_fields s) as [ref into]. cbn [fst snd]. cbv zeta.
  split; [done|].
  set (r1 := if lacks d ref then _ else r).
  assert (H1 : quiet r r1 (lacks d ref = false)).
  { unfold r1. destruct (lacks d ref); [by apply quiet_error|by apply quiet_id]. }
  clearbody r1. pose proof (quiet_trans _ _ _ _ _ H1 (check_strategy_quiet path s r1)) as H2.
  destruct (PrimFloat.ltb _ _); [by apply quiet_note|done].
Qed.

Lemma mapping_step_stage C P threshold r d ix :
  resolved C P r ->
  snd (mapping_step threshold (r, d) ix) = doc_next d (snd ix) /\
  stage C P r (fst (mapping_step threshold (r, d) ix)) (doc_ok threshold d (snd ix)).
Proof.
  intros HR. unfold mapping_step, doc_next, doc_ok. cbv zeta. destruct ix as [i s]. cbn [fst snd].
  set (path := at_index "spec.steps" i).
  set (st1 := match s_Map s with Some m => check_map_step path threshold m (r, d) | None => (r, d) end).
  assert (H1 : snd st1 = after_map d s /\ stage C P r (fst st1) (forall m, s_Map s = Some m -> map_ok threshold m)).
  { unfold st1, after_map. destruct (s_Map s) as [m|]; cbn [fst snd].
    - unfold check_map_step. cbv zeta. cbn [fst snd].
      destruct (mapStep_stage C P r path m threshold HR) as [Hs Hl]. rewrite Hl.
      split; [by destruct (get_Mapping _ _)|]. eapply stage_iff; [|exact Hs].
      split; [by intros ? ? [= <-]|by intros H; apply H].
    - split; [done|]. apply quiet_stage; [done|]. by apply quiet_id. }
  clearbody st1. destruct st1 as [r1 d1]. cbn [fst snd] in H1. destruct H1 as [-> S1].
  set (d1 := after_map d s) in *.
  set (st2 := match s_Write s with Some w => check_write_amount path w (r1, d1) | None => (r1, d1) end).
  assert (H2 : snd st2 = after_write d1 s /\ quiet r1 (fst st2) (forall w, s_Write s = Some w -> amount_known d1 w)).
  { unfold st2, after_write. destruct (s_Write s) as [w|].
    - destruct (check_write_amount_spec path w r1 d1) as [-> Q]. split; [done|]. eapply quiet_iff; [|exact Q].
      split; [by intros ? ? [= <-]|by intros H; apply H].
    - split; [done|]. by apply quiet_id. }
  clearbody st2. destruct st2 as [r2 d2]. cbn [fst snd] in H2. destruct H2 as [-> Q2].
  set (d2 := after_write d1 s) in *.
  assert (H3 : snd (match s_Resolve s with Some rs => check_resolve_step path rs (r2, d2) | None => (r2, d2) end) =
      after_resolve d2 s /\
      quiet r2 (fst (match s_Resolve s with Some rs => check_resolve_step path rs (r2, d2) | None => (r2, d2) end))
        (forall rs, s_Resolve s = Some rs -> resolve_ok d2 rs)).
  { unfold after_resolve. destruct (s_Resolve s) as [rs|].
    - destruct (check_resolve_step_spec path rs r2 d2) as [-> Q]. split; [done|]. eapply quiet_iff; [|exact Q].
      split; [by intros ? ? [= <-]|by intros H; apply H].
    - split; [done|]. by apply quiet_id. }
  destruct H3 as [-> Q3]. split; [done|].
  eapply stage_trans; [exact S1|]. intros HR1. apply quiet_stage; [done|]. by apply (quiet_trans r1 r2).
Qed.

Lemma mapping_stage_stage C P rec r :
  resolved C P r ->
  stage C P r (mapping_stage rec r) (along doc_next (doc_ok (threshold_of rec)) (None, "") (rc_Steps (r_Spec rec))).
Proof.
  intros HR. unfold mapping_stage.
  destruct (verdict_loop (resolved C P) (mapping_step (threshold_of rec)) (fun d ix => doc_next d (snd ix))
    (fun d ix => doc_ok (threshold_of rec) d (snd ix)) (indexed (rc_Steps (r_Spec rec))) r (None, "")) as (H1 & _ & H2).
  - intros r' d ix HR'. destruct (mapping_step_stage C P (threshold_of rec) r' d ix HR') as [Hn [H1 H2]]. done.
  - done.
  - split; [done|]. eapply verdict_iff; [|exact H2]. apply (along_indexed doc_next (doc_ok (threshold_of rec))).
Qed.

(** ** Policies *)

(** The packs that resolve, in order. *)
Definition resolved_policies (refs : list string) : list PolicyPack :=
  omap (fun ref => match get_Policy v_cat ref with Ok p => Some p | Err _ => None end) refs.

Lemma resolve_policies_stage C P refs r :
  resolved C P r ->
  stage C (P ++ resolved_policies refs) r (fold_left resolve_policy refs r)
    (Forall (fun ref => exists p, get_Policy v_cat ref = Ok p) refs).
Proof.
  intros HR. revert P r HR. induction refs as [|ref refs IH]; intros P r HR; cbn [fold_left].
  { rewrite app_nil_r. split; [done|]. apply (verdict_iff _ _ True); [split; [constructor|done]|apply verdict_refl]. }
  cbn. unfold resolve_policy at 2. destruct HR as (HC & HP & HM). destruct (get_Policy v_cat ref) as [p|err] eqn:Hg.
  - destruct (IH (P ++ [p]) (add_Policy p r)) as [H1 H2].
    { split; [done|]. split; [|done]. cbn. by rewrite HP. }
    rewrite <- app_assoc in H1. split; [done|]. rewrite Forall_cons. eapply verdict_iff; [|exact H2].
    split; [intros ?; split; [eauto|done]|by intros []].
  - destruct (IH P (add_finding StagePolicy SeverityError "spec.policies"
      (Msg "policy pack %q: %v" [FStr ref; FErr err]) r)) as [H1 H2]; [done|].
    split; [done|]. rewrite Forall_cons. eapply verdict_iff; [|eapply (verdict_trans _ _ _ False); [|exact H2]].
    + split; [by intros []|]. intros [(? & ?) _]. congruence.
    + apply quiet_error. tauto.
Qed.

Lemma policy_stage_stage C rec r :
  resolved C [] r ->
  stage C (resolved_policies (rc_Policies (r_Spec rec))) r (policy_stage rec r)
    (Forall (fun ref => exists p, get_Policy v_cat ref = Ok p) (rc_Policies (r_Spec rec)) /\
     policies_pass (resolved_policies (rc_Policies (r_Spec rec)))).
Proof.
  intros HR. unfold policy_stage. cbv zeta. set (refs := rc_Policies (r_Spec rec)).
  pose proof (resolve_policies_stage C [] refs r HR) as H1. cbn [app] in H1.
  set (r1 := fold_left resolve_policy refs r) in *. clearbody r1.
  eapply stage_trans; [exact H1|]. intros HR1.
  set (r2 := if hasWrites rec && _ then _ else r1).
  assert (H2 : quiet r1 r2 True) by (unfold r2; destruct (_ && _); by quiet_leaf).
  clearbody r2. pose proof HR1 as (_ & HP & _). rewrite <- HP at 2. rewrite <- (proj1 H2).
  apply quiet_stage; [done|]. eapply quiet_iff; [|eapply quiet_trans; [exact H2|apply checkPolicies_quiet]]. tauto.
Qed.

(** ** Capacity *)

(** A step within its target's declared rate, where a peak load is declared. *)
Definition capacity_ok (C : gmap string ConnectorManifest) (rec : Recipe) (s : Step) : Prop :=
  forall w m peak, s_Write s = Some w -> C !! ws_Target w = Some m -> rc_PeakPerSecond (r_Spec rec) = Some peak ->
    PrimFloat.ltb (RequestsPerSecond (cs_Limits (cm_Spec m))) peak = false.

Lemma capacity_step_quiet rec r ix :
  quiet r (capacity_step rec r ix) (capacity_ok (res_Connectors (r_Resolution r)) rec (snd ix)).
Proof.
  unfold capacity_step, capacity_ok. destruct (s_Write (snd ix)) as [w|]; [|by apply quiet_id].
  destruct (res_Connectors _ !! _) as [m|] eqn:Hm; [|apply quiet_id; naive_solver]. cbv zeta.
  destruct (rc_PeakPerSecond _) as [peak|].
  2: { apply quiet_note; [discriminate|]. by apply quiet_id. }
  destruct (PrimFloat.ltb _ peak) eqn:Hl.
  - apply quiet_error. intros H. specialize (H w m peak eq_refl Hm eq_refl). congruence.
  - assert (Hok : forall w' m' peak', Some w = Some w' -> res_Connectors (r_Resolution r) !! ws_Target w' = Some m' ->
      Some peak = Some peak' -> PrimFloat.ltb (RequestsPerSecond (cs_Limits (cm_Spec m'))) peak' = false)
      by (intros; simplify_eq; congruence).
    destruct (PrimFloat.ltb (_ * _) peak); by quiet_leaf.
Qed.

Lemma capacity_stage_quiet rec r :
  quiet r (capacity_stage rec r) (Forall (capacity_ok (res_Connectors (r_Resolution r)) rec) (rc_Steps (r_Spec rec))).
Proof.
  unfold capacity_stage. rewrite <- (forall_indexed (capacity_ok _ _)).
  apply (quiet_fold _ (fun R ix => capacity_ok (res_Connectors R) rec (snd ix))).
  intros r' ix. apply capacity_step_quiet.
Qed.

(** ** Recipes *)

(** The conditions of every stage, with the connectors [C]. *)
Definition stages_ok (bound : gmap string ConnectorManifest) (rec : Recipe) (C : gmap string ConnectorManifest) : Prop :=
  (Forall (fun ep => is_Some (endpoint_manifest bound rec ep)) (Endpoints rec) /\ extensions_ok rec C) /\
  ((forall src, C !! tr_Source (rc_Trigger (r_Spec rec)) = Some src -> emits src (tr_Event (rc_Trigger (r_Spec rec)))) /\
   along produces (interface_ok C) "" (rc_Steps (r_Spec rec))) /\
  along doc_next (doc_ok (threshold_of rec)) (None, "") (rc_Steps (r_Spec rec)) /\
  (Forall (fun ref => exists p, get_Policy v_cat ref = Ok p) (rc_Policies (r_Spec rec)) /\
   policies_pass (resolved_policies (rc_Policies (r_Spec rec)))) /\
  Forall (capacity_ok C rec) (rc_Steps (r_Spec rec)).

Lemma recipe_stages_verdict bound rec r :
  res_Connectors (r_Resolution r) = ∅ -> res_Policies (r_Resolution r) = [] -> res_Mappings (r_Resolution r) = ∅ ->
  verdict r (recipe_stages bound rec r) (stages_ok bound rec (connectors bound rec)).
Proof.
  intros HC HP HM. unfold recipe_stages. cbv zeta. set (C := connectors bound rec).
  set (r0 := if negb _ then raise 1 r else r).
  assert (H0 : quiet r r0 True) by (unfold r0; destruct (negb _); by quiet_leaf).
  clearbody r0. destruct H0 as [R0 V0]. rewrite <- R0 in HC, HP, HM.
  destruct (resolve_stage_verdict bound rec r0 HC HP HM) as [HR1 V1]. fold C in HR1, V1.
  set (r1 := resolve_stage bound rec r0) in *. clearbody r1.
  pose proof (interface_stage_quiet rec r1) as Q2. rewrite (proj1 HR1) in Q2.
  destruct (quiet_stage _ _ _ _ _ HR1 Q2) as [HR2 V2]. set (r2 := interface_stage rec r1) in *. clearbody r2.
  destruct (mapping_stage_stage C [] rec r2 HR2) as [HR3 V3]. set (r3 := mapping_stage rec r2) in *. clearbody r3.
  destruct (policy_stage_stage C rec r3 HR3) as [HR4 V4]. set (r4 := policy_stage rec r3) in *. clearbody r4.
  pose proof (capacity_stage_quiet rec r4) as Q5. rewrite (proj1 HR4) in Q5. destruct Q5 as [_ V5].
  set (r5 := capacity_stage rec r4) in *. clearbody r5.
  assert (V6 : verdict r5 (dry_run_stage rec r5) True).
  { assert (Q : quiet r5 (dry_run_stage rec r5) True) by (unfold dry_run_stage; destruct (hasWrites rec); by quiet_leaf).
    apply Q. }
  pose proof (verdict_trans _ _ _ _ _ V0 (verdict_trans _ _ _ _ _ V1 (verdict_trans _ _ _ _ _ V2
    (verdict_trans _ _ _ _ _ V3 (verdict_trans _ _ _ _ _ V4 (verdict_trans _ _ _ _ _ V5 V6)))))) as Hv.
  eapply verdict_iff; [|exact Hv]. unfold stages_ok. tauto.
Qed.
End verifier.

(** What verification promises: a deployable plugin, contract or recipe is one that
    passes every check, and a deployable recipe only reads and writes through what its
    connectors sanction. *)

Lemma along_ext {S X} (next : S -> X -> S) (ok1 ok2 : S -> X -> Prop) s l :
  (forall s x, x ∈ l -> (ok1 s x <-> ok2 s x)) -> (along next ok1 s l <-> along next ok2 s l).
Proof.
  revert s. induction l as [|x l IH]; intros s Hx; cbn; [done|].
  rewrite (Hx s x) by left. rewrite IH; [done|]. intros s' y Hy. apply Hx. by right.
Qed.

Section verifier.
Context `{E : Externals} `{V : Verifier}.

(** A write step of a verified recipe: its target resolves, sanctions the operation and
    can undo it, within its declared rate. *)
Definition write_verified (bound : gmap string ConnectorManifest) (rec : Recipe) (producing : string) (s : Step)
    : Prop :=
  forall w, s_Write s = Some w -> exists m,
    endpoint_manifest bound rec (ws_Target w) = Some m /\ write_ok m w producing /\
    forall peak, rc_PeakPerSecond (r_Spec rec) = Some peak ->
      PrimFloat.ltb (RequestsPerSecond (cs_Limits (cm_Spec m))) peak = false.

(** What makes a recipe deployable, its endpoints being bound by [bound]. *)
Record recipe_verified (bound : gmap string ConnectorManifest) (rec : Recipe) : Prop := mkRecipeVerified {
  rv_schema : Validate_recipe rec = [];
  rv_endpoints : Forall (fun ep => is_Some (endpoint_manifest bound rec ep)) (Endpoints rec);
  rv_extensions : extensions_ok rec (connectors bound rec);
  rv_trigger : exists src, endpoint_manifest bound rec (tr_Source (rc_Trigger (r_Spec rec))) = Some src /\
    emits src (tr_Event (rc_Trigger (r_Spec rec)));
  rv_writes : along produces (write_verified bound rec) "" (rc_Steps (r_Spec rec));
  rv_fields : along doc_next (doc_ok (threshold_of rec)) (None, "") (rc_Steps (r_Spec rec));
  rv_policies : Forall (fun ref => exists p, get_Policy v_cat ref = Ok p) (rc_Policies (r_Spec rec)) /\
    policies_pass (resolved_policies (rc_Policies (r_Spec rec)))
}.

(** The stages' conditions are the recipe's, once the schema is valid. *)
Lemma stages_ok_verified bound rec :
  Validate_recipe rec = [] -> (stages_ok bound rec (connectors bound rec) <-> recipe_verified bound rec).
Proof.
  intros Hv. pose proof (proj1 (recipe_nil rec) Hv) as (_ & (Hsrc & _) & (_ & Hsteps) & _).
  destruct (Validate_recipe_decides rec) as (_ & _ & Hep).
  assert (Htarget : forall s w, s ∈ rc_Steps (r_Spec rec) -> s_Write s = Some w -> s_Map s = None /\ ws_Target w ∈ Endpoints rec).
  { intros s w Hs Hw. rewrite Forall_forall in Hsteps.
    destruct (Hsteps s Hs) as [(x & -> & _)|[(x & -> & _)|(x & -> & Hx)]]; [done..|].
    cbn in Hw. injection Hw as ->. split; [done|]. apply Hep. split; [by destruct Hx as (? & _)|]. right. eauto. }
  assert (Hsrcin : tr_Source (rc_Trigger (r_Spec rec)) ∈ Endpoints rec) by (apply Hep; auto).
  split.
  - intros ((Heps & Hext) & (Htr & Hw) & Hf & Hp & Hcap). split; try done.
    + destruct (proj1 (Forall_forall _ _) Heps _ Hsrcin) as [src Hs]. exists src. split; [done|].
      apply Htr, connectors_lookup. done.
    + rewrite along_split in Hw |- *. intros pre s post Hl w Hws. specialize (Hw pre s post Hl).
      assert (Hin : s ∈ rc_Steps (r_Spec rec)) by (rewrite Hl; set_solver).
      destruct (Htarget s w Hin Hws) as [Hm Ht].
      destruct (proj1 (Forall_forall _ _) Heps _ Ht) as [m Hmm].
      assert (HC : connectors bound rec !! ws_Target w = Some m) by (by apply connectors_lookup).
      exists m. split; [done|]. split; [by apply (Hw w m)|]. intros peak Hpk.
      by apply (proj1 (Forall_forall _ _) Hcap s Hin w m peak).
  - intros [_ Heps Hext (src & Hs & Hem) Hw Hf Hp]. rewrite along_split in Hw. repeat split; try done; try apply Hp.
    + intros src' Hs'. apply connectors_lookup in Hs' as [_ Hs']. congruence.
    + apply along_split. intros pre s post Hl w m Hm Hws HC. apply connectors_lookup in HC as [_ HC].
      destruct (Hw pre s post Hl w Hws) as (m' & Hm' & Hok & _). congruence.
    + apply Forall_forall. intros s Hin w m peak Hws HC Hpk. apply connectors_lookup in HC as [_ HC].
      apply list_elem_of_split in Hin as (pre & post & Hl).
      destruct (Hw pre s post Hl w Hws) as (m' & Hm' & _ & Hcap). specialize (Hcap peak Hpk). congruence.
Qed.

Lemma verify_recipe_complete bound rec :
  complete (verify_recipe rec bound) /\ (Deployable (verify_recipe rec bound) = true <-> recipe_verified bound rec).
Proof.
  unfold verify_recipe. set (r0 := set_Recipe rec (newReport (ORecipe rec))).
  assert (Hcw : clean r0 /\ wf r0) by exact (newReport_clean (ORecipe rec)). destruct Hcw as [Hc Hw].
  destruct (schema_quiet r0 (ORecipe rec)) as [[R [W C]] Hs]. cbn [Validate] in *.
  destruct (schema _ _) as [r ok]. cbn [fst snd] in *. destruct ok.
  - assert (Hv : Validate_recipe rec = []) by (by apply Hs).
    destruct (recipe_stages_verdict bound rec r) as [W2 C2]; [by rewrite R..|].
    destruct (finish_verdict (recipe_stages bound rec r)) as [F1 F2]; [auto|]. split; [done|].
    rewrite F2, C2, C, (stages_ok_verified bound rec Hv). tauto.
  - destruct (finish_verdict r) as [F1 F2]; [auto|]. split; [done|]. rewrite F2, C.
    assert (Hv : Validate_recipe rec <> []) by (intros Hv; by apply Hs in Hv). split; [tauto|]. intros H. by apply rv_schema in H.
Qed.

(** * Properties *)

(** C21: The verifier decides whether a recipe may be deployed. Its report is deployable
    exactly when the recipe is well formed, every endpoint resolves (through a
    connection only if the connector sanctions the merged manifest), its extensions are
    deployable logic plugins granted only what the connectors serve, its trigger is an
    event the source emits over a permitted interface, every write is a write operation
    over a permitted interface with an undo, without waiving approval of a high-risk
    one and within the target's rate, every mapped field is certified, confident or
    approved by a person (the stricter threshold applying as soon as there is a write),
    the fields that steps read are set before, and its policy packs compile and pass. *)
Theorem verify_recipe_decides (bound : gmap string ConnectorManifest) (rec : Recipe) :
  complete (verify_recipe rec bound) /\
  (Deployable (verify_recipe rec bound) = true <-> recipe_verified bound rec).
Proof. apply verify_recipe_complete. Qed.

(** The verifier decides whether a plugin may be deployed: a valid manifest, a
    turgon world for a Wasm plugin, a logic plugin's module that loads for the world it
    declares, and a connector plugin's connector providing everything each contract it
    implements requires: every entity, every event, every action in its direction and
    with no less risk than the contract says. *)
Theorem verify_plugin_decides (p : Plugin) (r : Report) (path : string) (c : SlotContract) (m : ConnectorManifest) :
  (Deployable (verify_plugin p) = true <-> plugin_verified p) /\
  (snd (satisfies r path c m) = true <-> provides m c) /\
  (clean (fst (satisfies r path c m)) <-> clean r /\ provides m c).
Proof.
  split; [apply verify_plugin_complete|]. destruct (satisfies_spec r path c m) as [[_ [_ C]] Hs]. by split.
Qed.
End verifier.

(** * Witnesses *)

(** Externals that accept everything, maps visited in key order of the map library. *)
#[local] Instance lenient : Externals := {|
  json_object := fun _ => true;
  range := fun A m => map_to_list m;
  ExpressionDigest := fun s => s;
  mapping_Check := fun _ => None;
  PluginModule := fun _ => Ok "wasm";
  plugin_Load := fun _ _ _ => Ok (mkWasmModule ["entities.get"] "");
  opa_Compile := fun _ => None;
  opa_Test := fun _ => Ok ([], 1%Z);
  opa_DefinesWriteback := fun _ => true
|}.

Definition order_mapping : Mapping :=
  mkMapping (mkTypeMeta APIVersion KindMapping) (meta "order-to-order" "1.0.0") "sap.Order" "model.SalesOrder"
    [mkFieldMapping "orderId" "id" OriginAI 0.97%float false ""; mkFieldMapping "total" "amount" OriginAI 0.5%float false ""].

Definition order_docs : list (Object * string) :=
  [(OConnector sap, "sap.yaml"); (OConnection plant, "plant.yaml"); (OMapping order_mapping, "map.yaml")].

Definition order_catalog : Catalog := match FromDocuments order_docs with Ok c => c | Err _ => Catalog.New end.

(** A person approved the low-confidence field. *)
Definition order_reviews : Reviews :=
  {[ ("order-to-order@1.0.0", "total", "amount") :=
       mkReview "order-to-order@1.0.0" "total" "amount" ReviewApproved "ada" "" "2025-01-02" ]}.

#[local] Instance reviewed : Verifier := New order_catalog (mkOptions 0%float 0%float 0%float order_reviews).

Definition order_sync (approval : string) : Recipe :=
  mkRecipe (mkTypeMeta APIVersion KindRecipe) (meta "order-sync" "1.0.0")
    (mkRecipeSpec (mkTrigger "sap-plant-1" "order-changed") ∅
       [mkStep (Some (mkMapStep "sap.Order" "model.SalesOrder" "order-to-order@1")) None None;
        mkStep None None (Some (mkWriteStep "sap-plant-1" "create-order" "orderId" true approval "" "orderRef" "total" None))]
       [] (Some 1%float) None []).

Lemma verify_recipe_decides_witness :
  recipe_verified ∅ (order_sync "policy") /\ Deployable (verify_recipe (order_sync "none") ∅) = false.
Proof.
  split; [|vm_compute; reflexivity].
  apply (verify_recipe_decides ∅ (order_sync "policy")). vm_compute. reflexivity.
Defined.
