(* ===== verification/BlueprintTheorems.v ===== *)
(** What makes a whole stack deployable, and what its recipes can reach: only systems
    bound to its slots, each satisfying the slot's contract. *)

From S2P Require Import Turgon Prelude GoStr GoErr GoTime Regex Semver Api ApiKinds ApiTheorems Catalog Report.
From S2P Require Import Verifier RecipeVerifier BlueprintVerifier VerifierProps VerifierTheorems.
From Stdlib Require Import Ascii String.

Section verifier.
Context `{E : Externals} `{V : Verifier}.

(** ** Slots *)

(** [satisfies] as a test. *)
Definition satisfied (c : SlotContract) (m : ConnectorManifest) : bool :=
  snd (satisfies (newReport (OContract c)) "" c m).

Lemma satisfied_provides c m : satisfied c m = true <-> provides m c.
Proof. apply satisfies_spec. Qed.

(** The manifest bound to a slot: its plugin's connector, as its connection sees it. *)
Definition slot_manifest (bind : SlotBinding) (p : Plugin) : option ConnectorManifest :=
  let (name, pin) := ParseRef (ps_Connector (p_Spec p)) in
  match Connector v_cat name pin with
  | Err _ => None
  | Ok m =>
      if String.eqb (sb_Connection bind) "" then Some m
      else match get_Connection v_cat (sb_Connection bind) with
      | Err _ => None
      | Ok conn =>
          if String.eqb (fst (ParseRef (cn_Connector (cn_Spec conn)))) name then connected conn pin else None
      end
  end.

Definition binding_of (b : StackBlueprint) (slot : string) : SlotBinding :=
  default (mkSlotBinding "" "" "") (b_Slots b !! slot).

(** The plugin, contract and manifest a slot is filled with. *)
Definition filling (b : StackBlueprint) (slot : string) : option (Plugin * SlotContract * ConnectorManifest) :=
  let bind := binding_of b slot in
  match get_Plugin v_cat (sb_Plugin bind) (sb_Version bind) with
  | Err _ => None
  | Ok p =>
      if negb (String.eqb (ps_Type (p_Spec p)) PluginConnector) || String.eqb (contract_ref slot p) "" then None
      else match Contract v_cat (contract_ref slot p), slot_manifest bind p with
      | Ok c, Some m => if satisfied c m then Some (p, c, m) else None
      | _, _ => None
      end
  end.

Definition model_ok (b : StackBlueprint) (c : SlotContract) : Prop :=
  b_Model b = "" \/ sc_Model c = "" \/ sc_Model c = b_Model b.

(** A slot filled by a deployable plugin, on the stack's model. *)
Definition slot_ok (b : StackBlueprint) (slot : string) : Prop :=
  exists p c m, filling b slot = Some (p, c, m) /\ plugin_verified p /\ model_ok b c.

Definition slot_next (b : StackBlueprint) (s : scope) (slot : string) : scope :=
  match filling b slot with Some (_, c, m) => bind_in_scope slot c m s | None => s end.

Lemma filling_inv b slot p c m :
  filling b slot = Some (p, c, m) ->
  get_Plugin v_cat (sb_Plugin (binding_of b slot)) (sb_Version (binding_of b slot)) = Ok p /\
  ps_Type (p_Spec p) = PluginConnector /\ contract_ref slot p <> "" /\ Contract v_cat (contract_ref slot p) = Ok c /\
  slot_manifest (binding_of b slot) p = Some m /\ provides m c.
Proof.
  unfold filling. cbv zeta. destruct (get_Plugin _ _ _) as [q|]; [|done].
  destruct (_ || _) eqn:Hb; [done|]. bools.
  destruct (Contract _ _) as [c'|] eqn:Hc; [|done]. destruct (slot_manifest _ _) as [m'|] eqn:Hm; [|done].
  destruct (satisfied c' m') eqn:Hs; [|done]. intros [= -> -> ->]. apply satisfied_provides in Hs. done.
Qed.

Lemma check_model_quiet b path ref c r : quiet r (check_model b path ref c r) (model_ok b c).
Proof.
  unfold check_model, model_ok.
  destruct (String.eqb_spec (b_Model b) ""); cbn [andb negb]; [by apply quiet_id; left|].
  destruct (String.eqb_spec (sc_Model c) ""); cbn [andb negb]; [by apply quiet_id; right; left|].
  destruct (String.eqb_spec (sc_Model c) (b_Model b)); cbn [negb]; [by apply quiet_id; right; right|].
  apply quiet_error. naive_solver.
Qed.

(** The loops over slots, extensions and recipes resolve no policies or mappings. *)
Definition no_policies (r : Report) : Prop := res_Policies (r_Resolution r) = [] /\ res_Mappings (r_Resolution r) = ∅.

(** Where the connector resolves, binding the connection gives the slot's manifest, or
    blocks. *)
Lemma bind_connection_spec path slot bind p m r :
  Connector v_cat (fst (ParseRef (ps_Connector (p_Spec p)))) (snd (ParseRef (ps_Connector (p_Spec p)))) = Ok m ->
  snd (bind_connection path slot bind p m r) = slot_manifest bind p /\
  verdict r (fst (bind_connection path slot bind p m r)) (is_Some (slot_manifest bind p)) /\
  (no_policies r -> no_policies (fst (bind_connection path slot bind p m r))).
Proof.
  intros Hm. unfold bind_connection, slot_manifest. destruct (ParseRef (ps_Connector (p_Spec p))) as [name pin].
  cbn [fst snd] in Hm. rewrite Hm. destruct (String.eqb (sb_Connection bind) "").
  { cbn [fst snd]. split; [done|]. split; [|done]. apply (quiet_note StageResolve SeverityWarning); [discriminate|].
    apply quiet_id. eauto. }
  destruct (get_Connection v_cat (sb_Connection bind)) as [conn|err]; cbn [fst snd].
  2: { split; [done|]. split; [|unfold no_policies; by rewrite raise_resolution].
       apply (quiet_raise 3); [lia|]. apply quiet_error. by intros [? [=]]. }
  cbv zeta. destruct (String.eqb _ name); cbn [negb fst snd].
  2: { split; [done|]. split; [|unfold no_policies; by rewrite raise_resolution].
       apply (quiet_raise 3); [lia|]. apply quiet_error. by intros [? [=]]. }
  destruct (connection_spec r conn pin) as [[R Hv] Hs]. destruct (connection r conn pin) as [r1 o].
  cbn [fst snd] in *. subst o. destruct (connected conn pin) as [em|]; cbn [fst snd].
  - split; [done|]. split; [by apply verdict_resolution|]. unfold no_policies. cbn. by rewrite R.
  - split; [done|]. split; [done|]. unfold no_policies. by rewrite R.
Qed.

Definition connector_resolves (p : Plugin) : Prop :=
  exists m, Connector v_cat (fst (ParseRef (ps_Connector (p_Spec p)))) (snd (ParseRef (ps_Connector (p_Spec p)))) = Ok m.

Lemma bind_contract_spec b path slot p ref c r s :
  no_policies r ->
  let st := bind_contract b path slot (binding_of b slot) p ref c r s in
  no_policies (fst st) /\
  snd st = match slot_manifest (binding_of b slot) p with
           | Some m => if satisfied c m then bind_in_scope slot c m s else s
           | None => s
           end /\
  verdict r (fst st) (model_ok b c /\ (connector_resolves p ->
    exists m, slot_manifest (binding_of b slot) p = Some m /\ provides m c)).
Proof.
  intros Hnp. cbv zeta. unfold bind_contract. cbv zeta.
  destruct (check_model_quiet b path ref c r) as [R1 V1]. set (r1 := check_model b path ref c r) in *. clearbody r1.
  assert (Hn1 : no_policies r1) by (unfold no_policies; by rewrite R1).
  pose proof (bind_connection_spec path slot (binding_of b slot) p) as Hbind. unfold connector_resolves, slot_manifest in *.
  destruct (ParseRef (ps_Connector (p_Spec p))) as [name con]. cbn [fst snd] in *.
  destruct (Connector v_cat name con) as [m|err].
  2: { split; [done|]. split; [done|]. eapply verdict_iff; [|exact V1]. split; [by intros ?; split; [|intros [? [=]]]|tauto]. }
  destruct (Hbind m r1 eq_refl) as (Hs & V2 & P2). clear Hbind.
  set (sm := if String.eqb (sb_Connection _) "" then Some m else _) in *. clearbody sm.
  destruct (bind_connection path slot (binding_of b slot) p m r1) as [r2 o]. cbn [fst snd] in *. subst o.
  assert (Hn2 : no_policies r2) by auto.
  destruct sm as [em|]; cbn [fst snd].
  2: { split; [done|]. split; [done|]. eapply verdict_iff; [|exact (verdict_trans _ _ _ _ _ V1 V2)].
       split; [by intros [_ [? [=]]]|]. intros [_ H]. by destruct (H ltac:(eauto)) as (? & [=] & _). }
  destruct (satisfies_spec r2 path c em) as [[R3 V3] S3]. pose proof (satisfied_provides c em) as Hsat.
  destruct (satisfies r2 path c em) as [r3 ok]. cbn [fst snd] in *.
  assert (Hn3 : no_policies r3) by (unfold no_policies; by rewrite R3).
  assert (Hv : verdict r r3 (model_ok b c /\ ((exists m', @Ok ConnectorManifest m = Ok m') ->
    exists m', Some em = Some m' /\ provides m' c))).
  { eapply verdict_iff; [|exact (verdict_trans _ _ _ _ _ V1 (verdict_trans _ _ _ _ _ V2 V3))].
    split; [intros (? & _ & ?); eauto|]. intros (? & H). destruct (H ltac:(eauto)) as (? & [= <-] & ?). eauto. }
  destruct ok; cbn [fst snd].
  - rewrite (proj2 Hsat) by (by apply S3). split; [exact Hn3|]. split; [done|]. by do 2 apply verdict_resolution.
  - destruct (satisfied c em).
    { pose proof (proj2 S3 (proj1 Hsat eq_refl)). done. }
    split; [unfold no_policies; by rewrite raise_resolution|]. split; [done|].
    destruct Hv as [W C]. split.
    + intros Hw. destruct (W Hw) as [L D]. split; [rewrite raise_level; lia|by rewrite raise_children].
    + by rewrite clean_raise.
Qed.

Lemma bind_slot_spec b r s slot :
  no_policies r ->
  no_policies (fst (bind_slot b (r, s) slot)) /\ snd (bind_slot b (r, s) slot) = slot_next b s slot /\
  verdict r (fst (bind_slot b (r, s) slot)) (slot_ok b slot).
Proof.
  intros Hnp. unfold bind_slot, slot_next, slot_ok, filling. cbv zeta. fold (binding_of b slot).
  destruct (get_Plugin v_cat _ _) as [p|err]; cbn [fst snd].
  2: { split; [unfold no_policies; by rewrite raise_resolution|]. split; [done|].
       apply (quiet_raise 3); [lia|]. apply quiet_error. by intros (? & ? & ? & [=] & _). }
  destruct (verify_plugin_complete p) as [Hc Hd].
  pose proof (verdict_child (verify_plugin p) r r True Hc (verdict_refl r)) as V1.
  set (r1 := add_child (verify_plugin p) r) in *. assert (Hn1 : no_policies r1) by exact Hnp. clearbody r1.
  assert (Hstop : forall st path m, verdict r (add_finding st SeverityError path m r1)
    (exists p' c m', @None (Plugin * SlotContract * ConnectorManifest) = Some (p', c, m') /\ plugin_verified p' /\ model_ok b c)).
  { intros st path m. eapply verdict_iff; [|eapply (verdict_trans _ _ _ _ False); [exact V1|]].
    - split; [by intros []|]. by intros (? & ? & ? & [=] & _).
    - apply (quiet_error st path m r1). tauto. }
  destruct (String.eqb_spec (ps_Type (p_Spec p)) PluginConnector) as [Et|Nt]; cbn [negb orb fst snd]; [|done].
  destruct (String.eqb_spec (contract_ref slot p) "") as [Ec|Nc]; cbn [fst snd].
  { split; [unfold no_policies; by rewrite raise_resolution|]. split; [done|].
    destruct (Hstop StageContract ("spec.slots." +++ slot) (Msg "plugin %s does not implement the %s slot contract"
      [FStr (om_Name (p_Metadata p)); FStr slot])) as [W C].
    split; [|by rewrite clean_raise]. intros Hw. destruct (W Hw) as [L D].
    split; [rewrite raise_level; lia|by rewrite raise_children]. }
  destruct (Contract v_cat (contract_ref slot p)) as [c|err]; cbn [fst snd]; [|done].
  destruct (bind_contract_spec b ("spec.slots." +++ slot) slot p (contract_ref slot p) c r1 s Hn1) as (Hn2 & Hs2 & V2).
  split; [exact Hn2|]. split.
  - rewrite Hs2. destruct (slot_manifest _ p) as [m|]; [|done]. by destruct (satisfied c m).
  - eapply verdict_iff; [|exact (verdict_trans _ _ _ _ _ V1 V2)]. rewrite Hd.
    destruct (slot_manifest (binding_of b slot) p) as [m|] eqn:Hm.
    + destruct (satisfied c m) eqn:Hsat.
      * apply satisfied_provides in Hsat. split; [intros ((_ & ?) & ? & _); by exists p, c, m|].
        intros (? & ? & ? & [= <- <- <-] & ? & ?). split; [done|]. split; [done|]. eauto.
      * assert (~ provides m c) by (rewrite <- satisfied_provides; by rewrite Hsat).
        split; [|by intros (? & ? & ? & [=] & _)]. intros ((_ & Hp) & _ & Hcon).
        destruct (pv_connector p Hp Et) as (x & Hx & _). by destruct (Hcon ltac:(eexists; exact Hx)) as (? & [= <-] & ?).
    + split; [|by intros (? & ? & ? & [=] & _)]. intros ((_ & Hp) & _ & Hcon).
      destruct (pv_connector p Hp Et) as (x & Hx & _). by destruct (Hcon ltac:(eexists; exact Hx)) as (? & [=] & _).
Qed.

(** What the slots offer once all are visited. *)
Definition stack_scope (b : StackBlueprint) : scope := fold_left (slot_next b) (slot_names b) empty_scope.

Lemma along_ignore {S X} (next : S -> X -> S) (ok : X -> Prop) s l : along next (fun _ => ok) s l <-> Forall ok l.
Proof.
  revert s. induction l as [|x l IH]; intros s; cbn; [split; [constructor|done]|]. by rewrite Forall_cons, IH.
Qed.

Lemma bind_slots_spec b r :
  no_policies r ->
  no_policies (fst (fold_left (bind_slot b) (slot_names b) (r, empty_scope))) /\
  snd (fold_left (bind_slot b) (slot_names b) (r, empty_scope)) = stack_scope b /\
  verdict r (fst (fold_left (bind_slot b) (slot_names b) (r, empty_scope))) (Forall (slot_ok b) (slot_names b)).
Proof.
  intros Hnp.
  destruct (verdict_loop no_policies (bind_slot b) (slot_next b) (fun _ => slot_ok b) (slot_names b) r empty_scope)
    as (H1 & H2 & H3); [|done|].
  - intros r' s slot Hn. by apply bind_slot_spec.
  - split; [done|]. split; [done|]. eapply verdict_iff; [apply (along_ignore (slot_next b))|exact H3].
Qed.

(** ** Extensions and recipes of a stack *)

Definition stack_extension_ok (s : scope) (events : gset string) (ref : string) : Prop :=
  exists p, plugin_of_ref ref = Ok p /\ plugin_verified p /\ ps_Type (p_Spec p) <> PluginConnector /\
    grants_ok p (entities s) events.

Lemma check_stack_extension_spec s events r ix :
  no_policies r ->
  no_policies (check_stack_extension s events r ix) /\
  verdict r (check_stack_extension s events r ix) (stack_extension_ok s events (snd ix)).
Proof.
  intros Hnp. unfold check_stack_extension, stack_extension_ok. cbv zeta.
  destruct (plugin_of_ref (snd ix)) as [p|err].
  2: { split; [unfold no_policies; by rewrite raise_resolution|]. apply (quiet_raise 3); [lia|]. apply quiet_error.
       by intros (? & [=] & _). }
  destruct (verify_plugin_complete p) as [Hc Hd].
  pose proof (verdict_resolution (fun s => mkResolution (res_Recipe s) (res_Connectors s) (res_Connections s)
    (res_Mappings s) (res_Slots s) (res_Contracts s) (res_Extensions s ++ [p]) (res_Policies s)) _ _ _
    (verdict_child (verify_plugin p) r r True Hc (verdict_refl r))) as V1.
  fold (add_Extension p) in V1. set (r1 := add_Extension p (add_child (verify_plugin p) r)) in *.
  assert (Hn1 : no_policies r1) by exact Hnp. clearbody r1.
  set (r2 := if String.eqb _ PluginConnector then _ else r1).
  assert (Q2 : quiet r1 r2 (ps_Type (p_Spec p) <> PluginConnector)).
  { unfold r2. destruct (String.eqb_spec (ps_Type (p_Spec p)) PluginConnector) as [Et|Nt];
      [apply quiet_error; tauto|by apply quiet_id]. }
  clearbody r2.
  assert (Q3 : quiet r1 (checkPluginOperations (checkExtension r2 (at_index "spec.extensions" (fst ix)) p (entities s) events)
    (at_index "spec.extensions" (fst ix)) p (bound s)) _)
    by exact (quiet_trans _ _ _ _ _ Q2 (quiet_trans _ _ _ _ _ (checkExtension_quiet _ _ _ _ _)
      (checkPluginOperations_quiet _ _ _ _))).
  destruct Q3 as [R3 V3]. split; [unfold no_policies; by rewrite R3|].
  eapply verdict_iff; [|exact (verdict_trans _ _ _ _ _ V1 V3)]. rewrite Hd. split.
  - intros ((_ & ?) & ? & ? & _). by exists p.
  - intros (? & [= <-] & ? & ? & ?). tauto.
Qed.

(** The names a recipe's endpoints are bound by in the stack. *)
Definition name_endpoint (b : StackBlueprint) (s : scope) (names : gmap string ConnectorManifest) (ep : string)
    : gmap string ConnectorManifest :=
  if is_some (b_Slots b !! ep) then names
  else match byConnector s !! ep with
  | Some slot => match bound s !! slot with Some m => <[ep := m]> names | None => names end
  | None => names
  end.
Definition recipe_names (b : StackBlueprint) (s : scope) (rec : Recipe) : gmap string ConnectorManifest :=
  fold_left (name_endpoint b s) (Endpoints rec) (bound s).

(** An endpoint that is a slot, or a tool some slot is bound to. *)
Definition endpoint_in_stack (b : StackBlueprint) (s : scope) (ep : string) : Prop :=
  is_Some (b_Slots b !! ep) \/ is_Some (byConnector s !! ep).

Definition stack_recipe_ok (b : StackBlueprint) (s : scope) (ref : string) : Prop :=
  exists rec, get_Recipe v_cat ref = Ok rec /\ Forall (endpoint_in_stack b s) (Endpoints rec) /\
    recipe_verified (recipe_names b s rec) rec.

Lemma check_endpoint_spec b path rec s r names ep :
  snd (check_endpoint b path rec s (r, names) ep) = name_endpoint b s names ep /\
  quiet r (fst (check_endpoint b path rec s (r, names) ep)) (endpoint_in_stack b s ep).
Proof.
  unfold check_endpoint, name_endpoint, endpoint_in_stack. cbv zeta.
  destruct (b_Slots b !! ep) as [x|]; cbn [is_some fst snd].
  { split; [done|]. apply quiet_id. left; eauto. }
  destruct (byConnector s !! ep) as [slot|]; cbn [fst snd]; (split; [done|]).
  - apply quiet_note; [discriminate|]. apply quiet_id. right; eauto.
  - apply quiet_error. by intros [[? [=]]|[? [=]]].
Qed.

Lemma check_recipe_spec b s r ix :
  no_policies r ->
  no_policies (check_recipe b s r ix) /\ verdict r (check_recipe b s r ix) (stack_recipe_ok b s (snd ix)).
Proof.
  intros Hnp. unfold check_recipe, stack_recipe_ok. cbv zeta.
  destruct (get_Recipe v_cat (snd ix)) as [rec|err].
  2: { split; [unfold no_policies; by rewrite raise_resolution|]. apply (quiet_raise 2); [lia|]. apply quiet_error.
       by intros (? & [=] & _). }
  destruct (quiet_loop (check_endpoint b (at_index "spec.recipes" (fst ix)) rec s) (name_endpoint b s)
    (fun _ _ => endpoint_in_stack b s) (Endpoints rec) r (bound s)) as [Hn [R V1]].
  { intros r' names ep. apply check_endpoint_spec. }
  destruct (fold_left (check_endpoint _ _ rec s) (Endpoints rec) (r, bound s)) as [r1 names].
  cbn [fst snd] in *. subst names. fold (recipe_names b s rec).
  destruct (verify_recipe_complete (recipe_names b s rec) rec) as [Hc Hd].
  split; [unfold no_policies, add_child; cbn; by rewrite R|].
  eapply verdict_iff; [|exact (verdict_child _ _ _ _ Hc V1)]. rewrite Hd, along_ignore. split.
  - intros [? ?]. by exists rec.
  - by intros (? & [= <-] & ? & ?).
Qed.

(** ** Blueprints *)

(** What makes a stack deployable. *)
Record blueprint_verified (b : StackBlueprint) : Prop := mkBlueprintVerified {
  bv_schema : Validate_blueprint (range (b_Slots b)) b = [];
  bv_slots : Forall (slot_ok b) (slot_names b);
  bv_extensions : Forall (stack_extension_ok (stack_scope b) (published (b_Extensions b) (events (stack_scope b))))
                    (b_Extensions b);
  bv_recipes : Forall (stack_recipe_ok b (stack_scope b)) (b_Recipes b);
  bv_policies : Forall (fun ref => exists p, get_Policy v_cat ref = Ok p) (b_Policies b) /\
    policies_pass (resolved_policies (b_Policies b))
}.

Lemma blueprint_stages_verdict b r :
  Validate_blueprint (range (b_Slots b)) b = [] -> r_Resolution r = newResolution ->
  verdict r (blueprint_stages b r) (blueprint_verified b).
Proof.
  intros Hv HR. unfold blueprint_stages.
  assert (Hn : no_policies r) by (unfold no_policies; by rewrite HR).
  destruct (bind_slots_spec b r Hn) as (Hn1 & Hs1 & V1).
  destruct (fold_left (bind_slot b) (slot_names b) (r, empty_scope)) as [r1 s]. cbn [fst snd] in *. subst s. cbv zeta.
  set (ev := published (b_Extensions b) (events (stack_scope b))).
  destruct (verdict_fold no_policies (check_stack_extension (stack_scope b) ev)
    (fun ix => stack_extension_ok (stack_scope b) ev (snd ix)) (indexed (b_Extensions b)) r1
    (fun r' ix => check_stack_extension_spec _ _ r' ix) Hn1) as [Hn2 V2].
  set (r2 := fold_left (check_stack_extension _ _) _ r1) in *. clearbody r2.
  destruct (verdict_fold no_policies (check_recipe b (stack_scope b))
    (fun ix => stack_recipe_ok b (stack_scope b) (snd ix)) (indexed (b_Recipes b)) r2
    (fun r' ix => check_recipe_spec _ _ r' ix) Hn2) as [[HP HM] V3].
  set (r3 := fold_left (check_recipe _ _) _ r2) in *. clearbody r3.
  destruct (resolve_policies_stage (res_Connectors (r_Resolution r3)) [] (b_Policies b) r3) as [HR4 V4].
  { split; [done|]. split; [done|]. intros k m. by rewrite HM, lookup_empty. }
  set (r4 := fold_left resolve_policy (b_Policies b) r3) in *. clearbody r4.
  pose proof (checkPolicies_quiet r4 (res_Policies (r_Resolution r4)) false) as [_ V5].
  rewrite (proj1 (proj2 HR4)) in V5 at 2. cbn [app] in V5.
  eapply verdict_iff; [|exact (verdict_trans _ _ _ _ _ V1 (verdict_trans _ _ _ _ _ V2 (verdict_trans _ _ _ _ _ V3
    (verdict_trans _ _ _ _ _ V4 V5))))].
  rewrite (forall_indexed (stack_extension_ok (stack_scope b) ev)), (forall_indexed (stack_recipe_ok b (stack_scope b))).
  split; [by intros (? & ? & ? & ? & ?)|by intros [_ ? ? ? []]].
Qed.

Lemma verify_blueprint_complete b :
  complete (verify_blueprint b) /\ (Deployable (verify_blueprint b) = true <-> blueprint_verified b).
Proof.
  unfold verify_blueprint. destruct (newReport_clean (OBlueprint b)) as [Hc Hw].
  destruct (schema_quiet (newReport (OBlueprint b)) (OBlueprint b)) as [[R [W C]] Hs]. cbn [Validate] in *.
  destruct (schema _ _) as [r ok]. cbn [fst snd] in *. destruct ok.
  - assert (Hv : Validate_blueprint (range (b_Slots b)) b = []) by (by apply Hs).
    destruct (blueprint_stages_verdict b r Hv R) as [W2 C2].
    destruct (finish_verdict (blueprint_stages b r)) as [F1 F2]; [auto|]. split; [done|]. rewrite F2, C2, C. tauto.
  - destruct (finish_verdict r) as [F1 F2]; [auto|]. split; [done|]. rewrite F2, C.
    assert (Hv : Validate_blueprint (range (b_Slots b)) b <> []) by (intros Hv; by apply Hs in Hv).
    split; [tauto|]. intros H. by apply bv_schema in H.
Qed.

Lemma Verify_complete obj : complete (Verify obj).
Proof.
  assert (Hschema : forall obj, complete (finish (fst (schema (newReport obj) obj)))).
  { intros o. destruct (newReport_clean o) as [_ Hw]. destruct (schema_quiet (newReport o) o) as [[_ [W _]] _].
    apply finish_verdict. auto. }
  destruct obj; cbn [Verify]; try apply Hschema.
  - apply verify_recipe_complete.
  - apply verify_plugin_complete.
  - apply verify_blueprint_complete.
Qed.

(** ** What a scope binds *)

(** The system a slot is filled with. *)
Definition fills (b : StackBlueprint) (slot : string) (m : ConnectorManifest) : Prop :=
  exists p c, filling b slot = Some (p, c, m).

Definition scope_ok (b : StackBlueprint) (l : list string) (s : scope) : Prop :=
  (forall slot m, bound s !! slot = Some m <-> slot ∈ l /\ fills b slot m) /\
  (forall name slot, byConnector s !! name = Some slot -> exists m, bound s !! slot = Some m).

Lemma fills_unique b slot m1 m2 : fills b slot m1 -> fills b slot m2 -> m1 = m2.
Proof. intros (? & ? & H1) (? & ? & H2). congruence. Qed.

Lemma slot_next_ok b l s slot : scope_ok b l s -> scope_ok b (l ++ [slot]) (slot_next b s slot).
Proof.
  intros [Hb Hc]. unfold slot_next. destruct (filling b slot) as [[[p c] m]|] eqn:Hf; cbn [bind_in_scope bound byConnector].
  - assert (Hfill : fills b slot m) by (exists p, c; done). split.
    + intros k x. cbn. rewrite elem_of_app, list_elem_of_singleton. destruct (decide (slot = k)) as [->|N].
      * rewrite lookup_insert_eq. split; [intros [= <-]; auto|]. intros [_ Hx]. f_equal. by apply (fills_unique b k).
      * rewrite lookup_insert_ne by done. rewrite Hb. naive_solver.
    + intros name k. cbn. intros Hk. destruct (decide (om_Name (cm_Metadata m) = name)) as [<-|N].
      * rewrite lookup_insert_eq in Hk. injection Hk as <-. exists m. apply lookup_insert_eq.
      * rewrite lookup_insert_ne in Hk by done. destruct (Hc name k Hk) as [x Hx].
        destruct (decide (slot = k)) as [->|N2]; [exists m; apply lookup_insert_eq|].
        exists x. by rewrite lookup_insert_ne.
  - split; [|done]. intros k x. rewrite Hb, elem_of_app, list_elem_of_singleton.
    split; [naive_solver|]. intros [[?| ->] (p & c & Hx)]; [split; [done|by exists p, c]|congruence].
Qed.

Lemma stack_scope_ok b : scope_ok b (slot_names b) (stack_scope b).
Proof.
  unfold stack_scope.
  assert (H : forall l pre s, scope_ok b pre s -> scope_ok b (pre ++ l) (fold_left (slot_next b) l s)).
  { induction l as [|slot l IH]; intros pre s Hs; cbn [fold_left]; [by rewrite app_nil_r|].
    change (slot :: l) with ([slot] ++ l). rewrite app_assoc. by apply IH, slot_next_ok. }
  apply (H (slot_names b) [] empty_scope). split.
  - intros slot m. cbn. rewrite lookup_empty, elem_of_nil. naive_solver.
  - intros name slot. cbn. by rewrite lookup_empty.
Qed.

(** The manifest a tool's own name stands for in the stack. *)
Definition named_tool (b : StackBlueprint) (s : scope) (ep : string) : option ConnectorManifest :=
  if is_some (b_Slots b !! ep) then None
  else match byConnector s !! ep with Some slot => bound s !! slot | None => None end.

Lemma recipe_names_lookup b s eps names ep :
  fold_left (name_endpoint b s) eps names !! ep =
  match named_tool b s ep with
  | Some m => if bool_decide (ep ∈ eps) then Some m else names !! ep
  | None => names !! ep
  end.
Proof.
  revert names. induction eps as [|x eps IH]; intros names; cbn [fold_left].
  { rewrite bool_decide_false by (intros H; by apply elem_of_nil in H). by destruct (named_tool b s ep). }
  rewrite IH. clear IH.
  assert (Hx : name_endpoint b s names x = match named_tool b s x with Some m => <[x := m]> names | None => names end).
  { unfold name_endpoint, named_tool. destruct (is_some _); [done|]. by destruct (byConnector s !! x). }
  rewrite Hx. clear Hx. destruct (decide (ep = x)) as [->|N].
  - destruct (named_tool b s x) as [m|]; [|done]. rewrite lookup_insert_eq.
    rewrite (bool_decide_true (x ∈ x :: eps)) by left. by destruct (bool_decide _).
  - assert (bool_decide (ep ∈ x :: eps) = bool_decide (ep ∈ eps)) as -> by (apply bool_decide_ext; set_solver).
    destruct (named_tool b s x) as [m|]; [by rewrite lookup_insert_ne|done].
Qed.

(** Every endpoint of a stack's recipe stands for a system filling one of its slots. *)
Lemma endpoint_bound b rec ep :
  (forall slot, is_Some (b_Slots b !! slot) -> slot ∈ slot_names b) ->
  Forall (slot_ok b) (slot_names b) -> ep ∈ Endpoints rec -> endpoint_in_stack b (stack_scope b) ep ->
  exists slot m, slot ∈ slot_names b /\ fills b slot m /\
    endpoint_manifest (recipe_names b (stack_scope b) rec) rec ep = Some m.
Proof.
  intros Hall Hok Hin Hst. destruct (stack_scope_ok b) as [Hb Hc].
  assert (Hgoal : forall slot m, bound (stack_scope b) !! slot = Some m ->
    recipe_names b (stack_scope b) rec !! ep = Some m -> exists slot m, slot ∈ slot_names b /\ fills b slot m /\
      endpoint_manifest (recipe_names b (stack_scope b) rec) rec ep = Some m).
  { intros slot m Hm Hl. apply Hb in Hm as [Hs Hf]. exists slot, m. split; [done|]. split; [done|].
    unfold endpoint_manifest. by rewrite Hl. }
  unfold recipe_names in Hgoal. setoid_rewrite recipe_names_lookup in Hgoal. unfold named_tool in Hgoal.
  destruct (b_Slots b !! ep) as [x|] eqn:Hslot; cbn [is_some] in Hgoal.
  - rewrite Forall_forall in Hok. pose proof (Hall ep ltac:(eauto)) as Hs.
    destruct (Hok ep Hs) as (p & c & m & Hf & _ & _). apply (Hgoal ep m); apply Hb; (split; [done|by exists p, c]).
  - destruct Hst as [[? [=]]|[slot Hby]]; [congruence|]. rewrite Hby in Hgoal.
    destruct (Hc ep slot Hby) as [m Hm]. apply (Hgoal slot m Hm). rewrite Hm. by rewrite bool_decide_true.
Qed.

(** * Properties *)

(** The verifier decides whether a stack may be deployed: a valid blueprint, every
    slot filled by a deployable connector plugin implementing the slot's contract, whose
    manifest, as the slot's connection sees it, provides what the contract requires;
    extensions deployable, no connectors, granted only what the slots provide; recipes
    verified with their endpoints bound to slots or tools in them; policies that compile
    and pass. And the report on any object is a finished tree. *)
Theorem verify_blueprint_decides (b : StackBlueprint) (obj : Object) :
  (Deployable (verify_blueprint b) = true <-> blueprint_verified b) /\ complete (Verify obj).
Proof. split; [apply verify_blueprint_complete|apply Verify_complete]. Qed.

(** C25: A deployable stack reaches only what fills its slots. Every recipe of it
    resolves and passes verification, and each system the recipe triggers on or writes
    to is the manifest filling some slot: of a connector plugin the slot names, through
    the slot's connection, providing everything the slot's contract requires. *)
Theorem stack_reaches_only_slots (b : StackBlueprint) (ref : string) :
  (forall m : gmap string SlotBinding, range m ≡ₚ map_to_list m) ->
  Deployable (verify_blueprint b) = true -> ref ∈ b_Recipes b ->
  exists rec, get_Recipe v_cat ref = Ok rec /\
    let names := recipe_names b (stack_scope b) rec in
    recipe_verified names rec /\
    forall ep, ep ∈ Endpoints rec -> exists slot p c m,
      endpoint_manifest names rec ep = Some m /\ is_Some (b_Slots b !! slot) /\
      get_Plugin v_cat (sb_Plugin (binding_of b slot)) (sb_Version (binding_of b slot)) = Ok p /\
      ps_Type (p_Spec p) = PluginConnector /\ plugin_verified p /\
      Contract v_cat (contract_ref slot p) = Ok c /\ slot_manifest (binding_of b slot) p = Some m /\ provides m c.
Proof.
  intros Hrange Hd Hin. apply verify_blueprint_complete in Hd as [_ Hslots _ Hrecs _].
  assert (Hnames : forall slot, slot ∈ slot_names b <-> is_Some (b_Slots b !! slot)).
  { intros slot. unfold slot_names. rewrite (sort_strings_perm _), (Hrange (b_Slots b)). rewrite list_elem_of_fmap. split.
    - intros ([k x] & -> & Hx). apply elem_of_map_to_list in Hx. eauto.
    - intros [x Hx]. exists (slot, x). split; [done|]. by apply elem_of_map_to_list. }
  rewrite Forall_forall in Hrecs. destruct (Hrecs ref Hin) as (rec & Hr & Heps & Hv).
  exists rec. split; [done|]. split; [done|]. intros ep Hep. rewrite Forall_forall in Heps.
  destruct (endpoint_bound b rec ep) as (slot & m & Hs & (p & c & Hf) & Hm); [by intros; apply Hnames|done|done|auto|].
  exists slot, p, c, m. split; [done|]. split; [by apply Hnames|].
  destruct (filling_inv b slot p c m Hf) as (Hp & Ht & _ & Hc & Hsm & Hprov). split; [done|]. split; [done|].
  split; [|done]. rewrite Forall_forall in Hslots. destruct (Hslots slot Hs) as (p' & c' & m' & Hf' & Hpv & _).
  rewrite Hf in Hf'. by injection Hf' as -> _ _.
Qed.
End verifier.

(** * Witnesses *)

Definition erp : SlotContract :=
  mkSlotContract (mkTypeMeta APIVersion KindSlotContract) (meta "erp" "1.0.0") "" ["SalesOrder"] ["order-changed"]
    [mkContractAction "create-order" "SalesOrder" RiskLow].

Definition sap_plugin : Plugin :=
  mkPlugin (mkTypeMeta APIVersion KindPlugin) (meta "sap-plugin" "2.1.0")
    (mkPluginSpec PluginConnector PluginRuntimeContainer "" "" ["erp@1"] "sap-ecc@^0.4" []
       (mkPluginPermissions None None None []) (Some (mkPluginLimits 256 30000)) None).

(** The recipe, written against the slot. *)
Definition slot_sync : Recipe :=
  mkRecipe (mkTypeMeta APIVersion KindRecipe) (meta "slot-sync" "1.0.0")
    (mkRecipeSpec (mkTrigger "erp" "order-changed") ∅
       [mkStep (Some (mkMapStep "sap.Order" "model.SalesOrder" "order-to-order@1")) None None;
        mkStep None None (Some (mkWriteStep "erp" "create-order" "orderId" true "policy" "" "orderRef" "total" None))]
       [] (Some 1%float) None []).

Definition stack_docs : list (Object * string) :=
  order_docs ++ [(OContract erp, "erp.yaml"); (OPlugin sap_plugin, "plugin.yaml"); (ORecipe slot_sync, "sync.yaml")].

#[local] Instance lenient_externals : Externals := lenient.
#[local] Instance stack_verifier : Verifier :=
  RecipeVerifier.New (match FromDocuments stack_docs with Ok c => c | Err _ => Catalog.New end)
    (mkOptions 0%float 0%float 0%float order_reviews).

Definition factory : StackBlueprint :=
  mkStackBlueprint (mkTypeMeta APIVersion KindStackBlueprint) (meta "factory" "1.0.0") ""
    {[ "erp" := mkSlotBinding "sap-plugin" "2" "sap-plant-1" ]} [] ["slot-sync@1"] [].

Lemma stack_reaches_only_slots_witness :
  exists rec, get_Recipe v_cat "slot-sync@1" = Ok rec /\
    forall ep, ep ∈ Endpoints rec -> exists slot, is_Some (b_Slots factory !! slot).
Proof.
  destruct (stack_reaches_only_slots factory "slot-sync@1") as (rec & Hr & _ & Hep).
  - intros m. exact (reflexivity _).
  - vm_compute. reflexivity.
  - left.
  - exists rec. split; [exact Hr|]. intros ep Hin. destruct (Hep ep Hin) as (slot & _ & _ & _ & _ & Hs & _).
    exists slot. exact Hs.
Defined.
