(* ===== verification/RuntimeSpec.v ===== *)
(** The runtime spec: the data of [src/pkg/compiler/compiler.go], what workers execute,
    and the helpers that name things in it. *)

From S2P Require Import Turgon Prelude GoStr GoErr GoTime Api ApiKinds Verifier.
From Stdlib Require Import Ascii String.

Definition KindRuntimeSpec : string := "RuntimeSpec".

(** ** The spec *)

Record ConnectorConfig := mkConnectorConfig {
  cc_Endpoint : string;
  cc_Name : string;
  cc_Version : string;
  cc_Runtime : string;
  cc_SecretRef : string;
  cc_Interfaces : list string;
  cc_Prohibited : list string;
  cc_Limits : Limits;
  cc_Metered : bool;
  cc_Connection : string;
  cc_Config : string
}.

Record Topic := mkTopic { tp_Name : string; tp_Partitions : Z; tp_Entity : string }.

Record WorkflowSource := mkWorkflowSource {
  src_Endpoint : string;
  src_Connector : string;
  src_Event : string;
  src_Interface : string;
  src_Topic : string
}.

Record MapConfig := mkMapConfig {
  mc_Mapping : string;
  mc_From : string;
  mc_To : string;
  mc_Fields : gmap string string
}.

Record ResolveConfig := mkResolveConfig {
  rcf_Entity : string;
  rcf_Strategy : string;
  rcf_AutoMatchAbove : float64;
  rcf_Match : list MatchField;
  rcf_Ref : string;
  rcf_Into : string
}.

Record WriteConfig := mkWriteConfig {
  wc_Endpoint : string;
  wc_Connector : string;
  wc_Operation : string;
  wc_Interface : string;
  wc_Risk : string;
  wc_Entity : string;
  wc_IdempotencyKey : string;
  wc_Simulation : string;
  wc_Approval : string;
  wc_Compensation : string;
  wc_Metered : bool;
  wc_Output : string;
  wc_Event : string;
  wc_Plugins : list string;
  wc_Amount : string;
  wc_CheckAmount : option ApiKinds.AmountCheck
}.

Record WorkflowStep := mkWorkflowStep {
  wst_Name : string;
  wst_Map : option MapConfig;
  wst_Resolve : option ResolveConfig;
  wst_Write : option WriteConfig
}.

(** [wf_SLO] is the objective's p95 latency. *)
Record Workflow := mkWorkflow {
  wf_Name : string;
  wf_Trigger : WorkflowSource;
  wf_Steps : list WorkflowStep;
  wf_SLO : option string;
  wf_Policies : list string
}.

Record EntityOperation := mkEntityOperation {
  eo_Endpoint : string;
  eo_Operation : string;
  eo_Risk : string;
  eo_IDField : string
}.

Record PluginDeployment := mkPluginDeployment {
  pd_Name : string;
  pd_Version : string;
  pd_Publisher : string;
  pd_Type : string;
  pd_Runtime : string;
  pd_World : string;
  pd_Slot : string;
  pd_Subscribes : list string;
  pd_Grants : PluginPermissions;
  pd_Limits : option PluginLimits;
  pd_UIPanel : string;
  pd_Module : string;
  pd_ModuleSHA256 : string;
  pd_Reads : gmap string EntityOperation;
  pd_Proposals : gmap string EntityOperation;
  pd_Secrets : gmap string string
}.

Record Tool := mkTool {
  tl_Name : string;
  tl_Description : string;
  tl_Risk : string;
  tl_Endpoint : string;
  tl_Operation : string;
  tl_Entity : string;
  tl_Fields : list string;
  tl_Simulate : bool;
  tl_Amount : string;
  tl_CheckAmount : option ApiKinds.AmountCheck
}.

Record PolicyRef := mkPolicyRef { pr_Name : string; pr_Version : string; pr_Rego : string }.

Record Monitor := mkMonitor {
  mo_Name : string;
  mo_Kind : string;
  mo_Workflow : string;
  mo_Target : string;
  mo_TargetSeconds : float64
}.

Record RuntimeBody := mkRuntimeBody {
  rb_Connectors : list ConnectorConfig;
  rb_Topics : list Topic;
  rb_Workflows : list Workflow;
  rb_Plugins : list PluginDeployment;
  rb_Tools : list Tool;
  rb_Policies : list PolicyRef;
  rb_Monitors : list Monitor
}.

Record Signature := mkSignature { sig_KeyID : string; sig_Algorithm : string; sig_Value : string }.

Record RuntimeMeta := mkRuntimeMeta {
  rm_Name : string;
  rm_Source : string;
  rm_Level : string;
  rm_Digest : string;
  rm_Signatures : list Signature
}.

Record RuntimeSpec := mkRuntimeSpec {
  rs_APIVersion : string;
  rs_Kind : string;
  rs_Metadata : RuntimeMeta;
  rs_Spec : RuntimeBody
}.

(** ** Names *)

(** [ref]: name@version. *)
Definition ref (m : ObjectMeta) : string :=
  if String.eqb (om_Version m) "" then om_Name m else om_Name m +++ "@" +++ om_Version m.

(** [topicName]; names are ASCII. *)
Definition topicName (connector event : string) : string :=
  "turgon." +++ connector +++ "." +++ to_lower (replace_byte "." "-" event).

(** [strings.ToUpper(s[:1]) + s[1:]]; a byte that starts a longer character becomes
    U+FFFD. *)
Definition upper_head (s : string) : string :=
  match s with
  | "" => ""
  | String c s => (if (N_of_ascii c <? 128)%N then String (upper_byte c) "" else bytes [239; 191; 189]%N) +++ s
  end.

Definition humanize (op : string) : string := upper_head (replace_byte "-" " " op).

(** [lowerFirst]; names are ASCII. *)
Definition lowerFirst (s : string) : string := lower_first s.

(** [ResolveConfig.Fields]. *)
Definition Fields (r : ResolveConfig) : string * string :=
  let field := lowerFirst (trim_prefix "model." (rcf_Entity r)) in
  (if String.eqb (rcf_Ref r) "" then field +++ "Ref" else rcf_Ref r,
   if String.eqb (rcf_Into r) "" then field +++ "Id" else rcf_Into r).

(** [fmt.Sprintf("%02d-%s", i+1, kind)]. *)
Definition step_name (i : Z) (kind : string) : string :=
  (if (i + 1 <? 10)%Z then "0" +++ itoa (i + 1) else itoa (i + 1)) +++ "-" +++ kind.

(** [Duration.Seconds]. *)
Definition duration_seconds (d : Z) : float64 :=
  (float_of_Z (Z.quot d 1000000000) + float_of_Z (Z.rem d 1000000000) / 1e9)%float.

(** [plugin.ModelEvent]. *)
Definition ModelEvent (entity operation : string) : string :=
  let verb := match cut_first "-" operation with Some (v, _) => v | None => operation end in
  if contains ["create"; "add"; "insert"; "record"] verb then "model." +++ entity +++ ".created"
  else if contains ["delete"; "remove"] verb then "model." +++ entity +++ ".deleted"
  else "model." +++ entity +++ ".updated".

(** [plugin.SecretRef]. *)
Definition SecretRef (plugin handle : string) : string := "openbao://plugins/" +++ plugin +++ "/" +++ handle.

(** [plugin.Camel]: snake_case to camelCase, of ASCII columns. *)
Definition Camel (s : string) : string :=
  match split_on "_" s with
  | [] => ""
  | p :: parts => String.concat "" (p :: map upper_head parts)
  end.
