(* ===== verification/Compiler.v ===== *)
(** The compiler: [src/pkg/compiler/compiler.go], its builder and its entry points. *)

From S2P Require Import Turgon Prelude GoStr GoErr GoTime Semver Api ApiKinds Catalog Report Verifier RecipeVerifier.
From S2P Require Import BlueprintVerifier RuntimeSpec.
From Stdlib Require Import Ascii String.

(** The compiler: [src/pkg/compiler/compiler.go] and [sketch.go]. A builder collects
    connectors, tools, workflows and plugins from a verified report; [finish] sorts what
    it collected into a runtime spec. A nil manifest or mapping that the code would
    dereference makes the builder [None]. *)

(** What the compiler calls outside this development. *)
Class Encoders := {
  (** Hex SHA-256 of a module. *)
  module_digest : string -> string;
  (** [Digest]: SHA-256 of the canonical JSON of a body. *)
  Digest : RuntimeBody -> string;
  (** [operations.<op>.key] of a connection's configuration, empty without one. *)
  operation_key : string -> string -> string;
  (** Strict JSON decoding of a spec: unknown fields and trailing data are errors. *)
  decode_spec : string -> result RuntimeSpec
}.

(** The order in which the compiler's loops visit maps. *)
Class Visits := { visit : forall {A}, gmap string A -> list (string * A) }.

(** ** The builder *)

(** [entityOp]. *)
Record entityOp := mkEntityOp { eop_endpoint : string; eop_op : Operation }.

(** [connectors] by endpoint, [alias] from connector names to the slots they fill. *)
Record builder := mkBuilder {
  b_workflows : list Workflow;
  b_plugins : list PluginDeployment;
  b_monitors : list Monitor;
  b_connectors : gmap string ConnectorConfig;
  b_topics : gmap string Topic;
  b_tools : gmap string Tool;
  b_policies : gmap string PolicyRef;
  b_alias : gmap string string;
  b_entityOps : gmap string (list entityOp);
  b_err : option goerr
}.

Definition newBuilder : builder := mkBuilder [] [] [] ∅ ∅ ∅ ∅ ∅ ∅ None.

(** Assignments to the builder's fields. *)
Definition with_connectors (f : gmap string ConnectorConfig -> gmap string ConnectorConfig) (b : builder) : builder :=
  mkBuilder (b_workflows b) (b_plugins b) (b_monitors b) (f (b_connectors b)) (b_topics b) (b_tools b) (b_policies b)
    (b_alias b) (b_entityOps b) (b_err b).
Definition with_tools (f : gmap string Tool -> gmap string Tool) (b : builder) : builder :=
  mkBuilder (b_workflows b) (b_plugins b) (b_monitors b) (b_connectors b) (b_topics b) (f (b_tools b)) (b_policies b)
    (b_alias b) (b_entityOps b) (b_err b).
Definition with_topic (t : Topic) (b : builder) : builder :=
  mkBuilder (b_workflows b) (b_plugins b) (b_monitors b) (b_connectors b) (<[tp_Name t := t]> (b_topics b)) (b_tools b)
    (b_policies b) (b_alias b) (b_entityOps b) (b_err b).
Definition with_policy (p : PolicyPack) (b : builder) : builder :=
  mkBuilder (b_workflows b) (b_plugins b) (b_monitors b) (b_connectors b) (b_topics b) (b_tools b)
    (<[om_Name (k_Metadata p) := mkPolicyRef (om_Name (k_Metadata p)) (om_Version (k_Metadata p)) (k_Rego p)]>
       (b_policies b)) (b_alias b) (b_entityOps b) (b_err b).
Definition with_alias (name slot : string) (b : builder) : builder :=
  mkBuilder (b_workflows b) (b_plugins b) (b_monitors b) (b_connectors b) (b_topics b) (b_tools b) (b_policies b)
    (<[name := slot]> (b_alias b)) (b_entityOps b) (b_err b).
Definition with_entityOps (f : gmap string (list entityOp) -> gmap string (list entityOp)) (b : builder) : builder :=
  mkBuilder (b_workflows b) (b_plugins b) (b_monitors b) (b_connectors b) (b_topics b) (b_tools b) (b_policies b)
    (b_alias b) (f (b_entityOps b)) (b_err b).
Definition with_workflow (wf : Workflow) (mo : list Monitor) (b : builder) : builder :=
  mkBuilder (b_workflows b ++ [wf]) (b_plugins b) (b_monitors b ++ mo) (b_connectors b) (b_topics b) (b_tools b)
    (b_policies b) (b_alias b) (b_entityOps b) (b_err b).
Definition with_plugin (d : PluginDeployment) (err : option goerr) (b : builder) : builder :=
  mkBuilder (b_workflows b) (b_plugins b ++ [d]) (b_monitors b) (b_connectors b) (b_topics b) (b_tools b) (b_policies b)
    (b_alias b) (b_entityOps b) (match b_err b with Some e => Some e | None => err end).

(** [endpoint]: a connector's name stands for the slot it fills. *)
Definition endpoint (b : builder) (name : string) : string :=
  match b_alias b !! name with Some slot => slot | None => name end.

(** The configuration a connector starts with. *)
Definition new_config (ep : string) (m : ConnectorManifest) : ConnectorConfig :=
  let s := cm_Spec m in
  mkConnectorConfig ep (om_Name (cm_Metadata m)) (om_Version (cm_Metadata m)) (cs_Runtime s) (auth_SecretRef (cs_Auth s))
    [] (sort_strings (map pi_Kind (ifs_Prohibited (cs_Interfaces s)))) (cs_Limits s) (cs_SAPDigitalAccess s) "" "".

(** An interface added to the sorted list, once. *)
Definition add_interface (ifc : string) (l : list string) : list string :=
  if negb (String.eqb ifc "") && negb (contains l ifc) then sort_strings (l ++ [ifc]) else l.

Definition use_interface (ifc : string) (c : ConnectorConfig) : ConnectorConfig :=
  mkConnectorConfig (cc_Endpoint c) (cc_Name c) (cc_Version c) (cc_Runtime c) (cc_SecretRef c)
    (add_interface ifc (cc_Interfaces c)) (cc_Prohibited c) (cc_Limits c) (cc_Metered c) (cc_Connection c) (cc_Config c).

(** [connector]. *)
Definition connector (ep : string) (m : ConnectorManifest) (ifc : string) (b : builder) : builder :=
  let ep := endpoint b ep in
  with_connectors (fun cs => <[ep := use_interface ifc (default (new_config ep m) (cs !! ep))]> cs) b.

(** [c.Connection, c.Config = conn.Metadata.Name, conn.Spec.Config]. *)
Definition configured (conn : Connection) (c : ConnectorConfig) : ConnectorConfig :=
  mkConnectorConfig (cc_Endpoint c) (cc_Name c) (cc_Version c) (cc_Runtime c) (cc_SecretRef c) (cc_Interfaces c)
    (cc_Prohibited c) (cc_Limits c) (cc_Metered c) (om_Name (cn_Metadata conn)) (cn_Config (cn_Spec conn)).

(** The same, if the endpoint's connector is there. *)
Definition configure (ep : string) (conn : Connection) (b : builder) : builder :=
  let ep := endpoint b ep in
  with_connectors (fun cs => match cs !! ep with Some c => <[ep := configured conn c]> cs | None => cs end) b.

(** [offers]: the operations an endpoint has for an entity, once each. *)
Definition offer (ep : string) (ops : gmap string (list entityOp)) (op : Operation) : gmap string (list entityOp) :=
  if String.eqb (op_Entity op) "" then ops
  else
    let l := default [] (ops !! op_Entity op) in
    if existsb (fun o => String.eqb (eop_endpoint o) ep && String.eqb (op_Name (eop_op o)) (op_Name op)) l then ops
    else <[op_Entity op := l ++ [mkEntityOp ep op]]> ops.

Definition offers (ep : string) (m : ConnectorManifest) (b : builder) : builder :=
  let ep := endpoint b ep in
  with_entityOps (fun ops => fold_left (offer ep) (cs_Operations (cm_Spec m)) ops) b.

(** [tool]: names are assigned in [finish]. *)
Definition tool (ep op entity risk desc : string) (b : builder) : builder :=
  with_tools (fun ts => <[ep +++ "/" +++ op := mkTool "" desc risk ep op entity [] false "" None]> ts) b.

(** [writeTool]: the union of the fields, and what an earlier tool of the operation
    asked for. [doc] is nil until a mapping fixes the document. *)
Definition writeTool (ep : string) (op : Operation) (desc : string) (doc : option (gset string)) (w : WriteStep)
    (b : builder) : builder :=
  let key := ep +++ "/" +++ op_Name op in
  let prev := b_tools b !! key in
  let fields := default ∅ doc ∪ match prev with Some t => list_to_set (tl_Fields t) | None => ∅ end in
  let simulate := match prev with Some t => ws_Simulate w || tl_Simulate t | None => ws_Simulate w end in
  let amount := match prev with
    | Some t => if String.eqb (tl_Amount t) "" then ws_Amount w else tl_Amount t
    | None => ws_Amount w
    end in
  let check := match prev with
    | Some t => match tl_CheckAmount t with Some c => Some c | None => ws_CheckAmount w end
    | None => ws_CheckAmount w
    end in
  with_tools (fun ts => <[key := mkTool "" desc (op_Risk op) ep (op_Name op) (op_Entity op)
    (sort_strings (elements fields)) simulate amount check]> ts) b.

Section compiler.
Context `{E : Externals} `{K : Encoders} `{O : Visits}.

(** ** Plugins *)

(** [deployment] of a plugin; a logic plugin's module is embedded with its digest. *)
Definition base_deployment (p : Plugin) (slot : string) : PluginDeployment :=
  let s := p_Spec p in
  mkPluginDeployment (om_Name (p_Metadata p)) (om_Version (p_Metadata p)) (om_Publisher (p_Metadata p)) (ps_Type s)
    (ps_Runtime s) (ps_World s) slot (ps_Subscribes s) (ps_Permissions s) (ps_Limits s) (default "" (ps_UI s))
    "" "" ∅ ∅ ∅.

Definition plugin_secrets (p : Plugin) : gmap string string :=
  fold_left (fun m h => <[h := SecretRef (om_Name (p_Metadata p)) h]> m) (pp_Secrets (ps_Permissions (p_Spec p))) ∅.

Definition deployment (p : Plugin) (slot : string) : PluginDeployment * option goerr :=
  let d := base_deployment p slot in
  if String.eqb (ps_Type (p_Spec p)) PluginLogic && String.eqb (ps_Runtime (p_Spec p)) PluginRuntimeWasm then
    let (module, err) := match PluginModule p with Ok b => (b, None) | Err e => ("", Some e) end in
    (mkPluginDeployment (pd_Name d) (pd_Version d) (pd_Publisher d) (pd_Type d) (pd_Runtime d) (pd_World d) (pd_Slot d)
       (pd_Subscribes d) (pd_Grants d) (pd_Limits d) (pd_UIPanel d) module (module_digest module) ∅ ∅ (plugin_secrets p),
     err)
  else (d, None).

Definition deploy (p : Plugin) (slot : string) (b : builder) : builder :=
  let (d, err) := deployment p slot in with_plugin d err b.

(** [extension]: once, however many recipes install it. *)
Definition extension (p : Plugin) (b : builder) : builder :=
  if existsb (fun d => String.eqb (pd_Name d) (om_Name (p_Metadata p)) && String.eqb (pd_Slot d) "") (b_plugins b) then b
  else deploy p "" b.

(** ** Recipes *)

(** What [Operation], [Event] and [Permitted] return beside "not found". *)
Definition zero_operation : Operation := mkOperation "" "" "" "" "" "".
Definition zero_event : ConnectorEvent := mkEvent "" "" "".
Definition zero_interface : Interface := mkInterface "" "".

Definition map_config (s : MapStep) (m : Mapping) : MapConfig :=
  mkMapConfig (ref (mp_Metadata m)) (ms_From s) (ms_To s)
    (fold_left (fun fs f => <[fm_Target f := fm_Expression f]> fs) (mp_Fields m) ∅).

Definition resolve_config (s : ResolveStep) : ResolveConfig :=
  mkResolveConfig (rs_Entity s) (rs_Strategy s) (rs_AutoMatchAbove s) (rs_Match s) (rs_Ref s) (rs_Into s).

Definition write_config (b : builder) (w : WriteStep) (m : ConnectorManifest) (op : Operation) : WriteConfig :=
  let ifc := match Permitted m DirectionWrite (op_Interface op) with Ok i => i | Err _ => zero_interface end in
  mkWriteConfig (endpoint b (ws_Target w)) (om_Name (cm_Metadata m)) (op_Name op) (op_Interface op) (op_Risk op)
    (op_Entity op) (ws_IdempotencyKey w) (if ws_Simulate w then if_Simulation ifc else "")
    (if String.eqb (ws_Approval w) "" then ApprovalPolicy else ws_Approval w) (write_compensation w op)
    (cs_SAPDigitalAccess (cm_Spec m)) (ws_Output w) "" [] (ws_Amount w) (ws_CheckAmount w).

(** The builder, the document's fields and the steps so far. *)
Definition step_state : Type := builder * option (gset string) * list WorkflowStep.

(** A write step. *)
Definition compile_write (name : string) (w : WriteStep) (m : ConnectorManifest) (st : step_state) : step_state :=
  let '(b, doc, steps) := st in
  let op := default zero_operation (find_operation m (ws_Operation w)) in
  let b := match find_operation m (write_compensation w op) with
    | Some cop => connector (ws_Target w) m (op_Interface cop) b
    | None => b
    end in
  let wc := write_config b w m op in
  let b := connector (ws_Target w) m (op_Interface op) b in
  let b := writeTool (endpoint b (ws_Target w)) op (humanize (op_Name op) +++ " via " +++ ws_Target w) doc w b in
  let doc := match doc with
    | Some d => if String.eqb (ws_Output w) "" then Some d else Some ({[ws_Output w]} ∪ d)
    | None => None
    end in
  (b, doc, steps ++ [mkWorkflowStep name None None (Some wc)]).

(** One step of a recipe, with what its endpoints and mappings resolved to. *)
Definition compile_step (res : Resolution) (st : step_state) (ix : Z * Step) : option step_state :=
  let '(b, doc, steps) := st in
  let s := snd ix in
  let name := step_name (fst ix) (step_kind s) in
  match s_Map s, s_Resolve s, s_Write s with
  | Some ms, _, _ =>
      match res_Mappings res !! ms_Mapping ms with
      | None => None
      | Some m =>
          Some (b, Some (list_to_set (map fm_Target (mp_Fields m))),
                steps ++ [mkWorkflowStep name (Some (map_config ms m)) None None])
      end
  | None, Some rs, _ =>
      let rc := resolve_config rs in
      Some (b, match doc with Some d => Some ({[snd (Fields rc)]} ∪ d) | None => None end,
            steps ++ [mkWorkflowStep name None (Some rc) None])
  | None, None, Some w =>
      match res_Connectors res !! ws_Target w with
      | None => None
      | Some m => Some (compile_write name w m st)
      end
  | None, None, None => Some (b, doc, steps ++ [mkWorkflowStep name None None None])
  end.

Fixpoint compile_steps (res : Resolution) (st : step_state) (l : list (Z * Step)) : option step_state :=
  match l with
  | [] => Some st
  | ix :: l => match compile_step res st ix with Some st => compile_steps res st l | None => None end
  end.

(** The read-only tool of a read operation. *)
Definition read_tool (b : builder) (x : string * ConnectorManifest * Operation) : builder :=
  let '(ep, m, op) := x in
  if negb (String.eqb (op_Direction op) DirectionRead) then b
  else
    let b := connector ep m (op_Interface op) b in
    tool (endpoint b ep) (op_Name op) (op_Entity op) (op_Risk op)
      (humanize (op_Name op) +++ " from " +++ endpoint b ep +++ " by its identifier (read-only)") b.

(** The operations of a map of connectors, in the order the nested loops visit them. *)
Definition operations_of (l : list (string * ConnectorManifest)) : list (string * ConnectorManifest * Operation) :=
  List.concat (map (fun '(ep, m) => map (fun op => (ep, m, op)) (cs_Operations (cm_Spec m))) l).

Definition read_tools (conns : gmap string ConnectorManifest) (b : builder) : builder :=
  fold_left read_tool (operations_of (visit conns)) b.

Definition offer_all (conns : gmap string ConnectorManifest) (b : builder) : builder :=
  fold_left (fun b '(ep, m) => offers ep m b) (visit conns) b.

Definition configure_all (conns : gmap string Connection) (b : builder) : builder :=
  fold_left (fun b '(ep, conn) => configure ep conn b) (visit conns) b.

(** The latency objective's monitor. *)
Definition monitors_of (r : Recipe) : list Monitor :=
  match rc_P95Latency (r_Spec r) with
  | Some p95 =>
      if String.eqb p95 "" then []
      else [mkMonitor (om_Name (r_Metadata r) +++ "-p95") "latency-p95" (om_Name (r_Metadata r)) p95
              (match ParseDuration p95 with Some d => duration_seconds d | None => 0%float end)]
  | None => []
  end.

Definition add_policies (l : list PolicyPack) (b : builder) : builder := fold_left (fun b p => with_policy p b) l b.

(** The trigger of a recipe, and its topic. *)
Definition source_of (b : builder) (r : Recipe) (src : ConnectorManifest) (ev : ConnectorEvent) : WorkflowSource :=
  let ep := endpoint b (tr_Source (rc_Trigger (r_Spec r))) in
  mkWorkflowSource ep (om_Name (cm_Metadata src)) (ev_Name ev) (ev_Interface ev) (topicName ep (ev_Name ev)).

(** What a recipe's endpoints offer beyond its steps: reads for agents, operations for
    plugins, and the connections' configurations. *)
Definition compile_offers (res : Resolution) (b : builder) : builder :=
  let b := offer_all (res_Connectors res) b in
  let b := fold_left (fun b p => extension p b) (res_Extensions res) b in
  let b := read_tools (res_Connectors res) b in
  configure_all (res_Connections res) b.

(** [builder.recipe]. *)
Definition compile_recipe (r : Recipe) (res : Resolution) (b : builder) : option builder :=
  let t := rc_Trigger (r_Spec r) in
  match res_Connectors res !! tr_Source t with
  | None => None
  | Some src =>
      let ev := default zero_event (find_event src (tr_Event t)) in
      let trigger := source_of b r src ev in
      let b := with_topic (mkTopic (src_Topic trigger) 3 (ev_Entity ev)) (connector (tr_Source t) src (ev_Interface ev) b) in
      match compile_steps res (b, None, []) (indexed (rc_Steps (r_Spec r))) with
      | None => None
      | Some (b, _, steps) =>
          let b := compile_offers res b in
          let wf := mkWorkflow (om_Name (r_Metadata r)) trigger steps (rc_P95Latency (r_Spec r))
                      (sort_strings (map (fun p => om_Name (k_Metadata p)) (res_Policies res))) in
          Some (add_policies (res_Policies res) (with_workflow wf (monitors_of r) b))
      end
  end.

(** ** Stacks *)

Definition slots_of (res : Resolution) : list string := sort_strings (map fst (visit (res_Slots res))).

(** A slot's connector, deployed even if no recipe uses it. *)
Definition compile_slot (res : Resolution) (ob : option builder) (slot : string) : option builder :=
  match ob, res_Connectors res !! slot with
  | Some b, Some m =>
      let b := with_alias (om_Name (cm_Metadata m)) slot b in
      let b := offers slot m (connector slot m "" b) in
      Some (match res_Connections res !! slot with Some conn => configure slot conn b | None => b end)
  | _, _ => None
  end.

(** A slot's plugin, and the agent tools of its contract. *)
Definition compile_contract (res : Resolution) (ob : option builder) (slot : string) : option builder :=
  match ob, res_Slots res !! slot, res_Contracts res !! slot with
  | Some b, Some p, Some c =>
      Some (fold_left (fun b a =>
        tool slot (ca_Name a) (ca_Entity a) (ca_Risk a)
          (humanize (ca_Name a) +++ " in the " +++ to_upper slot +++ " system") b) (sc_Actions c) (deploy p slot b))
  | _, _, _ => None
  end.

(** The recipes among a stack's children. *)
Definition compile_child (ob : option builder) (child : Report) : option builder :=
  match ob, res_Recipe (r_Resolution child) with
  | Some b, Some r => compile_recipe r (r_Resolution child) b
  | ob, None => ob
  | None, _ => None
  end.

(** [builder.blueprint]. *)
Definition compile_blueprint (rep : Report) (b : builder) : option builder :=
  let res := r_Resolution rep in
  let ob := fold_left (compile_slot res) (slots_of res) (Some b) in
  let ob := fold_left (compile_contract res) (slots_of res) ob in
  match ob with
  | None => None
  | Some b =>
      let b := fold_left (fun b p => extension p b) (res_Extensions res) b in
      match fold_left compile_child (Children rep) (Some b) with
      | Some b => Some (add_policies (res_Policies res) b)
      | None => None
      end
  end.

(** ** Wiring plugins *)

(** [keyField]. *)
Definition keyField (config op : string) : string :=
  let key := operation_key config op in if String.eqb key "" then "id" else Camel key.

(** Preferred endpoints first, then by name. *)
Definition ops_le (preferred : gset string) (a b : entityOp) : bool :=
  let pa := bool_decide (eop_endpoint a ∈ preferred) in
  let pb := bool_decide (eop_endpoint b ∈ preferred) in
  if Bool.eqb pa pb then str_le (eop_endpoint a) (eop_endpoint b) else pa.

Definition pick (b : builder) (entity opName dir : string) (preferred : gset string) : option EntityOperation :=
  match find_first (fun o => String.eqb (op_Name (eop_op o)) opName && String.eqb (op_Direction (eop_op o)) dir)
          (isort (ops_le preferred) (default [] (b_entityOps b !! entity))) with
  | Some o =>
      Some (mkEntityOperation (eop_endpoint o) (op_Name (eop_op o)) (op_Risk (eop_op o))
        (match b_connectors b !! eop_endpoint o with Some c => keyField (cc_Config c) (op_Name (eop_op o)) | None => "" end))
  | None => None
  end.

(** The endpoints whose writes cause the plugin's events. *)
Definition preferred_of (b : builder) (d : PluginDeployment) : gset string :=
  list_to_set (omap (fun st => match wst_Write st with
      | Some w =>
          if negb (String.eqb (wc_Entity w) "") && contains (pd_Subscribes d) (ModelEvent (wc_Entity w) (wc_Operation w))
          then Some (wc_Endpoint w) else None
      | None => None
      end) (List.concat (map wf_Steps (b_workflows b)))).

(** The operations that serve a list of entity references. *)
Definition serve (b : builder) (operation : string -> string) (dir : string) (preferred : gset string)
    (refs : list string) : gmap string EntityOperation :=
  fold_left (fun m r =>
    let e := before_dot r in
    match pick b e (operation e) dir preferred with Some eo => <[e := eo]> m | None => m end) refs ∅.

Definition wire_plugin (b : builder) (d : PluginDeployment) : PluginDeployment :=
  match pp_Entities (pd_Grants d) with
  | Some e =>
      if negb (String.eqb (pd_Type d) PluginLogic) then d
      else
        let preferred := preferred_of b d in
        mkPluginDeployment (pd_Name d) (pd_Version d) (pd_Publisher d) (pd_Type d) (pd_Runtime d) (pd_World d)
          (pd_Slot d) (pd_Subscribes d) (pd_Grants d) (pd_Limits d) (pd_UIPanel d) (pd_Module d) (pd_ModuleSHA256 d)
          (serve b ReadOperation DirectionRead preferred (ep_Read e))
          (serve b ProposeOperation DirectionWrite preferred (ep_Propose e)) (pd_Secrets d)
  | None => d
  end.

(** The plugins a write's event runs, each once, sorted. *)
Definition subscribers (plugins : list PluginDeployment) (ev : string) : list string :=
  sort_strings (fold_left (fun l d =>
    if String.eqb (pd_Type d) PluginLogic && contains (pd_Subscribes d) ev && negb (contains l (pd_Name d))
    then l ++ [pd_Name d] else l) plugins []).

Definition wire_write (plugins : list PluginDeployment) (w : WriteConfig) : WriteConfig :=
  if String.eqb (wc_Entity w) "" then w
  else
    let ev := ModelEvent (wc_Entity w) (wc_Operation w) in
    match subscribers plugins ev with
    | [] => w
    | l =>
        mkWriteConfig (wc_Endpoint w) (wc_Connector w) (wc_Operation w) (wc_Interface w) (wc_Risk w) (wc_Entity w)
          (wc_IdempotencyKey w) (wc_Simulation w) (wc_Approval w) (wc_Compensation w) (wc_Metered w) (wc_Output w)
          ev l (wc_Amount w) (wc_CheckAmount w)
    end.

Definition wire_workflow (plugins : list PluginDeployment) (wf : Workflow) : Workflow :=
  mkWorkflow (wf_Name wf) (wf_Trigger wf)
    (map (fun st => mkWorkflowStep (wst_Name st) (wst_Map st) (wst_Resolve st)
                      (match wst_Write st with Some w => Some (wire_write plugins w) | None => None end)) (wf_Steps wf))
    (wf_SLO wf) (wf_Policies wf).

(** ** Finishing *)

(** [sort.Slice] by a name. *)
Definition sort_by {A} (name : A -> string) (l : list A) : list A := isort (fun a b => str_le (name a) (name b)) l.

(** How many endpoints offer an operation. *)
Definition offered (tools : list Tool) (op : string) : Z :=
  Z.of_nat (List.length (List.filter (fun t => String.eqb (tl_Operation t) op) tools)).

(** A tool's name: its operation, prefixed where several endpoints offer it. *)
Definition tool_name (tools : list Tool) (t : Tool) : string :=
  let name := replace_byte "-" "_" (tl_Operation t) in
  if (1 <? offered tools (tl_Operation t))%Z then replace_byte "-" "_" (tl_Endpoint t) +++ "_" +++ name else name.

Definition named (tools : list Tool) (t : Tool) : Tool :=
  mkTool (tool_name tools t) (tl_Description t) (tl_Risk t) (tl_Endpoint t) (tl_Operation t) (tl_Entity t) (tl_Fields t)
    (tl_Simulate t) (tl_Amount t) (tl_CheckAmount t).

Definition finish_body (b : builder) : RuntimeBody :=
  let plugins := map (wire_plugin b) (b_plugins b) in
  let tools := map snd (visit (b_tools b)) in
  mkRuntimeBody
    (sort_by cc_Endpoint (map snd (visit (b_connectors b))))
    (sort_by tp_Name (map snd (visit (b_topics b))))
    (sort_by wf_Name (map (wire_workflow plugins) (b_workflows b)))
    plugins
    (sort_by tl_Name (map (named tools) tools))
    (sort_by pr_Name (map snd (visit (b_policies b))))
    (sort_by mo_Name (b_monitors b)).

Definition finish_spec (name source level : string) (b : builder) : RuntimeSpec :=
  mkRuntimeSpec APIVersion KindRuntimeSpec (mkRuntimeMeta name source level (Digest (finish_body b)) []) (finish_body b).
End compiler.

(** The compiler's entry points: [Compile], [ParseSpec], [ConnectionConfig] and [Sketch]
    of [src/pkg/compiler]. *)

Definition ErrNotDeployable : string := "not deployable".

(** [countReviews]: reviews waiting in the whole tree. *)
Fixpoint countReviews (rep : Report) : Z :=
  (Z.of_nat (List.length (ReviewQueue rep)) +
   (fix below (cs : list Report) : Z :=
      match cs with [] => 0 | c :: cs => countReviews c + below cs end) (Children rep))%Z.

Definition notDeployable (rep : Report) : goerr :=
  match Errors rep with
  | [] => Wrapf (Msg "%s: %w: %d field(s) awaiting review" [FStr (Subject rep); FInt (countReviews rep)])
            [Sentinel ErrNotDeployable]
  | (e :: _) as errs =>
      Wrapf (Msg "%s: %w: %d error(s), first: %s"
               [FStr (Subject rep); FInt (Z.of_nat (List.length errs)); FMsg (f_Message e)]) [Sentinel ErrNotDeployable]
  end.

(** What [Compile] returns: a spec, a report and an error, each possibly nil. [Panics]
    is a nil dereference. *)
Inductive compiled :=
| Compiled (spec : option RuntimeSpec) (report : option Report) (err : option goerr)
| Panics.

Section compiler.
Context `{E : Externals} `{K : Encoders} `{O : Visits}.

(** Compiling what a verified report resolved. *)
Definition compile_verified (name source : string) (rep : Report) (ob : option builder) : compiled :=
  match ob with
  | None => Panics
  | Some b => Compiled (Some (finish_spec name source (Level rep) b)) (Some rep) (b_err b)
  end.

Definition Compile (cat : Catalog) (obj : Object) (opts : Options) : compiled :=
  let v := RecipeVerifier.New cat opts in
  match obj with
  | ORecipe r =>
      let rep := verify_recipe (V := v) r ∅ in
      if negb (Deployable rep) then Compiled None (Some rep) (Some (notDeployable rep))
      else compile_verified (om_Name (r_Metadata r)) ("Recipe/" +++ ref (r_Metadata r)) rep
             (compile_recipe r (r_Resolution rep) newBuilder)
  | OBlueprint b =>
      let rep := verify_blueprint (V := v) b in
      if negb (Deployable rep) then Compiled None (Some rep) (Some (notDeployable rep))
      else compile_verified (om_Name (b_Metadata b)) ("StackBlueprint/" +++ ref (b_Metadata b)) rep
             (compile_blueprint rep newBuilder)
  | _ =>
      Compiled None None (Some (Errorf (Msg "cannot compile a %s; compile a Recipe or StackBlueprint"
        [FStr (tm_Kind (GetTypeMeta obj))])))
  end.

(** [ParseSpec], after strict decoding. *)
Definition ParseSpec (data : string) : result RuntimeSpec :=
  match decode_spec data with
  | Err err => Err (Wrapf (msg0 "not a valid runtime spec: %w") [err])
  | Ok s =>
      if negb (String.eqb (rs_Kind s) KindRuntimeSpec) then
        Err (Errorf (Msg "a %q, not a RuntimeSpec; run turgon compile first" [FStr (rs_Kind s)]))
      else
        let got := Digest (rs_Spec s) in
        if negb (String.eqb got (rm_Digest (rs_Metadata s))) then
          Err (Errorf (Msg "digest mismatch (spec says %s, body hashes to %s); refusing a modified spec"
            [FStr (rm_Digest (rs_Metadata s)); FStr got]))
        else Ok s
  end.

(** [ConnectionConfig]. *)
Definition ConnectionConfig (cat : Catalog) (name : string) : result ConnectorConfig :=
  match get_Connection cat name with
  | Err err => Err err
  | Ok conn =>
      let (cname, constraint) := ParseRef (cn_Connector (cn_Spec conn)) in
      match Connector cat cname constraint with
      | Err err => Err (Wrapf (Msg "connection %s: %w" [FStr name]) [err])
      | Ok m =>
          match ValidateEffective conn m with
          | e :: _ => Err (Errorf (Msg "connection %s: %s: %s" [FStr name; FStr (fe_Path e); FMsg (fe_Message e)]))
          | [] => Ok (configured conn (use_interface "" (new_config name (Effective conn m))))
          end
      end
  end.

(** [Sketch]: the trigger and the mapping steps the catalog resolves. *)
Definition sketch_step (cat : Catalog) (ix : Z * Step) : list WorkflowStep :=
  match s_Map (snd ix) with
  | Some s =>
      match get_Mapping cat (ms_Mapping s) with
      | Ok m => [mkWorkflowStep (step_name (fst ix) "map") (Some (map_config s m)) None None]
      | Err _ => []
      end
  | None => []
  end.

Definition Sketch (cat : Catalog) (r : Recipe) : RuntimeSpec :=
  let t := rc_Trigger (r_Spec r) in
  mkRuntimeSpec "" "" (mkRuntimeMeta (om_Name (r_Metadata r)) "" "" "" [])
    (mkRuntimeBody [] []
       [mkWorkflow (om_Name (r_Metadata r)) (mkWorkflowSource (tr_Source t) "" (tr_Event t) "" "")
          (List.concat (map (sketch_step cat) (indexed (rc_Steps (r_Spec r))))) None []] [] [] [] []).
End compiler.
