(* ===== verification/CompileTheorems.v ===== *)
(** The compiler: references resolve as verification saw them, what each part of the builder
    adds, and what compilation promises for a recipe. *)

From S2P Require Import Turgon Prelude GoStr GoErr GoTime Regex Semver Api ApiKinds ApiTheorems Catalog Report Verifier.
From S2P Require Import RecipeVerifier BlueprintVerifier VerifierProps VerifierTheorems BlueprintTheorems RuntimeSpec.
From S2P Require Import Compiler.
From Stdlib Require Import Ascii String.

(** Lemmas about the compiler: references resolve as verification saw them, and what each
    part of the builder adds. *)

(** What a deployable recipe's report has resolved: its connectors, its policies and
    the mapping of every map step, which the compiler relies on. *)

Section verifier.
Context `{E : Externals} `{V : Verifier}.

(** Mappings are only added. *)
Definition grows (r r' : Report) : Prop :=
  forall k m, res_Mappings (r_Resolution r) !! k = Some m -> is_Some (res_Mappings (r_Resolution r') !! k).

Lemma quiet_grows r r' ok : quiet r r' ok -> grows r r'.
Proof. intros [R _] k m H. rewrite R. eauto. Qed.

Lemma grows_trans r1 r2 r3 : grows r1 r2 -> grows r2 r3 -> grows r1 r3.
Proof. intros H1 H2 k m H. destruct (H1 k m H) as [m' H']. by apply (H2 k m'). Qed.

Lemma mapStep_grows r path s threshold : grows r (mapStep r path s threshold).
Proof.
  unfold mapStep. destruct (get_Mapping v_cat (ms_Mapping s)) as [m|err].
  2: { intros k m H. rewrite raise_resolution. cbn. eauto. }
  cbv zeta. set (r1 := set_Mapping (ms_Mapping s) m r).
  assert (H1 : grows r r1).
  { intros k x H. cbn. destruct (decide (ms_Mapping s = k)) as [<-|N]; [rewrite lookup_insert_eq; eauto|].
    rewrite lookup_insert_ne by done. eauto. }
  apply (grows_trans _ r1); [done|]. clearbody r1. destruct (_ || _).
  { intros k x H. rewrite raise_resolution. cbn. eauto. }
  eapply quiet_grows. eapply quiet_trans; [apply (quiet_fold (check_expression path (mapping_ref m))
    (fun _ f => mapping_Check (fm_Expression f) = None))|apply (quiet_fold (check_confidence path (mapping_ref m) threshold)
    (fun _ f => confident (mapping_ref m) threshold f))].
  - intros r' f. apply check_expression_quiet.
  - intros r' f. apply check_confidence_quiet.
Qed.

Lemma mapping_step_grows threshold r d ix : grows r (fst (mapping_step threshold (r, d) ix)).
Proof.
  unfold mapping_step. cbv zeta. destruct ix as [i s]. cbn [fst snd].
  set (st1 := match s_Map s with Some m => check_map_step _ threshold m (r, d) | None => (r, d) end).
  assert (H1 : grows r (fst st1)).
  { unfold st1. destruct (s_Map s) as [m|]; [apply mapStep_grows|intros k x H; eauto]. }
  clearbody st1. destruct st1 as [r1 d1]. cbn [fst] in H1.
  set (st2 := match s_Write s with Some w => check_write_amount _ w (r1, d1) | None => (r1, d1) end).
  assert (H2 : grows r1 (fst st2)).
  { unfold st2. destruct (s_Write s) as [w|]; [eapply quiet_grows, check_write_amount_spec|intros k x H; eauto]. }
  clearbody st2. destruct st2 as [r2 d2]. cbn [fst] in H2.
  apply (grows_trans _ r1); [done|]. apply (grows_trans _ r2); [done|].
  destruct (s_Resolve s) as [rs|]; [eapply quiet_grows, check_resolve_step_spec|intros k x H; eauto].
Qed.

(** After the mapping stage every map step's mapping is resolved. *)
Lemma mapping_steps_resolved C P threshold l r d :
  resolved C P r -> along doc_next (doc_ok threshold) d (map snd l) ->
  forall s m, s ∈ map snd l -> s_Map s = Some m ->
    is_Some (res_Mappings (r_Resolution (fst (fold_left (mapping_step threshold) l (r, d)))) !! ms_Mapping m).
Proof.
  assert (Hgrow : forall l r d, grows r (fst (fold_left (mapping_step threshold) l (r, d)))).
  { intros l'. induction l' as [|ix l' IH]; intros r' d'; cbn [fold_left]; [intros k x H; eauto|].
    pose proof (mapping_step_grows threshold r' d' ix) as Hg.
    destruct (mapping_step threshold (r', d') ix) as [r1 d1]. by apply (grows_trans _ r1). }
  revert r d. induction l as [|ix l IH]; intros r d HR Hal s m Hin Hm; [by apply elem_of_nil in Hin|].
  cbn [fold_left map along] in *. destruct Hal as [Hok Hal].
  destruct (mapping_step_stage C P threshold r d ix HR) as [Hn [HR1 _]].
  apply elem_of_cons in Hin as [->|Hin].
  - assert (H1 : is_Some (res_Mappings (r_Resolution (fst (mapping_step threshold (r, d) ix))) !! ms_Mapping m)).
    { unfold mapping_step. cbv zeta. rewrite Hm. unfold check_map_step. cbn [fst snd]. cbv zeta.
      set (path := at_index _ _).
      destruct (mapStep_stage C P r path m threshold HR) as [_ Hl].
      destruct (proj1 Hok m Hm) as (mp & Hg & _). rewrite Hg in Hl.
      set (r1 := mapStep r path m threshold) in *. set (d1 := (_, ms_Mapping m)). clearbody d1.
      set (st2 := match s_Write (snd ix) with Some w => check_write_amount path w (r1, d1) | None => (r1, d1) end).
      assert (H2 : grows r1 (fst st2)).
      { unfold st2. destruct (s_Write _) as [w|]; [eapply quiet_grows, check_write_amount_spec|intros k x H; eauto]. }
      clearbody st2. destruct st2 as [r2 d2]. cbn [fst] in H2.
      assert (H3 : grows r2 (fst (match s_Resolve (snd ix) with Some rs => check_resolve_step path rs (r2, d2) | None => (r2, d2) end))).
      { destruct (s_Resolve _) as [rs|]; [eapply quiet_grows, check_resolve_step_spec|intros k x H; eauto]. }
      by apply (grows_trans _ _ _ H2 H3 _ mp). }
    destruct H1 as [x H1]. destruct (mapping_step threshold (r, d) ix) as [r1 d1]. by apply (Hgrow l r1 d1 _ x).
  - destruct (mapping_step threshold (r, d) ix) as [r1 d1]. cbn [fst snd] in *. subst d1. by apply (IH r1 (doc_next d (snd ix)) HR1 Hal s m).
Qed.

Lemma resolve_policies_mappings refs r :
  res_Mappings (r_Resolution (fold_left resolve_policy refs r)) = res_Mappings (r_Resolution r).
Proof.
  revert r. induction refs as [|ref refs IH]; intros r; cbn [fold_left]; [done|]. rewrite IH.
  unfold resolve_policy. by destruct (get_Policy _ _).
Qed.

Lemma policy_stage_mappings rec r : res_Mappings (r_Resolution (policy_stage rec r)) = res_Mappings (r_Resolution r).
Proof.
  unfold policy_stage. cbv zeta. set (r1 := fold_left resolve_policy _ r).
  set (r2 := if hasWrites rec && _ then _ else r1).
  destruct (checkPolicies_quiet r2 (res_Policies (r_Resolution r2)) (hasWrites rec)) as [-> _].
  assert (r_Resolution r2 = r_Resolution r1) as -> by (unfold r2; by destruct (_ && _)).
  apply resolve_policies_mappings.
Qed.

(** What the compiler reads of a recipe's resolution. *)
Record resolution_ok (bound : gmap string ConnectorManifest) (rec : Recipe) (res : Resolution) : Prop := mkResolutionOk {
  ro_connectors : res_Connectors res = connectors bound rec;
  ro_policies : res_Policies res = resolved_policies (rc_Policies (r_Spec rec));
  ro_mappings : forall s m, s ∈ rc_Steps (r_Spec rec) -> s_Map s = Some m ->
    exists mp, res_Mappings res !! ms_Mapping m = Some mp /\ get_Mapping v_cat (ms_Mapping m) = Ok mp
}.

Lemma recipe_stages_resolution bound rec r :
  res_Connectors (r_Resolution r) = ∅ -> res_Policies (r_Resolution r) = [] -> res_Mappings (r_Resolution r) = ∅ ->
  along doc_next (doc_ok (threshold_of rec)) (None, "") (rc_Steps (r_Spec rec)) ->
  resolution_ok bound rec (r_Resolution (recipe_stages bound rec r)).
Proof.
  intros HC HP HM Hal. unfold recipe_stages. cbv zeta. set (C := connectors bound rec).
  set (r0 := if negb _ then raise 1 r else r).
  assert (R0 : r_Resolution r0 = r_Resolution r) by (unfold r0; destruct (negb _); [apply raise_resolution|done]).
  clearbody r0. rewrite <- R0 in HC, HP, HM.
  destruct (resolve_stage_verdict bound rec r0 HC HP HM) as [HR1 _]. fold C in HR1.
  set (r1 := resolve_stage bound rec r0) in *. clearbody r1.
  destruct (quiet_stage _ _ _ _ _ HR1 (interface_stage_quiet rec r1)) as [HR2 _].
  set (r2 := interface_stage rec r1) in *. clearbody r2.
  assert (Hmap : forall s m, s ∈ rc_Steps (r_Spec rec) -> s_Map s = Some m ->
    is_Some (res_Mappings (r_Resolution (mapping_stage rec r2)) !! ms_Mapping m)).
  { intros s m Hs. unfold mapping_stage. apply (mapping_steps_resolved C []); [done|..];
      change (map snd (indexed (rc_Steps (r_Spec rec)))) with ((indexed (rc_Steps (r_Spec rec))).*2);
      rewrite indexed_snd; done. }
  destruct (mapping_stage_stage C [] rec r2 HR2) as [HR3 _]. set (r3 := mapping_stage rec r2) in *. clearbody r3.
  destruct (policy_stage_stage C rec r3 HR3) as [HR4 _]. pose proof (policy_stage_mappings rec r3) as M4.
  set (r4 := policy_stage rec r3) in *. clearbody r4.
  assert (R6 : r_Resolution (dry_run_stage rec (capacity_stage rec r4)) = r_Resolution r4).
  { rewrite <- (proj1 (capacity_stage_quiet rec r4)). unfold dry_run_stage. by destruct (hasWrites rec). }
  rewrite R6. destruct HR4 as (HC4 & HP4 & HM4). split; [done|done|].
  intros s m Hs Hm. destruct (Hmap s m Hs Hm) as [mp Hmp]. exists mp. rewrite M4. split; [done|].
  apply HM4. by rewrite M4.
Qed.

Lemma verify_recipe_resolution bound rec :
  recipe_verified bound rec -> resolution_ok bound rec (r_Resolution (verify_recipe rec bound)).
Proof.
  intros Hv. unfold verify_recipe. set (r0 := set_Recipe rec (newReport (ORecipe rec))).
  destruct (newReport_clean (ORecipe rec)) as [_ Hw].
  destruct (schema_quiet r0 (ORecipe rec)) as [[R [W _]] Hs]. cbn [Validate] in *.
  destruct (schema _ _) as [r ok]. cbn [fst snd] in *. rewrite (proj2 Hs (rv_schema _ _ Hv)).
  destruct (recipe_stages_verdict bound rec r) as [W2 _]; [by rewrite R..|].
  destruct (Report.finish_spec (recipe_stages bound rec r)) as [_ _ _ _ _ _ (_ & _ & _ & ->)]; [apply W2, W, Hw|].
  apply recipe_stages_resolution; [by rewrite R..|]. apply (rv_fields _ _ Hv).
Qed.
End verifier.

(** The compiler emits what was verified: lemmas on the builder, and the steps and
    connector configurations it emits for a deployable recipe. *)

(** ** Configurations *)

(** A configuration before interfaces and a connection are added. *)
Definition strip (c : ConnectorConfig) : ConnectorConfig :=
  mkConnectorConfig (cc_Endpoint c) (cc_Name c) (cc_Version c) (cc_Runtime c) (cc_SecretRef c) [] (cc_Prohibited c)
    (cc_Limits c) (cc_Metered c) "" "".

(** No aliases, and every configuration is its endpoint's manifest's. *)
Definition configs_ok (C : gmap string ConnectorManifest) (b : builder) : Prop :=
  b_alias b = ∅ /\
  forall ep cfg, b_connectors b !! ep = Some cfg -> exists m, C !! ep = Some m /\ strip cfg = new_config ep m.

(** Configurations stay, and their interfaces. *)
Definition keeps (b b' : builder) : Prop :=
  forall ep cfg, b_connectors b !! ep = Some cfg ->
    exists cfg', b_connectors b' !! ep = Some cfg' /\ cc_Interfaces cfg ⊆ cc_Interfaces cfg'.

(** A step of the builder. *)
Definition builds (C : gmap string ConnectorManifest) (b b' : builder) : Prop :=
  configs_ok C b -> configs_ok C b' /\ keeps b b'.

#[export] Instance keeps_refl : Reflexive keeps.
Proof. intros b ep cfg H. by exists cfg. Qed.

Lemma keeps_trans b1 b2 b3 : keeps b1 b2 -> keeps b2 b3 -> keeps b1 b3.
Proof.
  intros H1 H2 ep cfg H. destruct (H1 ep cfg H) as (c2 & Hc2 & S2). destruct (H2 ep c2 Hc2) as (c3 & Hc3 & S3).
  exists c3. split; [done|]. by etransitivity.
Qed.

Lemma builds_trans C b1 b2 b3 : builds C b1 b2 -> builds C b2 b3 -> builds C b1 b3.
Proof.
  intros H1 H2 Hb. destruct (H1 Hb) as [Hb2 K1]. destruct (H2 Hb2) as [Hb3 K2]. split; [done|]. by apply (keeps_trans _ b2).
Qed.

(** Whatever leaves connectors and aliases alone. *)
Lemma builds_same C b b' : b_connectors b' = b_connectors b -> b_alias b' = b_alias b -> builds C b b'.
Proof.
  intros Hc Ha [H1 H2]. split; [split; [by rewrite Ha|by rewrite Hc]|]. intros ep cfg H. exists cfg. by rewrite Hc.
Qed.

Lemma builds_fold {X} C (f : builder -> X -> builder) l b :
  (forall b x, x ∈ l -> builds C b (f b x)) -> builds C b (fold_left f l b).
Proof.
  revert b. induction l as [|x l IH]; intros b Hf; cbn [fold_left].
  - apply builds_same; done.
  - apply (builds_trans C b (f b x)); [apply Hf; left|]. apply IH. intros b' y Hy. apply Hf. by right.
Qed.

Lemma endpoint_no_alias b name : b_alias b = ∅ -> endpoint b name = name.
Proof. intros Ha. unfold endpoint. by rewrite Ha, lookup_empty. Qed.

Lemma add_interface_in ifc l : ifc <> "" -> ifc ∈ add_interface ifc l.
Proof.
  intros Hne. unfold add_interface. apply String.eqb_neq in Hne. rewrite Hne. cbn [negb andb].
  destruct (contains l ifc) eqn:Hc; cbn [negb]; [by apply contains_in|].
  rewrite (sort_strings_perm _). set_solver.
Qed.

Lemma add_interface_sub ifc l : l ⊆ add_interface ifc l.
Proof.
  unfold add_interface. destruct (_ && _); [|done]. intros x Hx. rewrite (sort_strings_perm _). set_solver.
Qed.

Lemma connector_builds C ep m ifc b : C !! ep = Some m -> builds C b (connector ep m ifc b).
Proof.
  intros Hm [Ha Hb]. unfold connector. rewrite endpoint_no_alias by done. cbv zeta. cbn. split; [split; [done|]|].
  - intros k cfg. cbn. destruct (decide (ep = k)) as [<-|N].
    + rewrite lookup_insert_eq. intros [= <-]. exists m. split; [done|].
      destruct (b_connectors b !! ep) as [c|] eqn:Hc; [|done].
      destruct (Hb ep c Hc) as (m' & Hm' & Hs). rewrite Hm in Hm'. injection Hm' as <-. by rewrite <- Hs.
    + rewrite lookup_insert_ne by done. apply Hb.
  - intros k cfg Hc. cbn. destruct (decide (ep = k)) as [<-|N].
    + rewrite lookup_insert_eq, Hc. eexists. split; [done|]. apply add_interface_sub.
    + rewrite lookup_insert_ne by done. by exists cfg.
Qed.

Lemma connector_uses ep m ifc b :
  b_alias b = ∅ -> exists cfg, b_connectors (connector ep m ifc b) !! ep = Some cfg /\ (ifc <> "" -> ifc ∈ cc_Interfaces cfg).
Proof.
  intros Ha. unfold connector. rewrite endpoint_no_alias by done. cbn. rewrite lookup_insert_eq.
  eexists. split; [done|]. apply add_interface_in.
Qed.

Lemma configure_builds C ep conn b : builds C b (configure ep conn b).
Proof.
  intros [Ha Hb]. unfold configure. rewrite endpoint_no_alias by done. cbv zeta. split; [split; [done|]|].
  - intros k cfg. cbn. destruct (b_connectors b !! ep) as [c|] eqn:Hc; [|apply Hb].
    destruct (decide (ep = k)) as [<-|N]; [|rewrite lookup_insert_ne by done; apply Hb].
    rewrite lookup_insert_eq. intros [= <-]. apply (Hb ep c Hc).
  - intros k cfg Hc. cbn. destruct (b_connectors b !! ep) as [c|] eqn:Hcc; [|by exists cfg].
    destruct (decide (ep = k)) as [<-|N]; [|rewrite lookup_insert_ne by done; by exists cfg].
    rewrite lookup_insert_eq. rewrite Hc in Hcc. injection Hcc as <-. eexists. split; [done|]. done.
Qed.

Section compiler.
Context `{E : Externals} `{K : Encoders} `{O : Visits} `{V : Verifier}.

(** The law of map iteration: every entry once. *)
Definition visits_all : Prop := forall A (m : gmap string A), visit m ≡ₚ map_to_list m.

Lemma visit_in {A} (m : gmap string A) k x : visits_all -> ((k, x) ∈ visit m <-> m !! k = Some x).
Proof. intros H. rewrite (H A m). apply elem_of_map_to_list. Qed.

Lemma offer_all_builds C conns b : builds C b (offer_all conns b).
Proof. apply builds_fold. intros b' [ep m] _. by apply builds_same. Qed.

Lemma extension_builds C p b : builds C b (extension p b).
Proof.
  unfold extension, deploy. destruct (existsb _ _); [by apply builds_same|].
  destruct (deployment p "") as [d err]. by apply builds_same.
Qed.

Lemma read_tools_builds C b : visits_all -> builds C b (read_tools C b).
Proof.
  intros Hall. apply builds_fold. intros b' [[ep m] op] Hin.
  assert (Hm : C !! ep = Some m).
  { unfold operations_of in Hin. apply list_elem_of_In, List.in_concat in Hin as (l & Hl & Hin).
    apply List.in_map_iff in Hl as ([ep' m'] & <- & Hx). apply List.in_map_iff in Hin as (op' & [= -> -> ->] & _).
    apply list_elem_of_In in Hx. by apply visit_in in Hx. }
  unfold read_tool. destruct (negb _); [by apply builds_same|].
  eapply builds_trans; [by apply (connector_builds C ep m (op_Interface op))|]. by apply builds_same.
Qed.

Lemma compile_offers_builds C res b :
  visits_all -> res_Connectors res = C -> builds C b (compile_offers res b).
Proof.
  intros Hall HC. unfold compile_offers. cbv zeta. rewrite HC.
  eapply builds_trans; [apply offer_all_builds|].
  eapply builds_trans; [apply (builds_fold C (fun b p => extension p b)); intros b' p _; apply extension_builds|].
  eapply builds_trans; [by apply read_tools_builds|].
  apply builds_fold. intros b' [ep conn] _. apply configure_builds.
Qed.

(** ** Steps *)

(** A write configuration that carries a verified write of the recipe. *)
Definition write_emitted (bound : gmap string ConnectorManifest) (rec : Recipe) (w : WriteStep) (wc : WriteConfig) : Prop :=
  wc_Endpoint wc = ws_Target w /\ wc_Operation wc = ws_Operation w /\ wc_IdempotencyKey wc = ws_IdempotencyKey w /\
  wc_Output wc = ws_Output w /\ wc_Amount wc = ws_Amount w /\ wc_CheckAmount wc = ws_CheckAmount w /\
  exists m op ifc cop,
    endpoint_manifest bound rec (wc_Endpoint wc) = Some m /\ wc_Connector wc = om_Name (cm_Metadata m) /\
    find_operation m (wc_Operation wc) = Some op /\ op_Direction op = DirectionWrite /\
    wc_Interface wc = op_Interface op /\ wc_Risk wc = op_Risk op /\ wc_Entity wc = op_Entity op /\
    Permitted m DirectionWrite (wc_Interface wc) = Ok ifc /\
    find_operation m (wc_Compensation wc) = Some cop /\ op_Direction cop = DirectionWrite /\
    (wc_Risk wc = RiskHigh -> wc_Approval wc <> ApprovalNone) /\
    wc_Simulation wc = (if ws_Simulate w then if_Simulation ifc else "").

(** The configuration of a write's endpoint: its manifest's, with the interfaces of the
    write and of its undo. *)
Definition configured_for (bound : gmap string ConnectorManifest) (rec : Recipe) (wc : WriteConfig) (cfg : ConnectorConfig)
    : Prop :=
  exists m cop, endpoint_manifest bound rec (wc_Endpoint wc) = Some m /\
    find_operation m (wc_Compensation wc) = Some cop /\
    strip cfg = new_config (wc_Endpoint wc) m /\
    (wc_Interface wc <> "" -> wc_Interface wc ∈ cc_Interfaces cfg) /\
    (op_Interface cop <> "" -> op_Interface cop ∈ cc_Interfaces cfg).

(** What a step of the workflow is, for a step of the recipe. *)
Definition step_emitted (bound : gmap string ConnectorManifest) (rec : Recipe) (s : Step) (st : WorkflowStep)
    : Prop :=
  match s_Map s, s_Resolve s, s_Write s with
  | Some ms, _, _ => exists mp, get_Mapping v_cat (ms_Mapping ms) = Ok mp /\ wst_Map st = Some (map_config ms mp) /\
      wst_Resolve st = None /\ wst_Write st = None
  | None, Some rs, _ => wst_Map st = None /\ wst_Resolve st = Some (resolve_config rs) /\ wst_Write st = None
  | None, None, Some w => wst_Map st = None /\ wst_Resolve st = None /\
      exists wc, wst_Write st = Some wc /\ write_emitted bound rec w wc
  | None, None, None => wst_Map st = None /\ wst_Resolve st = None /\ wst_Write st = None
  end.

(** Every write of the steps has its configuration. *)
Definition steps_configured (bound : gmap string ConnectorManifest) (rec : Recipe) (b : builder) (steps : list WorkflowStep)
    : Prop :=
  forall st wc, st ∈ steps -> wst_Write st = Some wc ->
    exists cfg, b_connectors b !! wc_Endpoint wc = Some cfg /\
      exists m cop, endpoint_manifest bound rec (wc_Endpoint wc) = Some m /\
        find_operation m (wc_Compensation wc) = Some cop /\
        (wc_Interface wc <> "" -> wc_Interface wc ∈ cc_Interfaces cfg) /\
        (op_Interface cop <> "" -> op_Interface cop ∈ cc_Interfaces cfg).

Lemma steps_configured_keeps bound rec b b' steps :
  keeps b b' -> steps_configured bound rec b steps -> steps_configured bound rec b' steps.
Proof.
  intros Hk Hs st wc Hin Hw. destruct (Hs st wc Hin Hw) as (cfg & Hc & m & cop & Hm & Hcop & Hi & Hj).
  destruct (Hk _ _ Hc) as (cfg' & Hc' & Hsub). exists cfg'. split; [done|]. exists m, cop.
  split; [done|]. split; [done|]. split; intros; apply Hsub; auto.
Qed.

Lemma compile_step_emitted bound rec res st ix producing d threshold :
  let C := connectors bound rec in
  resolution_ok bound rec res -> snd ix ∈ rc_Steps (r_Spec rec) ->
  (forall w, s_Write (snd ix) = Some w -> ws_Target w ∈ Endpoints rec) ->
  write_verified bound rec producing (snd ix) -> doc_ok threshold d (snd ix) ->
  let '(b, _, steps) := st in
  configs_ok C b -> steps_configured bound rec b steps ->
  exists b' doc' s', compile_step res st ix = Some (b', doc', steps ++ [s']) /\
    step_emitted bound rec (snd ix) s' /\ configs_ok C b' /\ keeps b b' /\
    steps_configured bound rec b' (steps ++ [s']).
Proof.
  cbv zeta. intros Hres Hin Hep Hw Hd. destruct st as [[b doc] steps]. intros Hb Hsteps. pose proof Hb as [Ha _].
  set (C := connectors bound rec) in *. unfold compile_step, step_emitted.
  assert (Hno : forall s', wst_Write s' = None -> steps_configured bound rec b (steps ++ [s'])).
  { intros s' Hs' st wc Hst Hwc. apply elem_of_app in Hst as [Hst|Hst]; [by apply (Hsteps st wc)|].
    apply list_elem_of_singleton in Hst as ->. congruence. }
  destruct (s_Map (snd ix)) as [ms|] eqn:Hms.
  { destruct (ro_mappings _ _ _ Hres (snd ix) ms Hin Hms) as (mp & Hmp & Hg). rewrite Hmp.
    do 3 eexists. split; [done|]. split; [by exists mp|]. split; [done|]. split; [reflexivity|]. by apply Hno. }
  destruct (s_Resolve (snd ix)) as [rs|].
  { do 3 eexists. split; [done|]. split; [done|]. split; [done|]. split; [reflexivity|]. by apply Hno. }
  destruct (s_Write (snd ix)) as [w|] eqn:Hws.
  2: { do 3 eexists. split; [done|]. split; [done|]. split; [done|]. split; [reflexivity|]. by apply Hno. }
  destruct (Hw w Hws) as (m & Hm & (op & ifc & Hop & Hdir & Hperm & _ & _ & (Hcne & cop & Hcop & Hcdir) & Happ) & _).
  assert (HC : C !! ws_Target w = Some m) by (apply connectors_lookup; auto).
  rewrite (ro_connectors _ _ _ Hres). fold C. rewrite HC. unfold compile_write. rewrite Hop.
  change (default zero_operation (Some op)) with op. cbv zeta. rewrite Hcop.
  set (b1 := connector (ws_Target w) m (op_Interface cop) b).
  destruct (connector_builds C (ws_Target w) m (op_Interface cop) b HC Hb) as [Hb1 K1].
  destruct (connector_uses (ws_Target w) m (op_Interface cop) b Ha) as (cfg1 & Hc1 & Hi1). fold b1 in Hb1, K1, Hc1.
  pose proof Hb1 as [Ha1 _].
  set (b2 := connector (ws_Target w) m (op_Interface op) b1).
  destruct (connector_builds C (ws_Target w) m (op_Interface op) b1 HC Hb1) as [Hb2 K2].
  destruct (connector_uses (ws_Target w) m (op_Interface op) b1 Ha1) as (cfg2 & Hc2 & Hi2). fold b2 in Hb2, K2, Hc2.
  set (b3 := writeTool _ op _ doc w b2).
  assert (Hb3 : configs_ok C b3 /\ keeps b2 b3) by (apply (builds_same C b2 b3); done).
  destruct Hb3 as [Hb3 K3]. assert (KK : keeps b b3) by (apply (keeps_trans _ b2); [by apply (keeps_trans _ b1)|done]).
  do 3 eexists. split; [done|].
  assert (Hep' : endpoint b1 (ws_Target w) = ws_Target w) by (by apply endpoint_no_alias).
  assert (Hem : write_emitted bound rec w (write_config b1 w m op)).
  { unfold write_emitted, write_config. cbn. rewrite Hep'. rewrite Hperm.
    assert (Hname : op_Name op = ws_Operation w) by (apply find_first_some in Hop as [_ Hn]; by apply String.eqb_eq).
    rewrite Hname. do 6 (split; [done|]). exists m, op, ifc, cop. repeat (split; [done|]). split; [|done].
    intros Hr. destruct (String.eqb_spec (ws_Approval w) ""); [done|]. by apply Happ. }
  split; [split; [done|]; split; [done|]; eauto|]. split; [done|]. split; [done|].
  intros st wc Hst Hwc. apply elem_of_app in Hst as [Hst|Hst].
  { by apply (steps_configured_keeps bound rec b b3 steps KK Hsteps st wc). }
  apply list_elem_of_singleton in Hst as ->. injection Hwc as <-.
  change (wc_Endpoint (write_config b1 w m op)) with (endpoint b1 (ws_Target w)). rewrite Hep'.
  change (wc_Compensation (write_config b1 w m op)) with (write_compensation w op).
  change (wc_Interface (write_config b1 w m op)) with (op_Interface op).
  destruct (K3 _ _ Hc2) as (cfg3 & Hc3 & S3). exists cfg3. split; [exact Hc3|]. exists m, cop.
  split; [done|]. split; [done|]. split; [intros; by apply S3, Hi2|].
  intros Hne. destruct (K2 _ _ Hc1) as (cfg2' & Hc2' & S2). rewrite Hc2 in Hc2'. injection Hc2' as <-.
  by apply S3, S2, Hi1.
Qed.

Lemma compile_steps_emitted bound rec res threshold l b doc steps producing d :
  let C := connectors bound rec in
  resolution_ok bound rec res ->
  (forall s w, s ∈ rc_Steps (r_Spec rec) -> s_Write s = Some w -> ws_Target w ∈ Endpoints rec) ->
  (forall s, s ∈ map snd l -> s ∈ rc_Steps (r_Spec rec)) ->
  along produces (write_verified bound rec) producing (map snd l) ->
  along doc_next (doc_ok threshold) d (map snd l) ->
  configs_ok C b -> steps_configured bound rec b steps ->
  exists b' doc' new, compile_steps res (b, doc, steps) l = Some (b', doc', steps ++ new) /\
    Forall2 (step_emitted bound rec) (map snd l) new /\ configs_ok C b' /\ keeps b b' /\
    steps_configured bound rec b' (steps ++ new).
Proof.
  cbv zeta. intros Hres Hep. revert b doc steps producing d.
  induction l as [|ix l IH]; intros b doc steps producing d Hin Hw Hd Hb Hst; cbn [compile_steps map along] in *.
  { exists b, doc, []. rewrite app_nil_r. split; [done|]. split; [constructor|]. done. }
  destruct Hw as [Hw1 Hw]. destruct Hd as [Hd1 Hd].
  destruct (compile_step_emitted bound rec res (b, doc, steps) ix producing d threshold Hres)
    as (b1 & doc1 & s1 & -> & Hem & Hb1 & K1 & Hst1); [apply Hin; left|intros w; apply Hep, Hin; left|done..|].
  destruct (IH b1 doc1 (steps ++ [s1]) _ _ (fun s Hs => Hin s ltac:(by right)) Hw Hd Hb1 Hst1)
    as (b2 & doc2 & new & -> & Hall & Hb2 & K2 & Hst2).
  rewrite <- app_assoc in *. exists b2, doc2, (s1 :: new). split; [done|]. split; [by constructor|]. split; [done|].
  split; [by apply (keeps_trans _ b1)|done].
Qed.

Lemma add_policies_fields l b :
  b_workflows (add_policies l b) = b_workflows b /\ b_connectors (add_policies l b) = b_connectors b /\
  b_alias (add_policies l b) = b_alias b.
Proof. revert b. induction l as [|p l IH]; intros b; [done|]. exact (IH (with_policy p b)). Qed.

Lemma compile_step_workflows res st ix st' :
  compile_step res st ix = Some st' -> b_workflows (fst (fst st')) = b_workflows (fst (fst st)).
Proof.
  destruct st as [[b doc] steps]. unfold compile_step, compile_write. cbv zeta.
  repeat case_match; intros [= <-]; done.
Qed.

Lemma compile_steps_workflows res l st st' :
  compile_steps res st l = Some st' -> b_workflows (fst (fst st')) = b_workflows (fst (fst st)).
Proof.
  revert st. induction l as [|ix l IH]; intros st; cbn [compile_steps]; [by intros [= <-]|].
  destruct (compile_step res st ix) as [st1|] eqn:H1; [|done]. intros H2.
  rewrite (IH st1 H2). by apply (compile_step_workflows res st ix).
Qed.

Lemma fold_workflows {X} (f : builder -> X -> builder) l b :
  (forall b x, b_workflows (f b x) = b_workflows b) -> b_workflows (fold_left f l b) = b_workflows b.
Proof. intros Hf. revert b. induction l as [|x l IH]; intros b; cbn; [done|]. by rewrite IH, Hf. Qed.

Lemma compile_offers_workflows res b : b_workflows (compile_offers res b) = b_workflows b.
Proof.
  unfold compile_offers, offer_all, read_tools, configure_all. cbv zeta. rewrite !fold_workflows; [done|..].
  - by intros b' [ep m].
  - intros b' p. unfold extension, deploy. destruct (existsb _ _); [done|]. by destruct (deployment p "").
  - intros b' [[ep m] op]. unfold read_tool. by destruct (negb _).
  - by intros b' [ep conn].
Qed.

(** What is built of a recipe with no aliases: one workflow more, its steps those of the
    recipe, each write with its endpoint's configuration. *)
Lemma compile_recipe_emitted bound rec res b :
  let C := connectors bound rec in
  visits_all -> recipe_verified bound rec -> resolution_ok bound rec res -> configs_ok C b ->
  exists b' wf, compile_recipe rec res b = Some b' /\ b_workflows b' = b_workflows b ++ [wf] /\
    wf_Name wf = om_Name (r_Metadata rec) /\ Forall2 (step_emitted bound rec) (rc_Steps (r_Spec rec)) (wf_Steps wf) /\
    configs_ok C b' /\ steps_configured bound rec b' (wf_Steps wf).
Proof.
  cbv zeta. intros Hall Hv Hres Hb. set (C := connectors bound rec) in *.
  destruct (Validate_recipe_decides rec) as (Hval & _ & Hep).
  pose proof (proj1 Hval (rv_schema _ _ Hv)) as (_ & (Hsrc & _) & (_ & Hsteps) & _).
  destruct (rv_trigger _ _ Hv) as (src & Hs & _).
  assert (HC : C !! tr_Source (rc_Trigger (r_Spec rec)) = Some src) by (apply connectors_lookup; split; [apply Hep; auto|done]).
  unfold compile_recipe. cbv zeta. rewrite (ro_connectors _ _ _ Hres). fold C. rewrite HC.
  set (ev := default zero_event _). set (trigger := source_of b rec src ev).
  set (b1 := with_topic _ (connector _ src (ev_Interface ev) b)).
  destruct (connector_builds C _ src (ev_Interface ev) b HC Hb) as [Hb1 _].
  change (configs_ok C b1) in Hb1. clear Hb.
  assert (Hw1 : b_workflows b1 = b_workflows b) by done. clearbody b1.
  assert (Hsnd : map snd (indexed (rc_Steps (r_Spec rec))) = rc_Steps (r_Spec rec)) by apply indexed_snd.
  destruct (compile_steps_emitted bound rec res (threshold_of rec) (indexed (rc_Steps (r_Spec rec))) b1 None [] "" (None, ""))
    as (b2 & doc & steps & Heq & Hem & Hb2 & _ & Hconf); try done.
  - intros s w Hin Hw. apply Hep. split.
    + rewrite Forall_forall in Hsteps.
      destruct (Hsteps s Hin) as [(x & -> & _)|[(x & -> & _)|(x & -> & Hx)]]; [done..|].
      cbn in Hw. injection Hw as ->. by destruct Hx as (? & _).
    + right. eauto.
  - by rewrite Hsnd.
  - rewrite Hsnd. apply (rv_writes _ _ Hv).
  - rewrite Hsnd. apply (rv_fields _ _ Hv).
  - intros st wc Hst. by apply elem_of_nil in Hst.
  - rewrite Heq. rewrite Hsnd in Hem. cbn [app] in *.
    destruct (compile_offers_builds C res b2 Hall (ro_connectors _ _ _ Hres) Hb2) as [Hb3 K3].
    pose proof (compile_steps_workflows _ _ _ _ Heq) as Hw2. cbn [fst] in Hw2.
    pose proof (compile_offers_workflows res b2) as Hw3. set (b3 := compile_offers res b2) in *. clearbody b3.
    set (wf := mkWorkflow _ trigger steps _ _).
    destruct (add_policies_fields (res_Policies res) (with_workflow wf (monitors_of rec) b3)) as (P1 & P2 & P3).
    exists (add_policies (res_Policies res) (with_workflow wf (monitors_of rec) b3)), wf.
    split; [done|]. split; [rewrite P1; cbn; congruence|]. split; [done|]. split; [done|].
    assert (Hb4 : builds C b3 (add_policies (res_Policies res) (with_workflow wf (monitors_of rec) b3)))
      by (by apply builds_same).
    destruct (Hb4 Hb3) as [H4 K4]. split; [done|].
    apply (steps_configured_keeps bound rec b2); [|done]. by apply (keeps_trans _ b3).
Qed.
End compiler.

(** What compilation promises for a recipe, and where it and its documentation part. *)

(** What compilation promises for a recipe: refusal exactly when verification refuses,
    no panic otherwise, and a spec whose steps are the verified ones, each write over a
    configured connector. *)

Section compiler.
Context `{E : Externals} `{K : Encoders} `{O : Visits}.

Lemma write_emitted_wire `{V : Verifier} plugins bound rec w wc :
  write_emitted bound rec w wc -> write_emitted bound rec w (wire_write plugins wc).
Proof. unfold wire_write. destruct (String.eqb _ _); [done|]. cbv zeta. by destruct (subscribers _ _). Qed.

Lemma configured_for_wire `{V : Verifier} plugins bound rec wc cfg :
  configured_for bound rec wc cfg -> configured_for bound rec (wire_write plugins wc) cfg.
Proof. unfold wire_write. destruct (String.eqb _ _); [done|]. cbv zeta. by destruct (subscribers _ _). Qed.

Lemma step_emitted_wire `{V : Verifier} plugins bound rec steps l :
  Forall2 (step_emitted bound rec) steps l ->
  Forall2 (step_emitted bound rec) steps (wf_Steps (wire_workflow plugins (mkWorkflow "" (mkWorkflowSource "" "" "" "" "") l None []))).
Proof.
  cbn [wf_Steps wire_workflow]. induction 1 as [|s st steps l Hs Hl IH]; cbn; constructor; [|done].
  unfold step_emitted in *. destruct (s_Map s) as [ms|].
  - destruct Hs as (mp & Hg & Hm & Hr & Hw). exists mp. cbn. by rewrite Hw.
  - destruct (s_Resolve s) as [rs|]; [destruct Hs as (Hm & Hr & Hw); cbn; by rewrite Hw|].
    destruct (s_Write s) as [w|].
    + destruct Hs as (Hm & Hr & wc & Hw & Hem). cbn. rewrite Hw. split; [done|]. split; [done|].
      exists (wire_write plugins wc). split; [done|]. by apply write_emitted_wire.
    + destruct Hs as (Hm & Hr & Hw). cbn. by rewrite Hw.
Qed.

Lemma notDeployable_is rep : errors_is (notDeployable rep) ErrNotDeployable = true.
Proof. unfold notDeployable. by destruct (Errors rep). Qed.

(** A spec that carries a verified recipe and nothing else. *)
Record emitted `{V : Verifier} (rec : Recipe) (spec : RuntimeSpec) : Prop := mkEmitted {
  em_kind : rs_Kind spec = KindRuntimeSpec;
  em_name : rm_Name (rs_Metadata spec) = om_Name (r_Metadata rec);
  em_digest : rm_Digest (rs_Metadata spec) = Digest (rs_Spec spec);
  em_level : rm_Level (rs_Metadata spec) = Level (verify_recipe rec ∅);
  em_steps : exists wf, rb_Workflows (rs_Spec spec) = [wf] /\
    Forall2 (step_emitted ∅ rec) (rc_Steps (r_Spec rec)) (wf_Steps wf) /\
    forall st wc, st ∈ wf_Steps wf -> wst_Write st = Some wc ->
      exists cfg, cfg ∈ rb_Connectors (rs_Spec spec) /\ configured_for ∅ rec wc cfg
}.

Lemma sort_by_in {A} (name : A -> string) l x : x ∈ sort_by name l <-> x ∈ l.
Proof. unfold sort_by. by rewrite (isort_perm _ l). Qed.

(** * Properties *)

End compiler.

(** * Witnesses *)

#[local] Instance plain : Encoders := {|
  module_digest := fun s => s;
  Digest := fun b => "sha256:" +++ String.concat "," (map wf_Name (rb_Workflows b) ++ map tl_Name (rb_Tools b));
  operation_key := fun _ _ => "";
  decode_spec := fun _ => Err (Sentinel "not JSON")
|}.
#[local] Instance by_key : Visits := {| visit := fun A m => map_to_list m |}.
#[local] Instance lenient_compiler : Externals := lenient.


(** Where compilation and its documentation part: the tools of operations that several
    recipes write, and slots named like another slot's connector. *)

Definition checked_write (tolerance : float64) : WriteStep :=
  mkWriteStep "crm" "create-order" "orderId" true "policy" "" "orderRef" "total" (Some (mkAmountCheck "amount" tolerance)).

(** The tolerance a write tool is left with after two recipes' writes. *)
Definition kept_tolerance (first second : float64) : option float64 :=
  let b := writeTool "crm" create_order "" None (checked_write second)
    (writeTool "crm" create_order "" None (checked_write first) newBuilder) in
  match b_tools b !! "crm/create-order" with
  | Some t => match tl_CheckAmount t with Some c => Some (ac_Tolerance c) | None => None end
  | None => None
  end.

(** The first check is kept, however loose; the code calls it the strictest. *)
Lemma first_check_kept : kept_tolerance 0.5%float 0.25%float = Some 0.5%float.
Proof. vm_compute. reflexivity. Qed.

(** ** A slot named like another slot's connector *)

(** The crm slot is filled by a plugin over connector sap-ecc, the erp slot by one over a
    connector that is called crm. *)
Definition crm_connector : ConnectorManifest :=
  mkConnectorManifest (cm_TypeMeta sap) (meta "crm" "0.4.1") (cm_Spec sap).

Definition crm_contract : SlotContract :=
  mkSlotContract (sc_TypeMeta erp) (meta "crm" "1.0.0") "" ["SalesOrder"] ["order-changed"]
    [mkContractAction "create-order" "SalesOrder" RiskLow].

Definition filling_plugin (name slot connector : string) : Plugin :=
  mkPlugin (mkTypeMeta APIVersion KindPlugin) (meta name "1.0.0")
    (mkPluginSpec PluginConnector PluginRuntimeContainer "" "" [slot +++ "@1"] connector []
       (mkPluginPermissions None None None []) (Some (mkPluginLimits 256 30000)) None).

(** Triggered by the erp slot, writing to the crm slot. *)
Definition erp_to_crm : Recipe :=
  mkRecipe (mkTypeMeta APIVersion KindRecipe) (meta "erp-to-crm" "1.0.0")
    (mkRecipeSpec (mkTrigger "erp" "order-changed") ∅
       [mkStep (Some (mkMapStep "sap.Order" "model.SalesOrder" "order-to-order@1")) None None;
        mkStep None None (Some (mkWriteStep "crm" "create-order" "orderId" true "policy" "" "orderRef" "total" None))]
       [] (Some 1%float) None []).

Definition two_slot_catalog : Catalog :=
  match FromDocuments [(OConnector sap, "sap.yaml"); (OConnector crm_connector, "crm.yaml"); (OMapping order_mapping, "map.yaml");
    (OContract erp, "erp.yaml"); (OContract crm_contract, "crm.yaml");
    (OPlugin (filling_plugin "sap-plugin" "crm" "sap-ecc@^0.4"), "sap-plugin.yaml");
    (OPlugin (filling_plugin "crm-plugin" "erp" "crm@^0.4"), "crm-plugin.yaml"); (ORecipe erp_to_crm, "recipe.yaml")]
  with Ok c => c | Err _ => Catalog.New end.

Definition two_slots : StackBlueprint :=
  mkStackBlueprint (mkTypeMeta APIVersion KindStackBlueprint) (meta "two-slots" "1.0.0") ""
    {[ "crm" := mkSlotBinding "sap-plugin" "1" ""; "erp" := mkSlotBinding "crm-plugin" "1" "" ]} [] ["erp-to-crm@1"] [].

#[local] Instance lenient_findings : Externals := lenient.
#[local] Instance findings_encoders : Encoders := {|
  module_digest := fun s => s; Digest := fun _ => ""; operation_key := fun _ _ => "";
  decode_spec := fun _ => Err (Sentinel "not JSON")
|}.
#[local] Instance findings_visits : Visits := {| visit := fun A m => map_to_list m |}.

(** Each write with the endpoint it goes to, and that endpoint's connector. *)
Definition routes (c : compiled) : list (string * string) :=
  match c with
  | Compiled (Some spec) _ _ =>
      List.concat (map (fun wf => omap (fun st => match wst_Write st with
          | Some w => match find_first (fun c => String.eqb (cc_Endpoint c) (wc_Endpoint w)) (rb_Connectors (rs_Spec spec)) with
              | Some cfg => Some (wc_Endpoint w, cc_Name cfg) | None => None end
          | None => None end) (wf_Steps wf)) (rb_Workflows (rs_Spec spec)))
  | _ => []
  end.

(** The recipe's write to the crm slot, verified against sap-ecc, goes to the erp slot's
    endpoint and its connector. *)
Lemma slot_alias_misroutes :
  routes (Compile two_slot_catalog (OBlueprint two_slots) (mkOptions 0%float 0%float 0%float order_reviews)) = [("erp", "crm")].
Proof. vm_compute. reflexivity. Qed.
