(* ===== verification/Reproducible.v ===== *)
(** The compiled spec does not depend on the order in which maps are visited. *)

From S2P Require Import Turgon Prelude GoStr GoErr GoTime Regex Semver Api ApiKinds ApiTheorems Catalog Report Verifier.
From S2P Require Import RecipeVerifier BlueprintVerifier VerifierProps VerifierTheorems RuntimeSpec Compiler.
From S2P Require Import CompileTheorems.
From Stdlib Require Import Ascii String.

(** Compilation does not depend on the order in which maps are visited: lemmas on the
    builder under two orders. *)

(** ** Sorting *)

Section sorting.
Context {A : Type} (le : A -> A -> bool).
Context (le_total : forall x y, le x y = true \/ le y x = true).
Context (le_trans : forall x y z, le x y = true -> le y z = true -> le x z = true).

Lemma insert_least x l : Forall (fun y => le x y = true) l -> insert_sorted le x l = x :: l.
Proof using. destruct 1 as [|y l Hy Hl]; cbn; [done|]. by rewrite Hy. Qed.

Lemma filter_insert p x l :
  ordered le l ->
  List.filter p (insert_sorted le x l) = if p x then insert_sorted le x (List.filter p l) else List.filter p l.
Proof using le_trans.
  induction 1 as [|y l Hl IH Hy]; cbn; [by destruct (p x)|].
  assert (Hsub : forall z, z ∈ List.filter p l -> z ∈ l) by (intros z Hz; apply filter_elem in Hz; tauto).
  destruct (le x y) eqn:Exy.
  - assert (Hle : Forall (fun z => le x z = true) l).
    { eapply Forall_impl; [exact Hy|]. intros z Hz. by apply (le_trans x y). }
    assert (Hf : Forall (fun z => le x z = true) (List.filter p l)).
    { rewrite Forall_forall in *. auto. }
    cbn. destruct (p x), (p y); cbn; rewrite ?Exy; rewrite ?insert_least; done.
  - cbn. rewrite IH. destruct (p x), (p y); cbn; rewrite ?Exy; done.
Qed.

(** Sorting and filtering commute. *)
Lemma filter_isort p l : List.filter p (isort le l) = isort le (List.filter p l).
Proof using le_total le_trans.
  induction l as [|x l IH]; cbn; [done|]. rewrite filter_insert by (by apply isort_ordered). rewrite IH. by destruct (p x).
Qed.

Lemma filter_perm (p : A -> bool) l1 l2 : l1 ≡ₚ l2 -> List.filter p l1 ≡ₚ List.filter p l2.
Proof using.
  induction 1 as [|x l1 l2 Hp IH|x y l|l1 l2 l3 H1 IH1 H2 IH2]; cbn; [done|..].
  - by destruct (p x); [constructor|].
  - destruct (p x), (p y); try done. apply Permutation_swap.
  - by etransitivity.
Qed.

Lemma find_first_filter (p : A -> bool) l : find_first p l = head (List.filter p l).
Proof using. induction l as [|x l IH]; cbn; [done|]. by destruct (p x). Qed.

(** The first match of a sorted list does not depend on the order before sorting, when
    no two matches tie. *)
Lemma find_isort_perm p l1 l2 :
  (forall x y, x ∈ l1 -> y ∈ l1 -> p x = true -> p y = true -> le x y = true -> le y x = true -> x = y) ->
  l1 ≡ₚ l2 -> find_first p (isort le l1) = find_first p (isort le l2).
Proof using le_total le_trans.
  intros Hanti Hp. rewrite !find_first_filter, !filter_isort. f_equal. apply isort_unique; [done|done|..].
  - intros x y Hx Hy. apply filter_elem in Hx as [? ?]. apply filter_elem in Hy as [? ?]. auto.
  - by apply filter_perm.
Qed.
End sorting.

Lemma sort_by_unique {A} (name : A -> string) (l1 l2 : list A) :
  NoDup (map name l1) -> l1 ≡ₚ l2 -> sort_by name l1 = sort_by name l2.
Proof.
  intros Hnd Hp. apply isort_unique; [intros; apply str_le_total|intros x y z; apply str_le_trans| |done].
  intros x y Hx Hy H1 H2. pose proof (str_le_antisym _ _ H1 H2) as E.
  apply list_elem_of_lookup in Hx as [i Hi]. apply list_elem_of_lookup in Hy as [j Hj].
  assert (i = j) as ->; [|congruence].
  eapply (NoDup_lookup (map name l1)); [done|exact (list_lookup_fmap_Some_2 name l1 i x Hi)|].
  rewrite E. exact (list_lookup_fmap_Some_2 name l1 j y Hj).
Qed.

(** ** Builders that differ in the order of entity operations *)

Definition ops_at (ops : gmap string (list entityOp)) (e : string) : list entityOp := default [] (ops !! e).

(** An entity operation's identity: its endpoint and its name. *)
Definition op_key (o : entityOp) : string * string := (eop_endpoint o, op_Name (eop_op o)).

Definition same_ops (o1 o2 : gmap string (list entityOp)) : Prop := forall e, ops_at o1 e ≡ₚ ops_at o2 e.

Definition ops_distinct (ops : gmap string (list entityOp)) : Prop := forall e, NoDup (map op_key (ops_at ops e)).

Definition set_ops (ops : gmap string (list entityOp)) (b : builder) : builder := with_entityOps (fun _ => ops) b.

(** Equal but for the order of each entity's operations. *)
Definition sim (b1 b2 : builder) : Prop :=
  exists ops, b2 = set_ops ops b1 /\ same_ops (b_entityOps b1) ops.

Lemma set_ops_self b : set_ops (b_entityOps b) b = b.
Proof. by destruct b. Qed.

Lemma sim_refl b : sim b b.
Proof. exists (b_entityOps b). split; [by rewrite set_ops_self|]. by intros e. Qed.

(** A builder function that neither reads nor writes entity operations. *)
Definition blind (f : builder -> builder) : Prop :=
  forall b ops, f (set_ops ops b) = set_ops ops (f b) /\ b_entityOps (f b) = b_entityOps b.

Lemma blind_sim f b1 b2 : blind f -> sim b1 b2 -> sim (f b1) (f b2).
Proof.
  intros Hf (ops & -> & Hs). destruct (Hf b1 ops) as [H1 H2]. exists ops. rewrite H1, H2. done.
Qed.

Lemma blind_fold {X} (f : builder -> X -> builder) l :
  (forall x, blind (fun b => f b x)) -> blind (fun b => fold_left f l b).
Proof.
  intros Hf. induction l as [|x l IH]; intros b ops; cbn; [done|].
  destruct (Hf x b ops) as [H1 H2]. rewrite H1. destruct (IH (f b x) ops) as [H3 H4]. by rewrite H3, H4, H2.
Qed.

Section compiler.
Context `{E : Externals} `{K : Encoders}.

Lemma connector_blind ep m ifc : blind (connector ep m ifc).
Proof. by intros b ops. Qed.

Lemma configure_blind ep conn : blind (configure ep conn).
Proof. by intros b ops. Qed.

Lemma extension_blind p : blind (extension p).
Proof.
  intros b ops. unfold extension, deploy. cbn [set_ops with_entityOps b_plugins].
  destruct (existsb _ _); [done|]. by destruct (deployment p "").
Qed.

Lemma read_tool_blind x : blind (fun b => read_tool b x).
Proof. intros b ops. destruct x as [[ep m] op]. unfold read_tool. by destruct (negb _). Qed.

(** The steps of a recipe do not look at entity operations. *)
Definition set_state (ops : gmap string (list entityOp)) (st : step_state) : step_state :=
  let '(b, doc, steps) := st in (set_ops ops b, doc, steps).

Lemma compile_step_blind res st ix ops :
  compile_step res (set_state ops st) ix = match compile_step res st ix with Some st => Some (set_state ops st) | None => None end /\
  forall st', compile_step res st ix = Some st' -> b_entityOps (fst (fst st')) = b_entityOps (fst (fst st)).
Proof.
  destruct st as [[b doc] steps]. unfold compile_step, set_state, compile_write. cbv zeta.
  repeat case_match; simplify_eq; (split; [done|by intros ? [= <-]]).
Qed.

Lemma compile_steps_blind res l st ops :
  compile_steps res (set_state ops st) l =
    match compile_steps res st l with Some st => Some (set_state ops st) | None => None end /\
  forall st', compile_steps res st l = Some st' -> b_entityOps (fst (fst st')) = b_entityOps (fst (fst st)).
Proof.
  revert st. induction l as [|ix l IH]; intros st; cbn [compile_steps]; [split; [done|by intros ? [= <-]]|].
  destruct (compile_step_blind res st ix ops) as [H1 H2]. rewrite H1.
  destruct (compile_step res st ix) as [st1|]; [|done]. destruct (IH st1) as [H3 H4]. split; [done|].
  intros st' H. rewrite (H4 st' H). by apply H2.
Qed.

(** ** Entity operations *)

(** Where operations come from: endpoint by endpoint, one manifest with distinct names. *)
Definition manifests_ok (M : gmap string ConnectorManifest) : Prop :=
  forall ep m, M !! ep = Some m ->
    NoDup (map op_Name (cs_Operations (cm_Spec m))) /\
    Forall (fun op => contains_byte "/" (op_Name op) = false) (cs_Operations (cm_Spec m)).

Lemma valid_manifests_ok M : (forall ep m, M !! ep = Some m -> Validate_connector m = []) -> manifests_ok M.
Proof.
  intros Hv ep m Hm. apply Hv, manifest_nil in Hm as (_ & _ & _ & Hnd & Hops & _). split; [done|].
  eapply Forall_impl; [exact Hops|]. intros op (Hn & _). apply (str_all_not_contains lower_digit_dash); [|done].
  apply (lang_within _ nameRE); [done|]. unfold lower_digit_dash. cbn. split; [|split; [done|split]].
  all: intros c Hc; unfold lower_digit_dash in *; rewrite Hc || idtac; try done; by rewrite ?orb_true_l.
Qed.

Definition from_manifest (M : gmap string ConnectorManifest) (o : entityOp) : Prop :=
  exists m, M !! eop_endpoint o = Some m /\ eop_op o ∈ cs_Operations (cm_Spec m).

Definition ops_ok (M : gmap string ConnectorManifest) (ops : gmap string (list entityOp)) : Prop :=
  ops_distinct ops /\ forall e o, o ∈ ops_at ops e -> from_manifest M o.

Lemma named_unique (l : list Operation) op1 op2 :
  NoDup (map op_Name l) -> op1 ∈ l -> op2 ∈ l -> op_Name op1 = op_Name op2 -> op1 = op2.
Proof.
  intros Hnd H1 H2 En. apply list_elem_of_lookup in H1 as [i Hi]. apply list_elem_of_lookup in H2 as [j Hj].
  assert (i = j) as ->; [|congruence].
  eapply (NoDup_lookup (map op_Name l)); [done|exact (list_lookup_fmap_Some_2 op_Name l i op1 Hi)|].
  rewrite En. exact (list_lookup_fmap_Some_2 op_Name l j op2 Hj).
Qed.

Lemma key_unique M o1 o2 : manifests_ok M -> from_manifest M o1 -> from_manifest M o2 -> op_key o1 = op_key o2 -> o1 = o2.
Proof.
  intros HM (m1 & Hm1 & H1) (m2 & Hm2 & H2) [= Ee En]. destruct o1 as [e1 op1], o2 as [e2 op2]. cbn in *. subst e2.
  rewrite Hm1 in Hm2. injection Hm2 as <-. f_equal. by apply (named_unique _ op1 op2 (proj1 (HM _ _ Hm1))).
Qed.

Lemma offer_ok M ep op ops :
  manifests_ok M -> ops_ok M ops -> from_manifest M (mkEntityOp ep op) ->
  ops_ok M (offer ep ops op) /\
  forall e o, o ∈ ops_at (offer ep ops op) e <->
    o ∈ ops_at ops e \/ (o = mkEntityOp ep op /\ op_Entity op = e /\ e <> "").
Proof.
  intros HM [Hd Hf] Hnew. unfold offer. destruct (String.eqb_spec (op_Entity op) "") as [E0|N0].
  { split; [done|]. intros e o. split; [auto|]. intros [?|(_ & <- & ?)]; done. }
  cbv zeta. fold (ops_at ops (op_Entity op)). destruct (existsb _ _) eqn:Hex.
  - split; [done|]. intros e o. split; [auto|]. intros [?|(-> & <- & _)]; [done|].
    apply List.existsb_exists in Hex as (x & Hx & Hk). apply list_elem_of_In in Hx. bools.
    assert (x = mkEntityOp ep op) as <-; [|done].
    apply (key_unique M); [done|by apply (Hf (op_Entity op))|done|]. unfold op_key. cbn. congruence.
  - assert (Hat : forall e, ops_at (<[op_Entity op := ops_at ops (op_Entity op) ++ [mkEntityOp ep op]]> ops) e =
        if String.eqb (op_Entity op) e then ops_at ops e ++ [mkEntityOp ep op] else ops_at ops e).
    { intros e. unfold ops_at at 1. destruct (String.eqb_spec (op_Entity op) e) as [<-|N];
        [by rewrite lookup_insert_eq|by rewrite lookup_insert_ne]. }
    split; [split|].
    + intros e. rewrite Hat. destruct (String.eqb_spec (op_Entity op) e) as [<-|N]; [|apply Hd].
      rewrite map_app. apply NoDup_app. split; [apply Hd|]. split; [|apply NoDup_singleton].
      intros k Hk Hk'. apply list_elem_of_singleton in Hk' as ->. apply list_elem_of_fmap in Hk as (x & Ek & Hx).
      apply Bool.not_true_iff_false in Hex. apply Hex, List.existsb_exists. exists x.
      split; [by apply list_elem_of_In|]. injection Ek as E1 E2. cbn in *.
      by rewrite E1, E2, !String.eqb_refl.
    + intros e o. rewrite Hat. destruct (String.eqb_spec (op_Entity op) e) as [<-|N]; [|apply Hf].
      rewrite elem_of_app, list_elem_of_singleton. intros [?| ->]; [by apply (Hf (op_Entity op))|done].
    + intros e o. rewrite Hat. destruct (String.eqb_spec (op_Entity op) e) as [<-|N].
      * rewrite elem_of_app, list_elem_of_singleton. naive_solver.
      * split; [auto|]. by intros [?|(_ & ? & _)].
Qed.

(** Offering a list of (endpoint, operation) pairs. *)
Definition offer_pairs (l : list (string * Operation)) (ops : gmap string (list entityOp)) : gmap string (list entityOp) :=
  fold_left (fun ops p => offer (fst p) ops (snd p)) l ops.

Lemma offer_pairs_ok M l ops :
  manifests_ok M -> ops_ok M ops -> Forall (fun p => from_manifest M (mkEntityOp (fst p) (snd p))) l ->
  ops_ok M (offer_pairs l ops) /\
  forall e o, o ∈ ops_at (offer_pairs l ops) e <->
    o ∈ ops_at ops e \/ exists p, p ∈ l /\ o = mkEntityOp (fst p) (snd p) /\ op_Entity (snd p) = e /\ e <> "".
Proof.
  intros HM. revert ops. induction l as [|p l IH]; intros ops Hok Hl; cbn [offer_pairs fold_left].
  { split; [done|]. intros e o. split; [auto|]. intros [?|(p & Hp & _)]; [done|]. by apply elem_of_nil in Hp. }
  inversion Hl as [|?? Hp Hl']; subst. destruct (offer_ok M (fst p) (snd p) ops HM Hok Hp) as [Hok1 Hin1].
  destruct (IH _ Hok1 Hl') as [Hok2 Hin2]. split; [done|]. intros e o. fold (offer_pairs l (offer (fst p) ops (snd p))).
  rewrite Hin2, Hin1. split.
  - intros [[?|(? & ? & ?)]|(q & Hq & ?)]; [auto|right; exists p; split; [left|done]|right; exists q; split; [by right|done]].
  - intros [?|(q & Hq & ? & ? & ?)]; [auto|]. apply elem_of_cons in Hq as [->|Hq]; [auto|right; exists q; auto].
Qed.

Lemma keyed_perm (l1 l2 : list entityOp) :
  NoDup (map op_key l1) -> NoDup (map op_key l2) -> (forall o, o ∈ l1 <-> o ∈ l2) -> l1 ≡ₚ l2.
Proof.
  intros H1 H2 Hin. apply NoDup_Permutation; [by apply (NoDup_fmap_1 op_key)|by apply (NoDup_fmap_1 op_key)|done].
Qed.

(** Offering the same pairs in two orders gives the same operations, as sets. *)
Lemma offer_pairs_perm M l1 l2 o1 o2 :
  manifests_ok M -> ops_ok M o1 -> ops_ok M o2 -> same_ops o1 o2 ->
  Forall (fun p => from_manifest M (mkEntityOp (fst p) (snd p))) l1 -> l1 ≡ₚ l2 ->
  same_ops (offer_pairs l1 o1) (offer_pairs l2 o2) /\ ops_ok M (offer_pairs l1 o1) /\ ops_ok M (offer_pairs l2 o2).
Proof.
  intros HM H1 H2 Hs Hl Hp.
  destruct (offer_pairs_ok M l1 o1 HM H1 Hl) as [Hok1 Hin1].
  destruct (offer_pairs_ok M l2 o2 HM H2 ltac:(by rewrite <- Hp)) as [Hok2 Hin2].
  split; [|done]. intros e. apply keyed_perm; [apply Hok1|apply Hok2|].
  intros o. rewrite Hin1, Hin2, (Hs e). by setoid_rewrite Hp.
Qed.

(** [offer_all] is offering pairs. *)
Definition pairs_of (b : builder) (l : list (string * ConnectorManifest)) : list (string * Operation) :=
  List.concat (map (fun '(ep, m) => map (pair (endpoint b ep)) (cs_Operations (cm_Spec m))) l).

Lemma fold_offer ep l ops : fold_left (offer ep) l ops = offer_pairs (map (pair ep) l) ops.
Proof. revert ops. induction l as [|op l IH]; intros ops; cbn; [done|]. apply IH. Qed.

Lemma offers_pairs l b :
  fold_left (fun b '(ep, m) => offers ep m b) l b = set_ops (offer_pairs (pairs_of b l) (b_entityOps b)) b.
Proof.
  revert b. induction l as [|[ep m] l IH]; intros b; cbn [fold_left]; [symmetry; apply set_ops_self|].
  assert (Ho : offers ep m b =
    set_ops (offer_pairs (map (pair (endpoint b ep)) (cs_Operations (cm_Spec m))) (b_entityOps b)) b)
    by (by rewrite <- fold_offer).
  rewrite Ho, IH.
  change (pairs_of b ((ep, m) :: l)) with (map (pair (endpoint b ep)) (cs_Operations (cm_Spec m)) ++ pairs_of b l).
  assert (Happ : forall l1 l2 ops, offer_pairs (l1 ++ l2) ops = offer_pairs l2 (offer_pairs l1 ops))
    by (intros; apply fold_left_app).
  by rewrite Happ.
Qed.

Lemma concat_map_perm {A B} (f : A -> list B) l1 l2 :
  l1 ≡ₚ l2 -> List.concat (map f l1) ≡ₚ List.concat (map f l2).
Proof.
  induction 1 as [|x l1 l2 Hp IH|x y l|l1 l2 l3 H1 IH1 H2 IH2]; cbn; [done|by rewrite IH|solve_Permutation|by etransitivity].
Qed.

(** ** Reads and configurations commute *)

(** Two reads whose endpoints agree come from one manifest. *)
Definition reads_ok (M : gmap string ConnectorManifest) (b : builder) (x : string * ConnectorManifest * Operation) : Prop :=
  let '(ep, m, op) := x in M !! endpoint b ep = Some m /\ op ∈ cs_Operations (cm_Spec m).

Lemma add_interface_comm i j l : add_interface i (add_interface j l) = add_interface j (add_interface i l).
Proof.
  assert (Hc : forall x y l, contains (add_interface y l) x = contains l x || (negb (String.eqb y "") && String.eqb x y)).
  { intros x y l'. apply Bool.eq_true_iff_eq. rewrite orb_true_iff, andb_true_iff, negb_true_iff, !contains_in, String.eqb_eq.
    unfold add_interface. destruct (String.eqb_spec y ""); cbn [negb andb]; [naive_solver|].
    destruct (contains l' y) eqn:E1; cbn [negb].
    - apply contains_in in E1. naive_solver.
    - rewrite (sort_strings_perm _), elem_of_app, list_elem_of_singleton. naive_solver. }
  destruct (String.eqb_spec i j) as [->|N]; [done|].
  assert (Hij : String.eqb i j = false) by (by apply String.eqb_neq).
  assert (Hji : String.eqb j i = false) by (apply String.eqb_neq; congruence).
  unfold add_interface at 1 3. rewrite !Hc, Hij, Hji, !andb_false_r, !orb_false_r.
  unfold add_interface. destruct (String.eqb i "") eqn:Ei, (String.eqb j "") eqn:Ej; cbn [negb andb]; try done.
  - destruct (contains l i), (contains l j); cbn [negb]; try done.
    apply sort_strings_unique. rewrite !(sort_strings_perm _). rewrite <- !app_assoc. apply Permutation_app_head, Permutation_swap.
Qed.

Lemma use_interface_comm i j c : use_interface i (use_interface j c) = use_interface j (use_interface i c).
Proof. unfold use_interface. cbn. by rewrite add_interface_comm. Qed.

Lemma slash_split a1 o1 a2 o2 :
  contains_byte "/" o1 = false -> contains_byte "/" o2 = false -> a1 +++ "/" +++ o1 = a2 +++ "/" +++ o2 -> a1 = a2 /\ o1 = o2.
Proof.
  intros H1 H2 He. assert (cut_last "/" (a1 +++ "/" +++ o1) = cut_last "/" (a2 +++ "/" +++ o2)) as Hc by (by rewrite He).
  assert (Hcut : forall a o, contains_byte "/" o = false -> cut_last "/" (a +++ "/" +++ o) = Some (a, o)).
  { intros a o Ho.
    assert (Hnone : forall s, contains_byte "/" s = false -> cut_last "/" s = None).
    { induction s as [|x s IH]; cbn; [done|]. destruct (ascii_dec x "/"); [done|]. intros Hs. by rewrite IH. }
    induction a as [|x a IH].
    - change ("" +++ "/" +++ o) with (String "/" o). cbn [cut_last]. rewrite Hnone by done. by destruct (ascii_dec "/" "/").
    - change (String x a +++ "/" +++ o) with (String x (a +++ "/" +++ o)). cbn [cut_last]. by rewrite IH. }
  rewrite !Hcut in Hc by done. by injection Hc.
Qed.

Lemma connector_comm ep1 m1 i1 ep2 m2 i2 b :
  (endpoint b ep1 = endpoint b ep2 -> m1 = m2) ->
  connector ep2 m2 i2 (connector ep1 m1 i1 b) = connector ep1 m1 i1 (connector ep2 m2 i2 b).
Proof.
  intros Hm. unfold connector. cbv zeta. unfold endpoint. cbn [with_connectors b_alias b_connectors]. fold (endpoint b ep1) (endpoint b ep2).
  unfold with_connectors. cbn. f_equal.
  destruct (decide (endpoint b ep1 = endpoint b ep2)) as [He|N].
  - rewrite (Hm He). rewrite He. rewrite !lookup_insert_eq, !insert_insert_eq. cbn. f_equal. apply use_interface_comm.
  - rewrite !lookup_insert_ne by congruence. apply insert_insert_ne. congruence.
Qed.

Lemma tool_comm k1 o1 e1 r1 d1 k2 o2 e2 r2 d2 b :
  (k1 +++ "/" +++ o1 = k2 +++ "/" +++ o2 -> k1 = k2 /\ o1 = o2 /\ e1 = e2 /\ r1 = r2 /\ d1 = d2) ->
  tool k2 o2 e2 r2 d2 (tool k1 o1 e1 r1 d1 b) = tool k1 o1 e1 r1 d1 (tool k2 o2 e2 r2 d2 b).
Proof.
  intros Hk. unfold tool, with_tools. cbn. f_equal.
  destruct (decide (k1 +++ "/" +++ o1 = k2 +++ "/" +++ o2)) as [He|N].
  - destruct (Hk He) as (-> & -> & -> & -> & ->). done.
  - apply insert_insert_ne. intros Hx. apply N. first [exact Hx|symmetry; exact Hx].
Qed.

Lemma read_tool_comm M b x y :
  manifests_ok M -> reads_ok M b x -> reads_ok M b y -> read_tool (read_tool b x) y = read_tool (read_tool b y) x.
Proof.
  destruct x as [[ep1 m1] op1], y as [[ep2 m2] op2]. intros HM [H1 Hin1] [H2 Hin2]. unfold read_tool.
  destruct (negb (String.eqb (op_Direction op1) DirectionRead)), (negb (String.eqb (op_Direction op2) DirectionRead)); try done.
  set (e1 := endpoint b ep1). set (e2 := endpoint b ep2).
  set (C1 := connector ep1 m1 (op_Interface op1)). set (C2 := connector ep2 m2 (op_Interface op2)).
  set (T1 := tool e1 (op_Name op1) (op_Entity op1) (op_Risk op1)
    (humanize (op_Name op1) +++ " from " +++ e1 +++ " by its identifier (read-only)")).
  set (T2 := tool e2 (op_Name op2) (op_Entity op2) (op_Risk op2)
    (humanize (op_Name op2) +++ " from " +++ e2 +++ " by its identifier (read-only)")).
  change (T2 (C2 (T1 (C1 b))) = T1 (C1 (T2 (C2 b)))).
  assert (Hmm : e1 = e2 -> m1 = m2) by (intros He; unfold e1, e2 in He; rewrite He in H1; congruence).
  change (T2 (T1 (C2 (C1 b))) = T1 (T2 (C1 (C2 b)))).
  assert (Hcc : C2 (C1 b) = C1 (C2 b)) by (exact (connector_comm ep1 m1 (op_Interface op1) ep2 m2 (op_Interface op2) b Hmm)).
  rewrite Hcc. apply tool_comm.
  intros He. destruct (HM _ _ H1) as [Hnd Hns]. destruct (HM _ _ H2) as [_ Hns2].
  rewrite Forall_forall in Hns, Hns2. apply slash_split in He as [He Hn]; [|by apply Hns|by apply Hns2].
  assert (op1 = op2) as ->.
  { apply (named_unique (cs_Operations (cm_Spec m1))); [done|done| |done]. by rewrite (Hmm He). }
  rewrite He. done.
Qed.

Lemma configure_comm ep1 conn1 ep2 conn2 b :
  endpoint b ep1 <> endpoint b ep2 ->
  configure ep2 conn2 (configure ep1 conn1 b) = configure ep1 conn1 (configure ep2 conn2 b).
Proof.
  intros N. unfold configure. cbv zeta. unfold endpoint. cbn [with_connectors b_alias b_connectors].
  fold (endpoint b ep1) (endpoint b ep2). unfold with_connectors. cbn. f_equal.
  destruct (b_connectors b !! endpoint b ep1) as [c1|] eqn:H1, (b_connectors b !! endpoint b ep2) as [c2|] eqn:H2;
    rewrite ?lookup_insert_ne, ?H1, ?H2 by congruence; try done.
  apply insert_insert_ne. congruence.
Qed.

(** ** A recipe under two orders *)

(** The folds over maps, with the order of the visits explicit. *)
Definition offer_in (l : list (string * ConnectorManifest)) (b : builder) : builder :=
  fold_left (fun b '(ep, m) => offers ep m b) l b.
Definition read_in (l : list (string * ConnectorManifest)) (b : builder) : builder := fold_left read_tool (operations_of l) b.
Definition configure_in (l : list (string * Connection)) (b : builder) : builder :=
  fold_left (fun b '(ep, conn) => configure ep conn b) l b.

Lemma no_alias_ok (M : gmap string ConnectorManifest) b l :
  b_alias b = ∅ -> (forall ep m, (ep, m) ∈ l -> M !! ep = Some m) ->
  forall ep m op, (ep, m, op) ∈ operations_of l -> reads_ok M b (ep, m, op).
Proof.
  intros Ha Hl ep m op Hin. unfold operations_of in Hin.
  apply list_elem_of_In, List.in_concat in Hin as (x & Hx & Hin).
  apply List.in_map_iff in Hx as ([ep' m'] & <- & Hx). apply List.in_map_iff in Hin as (op' & [= -> -> ->] & Hop).
  apply list_elem_of_In in Hx, Hop. split; [|done]. rewrite endpoint_no_alias by done. by apply Hl.
Qed.

Lemma read_in_perm M l1 l2 b :
  manifests_ok M -> b_alias b = ∅ -> (forall ep m, (ep, m) ∈ l1 -> M !! ep = Some m) -> l1 ≡ₚ l2 ->
  read_in l1 b = read_in l2 b.
Proof.
  intros HM Ha Hl Hp. apply (fold_left_perm_inv (fun b => b_alias b = ∅)); [| |done|by apply concat_map_perm].
  - intros b' [[ep m] op] _ Hb. unfold read_tool. by destruct (negb _).
  - intros b' [[ep1 m1] op1] [[ep2 m2] op2] H1 H2 Hb. apply (read_tool_comm M); [done|..]; by apply (no_alias_ok M b' l1).
Qed.

Lemma configure_in_perm (conns : gmap string Connection) l1 l2 b :
  b_alias b = ∅ -> l1 ≡ₚ map_to_list conns -> l1 ≡ₚ l2 -> configure_in l1 b = configure_in l2 b.
Proof.
  intros Ha Hl Hp. apply (fold_left_perm_inv (fun b => b_alias b = ∅)); [| |done|done].
  - by intros b' [ep conn] _ Hb.
  - intros b' [ep1 conn1] [ep2 conn2] H1 H2 Hb. rewrite Hl in H1, H2.
    apply elem_of_map_to_list in H1. apply elem_of_map_to_list in H2.
    destruct (decide (ep1 = ep2)) as [<-|N]; [by simplify_eq|]. apply configure_comm. by rewrite !endpoint_no_alias.
Qed.

Lemma pairs_of_from M b l :
  b_alias b = ∅ -> (forall ep m, (ep, m) ∈ l -> M !! ep = Some m) ->
  Forall (fun p => from_manifest M (mkEntityOp (fst p) (snd p))) (pairs_of b l).
Proof.
  intros Ha Hl. rewrite Forall_forall. intros [ep op] Hin. unfold pairs_of in Hin.
  apply list_elem_of_In, List.in_concat in Hin as (x & Hx & Hin).
  apply List.in_map_iff in Hx as ([ep' m'] & <- & Hx). apply List.in_map_iff in Hin as (op' & [= <- <-] & Hop).
  apply list_elem_of_In in Hx, Hop. exists m'. cbn. rewrite endpoint_no_alias by done. split; [by apply Hl|done].
Qed.
End compiler.

(** A recipe compiles to the same spec in whatever order the compiler's loops visit maps,
    when its tools have distinct names; and two tools of one name break it. *)

Section two_orders.
Context `{E : Externals} `{K : Encoders} (O1 O2 : Visits).
Context (all1 : visits_all (O := O1)) (all2 : visits_all (O := O2)).

Lemma visits_perm {A} (m : gmap string A) : visit (Visits := O1) m ≡ₚ visit (Visits := O2) m.
Proof using all1 all2. by rewrite (all1 A m), (all2 A m). Qed.

(** ** What is sorted by its key *)

Definition keyed {A} (name : A -> string) (m : gmap string A) : Prop := forall k x, m !! k = Some x -> name x = k.

Lemma sort_visited {A} (name : A -> string) (m : gmap string A) :
  keyed name m ->
  sort_by name (map snd (visit (Visits := O1) m)) = sort_by name (map snd (visit (Visits := O2) m)).
Proof using all1 all2.
  intros Hk. apply sort_by_unique; [|apply (Permutation_map snd), visits_perm].
  assert (Hfst : map name (map snd (visit (Visits := O1) m)) = map fst (visit (Visits := O1) m)).
  { rewrite List.map_map. apply List.map_ext_in. intros [k x] Hin. apply list_elem_of_In in Hin.
    apply (visit_in m k x all1) in Hin. by apply Hk. }
  rewrite Hfst, (Permutation_map fst (all1 A m)). apply NoDup_fst_map_to_list.
Qed.

Lemma keyed_empty {A} (name : A -> string) : keyed name ∅.
Proof using. intros k x Hx. by rewrite lookup_empty in Hx. Qed.

Definition names_ok (b : builder) : Prop := keyed tp_Name (b_topics b) /\ keyed pr_Name (b_policies b).

Lemma keyed_insert {A} (name : A -> string) m x : keyed name m -> keyed name (<[name x := x]> m).
Proof using. intros Hk k y. destruct (decide (name x = k)) as [<-|N]; [rewrite lookup_insert_eq; by intros [= <-]|].
  rewrite lookup_insert_ne by done. apply Hk. Qed.

Lemma names_fold {X} (f : builder -> X -> builder) l b :
  (forall b x, names_ok b -> names_ok (f b x)) -> names_ok b -> names_ok (fold_left f l b).
Proof using. intros Hf. revert b. induction l as [|x l IH]; intros b Hb; cbn; auto. Qed.

Lemma compile_steps_names res l st st' :
  compile_steps res st l = Some st' -> names_ok (fst (fst st)) -> names_ok (fst (fst st')).
Proof using.
  revert st. induction l as [|ix l IH]; intros st; cbn [compile_steps]; [by intros [= <-]|].
  destruct (compile_step res st ix) as [st1|] eqn:H1; [|done]. intros H2 Hn. apply (IH st1 H2).
  destruct st as [[b doc] steps]. unfold compile_step, compile_write in H1. cbv zeta in H1.
  repeat case_match; simplify_eq; done.
Qed.

Lemma add_policies_names l b : names_ok b -> names_ok (add_policies l b).
Proof using.
  apply names_fold. intros b' p [Ht Hp]. split; [exact Ht|].
  exact (keyed_insert pr_Name (b_policies b') (mkPolicyRef (om_Name (k_Metadata p)) (om_Version (k_Metadata p)) (k_Rego p)) Hp).
Qed.

(** ** Plugins are wired alike *)

Lemma ops_le_total preferred x y : ops_le preferred x y = true \/ ops_le preferred y x = true.
Proof using.
  unfold ops_le. cbv zeta.
  destruct (bool_decide (eop_endpoint x ∈ preferred)), (bool_decide (eop_endpoint y ∈ preferred)); cbn;
    auto using str_le_total.
Qed.

Lemma ops_le_trans preferred x y z :
  ops_le preferred x y = true -> ops_le preferred y z = true -> ops_le preferred x z = true.
Proof using.
  unfold ops_le. cbv zeta.
  destruct (bool_decide (eop_endpoint x ∈ preferred)), (bool_decide (eop_endpoint y ∈ preferred)),
    (bool_decide (eop_endpoint z ∈ preferred)); cbn; try done; apply str_le_trans.
Qed.

Lemma ops_le_antisym preferred x y :
  ops_le preferred x y = true -> ops_le preferred y x = true -> eop_endpoint x = eop_endpoint y.
Proof using.
  unfold ops_le. cbv zeta.
  destruct (bool_decide (eop_endpoint x ∈ preferred)), (bool_decide (eop_endpoint y ∈ preferred)); cbn; try done;
    apply str_le_antisym.
Qed.

Context (M : gmap string ConnectorManifest) (HM : manifests_ok M).
Context (b : builder) (ops1 ops2 : gmap string (list entityOp)) (Hs : same_ops ops1 ops2) (Hok : ops_ok M ops1).

Lemma pick_sim entity opName dir preferred :
  pick (set_ops ops1 b) entity opName dir preferred = pick (set_ops ops2 b) entity opName dir preferred.
Proof using Hs Hok HM.
  unfold pick. change (b_entityOps (set_ops ?o b)) with o. change (b_connectors (set_ops _ b)) with (b_connectors b).
  fold (ops_at ops1 entity) (ops_at ops2 entity).
  rewrite (find_isort_perm (ops_le preferred) (ops_le_total preferred) (ops_le_trans preferred) _ _ (ops_at ops2 entity)); [done| |apply Hs].
  intros x y Hx Hy Px Py H1 H2. bools. apply (key_unique M); [done|by apply (proj2 Hok entity)|by apply (proj2 Hok entity)|].
  unfold op_key. f_equal; [by apply (ops_le_antisym preferred)|congruence].
Qed.

Lemma wire_plugin_sim d : wire_plugin (set_ops ops1 b) d = wire_plugin (set_ops ops2 b) d.
Proof using Hs Hok HM.
  unfold wire_plugin. destruct (pp_Entities (pd_Grants d)) as [e|]; [|done]. destruct (negb _); [done|]. cbv zeta.
  change (preferred_of (set_ops ?o b) d) with (preferred_of b d).
  assert (Hserve : forall operation dir preferred refs,
    serve (set_ops ops1 b) operation dir preferred refs = serve (set_ops ops2 b) operation dir preferred refs).
  { intros. unfold serve. generalize (∅ : gmap string EntityOperation) as m.
    induction refs as [|r refs IH]; intros m; cbn [fold_left]; [done|]. cbv zeta. by rewrite pick_sim, IH. }
  by rewrite !Hserve.
Qed.

(** ** The finished bodies *)

Lemma finish_sim :
  keyed cc_Endpoint (b_connectors b) -> names_ok b ->
  NoDup (map tl_Name (rb_Tools (finish_body (O := O1) (set_ops ops1 b)))) ->
  finish_body (O := O1) (set_ops ops1 b) = finish_body (O := O2) (set_ops ops2 b).
Proof using Hs Hok HM all1 all2.
  intros Hc [Ht Hp] Hnd. unfold finish_body. cbv zeta.
  assert (Hpl : map (wire_plugin (set_ops ops1 b)) (b_plugins (set_ops ops1 b)) =
                map (wire_plugin (set_ops ops2 b)) (b_plugins (set_ops ops2 b)))
    by (apply List.map_ext; apply wire_plugin_sim).
  rewrite Hpl. f_equal; [by apply (sort_visited cc_Endpoint)|by apply (sort_visited tp_Name)| |by apply (sort_visited pr_Name)].
  pose proof (Permutation_map snd (visits_perm (b_tools b))) as Hperm.
  assert (Hnamed : map (named (map snd (visit (Visits := O1) (b_tools b)))) (map snd (visit (Visits := O2) (b_tools b))) =
                   map (named (map snd (visit (Visits := O2) (b_tools b)))) (map snd (visit (Visits := O2) (b_tools b)))).
  { apply List.map_ext. intros t. unfold named, tool_name, offered. do 2 f_equal.
    assert (Hlen : forall op, List.length (List.filter (fun t => String.eqb (tl_Operation t) op) (map snd (visit (Visits := O1) (b_tools b)))) =
      List.length (List.filter (fun t => String.eqb (tl_Operation t) op) (map snd (visit (Visits := O2) (b_tools b))))).
    { intros op. apply Permutation_length. by apply filter_perm. }
    by rewrite Hlen. }
  change (b_tools (set_ops _ b)) with (b_tools b). rewrite <- Hnamed.
  apply sort_by_unique; [|by apply Permutation_map].
  cbn in Hnd. unfold sort_by in Hnd. by rewrite (isort_perm _ _) in Hnd.
Qed.
End two_orders.

(** ** Recipes *)

Section recipes.
Context `{E : Externals} `{K : Encoders}.

Lemma compile_steps_alias res l st st' :
  compile_steps res st l = Some st' -> b_alias (fst (fst st')) = b_alias (fst (fst st)).
Proof.
  revert st. induction l as [|ix l IH]; intros st; cbn [compile_steps]; [by intros [= <-]|].
  destruct (compile_step res st ix) as [st1|] eqn:H1; [|done]. intros H2. rewrite (IH st1 H2).
  destruct st as [[b doc] steps]. unfold compile_step, compile_write in H1. cbv zeta in H1.
  repeat case_match; simplify_eq; done.
Qed.

(** What follows the steps, with the visits explicit. *)
Definition extend (l : list Plugin) (b : builder) : builder := fold_left (fun b p => extension p b) l b.

Lemma read_in_blind l : blind (read_in l).
Proof. apply (blind_fold read_tool). apply read_tool_blind. Qed.

Lemma extend_blind l : blind (extend l).
Proof. apply (blind_fold (fun b p => extension p b)). apply extension_blind. Qed.

Lemma configure_in_blind l : blind (configure_in l).
Proof. apply (blind_fold (fun b '(ep, conn) => configure ep conn b)). intros [ep conn]. apply configure_blind. Qed.

Lemma add_policies_blind l : blind (add_policies l).
Proof. apply (blind_fold (fun b p => with_policy p b)). by intros p b ops. Qed.

Lemma offers_blind_alias l b : b_alias b = ∅ -> b_alias (extend l b) = ∅.
Proof.
  revert b. induction l as [|p l IH]; intros b Hb; [done|]. apply IH. unfold extension, deploy.
  destruct (existsb _ _); [done|]. by destruct (deployment p "").
Qed.

Lemma compile_offers_eq (O : Visits) res b :
  compile_offers res b = configure_in (visit (res_Connections res)) (read_in (visit (res_Connectors res))
    (extend (res_Extensions res) (offer_in (visit (res_Connectors res)) b))).
Proof. done. Qed.

Lemma compile_offers_names (O : Visits) res b : names_ok b -> names_ok (compile_offers res b).
Proof.
  intros Hb. unfold compile_offers. cbv zeta. unfold offer_all, read_tools, configure_all.
  apply names_fold; [by intros b' [ep conn]|]. apply names_fold.
  { intros b' [[ep m] op] Hn. unfold read_tool. by destruct (negb _). }
  apply names_fold; [|apply names_fold; [by intros b' [ep m]|done]].
  intros b' p Hn. unfold extension, deploy. destruct (existsb _ _); [done|]. by destruct (deployment p "").
Qed.

(** What a recipe's endpoints offer, under two orders. *)
Lemma compile_offers_orders (O1 O2 : Visits) res b :
  visits_all (O := O1) -> visits_all (O := O2) ->
  manifests_ok (res_Connectors res) -> b_alias b = ∅ -> b_entityOps b = ∅ ->
  exists F ops1 ops2,
    compile_offers (O := O1) res b = set_ops ops1 F /\ compile_offers (O := O2) res b = set_ops ops2 F /\
    same_ops ops1 ops2 /\ ops_ok (res_Connectors res) ops1.
Proof.
  intros all1 all2 HM Ha Hops. set (M := res_Connectors res) in *.
  assert (Hin : forall ep m, (ep, m) ∈ visit (Visits := O1) M -> M !! ep = Some m) by (intros; by apply (visit_in (O := O1))).
  destruct (offer_pairs_perm M (pairs_of b (visit (Visits := O1) M)) (pairs_of b (visit (Visits := O2) M)) ∅ ∅) as (Hs & Hok & _);
    try done.
  1, 2: split; [intros e; constructor|intros e o Ho; by apply elem_of_nil in Ho].
  { by intros e. }
  { by apply pairs_of_from. }
  { apply concat_map_perm, visits_perm; done. }
  exists (configure_in (visit (Visits := O1) (res_Connections res)) (read_in (visit (Visits := O1) M) (extend (res_Extensions res) b))).
  eexists _, _. rewrite !compile_offers_eq. fold M. unfold offer_in. rewrite !offers_pairs, Hops.
  rewrite !(proj1 (extend_blind _ _ _)), !(proj1 (read_in_blind _ _ _)), !(proj1 (configure_in_blind _ _ _)).
  split; [done|]. split; [|done]. f_equal.
  rewrite (read_in_perm M (visit (Visits := O2) M) (visit (Visits := O1) M)).
  - apply (configure_in_perm (res_Connections res)); [|apply all2|symmetry; by apply visits_perm].
    pose proof (offers_blind_alias (res_Extensions res) b Ha) as Ha'. revert Ha'.
    generalize (extend (res_Extensions res) b) as b'. unfold read_in.
    induction (operations_of (visit (Visits := O1) M)) as [|[[ep m] op] l IH]; intros b' Hb'; [done|]. apply IH.
    unfold read_tool. by destruct (negb _).
  - done.
  - by apply offers_blind_alias.
  - intros. by apply (visit_in (O := O2)).
  - symmetry. by apply visits_perm.
Qed.

Lemma compile_recipe_orders (O1 O2 : Visits) rec res :
  visits_all (O := O1) -> visits_all (O := O2) -> manifests_ok (res_Connectors res) ->
  (compile_recipe (O := O1) rec res newBuilder = None /\ compile_recipe (O := O2) rec res newBuilder = None) \/
  exists F ops1 ops2,
    compile_recipe (O := O1) rec res newBuilder = Some (set_ops ops1 F) /\
    compile_recipe (O := O2) rec res newBuilder = Some (set_ops ops2 F) /\
    same_ops ops1 ops2 /\ ops_ok (res_Connectors res) ops1 /\ names_ok F.
Proof.
  intros all1 all2 HM. unfold compile_recipe. cbv zeta.
  destruct (res_Connectors res !! _) as [src|]; [|by left].
  set (ev := default zero_event _). set (trigger := source_of _ rec src ev). set (b0 := with_topic _ _).
  assert (Hn0 : names_ok b0).
  { split; [apply (keyed_insert tp_Name)|]; exact (keyed_empty _). }
  destruct (compile_steps res (b0, None, []) _) as [[[b2 doc] steps]|] eqn:Hst; [|by left]. right.
  pose proof (compile_steps_alias _ _ _ _ Hst) as Ha. pose proof (compile_steps_names _ _ _ _ Hst Hn0) as Hn.
  pose proof (proj2 (compile_steps_blind _ _ (b0, None, []) ∅) _ Hst) as Hops. cbn [fst] in Ha, Hn, Hops.
  destruct (compile_offers_orders O1 O2 res b2 all1 all2 HM Ha Hops) as (F & ops1 & ops2 & H1 & H2 & Hs & Hok).
  pose proof (compile_offers_names O1 res b2 Hn) as HnF. rewrite H1 in HnF. rewrite H1, H2.
  set (wf := mkWorkflow _ _ _ _ _).
  exists (add_policies (res_Policies res) (with_workflow wf (monitors_of rec) F)), ops1, ops2.
  change (with_workflow wf (monitors_of rec) (set_ops ?o F)) with (set_ops o (with_workflow wf (monitors_of rec) F)).
  rewrite !(proj1 (add_policies_blind _ _ _)). split; [done|]. split; [done|]. split; [done|]. split; [done|].
  apply add_policies_names. exact HnF.
Qed.
End recipes.

(** The tools of a compiled spec have distinct names. *)
Definition distinct_tools (c : compiled) : Prop :=
  match c with Compiled (Some spec) _ _ => NoDup (map tl_Name (rb_Tools (rs_Spec spec))) | _ => True end.

(** * Properties *)


(** * Witnesses *)

#[local] Instance lenient_reproducible : Externals := lenient.
#[local] Instance named_encoders : Encoders := {|
  module_digest := fun s => s;
  Digest := fun b => "sha256:" +++ String.concat "," (map wf_Name (rb_Workflows b) ++ map tl_Name (rb_Tools b));
  operation_key := fun _ _ => "";
  decode_spec := fun _ => Err (Sentinel "not JSON")
|}.
#[local] Instance forwards : Visits := {| visit := fun A m => map_to_list m |}.
Definition backwards : Visits := {| visit := fun A m => List.rev (map_to_list m) |}.

Lemma forwards_all : visits_all (O := forwards).
Proof. intros A m. reflexivity. Qed.

Lemma backwards_all : visits_all (O := backwards).
Proof. intros A m. symmetry. apply Permutation_rev. Qed.

(** Two systems of one kind; the second also has an operation [extra]. *)
Definition system_named (name : string) (extra : list Operation) : Connection :=
  mkConnection (mkTypeMeta APIVersion KindConnection) (meta name "")
    (mkConnectionSpec "sap-ecc@^0.4" "openbao://plant1" [] [] extra "" None).

Definition two_systems (extra : string) : Catalog :=
  match FromDocuments [(OConnector sap, "sap.yaml"); (OConnection (system_named "erp" []), "erp.yaml");
    (OConnection (system_named "crm" [mkOperation extra "SalesOrder" DirectionRead "rfc" RiskRead ""]), "crm.yaml");
    (OMapping order_mapping, "map.yaml")]
  with Ok c => c | Err _ => Catalog.New end.

Definition across : Recipe :=
  mkRecipe (mkTypeMeta APIVersion KindRecipe) (meta "order-sync" "1.0.0")
    (mkRecipeSpec (mkTrigger "erp" "order-changed") ∅
       [mkStep (Some (mkMapStep "sap.Order" "model.SalesOrder" "order-to-order@1")) None None;
        mkStep None None (Some (mkWriteStep "crm" "create-order" "orderId" true "policy" "" "orderRef" "total" None))]
       [] (Some 1%float) None []).

Definition review_options : Options := mkOptions 0%float 0%float 0%float order_reviews.

(** The tools of a compiled spec, by name and endpoint. *)
Definition tools_of (c : compiled) : list (string * string) :=
  match c with Compiled (Some spec) _ _ => map (fun t => (tl_Name t, tl_Endpoint t)) (rb_Tools (rs_Spec spec)) | _ => [] end.


(** Two tools of one name: the order of the visits decides which comes first, and the
    digest with it. *)
Lemma tool_names_collide :
  tools_of (Compile (O := forwards) (two_systems "erp-get-order") (ORecipe across) review_options) <>
  tools_of (Compile (O := backwards) (two_systems "erp-get-order") (ORecipe across) review_options).
Proof. vm_compute. discriminate. Qed.
