(* ===== verification/Signing.v ===== *)
(** Signatures of runtime specs: [src/pkg/signing/signing.go], and the strict reading of
    specs they protect. Keys, Ed25519, PEM, X.509 and base64 are the standard library's;
    what is used of them is a class, what is relied on its laws. *)

From S2P Require Import Turgon Prelude GoStr GoErr Verifier VerifierTheorems RuntimeSpec Compiler.
From Stdlib Require Import Ascii String.

Definition ErrUnsigned : string := "spec is not signed by a trusted key".

(** What the standard library is asked for. [pem_decode] is the next block, as its type
    and bytes, and the rest; [parse_pkix] and [parse_pkcs8] give [None] for a key that is
    not an Ed25519 key; [fingerprint] is hex of the first 8 bytes of SHA-256. *)
Class Crypto := {
  PublicKey : Type;
  PrivateKey : Type;
  Public : PrivateKey -> PublicKey;
  ed_sign : PrivateKey -> string -> string;
  ed_verify : PublicKey -> string -> string -> bool;
  encode64 : string -> string;
  decode64 : string -> option string;
  pem_decode : string -> option (string * string) * string;
  parse_pkix : string -> result (option PublicKey);
  parse_pkcs8 : string -> result (option PrivateKey);
  pkix : PublicKey -> string;
  fingerprint : string -> string
}.

(** Documented behaviour: a signature verifies under its key, base64 decodes what it
    encodes, and decoding a PEM block consumes it. *)
Class CryptoLaws `(C : Crypto) : Prop := {
  verify_sign : forall k m, ed_verify (Public k) m (ed_sign k m) = true;
  decode_encode : forall s, decode64 (encode64 s) = Some s;
  pem_consumes : forall data block rest, pem_decode data = (Some block, rest) -> String.length rest < String.length data
}.

Section signing.
Context `{C : Crypto} `{K : Encoders}.

(** ** Keys *)

Definition ParsePrivateKey (data : string) : result PrivateKey :=
  let bad := Err (Errorf (Msg "signing key: want a PEM %q block" [FStr "PRIVATE KEY"])) in
  match fst (pem_decode data) with
  | None => bad
  | Some (type, bytes) =>
      if negb (String.eqb type "PRIVATE KEY") then bad
      else match parse_pkcs8 bytes with
        | Err err => Err (Wrapf (msg0 "signing key: %w") [err])
        | Ok None => Err (Errorf (msg0 "signing key: not an Ed25519 key"))
        | Ok (Some priv) => Ok priv
        end
  end.

(** The loop of [ParsePublicKeys]; [None] when the fuel runs out. *)
Fixpoint parse_keys (fuel : nat) (data : string) (keys : list PublicKey) : option (result (list PublicKey)) :=
  match fuel with
  | 0 => None
  | S fuel =>
      match pem_decode data with
      | (None, rest) =>
          Some (match keys with
            | [] => if negb (String.eqb (trim_space rest) "") then Err (Errorf (msg0 "trusted keys: no PEM public key found"))
                    else Ok []
            | _ => Ok keys
            end)
      | (Some (type, bytes), rest) =>
          if negb (String.eqb type "PUBLIC KEY") then
            Some (Err (Errorf (Msg "trusted keys: unexpected PEM block %q" [FStr type])))
          else match parse_pkix bytes with
            | Err err => Some (Err (Wrapf (msg0 "trusted keys: %w") [err]))
            | Ok None => Some (Err (Errorf (msg0 "trusted keys: not an Ed25519 key")))
            | Ok (Some pub) => parse_keys fuel rest (keys ++ [pub])
            end
      end
  end.

(** A block takes at least a byte. *)
Definition ParsePublicKeys (data : string) : option (result (list PublicKey)) :=
  parse_keys (S (String.length data)) data [].

Definition KeyID (pub : PublicKey) : string := fingerprint (pkix pub).

(** ** Signatures *)

Definition newline : string := String "010" "".

(** What a signature covers. *)
Definition message_of (s : RuntimeSpec) : string :=
  "turgon-runtime-spec-v1" +++ newline +++ rm_Name (rs_Metadata s) +++ newline +++ rm_Level (rs_Metadata s) +++ newline +++
  rm_Digest (rs_Metadata s) +++ newline.

Definition with_signatures (s : RuntimeSpec) (sigs : list Signature) : RuntimeSpec :=
  let m := rs_Metadata s in
  mkRuntimeSpec (rs_APIVersion s) (rs_Kind s) (mkRuntimeMeta (rm_Name m) (rm_Source m) (rm_Level m) (rm_Digest m) sigs)
    (rs_Spec s).

Definition Sign (s : RuntimeSpec) (priv : PrivateKey) : result RuntimeSpec :=
  let got := Digest (rs_Spec s) in
  if negb (String.eqb got (rm_Digest (rs_Metadata s))) then
    Err (Errorf (Msg "refusing to sign: the body hashes to %s, not the spec's digest %s"
      [FStr got; FStr (rm_Digest (rs_Metadata s))]))
  else
    let id := KeyID (Public priv) in
    let sig := mkSignature id "ed25519" (encode64 (ed_sign priv (message_of s))) in
    let kept := List.filter (fun old => negb (String.eqb (sig_KeyID old) id)) (rm_Signatures (rs_Metadata s)) in
    Ok (with_signatures s (kept ++ [sig])).

(** A later key of the same ID replaces an earlier one. *)
Definition by_id (trusted : list PublicKey) : gmap string PublicKey :=
  fold_left (fun m k => <[KeyID k := k]> m) trusted ∅.

(** The loop over the spec's signatures. *)
Fixpoint try_signatures (keys : gmap string PublicKey) (msg : string) (sigs : list Signature) (tried : list string)
    : result string :=
  match sigs with
  | [] =>
      match tried with
      | [] => Err (Sentinel ErrUnsigned)
      | _ => Err (Wrapf (Msg "%w: signatures by %s" [FStr (join ", " tried)]) [Sentinel ErrUnsigned])
      end
  | sig :: sigs =>
      match keys !! sig_KeyID sig with
      | Some pub =>
          if negb (String.eqb (sig_Algorithm sig) "ed25519") then try_signatures keys msg sigs (tried ++ [sig_KeyID sig])
          else match decode64 (sig_Value sig) with
            | Some raw =>
                if ed_verify pub msg raw then Ok (sig_KeyID sig)
                else try_signatures keys msg sigs (tried ++ [sig_KeyID sig +++ " (invalid)"])
            | None => try_signatures keys msg sigs (tried ++ [sig_KeyID sig +++ " (invalid)"])
            end
      | None => try_signatures keys msg sigs (tried ++ [sig_KeyID sig])
      end
  end.

Definition Verify (s : RuntimeSpec) (trusted : list PublicKey) : result string :=
  let got := Digest (rs_Spec s) in
  if negb (String.eqb got (rm_Digest (rs_Metadata s))) then
    Err (Errorf (Msg "digest mismatch (spec says %s, body hashes to %s)" [FStr (rm_Digest (rs_Metadata s)); FStr got]))
  else try_signatures (by_id trusted) (message_of s) (rm_Signatures (rs_Metadata s)) [].

(** ** Lemmas *)

(** A signature that a trusted key made for this message. *)
Definition valid_signature (keys : gmap string PublicKey) (msg : string) (sig : Signature) : Prop :=
  sig_Algorithm sig = "ed25519" /\
  exists pub raw, keys !! sig_KeyID sig = Some pub /\ decode64 (sig_Value sig) = Some raw /\ ed_verify pub msg raw = true.

Lemma try_signatures_spec keys msg sigs tried :
  match try_signatures keys msg sigs tried with
  | Ok id => exists sig, sig ∈ sigs /\ sig_KeyID sig = id /\ valid_signature keys msg sig
  | Err e => errors_is e ErrUnsigned = true /\ Forall (fun sig => ~ valid_signature keys msg sig) sigs
  end.
Proof.
  revert tried. induction sigs as [|sig sigs IH]; intros tried; cbn [try_signatures].
  { destruct tried; by split. }
  assert (Hskip : forall tried', ~ valid_signature keys msg sig ->
    match try_signatures keys msg sigs tried' with
    | Ok id => exists sig', sig' ∈ sig :: sigs /\ sig_KeyID sig' = id /\ valid_signature keys msg sig'
    | Err e => errors_is e ErrUnsigned = true /\ Forall (fun sig => ~ valid_signature keys msg sig) (sig :: sigs)
    end).
  { intros tried' Hn. specialize (IH tried'). destruct (try_signatures keys msg sigs tried') as [id|e].
    - destruct IH as (x & Hx & He & Hv). exists x. split; [by right|done].
    - destruct IH as [He Hf]. split; [done|by constructor]. }
  destruct (keys !! sig_KeyID sig) as [pub|] eqn:Hk.
  2: { apply Hskip. intros (_ & pub & raw & Hp & _). congruence. }
  destruct (String.eqb_spec (sig_Algorithm sig) "ed25519") as [Ha|Na]; cbn [negb].
  2: { apply Hskip. by intros [Ha _]. }
  destruct (decode64 (sig_Value sig)) as [raw|] eqn:Hd.
  2: { apply Hskip. intros (_ & pub' & raw & _ & Hr & _). congruence. }
  destruct (ed_verify pub msg raw) eqn:Hv.
  - exists sig. split; [left|]. split; [done|]. split; [done|]. by exists pub, raw.
  - apply Hskip. intros (_ & pub' & raw' & Hp & Hr & Hv'). congruence.
Qed.

Lemma by_id_lookup trusted id pub : by_id trusted !! id = Some pub -> pub ∈ trusted /\ KeyID pub = id.
Proof.
  unfold by_id. assert (H : forall m : gmap string PublicKey, fold_left (fun m k => <[KeyID k := k]> m) trusted m !! id = Some pub ->
    (pub ∈ trusted /\ KeyID pub = id) \/ m !! id = Some pub).
  { induction trusted as [|k l IH]; intros m Hm; cbn in Hm; [by right|].
    destruct (IH _ Hm) as [[Hin Hid]|Hl]; [left; split; [by right|done]|].
    destruct (decide (KeyID k = id)) as [<-|N].
    - rewrite lookup_insert_eq in Hl. injection Hl as ->. left. split; [left|done].
    - rewrite lookup_insert_ne in Hl by done. by right. }
  intros Hl. destruct (H ∅ Hl) as [?|He]; [done|by rewrite lookup_empty in He].
Qed.

Lemma by_id_trusted trusted pub :
  (forall k, k ∈ trusted -> KeyID k = KeyID pub -> k = pub) -> pub ∈ trusted -> by_id trusted !! KeyID pub = Some pub.
Proof.
  intros Hu Hin. destruct (by_id trusted !! KeyID pub) as [k|] eqn:Hk.
  - apply by_id_lookup in Hk as [Hk Hid]. f_equal. by apply Hu.
  - exfalso. revert Hk. unfold by_id. generalize (∅ : gmap string PublicKey) as m.
    clear Hu. induction trusted as [|k l IH]; intros m Hm; [by apply elem_of_nil in Hin|]. cbn in Hm.
    assert (Hset : forall l (m : gmap string PublicKey) x, m !! KeyID pub = Some x -> fold_left (fun m k => <[KeyID k := k]> m) l m !! KeyID pub <> None).
    { clear. induction l as [|k l IH]; intros m x Hx; cbn; [congruence|].
      destruct (decide (KeyID k = KeyID pub)) as [E|N].
      - apply (IH _ k). rewrite <- E. by rewrite lookup_insert_eq.
      - apply (IH _ x). by rewrite lookup_insert_ne. }
    apply elem_of_cons in Hin as [->|Hin]; [|by apply (IH Hin _ Hm)].
    apply (Hset l (<[KeyID k := k]> m) k); [by rewrite lookup_insert_eq|done].
Qed.

(** Lines without newlines are read back from a message. *)
Lemma lines_injective a b c a' b' c' :
  contains_byte "010" a = false -> contains_byte "010" b = false -> contains_byte "010" c = false ->
  a +++ newline +++ b +++ newline +++ c +++ newline = a' +++ newline +++ b' +++ newline +++ c' +++ newline ->
  a = a' /\ b = b' /\ c = c'.
Proof.
  intros Ha Hb Hc He.
  assert (Hs : forall x y z, split_on "010" (x +++ newline +++ y +++ newline +++ z +++ newline) =
    split_on "010" x ++ split_on "010" y ++ split_on "010" z ++ [""]).
  { intros x y z. assert (Hn : forall s, newline +++ s = String "010" s) by done.
    rewrite !Hn. unfold newline. by rewrite !split_on_sep. }
  pose proof (f_equal (split_on "010") He) as Hl. rewrite !Hs, !split_on_none in Hl by done. cbn [app] in Hl.
  assert (Hlen : List.length (split_on "010" a') + (List.length (split_on "010" b') + (List.length (split_on "010" c') + 1)) = 4)
    by (apply (f_equal (@List.length string)) in Hl; rewrite !List.length_app in Hl; cbn in Hl; lia).
  assert (Hone : forall s, List.length (split_on "010" s) = 1 -> split_on "010" s = [s]).
  { intros s H1. pose proof (split_on_join "010" s) as Hj. destruct (split_on "010" s) as [|x [|? ?]]; try done.
    cbn in Hj. by subst x. }
  assert (Hpos : forall s, 1 <= List.length (split_on "010" s)).
  { intros s. pose proof (split_on_nonempty "010" s). destruct (split_on "010" s); [done|cbn; lia]. }
  pose proof (Hpos a'). pose proof (Hpos b'). pose proof (Hpos c').
  rewrite (Hone a'), (Hone b'), (Hone c') in Hl by lia. by injection Hl as -> -> ->.
Qed.

Lemma parse_keys_enough `{!CryptoLaws C} fuel data keys :
  String.length data < fuel -> is_Some (parse_keys fuel data keys).
Proof.
  revert data keys. induction fuel as [|fuel IH]; intros data keys Hlt; [lia|]. cbn [parse_keys].
  destruct (pem_decode data) as [[[type bs]|] rest] eqn:Hp; [|eauto].
  destruct (negb _); [eauto|]. destruct (parse_pkix bs) as [[pub|]|]; [|eauto..].
  apply IH. apply pem_consumes in Hp. lia.
Qed.
End signing.

(** * Properties *)

Section properties.
Context `{C : Crypto} `{K : Encoders}.

(** C31: A spec is accepted exactly when its digest is its body's and a trusted key signed
    it. [Verify] answers with a key ID only if some Ed25519 signature of the spec under
    that ID verifies, against a trusted key of that ID, over the spec's own name, level
    and digest; when it refuses a spec whose digest matches, the error is
    [ErrUnsigned] and none of the signatures is valid. *)
Theorem Verify_decides (s : RuntimeSpec) (trusted : list PublicKey) :
  match Verify s trusted with
  | Ok id =>
      Digest (rs_Spec s) = rm_Digest (rs_Metadata s) /\
      exists sig pub raw, sig ∈ rm_Signatures (rs_Metadata s) /\ sig_KeyID sig = id /\ sig_Algorithm sig = "ed25519" /\
        pub ∈ trusted /\ KeyID pub = id /\ decode64 (sig_Value sig) = Some raw /\
        ed_verify pub (message_of s) raw = true
  | Err e =>
      Digest (rs_Spec s) <> rm_Digest (rs_Metadata s) \/
      errors_is e ErrUnsigned = true /\
        Forall (fun sig => ~ valid_signature (by_id trusted) (message_of s) sig) (rm_Signatures (rs_Metadata s))
  end.
Proof.
  unfold Verify. cbv zeta. destruct (String.eqb_spec (Digest (rs_Spec s)) (rm_Digest (rs_Metadata s))) as [He|N]; cbn [negb]; [|by left].
  pose proof (try_signatures_spec (by_id trusted) (message_of s) (rm_Signatures (rs_Metadata s)) []) as H.
  destruct (try_signatures _ _ _ _) as [id|e]; [|by right].
  split; [done|]. destruct H as (sig & Hin & Hid & Ha & pub & raw & Hp & Hr & Hv). rewrite Hid in Hp.
  apply by_id_lookup in Hp as [Hp Hk]. by exists sig, pub, raw.
Qed.

(** A signature binds the spec it was made for. When the name, level and digest of
    the spec that was signed have no newline, any spec with the same message, so any
    spec the signature can be moved to, has the same name, certification level and
    digest, and hence, if its own digest matches, a body of the same hash. *)
Theorem message_binds (s s' : RuntimeSpec) :
  contains_byte "010" (rm_Name (rs_Metadata s)) = false -> contains_byte "010" (rm_Level (rs_Metadata s)) = false ->
  contains_byte "010" (rm_Digest (rs_Metadata s)) = false -> message_of s' = message_of s ->
  rm_Name (rs_Metadata s') = rm_Name (rs_Metadata s) /\ rm_Level (rs_Metadata s') = rm_Level (rs_Metadata s) /\
  rm_Digest (rs_Metadata s') = rm_Digest (rs_Metadata s) /\
  (Digest (rs_Spec s) = rm_Digest (rs_Metadata s) -> Digest (rs_Spec s') = rm_Digest (rs_Metadata s') ->
   Digest (rs_Spec s') = Digest (rs_Spec s)).
Proof.
  intros Hn Hl Hd Hm. unfold message_of in Hm. injection Hm as Hm. symmetry in Hm.
  apply lines_injective in Hm as (-> & -> & ->); [|done..]. split; [done|]. split; [done|]. split; [done|]. congruence.
Qed.

(** C34: What the compiler emits can be signed, shipped and run. A compiled spec can be
    signed by any key; signing keeps everything but the signatures, of which the key
    then has exactly one and the others theirs; and whatever bytes decode to the signed
    spec, [ParseSpec] accepts them and [Verify] accepts the spec with any trusted keys
    that include the signer's, under IDs of their own. *)
Theorem compiled_specs_are_accepted `{!CryptoLaws C} `{E : Externals} `{O : Visits} (cat : Catalog.Catalog)
    (obj : ApiKinds.Object) (opts : Options) (spec : RuntimeSpec) rep err (priv : PrivateKey) (trusted : list PublicKey) :
  Compile cat obj opts = Compiled (Some spec) rep err ->
  Public priv ∈ trusted -> (forall k, k ∈ trusted -> KeyID k = KeyID (Public priv) -> k = Public priv) ->
  exists s', Sign spec priv = Ok s' /\ s' = with_signatures spec (rm_Signatures (rs_Metadata s')) /\
    List.length (List.filter (fun sig => String.eqb (sig_KeyID sig) (KeyID (Public priv))) (rm_Signatures (rs_Metadata s'))) = 1 /\
    (forall sig, sig ∈ rm_Signatures (rs_Metadata spec) -> sig_KeyID sig <> KeyID (Public priv) ->
       sig ∈ rm_Signatures (rs_Metadata s')) /\
    (exists id, Verify s' trusted = Ok id) /\
    forall data, decode_spec data = Ok s' -> ParseSpec data = Ok s'.
Proof.
  intros Hc Hin Hu.
  assert (Hspec : rs_Kind spec = KindRuntimeSpec /\ Digest (rs_Spec spec) = rm_Digest (rs_Metadata spec)).
  { unfold Compile, compile_verified in Hc. cbv zeta in Hc. repeat case_match; simplify_eq; done. }
  destruct Hspec as [Hk Hd]. unfold Sign. cbv zeta. rewrite Hd, String.eqb_refl. cbn [negb].
  eexists. split; [done|]. split; [done|].
  change (rm_Signatures (rs_Metadata (with_signatures spec ?sigs))) with sigs.
  set (id := KeyID (Public priv)). set (sig := mkSignature _ _ _).
  set (kept := List.filter (fun old => negb (String.eqb (sig_KeyID old) id)) _).
  split; [|split; [|split]].
  - rewrite List.filter_app. unfold kept. rewrite List.length_app. cbn. rewrite String.eqb_refl. cbn.
    induction (rm_Signatures (rs_Metadata spec)) as [|x l IH]; cbn; [done|].
    destruct (String.eqb (sig_KeyID x) id) eqn:Ex; cbn; [done|]. by rewrite Ex.
  - intros x Hx Hne. apply elem_of_app. left. apply list_elem_of_In, List.filter_In.
    split; [by apply list_elem_of_In|]. apply String.eqb_neq in Hne. fold id in Hne. by rewrite Hne.
  - unfold Verify. cbv zeta. change (message_of (with_signatures spec _)) with (message_of spec).
    unfold with_signatures. cbv zeta. cbn [rs_Metadata rs_Spec rm_Digest rm_Signatures]. rewrite Hd, String.eqb_refl. cbn [negb].
    pose proof (try_signatures_spec (by_id trusted) (message_of spec) (kept ++ [sig]) []) as Hs.
    destruct (try_signatures _ _ _ _) as [i|e]; [by exists i|exfalso]. destruct Hs as [_ Hf].
    rewrite Forall_forall in Hf. apply (Hf sig); [apply elem_of_app; right; left|]. split; [done|].
    exists (Public priv), (ed_sign priv (message_of spec)). split; [by apply by_id_trusted|].
    split; [apply decode_encode|apply verify_sign].
  - intros data Hdec. unfold ParseSpec. rewrite Hdec. unfold with_signatures. cbv zeta.
    cbn [rs_Kind rs_Metadata rs_Spec rm_Digest]. by rewrite Hk, Hd, !String.eqb_refl.
Qed.

(** Reading a bundle of trusted keys ends. Every PEM block consumes its bytes, so the
    loop answers within as many rounds as the bundle has bytes and one, with the same
    answer however many more it is given. *)
Theorem ParsePublicKeys_ends `{!CryptoLaws C} (data : string) :
  exists r, ParsePublicKeys data = Some r /\
    forall fuel, String.length data < fuel -> parse_keys fuel data [] = Some r.
Proof.
  assert (Hmono : forall fuel d keys r, parse_keys fuel d keys = Some r -> forall more, fuel <= more -> parse_keys more d keys = Some r).
  { induction fuel as [|fuel IH]; intros d keys r Hr more Hle; [done|]. destruct more as [|more]; [lia|]. cbn [parse_keys] in *.
    destruct (pem_decode d) as [[[type bs]|] rest]; [|done]. destruct (negb _); [done|].
    destruct (parse_pkix bs) as [[pub|]|]; [|done..]. apply (IH _ _ _ Hr). lia. }
  destruct (parse_keys_enough (S (String.length data)) data [] ltac:(lia)) as [r Hr].
  exists r. split; [done|]. intros fuel Hlt. by apply (Hmono _ _ _ _ Hr).
Qed.
End properties.

(** * Witnesses *)

(** Toy keys: a signature is the key and the message. *)
Definition toy_crypto : Crypto := {|
  PublicKey := string; PrivateKey := string; Public := fun k => k;
  ed_sign := fun k m => k +++ m; ed_verify := fun k m s => String.eqb s (k +++ m);
  encode64 := fun s => s; decode64 := Some;
  pem_decode := fun d => match d with "" => (None, "") | String c d => (Some ("PUBLIC KEY", String c ""), d) end;
  parse_pkix := fun b => Ok (Some b); parse_pkcs8 := fun b => Ok (Some b); pkix := fun k => k; fingerprint := fun s => s
|}.

Definition toy_laws : CryptoLaws toy_crypto.
Proof.
  split; cbn; [intros; apply String.eqb_refl|done|]. intros [|c d] block rest; [done|]. intros [= _ <-]. cbn. lia.
Qed.

Definition some_spec (name level : string) : RuntimeSpec :=
  mkRuntimeSpec "" KindRuntimeSpec (mkRuntimeMeta name "" level "sha256:1" []) (mkRuntimeBody [] [] [] [] [] [] []).

#[local] Instance one_digest : Encoders :=
  {| module_digest := fun s => s; Digest := fun _ => "sha256:1"; operation_key := fun _ _ => "";
     decode_spec := fun _ => Err (Sentinel "not JSON") |}.

(** The same spec from another source. *)
Definition moved_spec : RuntimeSpec :=
  mkRuntimeSpec "" KindRuntimeSpec (mkRuntimeMeta "order-sync" "elsewhere" "L2" "sha256:1" [])
    (mkRuntimeBody [] [] [] [] [] [] []).

Lemma message_binds_witness :
  message_of moved_spec = message_of (some_spec "order-sync" "L2") /\ rm_Level (rs_Metadata moved_spec) = "L2".
Proof.
  split; [reflexivity|].
  exact (proj1 (proj2 (message_binds (some_spec "order-sync" "L2") moved_spec eq_refl eq_refl eq_refl eq_refl))).
Defined.

Lemma ParsePublicKeys_ends_witness : exists r, ParsePublicKeys (C := toy_crypto) "ab" = Some r /\ r = Ok ["a"; "b"].
Proof.
  destruct (ParsePublicKeys_ends (C := toy_crypto) (CryptoLaws0 := toy_laws) "ab") as (r & Hr & _).
  exists r. split; [exact Hr|]. vm_compute in Hr. by injection Hr as <-.
Defined.

#[local] Instance lenient_signing : Externals := lenient.
#[local] Instance in_key_order : Visits := {| visit := fun A m => map_to_list m |}.

Lemma compiled_specs_are_accepted_witness :
  exists spec rep err s', Compile order_catalog (ApiKinds.ORecipe (order_sync "policy"))
      (mkOptions 0%float 0%float 0%float order_reviews) = Compiled (Some spec) rep err /\
    Sign (C := toy_crypto) spec "ada" = Ok s' /\ exists id, Verify (C := toy_crypto) s' ["eve"; "ada"] = Ok id.
Proof.
  destruct (Compile order_catalog _ _) as [[spec|] rep err|] eqn:Hc; [|vm_compute in Hc; discriminate Hc..].
  destruct (compiled_specs_are_accepted (C := toy_crypto) (CryptoLaws0 := toy_laws) _ _ _ spec rep err "ada" ["eve"; "ada"] Hc)
    as (s' & Hs & _ & _ & _ & Hv & _).
  - right. left.
  - intros k _ E. exact E.
  - exists spec, rep, err, s'. split; [reflexivity|]. split; [exact Hs|exact Hv].
Defined.
