(* ===== verification/Template.v ===== *)
(** Idempotency keys: the template language of [src/pkg/engine/template.go], and the
    documents it reads. *)

From S2P Require Import Turgon Prelude GoStr GoErr Policy GuardData Idempotency Governor Guard.
From Stdlib Require Import Ascii String.

(** A document, [map[string]any]. *)
Definition document : Type := gmap string json.

Definition object_of (d : document) : json := JObj (map_to_list d).

(** [lookup]: a null is nothing. *)
Fixpoint lookup_in (v : json) (path : list string) : option json :=
  match path with
  | [] => Some v
  | p :: path =>
      match v with
      | JObj fields => match json_field fields p with JNull => None | c => lookup_in c path end
      | _ => None
      end
  end.

Definition lookup_doc (root : document) (path : string) : option json := lookup_in (object_of root) (split_on "." path).

(** ** Placeholders *)

(** RE2's \s. *)
Definition is_space (c : ascii) : bool :=
  existsb (Ascii.eqb c) [" "; "009"; "010"; "012"; "013"]%char.

Definition is_path (c : ascii) : bool :=
  byte_in "A" "Z" c || byte_in "a" "z" c || byte_in "0" "9" c || Ascii.eqb c "_" || Ascii.eqb c ".".

(** The longest prefix of bytes in a class, and the rest. *)
Fixpoint span (p : ascii -> bool) (s : string) : string * string :=
  match s with
  | "" => ("", "")
  | String c s' => if p c then let (a, b) := span p s' in (String c a, b) else ("", s)
  end.

(** A match of [placeholderRE] at the head of a string: its root, its path and what
    follows. The classes of its parts are disjoint, so there is nothing to backtrack. *)
Definition placeholder (s : string) : option (bool * string * string) :=
  match strip_prefix "{{" s with
  | None => None
  | Some s =>
      let s := snd (span is_space s) in
      let root := match strip_prefix "source." s with
        | Some s => Some (false, s)
        | None => match strip_prefix "doc." s with Some s => Some (true, s) | None => None end
        end in
      match root with
      | None => None
      | Some (from_doc, s) =>
          let (path, s) := span is_path s in
          if String.eqb path "" then None
          else match strip_prefix "}}" (snd (span is_space s)) with
            | Some rest => Some (from_doc, path, rest)
            | None => None
            end
      end
  end.

(** A template: text and placeholders, which name the document or the source. *)
Inductive segment :=
| Text (c : ascii)
| Hole (from_doc : bool) (path : string).

(** The leftmost matches, none overlapping; a match is never empty. *)
Fixpoint segments_of (fuel : nat) (s : string) : list segment :=
  match fuel with
  | 0 => []
  | S fuel =>
      match placeholder s with
      | Some (from_doc, path, rest) => Hole from_doc path :: segments_of fuel rest
      | None => match s with "" => [] | String c s => Text c :: segments_of fuel s end
      end
  end.

Definition segments (tmpl : string) : list segment := segments_of (S (String.length tmpl)) tmpl.

Section render.
(** [strconv.FormatFloat(x, 'f', -1, 64)]. *)
Context (format_float : float64 -> string).

Definition root_name (from_doc : bool) : string := if from_doc then "doc" else "source".

(** What a placeholder becomes, and the error it adds. *)
Definition expand (source doc : document) (from_doc : bool) (path : string) : string * list string :=
  match lookup_doc (if from_doc then doc else source) path with
  | None => ("", [root_name from_doc +++ "." +++ path])
  | Some (JStr x) => (x, [])
  | Some (JFloat x) => (format_float x, [])
  | Some (JBool b) => (if b then "true" else "false", [])
  | Some _ => ("", [root_name from_doc +++ "." +++ path +++ " (not a scalar)"])
  end.

Fixpoint expand_all (source doc : document) (l : list segment) : string * list string :=
  match l with
  | [] => ("", [])
  | Text c :: l => let (out, errs) := expand_all source doc l in (String c out, errs)
  | Hole from_doc path :: l =>
      let (x, e) := expand source doc from_doc path in
      let (out, errs) := expand_all source doc l in (x +++ out, e ++ errs)
  end.

(** [Render]. *)
Definition Render (tmpl : string) (source doc : document) : result string :=
  let (out, errs) := expand_all source doc (segments tmpl) in
  match errs with
  | _ :: _ => Err (Errorf (Msg "template %q: unresolved %s" [FStr tmpl; FStr (join ", " errs)]))
  | [] =>
      if String.eqb (trim_space out) "" then Err (Errorf (Msg "template %q rendered empty" [FStr tmpl]))
      else Ok out
  end.

(** ** Lemmas *)

(** A value a placeholder may stand for. *)
Definition scalar (v : json) : option string :=
  match v with
  | JStr x => Some x
  | JFloat x => Some (format_float x)
  | JBool b => Some (if b then "true" else "false")
  | _ => None
  end.

(** What a placeholder reads. *)
Definition read_hole (source doc : document) (from_doc : bool) (path : string) : option string :=
  match lookup_doc (if from_doc then doc else source) path with Some v => scalar v | None => None end.

Lemma expand_read source doc from_doc path :
  match read_hole source doc from_doc path with
  | Some x => expand source doc from_doc path = (x, [])
  | None => exists e, expand source doc from_doc path = ("", [e])
  end.
Proof.
  unfold read_hole, expand. destruct (lookup_doc _ _) as [[]|]; cbn; eauto.
Qed.

(** The text of a template all of whose placeholders resolve. *)
Fixpoint filled (source doc : document) (l : list segment) : option string :=
  match l with
  | [] => Some ""
  | Text c :: l => match filled source doc l with Some out => Some (String c out) | None => None end
  | Hole from_doc path :: l =>
      match read_hole source doc from_doc path, filled source doc l with
      | Some x, Some out => Some (x +++ out)
      | _, _ => None
      end
  end.

Lemma expand_all_filled source doc l :
  match filled source doc l with
  | Some out => expand_all source doc l = (out, [])
  | None => exists out e errs, expand_all source doc l = (out, e :: errs)
  end.
Proof.
  induction l as [|[c|from_doc path] l IH]; cbn [filled expand_all]; [done|..].
  - destruct (filled source doc l) as [out|]; [by rewrite IH|]. destruct IH as (out & e & errs & ->). eauto.
  - pose proof (expand_read source doc from_doc path) as Hx.
    destruct (read_hole source doc from_doc path) as [x|].
    + rewrite Hx. destruct (filled source doc l) as [out|]; [by rewrite IH|].
      destruct IH as (out & e & errs & ->). cbn. eauto.
    + destruct Hx as [e ->]. destruct (expand_all source doc l) as [out errs]. cbn. eauto.
Qed.

Lemma filled_agree source doc source' doc' l :
  (forall path, Hole false path ∈ l -> lookup_doc source path = lookup_doc source' path) ->
  (forall path, Hole true path ∈ l -> lookup_doc doc path = lookup_doc doc' path) ->
  filled source doc l = filled source' doc' l.
Proof.
  induction l as [|[c|from_doc path] l IH]; intros Hs Hd; cbn; [done|..].
  - by rewrite IH by (intros; first [apply Hs|apply Hd]; by right).
  - rewrite IH by (intros; first [apply Hs|apply Hd]; by right).
    assert (Hr : read_hole source doc from_doc path = read_hole source' doc' from_doc path); [|by rewrite Hr].
    unfold read_hole. destruct from_doc; [rewrite Hd by left|rewrite Hs by left]; done.
Qed.

(** The placeholder scanner consumes its match. *)
Lemma span_shorter p s : String.length (snd (span p s)) <= String.length s.
Proof. induction s as [|c s IH]; cbn; [lia|]. destruct (p c); [|done]. destruct (span p s). cbn in *. lia. Qed.

Lemma strip_prefix_shorter p s r : strip_prefix p s = Some r -> String.length s = String.length p + String.length r.
Proof. intros H. apply strip_prefix_spec in H as ->. induction p as [|c p IH]; cbn; [done|]. by rewrite IH. Qed.

Lemma placeholder_shorter s from_doc path rest :
  placeholder s = Some (from_doc, path, rest) -> String.length rest < String.length s.
Proof.
  unfold placeholder. destruct (strip_prefix "{{" s) as [s1|] eqn:H1; [|done].
  apply strip_prefix_shorter in H1. cbn in H1. cbv zeta. pose proof (span_shorter is_space s1) as H2.
  set (s2 := snd (span is_space s1)) in *. clearbody s2.
  assert (Hgo : forall s3 d, String.length s3 <= String.length s2 ->
    (let (path, s) := span is_path s3 in
     if String.eqb path "" then None
     else match strip_prefix "}}" (snd (span is_space s)) with Some rest => Some (d, path, rest) | None => None end)
    = Some (from_doc, path, rest) -> String.length rest < String.length s).
  { intros s3 d H3 He. pose proof (span_shorter is_path s3) as H4. destruct (span is_path s3) as [pth s4].
    destruct (String.eqb pth ""); [done|]. cbn in H4. pose proof (span_shorter is_space s4) as H5.
    destruct (strip_prefix "}}" _) as [r|] eqn:Hr; [|done]. apply strip_prefix_shorter in Hr. cbn in Hr.
    injection He as _ _ <-. lia. }
  destruct (strip_prefix "source." s2) as [s3|] eqn:H3.
  { apply strip_prefix_shorter in H3. apply Hgo. lia. }
  destruct (strip_prefix "doc." s2) as [s3|] eqn:H3'; [|done].
  apply strip_prefix_shorter in H3'. apply Hgo. lia.
Qed.

Lemma segments_enough fuel s : String.length s < fuel -> segments_of fuel s = segments s.
Proof.
  unfold segments. assert (H : forall f1 f2 s, String.length s < f1 -> String.length s < f2 -> segments_of f1 s = segments_of f2 s).
  { clear. induction f1 as [|f1 IH]; intros [|f2] s H1 H2; try lia. cbn [segments_of].
    destruct (placeholder s) as [[[d p] rest]|] eqn:Hp.
    - apply placeholder_shorter in Hp. f_equal. apply IH; lia.
    - destruct s as [|c s]; [done|]. cbn in H1, H2. f_equal. apply IH; lia. }
  intros Hlt. apply H; lia.
Qed.

(** * Properties *)

(** An idempotency key is the template with every placeholder replaced by the scalar
    it names, or an error: [Render] answers a key exactly when every placeholder
    resolves, through objects and not to null, to a string, a number or a boolean, and
    the text is not blank. The key depends on nothing but the values the placeholders
    name, so a retry whose source and document agree there gets the same key. *)
Theorem Render_decides (tmpl : string) (source doc source' doc' : document) (key : string) :
  (Render tmpl source doc = Ok key <-> filled source doc (segments tmpl) = Some key /\ trim_space key <> "") /\
  ((forall path, Hole false path ∈ segments tmpl -> lookup_doc source path = lookup_doc source' path) /\
   (forall path, Hole true path ∈ segments tmpl -> lookup_doc doc path = lookup_doc doc' path) ->
   Render tmpl source doc = Ok key <-> Render tmpl source' doc' = Ok key).
Proof.
  assert (Hd : forall s d, Render tmpl s d = Ok key <-> filled s d (segments tmpl) = Some key /\ trim_space key <> "").
  { intros s d. unfold Render. pose proof (expand_all_filled s d (segments tmpl)) as He.
    destruct (filled s d (segments tmpl)) as [out|].
    - rewrite He. cbv beta iota. destruct (String.eqb_spec (trim_space out) "") as [E|N].
      + split; [done|]. by intros [[= ->] H].
      + split; [by intros [= ->]|]. by intros [[= ->] _].
    - destruct He as (out & e & errs & ->). split; [done|]. by intros []. }
  split; [apply Hd|]. intros [Hs Hdoc]. rewrite !Hd. by rewrite (filled_agree source doc source' doc' (segments tmpl) Hs Hdoc).
Qed.
End render.

(** * Witnesses *)

Definition crm_event : document := {[ "id" := JStr "opp-9"; "total" := JObj [("net", JFloat 12%float)]; "won" := JBool true ]}.

Lemma Render_decides_witness :
  Render (fun _ => "12") "order/{{ source.id }}-{{doc.total.net}}" crm_event crm_event = Ok "order/opp-9-12".
Proof.
  apply (proj1 (Render_decides (fun _ => "12") "order/{{ source.id }}-{{doc.total.net}}" crm_event crm_event crm_event crm_event
    "order/opp-9-12")).
  split; vm_compute; [reflexivity|discriminate].
Defined.
