(* ===== verification/Engine.v ===== *)
(** The engine's data: [src/pkg/engine/types.go], the failures of activities, and the
    notifications of [notify.go]. *)

From S2P Require Import Turgon Prelude GoStr GoErr Policy GuardData Idempotency Governor Guard ApiKinds RuntimeSpec.
From S2P Require Import Compiler Template.
From Stdlib Require Import Ascii String.

(** ** Events *)

(** [connector.Event]. *)
Record Event := mkSourceEvent { sev_ID : string; sev_Position : Z; sev_Name : string; sev_Payload : string }.

(** ** Failures *)

Definition ErrTypeDenied : string := "TurgonDenied".
Definition ErrTypeRejected : string := "TurgonRejected".
Definition ErrTypeInvalid : string := "TurgonInvalid".
Definition ErrTypeUnresolved : string := "TurgonUnresolved".
Definition ErrTypeMapping : string := "TurgonMapping".
Definition ErrTypeCompensationFailed : string := "TurgonCompensationFailed".
Definition ErrTypePlugin : string := "TurgonPlugin".

(** [identity.Suggestion]. *)
Record Suggestion := mkSuggestion { sg_Master : string; sg_Score : float64; sg_Reasons : list string }.

(** [Unresolved]. *)
Record Unresolved := mkUnresolved {
  un_Entity : string;
  un_System : string;
  un_Ref : string;
  un_Attributes : gmap string string;
  un_Suggestions : list Suggestion
}.

(** An error a workflow sees: an application error, with its type, message, details and
    cause, or any other (a timeout, a cancellation, an error without a type). *)
#[warnings="-register-all"]
Inductive failure :=
| App (type : string) (msg : message) (details : option Unresolved) (cause : option failure)
| Fault (e : goerr).

(** [errors.As(err, &app)] and [app.Type()]. *)
Definition failure_type (f : failure) : option string := match f with App t _ _ _ => Some t | Fault _ => None end.

(** What a call answers. *)
Inductive answer (A : Type) :=
| Done (a : A)
| Failed (f : failure).
Arguments Done {_} _.
Arguments Failed {_} _.

(** ** Runs *)

Record RunInput := mkRunInput {
  in_SpecDigest : string;
  in_Workflow : Workflow;
  in_Event : Event;
  in_ApprovalTimeout : Z;
  in_TaskQueue : string
}.

Record WriteRecord := mkWriteRecord {
  wr_Step : string;
  wr_Endpoint : string;
  wr_Operation : string;
  wr_Status : Status;
  wr_Result : string
}.

Record ApprovalSignal := mkApprovalSignal {
  as_Step : string;
  as_Digest : string;
  as_Status : string;
  as_By : string;
  as_Note : string
}.

Record PendingApproval := mkPendingApproval {
  pa_Step : string;
  pa_Digest : string;
  pa_Request : Request;
  pa_Preview : string;
  pa_Reasons : list string;
  pa_Since : Z
}.

Record MapInput := mkMapInput { mi_Config : MapConfig; mi_Doc : document }.
Record ResolveInput := mkResolveInput { ri_Config : ResolveConfig; ri_System : string; ri_Doc : document }.
Record PrepareInput := mkPrepareInput {
  pi_Workflow : string;
  pi_Step : string;
  pi_Config : WriteConfig;
  pi_Source : document;
  pi_Doc : document
}.
Record PrepareOutput := mkPrepareOutput { po_Request : Request; po_Prepared : Prepared }.
Record CommitInput := mkCommitInput { ci_Request : Request; ci_Approval : option Approval }.
Record CompensateInput := mkCompensateInput { xi_Request : Request; xi_Result : string }.
Record PluginInput := mkPluginInput {
  gi_Plugin : string;
  gi_Event : string;
  gi_Entity : string;
  gi_Record : string;
  gi_Workflow : string;
  gi_Step : string
}.

(** ** Notifications *)

Record Fact := mkFact { fa_Name : string; fa_Value : string }.

(** [notify.Notification]; [tell] adds the workflow, the run and the time. *)
Record Notification := mkNotification {
  no_Kind : string;
  no_Step : string;
  no_Title : string;
  no_Text : string;
  no_Facts : list Fact
}.

Definition ApprovalPending : string := "approval.pending".
Definition ApprovalTimedOut : string := "approval.timed-out".
Definition StewardNeeded : string := "steward.needed".
Definition CompensationFailed : string := "compensation.failed".
Definition WriteRefused : string := "write.refused".

(** [SortedFacts]. *)
Definition SortedFacts (m : gmap string string) : list Fact :=
  omap (fun '(k, v) => if String.eqb v "" then None else Some (mkFact k v)) (sort_by fst (map_to_list m)).

(** Bytes that continue a UTF-8 character. *)
Definition continues (c : ascii) : bool := (128 <=? N_of_ascii c)%N && (N_of_ascii c <? 192)%N.

(** The number of characters of a UTF-8 string, and its first characters. *)
Fixpoint runes (s : string) : nat :=
  match s with "" => 0 | String c s => (if continues c then 0 else 1) + runes s end.
Fixpoint first_runes (n : nat) (s : string) : string :=
  match s with
  | "" => ""
  | String c s =>
      if continues c then String c (first_runes n s)
      else match n with 0 => "" | S n => String c (first_runes n s) end
  end.

(** [clip]: at most 300 characters, the last an ellipsis. *)
Definition clip (s : string) : string :=
  if (300 <? runes s)%nat then first_runes 299 s +++ bytes [226; 128; 166]%N else s.

(** What the engine uses to write and read texts: [fmt.Sprintf], the [Error()] of an error
    the Temporal SDK returns, the format of a time, and [meta.RequiredFields]. *)
Class Texts := {
  sprintf : message -> string;
  error_text : failure -> string;
  format_time : Z -> string;
  RequiredFields : string -> list string
}.

Section notifications.
Context `{X : Texts}.

(** [cause]: an application error's own message, without the SDK's wrapping. *)
Definition cause_of (f : failure) : string :=
  match f with
  | App _ m _ _ => if String.eqb (sprintf m) "" then error_text f else sprintf m
  | Fault _ => error_text f
  end.

Definition approvalPending (p : PendingApproval) (deadline : Z) : Notification :=
  let r := pa_Request p in
  let facts : gmap string string := list_to_map [
    ("Target", RTarget r); ("Operation", ROperation r); ("Risk", RRisk r); ("Entity", REntity r); ("Step", pa_Step p);
    ("Reference", RKey r); ("Why approval", join "; " (pa_Reasons p)); ("Decide before", format_time deadline)] in
  let facts := if PrimFloat.eqb (RAmount r) 0%float then facts
    else <["Amount" := sprintf (Msg "%.2f" [FFlt (RAmount r)])]> facts in
  let facts := if Agent (RSubject r) then
      <["Requested by" := "agent " +++ SubjID (RSubject r) +++
          (if String.eqb (OnBehalfOf (RSubject r)) "" then "" else " for " +++ OnBehalfOf (RSubject r))]> facts
    else facts in
  mkNotification ApprovalPending (pa_Step p) ("Approval needed: " +++ ROperation r +++ " on " +++ RTarget r)
    "A run is waiting for someone to approve or reject this write. Nothing is written until then." (SortedFacts facts).

Definition approvalTimedOut (p : PendingApproval) : Notification :=
  mkNotification ApprovalTimedOut (pa_Step p)
    ("Approval timed out: " +++ ROperation (pa_Request p) +++ " on " +++ RTarget (pa_Request p))
    "Nobody decided in time, so the write was rejected and the run stopped. An operator can retry it from the console to ask again."
    (SortedFacts (list_to_map [("Step", pa_Step p); ("Reference", RKey (pa_Request p))])).

Definition stewardNeeded (f : failure) : option Notification :=
  match f with
  | App t _ (Some u) _ =>
      if negb (String.eqb t ErrTypeUnresolved) then None
      else
        let facts : gmap string string := list_to_map [
          ("Entity", un_Entity u); ("System", un_System u);
          ("Suggestions", itoa (Z.of_nat (List.length (un_Suggestions u))))] in
        let facts := match un_Suggestions u with
          | s :: _ => <["Best suggestion" := sprintf (Msg "%s (%.0f%%: %s)"
              [FStr (sg_Master s); FFlt (sg_Score s * 100)%float; FStr (join ", " (sg_Reasons s))])]> facts
          | [] => facts
          end in
        Some (mkNotification StewardNeeded "" ("A " +++ un_Entity u +++ " from " +++ un_System u +++ " needs a data steward")
          "The record matches no master record with enough certainty. Link it in the steward queue and the run continues."
          (SortedFacts facts))
  | _ => None
  end.

Definition compensationFailed (step stepErr : string) (undo : list string) : Notification :=
  mkNotification CompensationFailed step "Writes could not be undone"
    "A step failed and undoing the writes before it failed too, so the systems disagree. An operator must reconcile them."
    (SortedFacts (list_to_map [("Failed step", step); ("Step error", clip stepErr); ("Undo errors", clip (join "; " undo))])).

Definition writeRefused (step : string) (w : option WriteConfig) (f : failure) (undone : Z) : option Notification :=
  match w, failure_type f with
  | Some w, Some t =>
      if negb (String.eqb t ErrTypeInvalid) then None
      else
        let facts : gmap string string :=
          list_to_map [("Target", wc_Endpoint w); ("Operation", wc_Operation w); ("Step", step)] in
        let (facts, text) := match RequiredFields (cause_of f) with
          | [] => (facts, "The write was refused as invalid, so the run stopped.")
          | fields => (<["Missing fields" := join ", " fields]> facts,
              "The system refused the write because fields it requires were missing, so the run stopped.")
          end in
        let text := if (0 <? undone)%Z
          then text +++ " The " +++ itoa undone +++ " write(s) before it were undone." else text in
        Some (mkNotification WriteRefused step ("Write refused: " +++ wc_Operation w +++ " on " +++ wc_Endpoint w)
          (text +++ " Fix the mapping or the record, then retry the run (with the corrected spec, if the mapping changed).")
          (SortedFacts facts))
  | _, _ => None
  end.
End notifications.
