(* ===== verification/AgentData.v ===== *)
(** Agent writes: their data, [src/pkg/engine/agent.go], and where agents are notified,
    [agentpush.go]. *)

From S2P Require Import Turgon Prelude GoStr GoErr Policy GuardData Idempotency Governor Guard ApiKinds RuntimeSpec.
From S2P Require Import Compiler Template Engine.
From Stdlib Require Import Ascii String.

Definition AgentWriteWorkflowName : string := "turgon.agent-write".
Definition AgentStep : string := "agent-write".
Definition pushVersion : string := "agent-push".

(** [PushConfig]. *)
Record PushConfig := mkPushConfig {
  pc_ID : string;
  pc_URL : string;
  pc_Token : string;
  pc_Schemes : list string;
  pc_Credentials : string
}.

(** [MaxPushConfigs]. *)
Definition MaxPushConfigs : nat := 5.

(** [AgentWriteInput]. *)
Record AgentWriteInput := mkAgentWriteInput {
  aw_SpecDigest : string;
  aw_Request : Request;
  aw_ApprovalTimeout : Z;
  aw_Push : list PushConfig
}.

(** [AgentWriteState]. *)
Inductive AgentWriteState :=
| AgentWriteCommitted
| AgentWritePending
| AgentWriteRunning
| AgentWriteDenied
| AgentWriteRejected
| AgentWriteInvalid
| AgentWriteFailed.

(** [AgentWriteStatus]. *)
Record AgentWriteStatus := mkAgentWriteStatus {
  st_State : AgentWriteState;
  st_Write : option WriteRecord;
  st_Pending : option PendingApproval;
  st_Message : string
}.

(** [AgentPushInput], without the workflow's own ID. *)
Record AgentPushInput := mkAgentPushInput { ap_Config : PushConfig; ap_Tool : string; ap_Status : AgentWriteStatus }.

(** A signal that changes where to notify. *)
Inductive push_signal :=
| PushSet (c : PushConfig)
| PushDelete (id : string).

(** ** Push configurations *)

(** [set]: replaces the configuration of that ID, or adds it while there is room. *)
Fixpoint replace_config (c : PushConfig) (l : list PushConfig) : option (list PushConfig) :=
  match l with
  | [] => None
  | x :: l =>
      if String.eqb (pc_ID x) (pc_ID c) then Some (c :: l)
      else match replace_config c l with Some l => Some (x :: l) | None => None end
  end.

Definition set_config (c : PushConfig) (l : list PushConfig) : list PushConfig :=
  match replace_config c l with
  | Some l => l
  | None => if (List.length l <? MaxPushConfigs)%nat then l ++ [c] else l
  end.

(** [delete]. *)
Fixpoint delete_config (id : string) (l : list PushConfig) : list PushConfig :=
  match l with
  | [] => []
  | x :: l => if String.eqb (pc_ID x) id then l else x :: delete_config id l
  end.

Definition apply_signal (l : list PushConfig) (s : push_signal) : list PushConfig :=
  match s with PushSet c => set_config c l | PushDelete id => delete_config id l end.

(** The configurations a write starts with. *)
Definition initial_configs (l : list PushConfig) : list PushConfig := fold_left (fun l c => set_config c l) l [].

(** [inputs]. *)
Definition push_inputs (l : list PushConfig) (tool : string) (st : AgentWriteStatus) : list AgentPushInput :=
  map (fun c => mkAgentPushInput c tool st) l.

(** ** Status *)

Section status.
Context `{X : Texts}.

(** [statusOf]. *)
Definition statusOf (writes : list WriteRecord) (err : option failure) : AgentWriteStatus :=
  match err with
  | None => mkAgentWriteStatus AgentWriteCommitted (List.head writes) None ""
  | Some f =>
      match f with
      | App t m _ _ =>
          let state := if String.eqb t ErrTypeDenied then AgentWriteDenied
            else if String.eqb t ErrTypeRejected then AgentWriteRejected
            else if String.eqb t ErrTypeInvalid then AgentWriteInvalid
            else AgentWriteFailed in
          mkAgentWriteStatus state None None (sprintf m)
      | Fault _ => mkAgentWriteStatus AgentWriteFailed None None (error_text f)
      end
  end.
End status.

(** [sameRequest]. *)
Definition sameRequest (a b : Request) : bool :=
  String.eqb (RTarget a) (RTarget b) && String.eqb (ROperation a) (ROperation b) && String.eqb (RKey a) (RKey b) &&
  String.eqb (SubjID (RSubject a)) (SubjID (RSubject b)) && String.eqb (OnBehalfOf (RSubject a)) (OnBehalfOf (RSubject b)) &&
  String.eqb (RReason a) (RReason b) && String.eqb (RPayload a) (RPayload b).

(** ** Lemmas *)

Definition distinct_configs (l : list PushConfig) : Prop := NoDup (map pc_ID l) /\ List.length l <= MaxPushConfigs.

Lemma replace_config_ids c l l' : replace_config c l = Some l' -> map pc_ID l' = map pc_ID l.
Proof.
  revert l'. induction l as [|x l IH]; intros l' H; cbn in H; [done|].
  destruct (String.eqb_spec (pc_ID x) (pc_ID c)) as [E|]; [injection H as <-; cbn; by rewrite E|].
  destruct (replace_config c l) as [l1|] eqn:E; [|done]. injection H as <-. cbn. by rewrite (IH l1).
Qed.

Lemma replace_config_none c l : replace_config c l = None -> pc_ID c ∉ map pc_ID l.
Proof.
  induction l as [|x l IH]; intros H; cbn in *; [by intros ?%elem_of_nil|].
  destruct (String.eqb_spec (pc_ID x) (pc_ID c)) as [|N]; [done|]. destruct (replace_config c l); [done|].
  rewrite elem_of_cons. intros [?|?]; [done|by apply IH].
Qed.

(** A write notifies at most five URLs, each ID once, whatever signals it gets. *)
Lemma apply_signal_distinct l s : distinct_configs l -> distinct_configs (apply_signal l s).
Proof.
  intros [Hn Hl]. destruct s as [c|id]; cbn [apply_signal].
  - unfold set_config. destruct (replace_config c l) as [l'|] eqn:E.
    + apply replace_config_ids in E. split; [by rewrite E|]. by rewrite <- (List.length_map pc_ID), E, List.length_map.
    + apply replace_config_none in E. destruct (Nat.ltb_spec (List.length l) MaxPushConfigs) as [Hlt|]; [|by split].
      split; [|rewrite List.length_app; cbn; lia]. rewrite List.map_app. apply NoDup_app. split; [done|].
      split; [by intros i Hi [->|?%elem_of_nil]%elem_of_cons|apply NoDup_singleton].
  - assert (Hsub : map pc_ID (delete_config id l) `sublist_of` map pc_ID l).
    { clear. induction l as [|x l IH]; cbn; [constructor|]. destruct (String.eqb _ _); [by apply sublist_cons|by apply sublist_skip]. }
    split; [by eapply sublist_NoDup|]. apply sublist_length in Hsub. rewrite !List.length_map in Hsub. lia.
Qed.

Lemma signals_distinct gs l : distinct_configs l -> distinct_configs (fold_left apply_signal gs l).
Proof. revert l. induction gs as [|g gs IH]; intros l H; cbn; [done|]. by apply IH, apply_signal_distinct. Qed.

Lemma initial_configs_distinct l : distinct_configs (initial_configs l).
Proof.
  unfold initial_configs. assert (H0 : distinct_configs []) by (split; [constructor|cbn; lia]).
  revert H0. generalize (@nil PushConfig). induction l as [|c cs IH]; intros l0 H0; cbn; [done|].
  apply IH. apply (apply_signal_distinct l0 (PushSet c) H0).
Qed.
