(* ===== verification/Workflow.v ===== *)
(** The workflow interpreter: [IntegrationWorkflow] of [src/pkg/engine/workflow.go], with
    [tell] of [notify.go] and [runPlugins] of [plugins.go]. A run talks to the world
    through activities, signals, a timer and version gates, an interface ([World]) that
    every caller of the interpreter's theorems may implement; what it asked and what was
    answered is its history, latest first. Metrics and logs are left out, as is the
    registration of the query handler, which only fails for a reserved name. *)

From S2P Require Import Turgon Prelude GoStr GoErr Policy GuardData Idempotency Governor Guard ApiKinds RuntimeSpec.
From S2P Require Import Compiler Template Engine AgentData.
From Stdlib Require Import Ascii String.

(** [DefaultApprovalTimeout]: 72 hours in nanoseconds. *)
Definition DefaultApprovalTimeout : Z := 259200000000000.

Definition approvalTimeoutActor : string := "turgon/approval-timeout".

(** Version gates. *)
Definition notifyVersion : string := "notify-people".
Definition notifyRefusedVersion : string := "notify-refused".
Definition pluginsVersion : string := "logic-plugins".
Definition localStepsVersion : string := "local-map-resolve".

(** The world as a run sees it: each activity with what it finally answered, after any
    retries; whether map and resolve steps run locally makes no difference to them but
    is asked. [signals w deadline] is what the approval channel hands over until a timer
    set for the deadline fires, with the world after each, and the world when it fired. *)
Class World (W : Type) := {
  w_now : W -> Z;
  w_version : W -> string -> bool;
  w_map : bool -> MapInput -> W -> answer document * W;
  w_resolve : bool -> ResolveInput -> W -> answer document * W;
  w_prepare : PrepareInput -> W -> answer PrepareOutput * W;
  w_commit : CommitInput -> W -> answer Outcome * W;
  w_compensate : CompensateInput -> W -> option failure * W;
  w_notify : Notification -> W -> W;
  w_plugin : PluginInput -> W -> W;
  w_signals : W -> Z -> list (ApprovalSignal * W) * W
}.

(** [encoding/json], as the engine uses it. *)
Class Json := {
  decode_document : string -> result document;
  decode_value : string -> option json;
  decode_object : string -> option document;
  encode_document : document -> option string;
  (** [RequestDigest]. *)
  RequestDigest : Request -> string
}.

(** What a run did. *)
#[warnings="-register-all"]
Inductive call :=
| CMap (i : MapInput) (r : answer document)
| CResolve (i : ResolveInput) (r : answer document)
| CPrepare (i : PrepareInput) (r : answer PrepareOutput)
| CCommit (i : CommitInput) (r : answer Outcome)
| CCompensate (i : CompensateInput) (r : option failure)
| CNotify (n : Notification)
| CPlugin (i : PluginInput)
| CSignal (s : ApprovalSignal)
| CTimer
| CPrepareAgent (req : Request) (r : answer Prepared)
| CPush (l : list AgentPushInput).

(** [committedWrite]. *)
Record committedWrite := mkCommittedWrite { dw_step : string; dw_request : Request; dw_result : string }.

Section workflow.
Context {W : Type} `{A : World W} `{X : Texts} `{J : Json}.

(** ** Computations of a run *)

(** The world, the history and the pending approval the query handler answers with. *)
Record run := mkRun { r_world : W; r_calls : list call; r_pending : option PendingApproval }.

Definition R (B : Type) : Type := run -> B * run.
#[export] Instance R_ret : MRet R := fun B b s => (b, s).
#[export] Instance R_bind : MBind R := fun B C k m s => let (b, s) := m s in k b s.

Definition call_world {B} (f : W -> B * W) (ev : B -> call) : R B := fun s =>
  let (b, w) := f (r_world s) in (b, mkRun w (ev b :: r_calls s) (r_pending s)).

Definition now : R Z := fun s => (w_now (r_world s), s).
Definition version (id : string) : R bool := fun s => (w_version (r_world s) id, s).
Definition set_pending (p : option PendingApproval) : R unit := fun s => (tt, mkRun (r_world s) (r_calls s) p).

(** [tell]: best effort. *)
Definition tell (n : Notification) : R unit :=
  on ← version notifyVersion;
  if negb on then mret tt else call_world (fun w => (tt, w_notify n w)) (fun _ => CNotify n).

Fixpoint run_all {B} (f : B -> R unit) (l : list B) : R unit :=
  match l with [] => mret tt | x :: l => _ ← f x; run_all f l end.

(** [runPlugins]: every plugin, whatever the others answer. *)
Definition runPlugins (wf step : string) (w : WriteConfig) (record : string) : R unit :=
  run_all (fun p =>
    let i := mkPluginInput p (wc_Event w) (wc_Entity w) record wf step in
    call_world (fun w => (tt, w_plugin i w)) (fun _ => CPlugin i)) (wc_Plugins w).

(** [modelRecord]: the result over the payload. *)
Definition modelRecord (payload res : string) : string :=
  match decode_object payload, decode_object res with
  | Some doc, Some r => default res (encode_document (r ∪ doc))
  | _, _ => res
  end.

(** [withOutput]. *)
Definition withOutput (doc : document) (field res : string) : document :=
  if String.eqb field "" then doc
  else match decode_value res with Some v => <[field := v]> doc | None => doc end.

(** ** Approvals *)

Definition matches (p : PendingApproval) (s : ApprovalSignal) : bool :=
  String.eqb (as_Step s) (pa_Step p) && String.eqb (as_Digest s) (pa_Digest p).

(** What a matching signal decides: anything but approved is a rejection. *)
Definition decision_of (s : ApprovalSignal) : Approval :=
  mkApproval (if String.eqb (as_Status s) ApprovalApproved then ApprovalApproved else ApprovalRejected) (as_By s) (as_Note s).

Definition timed_out (timeout : Z) : Approval :=
  mkApproval ApprovalRejected approvalTimeoutActor (sprintf (Msg "nobody decided within %s" [FInt timeout])).

(** The loop of [awaitApproval] over what the channel hands over. *)
Fixpoint await_loop (p : PendingApproval) (timeout : Z) (fired : W) (sigs : list (ApprovalSignal * W)) : R Approval :=
  match sigs with
  | [] => call_world (fun _ => (timed_out timeout, fired)) (fun _ => CTimer)
  | (s, w) :: sigs =>
      _ ← call_world (fun _ => (tt, w)) (fun _ => CSignal s);
      if matches p s then mret (decision_of s) else await_loop p timeout fired sigs
  end.

Definition awaitApproval (p : PendingApproval) (timeout : Z) : R Approval := fun s =>
  let (sigs, fired) := w_signals (r_world s) (w_now (r_world s) + timeout) in await_loop p timeout fired sigs s.

(** ** Steps *)

(** What a step leaves: the document, the run's writes and the ones to undo; or the
    failure that ends the run. *)
Record progress := mkProgress { pr_doc : document; pr_writes : list WriteRecord; pr_done : list committedWrite }.

Definition local_steps : R bool := version localStepsVersion.

Definition map_step (local : bool) (cfg : MapConfig) (p : progress) : R (answer progress) :=
  let i := mkMapInput cfg (pr_doc p) in
  r ← call_world (w_map local i) (CMap i);
  mret (match r with Done next => Done (mkProgress next (pr_writes p) (pr_done p)) | Failed f => Failed f end).

Definition resolve_step (local : bool) (system : string) (cfg : ResolveConfig) (p : progress) : R (answer progress) :=
  let i := mkResolveInput cfg system (pr_doc p) in
  r ← call_world (w_resolve local i) (CResolve i);
  mret (match r with Done next => Done (mkProgress next (pr_writes p) (pr_done p)) | Failed f => Failed f end).

(** A prepared write waits for a person if it needs one. *)
Definition approve (step : string) (prep : PrepareOutput) (timeout : Z) : R (option Approval) :=
  if negb (PNeedsApproval (po_Prepared prep)) then mret None
  else
    since ← now;
    let p := mkPendingApproval step (RequestDigest (po_Request prep)) (po_Request prep) (PPreview (po_Prepared prep))
      (Reasons (PDecision (po_Prepared prep))) since in
    _ ← set_pending (Some p);
    _ ← tell (approvalPending p (since + timeout));
    a ← awaitApproval p timeout;
    _ ← (if String.eqb (ApBy a) approvalTimeoutActor then tell (approvalTimedOut p) else mret tt);
    _ ← set_pending None;
    mret (Some a).

Definition write_record (step : string) (w : WriteConfig) (o : Outcome) : WriteRecord :=
  mkWriteRecord step (wc_Endpoint w) (wc_Operation w) (OStatus o) (OResult o).

Definition write_step (wf step : string) (source : document) (timeout : Z) (w : WriteConfig) (p : progress)
    : R (answer progress) :=
  let i := mkPrepareInput wf step w source (pr_doc p) in
  prep ← call_world (w_prepare i) (CPrepare i);
  match prep with
  | Failed f => mret (Failed f)
  | Done prep =>
      match PDuplicate (po_Prepared prep) with
      | Some d =>
          mret (Done (mkProgress (withOutput (pr_doc p) (wc_Output w) (OResult d))
            (pr_writes p ++ [write_record step w d]) (pr_done p)))
      | None =>
          approval ← approve step prep timeout;
          let ci := mkCommitInput (po_Request prep) approval in
          out ← call_world (w_commit ci) (CCommit ci);
          match out with
          | Failed f => mret (Failed f)
          | Done out =>
              on ← (match wc_Plugins w with
                    | _ :: _ => if bool_decide (OStatus out = StatusCommitted) then version pluginsVersion else mret false
                    | [] => mret false
                    end);
              _ ← (if on : bool then runPlugins wf step w (modelRecord (RPayload (po_Request prep)) (OResult out)) else mret tt);
              mret (Done (mkProgress (withOutput (pr_doc p) (wc_Output w) (OResult out))
                (pr_writes p ++ [write_record step w out])
                (pr_done p ++ [mkCommittedWrite step (po_Request prep) (OResult out)])))
          end
      end
  end.

Definition workflow_step (local : bool) (wf : Workflow) (source : document) (timeout : Z) (st : WorkflowStep) (p : progress)
    : R (answer progress) :=
  match wst_Map st, wst_Resolve st, wst_Write st with
  | Some cfg, _, _ => map_step local cfg p
  | None, Some cfg, _ => resolve_step local (src_Endpoint (wf_Trigger wf)) cfg p
  | None, None, Some w => write_step (wf_Name wf) (wst_Name st) source timeout w p
  | None, None, None => mret (Done p)
  end.

(** ** Failing *)

(** The loop of [fail] over the committed writes, newest first: what failed, for the
    error and for the notification. *)
Fixpoint undo_all (l : list committedWrite) : R (list string * list string) :=
  match l with
  | [] => mret ([], [])
  | d :: l =>
      let i := mkCompensateInput (dw_request d) (dw_result d) in
      r ← call_world (w_compensate i) (CCompensate i);
      rest ← undo_all l;
      mret (match r with
        | None => rest
        | Some f => (("compensate " +++ dw_step d +++ ": " +++ error_text f) :: fst rest,
                     ("undo " +++ dw_step d +++ ": " +++ cause_of f) :: snd rest)
        end)
  end.

(** [failedWrite]: the write of the first step of that name. *)
Definition failedWrite (wf : Workflow) (failedStep : string) : option WriteConfig :=
  match find_first (fun st => String.eqb (wst_Name st) failedStep) (wf_Steps wf) with
  | Some st => wst_Write st
  | None => None
  end.

Definition refused (wf : Workflow) (failedStep : string) (f : failure) (undone : Z) : R unit :=
  match writeRefused failedStep (failedWrite wf failedStep) f undone with
  | None => mret tt
  | Some n => on ← version notifyRefusedVersion; if on : bool then tell n else mret tt
  end.

Definition fail (wf : Workflow) (failedStep : string) (p : progress) (f : failure) : R (list WriteRecord * option failure) :=
  _ ← (match stewardNeeded f with Some n => tell n | None => mret tt end);
  match pr_done p with
  | [] => _ ← refused wf failedStep f 0; mret (pr_writes p, Some f)
  | _ =>
      r ← undo_all (List.rev (pr_done p));
      match fst r with
      | [] => _ ← refused wf failedStep f (Z.of_nat (List.length (pr_done p))); mret (pr_writes p, Some f)
      | errs =>
          _ ← tell (compensationFailed failedStep (cause_of f) (snd r));
          mret (pr_writes p, Some (App ErrTypeCompensationFailed
            (Msg "step failed and %d compensation(s) failed: %v"
              [FInt (Z.of_nat (List.length errs)); FStr (join (String "010" "") errs)]) None (Some f)))
      end
  end.

(** The loop over the workflow's steps. *)
Fixpoint run_steps (local : bool) (wf : Workflow) (source : document) (timeout : Z) (steps : list WorkflowStep) (p : progress)
    : R (list WriteRecord * option failure) :=
  match steps with
  | [] => mret (pr_writes p, None)
  | st :: steps =>
      r ← workflow_step local wf source timeout st p;
      match r with
      | Done p => run_steps local wf source timeout steps p
      | Failed f => fail wf (wst_Name st) p f
      end
  end.

(** [IntegrationWorkflow]: what it wrote, and the error it failed with. *)
Definition IntegrationWorkflow (i : RunInput) : R (list WriteRecord * option failure) :=
  let timeout := if (in_ApprovalTimeout i <=? 0)%Z then DefaultApprovalTimeout else in_ApprovalTimeout i in
  match decode_document (sev_Payload (in_Event i)) with
  | Err e => mret ([], Some (App ErrTypeInvalid (msg0 "event payload is not a JSON object") None (Some (Fault e))))
  | Ok source =>
      local ← local_steps;
      run_steps local (in_Workflow i) source timeout (wf_Steps (in_Workflow i)) (mkProgress source [] [])
  end.
End workflow.

Arguments run W : clear implicits.
Arguments R W B : clear implicits.
