(* ===== verification/WorkflowTheorems.v ===== *)
(** Runs of compiled workflows: their calls as a relation on steps, and what a run
    guarantees for any world. *)

From S2P Require Import Turgon Prelude GoStr GoErr Policy Governor GuardData Idempotency Guard ApiKinds RuntimeSpec Compiler.
From S2P Require Import Template Engine Workflow.
From Stdlib Require Import Ascii String.

(** Lemmas on runs: the calls of a run as a relation on its steps, proved of the
    interpreter once, and what follows from it by induction. *)

(** Calls that neither read, write nor undo anything. *)
Definition side (c : call) : Prop :=
  match c with CNotify _ | CPlugin _ | CSignal _ | CTimer | CPush _ => True | _ => False end.

(** Calls the workflow's steps make of the write guard, and of the other activities. *)
Definition is_commit (c : call) : Prop := match c with CCommit _ _ => True | _ => False end.
Definition is_compensate (c : call) : Prop := match c with CCompensate _ _ => True | _ => False end.

Section workflow.
Context {W : Type} `{A : World W} `{X : Texts} `{J : Json}.

(** The calls of a computation, oldest first. *)
Definition ran (s s' : run W) (k : list call) : Prop := r_calls s' = List.rev k ++ r_calls s.

Lemma ran_nil s : ran s s [].
Proof using. done. Qed.

Lemma ran_app s s1 s2 k1 k2 : ran s s1 k1 -> ran s1 s2 k2 -> ran s s2 (k1 ++ k2).
Proof using. unfold ran. intros H1 H2. by rewrite H2, H1, List.rev_app_distr, app_assoc. Qed.

Lemma flow_bind_inv {B C} (m : R W B) (f : B -> R W C) s c s' :
  (m ≫= f) s = (c, s') -> exists b s1, m s = (b, s1) /\ f b s1 = (c, s').
Proof using. unfold mbind, R_bind. destruct (m s) as [b s1]. eauto. Qed.

Lemma call_inv {B} (f : W -> B * W) (ev : B -> call) s b s' : call_world f ev s = (b, s') -> ran s s' [ev b].
Proof using. unfold call_world. destruct (f (r_world s)) as [b' w]. intros [= <- <-]. done. Qed.

Lemma tell_inv n s b s' : tell n s = (b, s') -> exists k, ran s s' k /\ Forall side k.
Proof using.
  unfold tell. intros H. apply flow_bind_inv in H as (on & s1 & H1 & H). injection H1 as <- <-.
  destruct (negb _); [injection H as _ <-; exists []; split; [apply ran_nil|done]|].
  apply call_inv in H. eexists. split; [exact H|by repeat constructor].
Qed.

Lemma run_all_inv {B} (f : B -> R W unit) l s b s' :
  (forall x s b s', f x s = (b, s') -> exists k, ran s s' k /\ Forall side k) ->
  run_all f l s = (b, s') -> exists k, ran s s' k /\ Forall side k.
Proof using.
  intros Hf. revert s. induction l as [|x l IH]; intros s H; cbn in H.
  - injection H as _ <-. exists []. split; [apply ran_nil|done].
  - apply flow_bind_inv in H as (u & s1 & H1 & H2). apply Hf in H1 as (k1 & R1 & F1). apply IH in H2 as (k2 & R2 & F2).
    exists (k1 ++ k2). split; [by apply (ran_app s s1)|by apply Forall_app].
Qed.

Lemma runPlugins_inv wf step w rec s b s' : runPlugins wf step w rec s = (b, s') -> exists k, ran s s' k /\ Forall side k.
Proof using.
  apply run_all_inv. intros p s1 b1 s2 H. apply call_inv in H. eexists. split; [exact H|by repeat constructor].
Qed.

(** ** Waiting for a person *)

(** The signals a wait received. *)
Definition signals_in (k : list call) : list ApprovalSignal := omap (fun c => match c with CSignal s => Some s | _ => None end) k.

(** What a wait ended with: the first signal that matches, or the timer. *)
Inductive decided (p : PendingApproval) (timeout : Z) : list ApprovalSignal -> Approval -> Prop :=
| decided_by ignored s : Forall (fun x => matches p x = false) ignored -> matches p s = true ->
    decided p timeout (ignored ++ [s]) (decision_of s)
| decided_late ignored : Forall (fun x => matches p x = false) ignored -> decided p timeout ignored (timed_out timeout).

Lemma await_loop_inv p timeout fired sigs s a s' :
  await_loop p timeout fired sigs s = (a, s') ->
  exists k, ran s s' k /\ Forall side k /\ decided p timeout (signals_in k) a.
Proof using.
  revert s. induction sigs as [|[x w] sigs IH]; intros s H; cbn [await_loop] in H.
  - injection H as <- <-. exists [CTimer]. split; [done|]. split; [by repeat constructor|]. by apply decided_late.
  - apply flow_bind_inv in H as (u & s1 & H1 & H). apply call_inv in H1. destruct (matches p x) eqn:Hm.
    + injection H as <- <-. exists [CSignal x]. split; [done|]. split; [by repeat constructor|].
      by apply (decided_by p timeout []).
    + apply IH in H as (k & Hr & Hs & Hd). exists (CSignal x :: k). split; [by apply (ran_app s s1 s' [CSignal x])|].
      split; [by constructor|]. change (signals_in (CSignal x :: k)) with (x :: signals_in k).
      destruct Hd as [ig y Hig Hy|ig Hig]; [apply (decided_by p timeout (x :: ig)); [by constructor|done]|].
      apply decided_late. by constructor.
Qed.

Lemma side_signals_app k1 k2 : signals_in (k1 ++ k2) = signals_in k1 ++ signals_in k2.
Proof using. apply omap_app. Qed.

Lemma tell_signals n s b s' : tell n s = (b, s') -> exists k, ran s s' k /\ Forall side k /\ signals_in k = [].
Proof using.
  unfold tell. intros H. apply flow_bind_inv in H as (on & s1 & H1 & H). injection H1 as <- <-.
  destruct (negb _); [injection H as _ <-; exists []; split; [apply ran_nil|done]|].
  apply call_inv in H. eexists. split; [exact H|]. split; [by repeat constructor|done].
Qed.

(** The approval a commit is given. *)
Definition approval_for (step : string) (prep : PrepareOutput) (timeout : Z) (k : list call) (ap : option Approval) : Prop :=
  match ap with
  | None => PNeedsApproval (po_Prepared prep) = false
  | Some a => PNeedsApproval (po_Prepared prep) = true /\
      exists p, pa_Step p = step /\ pa_Digest p = RequestDigest (po_Request prep) /\ pa_Request p = po_Request prep /\
        decided p timeout (signals_in k) a
  end.

Lemma approve_inv step prep timeout s ap s' :
  approve step prep timeout s = (ap, s') ->
  exists k, ran s s' k /\ Forall side k /\ approval_for step prep timeout k ap.
Proof using.
  unfold approve. destruct (PNeedsApproval (po_Prepared prep)) eqn:Hn; cbn [negb].
  2: { intros [= <- <-]. exists []. split; [apply ran_nil|]. split; [done|]. done. }
  intros H. apply flow_bind_inv in H as (since & s0 & H0 & H). injection H0 as <- <-. cbv zeta in H.
  apply flow_bind_inv in H as ([] & s1 & H1 & H). injection H1 as <-.
  set (p := mkPendingApproval _ _ _ _ _ _) in *.
  apply flow_bind_inv in H as (u & s2 & H2 & H). apply tell_signals in H2 as (k2 & R2 & S2 & G2).
  apply flow_bind_inv in H as (a & s3 & H3 & H). unfold awaitApproval in H3.
  destruct (w_signals _ _) as [sigs fired]. apply await_loop_inv in H3 as (k3 & R3 & S3 & D3).
  apply flow_bind_inv in H as (u4 & s4 & H4 & H).
  assert (H4' : exists k, ran s3 s4 k /\ Forall side k /\ signals_in k = []).
  { destruct (String.eqb _ _); [by apply tell_signals in H4|]. injection H4 as _ <-. exists []. split; [apply ran_nil|done]. }
  destruct H4' as (k4 & R4 & S4 & G4).
  apply flow_bind_inv in H as ([] & s5 & H5 & H). injection H5 as <-. injection H as <- <-.
  exists (k2 ++ k3 ++ k4). split; [|split; [by rewrite !Forall_app|]].
  - assert (Hr : ran s s4 (k2 ++ k3 ++ k4)); [|exact Hr].
    apply (ran_app s s2); [exact R2|]. by apply (ran_app s2 s3).
  - split; [done|]. exists p. do 3 (split; [done|]).
    by rewrite !side_signals_app, G2, G4, app_nil_r.
Qed.

(** ** Steps *)

Section steps.
Context (wf : Workflow) (source : document) (timeout : Z).

Definition prepare_input (step : string) (w : WriteConfig) (p : progress) : PrepareInput :=
  mkPrepareInput (wf_Name wf) step w source (pr_doc p).

(** The progress after a write that answered [o]: a duplicate's, or this run's own. *)
Definition after_duplicate (step : string) (w : WriteConfig) (p : progress) (o : Outcome) : progress :=
  mkProgress (withOutput (pr_doc p) (wc_Output w) (OResult o)) (pr_writes p ++ [write_record step w o]) (pr_done p).
Definition after_commit (step : string) (w : WriteConfig) (p : progress) (req : Request) (o : Outcome) : progress :=
  mkProgress (withOutput (pr_doc p) (wc_Output w) (OResult o)) (pr_writes p ++ [write_record step w o])
    (pr_done p ++ [mkCommittedWrite step req (OResult o)]).

(** The calls a step makes, and what it leaves. *)
Inductive step_ran (st : WorkflowStep) (p : progress) : list call -> answer progress -> Prop :=
| map_done cfg next : wst_Map st = Some cfg ->
    step_ran st p [CMap (mkMapInput cfg (pr_doc p)) (Done next)] (Done (mkProgress next (pr_writes p) (pr_done p)))
| map_failed cfg f : wst_Map st = Some cfg -> step_ran st p [CMap (mkMapInput cfg (pr_doc p)) (Failed f)] (Failed f)
| resolve_done cfg next : wst_Map st = None -> wst_Resolve st = Some cfg ->
    step_ran st p [CResolve (mkResolveInput cfg (src_Endpoint (wf_Trigger wf)) (pr_doc p)) (Done next)]
      (Done (mkProgress next (pr_writes p) (pr_done p)))
| resolve_failed cfg f : wst_Map st = None -> wst_Resolve st = Some cfg ->
    step_ran st p [CResolve (mkResolveInput cfg (src_Endpoint (wf_Trigger wf)) (pr_doc p)) (Failed f)] (Failed f)
| prepare_failed w f : wst_Map st = None -> wst_Resolve st = None -> wst_Write st = Some w ->
    step_ran st p [CPrepare (prepare_input (wst_Name st) w p) (Failed f)] (Failed f)
| duplicate_write w prep d : wst_Map st = None -> wst_Resolve st = None -> wst_Write st = Some w ->
    PDuplicate (po_Prepared prep) = Some d ->
    step_ran st p [CPrepare (prepare_input (wst_Name st) w p) (Done prep)] (Done (after_duplicate (wst_Name st) w p d))
| commit_failed w prep wait ap f : wst_Map st = None -> wst_Resolve st = None -> wst_Write st = Some w ->
    PDuplicate (po_Prepared prep) = None -> Forall side wait -> approval_for (wst_Name st) prep timeout wait ap ->
    step_ran st p (CPrepare (prepare_input (wst_Name st) w p) (Done prep) :: wait ++
        [CCommit (mkCommitInput (po_Request prep) ap) (Failed f)]) (Failed f)
| write_done w prep wait ap out plugins : wst_Map st = None -> wst_Resolve st = None -> wst_Write st = Some w ->
    PDuplicate (po_Prepared prep) = None -> Forall side wait -> approval_for (wst_Name st) prep timeout wait ap ->
    Forall side plugins ->
    step_ran st p (CPrepare (prepare_input (wst_Name st) w p) (Done prep) :: wait ++
        CCommit (mkCommitInput (po_Request prep) ap) (Done out) :: plugins)
      (Done (after_commit (wst_Name st) w p (po_Request prep) out))
| empty_step : wst_Map st = None -> wst_Resolve st = None -> wst_Write st = None -> step_ran st p [] (Done p).

Lemma write_step_ran st w p s r s' :
  wst_Map st = None -> wst_Resolve st = None -> wst_Write st = Some w ->
  write_step (wf_Name wf) (wst_Name st) source timeout w p s = (r, s') ->
  exists k, ran s s' k /\ step_ran st p k r.
Proof using.
  intros Hm Hr Hw H. unfold write_step in H. cbv zeta in H.
  apply flow_bind_inv in H as (prep & s1 & H1 & H). apply call_inv in H1.
  change (mkPrepareInput _ _ _ _ _) with (prepare_input (wst_Name st) w p) in H1.
  destruct prep as [prep|f]; [|injection H as <- <-; eexists; split; [exact H1|by apply prepare_failed]].
  destruct (PDuplicate (po_Prepared prep)) as [d|] eqn:Hd.
  { injection H as <- <-. eexists. split; [exact H1|by apply duplicate_write]. }
  apply flow_bind_inv in H as (ap & s2 & H2 & H). apply approve_inv in H2 as (k2 & R2 & S2 & A2).
  apply flow_bind_inv in H as (out & s3 & H3 & H). apply call_inv in H3.
  assert (R3 : ran s s3 (CPrepare (prepare_input (wst_Name st) w p) (Done prep) :: k2 ++
    [CCommit (mkCommitInput (po_Request prep) ap) out])).
  { apply (ran_app s s1 s3 [_] _ H1). by apply (ran_app s1 s2 s3). }
  destruct out as [out|f]; [|injection H as <- <-; eexists; split; [exact R3|by eapply commit_failed]].
  apply flow_bind_inv in H as (on & s4 & H4 & H).
  assert (s4 = s3) as ->.
  { destruct (wc_Plugins w); [by injection H4|]. destruct (bool_decide _); [unfold version in H4|]; by injection H4. }
  apply flow_bind_inv in H as (u & s5 & H5 & H). injection H as <- <-.
  assert (H5' : exists k, ran s3 s5 k /\ Forall side k).
  { destruct on; [by apply runPlugins_inv in H5|]. injection H5 as _ <-. exists []. split; [apply ran_nil|done]. }
  destruct H5' as (k5 & R5 & S5). eexists. split; [exact (ran_app s s3 s5 _ k5 R3 R5)|].
  cbn [app]. rewrite <- app_assoc. by eapply write_done.
Qed.

Lemma workflow_step_ran local st p s r s' :
  workflow_step local wf source timeout st p s = (r, s') -> exists k, ran s s' k /\ step_ran st p k r.
Proof using.
  unfold workflow_step. destruct (wst_Map st) as [cfg|] eqn:Hm.
  { unfold map_step. cbv zeta. intros H. apply flow_bind_inv in H as (a & s1 & H1 & H). apply call_inv in H1.
    injection H as <- <-. eexists. split; [exact H1|]. destruct a; [by apply map_done|by apply map_failed]. }
  destruct (wst_Resolve st) as [cfg|] eqn:Hr.
  { unfold resolve_step. cbv zeta. intros H. apply flow_bind_inv in H as (a & s1 & H1 & H). apply call_inv in H1.
    injection H as <- <-. eexists. split; [exact H1|]. destruct a; [by apply resolve_done|by apply resolve_failed]. }
  destruct (wst_Write st) as [w|] eqn:Hw; [by apply write_step_ran|].
  intros [= <- <-]. exists []. split; [apply ran_nil|by apply empty_step].
Qed.

(** The steps of a run up to its end, or to the step that failed. *)
Inductive steps_ran : list WorkflowStep -> progress -> list call -> progress -> option (WorkflowStep * failure) -> Prop :=
| steps_end p : steps_ran [] p [] p None
| steps_stop st steps p k f : step_ran st p k (Failed f) -> steps_ran (st :: steps) p k p (Some (st, f))
| steps_next st steps p k1 p1 k2 p2 e : step_ran st p k1 (Done p1) -> steps_ran steps p1 k2 p2 e ->
    steps_ran (st :: steps) p (k1 ++ k2) p2 e.

(** ** Undoing *)

(** Undoing writes, each answered. *)
Definition undo_calls (l : list committedWrite) (answers : list (option failure)) : list call :=
  zip_with (fun d r => CCompensate (mkCompensateInput (dw_request d) (dw_result d)) r) l answers.

Lemma undo_all_inv l s r s' :
  undo_all l s = (r, s') ->
  exists answers, List.length answers = List.length l /\ ran s s' (undo_calls l answers) /\
    (fst r = [] <-> Forall (fun a => a = None) answers).
Proof using.
  revert s r s'. induction l as [|d l IH]; intros s r s' H; cbn [undo_all] in H.
  - injection H as <- <-. exists []. split; [done|]. split; [apply ran_nil|done].
  - cbv zeta in H. apply flow_bind_inv in H as (a & s1 & H1 & H). apply call_inv in H1.
    apply flow_bind_inv in H as (rest & s2 & H2 & H). apply IH in H2 as (answers & Hlen & R2 & Hn). injection H as <- <-.
    exists (a :: answers). split; [cbn; lia|]. split; [exact (ran_app s s1 s2 [_] _ H1 R2)|].
    rewrite Forall_cons. destruct a as [f|]; [split; [done|by intros []]|]. rewrite Hn. naive_solver.
Qed.

(** What a failed run adds: notifications, every committed write undone, newest first,
    and the error it reports. *)
Definition failed_run (p : progress) (f : failure) (k : list call) (e : failure) : Prop :=
  exists before answers after, k = before ++ undo_calls (List.rev (pr_done p)) answers ++ after /\
    List.length answers = List.length (pr_done p) /\ Forall side before /\ Forall side after /\
    if bool_decide (Forall (fun a => a = None) answers) then e = f
    else exists m, e = App ErrTypeCompensationFailed m None (Some f).

Lemma refused_inv step f n s b s' :
  refused wf step f n s = (b, s') -> exists k, ran s s' k /\ Forall side k.
Proof using.
  unfold refused. destruct (writeRefused _ _ _ _) as [no|].
  2: { intros [= _ <-]. exists []. split; [apply ran_nil|done]. }
  intros H. apply flow_bind_inv in H as (on & s1 & H1 & H). injection H1 as <- <-.
  destruct (w_version _ _); [by apply tell_inv in H|]. injection H as _ <-. exists []. split; [apply ran_nil|done].
Qed.

Lemma fail_ran step p f s writes e s' :
  fail wf step p f s = ((writes, e), s') ->
  writes = pr_writes p /\ exists k err, ran s s' k /\ e = Some err /\ failed_run p f k err.
Proof using.
  unfold fail. intros H. apply flow_bind_inv in H as (u & s1 & H1 & H).
  assert (H1' : exists k, ran s s1 k /\ Forall side k).
  { destruct (stewardNeeded f); [by apply tell_inv in H1|]. injection H1 as _ <-. exists []. split; [apply ran_nil|done]. }
  destruct H1' as (k1 & R1 & S1). destruct (pr_done p) as [|d l] eqn:Hdone.
  - apply flow_bind_inv in H as (u2 & s2 & H2 & H). apply refused_inv in H2 as (k2 & R2 & S2). injection H as <- <- <-.
    split; [done|]. exists (k1 ++ k2), f. split; [by apply (ran_app s s1)|]. split; [done|].
    exists k1, [], k2. rewrite Hdone. repeat split; try done.
  - rewrite <- ?Hdone in H. apply flow_bind_inv in H as (r & s2 & H2 & H).
    apply undo_all_inv in H2 as (answers & Hlen & R2 & Hn). rewrite List.length_rev in Hlen.
    destruct (fst r) as [|x xs] eqn:Hr.
    + apply flow_bind_inv in H as (u3 & s3 & H3 & H). apply refused_inv in H3 as (k3 & R3 & S3). injection H as <- <- <-.
      split; [done|]. exists (k1 ++ undo_calls (List.rev (pr_done p)) answers ++ k3), f.
      split; [apply (ran_app s s1); [done|]; by apply (ran_app s1 s2)|]. split; [done|].
      exists k1, answers, k3. do 4 (split; [done|]). rewrite bool_decide_true; [done|by apply Hn].
    + apply flow_bind_inv in H as (u3 & s3 & H3 & H). apply tell_inv in H3 as (k3 & R3 & S3). injection H as <- <- <-.
      split; [done|]. eexists (k1 ++ undo_calls (List.rev (pr_done p)) answers ++ k3), _.
      split; [apply (ran_app s s1); [done|]; by apply (ran_app s1 s2)|]. split; [done|].
      exists k1, answers, k3. do 4 (split; [done|]). rewrite bool_decide_false; [eauto|].
      intros Hall. by apply Hn in Hall.
Qed.

(** A run of the steps: the calls of the steps, then what failing adds. *)
Lemma run_steps_ran local steps p s writes e s' :
  run_steps local wf source timeout steps p s = ((writes, e), s') ->
  exists k1 k2 p' stop, ran s s' (k1 ++ k2) /\ steps_ran steps p k1 p' stop /\ writes = pr_writes p' /\
    match stop with
    | None => k2 = [] /\ e = None
    | Some (st, f) => exists err, e = Some err /\ failed_run p' f k2 err
    end.
Proof using.
  revert p s. induction steps as [|st steps IH]; intros p s H; cbn [run_steps] in H.
  - injection H as <- <- <-. exists [], [], p, None. split; [apply ran_nil|]. split; [constructor|done].
  - apply flow_bind_inv in H as (r & s1 & H1 & H). apply workflow_step_ran in H1 as (k1 & R1 & St1). destruct r as [p1|f].
    + apply IH in H as (k2 & k3 & p' & stop & R2 & Hs & Hw & He). exists (k1 ++ k2), k3, p', stop.
      split; [rewrite <- app_assoc; by apply (ran_app s s1)|]. split; [by eapply steps_next|done].
    + apply fail_ran in H as (-> & k & err & R2 & -> & Hf). exists k1, k, p, (Some (st, f)).
      split; [by apply (ran_app s s1)|]. split; [by apply steps_stop|]. split; [done|]. eauto.
Qed.
End steps.
End workflow.

(** What a run of a compiled workflow guarantees, for any world: what it wrote was
    prepared and approved, a failed run undoes its writes, and the steps run in order on
    the documents the steps before them left. *)

(** ** What a history says *)

(** The writes a history committed, and the ones it undid or tried to. *)
Definition commits (k : list call) : list (Request * string) :=
  omap (fun c => match c with CCommit i (Done o) => Some (ci_Request i, OResult o) | _ => None end) k.
Definition compensations (k : list call) : list (Request * string) :=
  omap (fun c => match c with CCompensate i _ => Some (xi_Request i, xi_Result i) | _ => None end) k.
Definition undo_answers (k : list call) : list (option failure) :=
  omap (fun c => match c with CCompensate _ r => Some r | _ => None end) k.

(** The failure that an activity of a step answered. *)
Definition failed_call (c : call) : option failure :=
  match c with
  | CMap _ (Failed f) | CResolve _ (Failed f) | CPrepare _ (Failed f) | CCommit _ (Failed f) => Some f
  | _ => None
  end.

(** What a step asks for, and the document a call was given. *)
Inductive work :=
| MapWith (cfg : MapConfig)
| ResolveWith (cfg : ResolveConfig)
| WriteTo (step : string) (w : WriteConfig).

Definition work_of (st : WorkflowStep) : option work :=
  match wst_Map st, wst_Resolve st, wst_Write st with
  | Some c, _, _ => Some (MapWith c)
  | None, Some c, _ => Some (ResolveWith c)
  | None, None, Some w => Some (WriteTo (wst_Name st) w)
  | None, None, None => None
  end.

Definition asked (c : call) : option work :=
  match c with
  | CMap i _ => Some (MapWith (mi_Config i))
  | CResolve i _ => Some (ResolveWith (ri_Config i))
  | CPrepare i _ => Some (WriteTo (pi_Step i) (pi_Config i))
  | _ => None
  end.

Definition given (c : call) : option document :=
  match c with
  | CMap i _ => Some (mi_Doc i)
  | CResolve i _ => Some (ri_Doc i)
  | CPrepare i _ => Some (pi_Doc i)
  | _ => None
  end.

Section workflow.
Context `{J : Json}.

(** The document and the writes a history leaves. *)
Fixpoint replay (last : option PrepareInput) (p : progress) (k : list call) : progress :=
  match k with
  | [] => p
  | c :: k =>
      match c with
      | CMap _ (Done d) | CResolve _ (Done d) => replay last (mkProgress d (pr_writes p) (pr_done p)) k
      | CPrepare i (Done prep) =>
          match PDuplicate (po_Prepared prep) with
          | Some d => replay None (after_duplicate (pi_Step i) (pi_Config i) p d) k
          | None => replay (Some i) p k
          end
      | CCommit ci (Done out) =>
          match last with
          | Some i => replay None (after_commit (pi_Step i) (pi_Config i) p (ci_Request ci) out) k
          | None => replay None p k
          end
      | _ => replay last p k
      end
  end.

Lemma replay_side last p k rest : Forall side k -> replay last p (k ++ rest) = replay last p rest.
Proof using. induction 1 as [|c k Hc Hk IH]; cbn; [done|]. by destruct c. Qed.

Lemma replay_app_none p k1 k2 p1 :
  (forall rest, replay None p (k1 ++ rest) = replay None p1 rest) -> replay None p (k1 ++ k2) = replay None p1 k2.
Proof using. auto. Qed.

Context {W : Type} `{A : World W} `{X : Texts}.
Context (wf : Workflow) (source : document) (timeout : Z).

(** ** Steps *)

Lemma side_commits k : Forall side k -> commits k = [] /\ compensations k = [] /\ omap asked k = [] /\ omap given k = [] /\
  omap failed_call k = [] /\ undo_answers k = [].
Proof using. induction 1 as [|c k Hc Hk (H1 & H2 & H3 & H4 & H5 & H6)]; [done|]. destruct c; try done. Qed.

(** A finished step is replayed from any point. *)
Lemma step_replay st p k p1 rest :
  step_ran wf source timeout st p k (Done p1) -> replay None p (k ++ rest) = replay None p1 rest.
Proof using.
  inversion 1 as [cfg next Hm|cfg f Hm|cfg next Hm Hr|cfg f Hm Hr|w f Hm Hr Hw|w prep d Hm Hr Hw Hd|
    w prep wait ap f Hm Hr Hw Hd Hwait Hap|w prep wait ap out plugins Hm Hr Hw Hd Hwait Hap Hpl|Hm Hr Hw]; subst; cbn [app replay]; try done.
  - by rewrite Hd.
  - rewrite Hd, <- app_assoc, replay_side by done. cbn [app replay]. by rewrite replay_side.
Qed.

Lemma step_facts st p k r :
  step_ran wf source timeout st p k r ->
  compensations k = [] /\ omap asked k = omap work_of [st] /\
  match r with
  | Done p1 => map (fun d => (dw_request d, dw_result d)) (pr_done p1) =
                 map (fun d => (dw_request d, dw_result d)) (pr_done p) ++ commits k /\ omap failed_call k = []
  | Failed f => commits k = [] /\ omap failed_call k = [f]
  end.
Proof using.
  intros H. assert (Hnil : forall l : list (Request * string), l = l ++ []) by (intros; by rewrite app_nil_r).
  unfold work_of. destruct H as [cfg next Hm|cfg f Hm|cfg next Hm Hr|cfg f Hm Hr|w f Hm Hr Hw|w prep d Hm Hr Hw Hd|
    w prep wait ap f Hm Hr Hw Hd Hwait Hap|w prep wait ap out plugins Hm Hr Hw Hd Hwait Hap Hpl|Hm Hr Hw].
  - cbn. rewrite Hm. split; [done|]. split; [done|]. split; [apply Hnil|done].
  - cbn. by rewrite Hm.
  - cbn. rewrite Hm, Hr. split; [done|]. split; [done|]. split; [apply Hnil|done].
  - cbn. by rewrite Hm, Hr.
  - cbn. by rewrite Hm, Hr, Hw.
  - cbn. rewrite Hm, Hr, Hw. split; [done|]. split; [done|]. split; [apply Hnil|done].
  - destruct (side_commits wait Hwait) as (S1 & S2 & S3 & _ & S5 & _). unfold compensations, commits in *.
    cbn. rewrite !omap_app, S1, S2, S3, S5, Hm, Hr, Hw. done.
  - destruct (side_commits wait Hwait) as (S1 & S2 & S3 & _ & S5 & _).
    destruct (side_commits plugins Hpl) as (P1 & P2 & P3 & _ & P5 & _).
    unfold compensations, commits in *. cbn. rewrite !omap_app. cbn.
    rewrite S1, S2, S3, S5, P1, P2, P3, P5, Hm, Hr, Hw. split; [done|]. split; [done|]. split; [|done]. by rewrite map_app.
  - cbn. rewrite Hm, Hr, Hw. split; [done|]. split; [done|]. split; [apply Hnil|done].
Qed.

Lemma step_failed_replay st p k f : step_ran wf source timeout st p k (Failed f) -> replay None p k = p.
Proof using.
  inversion 1 as [|cfg f' Hm| |cfg f' Hm Hr|w f' Hm Hr Hw| |w prep wait ap f' Hm Hr Hw Hd Hwait Hap| |]; subst; try done.
  cbn. rewrite Hd, replay_side by done. done.
Qed.

(** Calls of the last part of a failed run. *)
Definition ending (c : call) : Prop := side c \/ is_compensate c.

Lemma replay_ending last p k : Forall ending k -> replay last p k = p.
Proof using. induction 1 as [|c k [Hc|Hc] Hk IH]; cbn; [done|..]; by destruct c. Qed.

(** ** A commit and what came before it *)

Definition cleared_write (pre : list call) (ci : CommitInput) : Prop :=
  exists st w d prep before wait, st ∈ wf_Steps wf /\ wst_Write st = Some w /\
    pre = before ++ CPrepare (mkPrepareInput (wf_Name wf) (wst_Name st) w source d) (Done prep) :: wait /\
    Forall side wait /\ PDuplicate (po_Prepared prep) = None /\ ci_Request ci = po_Request prep /\
    approval_for (wst_Name st) prep timeout wait (ci_Approval ci).

Lemma no_commit_split (Q : call -> Prop) k pre ci r post :
  Forall Q k -> (forall ci r, ~ Q (CCommit ci r)) -> k <> pre ++ CCommit ci r :: post.
Proof using. intros Hk Hq ->. apply Forall_app in Hk as [_ Hk]. inversion Hk; subst. by apply (Hq ci r). Qed.

Lemma commit_split a wait ci r rest pre ci' r' post :
  a :: wait ++ CCommit ci r :: rest = pre ++ CCommit ci' r' :: post -> ~ is_commit a -> Forall side wait -> Forall side rest ->
  pre = a :: wait /\ ci' = ci.
Proof using.
  intros He Ha Hw Hr. destruct pre as [|a' pre]; [by injection He as -> _|]. cbn in He. injection He as <- He.
  assert (H : pre = wait /\ ci' = ci); [|by destruct H as [-> ->]]. clear Ha.
  revert pre He. induction Hw as [|c wait Hc Hw IH]; intros pre He.
  - destruct pre as [|c pre]; [by injection He as <- _ _|]. cbn in He. injection He as _ He. exfalso.
    revert He. apply (no_commit_split side); [done|by intros ? ? ?].
  - destruct pre as [|c' pre]; cbn in He; [by injection He as -> _|]. injection He as <- He.
    destruct (IH pre He) as [-> ->]. done.
Qed.

Lemma step_cleared st p k r pre ci a post :
  st ∈ wf_Steps wf -> step_ran wf source timeout st p k r -> k = pre ++ CCommit ci a :: post -> cleared_write pre ci.
Proof using.
  intros Hst. inversion 1 as [cfg next Hm|cfg f Hm|cfg next Hm Hr|cfg f Hm Hr|w f Hm Hr Hw|w prep d Hm Hr Hw Hd|
    w prep wait ap f Hm Hr Hw Hd Hwait Hap|w prep wait ap out plugins Hm Hr Hw Hd Hwait Hap Hpl|Hm Hr Hw]; subst; intros He.
  1-6: by destruct pre as [|? [|? ?]].
  3: by destruct pre.
  all: apply commit_split in He as [-> ->]; [|cbn; tauto|done|by repeat constructor].
  all: exists st, w, (pr_doc p), prep, [], wait; repeat (split; [done|]); done.
Qed.

Lemma cleared_write_app before pre ci : cleared_write pre ci -> cleared_write (before ++ pre) ci.
Proof using.
  intros (st & w & d & prep & b & wait & H1 & H2 & -> & H3). exists st, w, d, prep, (before ++ b), wait.
  split; [done|]. split; [done|]. split; [by rewrite app_assoc|done].
Qed.

(** Where a call of an appended history is. *)
Lemma app_split (k1 k2 pre post : list call) c :
  k1 ++ k2 = pre ++ c :: post ->
  (exists post1, k1 = pre ++ c :: post1) \/ (exists pre2, pre = k1 ++ pre2 /\ k2 = pre2 ++ c :: post).
Proof using.
  revert pre. induction k1 as [|x k1 IH]; intros pre He; cbn in He; [right; by exists pre|].
  destruct pre as [|y pre]; cbn in He; injection He as -> He; [left; by exists k1|].
  destruct (IH pre He) as [(post1 & ->)|(pre2 & -> & ->)]; [left; by exists post1|right; by exists pre2].
Qed.

Lemma steps_cleared steps p k p' stop pre ci a post :
  (forall st, st ∈ steps -> st ∈ wf_Steps wf) -> steps_ran wf source timeout steps p k p' stop ->
  k = pre ++ CCommit ci a :: post -> cleared_write pre ci.
Proof using.
  intros Hin Hs. revert pre. induction Hs as [p|st steps p k f Hst|st steps p k1 p1 k2 p2 e Hst Hs IH]; intros pre He.
  - by destruct pre.
  - apply (step_cleared st p k (Failed f) pre ci a post); [apply Hin; left|done|done].
  - apply app_split in He as [(post1 & He)|(pre2 & -> & He)].
    + apply (step_cleared st p k1 (Done p1) pre ci a post1); [apply Hin; left|done|done].
    + apply cleared_write_app. apply IH; [intros st' Hst'; apply Hin; by right|done].
Qed.

(** ** The documents calls are given *)

Definition fits (p : progress) (k : list call) : Prop :=
  forall pre c post d, k = pre ++ c :: post -> given c = Some d -> d = pr_doc (replay None p pre).

Lemma step_fits st p k r : step_ran wf source timeout st p k r -> fits p k.
Proof using.
  intros Hst pre c post d He Hg. destruct pre as [|x pre].
  { cbn. subst k. inversion Hst; subst; cbn in Hg; by injection Hg as <-. }
  exfalso. assert (Hnone : Forall (fun c => given c = None) (pre ++ c :: post)).
  { assert (Htl : Forall (fun c => given c = None) (List.tl k)); [|by rewrite He in Htl].
    assert (Hside : forall l, Forall side l -> Forall (fun c => given c = None) l)
      by (intros l Hl; eapply Forall_impl; [exact Hl|]; by intros []).
    destruct Hst; cbn; try done; apply Forall_app; (split; [auto|]); constructor; auto. }
  apply Forall_app in Hnone as [_ Hnone]. inversion Hnone; congruence.
Qed.

Lemma steps_fits steps p k p' stop : steps_ran wf source timeout steps p k p' stop -> fits p k.
Proof using.
  induction 1 as [p|st steps p k f Hst|st steps p k1 p1 k2 p2 e Hst Hs IH].
  - intros pre c post d He. by destruct pre.
  - by apply (step_fits st p k (Failed f)).
  - intros pre c post d He Hg. apply app_split in He as [(post1 & He)|(pre2 & -> & He)].
    + by apply (step_fits st p k1 (Done p1) Hst pre c post1).
    + rewrite (step_replay st p k1 p1 pre2 Hst). by apply (IH pre2 c post).
Qed.

(** ** Steps together *)

Definition done_pairs (p : progress) : list (Request * string) := map (fun d => (dw_request d, dw_result d)) (pr_done p).

Lemma steps_facts steps p k p' stop :
  steps_ran wf source timeout steps p k p' stop ->
  compensations k = [] /\ done_pairs p' = done_pairs p ++ commits k /\ replay None p k = p' /\
  match stop with
  | None => omap asked k = omap work_of steps /\ omap failed_call k = []
  | Some (_, f) => (exists more, omap work_of steps = omap asked k ++ more) /\ omap failed_call k = [f]
  end.
Proof using.
  induction 1 as [p|st steps p k f Hst|st steps p k1 p1 k2 p2 e Hst Hs (IH1 & IH2 & IH3 & IH4)].
  - split; [done|]. split; [by rewrite app_nil_r|]. done.
  - destruct (step_facts st p k (Failed f) Hst) as (H1 & H2 & H3 & H4). split; [done|].
    split; [by rewrite H3, app_nil_r|]. split; [by apply (step_failed_replay st p k f)|]. split; [|done].
    exists (omap work_of steps). rewrite H2. by change (st :: steps) with ([st] ++ steps) at 1; rewrite omap_app.
  - destruct (step_facts st p k1 (Done p1) Hst) as (H1 & H2 & H3 & H4). fold (done_pairs p1) (done_pairs p) in H3.
    unfold compensations, commits in *. rewrite !omap_app. split; [by rewrite H1, IH1|].
    split; [by rewrite IH2, H3, app_assoc|]. split; [by rewrite (step_replay st p k1 p1 k2 Hst)|].
    change (st :: steps) with ([st] ++ steps). rewrite omap_app, H2, H4. destruct e as [[st' f]|].
    + destruct IH4 as [[more ->] ->]. split; [exists more; by rewrite app_assoc|done].
    + by destruct IH4 as [-> ->].
Qed.

(** ** Failing *)

Lemma undo_calls_facts l answers :
  List.length answers = List.length l ->
  Forall ending (undo_calls l answers) /\ commits (undo_calls l answers) = [] /\
  compensations (undo_calls l answers) = map (fun d => (dw_request d, dw_result d)) l /\
  undo_answers (undo_calls l answers) = answers.
Proof using.
  revert answers. induction l as [|d l IH]; intros [|a answers] Hlen; try done.
  injection Hlen as Hlen. destruct (IH answers Hlen) as (H1 & H2 & H3 & H4).
  change (undo_calls (d :: l) (a :: answers)) with
    (CCompensate (mkCompensateInput (dw_request d) (dw_result d)) a :: undo_calls l answers).
  split; [constructor; [by right|done]|]. split; [exact H2|].
  unfold compensations, undo_answers in *. cbn. by rewrite H3, H4.
Qed.

Lemma failed_run_facts p f k e :
  failed_run p f k e ->
  Forall ending k /\ commits k = [] /\ compensations k = List.rev (done_pairs p) /\
  if bool_decide (Forall (fun a => a = None) (undo_answers k)) then e = f
  else exists m, e = App ErrTypeCompensationFailed m None (Some f).
Proof using.
  intros (before & answers & after & -> & Hlen & Hb & Ha & He).
  rewrite <- (List.length_rev (pr_done p)) in Hlen. destruct (undo_calls_facts _ _ Hlen) as (U1 & U2 & U3 & U4).
  destruct (side_commits before Hb) as (B1 & B2 & _ & _ & _ & B6).
  destruct (side_commits after Ha) as (A1 & A2 & _ & _ & _ & A6).
  assert (Hend : forall l, Forall side l -> Forall ending l) by (intros l Hl; eapply Forall_impl; [exact Hl|]; by left).
  unfold compensations, commits, undo_answers in *. rewrite !omap_app, B1, B2, B6, A1, A2, A6, U2, U3, U4, !app_nil_r. cbn [app].
  split; [apply Forall_app; split; [auto|]; apply Forall_app; auto|]. split; [done|].
  split; [|done]. unfold done_pairs. by rewrite List.map_rev.
Qed.
End workflow.

(** * Properties *)

Section properties.
Context {W : Type} `{A : World W} `{X : Texts} `{J : Json}.

Definition timeout_of (i : RunInput) : Z :=
  if (in_ApprovalTimeout i <=? 0)%Z then DefaultApprovalTimeout else in_ApprovalTimeout i.

Lemma IntegrationWorkflow_ran i s writes e s' :
  IntegrationWorkflow i s = ((writes, e), s') ->
  (exists err c, decode_document (sev_Payload (in_Event i)) = Err err /\ ran s s' [] /\ writes = [] /\
     e = Some (App ErrTypeInvalid c None (Some (Fault err)))) \/
  exists source k1 k2 p' stop, decode_document (sev_Payload (in_Event i)) = Ok source /\ ran s s' (k1 ++ k2) /\
    steps_ran (in_Workflow i) source (timeout_of i) (wf_Steps (in_Workflow i)) (mkProgress source [] []) k1 p' stop /\
    writes = pr_writes p' /\
    match stop with
    | None => k2 = [] /\ e = None
    | Some (st, f) => exists err, e = Some err /\ failed_run p' f k2 err
    end.
Proof.
  unfold IntegrationWorkflow. cbv zeta. destruct (decode_document _) as [source|err].
  - intros H. apply flow_bind_inv in H as (local & s1 & H1 & H). injection H1 as <- <-. right. exists source.
    apply run_steps_ran in H as (k1 & k2 & p' & stop & H). by exists k1, k2, p', stop.
  - intros [= <- <- <-]. left. eexists _, _. split; [done|]. split; [apply ran_nil|done].
Qed.

Lemma ran_unique (s s' : run W) k k' : ran s s' k -> ran s s' k' -> k = k'.
Proof using.
  unfold ran. intros -> H. apply app_inv_tail in H. by rewrite <- (List.rev_involutive k), H, List.rev_involutive.
Qed.

(** The commits of a run were prepared and approved, and it undoes only what it committed. *)
Lemma run_cleared i s s' r :
  IntegrationWorkflow i s = (r, s') ->
  exists k, ran s s' k /\ (forall x, x ∈ compensations k -> x ∈ commits k) /\
    forall pre ci a post, k = pre ++ CCommit ci a :: post ->
      exists source, decode_document (sev_Payload (in_Event i)) = Ok source /\
        cleared_write (in_Workflow i) source (timeout_of i) pre ci.
Proof using.
  intros H. destruct r as [writes e].
  apply IntegrationWorkflow_ran in H as [(err & c & _ & Hr & _)|(source & k1 & k2 & p' & stop & Hd & Hr & Hs & _ & He)].
  { exists []. split; [done|]. split; [done|]. intros pre ci a post Hk. by destruct pre. }
  exists (k1 ++ k2). split; [done|]. pose proof Hs as Hfacts. apply steps_facts in Hfacts as (Hc1 & Hp & _ & _). split.
  - unfold compensations, commits in *. rewrite !omap_app, Hc1. intros x Hx. cbn in Hx. apply elem_of_app. left.
    destruct stop as [[st f]|]; [|destruct He as [-> _]; by apply elem_of_nil in Hx].
    destruct He as (err & _ & Hf). apply failed_run_facts in Hf as (_ & _ & Hu & _).
    unfold compensations in Hu. rewrite Hu, Hp in Hx. cbn in Hx. by apply list_elem_of_In, in_rev, list_elem_of_In in Hx.
  - intros pre ci a post Hk. exists source. split; [done|].
    apply app_split in Hk as [(post1 & Hk)|(pre2 & -> & Hk)].
    + by eapply (steps_cleared (in_Workflow i) source (timeout_of i)); [|exact Hs|exact Hk].
    + exfalso. destruct stop as [[st f]|]; [|destruct He as [-> _]; by destruct pre2].
      destruct He as (err & _ & Hf). apply failed_run_facts in Hf as (Hend & _). revert Hk.
      apply (no_commit_split ending); [done|]. by intros ? ? [?|?].
Qed.

(** C4: A run writes only what was prepared, and asks a person first where it must.
    Every commit a run makes is of a write step of its workflow: the guard prepared that
    step's write, on the run's source event, and said it was no duplicate; between
    preparing and committing the run did nothing but notify and wait; the request is the
    one prepared; and if preparing asked for an approval, the commit carries the
    decision of the first signal that named this step and the digest of this very
    request (anything but "approved" being a rejection), or the rejection of the
    timeout when no such signal came; otherwise it carries none. *)
Theorem run_writes_are_cleared (i : RunInput) (s s' : run W) (r : list WriteRecord * option failure) :
  IntegrationWorkflow i s = (r, s') ->
  exists k, ran s s' k /\
    forall pre ci a post, k = pre ++ CCommit ci a :: post ->
      exists source, decode_document (sev_Payload (in_Event i)) = Ok source /\
        exists st w d prep before wait, st ∈ wf_Steps (in_Workflow i) /\ wst_Write st = Some w /\
          pre = before ++ CPrepare (mkPrepareInput (wf_Name (in_Workflow i)) (wst_Name st) w source d) (Done prep) :: wait /\
          Forall side wait /\ PDuplicate (po_Prepared prep) = None /\ ci_Request ci = po_Request prep /\
          approval_for (wst_Name st) prep (timeout_of i) wait (ci_Approval ci).
Proof. intros H. apply run_cleared in H as (k & Hr & _ & Hc). by exists k. Qed.

(** C9: A run that fails undoes what it wrote. Its calls are those of its steps, then, if
    an activity failed, notifications and the undoing of every write the run itself
    committed (not of duplicates, which an earlier run wrote), each exactly once, newest
    first. When every undo succeeds the run ends with the failure that stopped it,
    otherwise with a compensation failure that carries it; a run without a failure
    undoes nothing. *)
Theorem failed_run_undoes_its_writes (i : RunInput) (s s' : run W) (writes : list WriteRecord) (e : option failure) :
  IntegrationWorkflow i s = ((writes, e), s') ->
  exists k1 k2, ran s s' (k1 ++ k2) /\ compensations k1 = [] /\ commits k2 = [] /\
    match e with
    | None => k2 = [] /\ omap failed_call k1 = []
    | Some err =>
        k1 = [] /\ k2 = [] /\ is_ok (decode_document (sev_Payload (in_Event i))) = false \/
        compensations k2 = List.rev (commits k1) /\
        exists f, omap failed_call k1 = [f] /\
          if bool_decide (Forall (fun a => a = None) (undo_answers k2)) then err = f
          else exists m, err = App ErrTypeCompensationFailed m None (Some f)
    end.
Proof.
  intros H.
  apply IntegrationWorkflow_ran in H as [(err & c & Hd & Hr & -> & ->)|(source & k1 & k2 & p' & stop & Hd & Hr & Hs & -> & He)].
  { exists [], []. split; [done|]. split; [done|]. split; [done|]. left. by rewrite Hd. }
  apply steps_facts in Hs as (Hc & Hp & _ & Hstop). exists k1, k2. split; [done|]. split; [done|].
  destruct stop as [[st f]|].
  - destruct He as (err & -> & Hf). apply failed_run_facts in Hf as (_ & Hc2 & Hu & Hans). split; [done|].
    right. split; [by rewrite Hu, Hp|]. exists f. by destruct Hstop.
  - destruct He as [-> ->]. split; [done|]. by destruct Hstop.
Qed.

(** C30: A run executes its workflow. What its activities were asked, in order, is the
    work of the workflow's steps, all of it when the run succeeds and a prefix when it
    fails; each was given the document that the answers before it left (a mapping's or a
    resolution's document, a write's result under its output field); and the writes it
    reports are those it committed or found to be duplicates, in order, each with its
    step, endpoint, operation, status and result. *)
Theorem run_executes_workflow (i : RunInput) (s s' : run W) (writes : list WriteRecord) (e : option failure) (source : document) :
  IntegrationWorkflow i s = ((writes, e), s') -> decode_document (sev_Payload (in_Event i)) = Ok source ->
  exists k1 k2, ran s s' (k1 ++ k2) /\ Forall ending k2 /\
    (exists more, omap work_of (wf_Steps (in_Workflow i)) = omap asked k1 ++ more /\ (e = None -> more = [])) /\
    (forall pre c post d, k1 = pre ++ c :: post -> given c = Some d ->
       d = pr_doc (replay None (mkProgress source [] []) pre)) /\
    writes = pr_writes (replay None (mkProgress source [] []) (k1 ++ k2)).
Proof.
  intros H Hsrc.
  apply IntegrationWorkflow_ran in H as [(err & c & Hd & _)|(source' & k1 & k2 & p' & stop & Hd & Hr & Hs & -> & He)]; [congruence|].
  rewrite Hsrc in Hd. injection Hd as <-. exists k1, k2. pose proof Hs as Hs'.
  apply steps_facts in Hs as (_ & _ & Hp & Hstop). split; [done|].
  assert (Hend : Forall ending k2).
  { destruct stop as [[st f]|]; [|by destruct He as [-> _]]. destruct He as (err & _ & Hf). by apply failed_run_facts in Hf as [? _]. }
  split; [done|]. split; [|split; [exact (steps_fits _ _ _ _ _ _ _ _ Hs')|]].
  - destruct stop as [[st f]|].
    + destruct He as (err & -> & _). destruct Hstop as [[more Hm] _]. exists more. by split.
    + destruct Hstop as [<- _]. exists []. by rewrite app_nil_r.
  - assert (Hrep : forall last p, replay last p (k1 ++ k2) = replay last p k1); [|by rewrite Hrep, Hp].
    clear -Hend. induction k1 as [|c k1 IH]; intros last p; cbn [app replay].
    + by apply replay_ending.
    + destruct c as [? []|? []|? [prep|]|? []| | | | | | |]; try apply IH; [|destruct last; apply IH].
      destruct (PDuplicate (po_Prepared prep)); apply IH.
Qed.
End properties.

(** * Witnesses *)

(** A world that is the list of signals still to come: mapping, resolving and writing
    succeed, a high-risk write needs an approval, and a rejected one fails. *)
#[local] Instance toy_world : World (list ApprovalSignal) := {|
  w_now := fun _ => 0%Z;
  w_version := fun _ _ => true;
  w_map := fun _ i w => (Done (mi_Doc i), w);
  w_resolve := fun _ i w => (Done (ri_Doc i), w);
  w_prepare := fun i w =>
    (Done (mkPrepareOutput
      (mkRequest (wc_Endpoint (pi_Config i)) (wc_Operation (pi_Config i)) "" (wc_Risk (pi_Config i)) (mkSubject "" [] false "")
         (pi_Step i) "{}" "" 0%float false "undo" "" false "" None)
      (mkPrepared None (mkDecision true false false []) "" (String.eqb (wc_Risk (pi_Config i)) "high") "")), w);
  w_commit := fun i w =>
    (match ci_Approval i with
     | Some a => if String.eqb (ApStatus a) ApprovalApproved then Done (outcome StatusCommitted)
                 else Failed (App ErrTypeRejected (msg0 "rejected") None None)
     | None => Done (outcome StatusCommitted)
     end, w);
  w_compensate := fun _ w => (None, w);
  w_notify := fun _ w => w;
  w_plugin := fun _ w => w;
  w_signals := fun w _ =>
    ((fix go l := match l with [] => [] | s :: l => (s, l) :: go l end) w, [])
|}.

#[local] Instance plain_texts : Texts :=
  {| sprintf := fun m => match m with Msg f _ => f end; error_text := fun _ => "error"; format_time := fun _ => "later";
     RequiredFields := fun _ => [] |}.

#[local] Instance plain_json : Json := {|
  decode_document := fun s => if String.eqb s "{}" then Ok ∅ else Err (Sentinel "not JSON");
  decode_value := fun s => Some (JStr s); decode_object := fun _ => None; encode_document := fun _ => None;
  RequestDigest := fun r => RKey r
|}.

Definition toy_write (risk : string) : WriteConfig :=
  mkWriteConfig "erp" "create-order" "create-order" "rfc" risk "SalesOrder" "{{source.id}}" "" "policy" "cancel-order" false
    "orderRef" "" [] "" None.

Definition two_writes : Workflow :=
  mkWorkflow "order-sync" (mkWorkflowSource "crm" "" "won" "" "")
    [mkWorkflowStep "01-write" None None (Some (toy_write "low")); mkWorkflowStep "02-write" None None (Some (toy_write "high"))]
    None [].

Definition won (payload : string) : RunInput := mkRunInput "" two_writes (mkSourceEvent "e1" 1 "won" payload) 0 "".

(** A signal about another step, then one about the waiting write. *)
Definition answers (status : string) : list ApprovalSignal :=
  [mkApprovalSignal "01-write" "01-write" "approved" "eve" ""; mkApprovalSignal "02-write" "02-write" status "ada" ""].

Definition start (status : string) : run (list ApprovalSignal) := mkRun (answers status) [] None.

Lemma run_writes_are_cleared_witness :
  snd (fst (IntegrationWorkflow (won "{}") (start "approved"))) = None /\
  List.length (commits (List.rev (r_calls (snd (IntegrationWorkflow (won "{}") (start "approved")))))) = 2 /\
  exists k, ran (start "approved") (snd (IntegrationWorkflow (won "{}") (start "approved"))) k.
Proof.
  split; [vm_compute; reflexivity|]. split; [vm_compute; reflexivity|].
  destruct (run_writes_are_cleared (won "{}") (start "approved") _ _ (surjective_pairing _)) as (k & Hk & _).
  exists k. exact Hk.
Defined.

Lemma failed_run_undoes_its_writes_witness :
  snd (fst (IntegrationWorkflow (won "{}") (start "no"))) = Some (App ErrTypeRejected (msg0 "rejected") None None) /\
  exists k1 k2, ran (start "no") (snd (IntegrationWorkflow (won "{}") (start "no"))) (k1 ++ k2) /\
    compensations k1 = [] /\ commits k2 = [].
Proof.
  split; [vm_compute; reflexivity|].
  destruct (failed_run_undoes_its_writes (won "{}") (start "no") (snd (IntegrationWorkflow (won "{}") (start "no")))
    (fst (fst (IntegrationWorkflow (won "{}") (start "no")))) (snd (fst (IntegrationWorkflow (won "{}") (start "no")))))
    as (k1 & k2 & Hr & H1 & H2 & _); [vm_compute; reflexivity|]. exists k1, k2. split; [exact Hr|]. split; [exact H1|exact H2].
Defined.

Lemma run_executes_workflow_witness :
  exists k1 k2, ran (start "approved") (snd (IntegrationWorkflow (won "{}") (start "approved"))) (k1 ++ k2) /\ Forall ending k2.
Proof.
  destruct (run_executes_workflow (won "{}") (start "approved") (snd (IntegrationWorkflow (won "{}") (start "approved")))
    (fst (fst (IntegrationWorkflow (won "{}") (start "approved")))) (snd (fst (IntegrationWorkflow (won "{}") (start "approved")))) ∅)
    as (k1 & k2 & Hr & He & _); [vm_compute; reflexivity|vm_compute; reflexivity|]. exists k1, k2. split; [exact Hr|exact He].
Defined.
