(* ===== verification/AgentWrites.v ===== *)
(** The workflow of an agent's write: [AgentWriteWorkflow] of [src/pkg/engine/agent.go],
    with the notifications of [agentpush.go]. It runs in the same worlds as a recipe's
    runs ([World]), which here also prepare agents' requests and deliver notifications to
    agents ([AgentWorld]); signals that change where to notify arrive at any time. *)

From S2P Require Import Turgon Prelude GoStr GoErr Policy GuardData Idempotency Governor Guard ApiKinds RuntimeSpec.
From S2P Require Import Compiler Template Engine AgentData Workflow WorkflowTheorems.
From Stdlib Require Import Ascii String.

(** [w_push_signals] are the signals about configurations that arrived so far; [w_deliver] notifies agents and waits, [w_detach]
    starts the detached workflow that notifies them. *)
Class AgentWorld (W : Type) `{A : World W} := {
  w_prepare_agent : Request -> W -> answer Prepared * W;
  w_push_signals : W -> list push_signal;
  w_deliver : list AgentPushInput -> W -> W;
  w_detach : list AgentPushInput -> W -> W
}.

Section agent.
Context {W : Type} `{A : World W} `{AW : !AgentWorld W} `{X : Texts} `{J : Json}.

(** The configurations of [pushes] as they are now, from those the write started with. *)
Definition configs_now (l : list PushConfig) : R W (list PushConfig) := fun s =>
  (fold_left apply_signal (w_push_signals (r_world s)) l, s).

(** [notify] and [outcome]: nothing without configurations. *)
Definition push_with (send : list AgentPushInput -> W -> W) (on : bool) (l : list PushConfig) (tool : string)
    (st : AgentWriteStatus) : R W unit :=
  match on, l with
  | false, _ | _, [] => mret tt
  | true, _ => let i := push_inputs l tool st in call_world (fun w => (tt, send i w)) (fun _ => CPush i)
  end.

(** A prepared request: one whose dry run showed another amount must be approved. *)
Definition agent_request (req : Request) (p : Prepared) : Request :=
  if String.eqb (PAmountMismatch p) "" then req
  else mkRequest (RTarget req) (ROperation req) (RTool req) (RRisk req) (RSubject req) (RKey req) (RPayload req)
    (REntity req) (RAmount req) (RSimulate req) (RCompensation req) (RRecipe req) true (RReason req) (RCheckAmount req).

(** Waiting for a person; the agent hears of it. *)
Definition agent_approve (req : Request) (prep : Prepared) (timeout : Z) (on : bool) (l : list PushConfig) : R W (option Approval) :=
  if negb (PNeedsApproval prep) then mret None
  else
    since ← now;
    let p := mkPendingApproval AgentStep (RequestDigest req) req (PPreview prep) (Reasons (PDecision prep)) since in
    _ ← set_pending (Some p);
    _ ← tell (approvalPending p (since + timeout));
    l ← configs_now l;
    _ ← push_with w_deliver on l (RTool req) (mkAgentWriteStatus AgentWritePending None (Some p) "");
    a ← awaitApproval p timeout;
    _ ← (if String.eqb (ApBy a) approvalTimeoutActor then tell (approvalTimedOut p) else mret tt);
    _ ← set_pending None;
    mret (Some a).

Definition agent_record (req : Request) (o : Outcome) : WriteRecord :=
  mkWriteRecord AgentStep (RTarget req) (ROperation req) (OStatus o) (OResult o).

(** [agentWrite]. *)
Definition agentWrite (i : AgentWriteInput) (on : bool) (l : list PushConfig) : R W (list WriteRecord * option failure) :=
  let timeout := if (aw_ApprovalTimeout i <=? 0)%Z then DefaultApprovalTimeout else aw_ApprovalTimeout i in
  prep ← call_world (w_prepare_agent (aw_Request i)) (CPrepareAgent (aw_Request i));
  match prep with
  | Failed f => mret ([], Some f)
  | Done prep =>
      match PDuplicate prep with
      | Some d => mret ([agent_record (aw_Request i) d], None)
      | None =>
          let req := agent_request (aw_Request i) prep in
          approval ← agent_approve req prep timeout on l;
          let ci := mkCommitInput req approval in
          out ← call_world (w_commit ci) (CCommit ci);
          mret (match out with
            | Failed f => ([], Some f)
            | Done out => ([agent_record req out], None)
            end)
      end
  end.

(** [AgentWriteWorkflow]; setting its query handlers fails only for reserved names. *)
Definition AgentWriteWorkflow (i : AgentWriteInput) : R W (list WriteRecord * option failure) :=
  on ← version pushVersion;
  let l := initial_configs (aw_Push i) in
  r ← agentWrite i on l;
  l ← configs_now l;
  _ ← push_with w_detach on l (RTool (aw_Request i)) (statusOf (fst r) (snd r));
  mret r.
End agent.

(** ** What a write does *)

Section agent.
Context {W : Type} `{A : World W} `{AW : !AgentWorld W} `{X : Texts} `{J : Json}.

Lemma push_with_inv (send : list AgentPushInput -> W -> W) on l tool st s b s' :
  push_with send on l tool st s = (b, s') -> exists k, ran s s' k /\ Forall side k /\ signals_in k = [].
Proof using.
  unfold push_with. destruct on, l; try (intros [= _ <-]; exists []; split; [apply ran_nil|done]).
  intros H. apply call_inv in H. eexists. split; [exact H|]. split; [by repeat constructor|done].
Qed.

(** The approval a commit of an agent's write is given. *)
Definition agent_approval (req : Request) (prep : Prepared) (timeout : Z) (k : list call) (ap : option Approval) : Prop :=
  match ap with
  | None => PNeedsApproval prep = false
  | Some a => PNeedsApproval prep = true /\ exists p, pa_Step p = AgentStep /\ pa_Digest p = RequestDigest req /\
      pa_Request p = req /\ decided p timeout (signals_in k) a
  end.

Lemma agent_approve_inv req prep timeout on l s ap s' :
  agent_approve req prep timeout on l s = (ap, s') ->
  exists k, ran s s' k /\ Forall side k /\ agent_approval req prep timeout k ap.
Proof using.
  unfold agent_approve. destruct (PNeedsApproval prep) eqn:Hn; cbn [negb].
  2: { intros [= <- <-]. exists []. split; [apply ran_nil|]. split; [done|]. exact Hn. }
  intros H. apply flow_bind_inv in H as (since & s0 & H0 & H). injection H0 as <- <-. cbv zeta in H.
  apply flow_bind_inv in H as ([] & s1 & H1 & H). injection H1 as <-. set (p := mkPendingApproval _ _ _ _ _ _) in *.
  apply flow_bind_inv in H as (u & s2 & H2 & H). apply tell_signals in H2 as (k2 & R2 & S2 & G2).
  apply flow_bind_inv in H as (l' & s3 & H3 & H). injection H3 as <- <-.
  apply flow_bind_inv in H as (u4 & s4 & H4 & H). apply push_with_inv in H4 as (k4 & R4 & S4 & G4).
  apply flow_bind_inv in H as (a & s5 & H5 & H). unfold awaitApproval in H5. destruct (w_signals _ _) as [sigs fired].
  apply await_loop_inv in H5 as (k5 & R5 & S5 & D5). apply flow_bind_inv in H as (u6 & s6 & H6 & H).
  assert (H6' : exists k, ran s5 s6 k /\ Forall side k /\ signals_in k = []).
  { destruct (String.eqb _ _); [by apply tell_signals in H6|]. injection H6 as _ <-. exists []. split; [apply ran_nil|done]. }
  destruct H6' as (k6 & R6 & S6 & G6).
  apply flow_bind_inv in H as ([] & s7 & H7 & H). injection H7 as <-. injection H as <- <-.
  exists (k2 ++ k4 ++ k5 ++ k6). split; [|split; [by rewrite !Forall_app|]].
  - assert (Hr : ran s s6 (k2 ++ k4 ++ k5 ++ k6)); [|exact Hr].
    apply (ran_app s s2 s6); [exact R2|]. apply (ran_app s2 s4 s6); [exact R4|]. by apply (ran_app s4 s5 s6).
  - split; [done|]. exists p. do 3 (split; [done|]). by rewrite !side_signals_app, G2, G4, G6, app_nil_r.
Qed.

(** The ways a write ends: its calls, what it wrote and its error. *)
Inductive agent_ran (req : Request) (timeout : Z) : list call -> list WriteRecord -> option failure -> Prop :=
| ar_unprepared f : agent_ran req timeout [CPrepareAgent req (Failed f)] [] (Some f)
| ar_duplicate prep d : PDuplicate prep = Some d ->
    agent_ran req timeout [CPrepareAgent req (Done prep)] [agent_record req d] None
| ar_committed prep wait ap r : PDuplicate prep = None -> Forall side wait ->
    agent_approval (agent_request req prep) prep timeout wait ap ->
    agent_ran req timeout (CPrepareAgent req (Done prep) :: wait ++ [CCommit (mkCommitInput (agent_request req prep) ap) r])
      (match r with Done o => [agent_record (agent_request req prep) o] | Failed _ => [] end)
      (match r with Done _ => None | Failed f => Some f end).

Definition agent_timeout (i : AgentWriteInput) : Z :=
  if (aw_ApprovalTimeout i <=? 0)%Z then DefaultApprovalTimeout else aw_ApprovalTimeout i.

Lemma agentWrite_inv i on l s writes e s' :
  agentWrite i on l s = ((writes, e), s') ->
  exists k, ran s s' k /\ agent_ran (aw_Request i) (agent_timeout i) k writes e.
Proof using.
  unfold agentWrite. fold (agent_timeout i). cbv zeta. intros H.
  apply flow_bind_inv in H as (prep & s1 & H1 & H). apply call_inv in H1.
  destruct prep as [prep|f]; [|injection H as <- <- <-; eexists; split; [exact H1|constructor]].
  destruct (PDuplicate prep) as [d|] eqn:Ed; [injection H as <- <- <-; eexists; split; [exact H1|by constructor]|].
  apply flow_bind_inv in H as (ap & s2 & H2 & H). apply agent_approve_inv in H2 as (k2 & R2 & S2 & A2).
  apply flow_bind_inv in H as (out & s3 & H3 & H). apply call_inv in H3.
  exists (CPrepareAgent (aw_Request i) (Done prep) :: k2 ++ [CCommit (mkCommitInput (agent_request (aw_Request i) prep) ap) out]).
  assert (s' = s3 /\ writes = match out with Done o => [agent_record (agent_request (aw_Request i) prep) o] | Failed _ => [] end /\
          e = match out with Done _ => None | Failed f => Some f end) as (-> & -> & ->) by (by destruct out; injection H as <- <- <-).
  split; [|by constructor]. apply (ran_app s s1 s3 [_] _ H1). by apply (ran_app s1 s2 s3).
Qed.

Lemma AgentWriteWorkflow_inv i s writes e s' :
  AgentWriteWorkflow i s = ((writes, e), s') ->
  exists k pushed, ran s s' (k ++ pushed) /\ agent_ran (aw_Request i) (agent_timeout i) k writes e /\
    (pushed = [] \/ exists l, distinct_configs l /\ l <> [] /\
      pushed = [CPush (push_inputs l (RTool (aw_Request i)) (statusOf writes e))]).
Proof using.
  unfold AgentWriteWorkflow. cbv zeta. intros H.
  apply flow_bind_inv in H as (on & s0 & H0 & H). injection H0 as _ <-.
  apply flow_bind_inv in H as ([w err] & s1 & H1 & H). apply agentWrite_inv in H1 as (k & R1 & A1).
  apply flow_bind_inv in H as (l & s2 & H2 & H). injection H2 as El <-.
  apply flow_bind_inv in H as (u & s3 & H3 & H). injection H as <- <- <-.
  assert (Hd : distinct_configs l) by (rewrite <- El; apply signals_distinct, initial_configs_distinct).
  exists k. cbn [fst snd] in H3. unfold push_with in H3. destruct on, l as [|c l].
  2: { exists [CPush (push_inputs (c :: l) (RTool (aw_Request i)) (statusOf w err))]. apply call_inv in H3.
       split; [by apply (ran_app s s1)|]. split; [done|]. right. by exists (c :: l). }
  all: injection H3 as _ <-; exists []; rewrite app_nil_r; split; [done|]; split; [done|by left].
Qed.
End agent.
