(* ===== verification/Dispatcher.v ===== *)
(** The dispatcher: [Dispatcher] of [src/pkg/engine/runtime.go] reads events from sources
    and inboxes and starts one run per event. What it uses is an interface ([Backend]);
    metrics are left out. *)

From S2P Require Import Turgon Prelude GoStr GoErr GoTime Policy GuardData Idempotency Governor Guard RuntimeSpec Compiler Template.
From S2P Require Import Engine.
From Stdlib Require Import Ascii String.

(** Cursors, the starter, the source of each endpoint and the inbox; [b_now] is the
    clock. *)
Class Backend (B : Type) := {
  b_cursor : string -> B -> result Z * B;
  b_set_cursor : string -> Z -> B -> option goerr * B;
  b_start : string -> RunInput -> B -> option goerr * B;
  b_poll : string -> string -> Z -> Z -> B -> result (list Event) * B;
  b_deliver : string -> list Event -> B -> option goerr * B;
  b_inbox : string -> string -> Z -> Z -> B -> result (list Event) * B;
  b_now : B -> Z
}.

(** [InboxSource] and [RunID]. *)
Definition InboxSource (endpoint event : string) : string := endpoint +++ "/" +++ event.
Definition RunID (workflow : string) (ev : Event) : string := workflow +++ "/" +++ sev_ID ev.

(** [DefaultReconcile]: 5 minutes in nanoseconds. *)
Definition DefaultReconcile : Z := 300000000000.

(** The parts of a runtime the dispatcher reads. *)
Record Runtime := mkRuntime {
  rt_Spec : RuntimeSpec;
  rt_hooked : string -> string -> bool;
  rt_streamed : string -> string -> bool
}.

(** [Dispatcher]: [di_Inbox] says whether there is one. *)
Record Dispatcher := mkDispatcher {
  di_Runtime : Runtime;
  di_Batch : Z;
  di_ApprovalTimeout : Z;
  di_Inbox : bool;
  di_Reconcile : Z;
  di_lastPolled : gmap string Z
}.

Section dispatcher.
Context {B : Type} `{K : Backend B}.

Definition D (A : Type) : Type := B -> A * B.
#[export] Instance D_ret : MRet D := fun A a b => (a, b).
#[export] Instance D_bind : MBind D := fun A C k m b => let (a, b) := m b in k a b.

(** [Poll]'s [batch] and [reconcile]. *)
Definition batch_of (d : Dispatcher) : Z := if (di_Batch d <=? 0)%Z then 100%Z else di_Batch d.
Definition reconcile_of (d : Dispatcher) : Z := if (di_Reconcile d <=? 0)%Z then DefaultReconcile else di_Reconcile d.

(** ** Draining *)

Definition run_input (d : Dispatcher) (wf : Workflow) (ev : Event) : RunInput :=
  mkRunInput (rm_Digest (rs_Metadata (rt_Spec (di_Runtime d)))) wf ev (di_ApprovalTimeout d) "".

(** The loop of [drain]: how many runs started, and the error that stopped it. *)
Fixpoint drain_loop (d : Dispatcher) (wf : Workflow) (cursor : string) (started : Z) (events : list Event)
    : D (Z * option goerr) :=
  match events with
  | [] => mret (started, None)
  | ev :: events =>
      err ← b_start (RunID (wf_Name wf) ev) (run_input d wf ev);
      match err with
      | Some err => mret (started, Some (Wrapf (Msg "%s: start %s: %w" [FStr cursor; FStr (sev_ID ev)]) [err]))
      | None =>
          cerr ← b_set_cursor cursor (sev_Position ev);
          match cerr with
          | Some err => mret ((started + 1)%Z, Some err)
          | None => drain_loop d wf cursor (started + 1)%Z events
          end
      end
  end.

Definition drain (d : Dispatcher) (wf : Workflow) (cursor : string) (read : Z -> D (result (list Event)))
    : D (Z * option goerr) :=
  pos ← b_cursor cursor;
  match pos with
  | Err err => mret (0%Z, Some err)
  | Ok pos =>
      events ← read pos;
      match events with
      | Err err => mret (0%Z, Some (Wrapf (Msg "%s: %w" [FStr cursor]) [err]))
      | Ok events => drain_loop d wf cursor 0 events
      end
  end.

(** ** Reconciling *)

(** The last event of a batch. *)
Definition last_position (events : list Event) : Z := match List.rev events with ev :: _ => sev_Position ev | [] => 0%Z end.

(** The loop of [reconcile]; [None] when the fuel runs out. *)
Fixpoint reconcile (fuel : nat) (wf : Workflow) (cursor inbox : string) (batch : Z) : D (option (option goerr)) :=
  match fuel with
  | 0 => mret None
  | S fuel =>
      pos ← b_cursor cursor;
      match pos with
      | Err err => mret (Some (Some err))
      | Ok pos =>
          events ← b_poll (src_Endpoint (wf_Trigger wf)) (src_Event (wf_Trigger wf)) pos batch;
          match events with
          | Err err => mret (Some (Some (Wrapf (Msg "%s: %w" [FStr cursor]) [err])))
          | Ok [] => mret (Some None)
          | Ok events =>
              derr ← b_deliver inbox events;
              match derr with
              | Some err => mret (Some (Some (Wrapf (Msg "%s: inbox: %w" [FStr cursor]) [err])))
              | None =>
                  cerr ← b_set_cursor cursor (last_position events);
                  match cerr with
                  | Some err => mret (Some (Some err))
                  | None => if (Z.of_nat (List.length events) <? batch)%Z then mret (Some None)
                            else reconcile fuel wf cursor inbox batch
                  end
              end
          end
      end
  end.

(** ** A pass *)

Definition cursor_name (wf : Workflow) : string :=
  wf_Name wf +++ "@" +++ src_Endpoint (wf_Trigger wf) +++ "/" +++ src_Event (wf_Trigger wf).

(** One workflow of a pass: the dispatcher, how many runs started, and the errors. *)
Definition poll_workflow (fuel : nat) (d : Dispatcher) (wf : Workflow) : D (option (Dispatcher * Z * list goerr)) :=
  let ep := src_Endpoint (wf_Trigger wf) in
  let event := src_Event (wf_Trigger wf) in
  let name := cursor_name wf in
  let batch := batch_of d in
  let hooked := rt_hooked (di_Runtime d) ep event in
  let streamed := rt_streamed (di_Runtime d) ep event in
  let err_list (e : option goerr) := match e with Some e => [e] | None => [] end in
  if streamed && negb (di_Inbox d) then
    mret (Some (d, 0%Z, [Errorf (Msg "%s: arrives by subscription, which needs an inbox" [FStr name])]))
  else if negb streamed && (negb hooked || negb (di_Inbox d)) then
    r ← drain d wf name (fun after => b_poll ep event after batch);
    mret (Some (d, fst r, err_list (snd r)))
  else
    let inbox := InboxSource ep event in
    now ← (fun b => (b_now b, b)) : D Z;
    let due := negb streamed && match di_lastPolled d !! name with
        | Some last => (reconcile_of d <=? time_sub now last)%Z
        | None => true
        end in
    r ← (if due then
           r ← reconcile fuel wf name inbox batch;
           now ← (fun b => (b_now b, b)) : D Z;
           mret (match r with
             | None => None
             | Some None => Some (mkDispatcher (di_Runtime d) (di_Batch d) (di_ApprovalTimeout d) (di_Inbox d) (di_Reconcile d)
                                    (<[name := now]> (di_lastPolled d)), [])
             | Some (Some err) => Some (d, [err])
             end)
         else mret (Some (d, [])));
    match r with
    | None => mret None
    | Some (d, errs) =>
        r ← drain d wf (name +++ "#inbox") (fun after => b_inbox inbox event after batch);
        mret (Some (d, fst r, errs ++ err_list (snd r)))
    end.

Fixpoint poll_loop (fuel : nat) (d : Dispatcher) (started : Z) (errs : list goerr) (wfs : list Workflow)
    : D (option (Dispatcher * Z * list goerr)) :=
  match wfs with
  | [] => mret (Some (d, started, errs))
  | wf :: wfs =>
      r ← poll_workflow fuel d wf;
      match r with
      | None => mret None
      | Some (d, n, es) => poll_loop fuel d (started + n)%Z (errs ++ es) wfs
      end
  end.

(** [Poll]: every workflow's trigger, by name. *)
Definition Poll (fuel : nat) (d : Dispatcher) : D (option (Dispatcher * Z * option goerr)) :=
  r ← poll_loop fuel d 0 [] (sort_by wf_Name (rb_Workflows (rs_Spec (rt_Spec (di_Runtime d)))));
  mret (match r with None => None | Some (d, n, errs) => Some (d, n, errors_join errs) end).
End dispatcher.
