(* ===== verification/DispatcherTheorems.v ===== *)
(** What a dispatcher relies on and keeps, and that passes of any number of them share
    cursors and inboxes. *)

From S2P Require Import Turgon Prelude GoStr GoErr GoTime Policy Governor GuardData Idempotency Guard RuntimeSpec Compiler.
From S2P Require Import CompileTheorems Template Engine Dispatcher.
From Stdlib Require Import Ascii String.

(** What a dispatcher relies on, and what it keeps: a backend's view, the invariant of
    cursors, inboxes and runs, and the promises of each call, between which other threads
    and other dispatchers may do anything a dispatcher itself may do. *)

(** ** What can be observed *)

(** Cursors, how many runs were started under an ID, what each source has emitted so far
    and what each inbox was delivered, in order, under the name it is read by. *)
Class BackendView (B : Type) := {
  v_cursor : B -> string -> Z;
  v_runs : B -> string -> nat;
  v_log : B -> string -> string -> list Event;
  v_inbox : B -> string -> string -> list Event;
  (** What the backend keeps of its own representation. *)
  v_ok : B -> Prop
}.

Definition before (x y : Event) : Prop := (sev_Position x < sev_Position y)%Z.

(** Positions count from one and grow. *)
Definition ordered_log (lg : list Event) : Prop :=
  StronglySorted before lg /\ Forall (fun ev => (0 < sev_Position ev)%Z) lg.

(** A position is the start or an event's; every event up to it is done with. *)
Definition passed (lg : list Event) (ok : Event -> Prop) (z : Z) : Prop :=
  (z = 0%Z \/ exists ev, ev ∈ lg /\ sev_Position ev = z) /\
  forall ev, ev ∈ lg -> (sev_Position ev <= z)%Z -> ok ev.

Section view.
Context {B : Type} `{BV : BackendView B}.

Definition started (b : B) (wf : Workflow) (ev : Event) : Prop := 1 <= v_runs b (RunID (wf_Name wf) ev).

(** An event's run was started, or the event waits in the inbox. *)
Definition handled (b : B) (wf : Workflow) (ev : Event) : Prop :=
  started b wf ev \/
  exists x, x ∈ v_inbox b (InboxSource (src_Endpoint (wf_Trigger wf)) (src_Event (wf_Trigger wf))) (src_Event (wf_Trigger wf)) /\ sev_ID x = sev_ID ev.

Definition source_log (b : B) (wf : Workflow) : list Event := v_log b (src_Endpoint (wf_Trigger wf)) (src_Event (wf_Trigger wf)).
Definition inbox_log (b : B) (wf : Workflow) : list Event :=
  v_inbox b (InboxSource (src_Endpoint (wf_Trigger wf)) (src_Event (wf_Trigger wf))) (src_Event (wf_Trigger wf)).
Definition inbox_cursor (wf : Workflow) : string := cursor_name wf +++ "#inbox".

(** No cursor has passed an event that was not dealt with. *)
Record sound (wfs : list Workflow) (b : B) : Prop := mkSound {
  so_ok : v_ok b;
  so_logs : forall ep ev, ordered_log (v_log b ep ev);
  so_inboxes : forall s n, ordered_log (v_inbox b s n);
  so_source : forall wf, wf ∈ wfs -> passed (source_log b wf) (handled b wf) (v_cursor b (cursor_name wf));
  so_inbox : forall wf, wf ∈ wfs -> passed (inbox_log b wf) (started b wf) (v_cursor b (inbox_cursor wf))
}.

(** What anyone may do: cursors advance, logs and inboxes grow, no run is started twice,
    and soundness is kept. *)
Record behaves (wfs : list Workflow) (b b' : B) : Prop := mkBehaves {
  bh_runs : forall id, v_runs b id <= v_runs b' id <= Nat.max 1 (v_runs b id);
  bh_cursor : forall c, (v_cursor b c <= v_cursor b' c)%Z;
  bh_log : forall ep ev, v_log b ep ev `prefix_of` v_log b' ep ev;
  bh_inbox : forall s n, v_inbox b s n `prefix_of` v_inbox b' s n;
  bh_sound : sound wfs b -> sound wfs b'
}.

#[export] Instance behaves_preorder wfs : PreOrder (behaves wfs).
Proof.
  split.
  - intros b. split; try done. intros; lia.
  - intros x y z [r1 c1 l1 i1 s1] [r2 c2 l2 i2 s2]. split; [..|tauto].
    + intros id. specialize (r1 id). specialize (r2 id). lia.
    + intros c. specialize (c1 c). specialize (c2 c). lia.
    + intros ep ev. by trans (v_log y ep ev).
    + intros s n. by trans (v_inbox y s n).
Qed.

(** ** One effect at a time *)

(** A run is started under [id], unless there is one. *)
Record ran_one (id : string) (b b' : B) : Prop := mkRanOne {
  ro_this : v_runs b id <= v_runs b' id <= Nat.max 1 (v_runs b id);
  ro_other : forall r, r <> id -> v_runs b' r = v_runs b r;
  ro_cursor : forall c, v_cursor b' c = v_cursor b c;
  ro_log : forall ep ev, v_log b' ep ev = v_log b ep ev;
  ro_inbox : forall s n, v_inbox b' s n = v_inbox b s n;
  ro_ok : v_ok b -> v_ok b'
}.

(** A cursor stays where it is or advances to [z]; it never goes back. *)
Record moved_one (c : string) (z : Z) (b b' : B) : Prop := mkMovedOne {
  mo_this : v_cursor b' c = v_cursor b c \/ v_cursor b' c = Z.max (v_cursor b c) z;
  mo_other : forall c', c' <> c -> v_cursor b' c' = v_cursor b c';
  mo_runs : forall r, v_runs b' r = v_runs b r;
  mo_log : forall ep ev, v_log b' ep ev = v_log b ep ev;
  mo_inbox : forall s n, v_inbox b' s n = v_inbox b s n;
  mo_ok : v_ok b -> v_ok b'
}.

(** One inbox gains events behind those it has, with positions of its own. *)
Record delivered_one (s : string) (b b' : B) : Prop := mkDeliveredOne {
  do_this : forall n, exists new, v_inbox b' s n = v_inbox b s n ++ new /\ (ordered_log (v_inbox b s n) -> ordered_log (v_inbox b' s n));
  do_other : forall s' n, s' <> s -> v_inbox b' s' n = v_inbox b s' n;
  do_cursor : forall c, v_cursor b' c = v_cursor b c;
  do_runs : forall r, v_runs b' r = v_runs b r;
  do_log : forall ep ev, v_log b' ep ev = v_log b ep ev;
  do_ok : v_ok b -> v_ok b'
}.

(** A batch of a log after a position: in order, from the log, without gaps, and not
    empty when something waits. *)
Record batch_of_log (lg : list Event) (after : Z) (events : list Event) : Prop := mkBatch {
  bl_sorted : StronglySorted before events;
  bl_from : forall ev, ev ∈ events -> ev ∈ lg /\ (after < sev_Position ev)%Z;
  bl_gapless : forall ev, ev ∈ lg -> (after < sev_Position ev <= last_position events)%Z -> ev ∈ events;
  bl_progress : events = [] -> forall ev, ev ∈ lg -> (sev_Position ev <= after)%Z
}.
End view.

(** What each call promises. An error may come before or after the effect. *)
Class BackendLaws (wfs : list Workflow) (B : Type) `{K : Backend B} `{BV : BackendView B} : Prop := {
  cursor_law c b r b' : sound wfs b -> b_cursor c b = (r, b') -> exists b1,
    behaves wfs b b1 /\ behaves wfs b1 b' /\ forall z, r = Ok z -> z = v_cursor b1 c;
  set_cursor_law c z b e b' : (0 <= z)%Z -> sound wfs b -> b_set_cursor c z b = (e, b') -> exists b1 b2,
    behaves wfs b b1 /\ moved_one c z b1 b2 /\ behaves wfs b2 b' /\ (e = None -> (z <= v_cursor b2 c)%Z);
  start_law id i b e b' : sound wfs b -> b_start id i b = (e, b') -> exists b1 b2,
    behaves wfs b b1 /\ ran_one id b1 b2 /\ behaves wfs b2 b' /\ (e = None -> 1 <= v_runs b2 id);
  poll_law ep ev after limit b r b' : (0 < limit)%Z -> sound wfs b -> b_poll ep ev after limit b = (r, b') -> exists b1,
    behaves wfs b b1 /\ behaves wfs b1 b' /\ forall events, r = Ok events -> batch_of_log (v_log b1 ep ev) after events;
  inbox_law s ev after limit b r b' : (0 < limit)%Z -> sound wfs b -> b_inbox s ev after limit b = (r, b') -> exists b1,
    behaves wfs b b1 /\ behaves wfs b1 b' /\ forall events, r = Ok events -> batch_of_log (v_inbox b1 s ev) after events;
  deliver_law s events b e b' : sound wfs b -> b_deliver s events b = (e, b') -> exists b1 b2,
    behaves wfs b b1 /\ delivered_one s b1 b2 /\ behaves wfs b2 b' /\
    (e = None -> forall ev, ev ∈ events -> forall n, exists x, x ∈ v_inbox b2 s n /\ sev_ID x = sev_ID ev)
}.

(** ** Positions and batches *)

Lemma last_position_cons ev ev' events : last_position (ev :: ev' :: events) = last_position (ev' :: events).
Proof.
  unfold last_position. cbn [List.rev]. destruct (List.rev events ++ [ev']) as [|x l] eqn:He; [|done].
  by apply app_eq_nil in He as [_ ?].
Qed.

Lemma last_position_max events ev :
  StronglySorted before events -> ev ∈ events -> (sev_Position ev <= last_position events)%Z.
Proof.
  intros Hs. revert ev. induction Hs as [|x l Hs IH Hx]; intros ev Hin; [by apply elem_of_nil in Hin|].
  destruct l as [|y l]; [apply list_elem_of_singleton in Hin as ->; cbn; lia|].
  rewrite last_position_cons. apply elem_of_cons in Hin as [->|Hin]; [|by apply IH].
  rewrite Forall_forall in Hx. specialize (Hx y ltac:(left)). specialize (IH y ltac:(left)). unfold before in Hx. lia.
Qed.

Lemma last_position_in events : events <> [] -> exists ev, ev ∈ events /\ sev_Position ev = last_position events.
Proof.
  intros Hne. unfold last_position. destruct (List.rev events) as [|ev l] eqn:Hr.
  - apply (f_equal (@List.rev Event)) in Hr. rewrite List.rev_involutive in Hr. by subst.
  - exists ev. split; [|done]. apply list_elem_of_In, List.in_rev. rewrite Hr. by left.
Qed.

Lemma sorted_app_before lg new x y : StronglySorted before (lg ++ new) -> x ∈ lg -> y ∈ new -> before x y.
Proof.
  intros Hs Hx Hy. induction lg as [|z lg IH]; [by apply elem_of_nil in Hx|].
  inversion Hs as [|? ? Hs' Hz]; subst. apply elem_of_cons in Hx as [->|Hx]; [|by apply IH].
  rewrite Forall_forall in Hz. apply Hz, elem_of_app. by right.
Qed.

(** Growing a log leaves what was passed passed. *)
Lemma passed_grows lg lg' (ok ok' : Event -> Prop) z :
  lg `prefix_of` lg' -> ordered_log lg' -> (forall ev, ok ev -> ok' ev) -> passed lg ok z -> passed lg' ok' z.
Proof.
  intros [new ->] [Hs Hp] Hok [Hr Hz]. split.
  { destruct Hr as [->|(ev & Hin & He)]; [by left|]. right. exists ev. split; [apply elem_of_app; by left|done]. }
  intros ev Hin Hle. apply elem_of_app in Hin as [Hin|Hin]; [by apply Hok, Hz|].
  exfalso. destruct Hr as [->|(x & Hx & <-)].
  - rewrite Forall_forall in Hp. specialize (Hp ev ltac:(apply elem_of_app; by right)). lia.
  - pose proof (sorted_app_before _ _ _ _ Hs Hx Hin) as Hb. unfold before in Hb. lia.
Qed.

Lemma passed_max lg ok z z' : passed lg ok z -> passed lg ok z' -> passed lg ok (Z.max z z').
Proof. intros H H'. destruct (Z.max_spec z z') as [[_ ->]|[_ ->]]; done. Qed.

(** ** What effects keep *)

(** Workflows a compiled spec holds: names are unique and none holds an [@]. *)
Record named_apart (wfs : list Workflow) : Prop := mkNamedApart {
  na_unique : forall x y, x ∈ wfs -> y ∈ wfs -> wf_Name x = wf_Name y -> x = y;
  na_plain : forall x, x ∈ wfs -> contains_byte "@" (wf_Name x) = false
}.

Section effects.
Context {B : Type} `{BV : BackendView B} (wfs : list Workflow).

Lemma prefix_refl_eq {A} (l l' : list A) : l' = l -> l `prefix_of` l'.
Proof using. by intros ->. Qed.

Lemma handled_mono b b' wf ev :
  (forall id, v_runs b id <= v_runs b' id) -> (forall s n, v_inbox b s n `prefix_of` v_inbox b' s n) ->
  handled b wf ev -> handled b' wf ev.
Proof using.
  intros Hr Hi [H|(x & Hx & He)]; [left; unfold started in *; specialize (Hr (RunID (wf_Name wf) ev)); lia|].
  right. exists x. split; [|done]. destruct (Hi (InboxSource (src_Endpoint (wf_Trigger wf)) (src_Event (wf_Trigger wf))) (src_Event (wf_Trigger wf))) as [new ->].
  apply elem_of_app. by left.
Qed.

(** Soundness where no cursor moved, runs only started and logs only grew. *)
Lemma sound_grows b b' :
  v_ok b' ->
  (forall ep ev, ordered_log (v_log b' ep ev)) -> (forall s n, ordered_log (v_inbox b' s n)) ->
  (forall c, v_cursor b' c = v_cursor b c) -> (forall id, v_runs b id <= v_runs b' id) ->
  (forall ep ev, v_log b ep ev `prefix_of` v_log b' ep ev) -> (forall s n, v_inbox b s n `prefix_of` v_inbox b' s n) ->
  sound wfs b -> sound wfs b'.
Proof using.
  intros Hok Hol Hoi Hc Hr Hl Hi [_ _ _ Hs Hx]. split; [done|done|done|..]; intros wf Hwf; rewrite Hc.
  - eapply passed_grows; [apply Hl|apply Hol| |by apply Hs]. intros ev. by apply handled_mono.
  - eapply passed_grows; [apply Hi|apply Hoi| |by apply Hx]. intros ev. unfold started.
    specialize (Hr (RunID (wf_Name wf) ev)). lia.
Qed.

Lemma ran_behaves id b b' : ran_one id b b' -> behaves wfs b b'.
Proof using.
  intros [Ht Ho Hc Hl Hi Hok].
  assert (Hr : forall r, v_runs b r <= v_runs b' r <= Nat.max 1 (v_runs b r)).
  { intros r. destruct (decide (r = id)) as [->|N]; [done|]. rewrite Ho by done. lia. }
  split; [done|intros c; rewrite Hc; lia|intros; by apply prefix_refl_eq|intros; by apply prefix_refl_eq|].
  intros S. pose proof S as [Hvok Hol Hoi _ _]. apply (sound_grows b); try done.
  - by apply Hok.
  - intros ep ev. rewrite Hl. apply Hol.
  - intros s n. rewrite Hi. apply Hoi.
  - intros r. apply Hr.
  - intros; by apply prefix_refl_eq.
  - intros; by apply prefix_refl_eq.
Qed.

Lemma delivered_behaves s b b' : delivered_one s b b' -> behaves wfs b b'.
Proof using.
  intros [Ht Ho Hc Hr Hl Hok].
  assert (Hp : forall s' n, v_inbox b s' n `prefix_of` v_inbox b' s' n).
  { intros s' n. destruct (decide (s' = s)) as [->|N]; [destruct (Ht n) as (new & -> & _); by exists new|apply prefix_refl_eq, Ho; done]. }
  split; [intros id; rewrite Hr; lia|intros c; rewrite Hc; lia|intros; by apply prefix_refl_eq|done|].
  intros S. pose proof S as [Hvok Hol Hoi _ _]. apply (sound_grows b); try done.
  - by apply Hok.
  - intros ep ev. rewrite Hl. apply Hol.
  - intros s' n. destruct (decide (s' = s)) as [->|N]; [destruct (Ht n) as (_ & _ & Hord); apply Hord, Hoi|rewrite Ho by done; apply Hoi].
  - intros id. rewrite Hr. lia.
  - intros; by apply prefix_refl_eq.
Qed.

(** ** Cursors' names *)

Lemma at_split a r a' r' :
  contains_byte "@" a = false -> contains_byte "@" a' = false -> a +++ "@" +++ r = a' +++ "@" +++ r' -> a = a' /\ r = r'.
Proof using.
  intros H H' He.
  assert (Hc : cut_first "@" (a +++ "@" +++ r) = Some (a, r)) by (by apply cut_first_spec).
  assert (Hc' : cut_first "@" (a' +++ "@" +++ r') = Some (a', r')) by (by apply cut_first_spec).
  rewrite He, Hc' in Hc. by injection Hc as -> ->.
Qed.

Context (N : named_apart wfs).

Lemma cursor_name_inj wf wf' : wf ∈ wfs -> wf' ∈ wfs -> cursor_name wf = cursor_name wf' -> wf = wf'.
Proof using N.
  destruct N as [Hu Hp]. intros H H' He. unfold cursor_name in He. apply at_split in He as [He _]; eauto.
Qed.

Lemma hash_longer (s : string) : s +++ "#inbox" <> s.
Proof using.
  induction s as [|c s IH]; [done|]. change (String c (s +++ "#inbox") <> String c s). congruence.
Qed.

Lemma cursors_apart wf wf' : wf ∈ wfs -> wf' ∈ wfs -> inbox_cursor wf <> cursor_name wf'.
Proof using N.
  intros H H' He. pose proof He as He'. unfold inbox_cursor, cursor_name in He'. rewrite !str_app_assoc in He'.
  apply at_split in He' as [Hn _]; [|by apply N|by apply N].
  assert (wf = wf') as -> by (by apply N). by apply hash_longer in He.
Qed.

Lemma inbox_cursor_inj wf wf' : wf ∈ wfs -> wf' ∈ wfs -> inbox_cursor wf = inbox_cursor wf' -> wf = wf'.
Proof using N.
  intros H H' He. unfold inbox_cursor, cursor_name in He. rewrite !str_app_assoc in He.
  apply at_split in He as [Hn _]; [|by apply N|by apply N]. by apply N.
Qed.

(** A cursor may move past what was dealt with. *)
Lemma moved_behaves c z b b' :
  moved_one c z b b' ->
  (forall wf, wf ∈ wfs -> c = cursor_name wf -> passed (source_log b wf) (handled b wf) z) ->
  (forall wf, wf ∈ wfs -> c = inbox_cursor wf -> passed (inbox_log b wf) (started b wf) z) ->
  behaves wfs b b'.
Proof using.
  intros [Ht Ho Hr Hl Hi Hok] Hs Hx.
  split; [intros id; rewrite Hr; lia| |intros; by apply prefix_refl_eq|intros; by apply prefix_refl_eq|].
  { intros c'. destruct (decide (c' = c)) as [->|Hne]; [destruct Ht as [->| ->]; lia|rewrite Ho by done; lia]. }
  intros [Hvok Hol Hoi Hs0 Hx0].
  assert (Hh : forall wf ev, handled b wf ev -> handled b' wf ev).
  { intros wf ev. apply handled_mono; [intros id; by rewrite Hr|intros; by apply prefix_refl_eq]. }
  assert (Hst : forall wf ev, started b wf ev -> started b' wf ev) by (intros wf ev; unfold started; by rewrite Hr).
  split; [by apply Hok|intros ep ev; rewrite Hl; apply Hol|intros s n; rewrite Hi; apply Hoi|..]; intros wf Hwf.
  - assert (Hp : passed (source_log b wf) (handled b wf) (v_cursor b' (cursor_name wf))).
    { destruct (decide (cursor_name wf = c)) as [Hc|Hne]; [|rewrite Ho by done; by apply Hs0]. rewrite Hc. 
      destruct Ht as [->| ->]; [rewrite <- Hc; by apply Hs0|]. apply passed_max; [rewrite <- Hc; by apply Hs0|by apply Hs]. }
    destruct Hp as [Hp1 Hp2]. unfold source_log in *. rewrite Hl. split; [done|]. intros ev Hin Hle. by apply Hh, Hp2.
  - assert (Hp : passed (inbox_log b wf) (started b wf) (v_cursor b' (inbox_cursor wf))).
    { destruct (decide (inbox_cursor wf = c)) as [Hc|Hne]; [|rewrite Ho by done; by apply Hx0]. rewrite Hc. 
      destruct Ht as [->| ->]; [rewrite <- Hc; by apply Hx0|]. apply passed_max; [rewrite <- Hc; by apply Hx0|by apply Hx]. }
    destruct Hp as [Hp1 Hp2]. unfold inbox_log in *. rewrite Hi. split; [done|]. intros ev Hin Hle. by apply Hst, Hp2.
Qed.

Lemma source_moved wf z b b' :
  wf ∈ wfs -> moved_one (cursor_name wf) z b b' -> passed (source_log b wf) (handled b wf) z -> behaves wfs b b'.
Proof using N.
  intros Hwf Hm Hp. eapply moved_behaves; [done|..]; intros wf' Hwf' He.
  - by apply cursor_name_inj in He as ->.
  - by apply eq_sym, cursors_apart in He.
Qed.

Lemma inbox_moved wf z b b' :
  wf ∈ wfs -> moved_one (inbox_cursor wf) z b b' -> passed (inbox_log b wf) (started b wf) z -> behaves wfs b b'.
Proof using N.
  intros Hwf Hm Hp. eapply moved_behaves; [done|..]; intros wf' Hwf' He.
  - by apply cursors_apart in He.
  - by apply inbox_cursor_inj in He as ->.
Qed.

(** What was passed stays passed, whatever others do. *)
Lemma source_passed_stable wf z b b' :
  behaves wfs b b' -> sound wfs b' -> passed (source_log b wf) (handled b wf) z -> passed (source_log b' wf) (handled b' wf) z.
Proof using.
  intros [Hr Hc Hl Hi _] [_ Hol Hoi _ _]. apply passed_grows; [apply Hl|apply Hol|].
  intros ev. apply handled_mono; [intros id; apply Hr|done].
Qed.

Lemma inbox_passed_stable wf z b b' :
  behaves wfs b b' -> sound wfs b' -> passed (inbox_log b wf) (started b wf) z -> passed (inbox_log b' wf) (started b' wf) z.
Proof using.
  intros [Hr Hc Hl Hi _] [_ Hol Hoi _ _]. apply passed_grows; [apply Hi|apply Hoi|].
  intros ev. unfold started. specialize (Hr (RunID (wf_Name wf) ev)). lia.
Qed.
End effects.

(** A pass of the dispatcher does only what every dispatcher relies on the others for, so
    any number of them share cursors and inboxes; reconciling ends. *)

(** ** What remains of a batch *)

(** Events of a log after [z] and up to [hi], an event's position: in order, all of them. *)
Record rest (lg : list Event) (z hi : Z) (events : list Event) : Prop := mkRest {
  re_sorted : StronglySorted before events;
  re_from : forall ev, ev ∈ events -> ev ∈ lg /\ (z < sev_Position ev <= hi)%Z;
  re_gapless : forall ev, ev ∈ lg -> (z < sev_Position ev <= hi)%Z -> ev ∈ events;
  re_reached : exists ev, ev ∈ lg /\ sev_Position ev = hi
}.

Lemma batch_rest lg z events : batch_of_log lg z events -> events <> [] -> rest lg z (last_position events) events.
Proof.
  intros [Hs Hf Hg _] Hne. split; [done| |done|].
  - intros ev Hin. destruct (Hf ev Hin) as [Hl Hz]. split; [done|]. split; [done|]. by apply last_position_max.
  - destruct (last_position_in events Hne) as (ev & Hin & He). exists ev. split; [|done]. by apply Hf.
Qed.

Lemma rest_grows lg lg' z hi events : lg `prefix_of` lg' -> ordered_log lg' -> rest lg z hi events -> rest lg' z hi events.
Proof.
  intros [new ->] [Hs _] [Hr Hf Hg (x & Hx & <-)]. split; [done|..].
  - intros ev Hin. destruct (Hf ev Hin) as [Hl Hz]. split; [apply elem_of_app; by left|done].
  - intros ev Hin Hz. apply elem_of_app in Hin as [Hin|Hin]; [by apply Hg|].
    pose proof (sorted_app_before _ _ _ _ Hs Hx Hin) as Hb. unfold before in Hb. lia.
  - exists x. split; [apply elem_of_app; by left|done].
Qed.

Lemma rest_tail lg z hi ev events : rest lg z hi (ev :: events) -> rest lg (sev_Position ev) hi events.
Proof.
  intros [Hs Hf Hg Hr]. inversion Hs as [|? ? Hs' Hall]; subst. rewrite Forall_forall in Hall.
  destruct (Hf ev ltac:(left)) as [_ Hz]. split; [done|..|done].
  - intros x Hx. destruct (Hf x ltac:(by right)) as [Hl Hb]. split; [done|]. split; [by apply Hall|lia].
  - intros x Hx Hb. assert (Hin : x ∈ ev :: events) by (apply Hg; [done|lia]).
    apply elem_of_cons in Hin as [->|Hin]; [lia|done].
Qed.

Lemma rest_passed lg ok z hi ev events :
  rest lg z hi (ev :: events) -> ok ev -> passed lg ok z -> passed lg ok (sev_Position ev).
Proof.
  intros [Hs Hf Hg _] Hok [_ Hp]. inversion Hs as [|? ? _ Hall]; subst. rewrite Forall_forall in Hall.
  destruct (Hf ev ltac:(left)) as [Hin Hz]. split; [right; by exists ev|].
  intros x Hx Hle. destruct (Z.le_gt_cases (sev_Position x) z) as [Hb|Hb]; [by apply Hp|].
  assert (Hxin : x ∈ ev :: events) by (apply Hg; [done|lia]).
  apply elem_of_cons in Hxin as [->|Hxin]; [done|]. specialize (Hall x Hxin). unfold before in Hall. lia.
Qed.

Lemma rest_all_passed lg ok z hi events :
  rest lg z hi events -> (forall ev, ev ∈ events -> ok ev) -> passed lg ok z -> passed lg ok hi.
Proof.
  intros [_ _ Hg Hr] Hok [_ Hp]. split; [by right|]. intros ev Hin Hle.
  destruct (Z.le_gt_cases (sev_Position ev) z) as [Hb|Hb]; [by apply Hp|]. apply Hok, Hg; [done|lia].
Qed.

Section passes.
Context {B : Type} (wfs : list Workflow) `{L : BackendLaws wfs B} (N : named_apart wfs).

Lemma D_bind_inv {A C} (m : B -> A * B) (f : A -> D C) b c b' :
  ((m : D A) ≫= f) b = (c, b') -> exists a b1, m b = (a, b1) /\ f a b1 = (c, b').
Proof using. unfold mbind, D_bind. destruct (m b) as [a b1]. eauto. Qed.

(** ** Draining *)

(** A cursor over a log: what it takes to have passed an event. *)
Record lane (wf : Workflow) (cur : string) (lg : B -> list Event) (ok : B -> Event -> Prop) : Prop := mkLane {
  ln_grows : forall b b', behaves wfs b b' -> lg b `prefix_of` lg b';
  ln_ordered : forall b, sound wfs b -> ordered_log (lg b);
  ln_stable : forall b b' z, behaves wfs b b' -> sound wfs b' -> passed (lg b) (ok b) z -> passed (lg b') (ok b') z;
  ln_moved : forall b b' z, moved_one cur z b b' -> passed (lg b) (ok b) z -> behaves wfs b b';
  ln_started : forall b ev, started b wf ev -> ok b ev;
  ln_sound : forall b, sound wfs b -> passed (lg b) (ok b) (v_cursor b cur)
}.

Lemma source_lane wf : wf ∈ wfs -> lane wf (cursor_name wf) (fun b => source_log b wf) (fun b => handled b wf).
Proof using N.
  intros Hwf. split.
  - intros b b' H. apply H.
  - intros b S. apply S.
  - intros b b' z. apply source_passed_stable.
  - intros b b' z. by apply source_moved.
  - intros b ev H. by left.
  - intros b S. by apply S.
Qed.

Lemma inbox_lane wf : wf ∈ wfs -> lane wf (inbox_cursor wf) (fun b => inbox_log b wf) (fun b => started b wf).
Proof using N.
  intros Hwf. split.
  - intros b b' H. apply H.
  - intros b S. apply S.
  - intros b b' z. apply inbox_passed_stable.
  - intros b b' z. by apply inbox_moved.
  - done.
  - intros b S. by apply S.
Qed.

(** Advancing a cursor past what was dealt with. *)
Lemma advance wf cur lg ok z b cerr b' :
  lane wf cur lg ok -> sound wfs b -> passed (lg b) (ok b) z -> b_set_cursor cur z b = (cerr, b') ->
  behaves wfs b b' /\ (cerr = None -> (z <= v_cursor b' cur)%Z).
Proof using L.
  intros La S Hp H. assert (Hz : (0 <= z)%Z).
  { destruct Hp as [[->|(ev & Hin & <-)] _]; [done|]. destruct (ln_ordered _ _ _ _ La b S) as [_ Hpos].
    rewrite Forall_forall in Hpos. specialize (Hpos ev Hin). cbn in Hpos. lia. }
  apply set_cursor_law in H as (b1 & b2 & H1 & Hm & H2 & Hc); [|done|done].
  assert (S1 : sound wfs b1) by (by apply H1).
  assert (Hm' : behaves wfs b1 b2) by (apply (ln_moved _ _ _ _ La _ _ z); [done|]; by apply (ln_stable _ _ _ _ La b)).
  split; [etrans; [exact H1|]; by etrans|]. intros He. specialize (Hc He). pose proof (bh_cursor _ _ _ H2 cur). lia.
Qed.

Lemma start_behaves id i b e b' :
  sound wfs b -> b_start id i b = (e, b') -> behaves wfs b b' /\ (e = None -> 1 <= v_runs b' id).
Proof using L.
  intros S H. apply start_law in H as (b1 & b2 & H1 & Hr & H2 & He); [|done].
  split; [etrans; [exact H1|]; etrans; [by eapply ran_behaves|done]|].
  intros E. specialize (He E). pose proof (bh_runs _ _ _ H2 id). lia.
Qed.

Lemma drain_loop_safe d wf cur lg ok hi events b z n b' k err :
  lane wf cur lg ok -> sound wfs b -> rest (lg b) z hi events -> passed (lg b) (ok b) z ->
  drain_loop d wf cur k events b = ((n, err), b') ->
  behaves wfs b b' /\ (k <= n <= k + Z.of_nat (List.length events))%Z /\
  (err = None -> n = (k + Z.of_nat (List.length events))%Z /\
     (events <> [] -> (last_position events <= v_cursor b' cur)%Z) /\ forall ev, ev ∈ events -> started b' wf ev).
Proof using L.
  intros La. revert b z k. induction events as [|ev events IH]; intros b z k S Hr Hp H; cbn [drain_loop] in H.
  { injection H as <- <- <-. split; [done|]. split; [cbn; lia|]. intros _. split; [cbn; lia|]. split; [done|].
    intros x Hx. by apply elem_of_nil in Hx. }
  apply D_bind_inv in H as (serr & b1 & H1 & H). apply start_behaves in H1 as [B1 Hst]; [|done].
  destruct serr as [e|]; [injection H as <- <- <-; split; [done|]; split; [lia|done]|]. specialize (Hst eq_refl).
  apply D_bind_inv in H as (cerr & b2 & H2 & H).
  assert (S1 : sound wfs b1) by (by apply B1).
  assert (Hr1 : rest (lg b1) z hi (ev :: events)).
  { eapply rest_grows; [by apply (ln_grows _ _ _ _ La b)|by apply (ln_ordered _ _ _ _ La)|done]. }
  assert (Hp1 : passed (lg b1) (ok b1) (sev_Position ev)).
  { eapply rest_passed; [done|by apply (ln_started _ _ _ _ La)|by apply (ln_stable _ _ _ _ La b)]. }
  destruct (advance _ _ _ _ _ _ _ _ La S1 Hp1 H2) as [B2 Hc2].
  assert (B02 : behaves wfs b b2) by (by etrans).
  destruct cerr as [e|]; [injection H as <- <- <-; split; [done|]; split; [cbn [List.length]; lia|done]|]. specialize (Hc2 eq_refl).
  assert (S2 : sound wfs b2) by (by apply B2).
  destruct (IH b2 (sev_Position ev) (k + 1)%Z S2) as (B3 & Hn & Hok); [..|done|].
  { apply (rest_tail _ z). eapply rest_grows; [by apply (ln_grows _ _ _ _ La b1)|by apply (ln_ordered _ _ _ _ La)|done]. }
  { by apply (ln_stable _ _ _ _ La b1). }
  split; [by etrans|]. split; [cbn [List.length]; lia|]. intros He. destruct (Hok He) as (-> & Hcur & Hruns).
  split; [cbn [List.length]; lia|]. split.
  - intros _. destruct events as [|y l]; [|rewrite last_position_cons; by apply Hcur].
    pose proof (bh_cursor _ _ _ B3 cur). cbn. lia.
  - intros x Hx. apply elem_of_cons in Hx as [->|Hx]; [|by apply Hruns].
    unfold started in *. pose proof (bh_runs _ _ _ B2 (RunID (wf_Name wf) ev)). pose proof (bh_runs _ _ _ B3 (RunID (wf_Name wf) ev)). lia.
Qed.

(** Reading a lane: a batch of its log at some moment of the call. *)
Definition reads (lg : B -> list Event) (read : Z -> D (result (list Event))) : Prop :=
  forall after b r b', sound wfs b -> read after b = (r, b') -> exists b1,
    behaves wfs b b1 /\ behaves wfs b1 b' /\ forall events, r = Ok events -> batch_of_log (lg b1) after events.

(** Whatever waits when a pass begins, its cursor reaches it or at least advances. *)
Definition advances (cur : string) (lg : B -> list Event) (b b' : B) : Prop :=
  forall ev, ev ∈ lg b -> (sev_Position ev <= v_cursor b' cur \/ v_cursor b cur < v_cursor b' cur)%Z.

Lemma advances_within cur lg b b1 b2 b' :
  (forall x y, behaves wfs x y -> lg x `prefix_of` lg y) -> behaves wfs b b1 -> behaves wfs b2 b' ->
  advances cur lg b1 b2 -> advances cur lg b b'.
Proof using.
  intros Hg H1 H2 Ha ev Hin. pose proof (bh_cursor _ _ _ H1 cur). pose proof (bh_cursor _ _ _ H2 cur).
  destruct (Hg _ _ H1) as [new Hn]. destruct (Ha ev); [rewrite Hn; apply elem_of_app; by left|left|right]; lia.
Qed.

(** A batch of a lane, after its cursor. *)
Lemma lane_batch wf cur lg ok b r b1 events b2 read z :
  lane wf cur lg ok -> reads lg read -> sound wfs b -> b_cursor cur b = (r, b1) -> r = Ok z -> read z b1 = (Ok events, b2) ->
  behaves wfs b b2 /\ sound wfs b2 /\ (v_cursor b cur <= z <= v_cursor b2 cur)%Z /\ passed (lg b2) (ok b2) z /\
  (events = [] -> forall ev, ev ∈ lg b -> (sev_Position ev <= z)%Z) /\
  (events <> [] -> rest (lg b2) z (last_position events) events /\ (z < last_position events)%Z).
Proof using L.
  intros La Hread S H1 -> H2. apply cursor_law in H1 as (c1 & A1 & A2 & Hz); [|done]. specialize (Hz _ eq_refl) as ->.
  assert (S0 : sound wfs b1) by (by apply A2, A1). apply Hread in H2 as (c2 & A3 & A4 & Hb); [|done]. specialize (Hb _ eq_refl).
  assert (A5 : behaves wfs c1 c2) by (by etrans). assert (A6 : behaves wfs b c2) by (by etrans).
  assert (A7 : behaves wfs c1 b2) by (by etrans). assert (S1 : sound wfs c1) by (by apply A1). assert (S2 : sound wfs b2) by (by apply A7).
  split; [by etrans|]. split; [done|]. split; [split; [apply (bh_cursor _ _ _ A1)|apply (bh_cursor _ _ _ A7)]|].
  split; [apply (ln_stable _ _ _ _ La c1); [done|done|by apply (ln_sound _ _ _ _ La)]|]. split.
  - intros -> ev Hin. apply (bl_progress _ _ _ Hb eq_refl). destruct (ln_grows _ _ _ _ La _ _ A6) as [new ->].
    apply elem_of_app. by left.
  - intros Hne. split.
    + eapply rest_grows; [by apply (ln_grows _ _ _ _ La c2)|by apply (ln_ordered _ _ _ _ La)|by apply batch_rest].
    + destruct (last_position_in events Hne) as (ev & Hin & <-). by apply (bl_from _ _ _ Hb).
Qed.

Lemma drain_safe d wf cur lg ok read b n err b' :
  lane wf cur lg ok -> reads lg read -> sound wfs b -> drain d wf cur read b = ((n, err), b') ->
  behaves wfs b b' /\ (0 <= n)%Z /\ (err = None -> advances cur lg b b').
Proof using L.
  intros La Hread S H. unfold drain in H. apply D_bind_inv in H as (r & b1 & H1 & H).
  destruct r as [z|e].
  2:{ injection H as <- <- <-. apply cursor_law in H1 as (c1 & A1 & A2 & _); [|done]. split; [by etrans|]. split; [done|done]. }
  apply D_bind_inv in H as (r & b2 & H2 & H). destruct r as [events|e].
  2:{ injection H as <- <- <-. apply cursor_law in H1 as (c1 & A1 & A2 & _); [|done].
      apply Hread in H2 as (c2 & A3 & A4 & _); [|by apply A2, A1].
      split; [|done]. etrans; [exact A1|]. etrans; [exact A2|]. by etrans. }
  destruct (lane_batch _ _ _ _ _ _ _ _ _ _ _ La Hread S H1 eq_refl H2) as (A & S2 & Hz & Hp & He & Hne).
  destruct events as [|ev events].
  { injection H as <- <- <-. split; [done|]. split; [done|]. intros _ ev Hin. left. specialize (He eq_refl ev Hin). lia. }
  destruct (Hne ltac:(done)) as [Hr Hlt]. destruct (drain_loop_safe _ _ _ _ _ _ _ _ _ _ _ _ _ La S2 Hr Hp H) as (A' & Hn & Hok).
  split; [by etrans|]. split; [lia|]. intros E. destruct (Hok E) as (_ & Hc & _). specialize (Hc ltac:(done)).
  intros x Hx. right. lia.
Qed.

(** ** Reconciling *)

(** How many events of a log lie above a position. *)
Definition pending (lg : list Event) (z : Z) : nat := List.length (List.filter (fun ev => z <? sev_Position ev)%Z lg).

Lemma pending_prefix lg lg' z : lg `prefix_of` lg' -> pending lg z <= pending lg' z.
Proof using. intros [new ->]. unfold pending. rewrite List.filter_app, List.length_app. lia. Qed.

Lemma pending_below lg z z' : (z <= z')%Z -> pending lg z' <= pending lg z.
Proof using.
  intros Hz. unfold pending. induction lg as [|x lg IH]; cbn; [lia|].
  destruct (z' <? sev_Position x)%Z eqn:E'; destruct (z <? sev_Position x)%Z eqn:E; bools; cbn; lia.
Qed.

Lemma pending_step lg z z' ev : ev ∈ lg -> (z < sev_Position ev <= z')%Z -> S (pending lg z') <= pending lg z.
Proof using.
  intros Hin Hz. induction Hin as [x lg|x y lg Hin IH].
  - pose proof (pending_below lg z z' ltac:(lia)) as Hb. unfold pending in *. cbn [List.filter].
    destruct (z' <? sev_Position x)%Z eqn:E'; destruct (z <? sev_Position x)%Z eqn:E; bools; cbn; lia.
  - unfold pending in *. cbn [List.filter]. specialize (IH Hz).
    destruct (z' <? sev_Position y)%Z eqn:E'; destruct (z <? sev_Position y)%Z eqn:E; bools; cbn; lia.
Qed.

Lemma poll_reads wf batch : (0 < batch)%Z -> reads (fun b => source_log b wf) (fun after => b_poll (src_Endpoint (wf_Trigger wf)) (src_Event (wf_Trigger wf)) after batch).
Proof using L. intros Hb after b r b' S H. apply poll_law in H as (b1 & H1 & H2 & H3); [by exists b1|done|done]. Qed.

Lemma inbox_reads wf batch :
  (0 < batch)%Z -> reads (fun b => inbox_log b wf)
    (fun after => b_inbox (InboxSource (src_Endpoint (wf_Trigger wf)) (src_Event (wf_Trigger wf))) (src_Event (wf_Trigger wf)) after batch).
Proof using L. intros Hb after b r b' S H. apply inbox_law in H as (b1 & H1 & H2 & H3); [by exists b1|done|done]. Qed.

(** Delivering a batch to the workflow's inbox deals with its events. *)
Lemma deliver_handles wf events b e b' :
  b_deliver (InboxSource (src_Endpoint (wf_Trigger wf)) (src_Event (wf_Trigger wf))) events b = (e, b') -> sound wfs b ->
  behaves wfs b b' /\ (e = None -> forall ev, ev ∈ events -> handled b' wf ev).
Proof using L.
  intros H S. apply deliver_law in H as (b1 & b2 & H1 & Hd & H2 & He); [|done].
  split; [etrans; [exact H1|]; etrans; [by eapply delivered_behaves|done]|].
  intros E ev Hin. destruct (He E ev Hin (src_Event (wf_Trigger wf))) as (x & Hx & Hid). right. exists x. split; [|done].
  destruct (bh_inbox _ _ _ H2 (InboxSource (src_Endpoint (wf_Trigger wf)) (src_Event (wf_Trigger wf))) (src_Event (wf_Trigger wf))) as [new ->].
  apply elem_of_app. by left.
Qed.

Lemma reconcile_safe wf batch fuel b r b' :
  (0 < batch)%Z -> wf ∈ wfs -> sound wfs b ->
  reconcile fuel wf (cursor_name wf) (InboxSource (src_Endpoint (wf_Trigger wf)) (src_Event (wf_Trigger wf))) batch b = (r, b') ->
  behaves wfs b b' /\ (r = None -> fuel <= pending (source_log b' wf) (v_cursor b (cursor_name wf))) /\
  (r = Some None -> advances (cursor_name wf) (fun b => source_log b wf) b b').
Proof using L N.
  intros Hb Hwf. revert b. induction fuel as [|fuel IH]; intros b S H; cbn [reconcile] in H.
  { injection H as <- <-. split; [done|]. split; [lia|done]. }
  pose proof (source_lane wf Hwf) as La. apply D_bind_inv in H as (rz & b1 & H1 & H). destruct rz as [z|e].
  2:{ injection H as <- <-. apply cursor_law in H1 as (c1 & A1 & A2 & _); [|done]. split; [by etrans|done]. }
  apply D_bind_inv in H as (re & b2 & H2 & H). destruct re as [events|e].
  2:{ injection H as <- <-. apply cursor_law in H1 as (c1 & A1 & A2 & _); [|done].
      apply poll_law in H2 as (c2 & A3 & A4 & _); [|done|by apply A2, A1].
      split; [|done]. etrans; [exact A1|]. etrans; [exact A2|]. by etrans. }
  destruct (lane_batch _ _ _ _ _ _ _ _ _ _ _ La (poll_reads wf batch Hb) S H1 eq_refl H2) as (A & S2 & Hz & Hp & He & Hne).
  destruct events as [|ev events].
  { injection H as <- <-. split; [done|]. split; [done|]. intros _ x Hx. left. specialize (He eq_refl x Hx). lia. }
  destruct (Hne ltac:(done)) as [Hr Hlt]. remember (ev :: events) as batch_events eqn:Hbe.
  assert (H' : (derr ← b_deliver (InboxSource (src_Endpoint (wf_Trigger wf)) (src_Event (wf_Trigger wf))) batch_events;
    match derr with
    | Some err => mret (Some (Some (Wrapf (Msg "%s: inbox: %w" [FStr (cursor_name wf)]) [err])))
    | None => cerr ← b_set_cursor (cursor_name wf) (last_position batch_events);
        match cerr with
        | Some err => mret (Some (Some err))
        | None => if (Z.of_nat (List.length batch_events) <? batch)%Z then mret (Some None)
                  else reconcile fuel wf (cursor_name wf) (InboxSource (src_Endpoint (wf_Trigger wf)) (src_Event (wf_Trigger wf))) batch
        end
    end : D _) b2 = (r, b')) by (by subst batch_events). clear H Hbe. rename H' into H.
  apply D_bind_inv in H as (derr & b3 & H3 & H). apply deliver_handles in H3 as [A3 Hd]; [|done].
  destruct derr as [e|]; [injection H as <- <-; split; [by etrans|done]|]. specialize (Hd eq_refl).
  assert (S3 : sound wfs b3) by (by apply A3).
  assert (Hr3 : rest (source_log b3 wf) z (last_position batch_events) batch_events).
  { eapply rest_grows; [by apply (ln_grows _ _ _ _ La b2)|by apply (ln_ordered _ _ _ _ La)|done]. }
  assert (Hp3 : passed (source_log b3 wf) (handled b3 wf) (last_position batch_events)).
  { eapply rest_all_passed; [done|done|]. by apply (ln_stable _ _ _ _ La b2). }
  apply D_bind_inv in H as (cerr & b4 & H4 & H). destruct (advance _ _ _ _ _ _ _ _ La S3 Hp3 H4) as [A4 Hc4].
  assert (A04 : behaves wfs b b4) by (etrans; [exact A|]; by etrans).
  destruct cerr as [e|]; [injection H as <- <-; split; [done|done]|]. specialize (Hc4 eq_refl).
  destruct (Z.of_nat (List.length batch_events) <? batch)%Z.
  { injection H as <- <-. split; [done|]. split; [done|]. intros _ x Hx. right. lia. }
  assert (S4 : sound wfs b4) by (by apply A4).
  destruct (IH b4 S4 H) as (A5 & Hf & Ha). split; [by etrans|]. split.
  - intros Hnone. specialize (Hf Hnone). destruct (re_reached _ _ _ _ Hr3) as (x & Hx & Hxl).
    assert (Hx' : x ∈ source_log b' wf).
    { assert (A35 : behaves wfs b3 b') by (by etrans). destruct (ln_grows _ _ _ _ La _ _ A35) as [new ->]. apply elem_of_app. by left. }
    pose proof (pending_step _ (v_cursor b (cursor_name wf)) (v_cursor b4 (cursor_name wf)) x Hx') as Hps.
    unfold source_log in *. cbn beta in *. lia.
  - intros E x Hx. right. pose proof (bh_cursor _ _ _ A5 (cursor_name wf)). lia.
Qed.

(** ** Passes *)

(** Where a workflow's runs are started from, in a dispatcher's configuration. *)
Definition by_inbox (d : Dispatcher) (wf : Workflow) : bool :=
  let ep := src_Endpoint (wf_Trigger wf) in
  let event := src_Event (wf_Trigger wf) in
  rt_streamed (di_Runtime d) ep event || (rt_hooked (di_Runtime d) ep event && di_Inbox d).

Definition lane_cursor (d : Dispatcher) (wf : Workflow) : string := if by_inbox d wf then inbox_cursor wf else cursor_name wf.
Definition lane_log (d : Dispatcher) (wf : Workflow) (b : B) : list Event :=
  if by_inbox d wf then inbox_log b wf else source_log b wf.

Lemma lane_log_grows d wf b b' : behaves wfs b b' -> lane_log d wf b `prefix_of` lane_log d wf b'.
Proof using. intros H. unfold lane_log. destruct (by_inbox d wf); [apply (bh_inbox _ _ _ H)|apply (bh_log _ _ _ H)]. Qed.

Lemma batch_pos d : (0 < batch_of d)%Z.
Proof using. unfold batch_of. destruct (di_Batch d <=? 0)%Z eqn:E; bools; lia. Qed.

(** Passes change nothing of a dispatcher but when it last polled. *)
Definition same_setup (d d' : Dispatcher) : Prop :=
  di_Runtime d' = di_Runtime d /\ di_Inbox d' = di_Inbox d /\ di_Batch d' = di_Batch d.

Lemma same_setup_lane d d' wf : same_setup d d' -> lane_cursor d' wf = lane_cursor d wf /\ lane_log d' wf = lane_log d wf.
Proof using. intros (H1 & H2 & _). unfold lane_cursor, lane_log, by_inbox. by rewrite H1, H2. Qed.

Lemma poll_workflow_safe fuel d wf b r b' :
  wf ∈ wfs -> sound wfs b -> poll_workflow fuel d wf b = (r, b') ->
  behaves wfs b b' /\
  match r with
  | None => fuel <= pending (source_log b' wf) (v_cursor b (cursor_name wf))
  | Some (d', n, errs) => same_setup d d' /\ (0 <= n)%Z /\ (errs = [] -> advances (lane_cursor d wf) (lane_log d wf) b b')
  end.
Proof using L N.
  intros Hwf S H. unfold poll_workflow in H. cbv zeta in H.
  destruct (rt_streamed (di_Runtime d) _ _ && negb (di_Inbox d)) eqn:Hno.
  { injection H as <- <-. split; [done|]. by repeat split. }
  destruct (negb (rt_streamed (di_Runtime d) _ _) && _) eqn:Hpoll.
  - assert (Hb : by_inbox d wf = false).
    { unfold by_inbox. destruct (rt_streamed (di_Runtime d) _ _), (rt_hooked (di_Runtime d) _ _), (di_Inbox d); done. }
    apply D_bind_inv in H as ([n err] & b1 & H1 & H). injection H as <- <-. cbn [fst snd].
    destruct (drain_safe _ _ _ _ _ _ _ _ _ _ (source_lane wf Hwf) (poll_reads wf (batch_of d) (batch_pos d)) S H1) as (A & Hn & Ha).
    split; [done|]. split; [by repeat split|]. split; [done|]. unfold lane_cursor, lane_log. rewrite Hb.
    destruct err; [done|]. intros _. by apply Ha.
  - assert (Hb : by_inbox d wf = true).
    { unfold by_inbox. destruct (rt_streamed (di_Runtime d) _ _), (rt_hooked (di_Runtime d) _ _), (di_Inbox d); done. }
    apply D_bind_inv in H as (now & b0 & H0 & H). injection H0 as <- <-.
    apply D_bind_inv in H as (rec & b1 & H1 & H).
    assert (A : behaves wfs b b1 /\ match rec with
      | None => fuel <= pending (source_log b1 wf) (v_cursor b (cursor_name wf))
      | Some (d', _) => same_setup d d'
      end).
    { match type of H1 with (if ?due then _ else _) _ = _ => destruct due end;
        [|unfold mret, D_ret in H1; injection H1 as <- <-; split; [reflexivity|by repeat split]].
      apply D_bind_inv in H1 as (r1 & b2 & H1 & H2). destruct (reconcile_safe _ _ _ _ _ _ (batch_pos d) Hwf S H1) as (A & Hf & _).
      apply D_bind_inv in H2 as (now' & b3 & H2 & H3). unfold mret, D_ret in H3. injection H2 as <- <-. injection H3 as <- <-.
      split; [done|]. destruct r1 as [[err|]|]; [by repeat split|by repeat split|by apply Hf]. }
    destruct A as [A Hrec]. destruct rec as [[d' errs]|].
    2:{ injection H as <- <-. by split. }
    assert (S1 : sound wfs b1) by (by apply A). apply D_bind_inv in H as ([n err] & b2 & H2 & H). injection H as <- <-. cbn [fst snd].
    change (cursor_name wf +++ "#inbox") with (inbox_cursor wf) in H2.
    destruct (drain_safe _ _ _ _ _ _ _ _ _ _ (inbox_lane wf Hwf) (inbox_reads wf (batch_of d) (batch_pos d)) S1 H2) as (A2 & Hn & Ha).
    split; [by etrans|]. split; [done|]. split; [done|]. intros He. apply app_nil in He as [_ He].
    destruct err as [e|]; [done|]. unfold lane_cursor, lane_log. rewrite Hb.
    eapply (advances_within _ _ _ b1 b2); [intros x y Hxy; apply (bh_inbox _ _ _ Hxy)|done|done|by apply Ha].
Qed.

Lemma poll_loop_safe fuel d k errs l b r b' :
  (forall wf, wf ∈ l -> wf ∈ wfs) -> sound wfs b -> poll_loop fuel d k errs l b = (r, b') ->
  behaves wfs b b' /\
  match r with
  | None => exists wf, wf ∈ wfs /\ fuel <= pending (source_log b' wf) (v_cursor b (cursor_name wf))
  | Some (d', n, errs') => (k <= n)%Z /\
      (errs' = [] -> errs = [] /\ forall wf, wf ∈ l -> advances (lane_cursor d wf) (lane_log d wf) b b')
  end.
Proof using L N.
  revert d k errs b. induction l as [|wf l IH]; intros d k errs b Hl S H; cbn [poll_loop] in H.
  { injection H as <- <-. split; [done|]. split; [lia|]. intros He. split; [done|]. intros wf Hwf. by apply elem_of_nil in Hwf. }
  apply D_bind_inv in H as (r1 & b1 & H1 & H).
  destruct (poll_workflow_safe _ _ _ _ _ _ (Hl wf ltac:(left)) S H1) as [A Hr].
  destruct r1 as [[[d1 n1] errs1]|].
  2:{ injection H as <- <-. split; [done|]. exists wf. split; [apply Hl; left|done]. }
  destruct Hr as (Hd & Hn & Ha). assert (S1 : sound wfs b1) by (by apply A).
  destruct (IH d1 (k + n1)%Z (errs ++ errs1) b1 (fun wf Hwf => Hl wf ltac:(by right)) S1 H) as [A2 Hr2].
  split; [by etrans|]. destruct r as [[[d' n] errs']|].
  - destruct Hr2 as [Hk He]. split; [lia|]. intros E. destruct (He E) as [He' Hadv]. apply app_nil in He' as [-> ->].
    split; [done|]. intros x Hx. apply elem_of_cons in Hx as [->|Hx].
    + eapply (advances_within _ _ _ b b1); [intros; by apply lane_log_grows|done|done|by apply Ha].
    + destruct (same_setup_lane d d1 x Hd) as [<- <-].
      eapply (advances_within _ _ _ b1 b'); [intros; by apply lane_log_grows|done|done|by apply Hadv].
  - destruct Hr2 as (x & Hx & Hf). exists x. split; [done|]. etrans; [exact Hf|].
    apply pending_below. apply (bh_cursor _ _ _ A).
Qed.
End passes.

(** * Properties *)

