(* ===== verification/Identity.v ===== *)
(** Matching a source record with master records: [src/pkg/identity/identity.go].

    Scores are float64; like the governor they are written against [FloatOps], with
    logarithm, exponential and rounding as further operations ([FloatMath]). Characters
    are code points; the case and classes of characters are the Unicode tables of the
    standard library ([Unicode]). *)

From S2P Require Import Turgon Prelude GoStr GoErr Governor ApiKinds Policy GuardData Idempotency Guard Template.
From Stdlib Require Import Ascii String.

(** [Attributes]. *)
Definition Attributes : Type := gmap string string.

Definition attr (a : Attributes) (k : string) : string := default "" (a !! k).

(** ** Characters *)

(** [utf8.RuneError]. *)
Definition RuneError : N := 65533.

Definition within (lo hi c : N) : bool := (lo <=? c)%N && (c <=? hi)%N.
Definition cont (c : N) : bool := within 128 191 c.

(** The second byte a character may have after its first, and its length. *)
Definition second_ok (a b : N) : bool :=
  if (a =? 224)%N then within 160 191 b
  else if (a =? 237)%N then within 128 159 b
  else if (a =? 240)%N then within 144 191 b
  else if (a =? 244)%N then within 128 143 b
  else cont b.

(** [[]rune(s)]: a byte that starts no character is one [RuneError]. *)
Fixpoint runes_of (s : string) : list N :=
  match s with
  | "" => []
  | String a s1 =>
      let a := N_of_ascii a in
      if (a <? 128)%N then a :: runes_of s1
      else match s1 with
        | "" => [RuneError]
        | String b s2 =>
            let b := N_of_ascii b in
            if within 194 223 a && cont b then ((a - 192) * 64 + (b - 128))%N :: runes_of s2
            else match s2 with
              | "" => RuneError :: runes_of s1
              | String c s3 =>
                  let c := N_of_ascii c in
                  if within 224 239 a && second_ok a b && cont c
                  then ((a - 224) * 4096 + (b - 128) * 64 + (c - 128))%N :: runes_of s3
                  else match s3 with
                    | "" => RuneError :: runes_of s1
                    | String d s4 =>
                        let d := N_of_ascii d in
                        if within 240 244 a && second_ok a b && cont c && cont d
                        then ((a - 240) * 262144 + (b - 128) * 4096 + (c - 128) * 64 + (d - 128))%N :: runes_of s4
                        else RuneError :: runes_of s1
                    end
              end
        end
  end.

(** [utf8.AppendRune]. *)
Definition encode_rune (r : N) : string :=
  let r := if within 55296 57343 r || (1114111 <? r)%N then RuneError else r in
  if (r <? 128)%N then bytes [r]
  else if (r <? 2048)%N then bytes [192 + r / 64; 128 + r mod 64]%N
  else if (r <? 65536)%N then bytes [224 + r / 4096; 128 + r / 64 mod 64; 128 + r mod 64]%N
  else bytes [240 + r / 262144; 128 + r / 4096 mod 64; 128 + r / 64 mod 64; 128 + r mod 64]%N.

Definition string_of_runes (l : list N) : string := String.concat "" (map encode_rune l).

(** [unicode.IsSpace]. *)
Definition space_rune (r : N) : bool :=
  within 9 13 r || existsb (N.eqb r) [32; 133; 160; 5760; 8232; 8233; 8239; 8287; 12288]%N || within 8192 8202 r.

Class Unicode := {
  rune_lower : N -> N;
  rune_upper : N -> N;
  rune_letter : N -> bool;
  rune_digit : N -> bool
}.

(** ** Attributes *)

(** [freeMail]. *)
Definition freeMail : list string := [
  "gmail.com"; "googlemail.com"; "outlook.com"; "hotmail.com"; "live.com"; "msn.com"; "yahoo.com"; "yahoo.de"; "yahoo.co.uk";
  "icloud.com"; "me.com"; "mac.com"; "aol.com"; "gmx.de"; "gmx.net"; "gmx.at"; "web.de"; "t-online.de"; "proton.me";
  "protonmail.com"; "mail.com"; "yandex.com"; "zoho.com"; "libero.it"; "virgilio.it"; "orange.fr"; "free.fr"; "laposte.net";
  "wanadoo.fr"; "hey.com"; "fastmail.com"].

Section extract.
(** [fmt.Sprint] of a float64. *)
Context `{U : Unicode} (sprint_float : float64 -> string).

(** [strings.ToLower] and [strings.ToUpper]. *)
Definition to_lower_u (s : string) : string := string_of_runes (map rune_lower (runes_of s)).
Definition to_upper_u (s : string) : string := string_of_runes (map rune_upper (runes_of s)).

(** The loop of [normalizeName]: [space] is pending, [some] was written. *)
Fixpoint normalize_runes (space some : bool) (l : list N) : list N :=
  match l with
  | [] => []
  | r :: l =>
      if rune_letter r || rune_digit r
      then (if space && some then [32%N; r] else [r]) ++ normalize_runes false true l
      else normalize_runes true some l
  end.

Definition normalizeName (s : string) : string :=
  string_of_runes (normalize_runes false false (map rune_lower (runes_of s))).

(** [strings.ToUpper(strings.Join(strings.Fields(v), ""))]. *)
Definition squeeze (v : string) : string :=
  string_of_runes (map rune_upper (List.filter (fun r => negb (space_rune r)) (runes_of v))).

(** One field of [Extract]. *)
Definition extract_field (doc : document) (a : Attributes) (f : MatchField) : Attributes :=
  let v := match doc !! mf_Field f with
    | Some (JStr s) => s
    | Some (JFloat x) => sprint_float x
    | _ => ""
    end in
  let v := trim_space v in
  if String.eqb v "" then a
  else if String.eqb (mf_Kind f) MatchEmail || String.eqb (mf_Kind f) MatchDomain then
    let email := to_lower_u v in
    match cut_last "@" email with
    | None => a
    | Some (l, d) =>
        if String.eqb l "" || String.eqb d "" then a
        else if String.eqb (mf_Kind f) MatchEmail then <["email" := email]> a
        else if existsb (String.eqb d) freeMail then a
        else <["domain" := d]> a
    end
  else if String.eqb (mf_Kind f) MatchName then
    let n := normalizeName v in
    if String.eqb n "" then a else <["name" := n]> a
  else if String.eqb (mf_Kind f) MatchExact then <["exact:" +++ mf_Field f := squeeze v]> a
  else a.

(** [Extract]. *)
Definition Extract (doc : document) (fields : list MatchField) : Attributes := fold_left (extract_field doc) fields ∅.
End extract.

(** ** Similarity *)

Section similarity.
Context {F : Type} `{O : FloatOps F}.

(** A decimal constant. *)
Definition ratio (n d : Z) : F := f_div (f_of_Z n) (f_of_Z d).

Definition is_true_at (l : list bool) (j : nat) : bool := default false (l !! j).

(** The inner loop: the first free position from [j], at most [n] further, holding [c]. *)
Fixpoint find_free (c : N) (t : list N) (tm : list bool) (j n : nat) : option nat :=
  match n with
  | 0 => None
  | S n =>
      if negb (is_true_at tm j) && bool_decide (t !! j = Some c) then Some j
      else find_free c t tm (S j) n
  end.

(** The matching loop: which positions of [s] and [t] match. *)
Fixpoint match_loop (window i : nat) (s : list N) (t : list N) (tm : list bool) : list bool * list bool :=
  match s with
  | [] => ([], tm)
  | c :: s =>
      let lo := i - window in
      let hi := Nat.min (List.length t) (i + window + 1) in
      match find_free c t tm lo (hi - lo) with
      | Some j => let (sm, tm) := match_loop window (S i) s t (<[j := true]> tm) in (true :: sm, tm)
      | None => let (sm, tm) := match_loop window (S i) s t tm in (false :: sm, tm)
      end
  end.

(** [for !tm[k] { k++ }]: [None] when [k] runs out of range. *)
Fixpoint next_matched (tm : list bool) (fuel k : nat) : option nat :=
  match fuel with
  | 0 => None
  | S fuel =>
      match tm !! k with
      | None => None
      | Some true => Some k
      | Some false => next_matched tm fuel (S k)
      end
  end.

(** The transposition loop; [None] where the code would index out of range. *)
Fixpoint transposition_loop (s : list N) (sm : list bool) (t : list N) (tm : list bool) (k : nat) : option nat :=
  match s, sm with
  | c :: s, true :: sm =>
      match next_matched tm (S (List.length tm)) k with
      | None => None
      | Some k =>
          match transposition_loop s sm t tm (S k) with
          | Some n => Some ((if bool_decide (t !! k = Some c) then 0 else 1) + n)
          | None => None
          end
      end
  | _ :: s, false :: sm => transposition_loop s sm t tm k
  | _, _ => Some 0
  end.

(** How many characters two names start with together, at most [n]. *)
Fixpoint common_prefix (n : nat) (s t : list N) : nat :=
  match n, s, t with
  | S n, c :: s, d :: t => if (c =? d)%N then S (common_prefix n s t) else 0
  | _, _, _ => 0
  end.

Definition count_true (l : list bool) : nat := List.length (List.filter id l).

Definition of_nat (n : nat) : F := f_of_Z (Z.of_nat n).

(** The formula. *)
Definition jaro_winkler (m transpositions ls lt prefix : nat) : F :=
  let fm := of_nat m in
  let jaro := f_div (f_add (f_add (f_div fm (of_nat ls)) (f_div fm (of_nat lt)))
                           (f_div (f_sub fm (f_div (of_nat transpositions) (f_of_Z 2))) fm)) (f_of_Z 3) in
  f_add jaro (f_mul (f_mul (of_nat prefix) (ratio 1 10)) (f_sub (f_of_Z 1) jaro)).

(** [JaroWinkler] of two names' characters; [None] where the code would panic. *)
Definition JaroWinkler_runes (s t : list N) : option F :=
  match s, t with
  | [], [] => Some (f_of_Z 1)
  | [], _ | _, [] => Some (f_of_Z 0)
  | _, _ =>
      let window := Nat.max (List.length s) (List.length t) / 2 - 1 in
      let (sm, tm) := match_loop window 0 s t (replicate (List.length t) false) in
      let m := count_true sm in
      if Nat.eqb m 0 then Some (f_of_Z 0)
      else match transposition_loop s sm t tm 0 with
        | None => None
        | Some n => Some (jaro_winkler m n (List.length s) (List.length t) (common_prefix 4 s t))
        end
  end.

Definition JaroWinkler (a b : string) : option F := JaroWinkler_runes (runes_of a) (runes_of b).
End similarity.

(** ** The model *)

(** [Probabilities] and [Model]. *)
Record Probabilities (F : Type) := mkProbabilities { pb_M : F; pb_U : F }.
Arguments mkProbabilities {F} _ _.
Arguments pb_M {F} _.
Arguments pb_U {F} _.

Record Model (F : Type) := mkModel { mo_Levels : gmap string (Probabilities F); mo_Prior : F }.
Arguments mkModel {F} _ _.
Arguments mo_Levels {F} _.
Arguments mo_Prior {F} _.

(** [Candidate]; [Suggestion] over any kind of score. *)
Record Candidate := mkCandidate { cd_Master : string; cd_Attributes : Attributes }.
Record suggestion (F : Type) := mkSuggested { su_Master : string; su_Score : F; su_Reasons : list string }.
Arguments mkSuggested {F} _ _ _.
Arguments su_Master {F} _.
Arguments su_Score {F} _.
Arguments su_Reasons {F} _.

Record level_outcome := mkLevel { lv_level : string; lv_reason : string }.

(** [math.Log], [math.Exp] and [math.Round]. *)
Class FloatMath (F : Type) := { f_log : F -> F; f_exp : F -> F; f_round : F -> F }.

Section model.
Context {F : Type} `{O : FloatOps F} `{M : FloatMath F}.

(** [Default]. *)
Definition Default : Model F := mkModel (list_to_map [
  ("email.same", mkProbabilities (ratio 95 100) (ratio 1 10000));
  ("email.differs", mkProbabilities (ratio 30 100) (ratio 9999 10000));
  ("domain.same", mkProbabilities (ratio 90 100) (ratio 2 1000));
  ("domain.differs", mkProbabilities (ratio 10 100) (ratio 998 1000));
  ("name.same", mkProbabilities (ratio 85 100) (ratio 2 100));
  ("name.close", mkProbabilities (ratio 10 100) (ratio 5 100));
  ("name.differs", mkProbabilities (ratio 5 100) (ratio 93 100));
  ("exact.same", mkProbabilities (ratio 95 100) (ratio 1 1000));
  ("exact.differs", mkProbabilities (ratio 5 100) (ratio 999 1000))]) (ratio 5 100).

Definition both (a b : Attributes) (k : string) : bool := negb (String.eqb (attr a k) "") && negb (String.eqb (attr b k) "").

Definition email_level (a b : Attributes) : list level_outcome :=
  if both a b "email" then
    if String.eqb (attr a "email") (attr b "email") then [mkLevel "email.same" "same email address"] else [mkLevel "email.differs" ""]
  else [].

(** The domain counts only when the addresses did not match. *)
Definition domain_level (a b : Attributes) : list level_outcome :=
  if both a b "domain" && negb (both a b "email" && String.eqb (attr a "email") (attr b "email")) then
    if String.eqb (attr a "domain") (attr b "domain") then [mkLevel "domain.same" "same company email domain"]
    else [mkLevel "domain.differs" ""]
  else [].

Definition name_level (a b : Attributes) : option (list level_outcome) :=
  if both a b "name" then
    match JaroWinkler (attr a "name") (attr b "name") with
    | None => None
    | Some s =>
        Some [if f_leb (ratio 94 100) s then mkLevel "name.same" "same name"
              else if f_leb (ratio 84 100) s then mkLevel "name.close" "similar name"
              else mkLevel "name.differs" ""]
    end
  else Some [].

Definition exact_level (a b : Attributes) (k : string) : list level_outcome :=
  match strip_prefix "exact:" k with
  | None => []
  | Some field =>
      if String.eqb (attr b k) "" then []
      else if String.eqb (attr a k) (attr b k) then [mkLevel "exact.same" ("same " +++ field)] else [mkLevel "exact.differs" ""]
  end.

(** [compare]; [None] where the code would panic. *)
Definition compare_attributes (a b : Attributes) : option (list level_outcome) :=
  match name_level a b with
  | None => None
  | Some names => Some (email_level a b ++ domain_level a b ++ names ++
      List.concat (map (exact_level a b) (sort_strings (map_to_list a).*1)))
  end.

(** A level's probabilities; a level no model has gives zeros, as a Go map does. *)
Definition probabilities (m : Model F) (level : string) : Probabilities F :=
  match mo_Levels m !! level with
  | Some p => p
  | None => default (mkProbabilities (f_of_Z 0) (f_of_Z 0)) (mo_Levels Default !! level)
  end.

Definition evidence (m : Model F) (l : list level_outcome) : F :=
  fold_left (fun acc o => let p := probabilities m (lv_level o) in f_add acc (f_log (f_div (pb_M p) (pb_U p)))) l (f_of_Z 0).

Definition reasons_of (l : list level_outcome) : list string :=
  List.filter (fun r => negb (String.eqb r "")) (map lv_reason l).

(** [Model.Compare]. *)
Definition Compare_records (m : Model F) (a b : Attributes) : option (F * list string) :=
  match compare_attributes a b with
  | None => None
  | Some l =>
      let prior := if f_leb (mo_Prior m) (f_of_Z 0) || f_leb (f_of_Z 1) (mo_Prior m) then mo_Prior Default else mo_Prior m in
      let odds := f_mul (f_div prior (f_sub (f_of_Z 1) prior)) (f_exp (evidence m l)) in
      Some (f_div odds (f_add (f_of_Z 1) odds), reasons_of l)
  end.
End model.

(** ** Suggestions *)

Section suggest.
Context {F : Type} `{O : FloatOps F} `{M : FloatMath F} (score : Attributes -> Attributes -> option (F * list string)).

(** [math.Round(score*1000) / 1000]. *)
Definition round3 (x : F) : F := f_div (f_round (f_mul x (f_of_Z 1000))) (f_of_Z 1000).

(** One candidate of [Suggest]. *)
Definition suggest_step (a : Attributes) (best : option (gmap string (suggestion F))) (c : Candidate) : option (gmap string (suggestion F)) :=
  match best with
  | None => None
  | Some best =>
      match score a (cd_Attributes c) with
      | None => None
      | Some (_, []) => Some best
      | Some (x, reasons) =>
          let better := match best !! cd_Master c with None => true | Some s => f_ltb (su_Score s) x end in
          Some (if better then <[cd_Master c := mkSuggested (cd_Master c) (round3 x) reasons]> best else best)
      end
  end.

(** The order of [Suggest]: higher scores first, then by master. *)
Definition same_score (x y : F) : bool := f_leb x y && f_leb y x.
Definition ranked (s t : suggestion F) : bool :=
  if same_score (su_Score s) (su_Score t) then str_le (su_Master s) (su_Master t)
  else f_ltb (su_Score t) (su_Score s).

(** [Suggest]; [None] where the code would panic. *)
Definition Suggest (a : Attributes) (candidates : list Candidate) (limit : nat) : option (list (suggestion F)) :=
  match fold_left (suggest_step a) candidates (Some ∅) with
  | None => None
  | Some best => Some (List.firstn limit (isort ranked (map snd (map_to_list best))))
  end.

(** [Decide]. *)
Definition Decide_match (s : list (suggestion F)) (threshold : F) : option string :=
  match s with
  | [] => None
  | best :: rest =>
      if f_ltb (su_Score best) threshold then None
      else match rest with
        | second :: _ => if f_leb (f_div (f_of_Z 1) (f_of_Z 2)) (su_Score second) then None else Some (su_Master best)
        | [] => Some (su_Master best)
        end
  end.
End suggest.
