(* ===== verification/IdentityTheorems.v ===== *)
(** Similarities and matches: bounds, and links only where no other master comes near. *)

From S2P Require Import Turgon Prelude GoStr GoErr Policy Governor GuardData Idempotency Guard ApiKinds Template Identity.
From Stdlib Require Import Ascii String QArith Lqa.
From Stdlib Require Import Ascii String QArith Qround Lqa.

(** The similarity of names never reads out of range and lies between 0 and 1; automatic
    matches are unambiguous. *)

Close Scope Q_scope.

(** ** The matching loop *)

Lemma count_true_cons b l : count_true (b :: l) = (if b then 1 else 0) + count_true l.
Proof. unfold count_true. cbn. by destruct b. Qed.

Lemma count_true_le l : count_true l <= List.length l.
Proof. induction l as [|b l IH]; [done|]. rewrite count_true_cons. cbn. destruct b; lia. Qed.

Lemma count_true_replicate n : count_true (replicate n false) = 0.
Proof. induction n as [|n IH]; [done|]. cbn [replicate]. by rewrite count_true_cons. Qed.

Lemma count_true_insert l j : l !! j = Some false -> count_true (<[j := true]> l) = S (count_true l).
Proof.
  revert j. induction l as [|b l IH]; intros j H; [done|]. destruct j as [|j]; cbn in H.
  - injection H as ->. done.
  - change (<[S j := true]> (b :: l)) with (b :: <[j := true]> l). rewrite !count_true_cons, IH by done. lia.
Qed.

Lemma find_free_spec c t tm j n k :
  find_free c t tm j n = Some k -> j <= k < j + n /\ t !! k = Some c /\ is_true_at tm k = false.
Proof.
  revert j. induction n as [|n IH]; intros j H; [done|]. cbn in H.
  destruct (negb (is_true_at tm j) && bool_decide (t !! j = Some c)) eqn:E.
  - injection H as <-. bools. split; [lia|done].
  - apply IH in H. destruct H as [H1 H2]. split; [lia|done].
Qed.

Lemma match_loop_counts window i s t tm :
  List.length tm = List.length t ->
  let (sm, tm') := match_loop window i s t tm in
  List.length sm = List.length s /\ List.length tm' = List.length t /\ count_true tm' = count_true tm + count_true sm.
Proof.
  revert i tm. induction s as [|c s IH]; intros i tm Hl; cbn [match_loop]; [cbn; rewrite Nat.add_0_r; done|].
  destruct (find_free c t tm _ _) as [j|] eqn:Hf.
  - apply find_free_spec in Hf as (_ & Htj & Hfree).
    assert (Hj : tm !! j = Some false).
    { unfold is_true_at in Hfree. destruct (tm !! j) as [[]|] eqn:E; [done|done|].
      apply lookup_lt_Some in Htj. apply lookup_ge_None in E. lia. }
    specialize (IH (S i) (<[j := true]> tm) ltac:(by rewrite length_insert)).
    destruct (match_loop window (S i) s t (<[j := true]> tm)) as [sm tm']. destruct IH as (H1 & H2 & H3).
    rewrite count_true_insert in H3 by done. rewrite count_true_cons. cbn. split; [lia|]. split; [done|]. lia.
  - specialize (IH (S i) tm Hl). destruct (match_loop window (S i) s t tm) as [sm tm']. destruct IH as (H1 & H2 & H3).
    rewrite count_true_cons. cbn. split; [lia|]. split; [done|]. lia.
Qed.

(** ** The transposition loop *)

Lemma next_matched_found tm fuel k :
  0 < count_true (drop k tm) -> List.length tm < fuel + k ->
  exists k', next_matched tm fuel k = Some k' /\ count_true (drop k tm) = S (count_true (drop (S k') tm)).
Proof.
  revert k. induction fuel as [|fuel IH]; intros k Hc Hf.
  { rewrite drop_ge in Hc by lia. cbn in Hc. lia. }
  cbn [next_matched]. destruct (tm !! k) as [b|] eqn:E.
  - rewrite (drop_S _ _ _ E) in Hc |- *. rewrite count_true_cons in Hc |- *. destruct b.
    + exists k. split; [done|]. cbn. done.
    + destruct (IH (S k)) as (k' & H1 & H2); [done|lia|]. exists k'. split; [done|]. cbn. done.
  - apply lookup_ge_None in E. rewrite drop_ge in Hc by done. cbn in Hc. lia.
Qed.

Lemma transposition_loop_ends s sm t tm k :
  count_true sm <= count_true (drop k tm) -> exists n, transposition_loop s sm t tm k = Some n /\ n <= count_true sm.
Proof.
  revert sm k. induction s as [|c s IH]; intros sm k Hc; [exists 0; split; [by destruct sm|lia]|].
  destruct sm as [|b sm]; [exists 0; by split|]. rewrite count_true_cons in *. destruct b; cbn [transposition_loop].
  - destruct (next_matched_found tm (S (List.length tm)) k) as (k' & -> & Hk); [lia|lia|].
    destruct (IH sm (S k')) as (n & -> & Hn); [lia|]. eexists. split; [done|]. case_bool_decide; lia.
  - destruct (IH sm k) as (n & -> & Hn); [done|]. by exists n.
Qed.

Lemma common_prefix_le n s t : common_prefix n s t <= n.
Proof.
  revert s t. induction n as [|n IH]; intros s t; [done|]. destruct s as [|c s], t as [|d t]; cbn; try lia.
  destruct (c =? d)%N; [|lia]. specialize (IH s t). lia.
Qed.

(** ** A name with itself *)

Lemma find_free_first c t tm j n k :
  (forall i, j <= i < k -> is_true_at tm i = true) -> is_true_at tm k = false -> t !! k = Some c -> j <= k < j + n ->
  find_free c t tm j n = Some k.
Proof.
  revert j. induction n as [|n IH]; intros j Hb Hk Ht Hr; [lia|]. cbn [find_free].
  destruct (decide (j = k)) as [->|N].
  - rewrite Hk, bool_decide_eq_true_2 by done. done.
  - rewrite (Hb j) by lia. cbn. apply IH; [intros i Hi; apply Hb; lia|done|done|lia].
Qed.

(** What is matched after [i] characters: the first [i]. *)
Definition matched_to (i n : nat) : list bool := replicate i true ++ replicate (n - i) false.

Lemma matched_to_at i n j : is_true_at (matched_to i n) j = bool_decide (j < i).
Proof.
  unfold is_true_at, matched_to. destruct (decide (j < i)) as [Hj|Hj].
  - rewrite lookup_app_l by (rewrite length_replicate; lia). rewrite lookup_replicate_2 by lia.
    by rewrite bool_decide_eq_true_2.
  - rewrite lookup_app_r by (rewrite length_replicate; lia). rewrite bool_decide_eq_false_2 by done.
    destruct (replicate (n - i) false !! (j - List.length (replicate i true))) as [b|] eqn:E; [|done].
    by apply lookup_replicate in E as [-> _].
Qed.

Lemma matched_to_next i n : i < n -> <[i := true]> (matched_to i n) = matched_to (S i) n.
Proof.
  intros Hi. unfold matched_to. rewrite insert_app_r_alt by (rewrite length_replicate; lia).
  rewrite length_replicate, Nat.sub_diag. destruct (n - i) as [|k] eqn:Hk; [lia|]. replace (n - S i) with k by lia.
  change (<[0 := true]> (replicate (S k) false)) with (true :: replicate k false).
  by rewrite replicate_S_end, <- app_assoc.
Qed.

Lemma match_loop_self window i s t :
  (forall j c, s !! j = Some c -> t !! (i + j) = Some c) -> i + List.length s = List.length t ->
  match_loop window i s t (matched_to i (List.length t)) = (replicate (List.length s) true, replicate (List.length t) true).
Proof.
  revert i. induction s as [|c s IH]; intros i Hs Hl; cbn [match_loop].
  - cbn in Hl. unfold matched_to. replace (List.length t - i) with 0 by lia. replace i with (List.length t) by lia.
    by rewrite app_nil_r.
  - cbn in Hl. rewrite (find_free_first c t _ _ _ i); [|..].
    + rewrite matched_to_next by lia. rewrite IH; [done| |lia].
      intros j d Hj. replace (S i + j) with (i + S j) by lia. by apply Hs.
    + intros j Hj. rewrite matched_to_at. apply bool_decide_eq_true_2. lia.
    + rewrite matched_to_at. apply bool_decide_eq_false_2. lia.
    + specialize (Hs 0 c eq_refl). by rewrite Nat.add_0_r in Hs.
    + lia.
Qed.

Lemma next_matched_all n k fuel : k < n -> 0 < fuel -> next_matched (replicate n true) fuel k = Some k.
Proof. intros Hk Hf. destruct fuel; [lia|]. cbn. by rewrite lookup_replicate_2. Qed.

Lemma transposition_self s t k :
  (forall j c, s !! j = Some c -> t !! (k + j) = Some c) -> k + List.length s = List.length t ->
  transposition_loop s (replicate (List.length s) true) t (replicate (List.length t) true) k = Some 0.
Proof.
  revert k. induction s as [|c s IH]; intros k Hs Hl; [done|]. cbn [List.length replicate transposition_loop]. cbn in Hl.
  rewrite next_matched_all; [|lia|lia]. rewrite IH; [|intros j d Hj; replace (S k + j) with (k + S j) by lia; by apply Hs|lia].
  specialize (Hs 0 c eq_refl). rewrite Nat.add_0_r in Hs. by rewrite bool_decide_eq_true_2.
Qed.

(** ** The formula, in exact arithmetic *)

Lemma div_unit (x y : Q) : (0 <= x -> x <= y -> 0 < y -> 0 <= x / y /\ x / y <= 1)%Q.
Proof.
  intros H0 H1 H2. split.
  - apply Qle_shift_div_l; [done|]. lra.
  - apply Qle_shift_div_r; [done|]. lra.
Qed.

Lemma of_nat_le (m n : nat) : m <= n -> (of_nat (F := Q) m <= of_nat n)%Q.
Proof. intros H. unfold of_nat. cbn. rewrite <- Zle_Qle. lia. Qed.

Lemma of_nat_pos (m : nat) : 0 < m -> (0 < of_nat (F := Q) m)%Q.
Proof. intros H. unfold of_nat. cbn. change 0%Q with (inject_Z 0). rewrite <- Zlt_Qlt. lia. Qed.

Lemma jaro_winkler_bounds m n ls lt p :
  0 < m -> m <= ls -> m <= lt -> n <= m -> p <= 4 ->
  (0 <= jaro_winkler (F := Q) m n ls lt p)%Q /\ (jaro_winkler (F := Q) m n ls lt p <= 1)%Q.
Proof.
  intros Hm Hls Hlt Hn Hp. unfold jaro_winkler, ratio. cbn [f_div f_add f_sub f_mul f_of_Z exact].
  pose proof (of_nat_pos m Hm) as Pm. pose proof (of_nat_le _ _ Hls). pose proof (of_nat_le _ _ Hlt). pose proof (of_nat_le _ _ Hn).
  pose proof (of_nat_le 0 n ltac:(lia)) as Pn. pose proof (of_nat_le 0 p ltac:(lia)) as Pp. pose proof (of_nat_le p 4 Hp) as Pp4.
  change (of_nat (F := Q) 0) with 0%Q in Pn, Pp. change (of_nat (F := Q) 4) with 4%Q in Pp4.
  change (inject_Z 1) with 1%Q. change (inject_Z 2) with 2%Q. change (inject_Z 3) with 3%Q. change (inject_Z 10) with 10%Q.
  assert (Hn2 : (of_nat (F := Q) n / 2 == of_nat (F := Q) n * (1 # 2))%Q) by (unfold Qdiv; done).
  destruct (div_unit (of_nat m) (of_nat ls)) as [X1 X2]; [lra|done|lra|].
  destruct (div_unit (of_nat m) (of_nat lt)) as [Y1 Y2]; [lra|done|lra|].
  destruct (div_unit (of_nat m - of_nat n / 2) (of_nat m)) as [Z1 Z2]; [rewrite Hn2; lra|rewrite Hn2; lra|lra|].
  remember (of_nat (F := Q) m / of_nat ls)%Q as x. remember (of_nat (F := Q) m / of_nat lt)%Q as y.
  remember ((of_nat (F := Q) m - of_nat n / 2) / of_nat m)%Q as z.
  destruct (div_unit (x + y + z) 3) as [J1 J2]; [lra|lra|lra|].
  remember ((x + y + z) / 3)%Q as j. remember (of_nat (F := Q) p) as q.
  assert (Hq : (q * (1 / 10) == q * (1 # 10))%Q) by reflexivity. rewrite Hq. split; nra.
Qed.

Lemma jaro_winkler_same m p : 0 < m -> (jaro_winkler (F := Q) m 0 m m p == 1)%Q.
Proof.
  intros Hm. pose proof (of_nat_pos m Hm) as Pm. unfold jaro_winkler, ratio. cbn [f_div f_add f_sub f_mul f_of_Z exact].
  change (of_nat (F := Q) 0) with 0%Q. change (inject_Z 1) with 1%Q. change (inject_Z 2) with 2%Q. change (inject_Z 3) with 3%Q.
  assert (Hx : (of_nat (F := Q) m / of_nat m == 1)%Q) by (field; lra).
  assert (Hz : ((of_nat (F := Q) m - 0 / 2) / of_nat m == 1)%Q) by (field; lra).
  assert (Hj : ((of_nat (F := Q) m / of_nat m + of_nat (F := Q) m / of_nat m + (of_nat (F := Q) m - 0 / 2) / of_nat m) / 3 == 1)%Q).
  { rewrite Hx, Hz. reflexivity. }
  rewrite Hj. lra.
Qed.

(** What the matching loop leaves for the formula. *)
Lemma matches_fit {F} `{O : FloatOps F} s t :
  let window := Nat.max (List.length s) (List.length t) / 2 - 1 in
  let (sm, tm) := match_loop window 0 s t (replicate (List.length t) false) in
  count_true sm <= List.length s /\ count_true sm <= List.length t /\
  exists n, transposition_loop s sm t tm 0 = Some n /\ n <= count_true sm.
Proof.
  intros window. pose proof (match_loop_counts window 0 s t (replicate (List.length t) false) (length_replicate _ _)) as H.
  destruct (match_loop window 0 s t _) as [sm tm]. destruct H as (H1 & H2 & H3). rewrite count_true_replicate in H3.
  pose proof (count_true_le sm). pose proof (count_true_le tm). split; [lia|]. split; [lia|].
  apply transposition_loop_ends. rewrite drop_0. lia.
Qed.

Lemma JaroWinkler_self t : exists x, JaroWinkler_runes (F := Q) t t = Some x /\ (x == 1)%Q.
Proof.
  unfold JaroWinkler_runes. destruct t as [|d t]; [by eexists|]. cbv zeta. remember (d :: t) as l eqn:Hl.
  change (replicate (List.length l) false) with (replicate 0 true ++ replicate (List.length l) false).
  replace (replicate 0 true ++ replicate (List.length l) false) with (matched_to 0 (List.length l))
    by (unfold matched_to; by rewrite Nat.sub_0_r).
  rewrite (match_loop_self _ 0 l l) by done. rewrite (transposition_self l l 0) by done.
  assert (Hc : count_true (replicate (List.length l) true) = List.length l).
  { clear. induction (List.length l) as [|k IH]; [done|]. cbn [replicate]. by rewrite count_true_cons, IH. }
  rewrite Hc. destruct (Nat.eqb (List.length l) 0) eqn:E; [by subst l|].
  eexists. split; [done|]. apply jaro_winkler_same. subst l. cbn. lia.
Qed.

(** * Properties *)

(** C38: comparing two names never reads out of range, in whatever arithmetic, and in exact
    arithmetic their similarity lies between 0 and 1 and a name is fully similar to
    itself. *)
Theorem JaroWinkler_bounds :
  (forall F (O : FloatOps F) s t, is_Some (JaroWinkler_runes (F := F) s t)) /\
  forall s t x, JaroWinkler_runes (F := Q) s t = Some x -> (0 <= x)%Q /\ (x <= 1)%Q /\ (s = t -> x == 1)%Q.
Proof.
  split.
  - intros F O s t. unfold JaroWinkler_runes. destruct s as [|c s], t as [|d t]; eauto.
    pose proof (matches_fit (F := F) (c :: s) (d :: t)) as H. cbv zeta in *.
    destruct (match_loop _ 0 (c :: s) _ _) as [sm tm]. destruct H as (_ & _ & n & -> & _). destruct (Nat.eqb _ 0); eauto.
  - intros s t x H. assert (Hb : (0 <= x)%Q /\ (x <= 1)%Q).
    { unfold JaroWinkler_runes in H. destruct s as [|c s], t as [|d t]; try (injection H as <-; by vm_compute).
      pose proof (matches_fit (F := Q) (c :: s) (d :: t)) as Hfit. cbv zeta in *.
      destruct (match_loop _ 0 (c :: s) (d :: t) _) as [sm tm]. destruct Hfit as (H1 & H2 & n & Hn & Hle). rewrite Hn in H.
      destruct (Nat.eqb (count_true sm) 0) eqn:E; [by injection H as <-|]. apply Nat.eqb_neq in E. apply (inj Some) in H as <-.
      apply jaro_winkler_bounds; [lia|done|done|done|apply common_prefix_le]. }
    split; [apply Hb|]. split; [apply Hb|]. intros ->. destruct (JaroWinkler_self t) as (y & Hy & <-). rewrite Hy in H. by injection H as <-.
Qed.

(** Suggestions and automatic links, in exact arithmetic: each master is suggested with
    the best score of its records, and a link is made only when no other master comes
    close. *)

Close Scope Q_scope.

(** ** Rounding *)

(** [math.Round]: halves away from zero. *)
Definition qround (q : Q) : Q :=
  if Qle_bool 0 q then inject_Z (Qfloor (q + (1 # 2))) else inject_Z (Qceiling (q - (1 # 2))).

Section exact_match.
(** Logarithm and exponential, of which nothing is assumed. *)
Context (log exp : Q -> Q).

#[export] Instance exact_math : FloatMath Q := {| f_log := log; f_exp := exp; f_round := qround |}.

Lemma qround_mono x y : (x <= y)%Q -> (qround x <= qround y)%Q.
Proof using.
  intros H. unfold qround. destruct (Qle_bool 0 x) eqn:Ex, (Qle_bool 0 y) eqn:Ey.
  - rewrite <- Zle_Qle. apply Qfloor_resp_le. lra.
  - apply Qle_bool_iff in Ex. apply not_true_iff_false in Ey. rewrite Qle_bool_iff in Ey. lra.
  - apply Qle_bool_iff in Ey. apply not_true_iff_false in Ex. rewrite Qle_bool_iff in Ex.
    apply Qle_trans with (inject_Z 0); rewrite <- Zle_Qle.
    + change 0%Z with (Qceiling 0). apply Qceiling_resp_le. lra.
    + change 0%Z with (Qfloor 0). apply Qfloor_resp_le. lra.
  - rewrite <- Zle_Qle. apply Qceiling_resp_le. lra.
Qed.

Lemma qround_int (x : Q) n : (x == inject_Z n)%Q -> (qround x == inject_Z n)%Q.
Proof using.
  intros Hx. unfold qround. destruct (Qle_bool 0 x).
  - apply Qle_antisym; rewrite <- Zle_Qle.
    + apply Z.lt_succ_r. rewrite Zlt_Qlt. eapply Qle_lt_trans; [apply Qfloor_le|]. unfold Z.succ. rewrite inject_Z_plus, Hx.
      change (inject_Z 1) with 1%Q. lra.
    + rewrite <- (Qfloor_Z n). apply Qfloor_resp_le. rewrite Hx. lra.
  - apply Qle_antisym; rewrite <- Zle_Qle.
    + rewrite <- (Qceiling_Z n). apply Qceiling_resp_le. rewrite Hx. lra.
    + assert (H : (inject_Z n - (1 # 2) <= inject_Z (Qceiling (x - (1 # 2))))%Q) by (rewrite <- Hx; apply Qle_ceiling).
      apply Z.lt_succ_r. rewrite Zlt_Qlt. unfold Z.succ. rewrite inject_Z_plus. change (inject_Z 1) with 1%Q. lra.
Qed.

Lemma round3_form x : exists n, (round3 (F := Q) x == inject_Z n / 1000)%Q.
Proof using.
  unfold round3. cbn. unfold qround. destruct (Qle_bool 0 _); eexists; reflexivity.
Qed.

Lemma round3_mono x y : (x <= y)%Q -> (round3 (F := Q) x <= round3 y)%Q.
Proof using.
  intros H. unfold round3. cbn. apply Qmult_le_compat_r; [|by vm_compute]. apply qround_mono.
  change (inject_Z 1000) with 1000%Q. lra.
Qed.

Lemma round3_idem x : (round3 (F := Q) (round3 x) == round3 x)%Q.
Proof using.
  destruct (round3_form x) as [n Hn]. unfold round3 at 1. cbn [f_div f_mul f_of_Z f_round exact exact_math].
  change (inject_Z 1000) with 1000%Q. rewrite (qround_int _ n); [by rewrite Hn|]. rewrite Hn. field.
Qed.

(** ** What is kept of each master *)

Variable score : Attributes -> Attributes -> option (Q * list string).

(** A candidate gives its master a score, when there is evidence. *)
Definition gives (a : Attributes) (c : Candidate) (m : string) (x : Q) : Prop :=
  cd_Master c = m /\ exists reasons, score a (cd_Attributes c) = Some (x, reasons) /\ reasons <> [].

(** The suggestions kept: one per master with evidence, with its best rounded score. *)
Definition keeps_best (a : Attributes) (l : list Candidate) (best : gmap string (suggestion Q)) : Prop :=
  (forall m s, best !! m = Some s -> su_Master s = m /\
     (exists c x, c ∈ l /\ gives a c m x /\ su_Score s = round3 x) /\
     (exists x, su_Score s = round3 x) /\
     forall c x, c ∈ l -> gives a c m x -> (round3 x <= su_Score s)%Q) /\
  (forall c m x, c ∈ l -> gives a c m x -> is_Some (best !! m)).

Lemma suggest_none a l : fold_left (suggest_step score a) l None = None.
Proof using. induction l; [done|]. cbn. done. Qed.

Lemma gives_unique a c m m' x x' : gives a c m x -> gives a c m' x' -> m = m' /\ x = x'.
Proof using. intros [<- (r & H & _)] [<- (r' & H' & _)]. split; [done|]. rewrite H in H'. by injection H'. Qed.

Lemma suggest_step_best a l c best best' :
  keeps_best a l best -> suggest_step score a (Some best) c = Some best' -> keeps_best a (l ++ [c]) best'.
Proof using.
  intros [Hk He] H. unfold suggest_step in H. destruct (score a (cd_Attributes c)) as [[x reasons]|] eqn:Hs; [|done].
  destruct reasons as [|r0 rs].
  { injection H as <-. assert (Hno : forall m y, ~ gives a c m y).
    { intros m y [_ (r & Hr & Hne)]. rewrite Hs in Hr. by injection Hr as <- <-. }
    split.
    - intros m s Hm. destruct (Hk m s Hm) as (H1 & (d & y & Hd & Hg & He1) & H3 & H4). split; [done|]. split.
      { exists d, y. split; [apply elem_of_app; by left|done]. }
      split; [done|]. intros d' y' Hd' Hg'. apply elem_of_app in Hd' as [Hd'|Hd']; [by eapply H4|].
      apply list_elem_of_singleton in Hd' as ->. by apply Hno in Hg'.
    - intros d m y Hd Hg. apply elem_of_app in Hd as [Hd|Hd]; [by eapply He|].
      apply list_elem_of_singleton in Hd as ->. by apply Hno in Hg. }
  assert (Hg : gives a c (cd_Master c) x) by (split; [done|]; by exists (r0 :: rs)).
  set (kept := mkSuggested (cd_Master c) (round3 x) (r0 :: rs)) in H.
  assert (Hold : forall m s, m <> cd_Master c -> best !! m = Some s -> su_Master s = m /\
     (exists d y, d ∈ l ++ [c] /\ gives a d m y /\ su_Score s = round3 y) /\ (exists y, su_Score s = round3 y) /\
     forall d y, d ∈ l ++ [c] -> gives a d m y -> (round3 y <= su_Score s)%Q).
  { intros m s N Hm. destruct (Hk m s Hm) as (H1 & (d & y & Hd & Hgd & He1) & H3 & H4). split; [done|]. split.
    { exists d, y. split; [apply elem_of_app; by left|done]. }
    split; [done|]. intros d' y' Hd' Hg'. apply elem_of_app in Hd' as [Hd'|Hd']; [by eapply H4|].
    apply list_elem_of_singleton in Hd' as ->. destruct Hg' as [Hm' _]. by rewrite Hm' in N. }
  assert (Hin : forall (b : gmap string (suggestion Q)), (forall m, is_Some (best !! m) -> is_Some (b !! m)) -> is_Some (b !! cd_Master c) ->
     forall d m y, d ∈ l ++ [c] -> gives a d m y -> is_Some (b !! m)).
  { intros b Hb Hc d m y Hd Hgd. apply elem_of_app in Hd as [Hd|Hd]; [by eapply Hb, He|].
    apply list_elem_of_singleton in Hd as ->. destruct Hgd as [<- _]. done. }
  destruct (best !! cd_Master c) as [s0|] eqn:Hb; [destruct (f_ltb (su_Score s0) x) eqn:Hlt|]; injection H as <-.
  - (* better than what was kept *)
    destruct (Hk _ _ Hb) as (_ & _ & (y0 & Hy0) & Hbest). cbn in Hlt. apply Qltb_lt in Hlt.
    split.
    + intros m s Hm. destruct (decide (m = cd_Master c)) as [->|N]; [|rewrite lookup_insert_ne in Hm by done; by apply Hold].
      rewrite lookup_insert_eq in Hm. injection Hm as <-. cbn. split; [done|]. split.
      { exists c, x. split; [apply elem_of_app; right; left|done]. }
      split; [by exists x|]. intros d y Hd Hgd. apply elem_of_app in Hd as [Hd|Hd].
      * eapply Qle_trans; [by eapply Hbest|]. rewrite Hy0, <- round3_idem, <- Hy0. apply round3_mono. lra.
      * apply list_elem_of_singleton in Hd as ->. destruct (gives_unique _ _ _ _ _ _ Hg Hgd) as [_ <-]. lra.
    + apply Hin; [|by rewrite lookup_insert_eq]. intros m [s Hm].
      destruct (decide (m = cd_Master c)) as [->|N]; [by rewrite lookup_insert_eq|rewrite lookup_insert_ne by done; by exists s].
  - (* not better *)
    destruct (Hk _ _ Hb) as (H1 & (d0 & x0 & Hd0 & Hg0 & Hx0) & (y0 & Hy0) & Hbest). cbn in Hlt. apply Qltb_ge in Hlt. split.
    + intros m s Hm. destruct (decide (m = cd_Master c)) as [->|N]; [|by apply Hold]. rewrite Hb in Hm. injection Hm as <-.
      split; [done|]. split; [exists d0, x0; split; [apply elem_of_app; by left|done]|]. split; [by exists y0|].
      intros d y Hd Hgd. apply elem_of_app in Hd as [Hd|Hd]; [by eapply Hbest|].
      apply list_elem_of_singleton in Hd as ->. destruct (gives_unique _ _ _ _ _ _ Hg Hgd) as [_ <-].
      rewrite Hy0, <- (round3_idem y0), <- Hy0. by apply round3_mono.
    + apply Hin; [done|by exists s0].
  - (* the first of its master *)
    split.
    + intros m s Hm. destruct (decide (m = cd_Master c)) as [->|N]; [|rewrite lookup_insert_ne in Hm by done; by apply Hold].
      rewrite lookup_insert_eq in Hm. injection Hm as <-. cbn. split; [done|]. split.
      { exists c, x. split; [apply elem_of_app; right; left|done]. }
      split; [by exists x|]. intros d y Hd Hgd. apply elem_of_app in Hd as [Hd|Hd].
      * destruct (He _ _ _ Hd Hgd) as [s Hs']. by rewrite Hb in Hs'.
      * apply list_elem_of_singleton in Hd as ->. destruct (gives_unique _ _ _ _ _ _ Hg Hgd) as [_ <-]. lra.
    + apply Hin; [|by rewrite lookup_insert_eq]. intros m [s Hm].
      destruct (decide (m = cd_Master c)) as [->|N]; [by rewrite lookup_insert_eq|rewrite lookup_insert_ne by done; by exists s].
Qed.

Lemma suggest_loop_best a l l0 best best' :
  keeps_best a l0 best -> fold_left (suggest_step score a) l (Some best) = Some best' -> keeps_best a (l0 ++ l) best'.
Proof using.
  revert l0 best. induction l as [|c l IH]; intros l0 best Hk H; [injection H as <-; by rewrite app_nil_r|].
  cbn [fold_left] in H. destruct (suggest_step score a (Some best) c) as [b1|] eqn:Hs; [|by rewrite suggest_none in H].
  rewrite cons_middle, app_assoc. eapply IH; [by eapply suggest_step_best|done].
Qed.

(** ** The ranking *)

Lemma ranked_spec (s t : suggestion Q) :
  ranked s t = true <-> (su_Score t < su_Score s)%Q \/ (su_Score s == su_Score t)%Q /\ str_le (su_Master s) (su_Master t) = true.
Proof using.
  unfold ranked, same_score. cbn [f_leb f_ltb exact].
  destruct (Qle_bool (su_Score s) (su_Score t)) eqn:E1, (Qle_bool (su_Score t) (su_Score s)) eqn:E2; cbn.
  - apply Qle_bool_iff in E1, E2. split; [intros H; right; split; [by apply Qle_antisym|done]|]. intros [H|[_ H]]; [lra|done].
  - apply Qle_bool_iff in E1. apply not_true_iff_false in E2. rewrite Qle_bool_iff in E2. rewrite Qltb_lt.
    split; [by left|]. intros [H|[H _]]; [done|lra].
  - apply Qle_bool_iff in E2. apply not_true_iff_false in E1. rewrite Qle_bool_iff in E1. rewrite Qltb_lt.
    split; [by left|]. intros [H|[H _]]; [done|lra].
  - apply not_true_iff_false in E1, E2. rewrite Qle_bool_iff in E1, E2. lra.
Qed.

Lemma ranked_total s t : ranked (F := Q) s t = true \/ ranked t s = true.
Proof using.
  rewrite !ranked_spec. destruct (Qlt_le_dec (su_Score s) (su_Score t)) as [H|H]; [right; by left|].
  destruct (Qlt_le_dec (su_Score t) (su_Score s)) as [H'|H']; [left; by left|].
  assert (E : (su_Score s == su_Score t)%Q) by (by apply Qle_antisym).
  destruct (str_le_total (su_Master s) (su_Master t)); [left|right]; right; by split.
Qed.

Lemma ranked_trans s t u : ranked (F := Q) s t = true -> ranked t u = true -> ranked s u = true.
Proof using.
  rewrite !ranked_spec. intros [H|[H Hm]] [H'|[H' Hm']]; [left; lra|left; lra|left; lra|]. right. split; [lra|].
  by apply (str_le_trans _ (su_Master t)).
Qed.

Lemma ranked_score s t : ranked (F := Q) s t = true -> (su_Score t <= su_Score s)%Q.
Proof using. rewrite ranked_spec. intros [H|[H _]]; lra. Qed.

Lemma suggest_spec a l limit sugg :
  Suggest score a l limit = Some sugg -> exists best, keeps_best a l best /\
    sugg = List.firstn limit (isort ranked (map snd (map_to_list best))).
Proof using.
  unfold Suggest. destruct (fold_left (suggest_step score a) l (Some ∅)) as [best|] eqn:H; [|done]. intros [= <-].
  exists best. split; [|done]. apply (suggest_loop_best a l [] ∅); [|done]. split.
  - intros m s Hm. by rewrite lookup_empty in Hm.
  - intros c m x Hc. by apply elem_of_nil in Hc.
Qed.

Lemma in_kept (best : gmap string (suggestion Q)) s : s ∈ isort ranked (map snd (map_to_list best)) <-> exists m, best !! m = Some s.
Proof using.
  rewrite isort_perm. split.
  - intros H. apply list_elem_of_fmap_1 in H as ([m t] & -> & H). exists m. by apply elem_of_map_to_list in H.
  - intros (m & H). apply (list_elem_of_fmap_2 snd _ (m, s)). by apply elem_of_map_to_list.
Qed.

Lemma kept_masters a l best :
  keeps_best a l best -> NoDup (map su_Master (isort ranked (map snd (map_to_list best)))).
Proof using.
  intros [Hk _]. rewrite isort_perm, map_map.
  rewrite (List.map_ext_in (fun x : string * suggestion Q => su_Master (snd x)) fst); [apply NoDup_fst_map_to_list|].
  intros [k s] Hin. apply list_elem_of_In, elem_of_map_to_list in Hin. cbn. by destruct (Hk _ _ Hin) as [-> _].
Qed.

(** What [Decide] asks of the ranking, of which it sees at least two. *)
Lemma Decide_spec all limit threshold m :
  2 <= limit ->
  Decide_match (F := Q) (List.firstn limit all) threshold = Some m <->
  exists s rest, all = s :: rest /\ su_Master s = m /\ (threshold <= su_Score s)%Q /\
    match rest with t :: _ => (su_Score t < 1 # 2)%Q | [] => True end.
Proof using.
  intros Hl. destruct limit as [|[|limit]]; [lia|lia|]. destruct all as [|s rest]; cbn [List.firstn Decide_match].
  { split; [done|]. by intros (? & ? & ? & _). }
  cbn [f_ltb f_leb exact f_div f_of_Z]. destruct (Qltb (su_Score s) threshold) eqn:E.
  { apply Qltb_lt in E. split; [done|]. intros (s' & r' & [= <- <-] & _ & H & _). lra. }
  apply Qltb_ge in E. destruct rest as [|t rest].
  { split; [intros [= <-]; by exists s, []|]. intros (s' & r' & [= <- <-] & <- & _). done. }
  cbn [List.firstn].
  destruct (Qle_bool (inject_Z 1 / inject_Z 2) (su_Score t)) eqn:E2.
  - apply Qle_bool_iff in E2. change (inject_Z 1 / inject_Z 2)%Q with (1 # 2)%Q in E2.
    split; [done|]. intros (s' & r' & [= <- <-] & _ & _ & H). lra.
  - apply not_true_iff_false in E2. rewrite Qle_bool_iff in E2. change (inject_Z 1 / inject_Z 2)%Q with (1 # 2)%Q in E2.
    split; [|by intros (s' & r' & [= <- <-] & <- & _)]. intros [= <-]. exists s, (t :: rest). repeat split; [done|]. lra.
Qed.

(** A link is unambiguous. *)
Lemma decided a l best limit threshold m :
  2 <= limit -> keeps_best a l best ->
  Decide_match (F := Q) (List.firstn limit (isort ranked (map snd (map_to_list best)))) threshold = Some m ->
  (exists c x, c ∈ l /\ gives a c m x /\ (threshold <= round3 x)%Q) /\
  forall c m' x, c ∈ l -> m' <> m -> gives a c m' x -> (round3 x < 1 # 2)%Q.
Proof using.
  intros Hl [Hk He] H. apply Decide_spec in H as (s & rest & Hall & Hm & Hth & Hrest); [|done].
  assert (Hord : ordered ranked (s :: rest)) by (rewrite <- Hall; apply isort_ordered; [apply ranked_total|apply ranked_trans]).
  assert (Hin : forall t, t ∈ s :: rest <-> exists m, best !! m = Some t) by (intros t; rewrite <- Hall; apply in_kept).
  split.
  - destruct (proj1 (Hin s) ltac:(left)) as (k & Hs). destruct (Hk _ _ Hs) as (<- & (c & x & Hc & Hg & Hx) & _).
    exists c, x. split; [done|]. split; [congruence|]. by rewrite <- Hx.
  - intros c m' x Hc Hne Hg. destruct (He c m' x Hc Hg) as [t Ht]. destruct (Hk _ _ Ht) as (Hmt & _ & _ & Hbest).
    specialize (Hbest c x Hc Hg). assert (Htin : t ∈ s :: rest) by (apply Hin; by exists m').
    apply elem_of_cons in Htin as [->|Htin]; [congruence|]. inversion Hord as [|? ? Hord' _]; subst.
    destruct rest as [|u rest]; [by apply elem_of_nil in Htin|]. inversion Hord' as [|? ? _ Hu]; subst. rewrite Forall_forall in Hu.
    apply elem_of_cons in Htin as [->|Htin]; [lra|]. pose proof (ranked_score _ _ (Hu _ Htin)). lra.
Qed.

Lemma decides a l best limit threshold m :
  2 <= limit -> keeps_best a l best -> (1 # 2 <= threshold)%Q ->
  (exists c x, c ∈ l /\ gives a c m x /\ (threshold <= round3 x)%Q) ->
  (forall c m' x, c ∈ l -> m' <> m -> gives a c m' x -> (round3 x < 1 # 2)%Q) ->
  Decide_match (F := Q) (List.firstn limit (isort ranked (map snd (map_to_list best)))) threshold = Some m.
Proof using.
  intros Hl Hkb Hth (c & x & Hc & Hg & Hx) Hother. pose proof Hkb as [Hk He]. apply Decide_spec; [done|].
  destruct (He c m x Hc Hg) as [t Ht]. destruct (Hk _ _ Ht) as (_ & _ & _ & Hbest). specialize (Hbest c x Hc Hg).
  assert (Hlow : forall k s, best !! k = Some s -> k <> m -> (su_Score s < 1 # 2)%Q).
  { intros k s Hs Hne. destruct (Hk _ _ Hs) as (_ & (d & y & Hd & Hgd & ->) & _). by eapply Hother. }
  pose proof (kept_masters a l best Hkb) as Hnd. assert (Hin : t ∈ isort ranked (map snd (map_to_list best))) by (apply in_kept; by exists m).
  pose proof (fun s => proj1 (in_kept best s)) as Hkept.
  assert (Hord : ordered ranked (isort ranked (map snd (map_to_list best)))) by (apply isort_ordered; [apply ranked_total|apply ranked_trans]).
  destruct (isort ranked (map snd (map_to_list best))) as [|s rest]; [by apply elem_of_nil in Hin|].
  assert (Hs : (threshold <= su_Score s)%Q).
  { apply elem_of_cons in Hin as [<-|Hin]; [lra|]. inversion Hord as [|? ? _ Hs]; subst. rewrite Forall_forall in Hs.
    pose proof (ranked_score _ _ (Hs _ Hin)). lra. }
  destruct (Hkept s ltac:(left)) as (k & Hks). assert (k = m) as ->.
  { destruct (decide (k = m)) as [|N]; [done|]. pose proof (Hlow k s Hks N). lra. }
  destruct (Hk _ _ Hks) as (Hsm & _). exists s, rest. split; [done|]. split; [done|]. split; [done|].
  destruct rest as [|u rest]; [done|]. destruct (Hkept u ltac:(right; left)) as (k' & Hku). apply (Hlow k' u Hku). intros ->.
  destruct (Hk _ _ Hku) as (Hum & _). cbn in Hnd. apply NoDup_cons in Hnd as [Hnd _]. apply Hnd. rewrite Hsm, Hum. left.
Qed.
End exact_match.

Lemma ordered_firstn {A} (le : A -> A -> bool) n l : ordered le l -> ordered le (List.firstn n l).
Proof.
  intros H. revert n. induction H as [|x l H IH Hx]; intros n; destruct n; cbn; try constructor; [apply IH|].
  rewrite Forall_forall in *. intros y Hy. apply Hx. rewrite <- (List.firstn_skipn n l). apply elem_of_app. by left.
Qed.

(** * Properties *)


(** ** A witness *)

(** A score that trusts the first attribute. *)
Definition by_email (a b : Attributes) : option (Q * list string) :=
  if String.eqb (attr a "email") (attr b "email") then Some ((9496 # 10000)%Q, ["same email address"])
  else if String.eqb (attr a "name") (attr b "name") then Some ((3 # 10)%Q, ["same name"]) else Some (0%Q, []).

Definition ada : Attributes := list_to_map [("email", "ada@acme.example"); ("name", "ada")].
Definition linked_records : list Candidate := [
  mkCandidate "M2" (list_to_map [("name", "ada")]); mkCandidate "M1" ada; mkCandidate "M3" (list_to_map [("name", "bob")])].


(** The threshold is compared with the rounded score: 0.9496 is linked at 0.95. *)
Lemma rounding_links_below_threshold :
  exists sugg, Suggest (M := exact_math id id) by_email ada linked_records 3 = Some sugg /\
  Decide_match sugg (95 # 100)%Q = Some "M1" /\ by_email ada ada = Some ((9496 # 10000)%Q, ["same email address"]) /\
  ((9496 # 10000) < (95 # 100))%Q.
Proof. eexists. split; [vm_compute; reflexivity|]. split; [vm_compute; reflexivity|]. by vm_compute. Qed.
