(* ===== verification/PgStore.v ===== *)
(** The state database: [src/pkg/store/pgstore]. Tables are finite maps and lists of rows;
    each SQL statement is a function on them, with the meaning PostgreSQL documents:
    [ON CONFLICT] decides on the row there is, [nextval] is never given back, a
    transaction is all or nothing. Times are in any unit; JSON columns hold values of a
    type [J]. *)

From S2P Require Import Turgon Prelude GoStr GoErr GoTime Policy GuardData Idempotency Governor Guard RuntimeSpec Compiler Template AuditLog.
From S2P Require Import ApiKinds Engine Identity.
From Stdlib Require Import Ascii String.

(** What a fault of the connection does: the error it gives, and whether the statement
    took effect before it. *)
Class FaultKind (X : Type) := { fault_error : X -> goerr; took_effect : X -> bool }.
#[export] Instance refused_fault : FaultKind goerr := {| fault_error e := e; took_effect _ := false |}.
#[export] Instance lossy_fault : FaultKind (goerr * bool) := {| fault_error := fst; took_effect := snd |}.

(** [encoding/json] and the [jsonb] type: outcomes and payloads. *)
Class JsonColumns (J : Type) := {
  marshal_outcome : Outcome -> result J;
  unmarshal_outcome : J -> result Outcome;
  (** The text a payload reads back as, if it is JSON. *)
  payload_text : string -> option string
}.

Section store.
Context {J : Type} `{C : JsonColumns J}.

(** ** Tables *)

Inductive write_status := inflight_row | done_row.

(** [turgon_writes]. *)
Record WriteRow := mkWriteRow { wt_status : write_status; wt_outcome : option J; wt_claimed_at : Z; wt_done_at : option Z }.

(** [turgon_inbox]. *)
Record InboxRow := mkInboxRow { ib_seq : Z; ib_source : string; ib_event_id : string; ib_payload : string; ib_received_at : Z }.

(** [turgon_xref], a row of it. *)
Record XrefRow := mkXrefRow { xr_master : string; xr_attributes : Attributes }.

Record Db := mkDb {
  t_writes : gmap string WriteRow;
  t_cursors : gmap string Z;
  t_inbox : list InboxRow;
  inbox_seq : Z;
  t_positions : gmap string string;
  t_xref : gmap (string * string * string) XrefRow
}.

Definition set_writes (w : gmap string WriteRow) (db : Db) : Db :=
  mkDb w (t_cursors db) (t_inbox db) (inbox_seq db) (t_positions db) (t_xref db).
Definition set_cursors (c : gmap string Z) (db : Db) : Db :=
  mkDb (t_writes db) c (t_inbox db) (inbox_seq db) (t_positions db) (t_xref db).
Definition set_inbox (rows : list InboxRow) (seq : Z) (db : Db) : Db :=
  mkDb (t_writes db) (t_cursors db) rows seq (t_positions db) (t_xref db).
Definition set_positions (p : gmap string string) (db : Db) : Db :=
  mkDb (t_writes db) (t_cursors db) (t_inbox db) (inbox_seq db) p (t_xref db).
Definition set_xref (x : gmap (string * string * string) XrefRow) (db : Db) : Db :=
  mkDb (t_writes db) (t_cursors db) (t_inbox db) (inbox_seq db) (t_positions db) x.

Definition empty_db : Db := mkDb ∅ ∅ [] 1 ∅ ∅.

(** ** Statements *)

(** The claim of [Begin]: a new row, or one whose lease has run out; says whether a row
    came back. *)
Definition claim (now lease : Z) (key : string) (db : Db) : bool * Db :=
  match t_writes db !! key with
  | None => (true, set_writes (<[key := mkWriteRow inflight_row None now None]> (t_writes db)) db)
  | Some r =>
      match wt_status r with
      | inflight_row =>
          if (wt_claimed_at r <? now - lease)%Z
          then (true, set_writes (<[key := mkWriteRow inflight_row (wt_outcome r) now (wt_done_at r)]> (t_writes db)) db)
          else (false, db)
      | done_row => (false, db)
      end
  end.

(** The outcome column of a row that is done; the row's absence is [None]. *)
Definition select_outcome (key : string) (db : Db) : option (option J) :=
  match t_writes db !! key with
  | Some r => match wt_status r with done_row => Some (wt_outcome r) | inflight_row => None end
  | None => None
  end.

Definition complete (now : Z) (key : string) (j : J) (db : Db) : Db :=
  let claimed := match t_writes db !! key with Some r => wt_claimed_at r | None => now end in
  set_writes (<[key := mkWriteRow done_row (Some j) claimed (Some now)]> (t_writes db)) db.

Definition release (key : string) (db : Db) : Db :=
  match t_writes db !! key with
  | Some r => match wt_status r with
              | inflight_row => set_writes (delete key (t_writes db)) db
              | done_row => db
              end
  | None => db
  end.

Definition advance_cursor (name : string) (pos : Z) (db : Db) : Db :=
  let new := match t_cursors db !! name with Some old => Z.max old pos | None => pos end in
  set_cursors (<[name := new]> (t_cursors db)) db.

(** The row of an event in an inbox. *)
Definition same_event (source id : string) (r : InboxRow) : bool := String.eqb (ib_source r) source && String.eqb (ib_event_id r) id.

(** The loop of [Deliver]: how many rows were inserted, or an error, with the rows and the
    sequence as they then are. *)
Fixpoint insert_events (now : Z) (source : string) (events : list Event) (n : Z) (rows : list InboxRow) (seq : Z)
    : result Z * list InboxRow * Z :=
  match events with
  | [] => (Ok n, rows, seq)
  | ev :: events =>
      match payload_text (sev_Payload ev) with
      | None => (Err (Errorf (msg0 "invalid input syntax for type json")), rows, seq)
      | Some p =>
          if existsb (same_event source (sev_ID ev)) rows then insert_events now source events n rows (seq + 1)%Z
          else insert_events now source events (n + 1)%Z (rows ++ [mkInboxRow seq source (sev_ID ev) p now]) (seq + 1)%Z
      end
  end.

(** The transaction of [Deliver] and [DeliverStream]. *)
Definition deliver_tx (now : Z) (source : string) (events : list Event) (resume : string) (db : Db) : result Z * Db :=
  match insert_events now source events 0 (t_inbox db) (inbox_seq db) with
  | (Err e, _, seq) => (Err e, set_inbox (t_inbox db) seq db)
  | (Ok n, rows, seq) =>
      let db := set_inbox rows seq db in
      (Ok n, if String.eqb resume "" then db else set_positions (<[source := resume]> (t_positions db)) db)
  end.

(** The rows of a source after a sequence number, in order. *)
Definition inbox_after (source : string) (after : Z) (db : Db) : list InboxRow :=
  isort (fun x y => ib_seq x <=? ib_seq y)%Z
    (List.filter (fun r => String.eqb (ib_source r) source && (after <? ib_seq r)%Z) (t_inbox db)).

Definition event_of (name : string) (r : InboxRow) : Event := mkSourceEvent (ib_event_id r) (ib_seq r) name (ib_payload r).

Definition upsert_xref (entity system source master : string) (attrs : Attributes) (db : Db) : Db :=
  let kept := match t_xref db !! (entity, system, source) with
    | Some old => if decide (attrs = ∅) then xr_attributes old else attrs
    | None => attrs
    end in
  set_xref (<[(entity, system, source) := mkXrefRow master kept]> (t_xref db)) db.

(** ** The store *)

(** The database as one worker reaches it: the clock of its statements, the lease and the
    faults of the next calls. *)
Record Pg (X : Type) := mkPg { pg_db : Db; pg_now : Z; pg_lease : N; pg_faults : list (option X) }.

Context {X : Type} `{K : FaultKind X}.

(** One statement or transaction. *)
Definition exec {A} (f : Z -> Db -> result A * Db) (s : Pg X) : result A * Pg X :=
  let (r, db) := f (pg_now _ s) (pg_db _ s) in
  match pg_faults _ s with
  | Some x :: faults => (Err (fault_error x), mkPg _ (if took_effect x then db else pg_db _ s) (pg_now _ s) (pg_lease _ s) faults)
  | None :: faults => (r, mkPg _ db (pg_now _ s) (pg_lease _ s) faults)
  | [] => (r, mkPg _ db (pg_now _ s) (pg_lease _ s) [])
  end.

Definition exec_query {A} (f : Db -> A) : Pg X -> result A * Pg X := exec (fun _ db => (Ok (f db), db)).
Definition exec_update (f : Z -> Db -> Db) (s : Pg X) : option goerr * Pg X :=
  let (r, s) := exec (fun now db => (Ok tt, f now db)) s in
  (match r with Ok _ => None | Err e => Some e end, s).

(** [Lookup]. *)
Definition pg_Lookup (key : string) (s : Pg X) : result (option Outcome) * Pg X :=
  let (r, s) := exec_query (select_outcome key) s in
  (match r with
   | Err e => Err (Wrapf (Msg "pgstore: lookup %s: %w" [FStr key]) [e])
   | Ok None => Ok None
   | Ok (Some None) => Err (Wrapf (Msg "pgstore: decode %s: %w" [FStr key]) [Errorf (msg0 "unexpected end of JSON input")])
   | Ok (Some (Some j)) =>
       match unmarshal_outcome j with
       | Err e => Err (Wrapf (Msg "pgstore: decode %s: %w" [FStr key]) [e])
       | Ok out => Ok (Some out)
       end
   end, s).

(** [Begin]. *)
Definition pg_Begin (key : string) (s : Pg X) : result (option Outcome) * Pg X :=
  let (r, s) := exec (fun now db => let (b, db) := claim now (Z.of_N (pg_lease _ s)) key db in (Ok b, db)) s in
  match r with
  | Err e => (Err (Wrapf (Msg "pgstore: claim %s: %w" [FStr key]) [e]), s)
  | Ok true => (Ok None, s)
  | Ok false =>
      let (r, s) := pg_Lookup key s in
      (match r with
       | Ok None => Err (Sentinel ErrInFlight)
       | r => r
       end, s)
  end.

(** [Complete]. *)
Definition pg_Complete (key : string) (out : Outcome) (s : Pg X) : option goerr * Pg X :=
  match marshal_outcome out with
  | Err e => (Some e, s)
  | Ok j => exec_update (fun now => complete now key j) s
  end.

(** [Abort]. *)
Definition pg_Abort (key : string) (s : Pg X) : option goerr * Pg X := exec_update (fun _ => release key) s.

#[export] Instance pg_store : Store (Pg X) := {
  Begin := pg_Begin;
  Lookup := pg_Lookup;
  Complete := pg_Complete;
  AbortClaim := pg_Abort
}.

(** [Cursor] and [SetCursor]. *)
Definition pg_Cursor (name : string) : Pg X -> result Z * Pg X := exec_query (fun db => default 0%Z (t_cursors db !! name)).
Definition pg_SetCursor (name : string) (pos : Z) : Pg X -> option goerr * Pg X := exec_update (fun _ => advance_cursor name pos).

(** [Deliver], [DeliverStream] and [StreamResume]. *)
Definition pg_DeliverStream (source : string) (events : list Event) (resume : string) : Pg X -> result Z * Pg X :=
  exec (fun now => deliver_tx now source events resume).
Definition pg_Deliver (source : string) (events : list Event) : Pg X -> result Z * Pg X := pg_DeliverStream source events "".
Definition pg_StreamResume (source : string) : Pg X -> result (option string) * Pg X :=
  exec_query (fun db => t_positions db !! source).

(** [Inbox]. *)
Definition pg_Inbox (source name : string) (after limit : Z) : Pg X -> result (list Event) * Pg X :=
  exec_query (fun db => map (event_of name) (List.firstn (Z.to_nat limit) (inbox_after source after db))).

(** [PruneInbox]. *)
Definition pg_PruneInbox (before : Z) : Pg X -> result Z * Pg X :=
  exec (fun _ db =>
    let kept := List.filter (fun r => negb (ib_received_at r <? before)%Z) (t_inbox db) in
    (Ok (Z.of_nat (List.length (t_inbox db)) - Z.of_nat (List.length kept))%Z, set_inbox kept (inbox_seq db) db)).

(** [Xref], [Link] and [PutXref]. *)
Definition pg_Xref (entity system source : string) : Pg X -> result (option string) * Pg X :=
  exec_query (fun db => xr_master <$> t_xref db !! (entity, system, source)).
Definition pg_Link (entity system source master : string) (attrs : Attributes) : Pg X -> option goerr * Pg X :=
  exec_update (fun _ => upsert_xref entity system source master attrs).
Definition pg_PutXref (entity system source master : string) : Pg X -> option goerr * Pg X := pg_Link entity system source master ∅.

(** ** Matching *)

(** [attributes->>'name'] and the like. *)
Definition column (r : XrefRow) (k : string) : option string := xr_attributes r !! k.

Definition equals_column (x : string) (c : option string) : bool :=
  negb (String.eqb x "") && match c with Some y => String.eqb y x | None => false end.

(** The condition of [Candidates]: a shared email, domain, name prefix or exact
    identifier. *)
Definition shares_block (attrs : Attributes) (r : XrefRow) : bool :=
  let exact := omap (fun '(k, v) => if is_some (strip_prefix "exact:" k) then Some (k +++ "=" +++ v) else None) (map_to_list attrs) in
  equals_column (attr attrs "email") (column r "email") ||
  equals_column (attr attrs "domain") (column r "domain") ||
  equals_column (first_runes 3 (attr attrs "name")) (first_runes 3 <$> column r "name") ||
  existsb (fun '(k, v) => existsb (String.eqb (k +++ "=" +++ v)) exact) (map_to_list (xr_attributes r)).

(** [Candidates]: at most 500, in the order [scan] of the table's rows, which SQL leaves
    open. *)
Definition pg_Candidates (scan : gmap (string * string * string) XrefRow -> list (string * string * string * XrefRow))
    (entity : string) (attrs : Attributes) : Pg X -> result (list Candidate) * Pg X :=
  exec_query (fun db =>
    map (fun row => mkCandidate (xr_master (snd row)) (xr_attributes (snd row)))
      (List.firstn 500 (List.filter (fun row => String.eqb (fst (fst (fst row))) entity && shares_block attrs (snd row)) (scan (t_xref db))))).

(** ** Loading links *)

(** [XrefLink], [XrefConflict] and [XrefCounts]. *)
Record XrefLink := mkXrefLink { xl_Source : string; xl_Master : string; xl_Attributes : Attributes }.
Record XrefConflict := mkXrefConflict { xc_Source : string; xc_Linked : string; xc_Proposed : string }.
Record XrefCounts := mkXrefCounts { Added : Z; Replaced : Z; Unchanged : Z; Conflicts : list XrefConflict }.

(** Where each source record comes last. *)
Definition last_index (links : list XrefLink) : gmap string Z :=
  fold_left (fun m '(i, l) => <[xl_Source l := i]> m) (indexed links) ∅.

(** One link: the counts, and what is to be written. *)
Definition load_link (linked : string -> option XrefRow) (replace : bool) (l : XrefLink) (acc : XrefCounts * list XrefLink)
    : XrefCounts * list XrefLink :=
  let (c, write) := acc in
  match linked (xl_Source l) with
  | None => (mkXrefCounts (Added c + 1) (Replaced c) (Unchanged c) (Conflicts c), write ++ [l])
  | Some cur =>
      if String.eqb (xr_master cur) (xl_Master l) then
        let c := mkXrefCounts (Added c) (Replaced c) (Unchanged c + 1) (Conflicts c) in
        if decide (xl_Attributes l = ∅) then (c, write)
        else if decide (xr_attributes cur = xl_Attributes l) then (c, write)
        else (c, write ++ [l])
      else if replace then (mkXrefCounts (Added c) (Replaced c + 1) (Unchanged c) (Conflicts c), write ++ [l])
      else (mkXrefCounts (Added c) (Replaced c) (Unchanged c)
              (Conflicts c ++ [mkXrefConflict (xl_Source l) (xr_master cur) (xl_Master l)]), write)
  end.

Definition load_links (linked : string -> option XrefRow) (replace : bool) (links : list XrefLink) : XrefCounts * list XrefLink :=
  let last := last_index links in
  fold_left (fun acc '(i, l) => if bool_decide (last !! xl_Source l = Some i) then load_link linked replace l acc else acc)
    (indexed links) (mkXrefCounts 0 0 0 [], []).

Definition link_many_tx (entity system : string) (links : list XrefLink) (replace dry : bool) (db : Db) : XrefCounts * Db :=
  let (counts, write) := load_links (fun source => t_xref db !! (entity, system, source)) replace links in
  (counts, if dry then db
           else fold_left (fun db l => upsert_xref entity system (xl_Source l) (xl_Master l) (xl_Attributes l) db) write db).

(** [LinkMany]. *)
Definition pg_LinkMany (entity system : string) (links : list XrefLink) (replace dry : bool) : Pg X -> result XrefCounts * Pg X :=
  exec (fun _ db => let (c, db) := link_many_tx entity system links replace dry db in (Ok c, db)).
End store.

Arguments WriteRow J : clear implicits.
Arguments Db J : clear implicits.
Arguments Pg J X : clear implicits.
Arguments empty_db {J}.
Arguments mkPg {J X} _ _ _ _.
Arguments pg_db {J X} _.
Arguments pg_now {J X} _.
Arguments pg_lease {J X} _.
Arguments pg_faults {J X} _.

(** Columns that hold outcomes and payloads as they are. *)
#[export] Instance plain_columns : JsonColumns Outcome := {|
  marshal_outcome := Ok;
  unmarshal_outcome := Ok;
  payload_text := Some
|}.
