(* ===== verification/PgTheorems.v ===== *)
(** The state database as a store for the guard, and its inbox. *)

From S2P Require Import Turgon Prelude GoStr GoErr GoTime AuditLog Policy Governor GuardData Idempotency Guard ApiKinds.
From S2P Require Import RuntimeSpec Compiler Template Engine Dispatcher DispatcherTheorems Identity PgStore.
From Stdlib Require Import Ascii String.

(** The state database keeps what the write guard, the dispatcher and identity matching
    rely on: claims and outcomes, ordered inboxes without repeats, links a load does not
    overwrite. *)

(** Outcomes read back as they were written. *)
Class JsonColumnsLaws (J : Type) `{C : JsonColumns J} : Prop := {
  outcome_roundtrip o j : marshal_outcome o = Ok j -> unmarshal_outcome j = Ok o
}.

Section pg.
Context {J : Type} `{C : JsonColumns J}.

(** ** The claims table as a store *)

#[export] Instance pg_view : StoreView (Pg J goerr) := {
  done_at s k :=
    match select_outcome k (pg_db s) with
    | Some (Some j) => match unmarshal_outcome j with Ok o => Some o | Err _ => None end
    | _ => None
    end;
  held s k :=
    match t_writes (pg_db s) !! k with
    | Some (mkWriteRow inflight_row _ claimed _) => negb (claimed <? pg_now s - Z.of_N (pg_lease s))%Z
    | _ => false
    end
}.

(** A statement of a worker whose faulty calls have no effect. *)
Lemma exec_refused {A} (f : Z -> Db J -> result A * Db J) (s : Pg J goerr) r s' :
  exec f s = (r, s') ->
  pg_now s' = pg_now s /\ pg_lease s' = pg_lease s /\
  ((exists e, r = Err e) /\ pg_db s' = pg_db s \/ f (pg_now s) (pg_db s) = (r, pg_db s')).
Proof using.
  unfold exec. destruct (f (pg_now s) (pg_db s)) as [r0 db]. destruct (pg_faults s) as [|[x|] l]; intros [= <- <-]; cbn;
    (split; [done|]; split; [done|]); eauto.
Qed.

(** The view depends on the claims, the clock and the lease only. *)
Lemma view_of s s' :
  t_writes (pg_db s') = t_writes (pg_db s) -> pg_now s' = pg_now s -> pg_lease s' = pg_lease s -> same_view (S := Pg J goerr) s s'.
Proof using. intros Hw Hn Hl k. cbn. unfold select_outcome. by rewrite Hw, Hn, Hl. Qed.

Lemma exec_query_inv {A} (f : Db J -> A) (s : Pg J goerr) r s' :
  exec_query f s = (r, s') -> same_view s s' /\ pg_db s' = pg_db s /\ forall a, r = Ok a -> a = f (pg_db s).
Proof using.
  unfold exec_query. intros H. apply exec_refused in H as (Hn & Hl & H). destruct H as [[[e ->] Hdb]|H].
  - split; [apply view_of; [by rewrite Hdb|done|done]|]. by split.
  - injection H as <- Hdb. split; [apply view_of; [by rewrite Hdb|done|done]|]. split; [done|]. by intros a [= <-].
Qed.

Lemma lookup_law key (s : Pg J goerr) r s' :
  pg_Lookup key s = (r, s') -> same_view s s' /\ pg_db s' = pg_db s /\ forall o, r = Ok o -> o = done_at s key.
Proof using.
  unfold pg_Lookup. destruct (exec_query (select_outcome key) s) as [r0 s0] eqn:H. apply exec_query_inv in H as (Hv & Hdb & Hr).
  intros [= <- <-]. split; [done|]. split; [done|]. intros o Ho. cbn [done_at pg_view].
  destruct r0 as [[[j|]|]|e]; try done.
  - rewrite <- (Hr _ eq_refl). destruct (unmarshal_outcome j); [by injection Ho as <-|done].
  - rewrite <- (Hr _ eq_refl). by injection Ho as <-.
Qed.

(** A statement that changes the row of one key. *)
Lemma one_key (s s' : Pg J goerr) key (d : option Outcome) (h : bool) :
  pg_now s' = pg_now s -> pg_lease s' = pg_lease s ->
  (forall k, k <> key -> t_writes (pg_db s') !! k = t_writes (pg_db s) !! k) ->
  done_at s' key = d -> held s' key = h ->
  forall k, done_at s' k = (if String.eqb k key then d else done_at s k) /\ held s' k = (if String.eqb k key then h else held s k).
Proof using.
  intros Hn Hl Hw Hd Hh k. destruct (String.eqb_spec k key) as [->|N]; [done|].
  cbn. unfold select_outcome. by rewrite Hn, Hl, !Hw by done.
Qed.

Lemma claim_law (s s0 : Pg J goerr) key b :
  claim (pg_now s) (Z.of_N (pg_lease s)) key (pg_db s) = (b, pg_db s0) -> pg_now s0 = pg_now s -> pg_lease s0 = pg_lease s ->
  if b : bool then done_at s key = None /\ held s key = false /\
    forall k', done_at s0 k' = done_at s k' /\ held s0 k' = String.eqb k' key || held s k'
  else pg_db s0 = pg_db s.
Proof using.
  intros H Hn Hl. unfold claim in H.
  assert (Hnew : forall r, t_writes (pg_db s0) = <[key := r]> (t_writes (pg_db s)) -> wt_status r = inflight_row -> wt_claimed_at r = pg_now s ->
    done_at s key = None -> held s key = false ->
    done_at s key = None /\ held s key = false /\
    forall k', done_at s0 k' = done_at s k' /\ held s0 k' = String.eqb k' key || held s k').
  { intros r Hr Hst Hcl Hd Hh. split; [done|]. split; [done|]. intros k'.
    unshelve epose proof (one_key s s0 key None true Hn Hl _ _ _ k') as [H1 H2].
    - intros k Hk. by rewrite Hr, lookup_insert_ne by done.
    - cbn. unfold select_outcome. rewrite Hr, lookup_insert_eq, Hst. done.
    - cbn. rewrite Hr, lookup_insert_eq. destruct r as [st o cl dn]. cbn in Hst, Hcl. subst. rewrite Hn, Hl.
      apply negb_true_iff, Z.ltb_ge. lia.
    - rewrite H1, H2. destruct (String.eqb_spec k' key) as [E|E]; [rewrite E|]; by rewrite ?Hd, ?Hh. }
  destruct (t_writes (pg_db s) !! key) as [r|] eqn:Hr.
  - destruct r as [[] o cl dn]; cbn in H.
    + destruct (cl <? _)%Z eqn:E; injection H as <- Hdb; [|done].
      apply (Hnew (mkWriteRow inflight_row o (pg_now s) dn)); [by rewrite <- Hdb|done|done|..].
      * cbn. unfold select_outcome. by rewrite Hr.
      * cbn. by rewrite Hr, E.
    + by injection H as <- Hdb.
  - injection H as <- Hdb. apply (Hnew (mkWriteRow inflight_row None (pg_now s) None)); [by rewrite <- Hdb|done|done|..].
    + cbn. unfold select_outcome. by rewrite Hr.
    + cbn. by rewrite Hr.
Qed.

Lemma same_view_comp (s s1 s2 : Pg J goerr) : same_view s s1 -> same_view s1 s2 -> same_view s s2.
Proof using. intros H1 H2 k. destruct (H2 k) as [-> ->], (H1 k) as [-> ->]. done. Qed.

Lemma begin_law key (s : Pg J goerr) r s' :
  pg_Begin key s = (r, s') ->
  match r with
  | Err _ => same_view s s'
  | Ok (Some o) => done_at s key = Some o /\ same_view s s'
  | Ok None => done_at s key = None /\ held s key = false /\
      forall k', done_at s' k' = done_at s k' /\ held s' k' = String.eqb k' key || held s k'
  end.
Proof using.
  unfold pg_Begin. destruct (exec _ s) as [r0 s0] eqn:H. apply exec_refused in H as (Hn & Hl & H).
  destruct (claim (pg_now s) (Z.of_N (pg_lease s)) key (pg_db s)) as [b db] eqn:Hc.
  destruct H as [[[e ->] Hdb]|H]; [intros [= <- <-]; apply view_of; [by rewrite Hdb|done|done]|].
  injection H as <- ->. apply claim_law in Hc; [|done|done]. destruct b; [by intros [= <- <-]|].
  assert (V0 : same_view s s0) by (apply view_of; [by rewrite Hc|done|done]).
  destruct (pg_Lookup key s0) as [r1 s1] eqn:H1. apply lookup_law in H1 as (V1 & _ & Hr). intros [= <- <-].
  pose proof (same_view_comp _ _ _ V0 V1) as V. destruct r1 as [[o|]|e]; [|done|done].
  split; [|done]. rewrite (Hr _ eq_refl). symmetry. apply V0.
Qed.

Lemma update_inv f (s : Pg J goerr) r s' :
  exec_update f s = (r, s') -> pg_now s' = pg_now s /\ pg_lease s' = pg_lease s /\
  (is_Some r /\ pg_db s' = pg_db s \/ r = None /\ pg_db s' = f (pg_now s) (pg_db s)).
Proof using.
  unfold exec_update. destruct (exec _ s) as [r0 s0] eqn:H. apply exec_refused in H as (Hn & Hl & H). intros [= <- <-].
  split; [done|]. split; [done|]. destruct H as [[[e ->] Hdb]|H]; [left; split; [by eexists|done]|right].
  by injection H as <- Hdb.
Qed.

Lemma complete_law `{!JsonColumnsLaws J} key o (s : Pg J goerr) r s' :
  pg_Complete key o s = (r, s') ->
  match r with
  | Some _ => same_view s s'
  | None => forall k', done_at s' k' = (if String.eqb k' key then Some o else done_at s k') /\ held s' k' = negb (String.eqb k' key) && held s k'
  end.
Proof using.
  unfold pg_Complete. destruct (marshal_outcome o) as [j|e] eqn:Hj; [|by intros [= <- <-]].
  intros H. apply update_inv in H as (Hn & Hl & H). destruct H as [[[e ->] Hdb]|[-> Hdb]].
  { apply view_of; [by rewrite Hdb|done|done]. }
  intros k'. unshelve epose proof (one_key s s' key (Some o) false Hn Hl _ _ _ k') as [H1 H2].
  - intros k Hk. rewrite Hdb. unfold complete. cbn. by rewrite lookup_insert_ne by done.
  - cbn. unfold select_outcome. rewrite Hdb. unfold complete. cbn. rewrite lookup_insert_eq. cbn. by rewrite (outcome_roundtrip _ _ Hj).
  - cbn. rewrite Hdb. unfold complete. cbn. by rewrite lookup_insert_eq.
  - rewrite H1, H2. split; [done|]. by destruct (String.eqb k' key).
Qed.

Lemma abort_law key (s : Pg J goerr) r s' :
  pg_Abort key s = (r, s') ->
  match r with
  | Some _ => same_view s s'
  | None => forall k', done_at s' k' = done_at s k' /\ held s' k' = negb (String.eqb k' key) && held s k'
  end.
Proof using.
  intros H. apply update_inv in H as (Hn & Hl & H). destruct H as [[[e ->] Hdb]|[-> Hdb]].
  { apply view_of; [by rewrite Hdb|done|done]. }
  assert (Hother : forall k, k <> key -> t_writes (pg_db s') !! k = t_writes (pg_db s) !! k).
  { intros k Hk. rewrite Hdb. unfold release. destruct (t_writes (pg_db s) !! key) as [[[] ? ? ?]|]; cbn; try done.
    by rewrite lookup_delete_ne by done. }
  intros k'. unshelve epose proof (one_key s s' key (done_at s key) false Hn Hl Hother _ _ k') as [H1 H2].
  - cbn. unfold select_outcome. rewrite Hdb. unfold release.
    destruct (t_writes (pg_db s) !! key) as [[[] ? ? ?]|] eqn:E; cbn; rewrite ?lookup_delete_eq, ?E; done.
  - cbn. rewrite Hdb. unfold release.
    destruct (t_writes (pg_db s) !! key) as [[[] ? ? ?]|] eqn:E; cbn; rewrite ?lookup_delete_eq, ?E; done.
  - rewrite H1, H2. destruct (String.eqb_spec k' key) as [E|E]; [rewrite E|]; by split.
Qed.

#[export] Instance pg_store_laws `{!JsonColumnsLaws J} : StoreLaws (Pg J goerr).
Proof using.
  split.
  - intros k s r s'. apply begin_law.
  - intros k s r s' H. apply lookup_law in H as (H1 & _ & H2). by split.
  - intros k o s r s'. apply complete_law.
  - intros k s r s'. apply abort_law.
Qed.

(** ** The clock *)

Definition tick {X} (d : N) (s : Pg J X) : Pg J X := mkPg (pg_db s) (pg_now s + Z.of_N d) (pg_lease s) (pg_faults s).

Lemma tick_view (d : N) (s : Pg J goerr) k :
  done_at (tick d s) k = done_at s k /\ (held (tick d s) k = true -> held s k = true) /\
  (held s k = true -> held (tick d s) k = false ->
   exists r, t_writes (pg_db s) !! k = Some r /\ wt_status r = inflight_row /\ (wt_claimed_at r + Z.of_N (pg_lease s) < pg_now s + Z.of_N d)%Z).
Proof using.
  cbn. split; [done|]. destruct (t_writes (pg_db s) !! k) as [[[] o cl dn]|]; try done. split.
  - intros H. bools. apply negb_true_iff, Z.ltb_ge. lia.
  - intros H1 H2. bools. eexists. split; [done|]. split; [done|]. cbn. lia.
Qed.
End pg.


#[export] Instance plain_columns_laws : JsonColumnsLaws Outcome.
Proof. split. by intros o j [= <-]. Qed.

(** A store of this kind, and a claim on it. *)
Definition fresh_pg : Pg Outcome goerr := mkPg empty_db 1000 300 [].
Definition claimed_pg : Pg Outcome goerr := snd (pg_Begin "k" fresh_pg).


(** ** Claims that outlive their lease *)

(** What a sequence of store calls answers. *)
Inductive store_call := SBegin (key : string) | SAbort (key : string) | STick (d : N).

Definition store_answer (c : store_call) (s : Pg Outcome goerr) : option (result (option Outcome)) * Pg Outcome goerr :=
  match c with
  | SBegin key => let (r, s) := pg_Begin key s in (Some r, s)
  | SAbort key => let (_, s) := pg_Abort key s in (None, s)
  | STick d => (None, tick d s)
  end.

Fixpoint store_answers (l : list store_call) (s : Pg Outcome goerr) : list (option (result (option Outcome))) :=
  match l with
  | [] => []
  | c :: l => let (r, s) := store_answer c s in r :: store_answers l s
  end.

(** The claim has no owner: a slow caller whose lease ran out and whose claim another took
    over releases, when it fails, the other's claim, and a third caller gets the key while
    the second is still at work. *)
Lemma stale_release_frees_the_new_claim :
  store_answers [SBegin "k"; SBegin "k"; STick 301; SBegin "k"; SAbort "k"; SBegin "k"] fresh_pg =
  [Some (Ok None); Some (Err (Sentinel ErrInFlight)); None; Some (Ok None); None; Some (Ok None)].
Proof. vm_compute. reflexivity. Qed.

(** The inbox: rows of a source have growing sequence numbers and no event twice; batches
    read from it are what the dispatcher relies on. *)

(** ** Batches of an ordered log *)

Definition log_after (lg : list Event) (after : Z) : list Event := List.filter (fun ev => after <? sev_Position ev)%Z lg.

Lemma sorted_filter {A} (R : A -> A -> Prop) p l : StronglySorted R l -> StronglySorted R (List.filter p l).
Proof.
  induction 1 as [|x l H IH Hx]; cbn; [constructor|]. destruct (p x); [|done]. constructor; [done|].
  rewrite Forall_forall in *. intros y Hy. apply Hx. apply list_elem_of_In in Hy. apply List.filter_In in Hy as [Hy _].
  by apply list_elem_of_In.
Qed.

Lemma sorted_prefix {A} (R : A -> A -> Prop) l1 l2 : StronglySorted R (l1 ++ l2) -> StronglySorted R l1.
Proof.
  induction l1 as [|x l1 IH]; intros H; [constructor|]. inversion H as [|? ? H1 H2]; subst. constructor; [by apply IH|].
  rewrite Forall_app in H2. apply H2.
Qed.

Lemma in_log_after lg after ev : ev ∈ log_after lg after <-> ev ∈ lg /\ (after < sev_Position ev)%Z.
Proof. unfold log_after. rewrite !list_elem_of_In, List.filter_In, Z.ltb_lt. done. Qed.

Lemma log_batch lg after k :
  ordered_log lg -> 0 < k -> batch_of_log lg after (List.firstn k (log_after lg after)).
Proof.
  intros [Hs Hp] Hk. assert (HsF : StronglySorted before (log_after lg after)) by (by apply sorted_filter).
  pose proof (List.firstn_skipn k (log_after lg after)) as Hsplit.
  assert (Hin : forall ev, ev ∈ List.firstn k (log_after lg after) -> ev ∈ lg /\ (after < sev_Position ev)%Z).
  { intros ev He. apply in_log_after. rewrite <- Hsplit. apply elem_of_app. by left. }
  split.
  - rewrite <- Hsplit in HsF. by apply sorted_prefix in HsF.
  - done.
  - intros ev He Hr. assert (HF : ev ∈ log_after lg after) by (apply in_log_after; split; [done|lia]).
    rewrite <- Hsplit in HF. apply elem_of_app in HF as [HF|HF]; [done|exfalso].
    destruct (List.firstn k (log_after lg after)) as [|x l] eqn:E.
    + cbn in Hr. rewrite Forall_forall in Hp. specialize (Hp ev He). cbn in Hp. lia.
    + destruct (last_position_in (x :: l) ltac:(done)) as (y & Hy & Hl). rewrite <- Hsplit in HsF.
      pose proof (sorted_app_before _ _ _ _ HsF Hy HF) as Hb. unfold before in Hb. lia.
  - intros He ev Hl. destruct (Z.le_gt_cases (sev_Position ev) after) as [H|H]; [done|exfalso].
    assert (HF : ev ∈ log_after lg after) by (by apply in_log_after).
    destruct (log_after lg after) as [|x l]; [by apply elem_of_nil in HF|]. destruct k; [lia|done].
Qed.

Lemma isort_id {A} (le : A -> A -> bool) l : ordered le l -> isort le l = l.
Proof.
  induction 1 as [|x l H IH Hx]; [done|]. cbn. rewrite IH. destruct l as [|y l]; [done|]. cbn.
  inversion Hx as [|? ? Hy _]; subst. by rewrite Hy.
Qed.

(** ** The invariant of the table *)

Definition row_before (x y : InboxRow) : Prop := (ib_seq x < ib_seq y)%Z.
Definition row_key (r : InboxRow) : string * string := (ib_source r, ib_event_id r).

Record inbox_ok (rows : list InboxRow) (seq : Z) : Prop := mkInboxOk {
  io_sorted : StronglySorted row_before rows;
  io_seqs : Forall (fun r => 0 < ib_seq r < seq)%Z rows;
  io_seq : (0 < seq)%Z;
  io_once : NoDup (map row_key rows)
}.

Lemma inbox_ok_later rows seq seq' : inbox_ok rows seq -> (seq <= seq')%Z -> inbox_ok rows seq'.
Proof.
  intros [Hs Hq Hp Hn] Hle. split; [done| |lia|done]. eapply Forall_impl; [exact Hq|]. intros r [H1 H2]. lia.
Qed.

Lemma sorted_snoc {A} (R : A -> A -> Prop) l x : StronglySorted R l -> Forall (fun y => R y x) l -> StronglySorted R (l ++ [x]).
Proof.
  induction 1 as [|y l H IH Hy]; intros Hx; cbn; [by constructor; [constructor|]|].
  inversion Hx; subst. constructor; [by apply IH|]. apply Forall_app. split; [done|]. by constructor.
Qed.

Lemma same_event_false rows source id : existsb (same_event source id) rows = false -> (source, id) ∉ map row_key rows.
Proof.
  intros H Hin. apply list_elem_of_In, List.in_map_iff in Hin as (r & Hk & Hin).
  assert (Ht : existsb (same_event source id) rows = true).
  { apply List.existsb_exists. exists r. split; [done|]. unfold row_key in Hk. injection Hk as <- <-.
    unfold same_event. by rewrite !String.eqb_refl. }
  congruence.
Qed.

Lemma inbox_ok_insert rows seq source id p now :
  inbox_ok rows seq -> existsb (same_event source id) rows = false ->
  inbox_ok (rows ++ [mkInboxRow seq source id p now]) (seq + 1)%Z.
Proof.
  intros [Hs Hq Hp Hn] Hno. split.
  - apply sorted_snoc; [done|]. eapply Forall_impl; [exact Hq|]. intros r [_ H]. done.
  - apply Forall_app. split; [eapply Forall_impl; [exact Hq|]; intros r [? ?]; lia|]. constructor; [cbn; split; lia|constructor].
  - lia.
  - rewrite map_app. apply NoDup_app. split; [done|]. split; [|apply NoDup_singleton].
    intros k Hk Hin. cbn in Hin. apply list_elem_of_singleton in Hin as ->. by apply same_event_false in Hno.
Qed.

Section inbox.
Context {J : Type} `{C : JsonColumns J}.

(** Inserting events: rows of the source are added behind the others, none twice, and
    every event has a row. *)
Lemma insert_events_spec now source events n rows seq r rows' seq' :
  inbox_ok rows seq -> insert_events now source events n rows seq = (r, rows', seq') ->
  inbox_ok rows' seq' /\ (seq <= seq')%Z /\
  exists new, rows' = rows ++ new /\ Forall (fun x => ib_source x = source) new /\
    forall n', r = Ok n' -> n' = (n + Z.of_nat (List.length new))%Z /\
      forall ev, ev ∈ events -> existsb (same_event source (sev_ID ev)) rows' = true.
Proof using.
  revert n rows seq. induction events as [|ev events IH]; intros n rows seq Hok H; cbn [insert_events] in H.
  { injection H as <- <- <-. split; [done|]. split; [lia|]. exists []. rewrite app_nil_r. split; [done|]. split; [done|].
    intros n' [= <-]. split; [cbn; lia|]. intros ev Hev. by apply elem_of_nil in Hev. }
  destruct (payload_text (sev_Payload ev)) as [p|].
  2:{ injection H as <- <- <-. split; [done|]. split; [lia|]. exists []. rewrite app_nil_r. by split. }
  destruct (existsb (same_event source (sev_ID ev)) rows) eqn:Hdup.
  - destruct (IH _ _ _ (inbox_ok_later _ _ (seq + 1)%Z Hok ltac:(lia)) H) as (H1 & H2 & new & -> & H4 & H5).
    split; [done|]. split; [lia|]. exists new. split; [done|]. split; [done|]. intros n' Hn. destruct (H5 n' Hn) as [-> H6].
    split; [done|]. intros x Hx. apply elem_of_cons in Hx as [->|Hx]; [|by apply H6].
    rewrite List.existsb_app, Hdup. done.
  - destruct (IH _ _ _ (inbox_ok_insert _ _ _ _ p now Hok Hdup) H) as (H1 & H2 & new & -> & H4 & H5).
    split; [done|]. split; [lia|]. exists (mkInboxRow seq source (sev_ID ev) p now :: new). rewrite <- app_assoc. split; [done|].
    split; [by constructor|]. intros n' Hn. destruct (H5 n' Hn) as [-> H6]. split; [cbn [List.length]; lia|].
    intros x Hx. apply elem_of_cons in Hx as [->|Hx]; [|rewrite <- app_assoc in H6; by apply H6].
    rewrite List.existsb_app. apply orb_true_iff. right. cbn [app existsb]. unfold same_event at 1. cbn. by rewrite !String.eqb_refl.
Qed.

(** What an inbox shows: the rows of its source. *)
Definition shown (source name : string) (rows : list InboxRow) : list Event :=
  map (event_of name) (List.filter (fun r => String.eqb (ib_source r) source) rows).

Lemma shown_app source name rows new : shown source name (rows ++ new) = shown source name rows ++ shown source name new.
Proof using. unfold shown. by rewrite List.filter_app, map_app. Qed.

Lemma shown_ordered source name rows seq : inbox_ok rows seq -> ordered_log (shown source name rows).
Proof using.
  intros [Hs Hq _ _]. unfold shown. split.
  - pose proof (sorted_filter _ (fun r => String.eqb (ib_source r) source) _ Hs) as H. clear Hs Hq.
    induction H as [|x l H IH Hx]; [constructor|]. cbn. constructor; [done|]. rewrite Forall_map.
    eapply Forall_impl; [exact Hx|]. done.
  - rewrite Forall_map. rewrite Forall_forall in *. intros r Hr. apply list_elem_of_In, List.filter_In in Hr as [Hr _].
    cbn. destruct (Hq r ltac:(by apply list_elem_of_In)). lia.
Qed.

Lemma shown_other source source' name new :
  Forall (fun x => ib_source x = source) new -> source' <> source -> shown source' name new = [].
Proof using.
  intros H N. unfold shown. induction H as [|x l Hx H IH]; [done|]. cbn. rewrite Hx.
  destruct (String.eqb_spec source source') as [->|]; [done|]. done.
Qed.

Lemma shown_has source name rows id :
  existsb (same_event source id) rows = true -> exists x, x ∈ shown source name rows /\ sev_ID x = id.
Proof using.
  intros H. apply List.existsb_exists in H as (r & Hin & He). unfold same_event in He. bools. subst.
  exists (event_of name r). split; [|done]. unfold shown. apply list_elem_of_fmap. exists r. split; [done|].
  apply list_elem_of_In, List.filter_In. split; [done|]. by rewrite String.eqb_refl.
Qed.

(** Reading the inbox reads a batch of what it shows. *)
Lemma inbox_after_shown source name after (db : Db J) k :
  inbox_ok (t_inbox db) (inbox_seq db) ->
  map (event_of name) (List.firstn k (inbox_after source after db)) = List.firstn k (log_after (shown source name (t_inbox db)) after).
Proof using.
  intros [Hs _ _ _]. unfold inbox_after. rewrite isort_id.
  2:{ pose proof (sorted_filter _ (fun r => String.eqb (ib_source r) source && (after <? ib_seq r)%Z) _ Hs) as H. clear Hs.
      induction H as [|x l H IH Hx]; constructor; [done|]. eapply Forall_impl; [exact Hx|]. intros y Hy. unfold row_before in Hy.
      apply Z.leb_le. lia. }
  rewrite <- List.firstn_map. f_equal. unfold shown, log_after. clear Hs.
  induction (t_inbox db) as [|r rows IH]; [done|]. cbn. destruct (String.eqb (ib_source r) source); cbn; [|done].
  destruct (after <? ib_seq r)%Z; cbn; [by rewrite IH|done].
Qed.

(** The transaction of a delivery. *)
Lemma deliver_tx_spec now source events resume (db : Db J) r db' :
  inbox_ok (t_inbox db) (inbox_seq db) -> deliver_tx now source events resume db = (r, db') ->
  inbox_ok (t_inbox db') (inbox_seq db') /\ t_writes db' = t_writes db /\ t_cursors db' = t_cursors db /\ t_xref db' = t_xref db /\
  exists new, t_inbox db' = t_inbox db ++ new /\ Forall (fun x => ib_source x = source) new /\
    match r with
    | Ok n => n = Z.of_nat (List.length new) /\
        (forall ev, ev ∈ events -> existsb (same_event source (sev_ID ev)) (t_inbox db') = true) /\
        t_positions db' = (if String.eqb resume "" then t_positions db else <[source := resume]> (t_positions db))
    | Err _ => new = [] /\ t_positions db' = t_positions db
    end.
Proof using.
  intros Hok H. unfold deliver_tx in H. destruct (insert_events now source events 0 (t_inbox db) (inbox_seq db)) as [[r0 rows] seq] eqn:Hi.
  destruct (insert_events_spec _ _ _ _ _ _ _ _ _ Hok Hi) as (H1 & H2 & new & H3 & H4 & H5).
  destruct r0 as [n|e]; injection H as <- <-.
  - destruct (H5 n eq_refl) as [Hn Hev]. destruct (String.eqb resume ""); cbn; (split; [done|]; do 3 (split; [done|]));
      (exists new; split; [done|]; split; [done|]; split; [lia|]; split; [done|done]).
  - cbn. split; [by eapply inbox_ok_later|]. do 3 (split; [done|]). exists []. rewrite app_nil_r. by repeat split.
Qed.
End inbox.
