(* ===== verification/Deployment.v ===== *)
(** A deployment: dispatchers over the state database, with sources that emit and webhooks
    that deliver at any moment. It is a backend that keeps the dispatcher's laws. *)

From S2P Require Import Turgon Prelude GoStr GoErr GoTime Policy GuardData Idempotency Governor Guard RuntimeSpec Compiler Template AuditLog.
From S2P Require Import ApiKinds Engine Identity Dispatcher DispatcherTheorems PgStore PgTheorems.
From Stdlib Require Import Ascii String.

(** What happens between two calls of a dispatcher. *)
Inductive arrival :=
| Emits (endpoint event : string) (ev : Event)
| Posts (source : string) (events : list Event).

Section deployment.
Context {J : Type} `{C : JsonColumns J}.

(** The database as this worker reaches it, what each source has emitted, the runs
    Temporal knows, the faults of its and the sources' next calls, and what arrives before
    each call. *)
Record Deployment := mkDeployment {
  dp_pg : Pg J (goerr * bool);
  dp_logs : gmap (string * string) (list Event);
  dp_runs : gmap string nat;
  dp_faults : list (option (goerr * bool));
  dp_env : list (list arrival)
}.

Definition with_pg (d : Deployment) (pg : Pg J (goerr * bool)) : Deployment :=
  mkDeployment pg (dp_logs d) (dp_runs d) (dp_faults d) (dp_env d).
Definition with_db (db : Db J) (pg : Pg J (goerr * bool)) : Pg J (goerr * bool) := mkPg db (pg_now pg) (pg_lease pg) (pg_faults pg).
Definition with_logs (d : Deployment) (logs : gmap (string * string) (list Event)) : Deployment :=
  mkDeployment (dp_pg d) logs (dp_runs d) (dp_faults d) (dp_env d).
Definition with_runs (d : Deployment) (runs : gmap string nat) : Deployment :=
  mkDeployment (dp_pg d) (dp_logs d) runs (dp_faults d) (dp_env d).

Definition log_of (d : Deployment) (ep ev : string) : list Event := default [] (dp_logs d !! (ep, ev)).

(** A source's events have growing positions. *)
Definition follows (lg : list Event) (ev : Event) : bool := forallb (fun x => sev_Position x <? sev_Position ev)%Z lg && (0 <? sev_Position ev)%Z.

Definition arrive (d : Deployment) (a : arrival) : Deployment :=
  match a with
  | Emits ep name ev =>
      if follows (log_of d ep name) ev then with_logs d (<[(ep, name) := log_of d ep name ++ [ev]]> (dp_logs d)) else d
  | Posts source events =>
      let pg := dp_pg d in
      with_pg d (with_db (snd (deliver_tx (pg_now pg) source events "" (pg_db pg))) pg)
  end.

Definition interleave (d : Deployment) : Deployment :=
  match dp_env d with
  | [] => d
  | l :: env => fold_left arrive l (mkDeployment (dp_pg d) (dp_logs d) (dp_runs d) (dp_faults d) env)
  end.

(** A call of Temporal or of a source. *)
Definition next_call (d : Deployment) : option (goerr * bool) * Deployment :=
  match dp_faults d with
  | [] => (None, d)
  | f :: l => (f, mkDeployment (dp_pg d) (dp_logs d) (dp_runs d) l (dp_env d))
  end.

Definition on_pg {A} (f : Pg J (goerr * bool) -> A * Pg J (goerr * bool)) (d : Deployment) : A * Deployment :=
  let d := interleave d in
  let (a, pg) := f (dp_pg d) in (a, with_pg d pg).

(** One run per ID. *)
Definition start_run (id : string) (d : Deployment) : Deployment :=
  with_runs d (<[id := Nat.max 1 (default 0 (dp_runs d !! id))]> (dp_runs d)).

#[export] Instance deployment_backend : Backend Deployment := {
  b_cursor c := on_pg (pg_Cursor c);
  b_set_cursor c z := on_pg (pg_SetCursor c z);
  b_start id i := fun d =>
    let (f, d) := next_call (interleave d) in
    match f with
    | None => (None, start_run id d)
    | Some (e, effect) => (Some e, if effect : bool then start_run id d else d)
    end;
  b_poll ep ev after limit := fun d =>
    let (f, d) := next_call (interleave d) in
    match f with
    | None => (Ok (List.firstn (Z.to_nat limit) (log_after (log_of d ep ev) after)), d)
    | Some (e, _) => (Err e, d)
    end;
  b_deliver source events := fun d =>
    let (r, d) := on_pg (pg_Deliver source events) d in
    (match r with Ok _ => None | Err e => Some e end, d);
  b_inbox source name after limit := on_pg (pg_Inbox source name after limit);
  b_now d := pg_now (dp_pg d)
}.

Definition db_of (d : Deployment) : Db J := pg_db (dp_pg d).

#[export] Instance deployment_view : BackendView Deployment := {
  v_cursor d c := default 0%Z (t_cursors (db_of d) !! c);
  v_runs d id := default 0 (dp_runs d !! id);
  v_log := log_of;
  v_inbox d s n := shown s n (t_inbox (db_of d));
  v_ok d := inbox_ok (t_inbox (db_of d)) (inbox_seq (db_of d)) /\ forall c z, t_cursors (db_of d) !! c = Some z -> (0 <= z)%Z
}.

Section laws.
Context (wfs : list Workflow).

(** ** What happens in between *)

Lemma same_behaves (d d' : Deployment) :
  dp_runs d' = dp_runs d -> dp_logs d' = dp_logs d -> db_of d' = db_of d -> behaves wfs d d'.
Proof using.
  intros Hr Hl Hd. apply (ran_behaves wfs ""). split; cbn; intros; unfold log_of; rewrite ?Hr, ?Hl, ?Hd in *; try done. lia.
Qed.

Lemma log_insert (d : Deployment) ep name lg ep' name' :
  log_of (with_logs d (<[(ep, name) := lg]> (dp_logs d))) ep' name' =
  if decide ((ep', name') = (ep, name)) then lg else log_of d ep' name'.
Proof using.
  unfold log_of. cbn. destruct (decide ((ep', name') = (ep, name))) as [E|E].
  - by rewrite E, lookup_insert_eq.
  - by rewrite lookup_insert_ne by done.
Qed.

Lemma follows_ordered lg ev : ordered_log lg -> follows lg ev = true -> ordered_log (lg ++ [ev]).
Proof using.
  intros [Hs Hp] H. unfold follows in H. bools. rewrite List.forallb_forall in *. split.
  - apply sorted_snoc; [done|]. rewrite Forall_forall. intros x Hx. apply list_elem_of_In in Hx. specialize (H x Hx). bools. done.
  - apply Forall_app. split; [done|]. by constructor; [|constructor].
Qed.

Lemma emits_behaves d ep name ev : behaves wfs d (arrive d (Emits ep name ev)).
Proof using.
  cbn. destruct (follows (log_of d ep name) ev) eqn:Hf; [|done].
  set (d' := with_logs _ _).
  assert (Hl : forall ep' name', v_log d ep' name' `prefix_of` v_log d' ep' name').
  { intros ep' name'. unfold d'. cbn [v_log deployment_view]. rewrite log_insert. destruct (decide _) as [[= -> ->]|]; [by eexists|done]. }
  split; [intros id; change (v_runs d' id) with (v_runs d id); lia|intros c; change (v_cursor d' c) with (v_cursor d c); lia|done|done|].
  intros S. pose proof S as [Hok Hol Hoi _ _]. apply (sound_grows wfs d); try done.
  intros ep' name'. unfold d'. cbn [v_log deployment_view]. rewrite log_insert. destruct (decide _) as [[= -> ->]|]; [|apply Hol].
  apply follows_ordered; [apply Hol|done].
Qed.

(** A delivery's transaction adds events to one inbox. *)
Lemma deliver_one now source events resume d r db' :
  v_ok d -> deliver_tx now source events resume (db_of d) = (r, db') ->
  forall d', dp_runs d' = dp_runs d -> dp_logs d' = dp_logs d -> db_of d' = db' ->
  delivered_one source d d' /\
  (is_ok r = true -> forall ev, ev ∈ events -> forall n, exists x, x ∈ v_inbox d' source n /\ sev_ID x = sev_ID ev).
Proof using.
  intros [Hok Hpos] H d' Hr Hl Hd. destruct (deliver_tx_spec _ _ _ _ _ _ _ Hok H) as (H1 & _ & H2 & _ & new & H3 & H4 & H5).
  split.
  - split; cbn; unfold log_of; intros; rewrite ?Hr, ?Hl, ?Hd, ?H2, ?H3; try done.
    + exists (shown source n new). split; [apply shown_app|]. intros _. rewrite <- H3. by eapply shown_ordered.
    + rewrite shown_app, (shown_other source s' n new) by done. by rewrite app_nil_r.
    + rewrite <- H3. split; [done|]. intros c z. apply Hpos.
  - intros Hn ev Hev n. cbn. rewrite Hd. destruct r as [k|e]; [|done]. destruct H5 as (_ & H5 & _). by apply shown_has, H5.
Qed.

(** Transactions and arrivals only do what anyone may; an ill-formed table is not spoken of. *)
Lemma posts_behaves d source events : sound wfs d -> behaves wfs d (arrive d (Posts source events)).
Proof using.
  intros S. destruct (deliver_tx (pg_now (dp_pg d)) source events "" (pg_db (dp_pg d))) as [r db'] eqn:H.
  destruct (deliver_one _ _ _ _ d r db' (so_ok _ _ S) H (arrive d (Posts source events))) as [Hd _]; [done|done| |].
  - cbn. by rewrite H.
  - by eapply delivered_behaves.
Qed.

Lemma arrive_behaves d a : sound wfs d -> behaves wfs d (arrive d a).
Proof using. intros S. destruct a; [apply emits_behaves|by apply posts_behaves]. Qed.

Lemma interleave_behaves d : sound wfs d -> behaves wfs d (interleave d).
Proof using.
  intros S. unfold interleave. destruct (dp_env d) as [|l env]; [done|].
  set (d0 := mkDeployment _ _ _ _ env). assert (H0 : behaves wfs d d0) by (by apply same_behaves).
  assert (S0 : sound wfs d0) by (by apply H0). clearbody d0. revert d0 H0 S0. induction l as [|a l IH]; intros d0 H0 S0; [done|].
  cbn [fold_left]. pose proof (arrive_behaves d0 a S0) as Ha. apply IH; [by etrans|by apply Ha].
Qed.

(** ** Calls *)

Lemma next_call_same d f d' : next_call d = (f, d') -> dp_runs d' = dp_runs d /\ dp_logs d' = dp_logs d /\ dp_pg d' = dp_pg d.
Proof using. unfold next_call. destruct (dp_faults d); intros [= <- <-]; done. Qed.

(** A statement: its function took effect, or nothing did and the answer is an error. *)
Lemma exec_lossy {A} (f : Z -> Db J -> result A * Db J) (s : Pg J (goerr * bool)) r s' :
  exec f s = (r, s') ->
  (exists r0, f (pg_now s) (pg_db s) = (r0, pg_db s') /\ (r = r0 \/ exists e, r = Err e)) \/
  pg_db s' = pg_db s /\ exists e, r = Err e.
Proof using.
  unfold exec. destruct (f (pg_now s) (pg_db s)) as [r0 db] eqn:Hf. destruct (pg_faults s) as [|[[e []]|] l]; intros [= <- <-]; cbn; eauto.
  - left. exists r0. split; [done|]. right. by eexists.
Qed.

Lemma query_lossy {A} (f : Db J -> A) (s : Pg J (goerr * bool)) r s' :
  exec_query f s = (r, s') -> pg_db s' = pg_db s /\ forall a, r = Ok a -> a = f (pg_db s).
Proof using.
  unfold exec_query. intros H. apply exec_lossy in H as [(r0 & H0 & Hr)|[Hd [e ->]]]; [|by split].
  injection H0 as <- Hd. split; [done|]. intros a ->. destruct Hr as [[= ->]|[e He]]; [done|done].
Qed.

Lemma update_lossy f (s : Pg J (goerr * bool)) e s' :
  exec_update f s = (e, s') -> pg_db s' = f (pg_now s) (pg_db s) \/ pg_db s' = pg_db s /\ is_Some e.
Proof using.
  unfold exec_update. destruct (exec _ s) as [r s0] eqn:H. intros [= <- <-].
  apply exec_lossy in H as [(r0 & H0 & Hr)|[Hd [e ->]]]; [left; by injection H0|right; split; [done|by eexists]].
Qed.

(** Whatever a call does to the database, the rest stays. *)
Lemma on_pg_inv {A} (f : Pg J (goerr * bool) -> A * Pg J (goerr * bool)) d a d' :
  on_pg f d = (a, d') -> exists pg, f (dp_pg (interleave d)) = (a, pg) /\ d' = with_pg (interleave d) pg.
Proof using. unfold on_pg. destruct (f (dp_pg (interleave d))) as [x pg]. intros [= <- <-]. by exists pg. Qed.

Lemma query_behaves {A} (f : Db J -> A) d r d' :
  sound wfs d -> on_pg (exec_query f) d = (r, d') -> exists d1,
  behaves wfs d d1 /\ behaves wfs d1 d' /\ forall a, r = Ok a -> a = f (db_of d1).
Proof using.
  intros S H. apply on_pg_inv in H as (pg & H & ->). apply query_lossy in H as [Hd Ha]. exists (interleave d).
  split; [by apply interleave_behaves|]. split; [by apply same_behaves|done].
Qed.

#[export] Instance deployment_laws : BackendLaws wfs Deployment.
Proof using.
  split.
  - intros c d r d' S H. apply query_behaves in H as (d1 & H1 & H2 & H3); [|done]. exists d1. split; [done|]. split; [done|exact H3].
  - intros c z d e d' Hz S H. apply on_pg_inv in H as (pg & H & ->). apply update_lossy in H.
    pose proof (interleave_behaves d S) as Hi. assert (Si : sound wfs (interleave d)) by (by apply Hi).
    exists (interleave d), (with_pg (interleave d) pg). split; [done|]. split; [|split; [done|]].
    + destruct H as [H|[H _]].
      * split; cbn; unfold db_of; cbn; intros; rewrite ?H; unfold advance_cursor; cbn; try done.
        -- right. rewrite lookup_insert_eq. destruct (t_cursors _ !! c) as [old|] eqn:E; cbn; [done|lia].
        -- by rewrite lookup_insert_ne by done.
        -- destruct H0 as [Hok Hpos]. split; [done|]. intros c' z' Hc. destruct (decide (c' = c)) as [->|N].
           ++ rewrite lookup_insert_eq in Hc. injection Hc as <-. unfold db_of in Hpos. destruct (t_cursors _ !! c) as [old|] eqn:E; lia.
           ++ rewrite lookup_insert_ne in Hc by done. by eapply Hpos.
      * split; cbn; unfold db_of; cbn; intros; rewrite ?H; try done. by left.
    + intros ->. destruct H as [H|[_ [? ?]]]; [|done]. cbn. unfold db_of. cbn. rewrite H. unfold advance_cursor. cbn.
      rewrite lookup_insert_eq. destruct (t_cursors _ !! c); cbn; lia.
  - intros id i d e d' S H. cbn in H. destruct (next_call (interleave d)) as [f d1] eqn:Hn. apply next_call_same in Hn as (Hr & Hl & Hp).
    pose proof (interleave_behaves d S) as Hi.
    assert (H1 : behaves wfs d d1) by (etrans; [exact Hi|]; apply same_behaves; [done|done|unfold db_of; by rewrite Hp]).
    assert (Hstart : ran_one id d1 (start_run id d1)).
    { split; cbn; try done; [rewrite lookup_insert_eq; cbn; lia|]. intros r N. by rewrite lookup_insert_ne by done. }
    assert (Hsame : ran_one id d1 d1) by (split; try done; lia).
    exists d1, d'. split; [done|]. destruct f as [[err eff]|].
    + destruct eff; injection H as <- <-; (split; [done|]); split; done.
    + injection H as <- <-. split; [done|]. split; [done|]. intros _. cbn. rewrite lookup_insert_eq. cbn. lia.
  - intros ep ev after limit d r d' Hlim S H. cbn in H. destruct (next_call (interleave d)) as [f d1] eqn:Hn.
    apply next_call_same in Hn as (Hr & Hl & Hp). pose proof (interleave_behaves d S) as Hi.
    assert (H1 : behaves wfs d d1) by (etrans; [exact Hi|]; apply same_behaves; [done|done|unfold db_of; by rewrite Hp]).
    assert (S1 : sound wfs d1) by (by apply H1). exists d1. split; [done|].
    destruct f as [[err eff]|]; injection H as <- <-; (split; [done|]); [done|]. intros events [= <-].
    apply log_batch; [apply S1|lia].
  - intros s ev after limit d r d' Hlim S H. apply query_behaves in H as (d1 & H1 & H2 & H3); [|done].
    assert (S1 : sound wfs d1) by (by apply H1). exists d1. split; [done|]. split; [done|]. intros events E.
    rewrite (H3 events E), inbox_after_shown by apply S1. apply log_batch; [apply S1|lia].
  - intros s events d e d' S H. cbn in H. destruct (on_pg (pg_Deliver s events) d) as [r d1] eqn:Ho. injection H as <- <-.
    apply on_pg_inv in Ho as (pg & H & ->). pose proof (interleave_behaves d S) as Hi.
    assert (Si : sound wfs (interleave d)) by (by apply Hi).
    exists (interleave d), (with_pg (interleave d) pg). split; [done|]. unfold pg_Deliver, pg_DeliverStream in H. apply exec_lossy in H as [(r0 & H0 & Hr)|[Hd [e ->]]].
    + destruct (deliver_one _ _ _ _ (interleave d) r0 (pg_db pg) (so_ok _ _ Si) H0 (with_pg (interleave d) pg)) as [H1 H2]; [done|done|done|].
      split; [done|]. split; [done|]. intros E. destruct r as [n|e]; [|done]. destruct Hr as [<-|[e He]]; [by apply H2|done].
    + split; [|by split]. split; cbn; unfold db_of; cbn; intros; rewrite ?Hd; try done. exists []. by rewrite app_nil_r.
Qed.
End laws.
End deployment.
Arguments Deployment J : clear implicits.

(** A deployment whose tables are empty. *)
Definition fresh_deployment {J : Type} (logs : gmap (string * string) (list Event)) (faults : list (option (goerr * bool)))
    (pg_faults : list (option (goerr * bool))) (env : list (list arrival)) : Deployment J :=
  mkDeployment (mkPg empty_db 0 300 pg_faults) logs ∅ faults env.

(** It is sound to start from. *)
Lemma fresh_sound {J : Type} `{C : JsonColumns J} wfs logs faults pg_faults env :
  (forall k lg, logs !! k = Some lg -> ordered_log lg) -> sound wfs (fresh_deployment (J := J) logs faults pg_faults env).
Proof.
  intros Hl. assert (Hlog : forall ep ev, ordered_log (log_of (fresh_deployment (J := J) logs faults pg_faults env) ep ev)).
  { intros ep ev. unfold log_of. cbn. destruct (logs !! (ep, ev)) as [lg|] eqn:E; [by eapply Hl|]. cbn. split; constructor. }
  assert (Hp : forall lg ok, ordered_log lg -> passed lg ok 0%Z).
  { intros lg ok [_ Hpos]. split; [by left|]. intros ev Hin Hle. rewrite Forall_forall in Hpos. specialize (Hpos ev Hin). cbn in Hpos. lia. }
  assert (Hin : forall s n, ordered_log (v_inbox (fresh_deployment (J := J) logs faults pg_faults env) s n)).
  { intros s n. cbn. split; constructor. }
  split.
  - split; [|intros c z Hc; cbn in Hc; by rewrite lookup_empty in Hc]. cbn. split; [constructor|constructor|done|constructor].
  - done.
  - done.
  - intros wf _. apply Hp, Hlog.
  - intros wf _. apply Hp, Hin.
Qed.

(** ** A pass *)

Module Shop.
Definition workflow (name ep ev : string) : Workflow := mkWorkflow name (mkWorkflowSource ep "" ev "" "") [] None [].
Definition orders := workflow "orders" "shop" "order.created".
Definition refunds := workflow "refunds" "pay" "refund.created".
Definition spec : RuntimeSpec := mkRuntimeSpec "" "" (mkRuntimeMeta "shop" "" "" "d1" []) (mkRuntimeBody [] [] [refunds; orders] [] [] [] []).
Definition event (id : string) (pos : Z) : Event := mkSourceEvent id pos "" "{}".

(** Refunds arrive by webhook, orders are polled; an order is emitted and a refund posted
    while the pass runs, and Temporal's answer to the first start is lost. *)
Definition dispatcher : Dispatcher :=
  mkDispatcher (mkRuntime spec (fun ep _ => String.eqb ep "pay") (fun _ _ => false)) 0 0 true 0 ∅.
Definition deployment : Deployment Outcome :=
  fresh_deployment (list_to_map [(("shop", "order.created"), [event "o1" 1; event "o2" 2])])
    [None; Some (Errorf (msg0 "lost"), true)] []
    [[Emits "shop" "order.created" (event "o3" 3)]; [Posts "pay/refund.created" [event "r1" 0]]].
End Shop.

