(* ===== verification/PgLinks.v ===== *)
(** Loading links: [LinkMany] of [src/pkg/store/pgstore/xrefload.go] takes the last link
    given for each record, overwrites no link without being told to, and counts every
    record once. *)

From S2P Require Import Turgon Prelude GoStr GoErr GoTime Policy GuardData Idempotency Governor Guard RuntimeSpec Compiler Template AuditLog.
From S2P Require Import ApiKinds Engine Identity PgStore.
From Stdlib Require Import Ascii String.

(** ** The last link of each record *)

(** A list without repeats of a key determines its elements by it. *)
Lemma nodup_by {A B} (f : A -> B) l x y : NoDup (map f l) -> x ∈ l -> y ∈ l -> f x = f y -> x = y.
Proof.
  intros Hn. induction l as [|z l IH]; intros Hx Hy He; [by apply elem_of_nil in Hx|]. cbn in Hn. apply NoDup_cons in Hn as [Hz Hn].
  apply elem_of_cons in Hx as [->|Hx]; apply elem_of_cons in Hy as [->|Hy]; [done|..|by apply IH].
  - exfalso. apply Hz. rewrite He. by apply (list_elem_of_fmap_2 f).
  - exfalso. apply Hz. rewrite <- He. by apply (list_elem_of_fmap_2 f).
Qed.

Lemma indexed_from_app {A} i (l l' : list A) : indexed_from i (l ++ l') = indexed_from i l ++ indexed_from (i + Z.of_nat (List.length l)) l'.
Proof.
  revert i. induction l as [|x l IH]; intros i; cbn [app indexed_from List.length]; [by rewrite Z.add_0_r|].
  rewrite IH. by replace (i + 1 + Z.of_nat (List.length l))%Z with (i + Z.of_nat (S (List.length l)))%Z by lia.
Qed.

Lemma indexed_from_bounds {A} i (l : list A) j x : (j, x) ∈ indexed_from i l -> (i <= j < i + Z.of_nat (List.length l))%Z.
Proof.
  revert i. induction l as [|y l IH]; intros i H; cbn in *; [by apply elem_of_nil in H|].
  apply elem_of_cons in H as [[= -> _]|H]; [lia|]. specialize (IH _ H). lia.
Qed.

Definition put_index (m : gmap string Z) (x : Z * XrefLink) : gmap string Z := let '(i, l) := x in <[xl_Source l := i]> m.

Lemma last_index_fold m links s :
  (fold_left put_index links m) !! s =
  match List.find (fun x => String.eqb (xl_Source (snd x)) s) (List.rev links) with Some (i, _) => Some i | None => m !! s end.
Proof.
  revert m. induction links as [|[i l] links IH]; intros m; cbn [fold_left List.rev List.find]; [done|]. rewrite IH.
  assert (Hf : forall (p : Z * XrefLink -> bool) a b, List.find p (a ++ [b]) = match List.find p a with Some x => Some x | None => if p b then Some b else None end).
  { intros p a b. induction a as [|x a IHa]; cbn; [done|]. by destruct (p x). }
  rewrite Hf. destruct (List.find _ (List.rev links)) as [[j l']|]; [done|]. cbn.
  destruct (String.eqb_spec (xl_Source l) s) as [->|N]; [by rewrite lookup_insert_eq|by rewrite lookup_insert_ne by done].
Qed.

(** The links that count: the last of each record. *)
Definition is_last (links : list XrefLink) (x : Z * XrefLink) : bool := bool_decide (last_index links !! xl_Source (snd x) = Some (fst x)).
Definition final_links (links : list XrefLink) : list XrefLink := map snd (List.filter (is_last links) (indexed links)).

Lemma last_index_split l1 l l2 :
  (forall x, x ∈ l2 -> xl_Source x <> xl_Source l) -> last_index (l1 ++ l :: l2) !! xl_Source l = Some (Z.of_nat (List.length l1)).
Proof.
  intros Hno. unfold last_index, indexed. change (fun m '(i, l) => <[xl_Source l := i]> m) with put_index.
  rewrite last_index_fold, indexed_from_app. cbn [indexed_from]. rewrite List.rev_app_distr. cbn [List.rev].
  set (back := List.rev (indexed_from _ l2)).
  assert (Hnone : List.find (fun x : Z * XrefLink => String.eqb (xl_Source (snd x)) (xl_Source l)) back = None).
  { destruct (List.find _ back) as [[j x]|] eqn:E; [|done]. exfalso.
    apply List.find_some in E as [Hin He]. apply String.eqb_eq in He. unfold back in Hin. apply List.in_rev, list_elem_of_In in Hin.
    apply (Hno x); [|done]. rewrite <- (indexed_from_snd (0 + Z.of_nat (List.length l1) + 1) l2). apply (list_elem_of_fmap_2 snd _ (j, x) Hin). }
  assert (Hf : forall (p : Z * XrefLink -> bool) a b, List.find p (a ++ b) = match List.find p a with Some x => Some x | None => List.find p b end).
  { intros p a b. induction a as [|x a IHa]; cbn; [done|]. by destruct (p x). }
  rewrite !Hf, Hnone. cbn. by rewrite String.eqb_refl.
Qed.

Lemma final_links_in l1 l l2 : (forall x, x ∈ l2 -> xl_Source x <> xl_Source l) -> l ∈ final_links (l1 ++ l :: l2).
Proof.
  intros Hno. unfold final_links. apply (list_elem_of_fmap_2 snd _ (Z.of_nat (List.length l1), l)).
  apply list_elem_of_In, List.filter_In. split.
  - apply list_elem_of_In. unfold indexed. rewrite indexed_from_app. apply elem_of_app. right. cbn [indexed_from]. left.
  - unfold is_last. cbn. apply bool_decide_eq_true_2. by apply last_index_split.
Qed.

Lemma final_links_sources links s : s ∈ map xl_Source (final_links links) -> s ∈ map xl_Source links.
Proof.
  intros H. apply list_elem_of_fmap_1 in H as (l & -> & H). unfold final_links in H. apply list_elem_of_fmap_1 in H as ([i x] & -> & H).
  apply list_elem_of_In, List.filter_In in H as [H _]. apply list_elem_of_In in H. cbn.
  apply (list_elem_of_fmap_2 xl_Source _ x). by eapply elem_of_indexed.
Qed.

Lemma final_links_distinct links : NoDup (map xl_Source (final_links links)).
Proof.
  unfold final_links. rewrite map_map.
  assert (Hi : forall i (l : list XrefLink), NoDup (map (fun x => xl_Source (snd x)) (List.filter (is_last links) (indexed_from i l)))).
  { intros i l. revert i. induction l as [|x l IH]; intros i; cbn [indexed_from List.filter]; [constructor|].
    destruct (is_last links (i, x)) eqn:E; [|by apply IH]. cbn. apply NoDup_cons. split; [|by apply IH].
    intros Hin. apply list_elem_of_In, List.in_map_iff in Hin as ([j y] & Hs & Hin). apply List.filter_In in Hin as [Hin Hl].
    apply list_elem_of_In, indexed_from_bounds in Hin. unfold is_last in *. bools. cbn in *. rewrite Hs, E in Hl. injection Hl as ->. lia. }
  apply Hi.
Qed.

Lemma last_exists links s : s ∈ map xl_Source links -> exists l1 l l2, links = l1 ++ l :: l2 /\ xl_Source l = s /\ forall x, x ∈ l2 -> xl_Source x <> s.
Proof.
  induction links as [|l links IH]; intros H; [by apply elem_of_nil in H|].
  destruct (decide (s ∈ map xl_Source links)) as [Hin|Hno].
  - destruct (IH Hin) as (l1 & x & l2 & -> & Hs & Hx). exists (l :: l1), x, l2. by split.
  - cbn in H. apply elem_of_cons in H as [->|H]; [|done]. exists [], l, links. split; [done|]. split; [done|].
    intros x Hx He. apply Hno. rewrite <- He. by apply (list_elem_of_fmap_2 xl_Source).
Qed.

(** The records of a batch, each once. *)
Lemma final_links_perm links : NoDup (map xl_Source (final_links links)) /\ forall s, s ∈ map xl_Source (final_links links) <-> s ∈ map xl_Source links.
Proof.
  split; [apply final_links_distinct|]. intros s. split; [apply final_links_sources|]. intros H.
  destruct (last_exists links s H) as (l1 & l & l2 & -> & <- & Hno). apply (list_elem_of_fmap_2 xl_Source). by apply final_links_in.
Qed.

(** ** Loading *)

Section load.
Variables (linked : string -> option XrefRow) (replace : bool).

(** What becomes of a record's link. *)
Definition loaded (l : XrefLink) : XrefRow :=
  match linked (xl_Source l) with
  | None => mkXrefRow (xl_Master l) (xl_Attributes l)
  | Some cur =>
      if String.eqb (xr_master cur) (xl_Master l) || replace
      then mkXrefRow (xl_Master l) (if decide (xl_Attributes l = ∅) then xr_attributes cur else xl_Attributes l)
      else cur
  end.

(** What is written: the links whose row changes, and perhaps some that do not. *)
Definition writes (l : XrefLink) : bool :=
  match linked (xl_Source l) with
  | None => true
  | Some cur =>
      if String.eqb (xr_master cur) (xl_Master l)
      then if decide (xl_Attributes l = ∅) then false else if decide (xr_attributes cur = xl_Attributes l) then false else true
      else replace
  end.

Definition total (c : XrefCounts) : Z := (Added c + Replaced c + Unchanged c + Z.of_nat (List.length (Conflicts c)))%Z.

Lemma load_link_step l c w :
  exists c', load_link linked replace l (c, w) = (c', w ++ (if writes l then [l] else [])) /\ total c' = (total c + 1)%Z.
Proof using.
  unfold load_link, writes. destruct (linked (xl_Source l)) as [cur|]; [|eexists; split; [done|]; unfold total; cbn; lia].
  destruct (String.eqb _ _); [|destruct replace].
  - destruct (decide (xl_Attributes l = ∅)); [|destruct (decide _)]; eexists; (split; [by rewrite ?app_nil_r|]); unfold total; cbn; lia.
  - eexists. split; [done|]. unfold total. cbn. lia.
  - eexists. split; [by rewrite app_nil_r|]. unfold total. cbn [Conflicts Added Replaced Unchanged]. rewrite List.length_app. cbn. lia.
Qed.

Lemma load_fold ls c w :
  exists c', fold_left (fun acc l => load_link linked replace l acc) ls (c, w) = (c', w ++ List.filter writes ls) /\
    total c' = (total c + Z.of_nat (List.length ls))%Z.
Proof using.
  revert c w. induction ls as [|l ls IH]; intros c w; cbn [fold_left List.filter List.length].
  { exists c. rewrite app_nil_r. split; [done|]. lia. }
  destruct (load_link_step l c w) as (c1 & -> & H1). destruct (IH c1 (w ++ (if writes l then [l] else []))) as (c2 & -> & H2).
  exists c2. split; [|lia]. f_equal. rewrite <- app_assoc. f_equal. by destruct (writes l).
Qed.

Lemma load_links_spec links :
  exists c, load_links linked replace links = (c, List.filter writes (final_links links)) /\
    total c = Z.of_nat (List.length (final_links links)).
Proof using.
  unfold load_links. change (fun acc '(i, l) => if bool_decide (last_index links !! xl_Source l = Some i) then load_link linked replace l acc else acc)
    with (fun acc '(i, l) => if is_last links (i, l) then load_link linked replace l acc else acc).
  assert (Hf : forall (xs : list (Z * XrefLink)) acc,
    fold_left (fun acc '(i, l) => if is_last links (i, l) then load_link linked replace l acc else acc) xs acc =
    fold_left (fun acc l => load_link linked replace l acc) (map snd (List.filter (is_last links) xs)) acc).
  { induction xs as [|[i l] xs IH]; intros acc; [done|]. cbn [fold_left List.filter]. destruct (is_last links (i, l)); cbn; apply IH. }
  rewrite Hf. fold (final_links links). destruct (load_fold (final_links links) (mkXrefCounts 0 0 0 []) []) as (c & -> & Ht).
  exists c. split; [done|]. by rewrite Ht.
Qed.
End load.

Section tx.
Context {J : Type}.

Lemma upserts_lookup entity system ls (db : Db J) s :
  NoDup (map xl_Source ls) ->
  t_xref (fold_left (fun db l => upsert_xref entity system (xl_Source l) (xl_Master l) (xl_Attributes l) db) ls db) !! (entity, system, s) =
  match List.find (fun l => String.eqb (xl_Source l) s) ls with
  | Some l => Some (mkXrefRow (xl_Master l) (match t_xref db !! (entity, system, s) with
      | Some old => if decide (xl_Attributes l = ∅) then xr_attributes old else xl_Attributes l
      | None => xl_Attributes l end))
  | None => t_xref db !! (entity, system, s)
  end.
Proof using.
  revert db. induction ls as [|l ls IH]; intros db Hn; cbn [fold_left List.find]; [done|]. cbn in Hn. apply NoDup_cons in Hn as [Hl Hn].
  rewrite IH by done. destruct (String.eqb_spec (xl_Source l) s) as [E|N].
  - assert (Hnone : List.find (fun l => String.eqb (xl_Source l) s) ls = None).
    { destruct (List.find _ ls) as [x|] eqn:Ef; [|done]. exfalso. apply List.find_some in Ef as [Hin He]. bools. apply Hl.
      rewrite E, <- He. apply (list_elem_of_fmap_2 xl_Source). by apply list_elem_of_In. }
    rewrite Hnone. unfold upsert_xref. cbn. by rewrite E, lookup_insert_eq.
  - assert (Ho : t_xref (upsert_xref entity system (xl_Source l) (xl_Master l) (xl_Attributes l) db) !! (entity, system, s) =
                 t_xref db !! (entity, system, s)).
    { unfold upsert_xref. cbn. rewrite lookup_insert_ne; [done|]. by intros [= ?]. }
    by rewrite Ho.
Qed.

Lemma upserts_other entity system ls (db : Db J) k :
  (forall s, k <> (entity, system, s)) ->
  t_xref (fold_left (fun db l => upsert_xref entity system (xl_Source l) (xl_Master l) (xl_Attributes l) db) ls db) !! k = t_xref db !! k.
Proof using.
  intros Hk. revert db. induction ls as [|l ls IH]; intros db; cbn [fold_left]; [done|]. rewrite IH. unfold upsert_xref. cbn.
  rewrite lookup_insert_ne; [done|]. intros E. by apply (Hk (xl_Source l)).
Qed.

Lemma find_filter {A} (p q : A -> bool) l x :
  List.find p l = Some x -> (forall y, y ∈ l -> p y = true -> y = x) -> List.find p (List.filter q l) = if q x then Some x else None.
Proof using.
  intros H Hu. destruct (q x) eqn:Eq.
  - destruct (List.find p (List.filter q l)) as [y|] eqn:E.
    + apply List.find_some in E as [Hin Hp]. apply List.filter_In in Hin as [Hin _]. f_equal. apply Hu; [by apply list_elem_of_In|done].
    + apply List.find_some in H as [Hin Hp]. exfalso.
      pose proof (List.find_none _ _ E x) as Hn. rewrite Hp in Hn. discriminate Hn. by apply List.filter_In.
  - destruct (List.find p (List.filter q l)) as [y|] eqn:E; [|done]. apply List.find_some in E as [Hin Hp].
    apply List.filter_In in Hin as [Hin Hq]. rewrite (Hu y) in Hq; [congruence|by apply list_elem_of_In|done].
Qed.
End tx.

(** a batch of links counts every record it names once and takes the last link given
    for it. A dry run writes nothing and counts the same. Otherwise a record's link becomes
    what was given, except that attributes are kept when none are given, and that a record
    linked to another master keeps its row unless the load replaces; nothing else changes. *)
Theorem LinkMany_loads {J : Type} (entity system : string) (links : list XrefLink) (replace dry : bool) (db : Db J) :
  let linked := fun source => t_xref db !! (entity, system, source) in
  exists c db', link_many_tx entity system links replace dry db = (c, db') /\
  (exists records, NoDup records /\ (forall s, s ∈ records <-> s ∈ map xl_Source links) /\ total c = Z.of_nat (List.length records)) /\
  fst (link_many_tx entity system links replace true db) = c /\ (dry = true -> db' = db) /\
  (dry = false ->
    (forall l1 l l2, links = l1 ++ l :: l2 -> (forall x, x ∈ l2 -> xl_Source x <> xl_Source l) ->
       t_xref db' !! (entity, system, xl_Source l) = Some (loaded linked replace l)) /\
    (forall k, (forall s, k = (entity, system, s) -> s ∉ map xl_Source links) -> t_xref db' !! k = t_xref db !! k)).
Proof.
  intros linked. destruct (load_links_spec linked replace links) as (c & Hload & Htotal).
  unfold link_many_tx. fold linked. rewrite Hload.
  exists c, (if dry then db else fold_left (fun db l => upsert_xref entity system (xl_Source l) (xl_Master l) (xl_Attributes l) db)
    (List.filter (writes linked replace) (final_links links)) db).
  split; [done|]. destruct (final_links_perm links) as [Hnd Hin]. split.
  { exists (map xl_Source (final_links links)). split; [done|]. split; [done|]. by rewrite List.length_map. }
  split; [done|]. split; [by intros ->|]. intros ->.
  assert (Hndw : NoDup (map xl_Source (List.filter (writes linked replace) (final_links links)))).
  { clear -Hnd. induction (final_links links) as [|x l IH]; [constructor|]. cbn in *. apply NoDup_cons in Hnd as [Hx Hnd].
    destruct (writes linked replace x); [|by apply IH]. cbn. apply NoDup_cons. split; [|by apply IH]. intros H. apply Hx.
    apply list_elem_of_fmap_1 in H as (y & -> & Hy). apply list_elem_of_In, List.filter_In in Hy as [Hy _].
    apply (list_elem_of_fmap_2 xl_Source). by apply list_elem_of_In. }
  split.
  - intros l1 l l2 -> Hno. rewrite upserts_lookup by done. pose proof (final_links_in l1 l l2 Hno) as Hl.
    assert (Hu : forall y, y ∈ final_links (l1 ++ l :: l2) -> String.eqb (xl_Source y) (xl_Source l) = true -> y = l).
    { intros y Hy He. bools. by apply (nodup_by xl_Source (final_links (l1 ++ l :: l2))). }
    assert (Hfind : List.find (fun x => String.eqb (xl_Source x) (xl_Source l)) (final_links (l1 ++ l :: l2)) = Some l).
    { destruct (List.find _ (final_links _)) as [y|] eqn:E.
      - apply List.find_some in E as [Hy He]. f_equal. apply Hu; [by apply list_elem_of_In|done].
      - pose proof (List.find_none _ _ E l) as Hn. cbn in Hn. rewrite String.eqb_refl in Hn. discriminate Hn. by apply list_elem_of_In. }
    rewrite (find_filter _ _ _ _ Hfind Hu). unfold writes, loaded. fold linked. change (t_xref db !! (entity, system, xl_Source l)) with (linked (xl_Source l)).
    destruct (linked (xl_Source l)) as [[m at']|]; [|done]. cbn. destruct (String.eqb_spec m (xl_Master l)) as [->|N]; cbn.
    + destruct (decide (xl_Attributes l = ∅)) as [E|E]; [done|]. destruct (decide (at' = xl_Attributes l)) as [->|E2]; [done|].
      cbn. by rewrite decide_False.
    + by destruct replace.
  - intros [[e sy] s] Hk. destruct (decide ((e, sy) = (entity, system))) as [[= -> ->]|N].
    + rewrite upserts_lookup by done. destruct (List.find _ _) as [y|] eqn:E; [|done]. exfalso.
      apply List.find_some in E as [Hy He]. bools. apply List.filter_In in Hy as [Hy _]. apply (Hk s eq_refl). apply Hin.
      rewrite <- He. apply (list_elem_of_fmap_2 xl_Source). by apply list_elem_of_In.
    + apply upserts_other. intros s' [= -> -> ->]. done.
Qed.
