(* ===== verification/Mapping.v ===== *)
(** Field mappings: [src/pkg/mapping/mapping.go]. JSONata is third-party code, an
    interface ([Jsonata]): compiling an expression and evaluating it on a document. *)

From S2P Require Import Turgon Prelude GoStr GoErr Policy GuardData Idempotency Governor Guard RuntimeSpec Compiler Template.
From Stdlib Require Import Ascii String.

Definition ErrUndefined : string := "no results found".

Class Jsonata := {
  jx_expr : Type;
  jx_compile : string -> result jx_expr;
  jx_eval : jx_expr -> document -> result json;
  (** [Error()]. *)
  jx_text : goerr -> string
}.

Section mapping.
Context `{X : Jsonata}.

(** [Mapper]: targets with their compiled expressions. *)
Definition Mapper : Type := list (string * jx_expr).

(** The loop of [Compiler]. *)
Fixpoint compile_fields (l : list (string * string)) : Mapper * list goerr :=
  match l with
  | [] => ([], [])
  | (t, e) :: l =>
      let (m, errs) := compile_fields l in
      match jx_compile e with
      | Ok x => ((t, x) :: m, errs)
      | Err err => (m, Wrapf (Msg "%s: %w" [FStr t]) [err] :: errs)
      end
  end.

(** [Compiler]. *)
Definition CompileMapping (fields : gmap string string) : result Mapper :=
  let (m, errs) := compile_fields (sort_by fst (map_to_list fields)) in
  match errors_join errs with
  | Some e => Err e
  | None => Ok m
  end.

Definition isUndefined (e : goerr) : bool := errors_is e ErrUndefined || contains_text "no results found" (jx_text e).

(** What [Apply] answers: a document or a [FieldError]. *)
Definition applied : Type := document + (string * goerr).

(** The loop of [Apply]. *)
Fixpoint apply_fields (doc out : document) (m : Mapper) : applied :=
  match m with
  | [] => inl out
  | (t, x) :: m =>
      match jx_eval x doc with
      | Ok v => apply_fields doc (<[t := v]> out) m
      | Err e => if isUndefined e then apply_fields doc out m else inr (t, e)
      end
  end.

(** [Apply]. *)
Definition Apply (m : Mapper) (doc : document) : applied := apply_fields doc ∅ m.

(** ** Lemmas *)

(** What a field of the result is: its expression's value, nothing when undefined. *)
Definition field_value (fields : gmap string string) (doc : document) (t : string) : option json :=
  match fields !! t with
  | Some e => match jx_compile e with
              | Ok x => match jx_eval x doc with Ok v => Some v | Err _ => None end
              | Err _ => None
              end
  | None => None
  end.

Lemma compile_fields_spec l :
  snd (compile_fields l) = [] <-> Forall (fun te => is_ok (jx_compile (snd te)) = true) l.
Proof using.
  induction l as [|[t e] l IH]; cbn; [by split|]. destruct (compile_fields l) as [m errs]. cbn in *. rewrite Forall_cons. cbn.
  destruct (jx_compile e); cbn; [|by split; [|intros []]]. rewrite IH. naive_solver.
Qed.

Lemma compile_fields_mapper l :
  Forall (fun te => is_ok (jx_compile (snd te)) = true) l ->
  Forall2 (fun te tx => fst te = fst tx /\ jx_compile (snd te) = Ok (snd tx)) l (fst (compile_fields l)).
Proof using.
  induction 1 as [|[t e] l Hx H IH]; cbn; [constructor|]. destruct (compile_fields l) as [m errs]. cbn in *.
  destruct (jx_compile e) eqn:E; [|done]. by constructor.
Qed.

(** Applying leaves what is not a target alone. *)
Lemma apply_fields_spec doc m out :
  NoDup (map fst m) ->
  match apply_fields doc out m with
  | inl res => (forall t x, (t, x) ∈ m -> res !! t = match jx_eval x doc with Ok v => Some v | Err _ => out !! t end) /\
      (forall t, t ∉ map fst m -> res !! t = out !! t) /\
      forall t x e, (t, x) ∈ m -> jx_eval x doc = Err e -> isUndefined e = true
  | inr (t, e) => exists x, (t, x) ∈ m /\ jx_eval x doc = Err e /\ isUndefined e = false
  end.
Proof using.
  revert out. induction m as [|[t x] m IH]; intros out Hn; cbn [apply_fields].
  { split; [intros t x H; by apply elem_of_nil in H|]. split; [done|]. intros t x e H. by apply elem_of_nil in H. }
  cbn in Hn. apply NoDup_cons in Hn as [Ht Hn].
  assert (Hhead : forall out', (forall t', t' <> t -> out' !! t' = out !! t') ->
    out' !! t = match jx_eval x doc with Ok v => Some v | Err _ => out !! t end ->
    (forall e, jx_eval x doc = Err e -> isUndefined e = true) ->
    match apply_fields doc out' m with
    | inl res => (forall t0 x0, (t0, x0) ∈ (t, x) :: m -> res !! t0 = match jx_eval x0 doc with Ok v => Some v | Err _ => out !! t0 end) /\
        (forall t0, t0 ∉ map fst ((t, x) :: m) -> res !! t0 = out !! t0) /\
        forall t0 x0 e, (t0, x0) ∈ (t, x) :: m -> jx_eval x0 doc = Err e -> isUndefined e = true
    | inr (t0, e) => exists x0, (t0, x0) ∈ (t, x) :: m /\ jx_eval x0 doc = Err e /\ isUndefined e = false
    end).
  { intros out' Ho Hv Hu. specialize (IH out' Hn). destruct (apply_fields doc out' m) as [res|[t0 e]].
    - destruct IH as (H1 & H2 & H3). split; [|split].
      + intros t0 x0 Hin. apply elem_of_cons in Hin as [[= -> ->]|Hin]; [by rewrite H2|]. rewrite (H1 t0 x0 Hin).
        destruct (jx_eval x0 doc); [done|]. apply Ho. intros ->. apply Ht. by apply (list_elem_of_fmap_2 fst _ (t, x0)).
      + intros t0 Hin. cbn in Hin. rewrite not_elem_of_cons in Hin. destruct Hin as [N Hin]. rewrite H2 by done. by apply Ho.
      + intros t0 x0 e Hin He. apply elem_of_cons in Hin as [[= -> ->]|Hin]; [by apply Hu|by apply (H3 t0 x0)].
    - destruct IH as (x0 & Hin & H). exists x0. split; [by right|done]. }
  destruct (jx_eval x doc) as [v|e] eqn:E.
  - apply Hhead; [intros t' N; apply (lookup_insert_ne (M := gmap string)); congruence|apply (lookup_insert_eq (M := gmap string))|done].
  - destruct (isUndefined e) eqn:Hu; [apply Hhead; [done|done|by intros ? [= <-]]|]. exists x. split; [left|done].
Qed.
End mapping.

(** * Properties *)

(** a mapping compiles exactly when every expression does, and reports every one that
    does not; applied, it gives a document whose fields are exactly the values of the
    expressions that have one, or fails with a field whose expression failed. *)
Theorem mapping_evaluates_fields `{X : Jsonata} (fields : gmap string string) (doc : document) :
  (is_ok (CompileMapping fields) = true <-> forall t e, fields !! t = Some e -> is_ok (jx_compile e) = true) /\
  forall m, CompileMapping fields = Ok m ->
    match Apply m doc with
    | inl out => forall t, out !! t = field_value fields doc t
    | inr (t, err) => exists e x, fields !! t = Some e /\ jx_compile e = Ok x /\ jx_eval x doc = Err err /\ isUndefined err = false
    end.
Proof.
  set (l := sort_by fst (map_to_list fields)).
  assert (Hl : forall t e, (t, e) ∈ l <-> fields !! t = Some e).
  { intros t e. unfold l, sort_by. rewrite isort_perm. apply elem_of_map_to_list. }
  assert (Hok : is_ok (CompileMapping fields) = true <-> Forall (fun te => is_ok (jx_compile (snd te)) = true) l).
  { unfold CompileMapping. fold l. rewrite <- compile_fields_spec. destruct (compile_fields l) as [m errs]. cbn. by destruct errs. }
  split.
  { rewrite Hok, Forall_forall. split; [intros H t e He; apply (H (t, e)); by apply Hl|]. intros H [t e] Hin. by apply (H t e), Hl. }
  intros m Hm. assert (Hall : Forall (fun te => is_ok (jx_compile (snd te)) = true) l) by (apply Hok; by rewrite Hm).
  pose proof (compile_fields_mapper l Hall) as H2. assert (Hmm : m = fst (compile_fields l)).
  { unfold CompileMapping in Hm. fold l in Hm. destruct (compile_fields l) as [m' errs]. cbn. destruct errs; [by injection Hm|done]. }
  rewrite <- Hmm in H2. clear Hmm Hm Hok Hall.
  assert (Hkeys : map fst m = map fst l).
  { clear Hl. revert H2. generalize l. intros l0 H2. induction H2 as [|te tx l0 m0 [He _] H2 IH]; [done|]. cbn. by rewrite He, IH. }
  assert (Hn : NoDup (map fst m)).
  { rewrite Hkeys. unfold l, sort_by. rewrite isort_perm. apply NoDup_fst_map_to_list. }
  assert (Hpair : forall t x, (t, x) ∈ m -> exists e, fields !! t = Some e /\ jx_compile e = Ok x).
  { intros t x Hin. apply list_elem_of_lookup_1 in Hin as [i Hi].
    destruct (Forall2_lookup_r _ _ _ _ _ H2 Hi) as ([t' e] & Hl' & Ht & Hc). cbn in *. subst t'. exists e. split; [|done].
    apply Hl. by eapply list_elem_of_lookup_2. }
  unfold Apply. pose proof (apply_fields_spec doc m ∅ Hn) as Happ. destruct (apply_fields doc ∅ m) as [out|[t err]].
  - destruct Happ as (H1 & H3 & _). intros t. unfold field_value. destruct (fields !! t) as [e|] eqn:He.
    + assert (Hin : t ∈ map fst m) by (rewrite Hkeys; apply (list_elem_of_fmap_2 fst _ (t, e)); by apply Hl).
      apply list_elem_of_fmap_1 in Hin as ([t' x] & -> & Hin). cbn in *. destruct (Hpair _ _ Hin) as (e' & He' & Hc).
      rewrite He in He'. injection He' as <-. rewrite Hc, (H1 _ _ Hin). destruct (jx_eval x doc); [done|by apply (lookup_empty (M := gmap string))].
    + rewrite H3; [by apply (lookup_empty (M := gmap string))|]. rewrite Hkeys. intros Hin. apply list_elem_of_fmap_1 in Hin as ([t' e] & -> & Hin).
      apply Hl in Hin. cbn in He. congruence.
  - destruct Happ as (x & Hin & Hx & Hu). destruct (Hpair _ _ Hin) as (e & He & Hc). exists e, x. by repeat split.
Qed.
