(* ===== verification/Activities.v ===== *)
(** Activities: [src/pkg/engine/activities.go] and [RunPlugin] of [plugins.go]. A worker
    holds the write guard, the mappings it compiled and the services around it (the
    cross-reference, its matching, the Splink service, the audit log, plugins, people),
    which are an interface ([Services]). The Temporal service runs an activity again when
    an attempt failed for a passing reason; a worker may die before an attempt, and an
    answer may be lost after one, as a script says. A worker that dies inside an attempt is
    not modelled, nor are timeouts of the calls it makes, other than as their errors. *)

From S2P Require Import Turgon Prelude GoStr GoErr Policy GuardData Idempotency Governor Guard ApiKinds RuntimeSpec.
From S2P Require Import Compiler Template Engine Workflow Identity Mapping.
From Stdlib Require Import Ascii String.

(** Numbers and documents, as the standard library reads and writes them:
    [FormatFloat(x, 'f', -1, 64)], [fmt.Sprint], the value [ParseFloat] gives whatever its
    error, [ParseFloat] and [json.Unmarshal] with [UseNumber]. *)
Class Numbers := {
  format_float : float64 -> string;
  sprint_float : float64 -> string;
  float_value : string -> float64;
  parse_float : string -> option float64;
  decode_json : string -> option json
}.

(** What the Splink service answers: suggestions with the records and masters its model
    was trained on, that it has no model, that it refuses, or a passing failure. *)
#[warnings="-register-all"]
Inductive splink_reply :=
| SplinkSuggested (l : list (suggestion float64)) (records masters : Z)
| NoSplinkModel
| SplinkRefused (e : goerr)
| SplinkFailed (e : goerr).

(** The audit entry of an automatic match. *)
Record MatchRecord := mkMatchRecord {
  mr_entity : string;
  mr_system : string;
  mr_ref : string;
  mr_master : string;
  mr_score : float64;
  mr_reasons : list string;
  mr_threshold : float64;
  mr_model : option string
}.

(** The services of a worker, over their state. The first five say which it has:
    [Resolver], [Matcher], [MatchModels], [SplinkScorer], [audit.Recorder]. A plugin's
    error comes with whether it is the plugin's own. *)
Class Services (I : Type) := {
  has_resolver : bool;
  can_match : bool;
  has_models : bool;
  has_splink : bool;
  has_audit : bool;
  has_plugins : bool;
  sv_Xref : string -> string -> string -> I -> result (option string) * I;
  sv_Candidates : string -> Attributes -> I -> result (list Candidate) * I;
  sv_Link : string -> string -> string -> string -> Attributes -> I -> option goerr * I;
  sv_MatchModel : string -> I -> result (option (Model float64)) * I;
  sv_Suggest : string -> Attributes -> nat -> I -> splink_reply * I;
  sv_Record : string -> string -> MatchRecord -> I -> option goerr * I;
  sv_Run : PluginInput -> I -> option (bool * goerr) * I;
  sv_Notify : Notification -> I -> I
}.

Definition nonRetryable (kind : string) (e : goerr) : failure := App kind (Msg "%v" [FErr e]) None (Some (Fault e)).

(** ** Requests *)

Section requests.
Context `{N : Numbers} `{X : Texts} `{J : Json}.

(** [AmountAt] of the engine. *)
Definition amount_at (doc : document) (path : string) : float64 :=
  match json_at (object_of doc) (split_on "." path) with
  | Some (JFloat f) => f
  | Some (JNum lit) => float_value lit
  | Some (JStr s) => float_value (trim_space s)
  | _ => 0%float
  end.

Definition amountFields : list string := ["netValue"; "amount"; "totalAmount"].

(** The loop of [AmountOf]. *)
Fixpoint amount_of (doc : document) (fields : list string) : float64 :=
  match fields with
  | [] => 0%float
  | f :: fields =>
      match doc !! f with
      | Some (JFloat x) => x
      | Some (JNum lit) => float_value lit
      | _ => amount_of doc fields
      end
  end.

(** [AmountOf]. *)
Definition AmountOf (doc : document) : float64 := amount_of doc amountFields.

(** [buildRequest]. *)
Definition buildRequest (i : PrepareInput) : result Request :=
  let c := pi_Config i in
  match Render format_float (wc_IdempotencyKey c) (pi_Source i) (pi_Doc i) with
  | Err e => Err e
  | Ok key =>
      match encode_document (pi_Doc i) with
      | None => Err (Errorf (msg0 "json: unsupported value"))
      | Some payload =>
          Ok (mkRequest (wc_Endpoint c) (wc_Operation c) (replace_byte "-" "_" (wc_Operation c)) (wc_Risk c)
            (mkSubject ("turgon/recipe/" +++ pi_Workflow i) [RoleOperator] false "") key payload (wc_Entity c)
            (if String.eqb (wc_Amount c) "" then AmountOf (pi_Doc i) else amount_at (pi_Doc i) (wc_Amount c))
            (negb (String.eqb (wc_Simulation c) "")) (wc_Compensation c) (pi_Workflow i)
            (String.eqb (wc_Approval c) "required")
            (sprintf (Msg "recipe %s step %s" [FStr (pi_Workflow i); FStr (pi_Step i)]))
            (match wc_CheckAmount c with
             | Some a => Some (GuardData.mkAmountCheck (ac_Preview a) (ac_Tolerance a))
             | None => None
             end))
      end
  end.

(** A request that must be approved. *)
Definition require_approval (r : Request) : Request :=
  mkRequest (RTarget r) (ROperation r) (RTool r) (RRisk r) (RSubject r) (RKey r) (RPayload r) (REntity r) (RAmount r)
    (RSimulate r) (RCompensation r) (RRecipe r) true (RReason r) (RCheckAmount r).

(** [classify]. *)
Definition classify (e : goerr) : failure :=
  if errors_is e ErrDenied then nonRetryable ErrTypeDenied e
  else if errors_is e ErrRejected then nonRetryable ErrTypeRejected e
  else if errors_is e ErrInvalid then nonRetryable ErrTypeInvalid e
  else Fault e.
End requests.

(** ** Activities *)

Section activities.
Context {T : Type} `{S : Store T} (env : Env).
Context `{N : Numbers} `{X : Texts} `{J : Json} `{Q : Jsonata} `{U : Unicode} `{FM : FloatMath float64}.
Context {I : Type} `{V : Services I}.

(** [Activities]: the guard, the compiled mappings and the services. *)
Record Activities := mkActivities { ax_Guard : Guard T; ax_mappers : gmap string Mapper; ax_services : I }.

(** Computations of an activity. *)
Definition Act (A : Type) : Type := Activities -> A * Activities.
#[export] Instance Act_ret : MRet Act := fun A a x => (a, x).
#[export] Instance Act_bind : MBind Act := fun A B k m x => let (a, x) := m x in k a x.

Definition on_guard {A} (m : Guard T -> A * Guard T) : Act A := fun x =>
  let (a, g) := m (ax_Guard x) in (a, mkActivities g (ax_mappers x) (ax_services x)).
Definition service {A} (f : I -> A * I) : Act A := fun x =>
  let (a, i) := f (ax_services x) in (a, mkActivities (ax_Guard x) (ax_mappers x) i).

(** ** Mapping *)

(** [mapper]: compiled once per mapping reference. *)
Definition mapper (cfg : MapConfig) : Act (result Mapper) := fun x =>
  match ax_mappers x !! mc_Mapping cfg with
  | Some m => (Ok m, x)
  | None =>
      match CompileMapping (mc_Fields cfg) with
      | Err e => (Err (Wrapf (Msg "mapping %s: %w" [FStr (mc_Mapping cfg)]) [e]), x)
      | Ok m => (Ok m, mkActivities (ax_Guard x) (<[mc_Mapping cfg := m]> (ax_mappers x)) (ax_services x))
      end
  end.

(** [Map]. The evaluation error goes into the failure's details, which the workflow reads
    only of unresolved records. *)
Definition Map (i : MapInput) : Act (answer document) :=
  m ← mapper (mi_Config i);
  match m with
  | Err e => mret (Failed (nonRetryable ErrTypeMapping e))
  | Ok m =>
      mret (match Apply m (mi_Doc i) with
        | inl out => Done out
        | inr (field, _) => Failed (App ErrTypeMapping (Msg "mapping %s: field %s could not be computed"
            [FStr (mc_Mapping (mi_Config i)); FStr field]) None None)
        end)
  end.

(** ** Resolving *)

(** What scoring a record gives: suggestions, what scored them and why nobody could. *)
Record scoring := mkScoring { sc_suggestions : list (suggestion float64); sc_scorer : string; sc_why : string }.

Definition splink_scoring (cfg : ResolveConfig) (entity : string) (attrs : Attributes) : Act (answer scoring) :=
  if String.eqb (rcf_Strategy cfg) StrategySplink && can_match && negb (bool_decide (attrs = ∅)) then
    if negb has_splink then
      mret (Done (mkScoring [] "" "; no Splink service is configured (TURGON_SPLINK_URL)"))
    else
      r ← service (sv_Suggest entity attrs 3);
      mret (match r with
        | NoSplinkModel => Done (mkScoring [] "" "; the Splink service has no model for it until a steward links some")
        | SplinkRefused e => Failed (nonRetryable ErrTypeInvalid e)
        | SplinkFailed e => Failed (Fault e)
        | SplinkSuggested l records masters =>
            Done (mkScoring l ("splink (" +++ itoa records +++ " records of " +++ itoa masters +++ " masters)") "")
        end)
  else mret (Done (mkScoring [] "" "")).

(** The model a deployment trained, or the default. *)
Definition match_model (entity : string) : Act (result (Model float64)) :=
  if negb has_models then mret (Ok Default)
  else
    r ← service (sv_MatchModel entity);
    mret (match r with Ok (Some m) => Ok m | Ok None => Ok Default | Err e => Err e end).

Definition builtin_scoring (entity : string) (attrs : Attributes) (why : string) : Act (answer scoring) :=
  c ← service (sv_Candidates entity attrs);
  match c with
  | Err e => mret (Failed (Fault e))
  | Ok candidates =>
      m ← match_model entity;
      mret (match m with
        | Err e => Failed (Fault e)
        | Ok model =>
            match Suggest (Compare_records model) attrs candidates 3 with
            | Some l => Done (mkScoring l "" why)
            | None => Failed (Fault (Errorf (msg0 "runtime error: index out of range")))
            end
        end)
  end.

Definition score_record (cfg : ResolveConfig) (entity : string) (attrs : Attributes) : Act (answer scoring) :=
  s ← splink_scoring cfg entity attrs;
  match s with
  | Done s =>
      if String.eqb (sc_scorer s) "" && can_match && negb (bool_decide (attrs = ∅))
      then builtin_scoring entity attrs (sc_why s) else mret (Done s)
  | Failed f => mret (Failed f)
  end.

(** Whether the strategy links certain matches by itself. *)
Definition automatic (cfg : ResolveConfig) (s : scoring) : bool :=
  String.eqb (rcf_Strategy cfg) StrategyProbabilistic ||
  (String.eqb (rcf_Strategy cfg) StrategySplink && negb (String.eqb (sc_scorer s) "")).

Definition to_steward (entity system ref : string) (attrs : Attributes) (s : scoring) : failure :=
  App ErrTypeUnresolved (Msg "a %s from %s has no master record; it needs a data steward%s"
      [FStr entity; FStr system; FStr (sc_why s)])
    (Some (mkUnresolved entity system ref attrs
      (map (fun x => mkSuggestion (su_Master x) (su_Score x) (su_Reasons x)) (sc_suggestions s)))) None.

Definition match_record (cfg : ResolveConfig) (entity system ref master : string) (s : scoring) : MatchRecord :=
  let best := List.hd (mkSuggested "" 0%float []) (sc_suggestions s) in
  mkMatchRecord entity system ref master (su_Score best) (su_Reasons best) (rcf_AutoMatchAbove cfg)
    (if String.eqb (sc_scorer s) "" then None else Some (sc_scorer s)).

(** A record without a cross-reference: the master it is linked to. *)
Definition match_new (cfg : ResolveConfig) (entity system ref : string) (doc : document) : Act (answer string) :=
  let attrs := Extract sprint_float doc (rcf_Match cfg) in
  s ← score_record cfg entity attrs;
  match s with
  | Failed f => mret (Failed f)
  | Done s =>
      match Decide_match (sc_suggestions s) (rcf_AutoMatchAbove cfg), automatic cfg s with
      | Some master, true =>
          lerr ← service (sv_Link entity system ref master attrs);
          match lerr with
          | Some e => mret (Failed (Fault e))
          | None =>
              aerr ← (if has_audit
                then service (sv_Record "turgon/resolver" "xref.matched" (match_record cfg entity system ref master s))
                else mret None);
              mret (match aerr with Some e => Failed (Fault e) | None => Done master end)
          end
      | _, _ => mret (Failed (to_steward entity system ref attrs s))
      end
  end.

(** [Resolve]. *)
Definition Resolve (i : ResolveInput) : Act (answer document) :=
  let cfg := ri_Config i in
  let entity := trim_prefix "model." (rcf_Entity cfg) in
  let (ref_field, into) := Fields cfg in
  if negb (existsb (String.eqb (rcf_Strategy cfg)) [StrategyExact; StrategyProbabilistic; StrategySplink]) then
    mret (Failed (nonRetryable ErrTypeUnresolved (Errorf (Msg "unknown strategy %q" [FStr (rcf_Strategy cfg)]))))
  else if negb has_resolver then
    mret (Failed (nonRetryable ErrTypeUnresolved (Errorf (msg0 "no identity resolver configured"))))
  else
    let ref := match ri_Doc i !! ref_field with Some (JStr s) => s | _ => "" end in
    if String.eqb ref "" then
      mret (Failed (nonRetryable ErrTypeUnresolved (Errorf (Msg "document has no %s to resolve" [FStr ref_field]))))
    else
      id ← service (sv_Xref entity (ri_System i) ref);
      match id with
      | Err e => mret (Failed (Fault e))
      | Ok (Some id) => mret (Done (<[into := JStr id]> (ri_Doc i)))
      | Ok None =>
          m ← match_new cfg entity (ri_System i) ref (ri_Doc i);
          mret (match m with
            | Done master => Done (<[into := JStr master]> (ri_Doc i))
            | Failed f => Failed f
            end)
      end.

(** ** Writing *)

(** [PrepareWrite]. *)
Definition PrepareWrite (i : PrepareInput) : Act (answer PrepareOutput) :=
  match buildRequest i with
  | Err e => mret (Failed (nonRetryable ErrTypeInvalid e))
  | Ok req =>
      '(p, err) ← on_guard (Prepare env decode_json parse_float sprintf req);
      mret (match err with
        | Some e => Failed (classify e)
        | None => Done (mkPrepareOutput (if String.eqb (PAmountMismatch p) "" then req else require_approval req) p)
        end)
  end.

(** [PrepareAgentWrite]: a refusal says why. *)
Definition with_reasons (p : Prepared) (e : goerr) : goerr :=
  match Reasons (PDecision p) with
  | [] => e
  | reasons => if errors_is e ErrDenied then Wrapf (Msg "%w: %s" [FStr (join "; " reasons)]) [e] else e
  end.

Definition PrepareAgentWrite (req : Request) : Act (answer Prepared) := fun x =>
  match g_targets (ax_Guard x) !! RTarget req with
  | None => (Failed (nonRetryable ErrTypeInvalid (Errorf (Msg "this worker has no connector for %s" [FStr (RTarget req)]))), x)
  | Some _ =>
      ('(p, err) ← on_guard (Prepare env decode_json parse_float sprintf req);
       mret (match err with Some e => Failed (classify (with_reasons p e)) | None => Done p end)) x
  end.

(** [CommitWrite]. An error is the answer, whatever the outcome beside it. *)
Definition CommitWrite (i : CommitInput) : Act (answer Outcome) :=
  '(out, err) ← on_guard (Commit env (ci_Request i) (ci_Approval i));
  mret (match err with
    | None => Done out
    | Some e => Failed (if errors_is e ErrUnconfirmed && bool_decide (OStatus out = StatusCommitted) then Fault e else classify e)
    end).

(** [Compensate]. *)
Definition Compensate (i : CompensateInput) : Act (answer unit) :=
  err ← on_guard (compensate env (xi_Request i) (xi_Result i));
  mret (match err with None => Done tt | Some e => Failed (Fault e) end).

(** [RunPlugin]. *)
Definition RunPlugin (i : PluginInput) : Act (answer unit) :=
  if negb has_plugins then mret (Failed (nonRetryable ErrTypePlugin (Errorf (msg0 "this worker runs no plugins"))))
  else
    err ← service (sv_Run i);
    mret (match err with
      | None => Done tt
      | Some (true, e) => Failed (nonRetryable ErrTypePlugin e)
      | Some (false, e) => Failed (Fault e)
      end).

(** ** Attempts *)

(** What becomes of an attempt. *)
#[warnings="-register-all"]
Inductive fate :=
| Runs
| DiesBefore (e : goerr)
| AnswerLost (e : goerr).

(** A worker with the fates still to come, the clock and the approval signals on their
    way, each with the time it arrives. *)
Record Worker := mkWorker {
  wk_acts : Activities;
  wk_fates : list fate;
  wk_clock : Z;
  wk_signals : list (Z * ApprovalSignal)
}.

Definition after_attempt (w : Worker) (x : Activities) : Worker :=
  mkWorker x (List.tl (wk_fates w)) (wk_clock w) (wk_signals w).

Definition attempt {A} (h : Act (answer A)) (w : Worker) : answer A * Worker :=
  match List.hd Runs (wk_fates w) with
  | Runs => let (r, x) := h (wk_acts w) in (r, after_attempt w x)
  | DiesBefore e => (Failed (Fault e), after_attempt w (wk_acts w))
  | AnswerLost e => let (_, x) := h (wk_acts w) in (Failed (Fault e), after_attempt w x)
  end.

(** A retry policy: attempts follow one another while they fail for a passing reason and
    there are any left. *)
Fixpoint attempts {A} (more : nat) (h : Act (answer A)) (w : Worker) : answer A * Worker :=
  match attempt h w, more with
  | (Failed (Fault _), w), Datatypes.S more => attempts more h w
  | (r, w), _ => (r, w)
  end.

(** [activityRetry] and the policy of plugins: the attempts after the first. *)
Definition activity_retries : nat := 7.
Definition plugin_retries : nat := 2.

(** The signals an approval wait is handed until its deadline. *)
Fixpoint handed (w : Worker) (deadline : Z) (l : list (Z * ApprovalSignal)) : list (ApprovalSignal * Worker) * Worker :=
  match l with
  | (t, s) :: l' =>
      if (t <=? deadline)%Z then
        let w := mkWorker (wk_acts w) (wk_fates w) (Z.max (wk_clock w) t) l' in
        let (sigs, fired) := handed w deadline l' in ((s, w) :: sigs, fired)
      else ([], mkWorker (wk_acts w) (wk_fates w) (Z.max (wk_clock w) deadline) l)
  | [] => ([], mkWorker (wk_acts w) (wk_fates w) (Z.max (wk_clock w) deadline) [])
  end.

Definition notify_people (n : Notification) (w : Worker) : Worker :=
  mkWorker (mkActivities (ax_Guard (wk_acts w)) (ax_mappers (wk_acts w)) (sv_Notify n (ax_services (wk_acts w))))
    (wk_fates w) (wk_clock w) (wk_signals w).

(** The world of a run served by a worker; [versions] are the version gates its run
    passes. *)
Context (versions : string -> bool).

#[local] Instance worker_world : World Worker := {|
  w_now := wk_clock;
  w_version := fun _ => versions;
  w_map := fun _ i => attempts activity_retries (Map i);
  w_resolve := fun _ i => attempts activity_retries (Resolve i);
  w_prepare := fun i => attempts activity_retries (PrepareWrite i);
  w_commit := fun i => attempts activity_retries (CommitWrite i);
  w_compensate := fun i w =>
    let (r, w) := attempts activity_retries (Compensate i) w in (match r with Done _ => None | Failed f => Some f end, w);
  w_notify := notify_people;
  w_plugin := fun i w => snd (attempts plugin_retries (RunPlugin i) w);
  w_signals := fun w deadline => handed w deadline (wk_signals w)
|}.
End activities.

Arguments Activities T {Q} I.
Arguments Worker T {Q} I.
