(* ===== verification/ActivityProps.v ===== *)
(** Lemmas about activities: the calls of a run add up from its activities, what each
    activity asks of the guard, and one commit over retries. *)

From S2P Require Import Turgon Prelude GoStr GoErr Policy Governor GuardData Idempotency Guard GuardProps ApiKinds RuntimeSpec.
From S2P Require Import Compiler Template Engine Workflow WorkflowTheorems Identity Mapping Activities.
From Stdlib Require Import String.
From Stdlib Require Import Ascii String.

(** What the calls of a run do to the guard behind them. A world that keeps a guard's
    trace ([GuardedWorld]) promises how each of its calls extends it; every run then
    accounts for its part of the trace call by call. *)

(** A target's commit among the calls of the activity that committed [i]: of this very
    request, under the key of one of its generations, and cleared before it. *)
Definition commit_of (i : CommitInput) (new : history) : Prop :=
  forall tgt op key payload r, EvCommit tgt op key payload r ∈ new ->
    tgt = RTarget (ci_Request i) /\ op = ROperation (ci_Request i) /\ payload = RPayload (ci_Request i) /\
    exists rq k later after before earlier,
      rq = with_key (ci_Request i) k /\ key = k /\ new = later ++ after ++ before ++ earlier /\
      EvCommit tgt op key payload r ∈ after /\ cleared rq (ci_Approval i) before.

(** A target's commit among the calls of the activity that undid [i]. *)
Definition undo_of (i : CompensateInput) (new : history) : Prop :=
  forall tgt op key payload r, EvCommit tgt op key payload r ∈ new ->
    tgt = RTarget (xi_Request i) /\ op = RCompensation (xi_Request i) /\ payload = xi_Result i.

(** How a call may extend the guard's trace. *)
Definition caused (c : call) (new : history) : Prop :=
  match c with
  | CCommit i _ => commit_of i new
  | CCompensate i _ => undo_of i new
  | _ => quiet new
  end.

Lemma commit_of_quiet i new : quiet new -> commit_of i new.
Proof. intros Hq tgt op key payload r Hin. exfalso. by eapply quiet_no_commit. Qed.

Lemma undo_of_quiet i new : quiet new -> undo_of i new.
Proof. intros Hq tgt op key payload r Hin. exfalso. by eapply quiet_no_commit. Qed.

Lemma commit_of_app i n1 n2 : commit_of i n1 -> commit_of i n2 -> commit_of i (n2 ++ n1).
Proof.
  intros H1 H2 tgt op key payload r Hin. apply elem_of_app in Hin as [Hin|Hin].
  - destruct (H2 _ _ _ _ _ Hin) as (? & ? & ? & rq & k & later & after & before & earlier & E1 & E2 & -> & H).
    do 3 (split; [done|]). exists rq, k, later, after, before, (earlier ++ n1). do 2 (split; [done|]).
    split; [by rewrite <- !app_assoc|done].
  - destruct (H1 _ _ _ _ _ Hin) as (? & ? & ? & rq & k & later & after & before & earlier & E1 & E2 & -> & H).
    do 3 (split; [done|]). exists rq, k, (n2 ++ later), after, before, earlier. do 2 (split; [done|]).
    split; [by rewrite <- !app_assoc|done].
Qed.

Lemma undo_of_app i n1 n2 : undo_of i n1 -> undo_of i n2 -> undo_of i (n2 ++ n1).
Proof. intros H1 H2 tgt op key payload r Hin. apply elem_of_app in Hin as [Hin|Hin]; by eauto. Qed.

(** A world over a guard. *)
Class GuardedWorld (W : Type) `{A : World W} := {
  w_trace : W -> history;
  gw_map local i w r w' : w_map local i w = (r, w') -> exists new, w_trace w' = new ++ w_trace w /\ quiet new;
  gw_resolve local i w r w' : w_resolve local i w = (r, w') -> exists new, w_trace w' = new ++ w_trace w /\ quiet new;
  gw_prepare i w r w' : w_prepare i w = (r, w') -> exists new, w_trace w' = new ++ w_trace w /\ quiet new;
  gw_commit i w r w' : w_commit i w = (r, w') -> exists new, w_trace w' = new ++ w_trace w /\ commit_of i new;
  gw_compensate i w r w' : w_compensate i w = (r, w') -> exists new, w_trace w' = new ++ w_trace w /\ undo_of i new;
  gw_notify n w : w_trace (w_notify n w) = w_trace w;
  gw_plugin i w : w_trace (w_plugin i w) = w_trace w;
  gw_signals w d sigs fired : w_signals w d = (sigs, fired) ->
    w_trace fired = w_trace w /\ Forall (fun x => w_trace (snd x) = w_trace w) sigs
}.

Section accounting.
Context {W : Type} `{A : World W} `{X : Texts} `{J : Json} `{G : !GuardedWorld W}.

(** A trace, latest first, as the parts its calls caused, oldest first. *)
Fixpoint accounts (k : list call) (new : history) : Prop :=
  match k with
  | [] => new = []
  | c :: k => exists later mine, new = later ++ mine /\ caused c mine /\ accounts k later
  end.

Lemma accounts_app k1 k2 n1 n2 : accounts k1 n1 -> accounts k2 n2 -> accounts (k1 ++ k2) (n2 ++ n1).
Proof using.
  revert n1. induction k1 as [|c k1 IH]; intros n1 H1 H2; cbn in *; [subst; by rewrite app_nil_r|].
  destruct H1 as (later & mine & -> & Hc & H1). exists (n2 ++ later), mine. split; [by rewrite app_assoc|]. by auto.
Qed.

(** Where a commit of the trace comes from. *)
Lemma accounts_commit k new tgt op key payload r :
  accounts k new -> EvCommit tgt op key payload r ∈ new ->
  exists pre c post later mine earlier, k = pre ++ c :: post /\ new = later ++ mine ++ earlier /\
    caused c mine /\ EvCommit tgt op key payload r ∈ mine.
Proof using.
  revert new. induction k as [|c k IH]; intros new H Hin; cbn in H; [subst; by apply elem_of_nil in Hin|].
  destruct H as (later & mine & -> & Hc & H). apply elem_of_app in Hin as [Hin|Hin].
  - destruct (IH _ H Hin) as (pre & c' & post & l & m & e & -> & -> & Hc' & Hm).
    exists (c :: pre), c', post, l, m, (e ++ mine). split; [done|]. split; [by rewrite <- !app_assoc|done].
  - exists [], c, k, later, mine, []. by rewrite app_nil_r.
Qed.

(** Computations whose calls account for what they add to the trace. *)
Definition accounted {B} (m : R W B) : Prop :=
  forall s b s', m s = (b, s') ->
    exists k new, ran s s' k /\ w_trace (r_world s') = new ++ w_trace (r_world s) /\ accounts k new.

Lemma ret_accounted {B} (b : B) : accounted (mret b).
Proof using. intros s b' s' [= <- <-]. exists [], []. split; [apply ran_nil|done]. Qed.

Lemma bind_accounted {B C} (m : R W B) (f : B -> R W C) : accounted m -> (forall b, accounted (f b)) -> accounted (m ≫= f).
Proof using.
  intros Hm Hf s c s' H. apply flow_bind_inv in H as (b & s1 & H1 & H2).
  apply Hm in H1 as (k1 & n1 & R1 & T1 & A1). apply Hf in H2 as (k2 & n2 & R2 & T2 & A2).
  exists (k1 ++ k2), (n2 ++ n1). split; [by apply (ran_app s s1)|]. split; [by rewrite T2, T1, app_assoc|]. by apply accounts_app.
Qed.

Lemma call_accounted {B} (f : W -> B * W) (ev : B -> call) :
  (forall w b w', f w = (b, w') -> exists new, w_trace w' = new ++ w_trace w /\ caused (ev b) new) ->
  accounted (call_world f ev).
Proof using.
  intros Hf s b s' H. pose proof (call_inv _ _ _ _ _ H) as Hr. unfold call_world in H.
  destruct (f (r_world s)) as [b1 w] eqn:E. injection H as <- <-. apply Hf in E as (new & Ht & Hc).
  exists [ev b1], new. split; [exact Hr|]. split; [exact Ht|]. exists [], new. done.
Qed.

(** Reading the world and keeping the pending approval leave no call. *)
Lemma silent_accounted {B} (m : R W B) :
  (forall s, r_calls (snd (m s)) = r_calls s /\ r_world (snd (m s)) = r_world s) -> accounted m.
Proof using.
  intros Hm s b s' H. pose proof (Hm s) as [Hc Hw]. rewrite H in Hc, Hw. cbn in Hc, Hw.
  exists [], []. split; [exact Hc|]. by rewrite Hw.
Qed.

End accounting.

(** Apply the lemmas above along a computation. *)
Ltac account :=
  repeat match goal with
  | |- accounted (mret _) => apply ret_accounted
  | |- accounted (mbind _ _) => apply bind_accounted; [|intros ?]
  | |- accounted (version _) => apply silent_accounted; done
  | |- accounted now => apply silent_accounted; done
  | |- accounted (set_pending _) => apply silent_accounted; done
  | |- accounted local_steps => apply silent_accounted; done
  | |- accounted (call_world _ _) => apply call_accounted
  | |- accounted (if ?b then _ else _) => destruct b
  | |- accounted (match ?x with _ => _ end) => destruct x
  end.

Section accounting.
Context {W : Type} `{A : World W} `{X : Texts} `{J : Json} `{G : !GuardedWorld W}.

Lemma tell_accounted n : accounted (tell n).
Proof using.
  unfold tell. account. intros w ? w' [= <- <-]. exists []. split; [apply gw_notify|]. constructor.
Qed.

Lemma runPlugins_accounted wf step w rec : accounted (runPlugins wf step w rec).
Proof using.
  unfold runPlugins. induction (wc_Plugins w) as [|p l IH]; cbn [run_all]; [apply ret_accounted|].
  apply bind_accounted; [|done]. cbv zeta. account. intros v ? w' [= <- <-]. exists []. split; [apply gw_plugin|]. constructor.
Qed.

Lemma await_loop_accounted p timeout fired sigs s a s' :
  Forall (fun x => w_trace (snd x) = w_trace (r_world s)) sigs -> w_trace fired = w_trace (r_world s) ->
  await_loop p timeout fired sigs s = (a, s') ->
  exists k new, ran s s' k /\ w_trace (r_world s') = new ++ w_trace (r_world s) /\ accounts k new.
Proof using.
  revert s. induction sigs as [|[x w] sigs IH]; intros s Hs Hf H; cbn [await_loop] in H.
  - injection H as <- <-. exists [CTimer], []. split; [done|]. split; [exact Hf|]. exists [], []. by repeat constructor.
  - apply Forall_cons in Hs as [Hw Hs]. cbn in Hw. apply flow_bind_inv in H as (u & s1 & H1 & H). injection H1 as _ <-.
    assert (Hmine : accounts [CSignal x] []) by (exists [], []; by repeat constructor).
    destruct (matches p x).
    + injection H as <- <-. exists [CSignal x], []. split; [done|]. by split.
    + apply IH in H as (k & new & R & T & Hk); [| |by rewrite Hf]; cbn in *.
      * exists (CSignal x :: k), new. split; [|split; [by rewrite T, Hw|]].
        -- unfold ran in *. cbn in *. rewrite R. cbn. by rewrite <- app_assoc.
        -- exists new, []. split; [by rewrite app_nil_r|]. by repeat constructor.
      * eapply Forall_impl; [exact Hs|]. cbn. intros ? ->. done.
Qed.

Lemma awaitApproval_accounted p timeout : accounted (awaitApproval p timeout).
Proof using.
  intros s a s' H. unfold awaitApproval in H. destruct (w_signals _ _) as [sigs fired] eqn:E.
  apply gw_signals in E as [Hf Hs]. by apply await_loop_accounted in H.
Qed.

Lemma approve_accounted step prep timeout : accounted (approve step prep timeout).
Proof using. unfold approve. account; cbv zeta; account; auto using tell_accounted, awaitApproval_accounted. Qed.

Lemma workflow_step_accounted local wf source timeout st p : accounted (workflow_step local wf source timeout st p).
Proof using.
  unfold workflow_step, map_step, resolve_step, write_step. cbv zeta.
  account; auto using approve_accounted, runPlugins_accounted; intros ? ? ?.
  all: first [apply gw_map|apply gw_resolve|apply gw_prepare|apply gw_commit].
Qed.

Lemma undo_all_accounted l : accounted (undo_all l).
Proof using. induction l as [|d l IH]; cbn [undo_all]; account; [intros ? ? ?; apply gw_compensate|done]. Qed.

Lemma refused_accounted wf step f n : accounted (refused wf step f n).
Proof using. unfold refused. account; apply tell_accounted. Qed.

Lemma run_steps_accounted local wf source timeout steps p : accounted (run_steps local wf source timeout steps p).
Proof using.
  revert p. induction steps as [|st steps IH]; intros p; cbn [run_steps]; [apply ret_accounted|].
  apply bind_accounted; [apply workflow_step_accounted|]. intros []; [done|]. unfold fail.
  account; auto using tell_accounted, refused_accounted, undo_all_accounted.
Qed.

(** Every run accounts for what it adds to the trace. *)
Lemma IntegrationWorkflow_accounted i : accounted (IntegrationWorkflow i).
Proof using.
  unfold IntegrationWorkflow. cbv zeta. destruct (decode_document _); [|apply ret_accounted].
  apply bind_accounted; [by apply silent_accounted|]. intros. apply run_steps_accounted.
Qed.
End accounting.

(** Lemmas on activities and their attempts, and the promises above kept by a
    worker over the write guard. *)

Section activities.
Context {T : Type} `{S : Store T} `{Vw : StoreView T} `{L : !StoreLaws T} (env : Env).
Context `{N : Numbers} `{X : Texts} `{J : Json} `{Q : Jsonata} `{U : Unicode} `{FM : FloatMath float64}.
Context {I : Type} `{V : Services I}.
#[local] Abbreviation Activities := (Activities T I).
#[local] Abbreviation Worker := (Worker T I).
Implicit Types (x : Activities) (w : Worker).

Lemma act_bind_inv {A B} (m : Act A) (k : A -> Act B) x b x' :
  (m ≫= k) x = (b, x') -> exists a x1, m x = (a, x1) /\ k a x1 = (b, x').
Proof using. unfold mbind, Act_bind. destruct (m x) as [a x1]. eauto. Qed.

Lemma on_guard_inv {A} (m : Guard T -> A * Guard T) x a x' :
  on_guard m x = (a, x') -> m (ax_Guard x) = (a, ax_Guard x').
Proof using. unfold on_guard. destruct (m (ax_Guard x)) as [b g]. by intros [= <- <-]. Qed.

(** ** Activities that leave the guard alone *)

Definition keeps_guard {A} (m : Act A) : Prop := forall x a x', m x = (a, x') -> ax_Guard x' = ax_Guard x.

Lemma ret_keeps {A} (a : A) : keeps_guard (mret a).
Proof using. by intros x b x' [= <- <-]. Qed.

Lemma bind_keeps {A B} (m : Act A) (k : A -> Act B) : keeps_guard m -> (forall a, keeps_guard (k a)) -> keeps_guard (m ≫= k).
Proof using.
  intros Hm Hk x b x' H. apply act_bind_inv in H as (a & x1 & H1 & H2). apply Hm in H1. apply Hk in H2. congruence.
Qed.

Lemma service_keeps {A} (f : I -> A * I) : keeps_guard (service f).
Proof using. intros x a x'. unfold service. destruct (f (ax_services x)). by intros [= <- <-]. Qed.

Lemma mapper_keeps cfg : keeps_guard (mapper cfg).
Proof using. intros x a x'. unfold mapper. destruct (ax_mappers x !! _); [by intros [= <- <-]|]. destruct (CompileMapping _); by intros [= <- <-]. Qed.

Ltac keep :=
  repeat match goal with
  | |- keeps_guard (mret _) => apply ret_keeps
  | |- keeps_guard (service _) => apply service_keeps
  | |- keeps_guard (mbind _ _) => apply bind_keeps; [|intros ?]
  | |- keeps_guard (if ?b then _ else _) => destruct b
  | |- keeps_guard (match ?v with _ => _ end) => destruct v
  end.

Lemma Map_keeps i : keeps_guard (Map i).
Proof using. unfold Map. apply bind_keeps; [apply mapper_keeps|]. intros. keep. Qed.

Lemma match_new_keeps cfg entity system ref doc : keeps_guard (match_new cfg entity system ref doc).
Proof using. unfold match_new, score_record, splink_scoring, builtin_scoring, match_model. keep. Qed.

Lemma Resolve_keeps i : keeps_guard (Resolve i).
Proof using. unfold Resolve. cbv zeta. keep. apply match_new_keeps. Qed.

Lemma RunPlugin_keeps i : keeps_guard (RunPlugin i).
Proof using. unfold RunPlugin. keep. Qed.

(** ** Attempts *)

(** What an activity does to the trace, whatever it answers. *)
Definition adds {A} (P : history -> Prop) (h : Act A) : Prop :=
  forall x r x', h x = (r, x') -> exists new, g_trace (ax_Guard x') = new ++ g_trace (ax_Guard x) /\ P new.

Definition worker_trace w : history := g_trace (ax_Guard (wk_acts w)).

Lemma keeps_adds {A} (h : Act A) : keeps_guard h -> adds quiet h.
Proof using. intros Hh x r x' H. apply Hh in H as ->. exists []. split; [done|constructor]. Qed.

Lemma attempt_adds {A} (P : history -> Prop) (h : Act (answer A)) w r w' :
  P [] -> adds P h -> attempt h w = (r, w') -> exists new, worker_trace w' = new ++ worker_trace w /\ P new.
Proof using.
  intros H0 Hh. unfold attempt. destruct (List.hd _ _).
  - destruct (h (wk_acts w)) as [a x] eqn:E. intros [= <- <-]. by apply Hh in E.
  - intros [= <- <-]. by exists [].
  - destruct (h (wk_acts w)) as [a x] eqn:E. intros [= <- <-]. by apply Hh in E.
Qed.

Lemma attempts_adds {A} (P : history -> Prop) more (h : Act (answer A)) w r w' :
  P [] -> (forall n1 n2, P n1 -> P n2 -> P (n2 ++ n1)) -> adds P h -> attempts more h w = (r, w') ->
  exists new, worker_trace w' = new ++ worker_trace w /\ P new.
Proof using.
  intros H0 Happ Hh. revert w. induction more as [|more IH]; intros w H; cbn [attempts] in H.
  - destruct (attempt h w) as [a w1] eqn:E. apply (attempt_adds P) in E as (n1 & T1 & P1); [|done|done].
    destruct a as [?|[]]; injection H as <- <-; eauto.
  - destruct (attempt h w) as [a w1] eqn:E. apply (attempt_adds P) in E as (n1 & T1 & P1); [|done|done].
    destruct a as [?|[]]; [injection H as <- <-; eauto..|]. apply IH in H as (n2 & T2 & P2).
    exists (n2 ++ n1). split; [by rewrite T2, T1, app_assoc|by apply Happ].
Qed.

Lemma quiet_nil : quiet [].
Proof using. constructor. Qed.

Lemma attempts_quiet {A} more (h : Act (answer A)) w r w' :
  adds quiet h -> attempts more h w = (r, w') -> exists new, worker_trace w' = new ++ worker_trace w /\ quiet new.
Proof using. apply attempts_adds; [apply quiet_nil|]. intros. by apply quiet_app. Qed.

Lemma attempts_keep {A} more (h : Act (answer A)) w r w' :
  keeps_guard h -> attempts more h w = (r, w') -> worker_trace w' = worker_trace w.
Proof using.
  intros Hh H. assert (Ha : adds (eq []) h).
  { intros x a x' E. apply Hh in E as ->. by exists []. }
  apply (attempts_adds (eq [])) in H as (new & Ht & <-); [done|done| |done]. by intros ? ? <- <-.
Qed.

(** ** Activities on the guard *)

Lemma PrepareWrite_adds i : adds quiet (PrepareWrite env i).
Proof using L.
  intros x r x' H. unfold PrepareWrite in H. destruct (buildRequest i) as [req|e].
  2: { injection H as <- <-. exists []. split; [done|constructor]. }
  apply act_bind_inv in H as ([p err] & x1 & H1 & H). injection H as _ <-.
  apply on_guard_inv, Prepare_inv in H1 as (_ & new & Ht & Hq & _). eauto.
Qed.

Lemma Commit_commit_of i g out err g' :
  Commit env (ci_Request i) (ci_Approval i) g = ((out, err), g') ->
  exists new, g_trace g' = new ++ g_trace g /\ commit_of i new.
Proof using L.
  intros H. apply Commit_cleared in H as (new & Ht & _ & Hc). exists new. split; [done|].
  intros tgt op key payload r Hin. destruct (Hc _ _ _ _ _ Hin) as (rq & Hg & -> & -> & -> & -> & after & before & data & aerr & Hn & Hq & Hcl & _).
  do 3 (split; [done|]). destruct (is_generation_with_key _ _ _ Hg) as [k ->]. exists (with_key (ci_Request i) k), k, [], after, before, [].
  split; [done|]. split; [done|]. split; [by rewrite app_nil_r|]. split; [|done]. rewrite Hn in Hin.
  apply elem_of_app in Hin as [?|Hin]; [done|]. by apply quiet_no_commit in Hin.
Qed.

Lemma CommitWrite_adds i : adds (commit_of i) (CommitWrite env i).
Proof using L.
  intros x r x' H. apply act_bind_inv in H as ([out err] & x1 & H1 & H). injection H as _ <-.
  apply on_guard_inv in H1. by apply Commit_commit_of in H1.
Qed.

Lemma compensate_undo_of i g err g' :
  compensate env (xi_Request i) (xi_Result i) g = (err, g') ->
  exists new, g_trace g' = new ++ g_trace g /\ undo_of i new.
Proof using L.
  intros H. apply compensate_inv in H as (new & Ht & He). exists new. split; [done|].
  intros tgt op key payload r Hin. destruct He as [s' e _|? ? ? _ _ _ _|rq s1 calls res' e Hg Hc|rq s1 s' calls res' err _ Hg _ Hc _].
  1,2: by apply elem_of_nil in Hin.
  all: destruct (commit_calls_in _ _ _ _ _ _ _ _ _ _ _ _ Hc Hin) as (-> & -> & _ & -> & _).
  all: destruct (is_generation_with_key _ _ _ Hg) as [k ->]; done.
Qed.

Lemma Compensate_adds i : adds (undo_of i) (Compensate env i).
Proof using L.
  intros x r x' H. apply act_bind_inv in H as (err & x1 & H1 & H). injection H as _ <-.
  apply on_guard_inv in H1. by apply compensate_undo_of in H1.
Qed.

Lemma handed_traces w d l sigs fired :
  handed w d l = (sigs, fired) -> worker_trace fired = worker_trace w /\ Forall (fun s => worker_trace (snd s) = worker_trace w) sigs.
Proof using.
  revert w sigs. induction l as [|[t s] l IH]; intros w sigs H; cbn in H; [by injection H as <- <-|].
  destruct (t <=? d)%Z; [|by injection H as <- <-]. destruct (handed _ d l) as [sigs1 fired1] eqn:E. injection H as <- <-.
  apply IH in E as [E1 E2]. split; [done|]. by constructor.
Qed.

Context (versions : string -> bool).

#[local] Arguments attempts : simpl never.

#[export] Instance worker_guarded : GuardedWorld Worker (A := worker_world env versions).
Proof using L.
  refine {| w_trace := worker_trace |}; cbn.
  - intros _ i w r w'. apply attempts_quiet, keeps_adds, Map_keeps.
  - intros _ i w r w'. apply attempts_quiet, keeps_adds, Resolve_keeps.
  - intros i w r w'. apply attempts_quiet, PrepareWrite_adds.
  - intros i w r w'. apply attempts_adds; [apply commit_of_quiet; constructor| |apply CommitWrite_adds].
    intros. by apply commit_of_app.
  - intros i w r w' H. destruct (attempts _ _ w) as [a w1] eqn:E. injection H as _ <-. revert E.
    apply attempts_adds; [apply undo_of_quiet; constructor| |apply Compensate_adds]. intros. by apply undo_of_app.
  - done.
  - intros i w. destruct (attempts _ _ w) as [a w1] eqn:E. cbn. by apply attempts_keep in E; [|apply RunPlugin_keeps].
  - intros w d sigs fired. apply handed_traces.
Defined.
End activities.

(** Committing through deaths, lost answers and retries: what repeated attempts of
    [CommitWrite] do to the target and the store. *)

(** The commits of a trace the target accepted: key and result. *)
Definition accepted (h : history) : list (string * string) :=
  omap (fun e => match e with EvCommit _ _ key _ (Ok res) => Some (key, res) | _ => None end) h.

(** No audit entry of a trace was refused. *)
Definition all_audited (h : history) : Prop := forall b a d e, EvAudit b a d (Some e) ∉ h.

Lemma all_audited_app h1 h2 : all_audited (h1 ++ h2) -> all_audited h1 /\ all_audited h2.
Proof. intros H. split; intros b a d e Hin; apply (H b a d e); apply elem_of_app; auto. Qed.

Lemma accepted_quiet h : quiet h -> accepted h = [].
Proof. unfold accepted. induction 1 as [|e h He Hh IH]; [done|]. by destruct e. Qed.

Lemma accepted_app h1 h2 : accepted (h1 ++ h2) = accepted h1 ++ accepted h2.
Proof. apply omap_app. Qed.

(** ** Names *)

Lemma slash_free_cancel a b r1 r2 :
  contains_byte "/" a = false -> contains_byte "/" b = false -> (a +++ "/" +++ r1 = b +++ "/" +++ r2)%string -> a = b.
Proof.
  revert b. induction a as [|c a IH]; intros [|d b] Ha Hb H; cbn in *; [done|..].
  - injection H as <- _. by cbn in Hb.
  - injection H as -> _. by cbn in Ha.
  - injection H as -> H. destruct (ascii_dec d "/"); [done|]. f_equal. by apply IH.
Qed.

(** A write whose key is never the key of its own undoing: operation names hold no slash
    and differ. *)
Definition undo_apart (req : Request) : Prop :=
  contains_byte "/" (ROperation req) = false /\ contains_byte "/" (RCompensation req) = false /\
  ROperation req <> RCompensation req.

Lemma append_cancel s a b : s +++ a = s +++ b -> a = b.
Proof. induction s as [|c s IH]; [done|]. intros [= H]. by apply IH. Qed.

Lemma undo_apart_keys req k k' : undo_apart req -> storeKey (with_key req k) <> compensateKey (with_key req k').
Proof.
  intros (H1 & H2 & N) H. apply N. unfold storeKey, compensateKey in H. cbn [with_key RTarget ROperation RKey RCompensation] in H.
  apply append_cancel in H. apply (append_cancel "/") in H. by apply slash_free_cancel in H.
Qed.

Section once.
Context {T : Type} `{S : Store T} `{Vw : StoreView T} `{L : !StoreLaws T} `{Rl : !Reliable T} (env : Env).
Context `{N : Numbers} `{X : Texts} `{J : Json} `{Q : Jsonata} `{U : Unicode} `{FM : FloatMath float64}.
Context {I : Type} `{V : Services I}.

(** A store that differs from another only in one recorded outcome. *)
Definition recorded (s s' : T) (k : string) (o : Outcome) : Prop :=
  forall k', done_at s' k' = if String.eqb k' k then Some o else done_at s k'.
Definition same_done (s s' : T) : Prop := forall k, done_at s' k = done_at s k.

Lemma undone_same s s' r : (done_at s' (compensateKey r) = done_at s (compensateKey r)) -> undone s' r <-> undone s r.
Proof using. unfold undone. by intros ->. Qed.

(** Generations look only at the keys of the undoings. *)
Lemma generation_same s s' req r :
  (forall k, done_at s' (compensateKey (with_key req k)) = done_at s (compensateKey (with_key req k))) ->
  is_generation s req r -> is_generation s' req r.
Proof using.
  intros H. unfold is_generation. case_match; [done|]. intros (n & Hn & -> & Hu & Hm). exists n.
  split; [done|]. split; [done|]. split; [by rewrite (undone_same s)|]. intros m Hlt. apply (undone_same s s'); [done|by apply Hm].
Qed.

Lemma generation_recorded s s' req r o :
  undo_apart req -> is_generation s req r -> recorded s s' (storeKey r) o -> is_generation s' req r.
Proof using.
  intros Ha Hg Hs. apply (generation_same s); [|done]. intros k. rewrite Hs.
  destruct (is_generation_with_key _ _ _ Hg) as [k0 ->].
  destruct (String.eqb_spec (compensateKey (with_key req k)) (storeKey (with_key req k0))) as [E|]; [|done].
  symmetry in E. by apply undo_apart_keys in E.
Qed.

Lemma generation_unrecorded s s' req r o :
  undo_apart req -> (exists k, r = with_key req k) -> is_generation s' req r -> recorded s s' (storeKey r) o -> is_generation s req r.
Proof using.
  intros Ha [k0 ->] Hg Hs. apply (generation_same s'); [|done]. intros k. rewrite Hs.
  destruct (String.eqb_spec (compensateKey (with_key req k)) (storeKey (with_key req k0))) as [E|]; [|done].
  symmetry in E. by apply undo_apart_keys in E.
Qed.

(** ** One commit *)

(** How a commit ends when the store works and the audit log took every entry. *)
Inductive commit_result (req : Request) (s s' : T) : list (string * string) -> Outcome -> option goerr -> Prop :=
| cr_refused out e : same_done s s' -> commit_result req s s' [] out (Some e)
| cr_duplicate r prior err : same_done s s' -> is_generation s req r -> done_at s (storeKey r) = Some prior ->
    commit_result req s s' [] (set_status StatusDuplicate prior) err
| cr_committed r out err : is_generation s req r -> done_at s (storeKey r) = None -> OStatus out = StatusCommitted ->
    recorded s s' (storeKey r) out -> commit_result req s s' [(RKey r, OResult out)] out err.

Lemma commit_calls_accepted who op key req calls res e :
  commit_calls who op key req calls res (Some e) -> all_audited calls -> accepted calls = [].
Proof using.
  inversion 1; subst; try done. intros Ha. exfalso. eapply Ha. left.
Qed.

Lemma commit_calls_committed who op key req calls res :
  commit_calls who op key req calls res None -> accepted calls = [(key, res)].
Proof using. by inversion 1. Qed.

Lemma Commit_result req ap g out err g' new :
  Commit env req ap g = ((out, err), g') -> g_trace g' = new ++ g_trace g -> all_audited new ->
  commit_result req (g_store g) (g_store g') (accepted new) out err.
Proof using L Rl.
  intros H Ht Ha. apply Commit_inv in H as (n & Ht' & _ & Hend). rewrite Ht' in Ht. apply app_inv_tail in Ht as ->.
  destruct Hend as [new s' out e Hq Hv _|r prior new s' err Hq Hv Hg Hd|r s1 s2 s3 aerr new out err cm Hg Hd Hh Hs1 Hcl Hab].
  - rewrite (accepted_quiet new Hq). apply cr_refused. intros k. apply Hv.
  - rewrite (accepted_quiet new Hq). eapply cr_duplicate; [|done|done]. intros k. apply Hv.
  - pose proof Hcl as Hst. apply claimed_end_store in Hst. destruct cm.
    + injection Hab as -> ->. destruct Hst as [Ho Hs2].
      assert (accepted new = [(RKey r, OResult out)]) as ->.
      { inversion Hcl; subst. rewrite !accepted_app, (accepted_quiet before), (accepted_quiet after), app_nil_r by done.
        cbn [app OResult]. by eapply commit_calls_committed. }
      apply cr_committed; try done. intros k. destruct (Hs2 k) as [-> _], (Hs1 k) as [-> _]. done.
    + destruct Hst as (_ & -> & [e He]). subst err.
      assert (accepted new = []) as ->.
      { inversion Hcl; subst; [by apply accepted_quiet|..].
        - apply all_audited_app in Ha as [Ha _]. rewrite accepted_app, (accepted_quiet before), app_nil_r by done.
          by eapply commit_calls_accepted.
        - match goal with Hc : Complete ?k ?o ?s = _ |- _ => pose proof (Complete_total k o s) as Hn; by rewrite Hc in Hn end. }
      apply cr_refused. intros k. pose proof (Abort_total (storeKey r) s1) as Hn. rewrite Hab in Hn. cbn in Hn. subst aerr.
      apply Abort_law in Hab. destruct (Hab k) as [-> _]. by destruct (Hs1 k) as [-> _].
Qed.

(** ** Attempts *)

(** What attempts of one commit have done so far: nothing, or the write, once. *)
Inductive progress_of (req : Request) (s0 s : T) : list (string * string) -> Prop :=
| not_yet : same_done s0 s -> progress_of req s0 s []
| written r o : is_generation s0 req r -> done_at s0 (storeKey r) = None -> OStatus o = StatusCommitted ->
    recorded s0 s (storeKey r) o -> progress_of req s0 s [(RKey r, OResult o)].

(** A reported outcome is the recorded one. *)
Definition reported (req : Request) (s0 s : T) (out : Outcome) : Prop :=
  exists r o, is_generation s0 req r /\ done_at s (storeKey r) = Some o /\ (out = o \/ out = set_status StatusDuplicate o).

Lemma same_done_generation s s' req r : same_done s s' -> is_generation s' req r -> is_generation s req r.
Proof using. intros H. apply generation_same. intros k. symmetry. apply H. Qed.

Lemma commit_progress req s0 s s' done new out err :
  undo_apart req -> progress_of req s0 s done -> commit_result req s s' new out err ->
  progress_of req s0 s' (new ++ done) /\ (err = None -> reported req s0 s' out).
Proof using L.
  intros Ha Hp Hr. destruct Hp as [Hs|r o Hg Hd Ho Hs], Hr as [out e Hs'|r' prior err Hs' Hg' Hd'|r' out err Hg' Hd' Ho' Hs'].
  - split; [|done]. apply not_yet. intros k. by rewrite Hs', Hs.
  - split; [apply not_yet; intros k; by rewrite Hs', Hs|]. intros _. exists r', prior.
    split; [by eapply same_done_generation|]. split; [by rewrite Hs'|by right].
  - apply (same_done_generation s0 s _ _ Hs) in Hg'. rewrite Hs in Hd'.
    assert (Hrec : recorded s0 s' (storeKey r') out) by (intros k; rewrite Hs'; by destruct (String.eqb _ _)).
    split; [by apply written|]. intros _. exists r', out. split; [done|]. split; [by rewrite Hrec, String.eqb_refl|by left].
  - split; [|done]. apply written; try done. intros k. by rewrite Hs', Hs.
  - assert (Hrec : recorded s0 s' (storeKey r) o) by (intros k; by rewrite Hs', Hs).
    split; [by apply written|]. intros _.
    assert (r' = r) as ->. { eapply is_generation_unique; [exact Hg'|]. by eapply generation_recorded. }
    exists r, o. split; [done|]. rewrite Hs, String.eqb_refl in Hd'. injection Hd' as <-.
    split; [by rewrite Hrec, String.eqb_refl|by right].
  - exfalso. assert (r' = r) as ->. { eapply is_generation_unique; [exact Hg'|]. by eapply generation_recorded. }
    by rewrite Hs, String.eqb_refl in Hd'.
Qed.

#[local] Abbreviation Worker := (Worker T I).
Implicit Types w : Worker.

Definition worker_store w : T := g_store (ax_Guard (wk_acts w)).

Lemma CommitWrite_result ci (x : Activities T I) r x' new :
  CommitWrite env ci x = (r, x') -> g_trace (ax_Guard x') = new ++ g_trace (ax_Guard x) -> all_audited new ->
  exists out err, commit_result (ci_Request ci) (g_store (ax_Guard x)) (g_store (ax_Guard x')) (accepted new) out err /\
    forall o, r = Done o -> err = None /\ o = out.
Proof using L Rl.
  intros H Ht Ha. apply act_bind_inv in H as ([out err] & x1 & H1 & H). injection H as <- <-. apply on_guard_inv in H1.
  exists out, err. split; [by eapply Commit_result|]. intros o. by destruct err; intros [= ->].
Qed.

Lemma attempt_result ci w r w' new :
  attempt (CommitWrite env ci) w = (r, w') -> worker_trace w' = new ++ worker_trace w -> all_audited new ->
  (new = [] /\ worker_store w' = worker_store w /\ forall o, r <> Done o) \/
  exists out err, commit_result (ci_Request ci) (worker_store w) (worker_store w') (accepted new) out err /\
    forall o, r = Done o -> err = None /\ o = out.
Proof using L Rl.
  unfold attempt, worker_trace, worker_store. destruct (List.hd _ _) as [|e|e].
  - destruct (CommitWrite env ci (wk_acts w)) as [a x] eqn:E. intros [= <- <-] Ht Ha. right.
    by eapply CommitWrite_result.
  - intros [= <- <-] Ht Ha. left. cbn in Ht. by rewrite <- (app_nil_l (g_trace _)) in Ht at 1; apply app_inv_tail in Ht as <-.
  - destruct (CommitWrite env ci (wk_acts w)) as [a x] eqn:E. intros [= <- <-] Ht Ha. right.
    eapply CommitWrite_result in E as (out & err & Hc & _); [|done|done]. exists out, err. by split.
Qed.

Lemma attempt_progress ci s0 prior w r w' new :
  undo_apart (ci_Request ci) -> progress_of (ci_Request ci) s0 (worker_store w) prior ->
  attempt (CommitWrite env ci) w = (r, w') -> worker_trace w' = new ++ worker_trace w -> all_audited new ->
  progress_of (ci_Request ci) s0 (worker_store w') (accepted new ++ prior) /\
  forall o, r = Done o -> reported (ci_Request ci) s0 (worker_store w') o.
Proof using L Rl.
  intros Hu Hp H Ht Ha. eapply attempt_result in H as [(-> & -> & Hr)|(out & err & Hc & Hr)]; [| |exact Ht|done].
  - split; [done|]. intros o ->. by destruct (Hr o).
  - destruct (commit_progress _ _ _ _ _ _ _ _ Hu Hp Hc) as [Hp' Hrep]. split; [done|].
    intros o Ho. destruct (Hr o Ho) as [-> ->]. by apply Hrep.
Qed.

Lemma attempts_progress more ci s0 prior w r w' new :
  undo_apart (ci_Request ci) -> progress_of (ci_Request ci) s0 (worker_store w) prior ->
  attempts more (CommitWrite env ci) w = (r, w') -> worker_trace w' = new ++ worker_trace w -> all_audited new ->
  progress_of (ci_Request ci) s0 (worker_store w') (accepted new ++ prior) /\
  forall o, r = Done o -> reported (ci_Request ci) s0 (worker_store w') o.
Proof using L Rl.
  intros Hu. revert w prior new. induction more as [|more IH]; intros w prior new Hp H Ht Ha; cbn [attempts] in H;
    destruct (attempt (CommitWrite env ci) w) as [a w1] eqn:E.
  - assert ((a, w1) = (r, w')) as [= -> ->] by (by destruct a as [?|[]]). by eapply attempt_progress.
  - destruct a as [o|[? ? ? ?|e]]; [injection H as <- <-; by eapply attempt_progress..|].
    pose proof E as E1. apply (attempt_adds (fun _ => True)) in E1 as (n1 & T1 & _); [|done|].
    2: { intros x b x' Hx. apply CommitWrite_adds in Hx as (n & ? & _). eauto. }
    pose proof H as H1. apply (attempts_adds (fun _ => True)) in H1 as (n2 & T2 & _); [|done|done|].
    2: { intros x b x' Hx. apply CommitWrite_adds in Hx as (n & ? & _). eauto. }
    rewrite T2, T1, app_assoc in Ht. apply app_inv_tail in Ht as <-. apply all_audited_app in Ha as [A2 A1].
    destruct (attempt_progress _ _ _ _ _ _ _ Hu Hp E T1 A1) as [Hp1 _].
    destruct (IH _ _ _ Hp1 H T2 A2) as [Hp2 Hr]. split; [by rewrite accepted_app, <- app_assoc|done].
Qed.
End once.
