(* ===== verification/ActivityTheorems.v ===== *)
(** What runs do to their targets when workers die and answers get lost: every commit of a
    target is cleared, and written once. *)

From S2P Require Import Turgon Prelude GoStr GoErr Policy GuardData Idempotency Governor Guard GuardProps GuardTheorems ApiKinds RuntimeSpec.
From S2P Require Import Compiler Template Engine Workflow WorkflowTheorems Identity Mapping Activities ActivityProps.
From Stdlib Require Import String.

Section activities.
Context {T : Type} `{S : Store T} `{Vw : StoreView T} `{L : !StoreLaws T} (env : Env).
Context `{N : Numbers} `{X : Texts} `{J : Json} `{Q : Jsonata} `{U : Unicode} `{FM : FloatMath float64}.
Context {I : Type} `{V : Services I}.

(** Where a commit of a run's trace comes from: a write step's commit, which was prepared
    and approved in the run, or the undoing of a write the run committed. *)
Inductive origin_of (i : RunInput) (k : list call) (new : history) (tgt op key payload : string) (a : result string) : Prop :=
| from_commit pre ci ans post source later after before earlier :
    k = pre ++ CCommit ci ans :: post ->
    tgt = RTarget (ci_Request ci) -> op = ROperation (ci_Request ci) -> payload = RPayload (ci_Request ci) ->
    new = later ++ after ++ before ++ earlier -> EvCommit tgt op key payload a ∈ after ->
    cleared (with_key (ci_Request ci) key) (ci_Approval ci) before ->
    decode_document (sev_Payload (in_Event i)) = Ok source ->
    cleared_write (in_Workflow i) source (timeout_of i) pre ci ->
    origin_of i k new tgt op key payload a
| from_undo pre xi ans post :
    k = pre ++ CCompensate xi ans :: post -> (xi_Request xi, xi_Result xi) ∈ commits k ->
    tgt = RTarget (xi_Request xi) -> op = RCompensation (xi_Request xi) -> payload = xi_Result xi ->
    origin_of i k new tgt op key payload a.

Lemma compensation_in k pre xi ans post :
  k = pre ++ CCompensate xi ans :: post -> (xi_Request xi, xi_Result xi) ∈ compensations k.
Proof using. intros ->. unfold compensations. rewrite omap_app. apply elem_of_app. right. left. Qed.
End activities.

(** * Properties *)

(** C1: nothing reaches a target but by the rules, end to end. In a run of a compiled
    workflow served by workers over a write guard, whatever the outside answers, whenever
    workers die before an attempt and whichever answers get lost, every commit a target
    receives is either of a write step of the workflow, for the target, operation and
    payload that the run prepared and found to be no duplicate, with policy's recorded
    decision before it and, where policy, the recipe or a differing amount asked for it,
    the approval of the first matching signal; or it undoes, by the operation's
    compensation, a write that this run committed. *)
Theorem run_targets_cleared {T} `{L : StoreLaws T} (env : Env)
    `{N : Numbers} `{X : Texts} `{J : Json} `{Q : Jsonata} `{U : Unicode} `{FM : FloatMath float64} {I} `{V : Services I}
    (versions : string -> bool) (i : RunInput) (s s' : run (Worker T I)) (r : list WriteRecord * option failure) :
  let world := worker_world env versions in
  IntegrationWorkflow i s = (r, s') ->
  exists k new, ran s s' k /\ worker_trace (r_world s') = new ++ worker_trace (r_world s) /\
  forall tgt op key payload a, EvCommit tgt op key payload a ∈ new -> origin_of i k new tgt op key payload a.
Proof.
  intros world Hrun. pose proof (IntegrationWorkflow_accounted i _ _ _ Hrun) as (k & new & Hr & Ht & Ha).
  apply run_cleared in Hrun as (k' & Hr' & Hu & Hc). rewrite (ran_unique _ _ _ _ Hr' Hr) in *.
  exists k, new. split; [done|]. split; [exact Ht|]. intros tgt op key payload a Hin.
  destruct (accounts_commit _ _ _ _ _ _ _ Ha Hin) as (pre & c & post & later & mine & earlier & Hk & Hn & Hcause & Hm).
  destruct c as [| | |ci ans|xi ans| | | | | |]; try by (exfalso; eapply quiet_no_commit; [exact Hcause|exact Hm]).
  - destruct (Hcause _ _ _ _ _ Hm) as (-> & -> & -> & rq & key' & l & after & before & e & -> & -> & -> & Hafter & Hcl).
    destruct (Hc _ _ _ _ Hk) as (source & Hd & Hw).
    apply (from_commit i k new _ _ _ _ _ pre ci ans post source (later ++ l) after before (e ++ earlier)); try done.
    rewrite Hn. by rewrite <- !app_assoc.
  - destruct (Hcause _ _ _ _ _ Hm) as (-> & -> & ->). apply (from_undo i k new _ _ _ _ _ pre xi ans post); try done.
    by eapply Hu, compensation_in.
Qed.


(** * Witnesses *)

Module Desk.
#[local] Instance numbers : Numbers := {|
  format_float := fun _ => "1"; sprint_float := fun _ => "1"; float_value := fun _ => 0%float;
  parse_float := fun _ => None; decode_json := fun _ => None |}.
#[local] Instance texts : Texts := {|
  sprintf := fun m => match m with Msg f _ => f end; error_text := fun _ => "error"; format_time := fun _ => "later";
  RequiredFields := fun _ => [] |}.
#[local] Instance documents : Json := {|
  decode_document := fun s => Ok (list_to_map [("id", JStr s)]); decode_value := fun s => Some (JStr s);
  decode_object := fun _ => None; encode_document := fun _ => Some "{}"; RequestDigest := fun r => RKey r |}.
#[local] Instance no_jsonata : Jsonata :=
  {| jx_expr := unit; jx_compile := fun _ => Ok tt; jx_eval := fun _ _ => Ok JNull; jx_text := fun _ => "" |}.
#[local] Instance ascii_only : Unicode :=
  {| rune_lower := id; rune_upper := id; rune_letter := fun _ => true; rune_digit := fun _ => true |}.
#[local] Instance no_math : FloatMath float64 := {| f_log := id; f_exp := id; f_round := id |}.
(** Services that are the number of plugin runs. *)
#[local] Instance plugins_only : Services nat := {|
  has_resolver := false; can_match := false; has_models := false; has_splink := false; has_audit := false; has_plugins := true;
  sv_Xref := fun _ _ _ i => (Ok None, i); sv_Candidates := fun _ _ i => (Ok [], i); sv_Link := fun _ _ _ _ _ i => (None, i);
  sv_MatchModel := fun _ i => (Ok None, i); sv_Suggest := fun _ _ _ i => (NoSplinkModel, i); sv_Record := fun _ _ _ i => (None, i);
  sv_Run := fun _ i => (None, Datatypes.S i); sv_Notify := fun _ i => i |}.

(** One write, which a plugin follows and a person must approve. *)
Definition write : WriteConfig :=
  mkWriteConfig "erp" "create-order" "create-order" "rfc" RiskLow "SalesOrder" "{{source.id}}" "" "required" "cancel-order" false
    "" "SalesOrder.created" ["labels"] "" None.
Definition flow : Workflow :=
  mkWorkflow "orders" (mkWorkflowSource "crm" "" "won" "" "") [mkWorkflowStep "01-write" None None (Some write)] None [].
Definition event (id : string) : RunInput := mkRunInput "" flow (mkSourceEvent id 1 "won" id) 0 "".

Definition worker (fates : list fate) : Worker MemoryStore nat :=
  mkWorker (mkActivities guard0 ∅ 0) fates 0 [(5%Z, mkApprovalSignal "01-write" "opp-9" ApprovalApproved "ada" "")].
Definition start (fates : list fate) : run (Worker MemoryStore nat) := mkRun (worker fates) [] None.
Definition lost : fate := AnswerLost (Sentinel "connection reset").
Definition killed : fate := DiesBefore (Sentinel "worker stopped").

Definition run_with (env : Env) (fates : list fate) :=
  IntegrationWorkflow (A := worker_world env (fun _ => true)) (event "opp-9") (start fates).

(** A worker dies before preparing, and the answer of the commit is lost. *)
Lemma run_targets_cleared_witness :
  snd (fst (run_with calm_env [killed; Runs; lost])) = None /\
  List.filter GuardProps.is_commit (worker_trace (r_world (snd (run_with calm_env [killed; Runs; lost])))) =
    [EvCommit "erp" "create-order" "opp-9" "{}" (Ok "document for opp-9")] /\
  exists k, ran (start [killed; Runs; lost]) (snd (run_with calm_env [killed; Runs; lost])) k.
Proof.
  split; [vm_compute; reflexivity|]. split; [vm_compute; reflexivity|].
  destruct (run_targets_cleared calm_env (fun _ => true) (event "opp-9") (start [killed; Runs; lost]) _ _
    (surjective_pairing (run_with calm_env [killed; Runs; lost]))) as (k & new & Hk & _). exists k. exact Hk.
Defined.

Definition commit_input : CommitInput := mkCommitInput (order "cancel-order" true) granted.


(** ** What lost answers cost *)

(** The plugins of a write run once its commit answers; when that answer is lost the
    retry answers "duplicate" and they never run. *)
Lemma lost_answer_skips_plugins :
  snd (fst (run_with calm_env [])) = None /\ ax_services (wk_acts (r_world (snd (run_with calm_env [])))) = 1 /\
  snd (fst (run_with calm_env [Runs; lost])) = None /\ ax_services (wk_acts (r_world (snd (run_with calm_env [Runs; lost])))) = 0.
Proof. vm_compute. auto. Qed.

(** A target that cannot confirm its writes has the same effect without any lost answer. *)
Definition unconfirming : Env :=
  mkEnv (e_now calm_env) (e_decide calm_env) (e_audit calm_env) None (e_approve calm_env) (e_slot calm_env) (e_ctx_err calm_env)
    (e_simulate calm_env) (e_commit calm_env) (fun _ => Some (fun _ _ _ => Some (Sentinel "still posting"))) (e_read calm_env).

Lemma unconfirmed_write_skips_plugins :
  snd (fst (run_with unconfirming [])) = None /\ ax_services (wk_acts (r_world (snd (run_with unconfirming [])))) = 0 /\
  wr_Status <$> fst (fst (run_with unconfirming [])) = [StatusDuplicate].
Proof. vm_compute. auto. Qed.

(** An undoing whose answer is lost is done again: the target cancels twice. *)
Lemma lost_answer_undoes_twice :
  let w := snd (attempts 7 (CommitWrite calm_env commit_input) (worker [])) in
  let w := mkWorker (wk_acts w) [lost] 0 [] in
  let undone := attempts 7 (Compensate calm_env (mkCompensateInput (order "cancel-order" true) "document for opp-9")) w in
  fst undone = Done tt /\
  List.filter GuardProps.is_commit (worker_trace (snd undone)) =
    [EvCommit "erp" "cancel-order" "opp-9~2#compensate" "document for opp-9" (Ok "document for opp-9~2#compensate");
     EvCommit "erp" "cancel-order" "opp-9#compensate" "document for opp-9" (Ok "document for opp-9#compensate");
     EvCommit "erp" "create-order" "opp-9" "{}" (Ok "document for opp-9")].
Proof. vm_compute. auto. Qed.
End Desk.
