(* ===== verification/ResolveTheorems.v ===== *)
(** What resolving a record does to the cross-reference: the calls [Resolve] makes of its
    services, and which links they leave. *)

From S2P Require Import Turgon Prelude GoStr GoErr Policy GuardData Idempotency Governor Guard ApiKinds RuntimeSpec.
From S2P Require Import Compiler Template Engine Workflow WorkflowTheorems Identity Mapping Activities ActivityProps GuardTheorems ActivityTheorems.
From Stdlib Require Import String.

(** A call of a service and its answer. *)
#[warnings="-register-all"]
Inductive scall :=
| SXref (entity system ref : string) (r : result (option string))
| SCandidates (entity : string) (attrs : Attributes) (r : result (list Candidate))
| SLink (entity system ref master : string) (attrs : Attributes) (err : option goerr)
| SModel (entity : string) (r : result (option (Model float64)))
| SSuggest (entity : string) (attrs : Attributes) (limit : nat) (r : splink_reply)
| SRecord (actor action : string) (m : MatchRecord) (err : option goerr)
| SRun (i : PluginInput) (r : option (bool * goerr))
| SNotify (n : Notification).

Section logged.
Context {I : Type} `{V : Services I}.

(** Services that keep a log of their calls, latest first. *)
Definition note {A} (ev : A -> scall) (f : I -> A * I) (s : I * list scall) : A * (I * list scall) :=
  let (a, i) := f (fst s) in (a, (i, ev a :: snd s)).

#[export] Instance logged_services : Services (I * list scall) := {|
  has_resolver := has_resolver; can_match := can_match; has_models := has_models; has_splink := has_splink;
  has_audit := has_audit; has_plugins := has_plugins;
  sv_Xref := fun entity system ref => note (SXref entity system ref) (sv_Xref entity system ref);
  sv_Candidates := fun entity attrs => note (SCandidates entity attrs) (sv_Candidates entity attrs);
  sv_Link := fun entity system ref master attrs => note (SLink entity system ref master attrs) (sv_Link entity system ref master attrs);
  sv_MatchModel := fun entity => note (SModel entity) (sv_MatchModel entity);
  sv_Suggest := fun entity attrs limit => note (SSuggest entity attrs limit) (sv_Suggest entity attrs limit);
  sv_Record := fun actor action m => note (SRecord actor action m) (sv_Record actor action m);
  sv_Run := fun p => note (SRun p) (sv_Run p);
  sv_Notify := fun n s => (sv_Notify n (fst s), SNotify n :: snd s)
|}.
End logged.

(** The links a log made or tried to. *)
Definition is_link (c : scall) : Prop := match c with SLink _ _ _ _ _ _ => True | _ => False end.

(** Where a record's suggestions come from: the Splink service, or the built-in scores of
    the candidates under the model trained on the deployment's links or the default. *)
Definition scored `{FM : FloatMath float64} (cfg : ResolveConfig) (entity : string) (attrs : Attributes) (k : list scall)
    (l : list (suggestion float64)) : Prop :=
  (rcf_Strategy cfg = StrategySplink /\ exists records masters, SSuggest entity attrs 3 (SplinkSuggested l records masters) ∈ k) \/
  (rcf_Strategy cfg = StrategyProbabilistic /\ exists candidates model,
    SCandidates entity attrs (Ok candidates) ∈ k /\ Suggest (Compare_records model) attrs candidates 3 = Some l /\
    (model = Default \/ SModel entity (Ok (Some model)) ∈ k)).

Section resolve.
Context {T : Type} `{S : Store T}.
Context `{N : Numbers} `{X : Texts} `{J : Json} `{Q : Jsonata} `{U : Unicode} `{FM : FloatMath float64}.
Context {I : Type} `{V : Services I}.
#[local] Abbreviation Acts := (Activities T (I * list scall)).
Implicit Types x : Acts.

(** The calls between two states, oldest first. *)
Definition logs x x' (k : list scall) : Prop := snd (ax_services x') = List.rev k ++ snd (ax_services x).

Lemma logs_nil x : logs x x [].
Proof using. done. Qed.

Lemma logs_app x x1 x2 k1 k2 : logs x x1 k1 -> logs x1 x2 k2 -> logs x x2 (k1 ++ k2).
Proof using. unfold logs. intros H1 H2. by rewrite H2, H1, List.rev_app_distr, app_assoc. Qed.

Lemma service_inv {A} (ev : A -> scall) (f : I -> A * I) x a x' :
  service (T := T) (note ev f) x = (a, x') -> logs x x' [ev a].
Proof using. unfold service, note. destruct (f (fst (ax_services x))) as [b i]. by intros [= <- <-]. Qed.

(** Take the leading service call of a computation apart. *)
Ltac called H a x1 H1 := apply act_bind_inv in H as (a & x1 & H1 & H); apply service_inv in H1.

Lemma splink_scoring_inv cfg entity attrs x s x' :
  splink_scoring cfg entity attrs x = (s, x') ->
  exists k, logs x x' k /\ Forall (fun c => ~ is_link c) k /\
    match s with
    | Done s => if String.eqb (sc_scorer s) "" then sc_suggestions s = []
                else rcf_Strategy cfg = StrategySplink /\
                  exists records masters, SSuggest entity attrs 3 (SplinkSuggested (sc_suggestions s) records masters) ∈ k
    | Failed (App _ _ d _) => d = None
    | Failed (Fault _) => True
    end.
Proof using.
  unfold splink_scoring. destruct (String.eqb_spec (rcf_Strategy cfg) StrategySplink) as [Es|]; cbn [andb].
  2: { intros [= <- <-]. exists []. by repeat constructor. }
  destruct (can_match && _); [|intros [= <- <-]; exists []; by repeat constructor].
  destruct (negb has_splink); [intros [= <- <-]; exists []; by repeat constructor|].
  intros H. called H a x1 H1. injection H as <- <-. eexists. split; [exact H1|].
  split; [constructor; [by intros []|constructor]|]. destruct a as [l records masters| |e|e]; try done.
  cbn. split; [done|]. exists records, masters. left.
Qed.

Lemma match_model_inv entity x m x' :
  match_model entity x = (m, x') ->
  exists k, logs x x' k /\ Forall (fun c => ~ is_link c) k /\
    forall model, m = Ok model -> model = Default \/ SModel entity (Ok (Some model)) ∈ k.
Proof using.
  unfold match_model. destruct (negb has_models).
  - intros [= <- <-]. exists []. split; [done|]. split; [constructor|]. intros model [= <-]. by left.
  - intros H. called H a x1 H1. injection H as <- <-. eexists. split; [exact H1|].
    split; [constructor; [by intros []|constructor]|]. intros model. destruct a as [[m|]|e]; intros [= <-]; [right; left|by left].
Qed.

Lemma builtin_scoring_inv entity attrs why x s x' :
  builtin_scoring entity attrs why x = (s, x') ->
  exists k, logs x x' k /\ Forall (fun c => ~ is_link c) k /\
    match s with
    | Done s => sc_scorer s = "" /\ exists candidates model, SCandidates entity attrs (Ok candidates) ∈ k /\
        Suggest (Compare_records model) attrs candidates 3 = Some (sc_suggestions s) /\
        (model = Default \/ SModel entity (Ok (Some model)) ∈ k)
    | Failed (App _ _ d _) => d = None
    | Failed (Fault _) => True
    end.
Proof using.
  unfold builtin_scoring. intros H. called H a x1 H1. destruct a as [candidates|e].
  2: { injection H as <- <-. eexists. split; [exact H1|]. split; [|done]. constructor; [by intros []|constructor]. }
  apply act_bind_inv in H as (m & x2 & H2 & H). apply match_model_inv in H2 as (k2 & R2 & L2 & Hm). injection H as <- <-.
  exists ([SCandidates entity attrs (Ok candidates)] ++ k2). split; [by apply (logs_app x x1)|].
  split; [apply Forall_app; split; [constructor; [by intros []|constructor]|done]|].
  destruct m as [model|e]; [|done]. destruct (Suggest _ attrs candidates 3) as [l|] eqn:El; [|done]. split; [done|].
  exists candidates, model. split; [left|]. split; [done|]. destruct (Hm model eq_refl) as [->|Hin]; [by left|right; by right].
Qed.

Lemma score_record_inv cfg entity attrs x s x' :
  score_record cfg entity attrs x = (s, x') ->
  exists k, logs x x' k /\ Forall (fun c => ~ is_link c) k /\
    match s with
    | Done s => automatic cfg s = true -> sc_suggestions s = [] \/ scored cfg entity attrs k (sc_suggestions s)
    | Failed (App _ _ d _) => d = None
    | Failed (Fault _) => True
    end.
Proof using.
  unfold score_record. intros H. apply act_bind_inv in H as (s1 & x1 & H1 & H). apply splink_scoring_inv in H1 as (k1 & R1 & L1 & Hs).
  destruct s1 as [s1|f]; [|injection H as <- <-; by exists k1].
  destruct (String.eqb_spec (sc_scorer s1) "") as [E|E]; cbn [andb] in H.
  - destruct (can_match && _).
    + apply builtin_scoring_inv in H as (k2 & R2 & L2 & H2). exists (k1 ++ k2). split; [by apply (logs_app x x1)|].
      split; [by apply Forall_app|]. destruct s as [s|f]; [|done]. destruct H2 as (Es & candidates & model & Hc & Hl & Hm).
      unfold automatic. rewrite Es. destruct (String.eqb_spec (rcf_Strategy cfg) StrategyProbabilistic) as [Ep|]; cbn [orb];
        [|by rewrite andb_false_r]. intros _. right. right. split; [done|]. exists candidates, model.
      split; [apply elem_of_app; by right|]. split; [done|]. destruct Hm as [->|Hm]; [by left|]. right. apply elem_of_app. by right.
    + injection H as <- <-. exists k1. split; [done|]. split; [done|]. intros _. by left.
  - injection H as <- <-. exists k1. split; [done|]. split; [done|]. intros _. right. by left.
Qed.

(** The audit entry of a link. *)
Definition entry_of (cfg : ResolveConfig) (entity system ref master : string) (l : list (suggestion float64)) (m : MatchRecord) : Prop :=
  exists best others, l = best :: others /\ su_Master best = master /\
    mr_entity m = entity /\ mr_system m = system /\ mr_ref m = ref /\ mr_master m = master /\
    mr_score m = su_Score best /\ mr_reasons m = su_Reasons best /\ mr_threshold m = rcf_AutoMatchAbove cfg.

(** How matching a record without a cross-reference ends: without a link, or with one, of
    the certain match among its suggestions, which is then recorded in the audit log. *)
Inductive matched (cfg : ResolveConfig) (entity system ref : string) (attrs : Attributes) : list scall -> answer string -> Prop :=
| unlinked k f : Forall (fun c => ~ is_link c) k ->
    (forall t m u c, f = App t m (Some u) c -> t = ErrTypeUnresolved /\ un_Ref u = ref /\ un_Attributes u = attrs) ->
    matched cfg entity system ref attrs k (Failed f)
| linked k l master err audit r : Forall (fun c => ~ is_link c) k -> Forall (fun c => ~ is_link c) audit ->
    scored cfg entity attrs k l -> Decide_match l (rcf_AutoMatchAbove cfg) = Some master ->
    match err with
    | Some e => audit = [] /\ r = Failed (Fault e)
    | None =>
        if has_audit (I := I * list scall) then exists m aerr, audit = [SRecord "turgon/resolver" "xref.matched" m aerr] /\
            entry_of cfg entity system ref master l m /\ r = match aerr with None => Done master | Some e => Failed (Fault e) end
        else audit = [] /\ r = Done master
    end ->
    matched cfg entity system ref attrs (k ++ SLink entity system ref master attrs err :: audit) r.

Lemma Decide_match_head (l : list (suggestion float64)) threshold master :
  Decide_match l threshold = Some master -> exists best others, l = best :: others /\ su_Master best = master.
Proof using.
  unfold Decide_match. destruct l as [|best others]; [done|]. destruct (f_ltb _ _); [done|].
  destruct others; [|destruct (f_leb _ _); [done|]]; intros [= <-]; eauto.
Qed.

Lemma match_new_inv cfg entity system ref doc x r x' :
  match_new cfg entity system ref doc x = (r, x') ->
  exists k, logs x x' k /\ matched cfg entity system ref (Extract sprint_float doc (rcf_Match cfg)) k r.
Proof using.
  unfold match_new. cbv zeta. set (attrs := Extract _ _ _). intros H.
  apply act_bind_inv in H as (s & x1 & H1 & H). apply score_record_inv in H1 as (k & R & Lk & Hs).
  destruct s as [s|f]; [|injection H as <- <-; exists k; split; [done|]; apply unlinked; [done|]; by intros t m u c ->].
  assert (Hun : (r, x') = (Failed (to_steward entity system ref attrs s), x1) -> exists k, logs x x' k /\ matched cfg entity system ref attrs k r).
  { intros [= -> ->]. exists k. split; [done|]. apply unlinked; [done|]. by intros t m u c [= <- <- <- <-]. }
  destruct (Decide_match _ _) as [master|] eqn:Ed; [|apply Hun; by injection H as <- <-].
  destruct (automatic cfg s) eqn:Ea; [|apply Hun; by injection H as <- <-]. clear Hun.
  destruct (Decide_match_head _ _ _ Ed) as (best & others & El & Em).
  assert (Hsc : scored cfg entity attrs k (sc_suggestions s)) by (destruct (Hs eq_refl) as [E|?]; [by rewrite E in El|done]).
  called H err x2 H2. destruct err as [e|].
  { injection H as <- <-. eexists. split; [exact (logs_app x x1 x2 _ _ R H2)|]. apply (linked _ _ _ _ _ k (sc_suggestions s)); done. }
  apply act_bind_inv in H as (aerr & x3 & H3 & H). injection H as <- <-.
  pose proof (logs_app x x1 x2 _ _ R H2) as R2. destruct (has_audit (I := I * list scall)) eqn:Hau.
  - apply service_inv in H3. eexists. split; [exact (logs_app x x2 x3 _ _ R2 H3)|]. rewrite <- app_assoc.
    apply (linked _ _ _ _ _ k (sc_suggestions s)); [done|constructor; [by intros []|constructor]|done|done|].
    rewrite Hau. eexists _, aerr. split; [done|]. split; [|by destruct aerr].
    exists best, others. unfold match_record. rewrite El. cbn. by repeat split.
  - injection H3 as <- <-. eexists. split; [exact R2|].
    apply (linked _ _ _ _ _ k (sc_suggestions s)); [done|constructor|done|done|by rewrite Hau].
Qed.
End resolve.

(** * Properties *)

(** resolving a record links it only when that is safe. [Resolve] changes nothing in
    the document but its master field. It asks for the record's cross-reference once and
    uses it as it is when there is one; without one it links the record at most once, and
    only under the probabilistic strategy or scored by the Splink service, to the master
    that [Decide] picks from the suggestions for the attributes the recipe's match fields
    give, with an audit entry of the link, its score, reasons and threshold before the
    step answers; every record it does not link it hands to a steward, with its reference
    in the details only, or fails. *)
Theorem Resolve_links_certain_matches {T} `{S : Store T}
    `{N : Numbers} `{X : Texts} `{J : Json} `{Q : Jsonata} `{U : Unicode} `{FM : FloatMath float64} {I} `{V : Services I}
    (i : ResolveInput) (x x' : Activities T (I * list scall)) (r : answer document) :
  Resolve i x = (r, x') ->
  let cfg := ri_Config i in
  let entity := trim_prefix "model." (rcf_Entity cfg) in
  exists k, logs x x' k /\
  ((exists f, k = [] /\ r = Failed f) \/
   exists ref, ri_Doc i !! fst (Fields cfg) = Some (JStr ref) /\ ref <> "" /\
    ((exists e, k = [SXref entity (ri_System i) ref (Err e)] /\ r = Failed (Fault e)) \/
     (exists id, k = [SXref entity (ri_System i) ref (Ok (Some id))] /\ r = Done (<[snd (Fields cfg) := JStr id]> (ri_Doc i))) \/
     exists k' a, k = SXref entity (ri_System i) ref (Ok None) :: k' /\
       matched cfg entity (ri_System i) ref (Extract sprint_float (ri_Doc i) (rcf_Match cfg)) k' a /\
       r = match a with Done id => Done (<[snd (Fields cfg) := JStr id]> (ri_Doc i)) | Failed f => Failed f end)).
Proof.
  intros Hrun cfg entity. unfold Resolve in Hrun. cbv zeta in Hrun. fold cfg entity in Hrun. destruct (Fields cfg) as [ref_field into].
  destruct (negb (existsb _ _)); [injection Hrun as <- <-; exists []; split; [done|]; left; eauto|].
  destruct (negb has_resolver); [injection Hrun as <- <-; exists []; split; [done|]; left; eauto|].
  destruct (String.eqb_spec (match ri_Doc i !! ref_field with Some (JStr s) => s | _ => "" end) "") as [|Nr];
    [injection Hrun as <- <-; exists []; split; [done|]; left; eauto|].
  assert (exists ref, ri_Doc i !! ref_field = Some (JStr ref) /\ ref <> "") as (ref & Eref & Hne)
    by (destruct (ri_Doc i !! ref_field) as [[]|]; try done; eauto). rewrite Eref in Hrun.
  apply act_bind_inv in Hrun as (id & x1 & H1 & Hrun). apply service_inv in H1.
  assert (Hk : forall k', logs x1 x' k' -> logs x x' (SXref entity (ri_System i) ref id :: k')) by (intros k' H2; exact (logs_app x x1 x' [_] k' H1 H2)).
  destruct id as [[id|]|e].
  - injection Hrun as <- <-. eexists. split; [exact H1|]. right. exists ref. split; [done|]. split; [done|]. right. left. eauto.
  - apply act_bind_inv in Hrun as (a & x2 & H2 & Hrun). injection Hrun as <- <-. apply match_new_inv in H2 as (k' & R2 & Hm).
    exists (SXref entity (ri_System i) ref (Ok None) :: k'). split; [by apply Hk|]. right. exists ref. split; [done|]. split; [done|].
    right. right. exists k', a. by repeat split.
  - injection Hrun as <- <-. eexists. split; [exact H1|]. right. exists ref. split; [done|]. split; [done|]. left. eauto.
Qed.

(** * Witnesses *)

Module Registry.
#[local] Existing Instances Desk.numbers Desk.texts Desk.documents Desk.no_jsonata Desk.ascii_only Desk.no_math.

(** A cross-reference of one record, a Splink service sure of its master, and an audit log
    that may be full. *)
#[local] Instance one_record (full : bool) : Services (option string) := {|
  has_resolver := true; can_match := true; has_models := false; has_splink := true; has_audit := true; has_plugins := false;
  sv_Xref := fun _ _ _ i => (Ok i, i); sv_Candidates := fun _ _ i => (Ok [], i);
  sv_Link := fun _ _ _ master _ i => (None, Some master);
  sv_MatchModel := fun _ i => (Ok None, i);
  sv_Suggest := fun _ _ _ i => (SplinkSuggested [mkSuggested "M1" 1%float ["same email address"]] 40 20, i);
  sv_Record := fun _ _ _ i => (if full then Some (Sentinel "disk full") else None, i);
  sv_Run := fun _ i => (None, i); sv_Notify := fun _ i => i |}.

Definition customer : document := list_to_map [("customerRef", JStr "C-7"); ("vat", JStr "DE12")].
Definition by_splink : ResolveConfig := mkResolveConfig "model.Customer" StrategySplink 0.5%float [mkMatchField "vat" MatchExact] "" "".
Definition resolving : ResolveInput := mkResolveInput by_splink "crm" customer.
Definition acts : Activities MemoryStore (option string * list scall) := mkActivities guard0 ∅ (None, []).

Lemma Resolve_links_certain_matches_witness :
  fst (Resolve (V := logged_services (V := one_record false)) resolving acts) = Done (<["customerId" := JStr "M1"]> customer) /\
  exists k, logs acts (snd (Resolve (V := logged_services (V := one_record false)) resolving acts)) k.
Proof.
  split; [vm_compute; reflexivity|].
  destruct (Resolve_links_certain_matches (V := one_record false) resolving acts
    (snd (Resolve (V := logged_services (V := one_record false)) resolving acts))
    (fst (Resolve (V := logged_services (V := one_record false)) resolving acts))) as (k & Hk & _); [apply surjective_pairing|].
  exists k. exact Hk.
Defined.

Definition accepted_entry (c : scall) : bool := match c with SRecord _ _ _ None => true | _ => false end.

(** A link whose audit entry is refused stays, and the retry finds it: the step succeeds
    and no entry is ever written. *)
Lemma unaudited_link_stays :
  let w := mkWorker acts [] 0 [] in
  let done := attempts 7 (Resolve (V := logged_services (V := one_record true)) resolving) w in
  fst done = Done (<["customerId" := JStr "M1"]> customer) /\
  fst (ax_services (wk_acts (snd done))) = Some "M1" /\
  List.filter accepted_entry (snd (ax_services (wk_acts (snd done)))) = [].
Proof. vm_compute. auto. Qed.
End Registry.
