(* ===== verification/AgentTheorems.v ===== *)
(** What an agent's write does to its target: it is prepared, cleared and committed at
    most once, and the agent is told how it ended. *)

From S2P Require Import Turgon Prelude GoStr GoErr Policy GuardData Idempotency Governor Guard GuardProps GuardTheorems ApiKinds RuntimeSpec.
From S2P Require Import Compiler Template Engine AgentData Workflow WorkflowTheorems Identity Mapping Activities ActivityProps ActivityTheorems AgentWrites.
From Stdlib Require Import String.

(** A world over a guard that prepares agents' requests and notifies agents. *)
Class GuardedAgentWorld (W : Type) `{G : GuardedWorld W} `{AW : !AgentWorld W} := {
  ga_prepare req w r w' : w_prepare_agent req w = (r, w') -> exists new, w_trace w' = new ++ w_trace w /\ quiet new;
  ga_deliver l w : w_trace (w_deliver l w) = w_trace w;
  ga_detach l w : w_trace (w_detach l w) = w_trace w
}.

Section accounting.
Context {W : Type} `{GA : GuardedAgentWorld W} `{X : Texts} `{J : Json}.

Lemma push_with_accounted (send : list AgentPushInput -> W -> W) on l tool st :
  (forall i w, w_trace (send i w) = w_trace w) -> accounted (push_with send on l tool st).
Proof using.
  intros Hs. unfold push_with. destruct on, l; try apply ret_accounted. cbv zeta. apply call_accounted.
  intros w ? w' [= <- <-]. exists []. split; [apply Hs|constructor].
Qed.

Lemma agentWrite_accounted i on l : accounted (agentWrite i on l).
Proof using GA.
  unfold agentWrite, agent_approve. cbv zeta. account; try (by apply silent_accounted); auto using tell_accounted, awaitApproval_accounted.
  all: first [intros ? ? ?; apply ga_prepare|intros ? ? ?; apply gw_commit|apply push_with_accounted; intros; apply ga_deliver].
Qed.

Lemma AgentWriteWorkflow_accounted i : accounted (AgentWriteWorkflow i).
Proof using GA.
  unfold AgentWriteWorkflow. cbv zeta. apply bind_accounted; [by apply silent_accounted|]. intros on.
  apply bind_accounted; [apply agentWrite_accounted|]. intros r. apply bind_accounted; [by apply silent_accounted|]. intros l.
  apply bind_accounted; [apply push_with_accounted; intros; apply ga_detach|]. intros. apply ret_accounted.
Qed.
End accounting.

Lemma side_quiet c new : side c -> caused c new -> quiet new.
Proof. by destruct c. Qed.

(** The calls of an agent's write: at most one commits, of the prepared request. *)
Lemma agent_ran_call `{J : Json} `{X : Texts} req timeout k writes e c :
  agent_ran req timeout k writes e -> c ∈ k ->
  side c \/ (exists r, c = CPrepareAgent req r) \/
  exists prep wait ap r, k = CPrepareAgent req (Done prep) :: wait ++ [c] /\
    c = CCommit (mkCommitInput (agent_request req prep) ap) r /\ PDuplicate prep = None /\
    agent_approval (agent_request req prep) prep timeout wait ap.
Proof.
  intros [f|prep d _|prep wait ap r Hd Hw Hap] Hc; (apply elem_of_cons in Hc as [->|Hc]; [right; left; eauto|]).
  1,2: by apply elem_of_nil in Hc.
  apply elem_of_app in Hc as [Hc|Hc]; [left; rewrite Forall_forall in Hw; by apply Hw|].
  apply list_elem_of_singleton in Hc as ->. right. right. by exists prep, wait, ap, r.
Qed.

(** ** Workers *)

Section workers.
Context {T : Type} `{S : Store T} `{Vw : StoreView T} `{L : !StoreLaws T} (env : Env).
Context `{N : Numbers} `{X : Texts} `{J : Json} `{Q : Jsonata} `{U : Unicode} `{FM : FloatMath float64}.
Context {I : Type} `{V : Services I} (versions : string -> bool) (arrived : Worker T I -> list push_signal).

(** A worker serves agents' writes too; [arrived] says which signals about notifications
    have come in, and agents' receivers are outside. *)
Definition worker_agent_world : AgentWorld (Worker T I) (A := worker_world env versions) := {|
  w_prepare_agent := fun req => attempts activity_retries (PrepareAgentWrite env req);
  w_push_signals := arrived;
  w_deliver := fun _ w => w;
  w_detach := fun _ w => w
|}.

Lemma PrepareAgentWrite_adds req : adds quiet (PrepareAgentWrite (I := I) env req).
Proof using L.
  intros x r x' H. unfold PrepareAgentWrite in H. destruct (g_targets (ax_Guard x) !! RTarget req).
  2: { injection H as <- <-. exists []. split; [done|constructor]. }
  apply act_bind_inv in H as ([p err] & x1 & H1 & H). injection H as _ <-.
  apply on_guard_inv, Prepare_inv in H1 as (_ & new & Ht & Hq & _). eauto.
Qed.

#[local] Arguments attempts : simpl never.

Lemma worker_guarded_agent : GuardedAgentWorld (Worker T I) (G := worker_guarded env versions) (AW := worker_agent_world).
Proof using L.
  split; cbn.
  - intros req w r w'. apply attempts_quiet, PrepareAgentWrite_adds.
  - done.
  - done.
Qed.
End workers.

(** * Properties *)

(** C5: an agent's write reaches its target only by the rules. Of the commits a target
    receives in a run of the write's workflow, over workers that may die and answers that
    may be lost, each is for the target, operation and payload the agent asked for, under a
    key of this request; policy allowed it, with the decision recorded before; the guard
    prepared it and found no duplicate; and where policy, the request or a dry run with
    another amount asks for a person, the first signal about this step and this exact
    request approved it. The run commits through a single activity, its answer decides what
    is reported, and at most five receivers, each once, are told how it ended. *)
Theorem agent_targets_cleared {T} `{L : StoreLaws T} (env : Env)
    `{N : Numbers} `{X : Texts} `{J : Json} `{Q : Jsonata} `{U : Unicode} `{FM : FloatMath float64} {I} `{V : Services I}
    (versions : string -> bool) (arrived : Worker T I -> list push_signal)
    (i : AgentWriteInput) (s s' : run (Worker T I)) (writes : list WriteRecord) (e : option failure) :
  let world := worker_world env versions in
  let agents := worker_agent_world env versions arrived in
  AgentWriteWorkflow i s = ((writes, e), s') ->
  exists k pushed new, ran s s' (k ++ pushed) /\ worker_trace (r_world s') = new ++ worker_trace (r_world s) /\
    agent_ran (aw_Request i) (agent_timeout i) k writes e /\
    (pushed = [] \/ exists l, distinct_configs l /\ l <> [] /\
      pushed = [CPush (push_inputs l (RTool (aw_Request i)) (statusOf writes e))]) /\
    forall tgt op key payload a, EvCommit tgt op key payload a ∈ new ->
      tgt = RTarget (aw_Request i) /\ op = ROperation (aw_Request i) /\ payload = RPayload (aw_Request i) /\
      exists prep wait ap r later after before earlier,
        k = CPrepareAgent (aw_Request i) (Done prep) :: wait ++ [CCommit (mkCommitInput (agent_request (aw_Request i) prep) ap) r] /\
        PDuplicate prep = None /\ agent_approval (agent_request (aw_Request i) prep) prep (agent_timeout i) wait ap /\
        new = later ++ after ++ before ++ earlier /\ EvCommit tgt op key payload a ∈ after /\
        cleared (with_key (agent_request (aw_Request i) prep) key) ap before.
Proof.
  intros world agents Hrun.
  pose proof (AgentWriteWorkflow_accounted (GA := worker_guarded_agent env versions arrived) i _ _ _ Hrun) as (k0 & new & Hr0 & Ht & Ha).
  apply AgentWriteWorkflow_inv in Hrun as (k & pushed & Hr & Hk & Hp). rewrite (ran_unique _ _ _ _ Hr0 Hr) in Ha.
  exists k, pushed, new. split; [done|]. split; [exact Ht|]. split; [done|]. split; [done|].
  intros tgt op key payload a Hin. destruct (accounts_commit _ _ _ _ _ _ _ Ha Hin) as (pre & c & post & later & mine & earlier & Ek & En & Hc & Hm).
  assert (Hc' : side c \/ c ∈ k).
  { assert (Hck : c ∈ k ++ pushed) by (rewrite Ek; apply elem_of_app; right; left). apply elem_of_app in Hck as [?|Hck]; [by right|].
    destruct Hp as [->|(l & _ & _ & ->)]; [by apply elem_of_nil in Hck|]. apply list_elem_of_singleton in Hck as ->. by left. }
  assert (Hn : ~ quiet mine) by (intros Hq; by eapply quiet_no_commit).
  destruct Hc' as [Hs|Hck]; [by destruct Hn; eapply side_quiet|].
  destruct (agent_ran_call _ _ _ _ _ _ Hk Hck) as [Hs|[(r & ->)|(prep & wait & ap & r & Ek' & -> & Hd & Hap)]];
    [by destruct Hn; eapply side_quiet|by destruct Hn|].
  destruct (Hc _ _ _ _ _ Hm) as (-> & -> & -> & rq & key' & l & after & before & e' & -> & -> & -> & Hafter & Hcl). cbn [ci_Request ci_Approval] in *.
  assert (RTarget (agent_request (aw_Request i) prep) = RTarget (aw_Request i) /\
    ROperation (agent_request (aw_Request i) prep) = ROperation (aw_Request i) /\
    RPayload (agent_request (aw_Request i) prep) = RPayload (aw_Request i)) as (E1 & E2 & E3)
    by (unfold agent_request; by destruct (String.eqb _ _)).
  rewrite E1, E2, E3 in *. do 3 (split; [done|]).
  exists prep, wait, ap, r, (later ++ l), after, before, (e' ++ earlier).
  do 3 (split; [done|]). split; [rewrite En; by rewrite <- !app_assoc|]. done.
Qed.

(** * Witness *)

Module AgentDesk.
#[local] Existing Instances Desk.numbers Desk.texts Desk.documents Desk.no_jsonata Desk.ascii_only Desk.no_math Desk.plugins_only.

Definition asked : AgentWriteInput := mkAgentWriteInput "create_order" (order "cancel-order" true) 0 [mkPushConfig "1" "https://agent" "" [] ""].

(** A person approves the write; a worker dies before preparing it, and the answer of its
    commit is lost. *)
Definition begin : run (Worker MemoryStore nat) :=
  mkRun (mkWorker (mkActivities guard0 ∅ 0) [Desk.killed; Runs; Desk.lost] 0
    [(5%Z, mkApprovalSignal AgentStep (RKey (order "cancel-order" true)) ApprovalApproved "ada" "")]) [] None.

Definition served :=
  AgentWriteWorkflow (A := worker_world calm_env (fun _ => true)) (AW := worker_agent_world calm_env (fun _ => true) (fun _ => [])) asked begin.

Lemma agent_targets_cleared_witness :
  (wr_Status <$> fst (fst served)) = [StatusDuplicate] /\
  List.filter GuardProps.is_commit (worker_trace (r_world (snd served))) =
    [EvCommit "erp" "create-order" "opp-9" "{}" (Ok "document for opp-9")] /\
  exists k, ran begin (snd served) k.
Proof.
  split; [vm_compute; reflexivity|]. split; [vm_compute; reflexivity|].
  destruct (agent_targets_cleared calm_env (fun _ => true) (fun _ => []) asked begin (snd served) (fst (fst served)) (snd (fst served)))
    as (k & pushed & new & Hk & _).
  - rewrite <- (surjective_pairing (fst served)). apply surjective_pairing.
  - exists (k ++ pushed). exact Hk.
Defined.
End AgentDesk.
