(* ===== verification/AgentTools.v ===== *)
(** Write tools of the agent server: [submit], the IDs of writes and their owners, of
    [src/pkg/agent/write.go], with [ownWrite] of [a2a.go]; and [Submit], [Status] and
    [await] of [src/pkg/engine/agent.go] over a Temporal client ([AgentClient]). Tool
    schemas and the texts of answers are left out. *)

From S2P Require Import Turgon Prelude GoStr GoText GoErr Policy GuardData Idempotency Governor Guard ApiKinds RuntimeSpec.
From S2P Require Import Compiler Template Engine AgentData Workflow Identity Mapping Activities.
From Stdlib Require Import Ascii String.

(** [agent.Identity]. *)
Record Caller := mkCaller { cr_Agent : string; cr_OnBehalfOf : string; cr_Roles : list string }.

(** [requestIDRE]. *)
Definition request_byte (c : ascii) : bool :=
  byte_in "A" "Z" c || byte_in "a" "z" c || byte_in "0" "9" c || existsb (Ascii.eqb c) ["."; "_"; ":"; "-"]%char.
Definition valid_request_id (s : string) : bool :=
  (1 <=? String.length s)%nat && (String.length s <=? 128)%nat && str_all request_byte s.

Definition maxReason : nat := 500.

(** ** IDs *)

(** [strings.ReplaceAll(s, ":", "%3A")]. *)
Fixpoint escape_colons (s : string) : string :=
  match s with
  | "" => ""
  | String c s => if ascii_dec c ":" then "%3A" +++ escape_colons s else String c (escape_colons s)
  end.

Definition escapeAgent (agent : string) : string := escape_colons (path_escape agent).

(** [writeID]. *)
Definition writeID (tool agent requestID : string) : string := tool +++ "/" +++ escapeAgent agent +++ ":" +++ requestID.

(** [writeOwner]: the tool and the agent of a write. *)
Definition writeOwner (workflowID : string) : option (string * string) :=
  match cut_first "/" workflowID with
  | None => None
  | Some (tool, rest) =>
      match cut_first ":" rest with
      | None => None
      | Some (escaped, _) =>
          match path_unescape escaped with
          | Some agent => if String.eqb tool "" || String.eqb agent "" then None else Some (tool, agent)
          | None => None
          end
      end
  end.

(** [ownWrite]: the tool of a write of this caller; [None] is "not found". *)
Definition ownWrite (tools : gmap string Tool) (writes : bool) (caller : Caller) (taskID : string) : option Tool :=
  match writeOwner taskID with
  | None => None
  | Some (name, owner) =>
      match tools !! name with
      | Some t => if String.eqb owner (cr_Agent caller) && negb (String.eqb (tl_Risk t) RiskRead) && writes then Some t else None
      | None => None
      end
  end.

(** ** Requests *)

(** The arguments of a call as strict JSON decoding gives them; a null record is none. *)
Record Arguments := mkArguments { ar_RequestID : string; ar_Record : option document; ar_Reason : string }.

Section requests.
Context `{N : Numbers} `{J : Json} (decode_arguments : string -> option Arguments).

(** What [submit] refuses, in its order. *)
Inductive refusal :=
| BadArguments
| BadRequestID
| LongReason
| UnknownFields (fields : list string)
| UnreadableRecord.

(** The fields of a record the tool does not take. *)
Definition unknown_fields (t : Tool) (record : document) : list string :=
  match tl_Fields t with
  | [] => []
  | allowed => sort_strings (List.filter (fun k => negb (existsb (String.eqb k) allowed)) (map_to_list record).*1)
  end.

Definition tool_request (t : Tool) (id : Caller) (args : Arguments) (record : document) (payload : string) : Request :=
  let amount := if String.eqb (tl_Amount t) "" then AmountOf record else amount_at record (tl_Amount t) in
  let reason := trim_space (ar_Reason args) in
  mkRequest (tl_Endpoint t) (tl_Operation t) (tl_Name t) (tl_Risk t)
    (mkSubject (cr_Agent id) (cr_Roles id) true (cr_OnBehalfOf id)) ("agent:" +++ cr_Agent id +++ ":" +++ ar_RequestID args)
    payload (tl_Entity t) amount (tl_Simulate t) "" "" false (if String.eqb reason "" then "no reason given" else reason)
    (match tl_CheckAmount t with Some a => Some (GuardData.mkAmountCheck (ac_Preview a) (ac_Tolerance a)) | None => None end).

(** [submit] up to its call of [Submit]: the write's ID and its request. *)
Definition tool_write (t : Tool) (id : Caller) (raw defaultRequestID : string) : refusal + (string * Request) :=
  match decode_arguments raw with
  | None => inl BadArguments
  | Some args =>
      match ar_Record args with
      | None => inl BadArguments
      | Some record =>
          let args := mkArguments (if String.eqb (ar_RequestID args) "" then defaultRequestID else ar_RequestID args)
            (ar_Record args) (ar_Reason args) in
          if negb (valid_request_id (ar_RequestID args)) then inl BadRequestID
          else if (maxReason <? String.length (ar_Reason args))%nat then inl LongReason
          else match unknown_fields t record with
            | (_ :: _) as l => inl (UnknownFields l)
            | [] =>
                match encode_document record with
                | None => inl UnreadableRecord
                | Some payload =>
                    inr (writeID (tl_Name t) (cr_Agent id) (ar_RequestID args), tool_request t id args record payload)
                end
            end
      end
  end.
End requests.

(** ** Submitting *)

(** Answers of the Temporal service. *)
#[warnings="-register-all"]
Inductive start_reply := Started | AlreadyStarted | StartFailed (e : goerr).
Inductive signal_reply := Signalled | NoSuchRun | SignalFailed (e : goerr).
Inductive run_reply := RunEnded (writes : list WriteRecord) (err : option failure) | GetFailed (e : goerr).
Inductive describe_reply := DescribeFailed (e : goerr) | DescribeNotFound | Described (type : string) (running : bool).

(** The client of [AgentWrites]: starting under an ID that was never used, the input a run
    was started with, waiting for a run, and asking about it. [cl_done] is the caller's
    context's error. *)
Class AgentClient (C : Type) := {
  cl_execute : string -> AgentWriteInput -> C -> start_reply * C;
  cl_input : string -> C -> result AgentWriteInput * C;
  cl_set_push : string -> PushConfig -> C -> signal_reply * C;
  cl_get : string -> option Z -> C -> run_reply * C;
  cl_describe : string -> C -> describe_reply * C;
  cl_pending : string -> C -> result (option PendingApproval) * C;
  cl_done : C -> option goerr
}.

Definition ErrRequestConflict : string := "request ID already used for a different request".
Definition ErrUnknownWrite : string := "no agent write with this ID".

Section submit.
Context {C : Type} `{K : AgentClient C} `{X : Texts}.

Definition P (A : Type) : Type := C -> A * C.
#[export] Instance P_ret : MRet P := fun A a c => (a, c).
#[export] Instance P_bind : MBind P := fun A B m k c => let (a, c) := k c in m a c.

Definition ctx_done : P (option goerr) := fun c => (cl_done c, c).
Definition running (st : AgentWriteState) (p : option PendingApproval) : AgentWriteStatus := mkAgentWriteStatus st None p "".

(** The end of [await]: what the last answer says, unless the caller gave up. *)
Definition conclude (writes : list WriteRecord) (err : option failure) : P (result AgentWriteStatus) :=
  match err with
  | None => mret (Ok (statusOf writes None))
  | Some f =>
      cancelled ← ctx_done;
      mret (match cancelled with Some cerr => Err cerr | None => Ok (statusOf writes (Some f)) end)
  end.

Definition conclude_reply (r : run_reply) : P (result AgentWriteStatus) :=
  match r with RunEnded writes err => conclude writes err | GetFailed e => conclude [] (Some (Fault e)) end.

(** [await]: a wait that fails asks whether the run goes on, and fetches its end if not. *)
Definition await (id : string) (wait : Z) : P (result AgentWriteStatus) :=
  r ← cl_get id (Some (if (wait <=? 0)%Z then 15000000000%Z else wait));
  match r with
  | RunEnded _ _ => conclude_reply r
  | GetFailed e =>
      cancelled ← ctx_done;
      match cancelled with
      | Some cerr => mret (Err cerr)
      | None =>
          d ← cl_describe id;
          match d with
          | DescribeFailed de => mret (Err (Joined [e; de]))
          | DescribeNotFound => mret (Err (Joined [e; Errorf (msg0 "workflow not found")]))
          | Described _ true =>
              p ← cl_pending id;
              mret (Ok (match p with
                | Ok (Some p) => running AgentWritePending (Some p)
                | _ => running AgentWriteRunning None
                end))
          | Described _ false => r ← cl_get id None; conclude_reply r
          end
      end
  end.

(** Asked again with push settings: added; a run that ended ignores them. *)
Fixpoint set_pushes (id : string) (l : list PushConfig) : P (option goerr) :=
  match l with
  | [] => mret None
  | c :: l =>
      r ← cl_set_push id c;
      match r with SignalFailed e => mret (Some e) | _ => set_pushes id l end
  end.

(** [Submit]. *)
Definition Submit (wait : Z) (id : string) (i : AgentWriteInput) : P (result AgentWriteStatus) :=
  r ← cl_execute id i;
  match r with
  | StartFailed e => mret (Err e)
  | Started => await id wait
  | AlreadyStarted =>
      prior ← cl_input id;
      match prior with
      | Err e => mret (Err e)
      | Ok prior =>
          if negb (sameRequest (aw_Request prior) (aw_Request i)) then mret (Err (Sentinel ErrRequestConflict))
          else
            err ← set_pushes id (aw_Push i);
            match err with Some e => mret (Err e) | None => await id wait end
      end
  end.

(** [Status]. *)
Definition Status (id : string) : P (result AgentWriteStatus) :=
  d ← cl_describe id;
  match d with
  | DescribeNotFound => mret (Err (Sentinel ErrUnknownWrite))
  | DescribeFailed e => mret (Err e)
  | Described type _ =>
      if negb (String.eqb type AgentWriteWorkflowName) then mret (Err (Sentinel ErrUnknownWrite)) else await id 1000000000%Z
  end.
End submit.
