(* ===== verification/AgentToolTheorems.v ===== *)
(** What the agent server's write tools guarantee: whose a write is, and what a tool may
    ask for. *)

From S2P Require Import Turgon Prelude GoStr GoText GoErr Policy GuardData Idempotency Governor Guard GuardTheorems ApiKinds RuntimeSpec.
From S2P Require Import Compiler Template Engine AgentData Workflow Identity Mapping Activities ActivityTheorems AgentTools.
From Stdlib Require Import Ascii String.

(** ** Escaping *)

(** What one byte of an agent's name becomes. *)
Definition escaped_byte (c : ascii) : string :=
  if ascii_dec c ":" then "%3A" else if keep_byte c then String c "" else percent c.

Lemma escape_colons_app a b : escape_colons (a +++ b) = escape_colons a +++ escape_colons b.
Proof. induction a as [|c a IH]; [done|]. cbn. destruct (ascii_dec c ":"); cbn; by rewrite IH. Qed.

Lemma escapeAgent_cons c s : escapeAgent (String c s) = escaped_byte c +++ escapeAgent s.
Proof.
  unfold escapeAgent, escaped_byte, path_escape. cbn [escape_with]. destruct (ascii_dec c ":") as [->|N]; [done|].
  destruct (keep_byte c); [cbn; by destruct (ascii_dec c ":")|]. rewrite escape_colons_app. f_equal.
  clear N. by destruct c as [[] [] [] [] [] [] [] []].
Qed.

Lemma unescape_byte c s : path_unescape (escaped_byte c +++ s) = match path_unescape s with Some s => Some (String c s) | None => None end.
Proof. destruct c as [[] [] [] [] [] [] [] []]; reflexivity. Qed.

Lemma escaped_byte_colon c : contains_byte ":" (escaped_byte c) = false.
Proof. by destruct c as [[] [] [] [] [] [] [] []]. Qed.

Lemma unescape_escape s : path_unescape (escapeAgent s) = Some s.
Proof. induction s as [|c s IH]; [done|]. by rewrite escapeAgent_cons, unescape_byte, IH. Qed.

Lemma escapeAgent_colon s : contains_byte ":" (escapeAgent s) = false.
Proof. induction s as [|c s IH]; [done|]. by rewrite escapeAgent_cons, contains_app, escaped_byte_colon. Qed.

(** The parts of a write's ID. *)
Lemma writeID_cut tool agent req :
  contains_byte "/" tool = false ->
  cut_first "/" (writeID tool agent req) = Some (tool, escapeAgent agent +++ ":" +++ req) /\
  cut_first ":" (escapeAgent agent +++ ":" +++ req) = Some (escapeAgent agent, req).
Proof. intros H. split; apply cut_first_spec; split; try done. apply escapeAgent_colon. Qed.

Lemma writeOwner_writeID tool agent req :
  tool <> "" -> contains_byte "/" tool = false -> agent <> "" -> writeOwner (writeID tool agent req) = Some (tool, agent).
Proof.
  intros Ht Hs Ha. unfold writeOwner. destruct (writeID_cut tool agent req Hs) as [-> ->]. rewrite unescape_escape.
  destruct (String.eqb_spec tool ""), (String.eqb_spec agent ""); try done.
Qed.

(** ** Requests *)

Section requests.
Context `{N : Numbers} `{J : Json} (decode_arguments : string -> option Arguments).

Lemma unknown_fields_nil t record :
  unknown_fields t record = [] -> tl_Fields t = [] \/ forall k, is_Some (record !! k) -> k ∈ tl_Fields t.
Proof using.
  unfold unknown_fields. destruct (tl_Fields t) as [|f fs] eqn:E; [by left|]. intros H. right. intros k Hk.
  pose proof (sort_strings_perm (List.filter (fun k => negb (existsb (String.eqb k) (f :: fs))) (map_to_list record).*1)) as Hp.
  rewrite H in Hp. clear H. apply Permutation_nil_l in Hp. rename Hp into H. symmetry in H. destruct (existsb (String.eqb k) (f :: fs)) eqn:Ek.
  - apply List.existsb_exists in Ek as (x & Hx & ->%String.eqb_eq). by apply list_elem_of_In.
  - exfalso. assert (Hin : k ∈ List.filter (fun k => negb (existsb (String.eqb k) (f :: fs))) (map_to_list record).*1); [|by rewrite H in Hin; apply elem_of_nil in Hin].
    apply list_elem_of_In, List.filter_In. split; [|by rewrite Ek]. apply list_elem_of_In.
    destruct Hk as [v Hv]. apply list_elem_of_fmap. exists (k, v). split; [done|]. by apply elem_of_map_to_list.
Qed.

Lemma tool_write_inv t id raw def wid req :
  tool_write decode_arguments t id raw def = inr (wid, req) ->
  exists args record payload, decode_arguments raw = Some args /\ ar_Record args = Some record /\
    unknown_fields t record = [] /\ encode_document record = Some payload /\
    String.length (ar_Reason args) <= maxReason /\
    let rid := if String.eqb (ar_RequestID args) "" then def else ar_RequestID args in
    valid_request_id rid = true /\ wid = writeID (tl_Name t) (cr_Agent id) rid /\
    req = tool_request t id (mkArguments rid (ar_Record args) (ar_Reason args)) record payload.
Proof using.
  unfold tool_write. destruct (decode_arguments raw) as [args|]; [|done]. destruct (ar_Record args) as [record|] eqn:Er; [|done].
  cbv zeta. cbn [ar_RequestID ar_Reason]. set (rid := if String.eqb (ar_RequestID args) "" then def else ar_RequestID args).
  destruct (valid_request_id rid) eqn:Ev; cbn [negb]; [|done].
  destruct (Nat.ltb_spec maxReason (String.length (ar_Reason args))) as [|Hl]; [done|].
  destruct (unknown_fields t record) eqn:Eu; [|done]. destruct (encode_document record) as [payload|] eqn:Ee; [|done].
  intros [= <- <-]. exists args, record, payload. by rewrite ?Er.
Qed.
End requests.

(** * Properties *)

(** a write belongs to the agent that asked for it, and to no other. A write's ID tells
    the tool and the agent back; two requests share an ID only if the tool, the agent and
    the request ID are the same; and the server shows a write to a caller exactly when it
    is the caller's own, of a write tool it serves. *)
Theorem writes_belong_to_their_agent (tool agent req : string) :
  tool <> "" -> contains_byte "/" tool = false -> agent <> "" ->
  writeOwner (writeID tool agent req) = Some (tool, agent) /\
  (forall tool' agent' req', contains_byte "/" tool' = false -> writeID tool' agent' req' = writeID tool agent req ->
     tool' = tool /\ agent' = agent /\ req' = req) /\
  forall tools caller t, ownWrite tools true caller (writeID tool agent req) = Some t <->
    tools !! tool = Some t /\ tl_Risk t <> RiskRead /\ cr_Agent caller = agent.
Proof.
  intros Ht Hs Ha. split; [by apply writeOwner_writeID|]. split.
  - intros tool' agent' req' Hs' E. destruct (writeID_cut tool agent req Hs) as [E1 E2], (writeID_cut tool' agent' req' Hs') as [E1' E2'].
    rewrite E, E1 in E1'. injection E1' as <- E3.
    assert (E2'' : cut_first ":" (escapeAgent agent +++ ":" +++ req) = Some (escapeAgent agent', req')) by (rewrite <- E2'; by f_equal).
    rewrite E2 in E2''. injection E2'' as E4 <-.
    split; [done|]. split; [|done]. apply (f_equal path_unescape) in E4. rewrite !unescape_escape in E4. by injection E4.
  - intros tools caller t. unfold ownWrite. rewrite writeOwner_writeID by done. destruct (tools !! tool) as [t'|] eqn:Et.
    2: { split; [done|]. by intros (? & _). }
    rewrite andb_true_r. destruct (String.eqb_spec agent (cr_Agent caller)) as [E|N]; cbn [andb].
    + destruct (String.eqb_spec (tl_Risk t') RiskRead) as [Er|Nr]; cbn [negb]; split; [done| |by intros [= ->]|by intros (-> & _)].
      intros ([= ->] & Hr & _). done.
    + split; [done|]. intros (_ & _ & <-). done.
Qed.

(** a tool asks only for what its caller may ask for. A write it submits is the tool's
    own operation on the tool's own system at the tool's risk, in the caller's name as an
    agent, on behalf of whom the caller says and with the caller's roles and no others; its
    record has no field the tool does not take; its request ID and reason are well formed;
    and its amount is read from the very record that is sent. Everything else it refuses
    before anything starts. *)
Theorem tool_writes_as_caller `{N : Numbers} `{J : Json} (decode_arguments : string -> option Arguments)
    (t : Tool) (id : Caller) (raw def : string) (wid : string) (req : Request) :
  tool_write decode_arguments t id raw def = inr (wid, req) ->
  exists rid record, valid_request_id rid = true /\ wid = writeID (tl_Name t) (cr_Agent id) rid /\
    RTarget req = tl_Endpoint t /\ ROperation req = tl_Operation t /\ RRisk req = tl_Risk t /\ RTool req = tl_Name t /\
    RSubject req = mkSubject (cr_Agent id) (cr_Roles id) true (cr_OnBehalfOf id) /\
    RKey req = "agent:" +++ cr_Agent id +++ ":" +++ rid /\
    encode_document record = Some (RPayload req) /\
    (tl_Fields t = [] \/ forall k, is_Some (record !! k) -> k ∈ tl_Fields t) /\
    RAmount req = (if String.eqb (tl_Amount t) "" then AmountOf record else amount_at record (tl_Amount t)) /\
    RCompensation req = "" /\ RReason req <> "".
Proof.
  intros H. apply tool_write_inv in H as (args & record & payload & _ & _ & Hu & He & _ & Hv & -> & ->).
  eexists _, record. split; [exact Hv|]. do 7 (split; [done|]). split; [done|]. split; [by apply unknown_fields_nil|].
  split; [done|]. split; [done|]. unfold tool_request. cbn [RReason ar_Reason].
  match goal with |- context [String.eqb ?x ""] => by destruct (String.eqb_spec x "") end.
Qed.

(** * Witnesses and findings *)

Lemma writes_belong_to_their_agent_witness :
  "orders" <> "" /\ writeOwner (writeID "orders" "spiffe://acme/agent:7" "r:1") = Some ("orders", "spiffe://acme/agent:7").
Proof.
  split; [done|]. apply (writes_belong_to_their_agent "orders" "spiffe://acme/agent:7" "r:1"); [done|reflexivity|done].
Defined.

Module Agents.
#[local] Existing Instances Desk.numbers Desk.texts Desk.documents.

Definition orders : Tool := mkTool "create_order" "" RiskLow "erp" "create-order" "SalesOrder" ["vat"] false "" None.
Definition decode (raw : string) : option Arguments := Some (mkArguments raw (Some (list_to_map [("vat", JStr "DE12")])) "").

Definition ada : Caller := mkCaller "team" "ada" [RoleOperator].

(** The write the tool asks for, of a caller and a request ID. *)
Definition asked_by (id : Caller) (rid : string) : string * Request :=
  match tool_write decode orders id rid "" with
  | inr w => w
  | inl _ => ("", order "" false)
  end.

Lemma tool_writes_as_caller_witness :
  tool_write decode orders ada "a:1" "" = inr (asked_by ada "a:1") /\ RReason (snd (asked_by ada "a:1")) <> "".
Proof.
  assert (E : tool_write decode orders ada "a:1" "" = inr (fst (asked_by ada "a:1"), snd (asked_by ada "a:1")))
    by (vm_compute; reflexivity).
  split; [exact E|].
  destruct (tool_writes_as_caller decode orders ada "a:1" "" _ _ E) as (rid & record & _ & _ & _ & _ & _ & _ & _ & _ & _ & _ & _ & _ & H).
  exact H.
Defined.

Definition asks (agent rid : string) : Request := snd (asked_by (mkCaller agent "" [RoleOperator]) rid).

(** Idempotency keys do not escape the agent's name as IDs do: the second agent's write is
    taken for the first's, answered with its result and never made. *)
Lemma agent_keys_collide :
  writeID "create_order" "team" "a:1" <> writeID "create_order" "team:a" "1" /\
  storeKey (asks "team" "a:1") = storeKey (asks "team:a" "1") /\
  let first := Commit calm_env (asks "team" "a:1") None guard0 in
  let second := Commit calm_env (asks "team:a" "1") None (snd first) in
  fst (fst first) = mkOutcome StatusCommitted "document for agent:team:a:1" "" None [] /\
  fst (fst second) = mkOutcome StatusDuplicate "document for agent:team:a:1" "" None [].
Proof. split; [by vm_compute|]. vm_compute. auto. Qed.

(** A client whose wait times out and whose next call fails, although the write went
    through. *)
#[local] Instance flaky : AgentClient nat := {|
  cl_execute := fun _ _ c => (Started, c); cl_input := fun _ c => (Err (Sentinel "unused"), c);
  cl_set_push := fun _ _ c => (Signalled, c);
  cl_get := fun _ _ c => (GetFailed (Sentinel "connection reset"), c);
  cl_describe := fun _ c => (Described AgentWriteWorkflowName false, c);
  cl_pending := fun _ c => (Ok None, c);
  cl_done := fun _ => None |}.

(** A failed call is reported as a failed write. *)
Lemma lost_outcome_reported_failed :
  fst (Submit 0 "create_order/team:1" (mkAgentWriteInput "" (asks "team" "1") 0 []) 0) =
    Ok (mkAgentWriteStatus AgentWriteFailed None None "error").
Proof. reflexivity. Qed.
End Agents.
