(* ===== verification/PgOutput.v ===== *)
(** Messages of PostgreSQL's logical decoding plugin: the decoder of
    [src/pkg/connector/postgres/pgoutput.go], with the wire format it accepts. *)

From S2P Require Import Turgon Prelude GoStr GoErr.
From Stdlib Require Import Ascii String.

(** ** Data *)

Record column := mkColumn { co_name : string; co_oid : Z }.

Record relation := mkRelation { re_id : Z; re_namespace : string; re_name : string; re_columns : list column }.

(** [tupleValue]: kind n is null, u an unchanged value that is not sent, t text. *)
Record tupleValue := mkTupleValue { tv_kind : ascii; tv_data : string }.

(** [message] of the decoder; a nil slice of a row is the empty list. *)
Record wal_message := mkWalMessage {
  wm_kind : ascii;
  wm_finalLSN : Z;
  wm_endLSN : Z;
  wm_rel : option relation;
  wm_relID : Z;
  wm_newRow : list tupleValue;
  wm_oldRow : list tupleValue
}.

(** ** The reader *)

(** [reader]: the bytes left and the first error. *)
Record reader := mkReader { rd_b : string; rd_err : option goerr }.

Definition Rd (A : Type) : Type := reader -> A * reader.
#[export] Instance Rd_ret : MRet Rd := fun A a r => (a, r).
#[export] Instance Rd_bind : MBind Rd := fun A B k m r => let (a, r) := m r in k a r.

Definition errShort : goerr := Sentinel "pgoutput: message too short".

Definition set_err (e : goerr) : Rd unit := fun r => (tt, mkReader (rd_b r) (Some e)).

Fixpoint zeros (n : nat) : string :=
  match n with O => "" | S n => String zero (zeros n) end.

(** [take]: zeros and an error when there are not enough bytes. *)
Definition take (n : Z) : Rd string := fun r =>
  if is_some (rd_err r) || (Z.of_nat (String.length (rd_b r)) <? n)%Z
  then (zeros (Z.to_nat n), mkReader (rd_b r) (Some errShort))
  else let (a, b) := str_cut (Z.to_nat n) (rd_b r) in (a, mkReader b None).

(** [binary.BigEndian]. *)
Definition byte_value (c : ascii) : Z := Z.of_N (N_of_ascii c).
Fixpoint big_endian (acc : Z) (s : string) : Z :=
  match s with
  | "" => acc
  | String c s => big_endian (256 * acc + byte_value c) s
  end.

Definition u8 : Rd ascii := s ← take 1; mret (match s with String c _ => c | "" => zero end).
Definition u16 : Rd Z := s ← take 2; mret (big_endian 0 s).
Definition u32 : Rd Z := s ← take 4; mret (big_endian 0 s).
Definition u64 : Rd Z := s ← take 8; mret (big_endian 0 s).

(** [str]: up to a zero byte. *)
Definition str : Rd string := fun r =>
  if is_some (rd_err r) then ("", r)
  else match cut_first zero (rd_b r) with
       | Some (s, rest) => (s, mkReader rest None)
       | None => ("", mkReader (rd_b r) (Some errShort))
       end.

(** A loop of [n] rounds that ends at the first error. *)
Fixpoint rounds {A} (step : Rd A) (n : nat) : Rd (list A) := fun r =>
  match n with
  | O => ([], r)
  | S n => if is_some (rd_err r) then ([], r) else (a ← step; l ← rounds step n; mret (a :: l)) r
  end.

Definition is_byte (c d : ascii) : bool := Ascii.eqb c d.

(** One column of [tuple]. *)
Definition tuple_value : Rd tupleValue :=
  kind ← u8;
  data ← (if is_byte kind "n" || is_byte kind "u" then mret ""
          else if is_byte kind "t" || is_byte kind "b" then n ← u32; take n
          else _ ← set_err (Errorf (Msg "pgoutput: unknown column kind %q" [FInt (byte_value kind)])); mret "");
  mret (mkTupleValue kind data).

Definition tuple : Rd (list tupleValue) := n ← u16; rounds tuple_value (Z.to_nat n).

(** One column of a relation. *)
Definition relation_column : Rd column :=
  _ ← u8; name ← str; oid ← u32; _ ← u32; mret (mkColumn name oid).

Definition no_message : wal_message := mkWalMessage zero 0 0 None 0 [] [].

(** A refused message: its error, whatever the reader has. *)
Definition unexpected (what : string) (k : ascii) : goerr :=
  Errorf (Msg what [FInt (byte_value k)]).

(** The body of a message: what it holds, and an error that ends decoding at once. *)
Definition decode_body (kind : ascii) : Rd (wal_message * option goerr) :=
  let empty := mkWalMessage kind 0 0 None 0 [] [] in
  if is_byte kind "B" then lsn ← u64; mret (mkWalMessage kind lsn 0 None 0 [] [], None)
  else if is_byte kind "C" then
    _ ← u8; _ ← u64; lsn ← u64; mret (mkWalMessage kind 0 lsn None 0 [] [], None)
  else if is_byte kind "R" then
    id ← u32; ns ← str; name ← str; _ ← u8; n ← u16;
    cols ← rounds relation_column (Z.to_nat n);
    mret (mkWalMessage kind 0 0 (Some (mkRelation id ns name cols)) 0 [] [], None)
  else if is_byte kind "I" then
    id ← u32; k ← u8;
    if negb (is_byte k "N") then
      mret (mkWalMessage kind 0 0 None id [] [], Some (unexpected "pgoutput: insert: unexpected tuple kind %q" k))
    else row ← tuple; mret (mkWalMessage kind 0 0 None id row [], None)
  else if is_byte kind "U" then
    id ← u32; k ← u8;
    old ← (if is_byte k "K" || is_byte k "O" then old ← tuple; k ← u8; mret (old, k) else mret ([], k));
    if negb (is_byte (snd old) "N") then
      mret (mkWalMessage kind 0 0 None id [] (fst old), Some (unexpected "pgoutput: update: unexpected tuple kind %q" (snd old)))
    else row ← tuple; mret (mkWalMessage kind 0 0 None id row (fst old), None)
  else if is_byte kind "D" then
    id ← u32; k ← u8;
    if negb (is_byte k "K") && negb (is_byte k "O") then
      mret (mkWalMessage kind 0 0 None id [] [], Some (unexpected "pgoutput: delete: unexpected tuple kind %q" k))
    else row ← tuple; mret (mkWalMessage kind 0 0 None id [] row, None)
  else mret (empty, None).

(** [decode]. *)
Definition decode (data : string) : wal_message * option goerr :=
  match data with
  | "" => (no_message, Some errShort)
  | String kind b =>
      let '(m, e, r) := decode_body kind (mkReader b None) in
      (m, match e with Some e => Some e | None => rd_err r end)
  end.

(** ** The wire format *)

(** [n] bytes of a number, most significant first. *)
Fixpoint number_bytes (n : nat) (z : Z) : string :=
  match n with
  | O => ""
  | S n => number_bytes n (z / 256) +++ String (ascii_of_N (Z.to_N (z mod 256))) ""
  end.

Definition value_bytes (v : tupleValue) : string :=
  String (tv_kind v) (if is_byte (tv_kind v) "t" || is_byte (tv_kind v) "b"
    then number_bytes 4 (Z.of_nat (String.length (tv_data v))) +++ tv_data v else "").

(** The values a column can have. *)
Definition value_ok (v : tupleValue) : Prop :=
  (tv_kind v = "n"%char \/ tv_kind v = "u"%char) /\ tv_data v = "" \/
  (tv_kind v = "t"%char \/ tv_kind v = "b"%char) /\ (Z.of_nat (String.length (tv_data v)) < 2 ^ 32)%Z.

Definition concat_bytes {A} (f : A -> string) (l : list A) : string := foldr (fun a s => f a +++ s) "" l.

Definition row_bytes (row : list tupleValue) : string :=
  number_bytes 2 (Z.of_nat (List.length row)) +++ concat_bytes value_bytes row.
Definition row_ok (row : list tupleValue) : Prop := (Z.of_nat (List.length row) < 2 ^ 16)%Z /\ Forall value_ok row.

Definition text_ok (s : string) : Prop := contains_byte zero s = false.
Definition text_bytes (s : string) : string := s +++ String zero "".

(** A column of a relation: a byte of flags and four of a type modifier are not kept. *)
Inductive column_bytes (c : column) : string -> Prop :=
| column_bytes_intro flags modifier : String.length modifier = 4 -> text_ok (co_name c) -> (0 <= co_oid c < 2 ^ 32)%Z ->
    column_bytes c (String flags (text_bytes (co_name c) +++ number_bytes 4 (co_oid c) +++ modifier)).

Inductive columns_bytes : list column -> string -> Prop :=
| columns_nil : columns_bytes [] ""
| columns_cons c cs s t : column_bytes c s -> columns_bytes cs t -> columns_bytes (c :: cs) (s +++ t).

(** What the decoder accepts: a message and its bytes, whatever follows. *)
Inductive wire : wal_message -> string -> Prop :=
| wire_begin lsn rest : (0 <= lsn < 2 ^ 64)%Z ->
    wire (mkWalMessage "B" lsn 0 None 0 [] []) (String "B" (number_bytes 8 lsn +++ rest))
| wire_commit skipped lsn rest : String.length skipped = 9 -> (0 <= lsn < 2 ^ 64)%Z ->
    wire (mkWalMessage "C" 0 lsn None 0 [] []) (String "C" (skipped +++ number_bytes 8 lsn +++ rest))
| wire_relation id ns name identity cols s rest : (0 <= id < 2 ^ 32)%Z -> text_ok ns -> text_ok name ->
    (Z.of_nat (List.length cols) < 2 ^ 16)%Z -> columns_bytes cols s ->
    wire (mkWalMessage "R" 0 0 (Some (mkRelation id ns name cols)) 0 [] [])
      (String "R" (number_bytes 4 id +++ text_bytes ns +++ text_bytes name +++
        String identity (number_bytes 2 (Z.of_nat (List.length cols)) +++ s +++ rest)))
| wire_insert id row rest : (0 <= id < 2 ^ 32)%Z -> row_ok row ->
    wire (mkWalMessage "I" 0 0 None id row []) (String "I" (number_bytes 4 id +++ String "N" (row_bytes row +++ rest)))
| wire_update id row rest : (0 <= id < 2 ^ 32)%Z -> row_ok row ->
    wire (mkWalMessage "U" 0 0 None id row []) (String "U" (number_bytes 4 id +++ String "N" (row_bytes row +++ rest)))
| wire_update_old id k old row rest : (0 <= id < 2 ^ 32)%Z -> k = "K"%char \/ k = "O"%char -> row_ok old -> row_ok row ->
    wire (mkWalMessage "U" 0 0 None id row old)
      (String "U" (number_bytes 4 id +++ String k (row_bytes old +++ String "N" (row_bytes row +++ rest))))
| wire_delete id k row rest : (0 <= id < 2 ^ 32)%Z -> k = "K"%char \/ k = "O"%char -> row_ok row ->
    wire (mkWalMessage "D" 0 0 None id [] row) (String "D" (number_bytes 4 id +++ String k (row_bytes row +++ rest)))
| wire_other k rest : contains_byte k "BCRIUD" = false -> wire (mkWalMessage k 0 0 None 0 [] []) (String k rest).

(** ** Numbers *)

Lemma byte_value_range c : (0 <= byte_value c < 256)%Z.
Proof. unfold byte_value. pose proof (N_ascii_bounded c). lia. Qed.

Lemma byte_value_of z : (0 <= z < 256)%Z -> byte_value (ascii_of_N (Z.to_N z)) = z.
Proof. intros H. unfold byte_value. rewrite N_ascii_embedding by lia. lia. Qed.

Lemma of_byte_value c : ascii_of_N (Z.to_N (byte_value c)) = c.
Proof. unfold byte_value. by rewrite N2Z.id, ascii_N_embedding. Qed.

Lemma big_endian_app acc s t : big_endian acc (s +++ t) = big_endian (big_endian acc s) t.
Proof. revert acc. induction s as [|c s IH]; intros acc; [done|]. cbn. apply IH. Qed.

Lemma number_bytes_length n z : String.length (number_bytes n z) = n.
Proof. revert z. induction n as [|n IH]; intros z; [done|]. cbn [number_bytes]. rewrite str_length_app, IH. cbn. lia. Qed.

Lemma big_endian_number n z : (0 <= z < 256 ^ Z.of_nat n)%Z -> big_endian 0 (number_bytes n z) = z.
Proof.
  revert z. induction n as [|n IH]; intros z Hz; [cbn in *; lia|].
  cbn [number_bytes]. rewrite big_endian_app, IH; cbn [big_endian].
  - rewrite byte_value_of by (apply Z.mod_pos_bound; lia). pose proof (Z.div_mod z 256). lia.
  - rewrite Nat2Z.inj_succ, Z.pow_succ_r in Hz by lia. split; [apply Z.div_pos; lia|]. apply Z.div_lt_upper_bound; lia.
Qed.

Lemma str_snoc s n : String.length s = S n -> exists t c, s = t +++ String c "" /\ String.length t = n.
Proof.
  revert s. induction n as [|n IH]; intros [|c s] [= H].
  - destruct s; [|done]. by exists "", c.
  - destruct (IH s H) as (t & e & -> & <-). by exists (String c t), e.
Qed.

Lemma number_big_endian n s : String.length s = n ->
  number_bytes n (big_endian 0 s) = s /\ (0 <= big_endian 0 s < 256 ^ Z.of_nat n)%Z.
Proof.
  revert s. induction n as [|n IH]; intros s Hs; [destruct s; [done|done]|].
  destruct (str_snoc s n Hs) as (t & c & -> & Ht). destruct (IH t Ht) as [E R]. rewrite big_endian_app. cbn [big_endian number_bytes].
  pose proof (byte_value_range c). rewrite Nat2Z.inj_succ, Z.pow_succ_r by lia. split; [|lia].
  replace ((256 * big_endian 0 t + byte_value c) / 256)%Z with (big_endian 0 t) by (apply (Z.div_unique _ _ _ (byte_value c)); lia).
  replace ((256 * big_endian 0 t + byte_value c) mod 256)%Z with (byte_value c) by (apply (Z.mod_unique _ _ (big_endian 0 t)); lia).
  by rewrite E, of_byte_value.
Qed.

(** ** Parsers

    A parser fits a format when, without an error, what it reads is exactly an instance of
    the format, and it never clears an error. *)

Definition sticky {A} (p : Rd A) : Prop := forall r a r', p r = (a, r') -> rd_err r <> None -> rd_err r' <> None.

Definition reads {A} (p : Rd A) (E : A -> string -> Prop) : Prop :=
  sticky p /\ forall b a b', p (mkReader b None) = (a, mkReader b' None) <-> exists s, b = s +++ b' /\ E a s.

Lemma str_app_inv s t s' t' : s +++ t = s' +++ t' -> String.length s = String.length s' -> s = s' /\ t = t'.
Proof.
  revert s'. induction s as [|c s IH]; intros [|c' s'] H L; cbn in *; try done. injection H as -> H. injection L as L.
  by destruct (IH _ H L) as [-> ->].
Qed.

Lemma take_reads n : reads (take n) (fun a s => s = a /\ String.length a = Z.to_nat n).
Proof.
  split.
  - intros r a r' H E. unfold take in H. destruct (rd_err r); [|done]. by injection H as _ <-.
  - intros b a b'. unfold take. cbn [rd_err rd_b is_some orb]. destruct (Z.ltb_spec (Z.of_nat (String.length b)) n) as [L|L].
    + split; [done|]. intros (s & -> & -> & Hl). rewrite str_length_app in L. lia.
    + destruct (str_cut (Z.to_nat n) b) as [x y] eqn:E. split.
      * intros [= -> ->]. apply str_cut_spec in E as [-> El]; [|lia]. by exists a.
      * intros (s & -> & -> & Hl). rewrite <- Hl, str_cut_app in E. by injection E as <- <-.
Qed.

Lemma ret_reads {A} (x : A) : reads (mret x) (fun a s => a = x /\ s = "").
Proof.
  split.
  - by intros r a r' [= _ <-].
  - intros b a b'. split.
    + intros [= <- <-]. by exists "".
    + by intros (s & -> & -> & ->).
Qed.

Lemma bind_sticky {A B} (p : Rd A) (k : A -> Rd B) : sticky p -> (forall a, sticky (k a)) -> sticky (p ≫= k).
Proof.
  intros Hp Hk r b r' H E. unfold mbind, Rd_bind in H. destruct (p r) as [a r1] eqn:Ep. eapply Hk; [exact H|]. by eapply Hp.
Qed.

Lemma bind_reads {A B} (p : Rd A) (k : A -> Rd B) E F :
  reads p E -> (forall a, reads (k a) (F a)) ->
  reads (p ≫= k) (fun b s => exists a s1 s2, s = s1 +++ s2 /\ E a s1 /\ F a b s2).
Proof.
  intros [Sp Hp] Hk. split; [apply bind_sticky; [done|]; intros; apply Hk|].
  intros b x b'. unfold mbind, Rd_bind. split.
  - destruct (p (mkReader b None)) as [a r1] eqn:Ep. intros H. destruct r1 as [b1 [e|]].
    + exfalso. destruct (Hk a) as [Sk _]. by apply (Sk _ _ _ H).
    + apply Hp in Ep as (s1 & -> & H1). apply Hk in H as (s2 & -> & H2). exists (s1 +++ s2). rewrite str_app_assoc. split; [done|].
      by exists a, s1, s2.
  - intros (s & -> & a & s1 & s2 & -> & H1 & H2).
    rewrite (proj2 (proj2 (conj Sp (Hp ((s1 +++ s2) +++ b') a (s2 +++ b'))))).
    + apply Hk. by exists s2.
    + exists s1. by rewrite str_app_assoc.
Qed.

Lemma reads_equiv {A} (p : Rd A) E F : reads p E -> (forall a s, E a s <-> F a s) -> reads p F.
Proof.
  intros [Sp Hp] H. split; [done|]. intros b a b'. rewrite Hp. split; intros (s & -> & ?); exists s; split; try done; by apply H.
Qed.

(** ** The decoder's parsers *)

#[local] Opaque number_bytes.

Lemma number_reads (n : nat) : reads (s ← take (Z.of_nat n); mret (big_endian 0 s))
  (fun z s => s = number_bytes n z /\ (0 <= z < 256 ^ Z.of_nat n)%Z).
Proof.
  eapply reads_equiv; [eapply bind_reads; [apply take_reads|intros; apply ret_reads]|].
  intros z s. split.
  - intros (a & s1 & s2 & -> & [-> Hl] & -> & ->). rewrite str_app_nil_r. rewrite Nat2Z.id in Hl.
    destruct (number_big_endian n a Hl) as [-> ?]. done.
  - intros [-> Hz]. exists (number_bytes n z), (number_bytes n z), "". rewrite str_app_nil_r, number_bytes_length, big_endian_number, Nat2Z.id by done. done.
Qed.

Lemma u16_reads : reads u16 (fun z s => s = number_bytes 2 z /\ (0 <= z < 2 ^ 16)%Z).
Proof. apply (number_reads 2). Qed.
Lemma u32_reads : reads u32 (fun z s => s = number_bytes 4 z /\ (0 <= z < 2 ^ 32)%Z).
Proof. exact (number_reads 4). Qed.
Lemma u64_reads : reads u64 (fun z s => s = number_bytes 8 z /\ (0 <= z < 2 ^ 64)%Z).
Proof. exact (number_reads 8). Qed.

Lemma u8_reads : reads u8 (fun c s => s = String c "").
Proof.
  eapply reads_equiv; [eapply bind_reads; [apply take_reads|intros; apply ret_reads]|].
  intros c s. split.
  - intros (a & s1 & s2 & -> & [-> Hl] & -> & ->). destruct a as [|d [|? ?]]; [done|done|cbn in Hl; lia].
  - intros ->. by exists (String c ""), (String c ""), "".
Qed.

Lemma str_reads : reads str (fun t s => s = text_bytes t /\ text_ok t).
Proof.
  split.
  - intros r a r' H E. unfold str in H. destruct (rd_err r) eqn:He; [|done]. cbn in H. injection H as _ <-. by rewrite He.
  - intros b t b'. unfold str. cbn [rd_err rd_b is_some]. unfold text_bytes, text_ok. destruct (cut_first zero b) as [[l rest]|] eqn:E.
    + apply cut_first_spec in E as [-> Hl]. split.
      * intros [= <- <-]. exists (l +++ String zero ""). by rewrite str_app_assoc.
      * intros (s & Hs & -> & Ht). rewrite str_app_assoc in Hs. cbn in Hs.
        assert (E : cut_first zero (l +++ String zero rest) = Some (t, b')) by (rewrite Hs; by apply cut_first_spec).
        assert (E' : cut_first zero (l +++ String zero rest) = Some (l, rest)) by by apply cut_first_spec.
        rewrite E in E'. by injection E' as -> ->.
    + split; [done|]. intros (s & -> & -> & Ht). rewrite str_app_assoc in E. cbn in E.
      assert (E' : cut_first zero (t +++ String zero b') = Some (t, b')) by by apply cut_first_spec. by rewrite E in E'.
Qed.

Lemma set_err_reads e : reads (set_err e) (fun _ _ => False).
Proof.
  split.
  - by intros r a r' [= _ <-].
  - intros b a b'. split; [done|]. by intros (s & _ & []).
Qed.

(** One after another. *)
Inductive in_turn {A} (E : A -> string -> Prop) : list A -> string -> Prop :=
| in_turn_nil : in_turn E [] ""
| in_turn_cons a l s t : E a s -> in_turn E l t -> in_turn E (a :: l) (s +++ t).

Lemma in_turn_concat {A} (P : A -> Prop) f (l : list A) s :
  in_turn (fun a s => s = f a /\ P a) l s <-> s = concat_bytes f l /\ Forall P l.
Proof.
  split.
  - induction 1 as [|a l s t [-> Ha] _ [-> IH]]; [done|]. split; [done|]. by constructor.
  - intros [-> H]. induction H as [|a l Ha _ IH]; [constructor|]. by apply (in_turn_cons _ a l (f a) (concat_bytes f l)).
Qed.

Lemma rounds_reads {A} (step : Rd A) E n : reads step E -> reads (rounds step n) (fun l s => List.length l = n /\ in_turn E l s).
Proof.
  intros H. induction n as [|n IH].
  - apply (reads_equiv _ _ _ (ret_reads (A := list A) [])). intros l s. split; [intros [-> ->]; by repeat constructor|].
    intros [Hl Ht]. destruct l; [|done]. by inversion Ht.
  - split.
    + intros r l r' Hr He. cbn in Hr. destruct (rd_err r) eqn:Er; [|done]. cbn in Hr. injection Hr as _ <-. by rewrite Er.
    + intros b l b'. change (rounds step (S n) (mkReader b None)) with ((a ← step; l ← rounds step n; mret (a :: l)) (mkReader b None)).
      pose proof (bind_reads step (fun a => l ← rounds step n; mret (a :: l)) E _ H
        (fun a => bind_reads _ (fun l => mret (a :: l)) _ _ IH (fun l => ret_reads (a :: l)))) as [_ Hb].
      rewrite Hb. split; intros (s & -> & Hs); exists s; (split; [done|]).
      * destruct Hs as (a & s1 & s2 & -> & Ha & l' & s3 & s4 & -> & [Hl Ht] & -> & ->). rewrite str_app_nil_r.
        split; [cbn; by rewrite Hl|]. by constructor.
      * destruct Hs as [Hl Ht]. inversion Ht as [|a l' s1 s2 Ha Ht']; subst; [done|]. injection Hl as Hl.
        exists a, s1, s2. split; [done|]. split; [done|]. exists l', s2, "". by rewrite str_app_nil_r.
Qed.

Lemma is_byte_spec c d : reflect (c = d) (is_byte c d).
Proof. apply Ascii.eqb_spec. Qed.

Lemma value_data_reads kind :
  reads (if is_byte kind "n" || is_byte kind "u" then mret ""
         else if is_byte kind "t" || is_byte kind "b" then n ← u32; take n
         else _ ← set_err (Errorf (Msg "pgoutput: unknown column kind %q" [FInt (byte_value kind)])); mret "")
    (fun data s => value_ok (mkTupleValue kind data) /\ value_bytes (mkTupleValue kind data) = String kind s).
Proof.
  unfold value_ok, value_bytes. cbn [tv_kind tv_data].
  destruct (is_byte kind "n" || is_byte kind "u") eqn:E1.
  - eapply reads_equiv; [apply ret_reads|]. intros a s. apply orb_true_iff in E1 as [->%Ascii.eqb_eq| ->%Ascii.eqb_eq]; cbn;
      (split; [intros [-> ->]; by auto|intros [[[_ ->]|[[?|?] _]] E]; [by injection E as <-|done|done]]).
  - apply orb_false_iff in E1 as [N1%Ascii.eqb_neq N2%Ascii.eqb_neq]. destruct (is_byte kind "t" || is_byte kind "b") eqn:E2.
    + eapply reads_equiv; [eapply bind_reads; [apply u32_reads|intros; apply take_reads]|].
      apply orb_true_iff in E2. unfold is_byte in E2. rewrite !Ascii.eqb_eq in E2. intros a s. split.
      * intros (z & s1 & s2 & -> & [-> Hz] & -> & Hl). rewrite Hl, Z2Nat.id by lia. split; [|done]. right. split; [done|]. lia.
      * intros [[[[?|?] _]|[_ Hl]] E]; [done|done|]. apply (f_equal (fun t => match t with String _ t => t | _ => "" end)) in E.
        exists (Z.of_nat (String.length a)), (number_bytes 4 (Z.of_nat (String.length a))), a. split; [by rewrite <- E|].
        rewrite Nat2Z.id. repeat split; try done; lia.
    + apply orb_false_iff in E2 as [N3%Ascii.eqb_neq N4%Ascii.eqb_neq].
      eapply reads_equiv; [eapply bind_reads; [apply set_err_reads|intros; apply ret_reads]|].
      intros a s. split; [by intros (? & ? & ? & _ & [] & _)|]. by intros [[[[?|?] _]|[[?|?] _]] _].
Qed.

Lemma tuple_value_reads : reads tuple_value (fun v s => s = value_bytes v /\ value_ok v).
Proof.
  eapply reads_equiv.
  { eapply bind_reads; [apply u8_reads|]. intros kind. eapply bind_reads; [apply value_data_reads|]. intros. apply ret_reads. }
  intros [kind data] s. split.
  - intros (k & s1 & s2 & -> & -> & d & s3 & s4 & -> & [Hok Hb] & [= -> ->] & ->). by rewrite str_app_nil_r, Hb.
  - intros [-> Hok]. exists kind, (String kind ""). eexists. split; [|split; [done|]].
    2: { exists data. eexists _, "". split; [reflexivity|]. split; [|done]. split; [done|reflexivity]. }
    by rewrite str_app_nil_r.
Qed.

Lemma tuple_reads : reads tuple (fun row s => s = row_bytes row /\ row_ok row).
Proof.
  eapply reads_equiv.
  { eapply bind_reads; [apply u16_reads|]. intros n. apply rounds_reads, tuple_value_reads. }
  intros row s. unfold row_bytes, row_ok. split.
  - intros (n & s1 & s2 & -> & [-> Hn] & Hl & Ht). apply in_turn_concat in Ht as [-> Hf].
    rewrite Hl, Z2Nat.id by lia. repeat split; [lia|done].
  - intros [-> [Hl Hf]]. exists (Z.of_nat (List.length row)). eexists _, _. split; [reflexivity|].
    split; [split; [done|lia]|]. split; [by rewrite Nat2Z.id|]. by apply in_turn_concat.
Qed.

Lemma column_reads : reads relation_column column_bytes.
Proof.
  eapply reads_equiv.
  { eapply bind_reads; [apply u8_reads|]. intros f. eapply bind_reads; [apply str_reads|]. intros name.
    eapply bind_reads; [apply u32_reads|]. intros oid. eapply bind_reads; [apply u32_reads|]. intros md. apply ret_reads. }
  intros [name oid] s. split.
  - intros (f & s1 & s2 & -> & -> & n & s3 & s4 & -> & [-> Hn] & o & s5 & s6 & -> & [-> Ho] & md & s7 & s8 & -> & [-> Hm] & [= -> ->] & ->).
    rewrite str_app_nil_r. cbn. by apply (column_bytes_intro (mkColumn n o) f (number_bytes 4 md)).
  - intros Hc. destruct Hc as [flags md Hm Hn Ho]. cbn [co_name co_oid] in *. apply number_big_endian in Hm as [Em Rm].
    exists flags, (String flags ""). eexists. split; [|split; [done|]].
    2: { eexists _, _, _. split; [reflexivity|]. split; [split; [reflexivity|exact Hn]|].
         eexists _, _, _. split; [reflexivity|]. split; [split; [reflexivity|exact Ho]|].
         eexists _, _, "". split; [reflexivity|]. split; [split; [reflexivity|exact Rm]|]. done. }
    rewrite str_app_nil_r, Em. reflexivity.
Qed.

Lemma columns_in_turn cols s : in_turn column_bytes cols s <-> columns_bytes cols s.
Proof. split; induction 1; by constructor. Qed.

Lemma if_reads {A} (b : bool) (p q : Rd A) E F :
  reads p E -> reads q F -> reads (if b then p else q) (fun a s => if b then E a s else F a s).
Proof. by destruct b. Qed.

(** Finds the format of a parser built from the ones above. *)
Ltac reading :=
  lazymatch goal with
  | |- reads (mbind _ _) _ => eapply bind_reads; [reading|intros; reading]
  | |- reads (mret _) _ => apply ret_reads
  | |- reads (if _ then _ else _) _ => eapply if_reads; reading
  | |- reads u8 _ => apply u8_reads
  | |- reads u16 _ => apply u16_reads
  | |- reads u32 _ => apply u32_reads
  | |- reads u64 _ => apply u64_reads
  | |- reads str _ => apply str_reads
  | |- reads tuple _ => apply tuple_reads
  | |- reads (rounds _ _) _ => apply rounds_reads, column_reads
  end.

Lemma decode_reads kind F b m : reads (decode_body kind) F ->
  decode (String kind b) = (m, None) <-> exists s b', b = s +++ b' /\ F (m, None) s.
Proof.
  intros [_ H]. unfold decode. destruct (decode_body kind (mkReader b None)) as [[m' e] [b' e']] eqn:E. cbn [rd_err]. split.
  - destruct e; [done|]. intros [= -> ->]. apply H in E as (s & -> & Hs). by exists s, b'.
  - intros (s & b1 & -> & Hs). rewrite (proj2 (H (s +++ b1) (m, None) b1)) in E by by exists s. by injection E as <- <- <- <-.
Qed.

(** Takes a format apart. *)
Ltac parts :=
  repeat match goal with
    | H : exists _, _ |- _ => destruct H
    | H : _ /\ _ |- _ => destruct H
    | H : (_, _) = (_, _) |- _ => injection H as
    | H : in_turn column_bytes _ _ |- _ => rewrite columns_in_turn in H
    | H : Some _ = None |- _ => discriminate H
    | H : None = Some _ |- _ => discriminate H
    end; subst; rewrite ?str_app_nil_r, ?str_app_assoc.

(** Puts one together, from what its parts hold. *)
Ltac part := eexists _, _, _; split; [reflexivity|]; split; [by auto|].
Ltac the_part a := exists a; eexists _, _; split; [reflexivity|]; split; [by auto|].
Ltac at_byte c := exists c, (String c ""); eexists; split; [reflexivity|]; split; [reflexivity|]; cbn [is_byte Ascii.eqb Bool.eqb orb andb negb fst snd].
Ltac assemble rest parts := eexists _, rest; split; [|parts; by auto]; by rewrite ?str_app_nil_r, ?str_app_assoc.

#[local] Ltac by_format := rewrite decode_reads by (unfold decode_body; cbn [is_byte Ascii.eqb Bool.eqb orb andb negb]; reading); split.

Lemma decode_begin b m : decode (String "B" b) = (m, None) <-> wire m (String "B" b).
Proof.
  by_format.
  - intros H. parts. by apply wire_begin.
  - inversion 1; subst; [|done]. assemble rest ltac:(part).
Qed.

Lemma decode_commit b m : decode (String "C" b) = (m, None) <-> wire m (String "C" b).
Proof.
  by_format.
  - intros H. parts. match goal with |- wire _ (String _ (String ?c "" +++ number_bytes 8 ?z +++ _)) => apply (wire_commit (String c (number_bytes 8 z))) end; [|done].
    cbn [String.length]. by rewrite number_bytes_length.
  - inversion 1 as [|skipped lsn rest Hl| | | | | |]; subst; [|done]. destruct skipped as [|c skipped]; [done|]. injection Hl as Hl.
    apply number_big_endian in Hl as [El Rl]. change (256 ^ Z.of_nat 8)%Z with (2 ^ 64)%Z in Rl. rewrite <- El. eexists _, rest. split.
    2: { exists c, (String c ""). eexists. split; [reflexivity|]. split; [done|]. exists (big_endian 0 skipped).
         eexists _, _. split; [reflexivity|]. split; [by split|]. exists lsn. eexists _, _. split; [reflexivity|]. by auto. }
    by rewrite El, ?str_app_nil_r, ?str_app_assoc.
Qed.

Lemma decode_insert b m : decode (String "I" b) = (m, None) <-> wire m (String "I" b).
Proof.
  by_format.
  - intros H. parts. match goal with _ : context [is_byte ?k "N"] |- _ => destruct (is_byte_spec k "N") end; cbn [negb] in *; parts.
    by apply wire_insert.
  - inversion 1; subst; [|done]. assemble rest ltac:(part; at_byte "N"%char; part).
Qed.

Lemma decode_delete b m : decode (String "D" b) = (m, None) <-> wire m (String "D" b).
Proof.
  by_format.
  - intros H. parts. match goal with _ : context [is_byte ?k "K"] |- _ => destruct (is_byte_spec k "K"), (is_byte_spec k "O") end;
      cbn [negb andb] in *; parts; apply wire_delete; auto.
  - inversion 1 as [| | | | | |id k row rest Hi [-> | ->] Hr|]; subst; [| |done];
      [assemble rest ltac:(part; at_byte "K"%char; part)|assemble rest ltac:(part; at_byte "O"%char; part)].
Qed.

Lemma decode_update b m : decode (String "U" b) = (m, None) <-> wire m (String "U" b).
Proof.
  by_format.
  - intros H. destruct H as (s & b' & -> & id & s1 & s2 & -> & [-> Hi] & k & s3 & s4 & -> & -> & [old k'] & s5 & s6 & -> & Ho & Hm).
    cbn [fst snd] in Hm. destruct (is_byte k "K" || is_byte k "O") eqn:Ek.
    + apply orb_true_iff in Ek. unfold is_byte in Ek. rewrite !Ascii.eqb_eq in Ek. destruct (is_byte_spec k' "N"); cbn [negb] in *; parts.
      by apply wire_update_old.
    + destruct (is_byte_spec k' "N"); cbn [negb] in *; parts. by apply wire_update.
  - inversion 1 as [| | | |id row rest Hi Hr|id k old row rest Hi [-> | ->] Ho Hr| |]; subst; [| | |done].
    + assemble rest ltac:(part; at_byte "N"%char; exists ([], "N"%char); eexists _, _; split; [reflexivity|]; split; [by auto|]; part).
    + assemble rest ltac:(part; at_byte "K"%char; exists (old, "N"%char); eexists _, _; split; [reflexivity|]; split; [the_part old; at_byte "N"%char; by auto|]; part).
    + assemble rest ltac:(part; at_byte "O"%char; exists (old, "N"%char); eexists _, _; split; [reflexivity|]; split; [the_part old; at_byte "N"%char; by auto|]; part).
Qed.

Lemma decode_relation b m : decode (String "R" b) = (m, None) <-> wire m (String "R" b).
Proof.
  by_format.
  - intros H. parts.
    match goal with H : List.length ?l = Z.to_nat ?n |- _ => assert (n = Z.of_nat (List.length l)) as -> by lia end.
    by apply wire_relation.
  - inversion 1 as [| |id ns name identity cols s rest Hi Hn Hm Hc Hs| | | | |]; subst; [|done].
    eexists _, rest. split.
    2: { part. exists ns. eexists _, _. split; [reflexivity|]. split; [by auto|]. exists name. eexists _, _. split; [reflexivity|]. split; [by auto|].
         at_byte identity. exists (Z.of_nat (List.length cols)). eexists _, _. split; [reflexivity|]. split; [split; [done|lia]|].
         exists cols, s, "". rewrite Nat2Z.id. split; [reflexivity|]. split; [by split; [|apply columns_in_turn]|done]. }
    by rewrite ?str_app_nil_r, ?str_app_assoc.
Qed.

(** Decoding accepts exactly the messages of the format. *)
Lemma decode_wire d m : decode d = (m, None) <-> wire m d.
Proof.
  destruct d as [|k b]; [split; [done|inversion 1]|].
  destruct (is_byte_spec k "B") as [->|NB]; [apply decode_begin|]. destruct (is_byte_spec k "C") as [->|NC]; [apply decode_commit|].
  destruct (is_byte_spec k "R") as [->|NR]; [apply decode_relation|]. destruct (is_byte_spec k "I") as [->|NI]; [apply decode_insert|].
  destruct (is_byte_spec k "U") as [->|NU]; [apply decode_update|]. destruct (is_byte_spec k "D") as [->|ND]; [apply decode_delete|].
  unfold decode, decode_body. repeat match goal with N : k <> ?c |- _ => rewrite (proj2 (Ascii.eqb_neq k c) N : is_byte k c = false) end.
  cbn. split.
  - intros [= <-]. apply wire_other. cbn. repeat (destruct (ascii_dec _ _); [congruence|]). done.
  - inversion 1; subst; done.
Qed.
