(* ===== verification/PgChanges.v ===== *)
(** Change capture: [src/pkg/connector/postgres/changes.go], and [Poll] of [postgres.go].
    The database is outside: [PgServer] holds the answers to the connector's queries.
    Names of events are ASCII, as [Snake] reads them here; the metric of retained log is
    left out. *)

From S2P Require Import Turgon Prelude GoStr GoErr Engine PgOutput.
From Stdlib Require Import Ascii String.

(** ** Configuration *)

(** [Change]. *)
Record Change := mkChange {
  ch_Table : string;
  ch_Operations : list string;
  ch_Slot : string;
  ch_Publication : string
}.

(** [Snake]. *)
Fixpoint snake_from (prev : ascii) (s : string) : string :=
  match s with
  | "" => ""
  | String c s =>
      (if is_upper c && (is_lower prev || is_digit prev) then "_" else "") +++ String (lower_byte c) (snake_from c s)
  end.
Definition Snake (s : string) : string := snake_from zero s.

Definition name_byte (c : ascii) : ascii := if is_lower c || is_digit c then c else "_"%char.
Fixpoint name_bytes (s : string) : string :=
  match s with "" => "" | String c s => String (name_byte c) (name_bytes s) end.

(** [defaultName]: at most 63 bytes. *)
Definition defaultName (event : string) : string :=
  fst (str_cut 63 ("turgon_" +++ name_bytes (Snake event))).

Definition withDefaults (ch : Change) (event : string) : Change :=
  mkChange (ch_Table ch)
    (match ch_Operations ch with [] => ["insert"] | ops => ops end)
    (if String.eqb (ch_Slot ch) "" then defaultName event else ch_Slot ch)
    (if String.eqb (ch_Publication ch) "" then defaultName event else ch_Publication ch).

(** [pgName]. *)
Definition pg_name (s : string) : bool :=
  match s with
  | "" => false
  | String c r => (is_lower c || Ascii.eqb c "_") && str_all (fun c => is_lower c || is_digit c || Ascii.eqb c "_") r &&
                  (String.length r <=? 62)%nat
  end.

Definition known_operation (op : string) : bool := existsb (String.eqb op) ["insert"; "update"; "delete"].

(** [Change.validate]. *)
Definition validate (ch : Change) : option goerr :=
  if String.eqb (ch_Table ch) "" then Some (Errorf (Msg "table is required" []))
  else match first_error (fun op => if known_operation op then None
                 else Some (Errorf (Msg "unknown operation %q (want insert, update or delete)" [FStr op]))) (ch_Operations ch) with
       | Some e => Some e
       | None => first_error (fun n => if pg_name n then None
                   else Some (Errorf (Msg "%q is not a valid slot or publication name (lower-case letters, digits and _, at most 63)" [FStr n])))
                   [ch_Slot ch; ch_Publication ch]
       end.

Definition wants (ch : Change) (op : string) : bool := existsb (String.eqb op) (ch_Operations ch).

(** ** Positions *)

Definition indexBits : Z := 15.
Definition maxIndex : Z := 2 ^ indexBits - 1.
Definition maxLSN : Z := 2 ^ (63 - indexBits) - 1.

(** [uint64] arithmetic, and the [int64] it is kept in. *)
Definition u64_of (z : Z) : Z := z mod int_mod.
Definition position (commit index : Z) : Z := wrap (Z.lor (u64_of (Z.shiftl commit indexBits)) (u64_of index)).
Definition commitOf (pos : Z) : Z := Z.shiftr (u64_of pos) indexBits.

(** [strconv.ParseUint(s, 16, 32)]. *)
Fixpoint hex_value (acc : Z) (s : string) : option Z :=
  match s with
  | "" => Some acc
  | String c s => match unhex c with Some d => hex_value (16 * acc + Z.of_N d) s | None => None end
  end.
Definition parse_hex32 (s : string) : option Z :=
  match s, hex_value 0 s with
  | "", _ => None
  | _, Some z => if (z <? 2 ^ 32)%Z then Some z else None
  | _, None => None
  end.

Definition parseLSN (s : string) : result Z :=
  let bad := Err (Errorf (Msg "invalid LSN %q" [FStr s])) in
  match cut_first "/" s with
  | None => bad
  | Some (hi, lo) =>
      match parse_hex32 hi, parse_hex32 lo with
      | Some h, Some l => Ok (Z.lor (u64_of (Z.shiftl h 32)) l)
      | _, _ => bad
      end
  end.

(** [%X] and [%016X] of an unsigned number. *)
Fixpoint hex_digits (fuel : nat) (z : Z) (acc : string) : string :=
  match fuel with
  | O => acc
  | S fuel =>
      let acc := String (hex_digit (Z.to_N (z mod 16))) acc in
      if (z / 16 =? 0)%Z then acc else hex_digits fuel (z / 16) acc
  end.
Definition format_hex (z : Z) : string := hex_digits 16 z "".
Fixpoint hex_padded (n : nat) (z : Z) (acc : string) : string :=
  match n with
  | O => acc
  | S n => hex_padded n (z / 16) (String (hex_digit (Z.to_N (z mod 16))) acc)
  end.

Definition formatLSN (lsn : Z) : string := format_hex (Z.shiftr lsn 32) +++ "/" +++ format_hex (lsn mod 2 ^ 32).

(** ** Rows *)

(** A value of a payload, before it is written as JSON. *)
Inductive row_value := VNull | VBool (b : bool) | VNumber (s : string) | VJSON (s : string) | VText (s : string).

(** The standard library and the driver: numbers that parse and are finite, JSON, times in
    RFC 3339, and writing an object. *)
Class TextTypes := {
  finite_number : string -> bool;
  json_valid : string -> bool;
  scan_timestamptz : string -> option string;
  scan_timestamp : string -> option string;
  marshal_row : gmap string row_value -> result string
}.

Section rows.
Context `{TT : TextTypes}.

(** [textValue], by the OIDs of [pgtype]. *)
Definition textValue (oid : Z) (s : string) : row_value :=
  if (oid =? 16)%Z then VBool (String.eqb s "t")
  else if existsb (Z.eqb oid) [21; 23; 20; 26]%Z then VNumber s
  else if existsb (Z.eqb oid) [700; 701; 1700]%Z then (if finite_number s then VNumber s else VText s)
  else if existsb (Z.eqb oid) [114; 3802]%Z then (if json_valid s then VJSON s else VText s)
  else if (oid =? 1184)%Z then match scan_timestamptz s with Some t => VText t | None => VText s end
  else if (oid =? 1114)%Z then match scan_timestamp s with Some t => VText t | None => VText s end
  else VText s.

Fixpoint row_object (cols : list column) (row : list tupleValue) (obj : gmap string row_value) : gmap string row_value :=
  match cols, row with
  | c :: cols, v :: row =>
      row_object cols row
        (if is_byte (tv_kind v) "u" then obj
         else if is_byte (tv_kind v) "n" then <[co_name c := VNull]> obj
         else <[co_name c := textValue (co_oid c) (tv_data v)]> obj)
  | _, _ => obj
  end.

(** [rowJSON]. *)
Definition rowJSON (rel : relation) (row : list tupleValue) : result string :=
  if negb (List.length row =? List.length (re_columns rel))%nat then
    Err (Errorf (Msg "%s.%s: row has %d columns, relation %d"
      [FStr (re_namespace rel); FStr (re_name rel); FInt (Z.of_nat (List.length row)); FInt (Z.of_nat (List.length (re_columns rel)))]))
  else marshal_row (row_object (re_columns rel) row ∅).
End rows.

(** ** The database *)

(** The queries of change capture, in the order it makes them, and the outbox's. The rows of
    a peek come one by one, each may fail to be read, and an error may end them; [db_code]
    is the SQLSTATE of an error ([errors.As] of a [PgError]). *)
Class PgServer (D : Type) := {
  db_regclass : string -> D -> result (option Z) * D;
  db_published : string -> D -> result bool * D;
  db_identity : Z -> D -> result (string * bool) * D;
  db_create_publication : string -> string -> list string -> D -> option goerr * D;
  db_has_slot : string -> D -> result bool * D;
  db_create_slot : string -> D -> option goerr * D;
  db_confirmed : string -> D -> result (option string) * D;
  db_flush_lsn : D -> result string * D;
  db_peek : string -> string -> Z -> string -> D -> result (list (result string) * option goerr) * D;
  db_advance : string -> string -> D -> option goerr * D;
  db_outbox : string -> string -> Z -> Z -> D -> result (list (Z * string) * option goerr) * D;
  db_code : goerr -> option string
}.

(** [Conn]: the database and the tables of the events that are prepared. *)
Record Conn (D : Type) := mkConn { cn_prepared : gmap string Z; cn_db : D }.
Arguments mkConn {_} _ _.
Arguments cn_prepared {_} _.
Arguments cn_db {_} _.

Definition ErrSlotBusy : string := "replication slot is in use by another worker".

Section capture.
Context {D : Type} `{SV : PgServer D} `{TT : TextTypes}.

Definition Q (A : Type) : Type := Conn D -> A * Conn D.
#[export] Instance Q_ret : MRet Q := fun A a c => (a, c).
#[export] Instance Q_bind : MBind Q := fun A B k m c => let (a, c) := m c in k a c.

Definition query {A} (f : D -> A * D) : Q A := fun c => let (a, d) := f (cn_db c) in (a, mkConn (cn_prepared c) d).

(** Goes on with the value of an answer, or returns its error. *)
Definition andThen {A B} (r : result A) (k : A -> Q (result B)) : Q (result B) :=
  match r with Ok a => k a | Err e => mret (Err e) end.

Definition busy (e : goerr) : goerr :=
  match db_code e with
  | Some code => if String.eqb code "55006" then Wrapf (Msg "%w: %v" [FErr e]) [Sentinel ErrSlotBusy] else e
  | None => e
  end.

(** [replicaIdentity]. *)
Definition replicaIdentity (reloid : Z) (ch : Change) : Q (option goerr) :=
  if negb (wants ch "update") && negb (wants ch "delete") then mret None
  else
    r ← query (db_identity reloid);
    mret (match r with
      | Err e => Some e
      | Ok (ident, pk) =>
          if String.eqb ident "n" || (String.eqb ident "d" && negb pk) then
            Some (Errorf (Msg "%s has no primary key or replica identity: publishing its updates and deletes would make Postgres reject them. Add a primary key, or ALTER TABLE %s REPLICA IDENTITY FULL"
              [FStr (ch_Table ch); FStr (ch_Table ch)]))
          else None
      end).

Definition remember (event : string) (reloid : Z) : Q (result Z) := fun c =>
  (Ok reloid, mkConn (<[event := reloid]> (cn_prepared c)) (cn_db c)).

(** Makes the publication and the slot, and remembers the table. *)
Definition make_slot (event : string) (ch : Change) (reloid : Z) : Q (result Z) :=
  r ← query (db_has_slot (ch_Slot ch));
  andThen r (fun slot =>
    e ← (if slot : bool then mret None else query (db_create_slot (ch_Slot ch)));
    match e with
    | Some e =>
        if bool_decide (db_code e = Some "42710") then remember event reloid
        else mret (Err (Wrapf (Msg "create replication slot %s: %w (it needs wal_level = logical and a user with the REPLICATION attribute)" [FStr (ch_Slot ch)]) [e]))
    | None => remember event reloid
    end).

Definition make_publication (ch : Change) (reloid : Z) : Q (option goerr) :=
  e ← replicaIdentity reloid ch;
  match e with
  | Some e => mret (Some e)
  | None =>
      e ← query (db_create_publication (ch_Publication ch) (ch_Table ch) (ch_Operations ch));
      mret (match e with
        | Some e => Some (Wrapf (Msg "create publication %s: %w (a user owning the table can run: %s)" [FStr (ch_Publication ch)]) [e])
        | None => None
        end)
  end.

(** [prepare]: the event's publication and slot, made if they are missing, and its table. *)
Definition prepare (event : string) (ch : Change) : Q (result Z) := fun c =>
  match cn_prepared c !! event with
  | Some oid => (Ok oid, c)
  | None =>
      (r ← query (db_regclass (ch_Table ch));
       andThen r (fun reloid =>
         match reloid with
         | None => mret (Err (Errorf (Msg "table %s does not exist" [FStr (ch_Table ch)])))
         | Some reloid =>
             r ← query (db_published (ch_Publication ch));
             andThen r (fun published =>
               made ← (if published : bool then mret None else make_publication ch reloid);
               match made with
               | Some e => mret (Err e)
               | None => make_slot event ch reloid
               end)
         end)) c
  end.

Definition advance (slot : string) (lsn : Z) : Q (option goerr) :=
  e ← query (db_advance slot (formatLSN lsn));
  mret (match e with Some e => Some (busy (Wrapf (Msg "postgres: advance slot %s: %w" [FStr slot]) [e])) | None => None end).

Definition forget (event : string) : Q unit := fun c => (tt, mkConn (delete event (cn_prepared c)) (cn_db c)).

(** What the loop over the rows of a peek keeps. *)
Record scan := mkScan {
  sc_out : list Event;
  sc_rels : gmap Z relation;
  sc_commit : Z;
  sc_index : Z;
  sc_read : Z
}.

Definition in_event (event : string) (e : goerr) : goerr := Wrapf (Msg "postgres: %s: %w" [FStr event]) [e].

Definition operation_of (kind : ascii) : string :=
  if is_byte kind "I" then "insert" else if is_byte kind "U" then "update" else "delete".

(** A change of the event's table. *)
Definition scan_change (event : string) (ch : Change) (reloid after : Z) (m : wal_message) (s : scan) : result scan :=
  if negb (wm_relID m =? reloid)%Z then Ok s
  else
    let index := (sc_index s + 1)%Z in
    let s := mkScan (sc_out s) (sc_rels s) (sc_commit s) index (sc_read s) in
    if (maxIndex <? index)%Z then
      Err (Errorf (Msg "postgres: %s: the transaction committed at %s changed more than %d rows of %s; change capture cannot order more (use the outbox for bulk changes)"
        [FStr event; FStr (formatLSN (sc_commit s)); FInt maxIndex; FStr (ch_Table ch)]))
    else
      let pos := position (sc_commit s) index in
      if (pos <=? after)%Z || negb (wants ch (operation_of (wm_kind m))) then Ok s
      else
        match sc_rels s !! wm_relID m with
        | None => Err (Errorf (Msg "postgres: %s: change to relation %d before its description" [FStr event; FInt (wm_relID m)]))
        | Some rel =>
            match rowJSON rel (if is_byte (wm_kind m) "D" then wm_oldRow m else wm_newRow m) with
            | Err e => Err (in_event event e)
            | Ok payload =>
                Ok (mkScan (sc_out s ++ [mkSourceEvent (hex_padded 16 (sc_commit s) "" +++ "." +++ itoa index) pos event payload])
                  (sc_rels s) (sc_commit s) index (sc_read s))
            end
        end.

(** One row of a peek. *)
Definition scan_row (event : string) (ch : Change) (reloid after limit : Z) (row : result string) (s : scan) : result scan :=
  let s := mkScan (sc_out s) (sc_rels s) (sc_commit s) (sc_index s) (sc_read s + 1) in
  match row with
  | Err e => Err e
  | Ok data =>
      if (limit <=? Z.of_nat (List.length (sc_out s)))%Z then Ok s
      else
        match decode data with
        | (_, Some e) => Err (in_event event e)
        | (m, None) =>
            if is_byte (wm_kind m) "B" then
              if (maxLSN <? wm_finalLSN m)%Z then
                Err (Errorf (Msg "postgres: %s: LSN %s is past what change capture positions can hold" [FStr event; FStr (formatLSN (wm_finalLSN m))]))
              else Ok (mkScan (sc_out s) (sc_rels s) (wm_finalLSN m) 0 (sc_read s))
            else if is_byte (wm_kind m) "R" then
              match wm_rel m with
              | Some rel => Ok (mkScan (sc_out s) (<[re_id rel := rel]> (sc_rels s)) (sc_commit s) (sc_index s) (sc_read s))
              | None => Ok s
              end
            else if existsb (is_byte (wm_kind m)) ["I"; "U"; "D"]%char then scan_change event ch reloid after m s
            else Ok s
        end
  end.

Fixpoint scan_rows (event : string) (ch : Change) (reloid after limit : Z) (rows : list (result string)) (s : scan) : result scan :=
  match rows with
  | [] => Ok s
  | row :: rows => rbind (scan_row event ch reloid after limit row s) (scan_rows event ch reloid after limit rows)
  end.

Definition no_scan : scan := mkScan [] ∅ 0 0 0.

(** The end of a poll: with nothing to deliver and all of the log read, release it. *)
Definition release_quiet (ch : Change) (after confirmed upto budget : Z) (s : scan) : Q (result (list Event)) :=
  match sc_out s with
  | [] =>
      if (sc_read s <? budget)%Z && (Z.max confirmed (commitOf after) <? upto)%Z then
        e ← advance (ch_Slot ch) upto;
        mret (match e with Some e => Err e | None => Ok [] end)
      else mret (Ok [])
  | out => mret (Ok out)
  end.

(** Peeks at what was logged up to [upto], and turns it into events. *)
Definition read_slot (event : string) (ch : Change) (reloid after limit confirmed : Z) (uptoText : string) (upto : Z) : Q (result (list Event)) :=
  let budget := (limit * 4 + 64)%Z in
  let fault e := busy (Wrapf (Msg "postgres: %s: read slot %s: %w" [FStr event; FStr (ch_Slot ch)]) [e]) in
  r ← query (db_peek (ch_Slot ch) uptoText budget (ch_Publication ch));
  match r with
  | Err e => mret (Err (fault e))
  | Ok (rows, failed) =>
      match scan_rows event ch reloid after limit rows no_scan, failed with
      | Err e, _ => mret (Err e)
      | Ok _, Some e => mret (Err (fault e))
      | Ok s, None => release_quiet ch after confirmed upto budget s
      end
  end.

(** [pollChanges]. *)
Definition pollChanges (event : string) (ch : Change) (after limit : Z) : Q (result (list Event)) :=
  r ← prepare event ch;
  match r with
  | Err e => mret (Err (in_event event e))
  | Ok reloid =>
      r ← query (db_confirmed (ch_Slot ch));
      match r with
      | Err e => mret (Err (in_event event e))
      | Ok None =>
          _ ← forget event;
          mret (Err (Errorf (Msg "postgres: %s: replication slot %s was dropped" [FStr event; FStr (ch_Slot ch)])))
      | Ok (Some confirmedText) =>
          andThen (parseLSN confirmedText) (fun confirmed =>
            e ← (if (0 <? after)%Z && (confirmed <? commitOf after)%Z then advance (ch_Slot ch) (commitOf after) else mret None);
            match e with
            | Some e => mret (Err e)
            | None =>
                r ← query db_flush_lsn;
                andThen r (fun uptoText =>
                  andThen (parseLSN uptoText) (fun upto => read_slot event ch reloid after limit confirmed uptoText upto))
            end)
      end
  end.

(** [Poll]: by change capture if the event is configured so, from the outbox otherwise. *)
Definition Poll_postgres (changes : gmap string Change) (outbox : option string) (event : string) (after limit : Z) : Q (result (list Event)) :=
  match changes !! event with
  | Some ch =>
      r ← pollChanges event ch after limit;
      mret (match r with
        | Err e => if errors_is e ErrSlotBusy then Ok [] else Err e
        | Ok events => Ok events
        end)
  | None =>
      match outbox with
      | None => mret (Err (Errorf (Msg "postgres: event %s has no change capture configured, and this connection no outbox" [FStr event])))
      | Some table =>
          r ← query (db_outbox table event after limit);
          mret (match r with
            | Err e => Err (Wrapf (Msg "postgres: poll outbox: %w" []) [e])
            | Ok (_, Some e) => Err e
            | Ok (rows, None) => Ok (map (fun '(id, payload) => mkSourceEvent (itoa id) id event payload) rows)
            end)
      end
  end.
End capture.
