(* ===== verification/PgChangesProps.v ===== *)
(** What change capture reads: positions follow commit order, and a poll of a slot returns
    the changes of the log after a position, in order and without gaps, and releases none
    that is still to be read. *)

From S2P Require Import Turgon Prelude GoStr GoText GoErr Engine RuntimeSpec Dispatcher DispatcherTheorems PgTheorems PgOutput PgChanges.
From Stdlib Require Import Ascii String.

(** ** Positions *)

Lemma position_value c i : (0 <= c <= maxLSN)%Z -> (0 <= i <= maxIndex)%Z -> position c i = (c * 2 ^ 15 + i)%Z.
Proof.
  unfold maxLSN, maxIndex, indexBits. intros Hc Hi. cbn in Hc, Hi. unfold position, u64_of, int_mod, indexBits.
  rewrite Z.shiftl_mul_pow2 by lia. rewrite !Z.mod_small by lia.
  assert (E : Z.land (c * 2 ^ 15) i = 0%Z).
  { apply Z.bits_inj'. intros n Hn. rewrite Z.land_spec, Z.bits_0. destruct (Z.ltb_spec n 15) as [L|L].
    - by rewrite Z.mul_pow2_bits_low.
    - rewrite (Z.bits_above_log2 i n), andb_false_r; [done|lia|]. destruct (Z.eq_dec i 0) as [->|]; [cbn; lia|].
      apply Z.lt_le_trans with 15%Z; [|done]. apply Z.log2_lt_pow2; lia. }
  pose proof (Z.add_lor_land (c * 2 ^ 15) i) as Ea. rewrite E, Z.add_0_r in Ea. rewrite <- Ea.
  apply wrap_small. unfold int_min, int_max. lia.
Qed.

Lemma commitOf_position c i : (0 <= c <= maxLSN)%Z -> (0 <= i <= maxIndex)%Z -> commitOf (position c i) = c.
Proof.
  intros Hc Hi. rewrite position_value by done. unfold maxLSN, maxIndex, indexBits in *. cbn in Hc, Hi.
  unfold commitOf, u64_of, int_mod, indexBits. rewrite Z.mod_small by lia. rewrite Z.shiftr_div_pow2 by lia.
  symmetry. apply (Z.div_unique _ _ _ i); lia.
Qed.

(** Any position a cursor holds lies in the transaction it names. *)
Lemma commitOf_le p c i : (0 <= p)%Z -> (p <= int_max)%Z -> (0 <= c <= maxLSN)%Z -> (1 <= i <= maxIndex)%Z ->
  (c < commitOf p)%Z -> (position c i <= p)%Z.
Proof.
  intros Hp Hm Hc Hi H. rewrite position_value by lia. unfold maxLSN, maxIndex, indexBits, int_max in *. cbn in Hc, Hi.
  unfold commitOf, u64_of, int_mod, indexBits in H. rewrite Z.mod_small in H by lia. rewrite Z.shiftr_div_pow2 in H by lia.
  assert ((c + 1) * 2 ^ 15 <= p)%Z by (etrans; [|apply (Z.mul_div_le p (2 ^ 15)); lia]; nia). lia.
Qed.

(** ** LSNs *)

Lemma hex_digit_slash n : (n < 16)%N -> negb (Ascii.eqb (hex_digit n) "/") = true.
Proof. intros H. destruct n as [|p]; [done|]. do 4 (destruct p as [p|p|]; try reflexivity); lia. Qed.

Lemma unhex_mod z : unhex (hex_digit (Z.to_N (z mod 16))) = Some (Z.to_N (z mod 16)).
Proof. apply unhex_digit. pose proof (Z.mod_pos_bound z 16). lia. Qed.

Lemma hex_digits_value fuel z acc : (0 <= z < 16 ^ Z.of_nat fuel)%Z ->
  exists ds, hex_digits fuel z acc = ds +++ acc /\ str_all (fun c => negb (Ascii.eqb c "/")) ds = true /\ (fuel <> 0 -> ds <> "") /\
    forall a s, hex_value a (ds +++ s) = hex_value (a * 16 ^ Z.of_nat (String.length ds) + z)%Z s.
Proof.
  revert z acc. induction fuel as [|fuel IH]; intros z acc Hz.
  { exists "". cbn. repeat split; try done. intros a s. f_equal. cbn in Hz. lia. }
  cbn [hex_digits]. set (d := hex_digit _). pose proof (Z.mod_pos_bound z 16 ltac:(lia)) as Hm. pose proof (Z.div_mod z 16 ltac:(lia)) as Hd.
  assert (Hds : negb (Ascii.eqb d "/") = true).
  { apply hex_digit_slash. lia. }
  assert (Hone : forall a s, hex_value a (String d s) = hex_value (16 * a + z mod 16) s).
  { intros a s. cbn. unfold d. rewrite unhex_mod. by rewrite Z2N.id by lia. }
  destruct (Z.eqb_spec (z / 16) 0) as [E0|N0].
  - exists (String d ""). cbn [str_all String.append]. rewrite Hds. repeat split; [done|]. intros a s. rewrite Hone. f_equal. cbn. lia.
  - rewrite Nat2Z.inj_succ, Z.pow_succ_r in Hz by lia.
    destruct (IH (z / 16)%Z (String d acc)) as (ds & E & Hall & _ & Hv).
    { split; [apply Z.div_pos; lia|]. apply Z.div_lt_upper_bound; lia. }
    exists (ds +++ String d ""). rewrite E, str_app_assoc. repeat split; [rewrite str_all_app, Hall; cbn; by rewrite Hds|by destruct ds|].
    intros a s. rewrite str_app_assoc, Hv. cbn [String.append]. rewrite Hone. f_equal.
    rewrite str_length_app. cbn [String.length]. rewrite Nat2Z.inj_add, Z.pow_add_r by lia. cbn. lia.
Qed.

Lemma format_hex_value z : (0 <= z < 2 ^ 32)%Z -> parse_hex32 (format_hex z) = Some z /\ contains_byte "/" (format_hex z) = false.
Proof.
  intros Hz. destruct (hex_digits_value 16 z "") as (ds & E & Hall & Hne & Hv); [change (16 ^ Z.of_nat 16)%Z with (2 ^ 64)%Z; lia|].
  unfold format_hex. rewrite E, str_app_nil_r. split.
  - specialize (Hv 0%Z ""). rewrite str_app_nil_r in Hv. cbn [hex_value] in Hv. rewrite Z.mul_0_l, Z.add_0_l in Hv.
    assert (Hds : parse_hex32 ds = match hex_value 0 ds with Some z => if (z <? 2 ^ 32)%Z then Some z else None | None => None end) by (destruct ds; [by destruct Hne|done]).
    rewrite Hds, Hv. by rewrite (proj2 (Z.ltb_lt _ _)) by lia.
  - clear - Hall. induction ds as [|c ds IH]; [done|]. cbn in *. destruct (Ascii.eqb_spec c "/"); [done|]. destruct (ascii_dec c "/"); [done|]. by apply IH.
Qed.

Lemma parse_formatLSN l : (0 <= l < 2 ^ 64)%Z -> parseLSN (formatLSN l) = Ok l.
Proof.
  intros Hl. unfold parseLSN, formatLSN. assert (Hh : (0 <= Z.shiftr l 32 < 2 ^ 32)%Z).
  { rewrite Z.shiftr_div_pow2 by lia. split; [apply Z.div_pos; lia|]. apply Z.div_lt_upper_bound; lia. }
  destruct (format_hex_value _ Hh) as [Ph Ch]. pose proof (Z.mod_pos_bound l (2 ^ 32) ltac:(lia)) as Hm.
  destruct (format_hex_value _ Hm) as [Pm _].
  rewrite (proj2 (cut_first_spec "/" _ (format_hex (Z.shiftr l 32)) (format_hex (l mod 2 ^ 32)))) by by split.
  rewrite Ph, Pm. f_equal. unfold u64_of, int_mod. rewrite Z.shiftl_mul_pow2 by lia. rewrite Z.mod_small by lia.
  rewrite <- (Z.land_ones l 32) by lia. rewrite <- Z.shiftl_mul_pow2 by lia. apply Z.bits_inj'. intros n Hn.
  rewrite Z.lor_spec, Z.shiftl_spec, Z.land_spec by lia. destruct (Z.ltb_spec n 32) as [L|L].
  - rewrite Z.testbit_neg_r by lia. rewrite Z.ones_spec_low by lia. by rewrite andb_true_r.
  - rewrite Z.shiftr_spec, Z.ones_spec_high by lia. rewrite andb_false_r, orb_false_r. f_equal. lia.
Qed.

(** ** The log of a table *)

(** A change of a row as the log holds it, with the table's description at that time; the
    row is the old one of a delete. *)
Record row_change := mkRowChange { rc_kind : ascii; rc_rel : relation; rc_row : list tupleValue }.

(** A committed transaction. *)
Record txn := mkTxn { tx_commit : Z; tx_changes : list row_change }.

Definition of_kinds (l : list ascii) (m : wal_message) : bool := existsb (is_byte (wm_kind m)) l.

(** The messages between a begin and a commit tell the changes in turn, each after a
    description of its table. *)
Inductive tells : gmap Z relation -> list wal_message -> list row_change -> gmap Z relation -> Prop :=
| tells_nil rels : tells rels [] [] rels
| tells_relation rels m rel ms cs rels' : wm_kind m = "R"%char -> wm_rel m = Some rel ->
    tells (<[re_id rel := rel]> rels) ms cs rels' -> tells rels (m :: ms) cs rels'
| tells_change rels m c ms cs rels' : wm_kind m = rc_kind c -> of_kinds ["I"; "U"; "D"]%char m = true ->
    rels !! wm_relID m = Some (rc_rel c) -> re_id (rc_rel c) = wm_relID m ->
    rc_row c = (if is_byte (wm_kind m) "D" then wm_oldRow m else wm_newRow m) ->
    tells rels ms cs rels' -> tells rels (m :: ms) (c :: cs) rels'
| tells_other rels m ms cs rels' : of_kinds ["B"; "R"; "I"; "U"; "D"]%char m = false ->
    tells rels ms cs rels' -> tells rels (m :: ms) cs rels'.

Definition decodes (row : result string) (m : wal_message) : Prop := exists data, row = Ok data /\ decode data = (m, None).

(** The rows of a peek tell transactions. *)
Inductive tells_log : gmap Z relation -> list txn -> list (result string) -> gmap Z relation -> Prop :=
| tells_log_nil rels : tells_log rels [] [] rels
| tells_log_cons rels t b body ms rels1 ts rows rels2 :
    decodes b (mkWalMessage "B" (tx_commit t) 0 None 0 [] []) -> Forall2 decodes body ms -> tells rels ms (tx_changes t) rels1 ->
    tells_log rels1 ts rows rels2 -> tells_log rels (t :: ts) (b :: body ++ rows) rels2.

Section log.
Context `{TT : TextTypes} (event : string) (ch : Change) (reloid : Z).

Definition payload_of (c : row_change) : string := match rowJSON (rc_rel c) (rc_row c) with Ok p => p | Err _ => "" end.

Definition change_event (commit index : Z) (c : row_change) : Event :=
  mkSourceEvent (hex_padded 16 commit "" +++ "." +++ itoa index) (position commit index) event (payload_of c).

(** The events of a transaction: the wanted changes of the table, numbered among all its
    changes. *)
Fixpoint txn_events (commit index : Z) (l : list row_change) : list Event :=
  match l with
  | [] => []
  | c :: l =>
      if (re_id (rc_rel c) =? reloid)%Z then
        (if wants ch (operation_of (rc_kind c)) then [change_event commit (index + 1) c] else []) ++ txn_events commit (index + 1) l
      else txn_events commit index l
  end.

(** How many changes are the table's. *)
Definition own (l : list row_change) : Z := Z.of_nat (List.length (List.filter (fun c => re_id (rc_rel c) =? reloid)%Z l)).

Lemma own_cons c l : own (c :: l) = (own [c] + own l)%Z.
Proof. unfold own. cbn. destruct (_ =? _)%Z; cbn; lia. Qed.

Lemma own_nonneg l : (0 <= own l)%Z.
Proof. unfold own. lia. Qed.

Lemma own_one c : own [c] = (if (re_id (rc_rel c) =? reloid)%Z then 1 else 0)%Z.
Proof. unfold own. cbn. by destruct (_ =? _)%Z. Qed.

Definition log_events (w : list txn) : list Event := List.concat (map (fun t => txn_events (tx_commit t) 0 (tx_changes t)) w).

Definition table_changes (t : txn) : Z := own (tx_changes t).

Definition txn_ok (t : txn) : Prop := (0 < tx_commit t <= maxLSN)%Z /\ (table_changes t <= maxIndex)%Z.
Definition wal_ok (w : list txn) : Prop :=
  StronglySorted (fun t t' => tx_commit t < tx_commit t')%Z w /\ Forall txn_ok w.

Lemma txn_events_bounds commit index l ev : ev ∈ txn_events commit index l ->
  exists i, sev_Position ev = position commit i /\
    (index < i <= index + own l)%Z.
Proof.
  revert index. induction l as [|c l IH]; intros index H; [by apply elem_of_nil in H|]. rewrite own_cons, own_one. pose proof (own_nonneg l).
  cbn [txn_events] in H. destruct (re_id (rc_rel c) =? reloid)%Z; [|by apply IH].
  apply elem_of_app in H as [H|H].
  - destruct (wants _ _); [|by apply elem_of_nil in H]. apply list_elem_of_singleton in H as ->. exists (index + 1)%Z. split; [done|]. lia.
  - apply IH in H as (i & Hp & Hi). exists i. split; [done|]. lia.
Qed.

Lemma txn_events_sorted commit index l : (0 <= commit <= maxLSN)%Z -> (0 <= index)%Z ->
  (index + own l <= maxIndex)%Z ->
  StronglySorted before (txn_events commit index l).
Proof.
  intros Hc. revert index. induction l as [|c l IH]; intros index Hi Hl; [constructor|]. rewrite own_cons, own_one in Hl. pose proof (own_nonneg l).
  cbn [txn_events]. destruct (re_id (rc_rel c) =? reloid)%Z; [|by apply IH].
  specialize (IH (index + 1)%Z ltac:(lia) ltac:(lia)). destruct (wants _ _); [|done]. cbn. constructor; [done|].
  apply Forall_forall. intros ev Hev. apply txn_events_bounds in Hev as (i & Hp & Hb). unfold before. cbn. rewrite Hp.
  rewrite !position_value by lia. lia.
Qed.

Lemma log_events_app w w' : log_events (w ++ w') = log_events w ++ log_events w'.
Proof. unfold log_events. by rewrite map_app, List.concat_app. Qed.

Lemma in_log_events w ev : ev ∈ log_events w <-> exists t, t ∈ w /\ ev ∈ txn_events (tx_commit t) 0 (tx_changes t).
Proof.
  unfold log_events. rewrite !list_elem_of_In, List.in_concat. split.
  - intros (l & Hl & He). apply List.in_map_iff in Hl as (t & <- & Ht). exists t. by rewrite !list_elem_of_In.
  - intros (t & Ht & He). rewrite !list_elem_of_In in *. eexists. split; [apply List.in_map_iff; by exists t|done].
Qed.

(** An event's position lies in its transaction. *)
Lemma txn_event_position t ev : txn_ok t -> ev ∈ txn_events (tx_commit t) 0 (tx_changes t) ->
  exists i, (1 <= i <= maxIndex)%Z /\ sev_Position ev = position (tx_commit t) i.
Proof. intros [Hc Hn] H. apply txn_events_bounds in H as (i & -> & Hi). unfold table_changes in Hn. exists i. split; [lia|done]. Qed.

Lemma sorted_join {A} (R : A -> A -> Prop) l1 l2 :
  StronglySorted R l1 -> StronglySorted R l2 -> (forall x y, x ∈ l1 -> y ∈ l2 -> R x y) -> StronglySorted R (l1 ++ l2).
Proof.
  induction 1 as [|x l1 H1 IH Hx]; intros H2 H; [done|]. cbn. constructor.
  - apply IH; [done|]. intros y z Hy Hz. apply H; [by right|done].
  - apply Forall_app. split; [done|]. apply Forall_forall. intros y Hy. apply H; [left|done].
Qed.

Lemma log_events_ordered w : wal_ok w -> ordered_log (log_events w).
Proof.
  intros [Hs Hok]. split.
  - induction Hs as [|t w Hs IH Ht]; [constructor|]. inversion Hok as [|? ? Htok Hok']; subst. cbn.
    apply sorted_join; [|by apply IH|].
    + apply txn_events_sorted; destruct Htok as [? Hn]; unfold table_changes in Hn; lia.
    + intros x y Hx Hy. apply in_log_events in Hy as (t' & Ht' & Hy). rewrite Forall_forall in Ht, Hok'. specialize (Ht _ Ht').
      destruct (txn_event_position _ _ Htok Hx) as (i & Hi & Ex), (txn_event_position _ _ (Hok' _ Ht') Hy) as (j & Hj & Ey).
      unfold before. rewrite Ex, Ey. destruct Htok as [? _], (Hok' _ Ht') as [? _]. rewrite !position_value by lia.
      unfold maxIndex, indexBits in *. cbn in Hi, Hj. lia.
  - apply Forall_forall. intros ev Hev. apply in_log_events in Hev as (t & Ht & Hev). rewrite Forall_forall in Hok.
    destruct (txn_event_position _ _ (Hok _ Ht) Hev) as (i & Hi & ->). destruct (Hok _ Ht) as [? _]. rewrite position_value by lia. lia.
Qed.

(** ** The scan *)

Context (after limit : Z).

#[local] Abbreviation row_step := (scan_row event ch reloid after limit).
#[local] Abbreviation rows_step := (scan_rows event ch reloid after limit).
Definition full (s : scan) : Prop := (limit <= Z.of_nat (List.length (sc_out s)))%Z.

Lemma scan_rows_app rows rows' s : rows_step (rows ++ rows') s = rbind (rows_step rows s) (rows_step rows').
Proof.
  revert s. induction rows as [|row rows IH]; intros s; [done|]. cbn. destruct (row_step row s); [|done]. apply IH.
Qed.

Lemma scan_row_full row s s' : full s -> row_step row s = Ok s' -> sc_out s' = sc_out s /\ sc_read s' = (sc_read s + 1)%Z.
Proof.
  unfold full, scan_row. cbn [sc_out sc_read]. intros H. destruct row as [data|]; [|done]. rewrite (proj2 (Z.leb_le _ _)) by done.
  by intros [= <-].
Qed.

Lemma scan_rows_full rows s s' : full s -> rows_step rows s = Ok s' ->
  sc_out s' = sc_out s /\ sc_read s' = (sc_read s + Z.of_nat (List.length rows))%Z.
Proof.
  revert s. induction rows as [|row rows IH]; intros s Hf H.
  - injection H as <-. cbn. split; [done|lia].
  - cbn [scan_rows] in H. destruct (row_step row s) as [s1|] eqn:E; [|done]. cbn [rbind] in H.
    apply scan_row_full in E as [Eo Er]; [|done]. apply IH in H as [-> ->]; [|by unfold full; rewrite Eo].
    rewrite Eo, Er. split; [done|]. cbn [List.length]. lia.
Qed.

(** What the scan of some rows gives: the events told, up to the limit, and while there is
    room, where the scan stands. *)
Definition scanned (s s' : scan) (evs : list Event) (n : nat) (rels : gmap Z relation) (index : Z) : Prop :=
  sc_out s' = List.firstn (Z.to_nat limit) (sc_out s ++ log_after evs after) /\
  sc_read s' = (sc_read s + Z.of_nat n)%Z /\
  (full s' \/ sc_rels s' = rels /\ sc_commit s' = sc_commit s /\ sc_index s' = index).

Lemma full_firstn s l : full s -> List.length (sc_out s) <= Z.to_nat limit ->
  sc_out s = List.firstn (Z.to_nat limit) (sc_out s ++ l).
Proof.
  unfold full. intros H H'. rewrite List.firstn_app. rewrite List.firstn_all2 by lia.
  replace (Z.to_nat limit - List.length (sc_out s)) with 0 by lia. by rewrite app_nil_r.
Qed.

Lemma scan_change_told m c s s' : wm_kind m = rc_kind c -> sc_rels s !! wm_relID m = Some (rc_rel c) -> re_id (rc_rel c) = wm_relID m ->
  rc_row c = (if is_byte (wm_kind m) "D" then wm_oldRow m else wm_newRow m) ->
  scan_change event ch reloid after m s = Ok s' ->
  sc_out s' = sc_out s ++ log_after (txn_events (sc_commit s) (sc_index s) [c]) after /\ sc_read s' = sc_read s /\ sc_rels s' = sc_rels s /\
  sc_commit s' = sc_commit s /\
  sc_index s' = (sc_index s + own [c])%Z.
Proof.
  intros Hk Hr Hid Hrow H. unfold scan_change in H. rewrite own_one. cbn [txn_events]. rewrite Hid.
  destruct (wm_relID m =? reloid)%Z; cbn [negb] in H.
  2: { injection H as <-. cbn. rewrite app_nil_r, Z.add_0_r. done. }
  cbv zeta in H. destruct (maxIndex <? sc_index s + 1)%Z; [done|]. cbn [sc_commit sc_rels sc_out sc_index sc_read] in H. rewrite app_nil_r.
  rewrite Hk in H, Hrow. destruct (wants ch (operation_of (rc_kind c))); cbn [negb orb] in H.
  2: { rewrite orb_true_r in H. injection H as <-. cbn. by rewrite app_nil_r. }
  rewrite orb_false_r in H. unfold log_after. cbn [List.filter change_event sev_Position].
  destruct (Z.leb_spec (position (sc_commit s) (sc_index s + 1)) after) as [L|L].
  { injection H as <-. rewrite (proj2 (Z.ltb_ge _ _)) by lia. cbn. by rewrite app_nil_r. }
  rewrite (proj2 (Z.ltb_lt _ _)) by lia. rewrite Hr, <- Hrow in H. unfold change_event, payload_of.
  destruct (rowJSON (rc_rel c) (rc_row c)) as [p|]; [|done]. by injection H as <-.
Qed.

Lemma log_after_app l l' a : log_after (l ++ l') a = log_after l a ++ log_after l' a.
Proof. apply List.filter_app. Qed.

Lemma txn_events_cons commit index c l :
  txn_events commit index (c :: l) = txn_events commit index [c] ++
    txn_events commit (index + own [c])%Z l.
Proof.
  rewrite own_one. cbn [txn_events]. destruct (re_id (rc_rel c) =? reloid)%Z; [by rewrite app_nil_r|]. by rewrite Z.add_0_r.
Qed.

Definition counted (s : scan) : scan := mkScan (sc_out s) (sc_rels s) (sc_commit s) (sc_index s) (sc_read s + 1).

Lemma scan_row_decoded data m s : ~ full s -> decode data = (m, None) ->
  row_step (Ok data) s =
    if is_byte (wm_kind m) "B" then
      if (maxLSN <? wm_finalLSN m)%Z then
        Err (Errorf (Msg "postgres: %s: LSN %s is past what change capture positions can hold" [FStr event; FStr (formatLSN (wm_finalLSN m))]))
      else Ok (mkScan (sc_out s) (sc_rels s) (wm_finalLSN m) 0 (sc_read s + 1))
    else if is_byte (wm_kind m) "R" then
      match wm_rel m with
      | Some rel => Ok (mkScan (sc_out s) (<[re_id rel := rel]> (sc_rels s)) (sc_commit s) (sc_index s) (sc_read s + 1))
      | None => Ok (counted s)
      end
    else if of_kinds ["I"; "U"; "D"]%char m then scan_change event ch reloid after m (counted s)
    else Ok (counted s).
Proof.
  intros Hf Hd. unfold scan_row. cbn [sc_out]. unfold full in Hf. rewrite (proj2 (Z.leb_gt _ _)) by lia. by rewrite Hd.
Qed.

Lemma of_kinds_other l m c : of_kinds l m = false -> c ∈ l -> is_byte (wm_kind m) c = false.
Proof.
  intros H Hc. unfold of_kinds in H. destruct (is_byte (wm_kind m) c) eqn:E; [|done].
  assert (existsb (is_byte (wm_kind m)) l = true) as Ht by (apply List.existsb_exists; exists c; by rewrite <- list_elem_of_In). by rewrite H in Ht.
Qed.

Lemma of_kinds_in l m : of_kinds l m = true -> wm_kind m ∈ l.
Proof. unfold of_kinds. intros H. apply List.existsb_exists in H as (c & Hc & E%Ascii.eqb_eq). rewrite E. by apply list_elem_of_In. Qed.

(** Room for more rows, the scan so far standing at [s1]. *)
Lemma scanned_cons s s1 s' evs evs' n rels index :
  List.length (sc_out s1) <= Z.to_nat limit ->
  sc_out s1 = sc_out s ++ log_after evs after -> sc_read s1 = (sc_read s + 1)%Z -> sc_commit s1 = sc_commit s ->
  scanned s1 s' evs' n rels index -> scanned s s' (evs ++ evs') (S n) rels index.
Proof.
  intros Hl Ho Hr Hc (Eo & Er & Es). split; [by rewrite Eo, Ho, log_after_app, app_assoc|]. split; [rewrite Er, Hr; lia|].
  rewrite <- Hc. exact Es.
Qed.

Lemma scanned_full s s' rows evs rels index :
  full s -> List.length (sc_out s) <= Z.to_nat limit -> rows_step rows s = Ok s' -> scanned s s' evs (List.length rows) rels index.
Proof.
  intros Hf Hl H. apply scan_rows_full in H as [Eo Er]; [|done]. split; [rewrite Eo; by apply full_firstn|]. split; [done|].
  left. unfold full. by rewrite Eo.
Qed.

Lemma room s l : ~ full s -> List.length l <= 1 -> List.length (sc_out s ++ l) <= Z.to_nat limit.
Proof. unfold full. intros H Hl. rewrite length_app. lia. Qed.

Lemma full_dec s : {full s} + {~ full s}.
Proof. apply Z_le_dec. Qed.

Lemma scan_body rels ms cs rels' : tells rels ms cs rels' -> forall rows s s',
  Forall2 decodes rows ms -> sc_rels s = rels -> List.length (sc_out s) <= Z.to_nat limit -> rows_step rows s = Ok s' ->
  scanned s s' (txn_events (sc_commit s) (sc_index s) cs) (List.length rows) rels'
    (sc_index s + own cs)%Z.
Proof.
  induction 1 as [rels|rels m rel ms cs rels' Hk Hm _ IH|rels m c ms cs rels' Hk Hkind Hr Hid Hrow _ IH|rels m ms cs rels' Hk _ IH];
    intros rows s s' Hd Hrels Hl H; inversion Hd as [|row ? rows' ? (data & -> & Hdata) Hd']; subst.
  { injection H as <-. split; [|split; [cbn; lia|]]. - cbn. rewrite app_nil_r, List.firstn_all2; [done|lia]. - right. cbn. split; [done|]. split; [done|unfold own; cbn; lia]. }
  all: destruct (full_dec s) as [Hf|Hf]; [by eapply scanned_full|]; cbn [scan_rows] in H; rewrite (scan_row_decoded _ _ _ Hf Hdata) in H.
  - rewrite Hk in H. cbn [is_byte Ascii.eqb Bool.eqb] in H. rewrite Hm in H. cbn [rbind] in H.
    apply (scanned_cons s (mkScan (sc_out s) (<[re_id rel:=rel]> (sc_rels s)) (sc_commit s) (sc_index s) (sc_read s + 1)) s' []);
      [done|cbn; by rewrite app_nil_r|done|done|]. by apply IH in H.
  - rewrite Hkind in H. assert (is_byte (wm_kind m) "B" = false /\ is_byte (wm_kind m) "R" = false) as [EB ER].
    { apply of_kinds_in in Hkind. split; apply Ascii.eqb_neq; intros E; rewrite E in Hkind; set_solver. }
    rewrite EB, ER in H.
    destruct (scan_change event ch reloid after m (counted s)) as [s1|] eqn:E; [|done]. cbn [rbind] in H.
    apply (scan_change_told m c) in E as (Eo & Er & Erel & Ec & Ei); [|done|done|done|done]. cbn [counted sc_out sc_read sc_rels sc_commit sc_index] in *.
    assert (Hl1 : List.length (sc_out s1) <= Z.to_nat limit).
    { rewrite Eo. apply room; [done|]. unfold log_after. etrans; [apply List.filter_length_le|]. cbn. destruct (_ =? _)%Z; [|cbn; lia]. destruct (wants _ _); cbn; lia. }
    rewrite txn_events_cons. apply (scanned_cons s s1); [done|done|done|done|]. apply IH in H; [|done|done|done].
    rewrite Ec, Ei in H. by rewrite (own_cons c cs), Z.add_assoc.
  - rewrite (of_kinds_other _ _ "B" Hk), (of_kinds_other _ _ "R" Hk) in H by set_solver.
    assert (of_kinds ["I"; "U"; "D"]%char m = false) as E.
    { unfold of_kinds. cbn [existsb]. rewrite (of_kinds_other _ _ "I" Hk), (of_kinds_other _ _ "U" Hk), (of_kinds_other _ _ "D" Hk) by set_solver. done. }
    rewrite E in H. cbn [rbind] in H.
    apply (scanned_cons s (counted s) s' []); [done|cbn; by rewrite app_nil_r|done|done|]. by apply IH in H.
Qed.

Lemma firstn_more {A} n (l l1 l2 : list A) : List.length l <= n ->
  List.firstn n (List.firstn n (l ++ l1) ++ l2) = List.firstn n (l ++ l1 ++ l2).
Proof.
  intros _. rewrite app_assoc. rewrite !(List.firstn_app n _ l2), List.firstn_firstn, Nat.min_id. f_equal. rewrite List.length_firstn.
  destruct (Nat.le_gt_cases n (List.length (l ++ l1))).
  - rewrite Nat.min_l by done. by replace (n - n) with (n - List.length (l ++ l1)) by lia.
  - by rewrite Nat.min_r by lia.
Qed.

(** Scanning the rows of transactions gives their events after the position, up to the
    limit. *)
Lemma scan_log rels ts rows rels' : tells_log rels ts rows rels' -> forall s s',
  sc_rels s = rels -> List.length (sc_out s) <= Z.to_nat limit -> rows_step rows s = Ok s' ->
  sc_out s' = List.firstn (Z.to_nat limit) (sc_out s ++ log_after (log_events ts) after) /\
  sc_read s' = (sc_read s + Z.of_nat (List.length rows))%Z.
Proof.
  induction 1 as [rels|rels t b body ms rels1 ts rows rels2 (data & -> & Hb) Hbody Ht _ IH]; intros s s' Hr Hl H.
  { injection H as <-. cbn. rewrite app_nil_r, List.firstn_all2 by done. split; [done|lia]. }
  destruct (full_dec s) as [Hf|Hf].
  { apply scan_rows_full in H as [-> ->]; [|done]. split; [by apply full_firstn|done]. }
  cbn [scan_rows] in H. rewrite (scan_row_decoded _ _ _ Hf Hb) in H. cbn [wm_kind is_byte Ascii.eqb Bool.eqb wm_finalLSN] in H.
  destruct (maxLSN <? tx_commit t)%Z; [done|]. cbn [rbind] in H. rewrite scan_rows_app in H.
  set (s1 := mkScan _ _ _ _ _) in H. destruct (rows_step body s1) as [s2|] eqn:E; [|done]. cbn [rbind] in H.
  apply (scan_body _ _ _ _ Ht) in E as (Eo & Er & Es); [|done|done|done]. cbn [s1 sc_out sc_read sc_commit sc_index] in Eo, Er.
  assert (Hl2 : List.length (sc_out s2) <= Z.to_nat limit) by (rewrite Eo, List.length_firstn; lia).
  change (log_events (t :: ts)) with (txn_events (tx_commit t) 0 (tx_changes t) ++ log_events ts).
  cbn [List.length]. rewrite length_app, log_after_app, <- firstn_more, <- Eo by done.
  destruct Es as [Hfull|(Erels & _ & _)].
  - apply scan_rows_full in H as [-> Er']; [|done]. split; [by apply full_firstn|]. rewrite Er', Er. lia.
  - apply IH in H as [-> Er']; [|done|done]. split; [done|]. rewrite Er', Er. lia.
Qed.
End log.
