(* ===== verification/PgCaptureTheorems.v ===== *)
(** Change capture as a source: what is relied on of replication slots, that polls read the
    table's log, a server that keeps these laws, and the runs in which events stall or are
    lost. *)

From S2P Require Import Turgon Prelude GoStr GoErr RuntimeSpec Engine Dispatcher DispatcherTheorems PgTheorems PgOutput PgChanges.
From S2P Require Import PgChangesProps.
From Stdlib Require Import Ascii String.

(** Change capture as a source: what is relied on of PostgreSQL's replication slots, that a
    poll is a batch of the table's log which releases nothing still to be read, and two ways
    in which capture loses or stalls on events that are there. *)

(** ** Replication slots *)

(** What of a server matters here: the transactions a publication shows of the flushed log,
    how far it is flushed, and the position a slot has confirmed. *)
Class WalView (D : Type) := {
  wal : string -> D -> list txn;
  flushed : D -> Z;
  confirmed : string -> D -> Z;
  server_ok : D -> Prop
}.

Section laws.
Context {D : Type} `{SV : PgServer D} `{V : WalView D}.

(** Time passes: transactions commit behind the flushed log. *)
Record grows (d d' : D) : Prop := mkGrows {
  gr_wal pub : exists new, wal pub d' = wal pub d ++ new /\ Forall (fun t => flushed d <= tx_commit t)%Z new;
  gr_flushed : (flushed d <= flushed d')%Z;
  gr_ok : server_ok d -> server_ok d'
}.

#[export] Instance grows_preorder : PreOrder grows.
Proof.
  split.
  - intros d. split; [|lia|done]. intros pub. exists []. by rewrite app_nil_r.
  - intros a b c [Wa Fa Oa] [Wb Fb Ob]. split; [|lia|auto]. intros pub. destruct (Wa pub) as (n & Ea & Hn).
    destruct (Wb pub) as (n' & Eb & Hn'). rewrite Eb, Ea. exists (n ++ n'). rewrite app_assoc. split; [done|]. apply Forall_app. split; [done|].
    eapply Forall_impl; [exact Hn'|]. cbn. lia.
Qed.

(** What PostgreSQL documents of the queries, for a table, its slot and its publication.
    Peeking shows whole transactions in commit order, from the first that is not confirmed,
    and stops after the one that reaches the number of rows asked for; advancing moves a
    slot forward, at most to the flushed log. *)
Class WalLaws (reloid : Z) (slot pub : string) : Prop := {
  ok_law d : server_ok d -> wal_ok reloid (wal pub d) /\ Forall (fun t => tx_commit t < flushed d)%Z (wal pub d) /\
    (0 <= confirmed slot d <= flushed d)%Z /\ (flushed d < 2 ^ 64)%Z;
  confirmed_law d r d' : db_confirmed slot d = (r, d') -> server_ok d -> grows d d' /\ confirmed slot d' = confirmed slot d /\
    forall t, r = Ok (Some t) -> parseLSN t = Ok (confirmed slot d');
  flush_law d r d' : db_flush_lsn d = (r, d') -> server_ok d -> grows d d' /\ confirmed slot d' = confirmed slot d /\
    forall t, r = Ok t -> parseLSN t = Ok (flushed d');
  peek_law d upto u budget r d' : db_peek slot upto budget pub d = (r, d') -> parseLSN upto = Ok u -> server_ok d ->
    grows d d' /\ confirmed slot d' = confirmed slot d /\
    forall rows, r = Ok (rows, None) -> exists txs more rels,
      List.filter (fun t => (confirmed slot d <=? tx_commit t) && (tx_commit t <? u))%Z (wal pub d) = txs ++ more /\
      tells_log ∅ txs rows rels /\ (more = [] \/ (budget <= Z.of_nat (List.length rows))%Z);
  advance_law d lsn l e d' : db_advance slot lsn d = (e, d') -> parseLSN lsn = Ok l -> server_ok d -> grows d d' /\
    (confirmed slot d' <= Z.max (confirmed slot d) l)%Z
}.

Context `{TT : TextTypes} (event : string) (ch : Change) (reloid : Z).
Let sl := ch_Slot ch.
Let pub := ch_Publication ch.
Context `{L : !WalLaws reloid sl pub}.

Definition table_log (d : D) : list Event := log_events event ch reloid (wal pub d).

(** Nothing after a position is released. *)
Definition keeps (after : Z) (d : D) : Prop :=
  forall t ev, t ∈ wal pub d -> (tx_commit t < confirmed sl d)%Z ->
    ev ∈ txn_events event ch reloid (tx_commit t) 0 (tx_changes t) -> (sev_Position ev <= after)%Z.

(** The first transactions of the slot have nothing to deliver, and use up the rows of a
    peek. *)
Definition blocked (after budget : Z) (d : D) : Prop :=
  exists txs more rows rels, List.filter (fun t => confirmed sl d <=? tx_commit t)%Z (wal pub d) = txs ++ more /\
    tells_log ∅ txs rows rels /\ (budget <= Z.of_nat (List.length rows))%Z /\
    forall ev, ev ∈ log_events event ch reloid txs -> (sev_Position ev <= after)%Z.

(** A moved slot keeps what no transaction below the new position holds. *)
Lemma keeps_moves after d d' : server_ok d -> grows d d' -> keeps after d ->
  (forall t ev, t ∈ wal pub d' -> (confirmed sl d <= tx_commit t < confirmed sl d')%Z ->
    ev ∈ txn_events event ch reloid (tx_commit t) 0 (tx_changes t) -> (sev_Position ev <= after)%Z) ->
  keeps after d'.
Proof using L.
  intros Hok Hg Hk Hnew t ev Ht Hc Hev. destruct (Z.le_gt_cases (confirmed sl d) (tx_commit t)) as [H|H]; [by eapply Hnew|].
  destruct (gr_wal _ _ Hg pub) as (new & E & Hn). rewrite E in Ht. apply elem_of_app in Ht as [Ht|Ht]; [by apply (Hk t)|].
  rewrite Forall_forall in Hn. specialize (Hn _ Ht). destruct (ok_law d Hok) as (_ & _ & ? & _). cbn in Hn. lia.
Qed.

Lemma keeps_grows after d d' : server_ok d -> grows d d' -> confirmed sl d' = confirmed sl d -> keeps after d -> keeps after d'.
Proof using L. intros Hok Hg Hc Hk. eapply keeps_moves; [done|done|done|]. intros. lia. Qed.

Lemma keeps_confirm after d d' : (0 <= after <= int_max)%Z -> server_ok d -> grows d d' ->
  (confirmed sl d' <= Z.max (confirmed sl d) (commitOf after))%Z -> keeps after d -> keeps after d'.
Proof using L.
  intros Ha Hok Hg Hc Hk. eapply keeps_moves; [done|done|done|]. intros t ev Ht Hb Hev.
  destruct (ok_law d' (gr_ok _ _ Hg Hok)) as ([_ Hw] & _). rewrite Forall_forall in Hw. specialize (Hw _ Ht).
  destruct (txn_event_position event ch reloid t ev Hw Hev) as (i & Hi & ->). destruct Hw as [? _]. apply commitOf_le; lia.
Qed.

(** The log of a sorted list of transactions falls into what a slot has released and what
    it has not. *)
Lemma wal_split (w : list txn) z : wal_ok reloid w ->
  w = List.filter (fun t => tx_commit t <? z)%Z w ++ List.filter (fun t => z <=? tx_commit t)%Z w.
Proof using.
  intros [Hs _]. induction Hs as [|t w Hs IH Ht]; [done|]. cbn. destruct (Z.ltb_spec (tx_commit t) z) as [H|H].
  - rewrite (proj2 (Z.leb_gt _ _)) by done. cbn. by rewrite <- IH.
  - rewrite (proj2 (Z.leb_le _ _)) by done. assert (E : List.filter (fun t => tx_commit t <? z)%Z w = []).
    { clear IH. induction Ht as [|t' w Ht' _ IH]; [done|]. cbn. rewrite (proj2 (Z.ltb_ge _ _)) by lia. inversion Hs; auto. }
    rewrite E in *. cbn in *. by rewrite <- IH.
Qed.

Lemma filter_ext_all {A} (f g : A -> bool) l : Forall (fun x => f x = g x) l -> List.filter f l = List.filter g l.
Proof using. induction 1 as [|x l E _ IH]; [done|]. cbn. by rewrite E, IH. Qed.

(** Reading what a peek told. *)
Lemma peeked_batch after limit d txs more :
  (0 < limit)%Z -> server_ok d -> keeps after d ->
  List.filter (fun t => confirmed sl d <=? tx_commit t)%Z (wal pub d) = txs ++ more ->
  let events := List.firstn (Z.to_nat limit) (log_after (log_events event ch reloid txs) after) in
  (events = [] -> more = []) -> batch_of_log (table_log d) after events.
Proof using L.
  intros Hl Hok Hk Hf events Hmore. destruct (ok_law d Hok) as (Hw & _). pose proof (wal_split _ (confirmed sl d) Hw) as Hsplit.
  rewrite Hf in Hsplit. assert (Hlog : log_after (table_log d) after = log_after (log_events event ch reloid txs) after ++ log_after (log_events event ch reloid more) after).
  { unfold table_log. rewrite Hsplit, !log_events_app, !log_after_app.
    replace (log_after (log_events event ch reloid (List.filter (fun t => tx_commit t <? confirmed sl d)%Z (wal pub d))) after) with (@nil Event); [done|].
    symmetry. apply elem_of_nil_inv. intros ev Hev. apply in_log_after in Hev as [Hev Hp]. apply in_log_events in Hev as (t & Ht & Hev).
    apply list_elem_of_In, List.filter_In in Ht as [Ht Hc]. apply Z.ltb_lt in Hc. apply list_elem_of_In in Ht.
    specialize (Hk t ev Ht Hc Hev). lia. }
  pose proof (log_events_ordered event ch reloid _ Hw) as Ho. change (log_events event ch reloid (wal pub d)) with (table_log d) in Ho.
  set (fresh := log_after (log_events event ch reloid txs) after) in *.
  destruct (decide (fresh = [])) as [E|N].
  - assert (more = []) as -> by (apply Hmore; unfold events; rewrite E; by destruct (Z.to_nat limit)).
    replace events with (List.firstn 1 (log_after (table_log d) after)); [apply log_batch; [done|lia]|].
    rewrite Hlog, E. unfold events. rewrite E. by destruct (Z.to_nat limit).
  - replace events with (List.firstn (Nat.min (Z.to_nat limit) (List.length fresh)) (log_after (table_log d) after)).
    + apply log_batch; [done|]. destruct fresh; [done|]. cbn. lia.
    + unfold events. rewrite <- List.firstn_firstn, Hlog, List.firstn_app, List.firstn_all, Nat.sub_diag. cbn [List.firstn]. by rewrite app_nil_r.
Qed.

(** ** Polls *)

Lemma parse_commitOf a : (0 <= a <= int_max)%Z -> parseLSN (formatLSN (commitOf a)) = Ok (commitOf a).
Proof using.
  unfold int_max. intros H. apply parse_formatLSN. unfold commitOf, u64_of, int_mod, indexBits. rewrite Z.mod_small by lia.
  rewrite Z.shiftr_div_pow2 by lia. split; [apply Z.div_pos; lia|]. apply Z.div_lt_upper_bound; lia.
Qed.

Lemma advance_inv lsn c e c' : (0 <= lsn < 2 ^ 64)%Z -> server_ok (cn_db c) -> advance (D := D) sl lsn c = (e, c') ->
  cn_prepared c' = cn_prepared c /\ grows (cn_db c) (cn_db c') /\
  (confirmed sl (cn_db c') <= Z.max (confirmed sl (cn_db c)) lsn)%Z.
Proof using L.
  intros Hl Hok H. unfold advance, mbind, Q_bind, query in H. destruct (db_advance sl (formatLSN lsn) (cn_db c)) as [e0 d] eqn:E.
  injection H as _ <-. split; [done|]. cbn. eapply advance_law; [exact E| |done]. by apply parse_formatLSN.
Qed.

(** The part of a poll after the slot is advanced. *)
Lemma read_slot_inv after limit conf text c r c' :
  (0 < limit)%Z -> server_ok (cn_db c) -> keeps after (cn_db c) -> parseLSN text = Ok (flushed (cn_db c)) ->
  read_slot event ch reloid after limit conf text (flushed (cn_db c)) c = (r, c') ->
  cn_prepared c' = cn_prepared c /\ grows (cn_db c) (cn_db c') /\ keeps after (cn_db c') /\
  forall events, r = Ok events ->
    batch_of_log (table_log (cn_db c)) after events \/ events = [] /\ blocked after (limit * 4 + 64) (cn_db c).
Proof using L.
  intros Hl Hok Hk Hp H. unfold read_slot in H. unfold mbind, Q_bind at 1, query at 1 in H.
  destruct (db_peek _ _ _ _ (cn_db c)) as [peeked d] eqn:E. cbn [cn_prepared] in H.
  destruct (peek_law _ _ _ _ _ _ E Hp Hok) as (Hg & Hc & Hrows). change (confirmed sl d = confirmed sl (cn_db c)) in Hc.
  pose proof (keeps_grows _ _ _ Hok Hg Hc Hk) as Hk'.
  destruct peeked as [[rows failed]|e]; [|by injection H as <- <-].
  destruct (scan_rows event ch reloid after limit rows no_scan) as [s|e] eqn:Es; [|by injection H as <- <-].
  destruct failed as [e|]; [by injection H as <- <-|].
  destruct (Hrows rows eq_refl) as (txs & more & rels & Hf & Ht & Hm). clear Hrows.
  destruct (ok_law _ Hok) as (Hw & Hfl & Hcf & H64).
  rewrite (filter_ext_all _ (fun t => confirmed sl (cn_db c) <=? tx_commit t)%Z) in Hf.
  2: { eapply Forall_impl; [exact Hfl|]. cbn. intros t Hlt. rewrite (proj2 (Z.ltb_lt _ _)) by done. apply andb_true_r. }
  destruct (scan_log event ch reloid after limit _ _ _ _ Ht no_scan s eq_refl ltac:(cbn; lia) Es) as [Eo Er]. cbn [no_scan sc_out sc_read app] in Eo, Er.
  pose proof (peeked_batch after limit (cn_db c) txs more Hl Hok Hk Hf) as Hb. cbv zeta in Hb. rewrite <- Eo in Hb.
  assert (Hnone : sc_out s = [] -> forall ev, ev ∈ log_events event ch reloid txs -> (sev_Position ev <= after)%Z).
  { rewrite Eo. intros E0 ev Hev. destruct (Z.le_gt_cases (sev_Position ev) after) as [|Hgt]; [done|exfalso].
    assert (Hin : ev ∈ log_after (log_events event ch reloid txs) after) by (apply in_log_after; split; [done|lia]).
    destruct (log_after _ after); [by apply elem_of_nil in Hin|]. destruct (Z.to_nat limit) eqn:En; [lia|done]. }
  unfold release_quiet in H. destruct (sc_out s) as [|ev evs] eqn:Eout.
  2: { injection H as <- <-. split; [done|]. split; [done|]. split; [done|]. intros events [= <-]. left. by apply Hb. }
  assert (Hdone : (sc_read s < limit * 4 + 64)%Z -> more = []) by (intros Hr; destruct Hm as [?|Hm]; [done|lia]).
  assert (Hblocked : ~ (sc_read s < limit * 4 + 64)%Z -> blocked after (limit * 4 + 64) (cn_db c)).
  { intros Hr. exists txs, more, rows, rels. split; [done|]. split; [done|]. split; [lia|]. by apply Hnone. }
  destruct (Z.ltb_spec (sc_read s) (limit * 4 + 64)) as [Hr|Hr]; cbn [andb] in H.
  2: { injection H as <- <-. split; [done|]. split; [done|]. split; [done|]. intros events [= <-]. right. split; [done|]. apply Hblocked. lia. }
  destruct (Z.max conf (commitOf after) <? flushed (cn_db c))%Z.
  2: { injection H as <- <-. split; [done|]. split; [done|]. split; [done|]. intros events [= <-]. left. apply Hb. by intros _; apply Hdone. }
  unfold mbind, Q_bind in H. destruct (advance _ _ _) as [e c2] eqn:Ea. apply advance_inv in Ea as (Ep & Hg2 & Hc2); [|lia|by eapply gr_ok; eauto].
  injection H as <- <-. cbn [cn_db cn_prepared] in *. split; [done|]. split; [by etrans|]. split.
  - eapply keeps_moves; [by eapply gr_ok; eauto|done|done|]. intros t ev Ht' Hb' Hev.
    destruct (gr_wal _ _ Hg2 pub) as (n2 & E2 & Hn2). rewrite E2 in Ht'. pose proof (gr_flushed _ _ Hg) as Hgf.
    apply elem_of_app in Ht' as [Ht'|Ht'].
    2: { rewrite Forall_forall in Hn2. specialize (Hn2 _ Ht'). cbn in Hn2. lia. }
    destruct (gr_wal _ _ Hg pub) as (n1 & E1 & Hn1). rewrite E1 in Ht'. apply elem_of_app in Ht' as [Ht'|Ht'].
    2: { rewrite Forall_forall in Hn1. specialize (Hn1 _ Ht'). cbn in Hn1. lia. }
    apply Hnone; [done|]. apply in_log_events. exists t. split; [|done].
    rewrite Hdone, app_nil_r in Hf by done. rewrite <- Hf. apply list_elem_of_In, List.filter_In. split; [by apply list_elem_of_In|].
    apply Z.leb_le. lia.
  - destruct e; [done|]. intros events [= <-]. left. apply Hb. by intros _; apply Hdone.
Qed.

(** A poll of an event whose slot is there: what it returns, and what it releases. *)
Lemma pollChanges_inv after limit c r c' :
  (0 < limit)%Z -> (0 <= after <= int_max)%Z -> cn_prepared c !! event = Some reloid ->
  server_ok (cn_db c) -> keeps after (cn_db c) -> pollChanges event ch after limit c = (r, c') ->
  keeps after (cn_db c') /\ exists d, grows (cn_db c) d /\ grows d (cn_db c') /\ forall events, r = Ok events ->
    batch_of_log (table_log d) after events \/ events = [] /\ blocked after (limit * 4 + 64) d.
Proof using L.
  intros Hl Ha Hprep Hok Hk H. unfold pollChanges in H. unfold mbind, Q_bind at 1 in H. unfold prepare in H. rewrite Hprep in H.
  unfold mbind, Q_bind at 1, query at 1 in H. destruct (db_confirmed _ (cn_db c)) as [r1 d1] eqn:E1.
  destruct (confirmed_law _ _ _ E1 Hok) as (Hg1 & Hc1 & Ht1). change (confirmed sl d1 = confirmed sl (cn_db c)) in Hc1.
  pose proof (gr_ok _ _ Hg1 Hok) as Hok1. pose proof (keeps_grows _ _ _ Hok Hg1 Hc1 Hk) as Hk1.
  destruct r1 as [[text|]|e]; [|by injection H as <- <-; split; [done|]; exists d1..].
  unfold andThen at 1 in H. rewrite (Ht1 text eq_refl) in H. clear Ht1. set (c1 := mkConn _ d1) in H.
  set (adv := if _ && _ then _ else _) in H. unfold mbind, Q_bind at 1 in H. destruct (adv c1) as [e2 c2] eqn:E2.
  assert (Hadv : cn_prepared c2 = cn_prepared c1 /\ grows d1 (cn_db c2) /\ keeps after (cn_db c2)).
  { unfold adv in E2. destruct (_ && _); [|by injection E2 as _ <-]. apply advance_inv in E2 as (Ep & Hg & Hc).
    - split; [done|]. split; [done|]. by eapply keeps_confirm.
    - clear - Ha. unfold commitOf, u64_of, int_mod, indexBits, int_max in *. rewrite Z.mod_small by lia.
      rewrite Z.shiftr_div_pow2 by lia. split; [apply Z.div_pos; lia|]. apply Z.div_lt_upper_bound; lia.
    - done. }
  clear E2 adv. destruct Hadv as (Ep2 & Hg2 & Hk2). pose proof (gr_ok _ _ Hg2 Hok1) as Hok2.
  assert (Hg02 : grows (cn_db c) (cn_db c2)) by (by etrans).
  destruct e2 as [e|]; [by injection H as <- <-; split; [done|]; exists (cn_db c2)|].
  unfold mbind, Q_bind at 1, query at 1 in H. destruct (db_flush_lsn (cn_db c2)) as [r3 d3] eqn:E3.
  destruct (flush_law _ _ _ E3 Hok2) as (Hg3 & Hc3 & Ht3). change (confirmed sl d3 = confirmed sl (cn_db c2)) in Hc3.
  pose proof (gr_ok _ _ Hg3 Hok2) as Hok3. pose proof (keeps_grows _ _ _ Hok2 Hg3 Hc3 Hk2) as Hk3.
  assert (Hg03 : grows (cn_db c) d3) by (by etrans).
  destruct r3 as [upto|e]; [|by injection H as <- <-; split; [done|]; exists d3].
  unfold andThen in H. rewrite (Ht3 upto eq_refl) in H.
  apply (read_slot_inv after limit _ upto (mkConn (cn_prepared c2) d3)) in H as (_ & Hg4 & Hk4 & Hev); [|done|done|done|by apply Ht3].
  split; [done|]. by exists d3.
Qed.
End laws.

(** The property of change capture, a server that keeps the laws it relies on, and the runs
    in which capture stalls or loses events. *)

(** ** A server in memory *)

#[export] Instance column_eq : EqDecision column.
Proof. solve_decision. Defined.
#[export] Instance relation_eq : EqDecision relation.
Proof. solve_decision. Defined.

Definition relation_bytes (r : relation) : string :=
  String "R" (number_bytes 4 (re_id r) +++ text_bytes (re_namespace r) +++ text_bytes (re_name r) +++
    String "d" (number_bytes 2 (Z.of_nat (List.length (re_columns r))) +++
      concat_bytes (fun c => String zero (text_bytes (co_name c) +++ number_bytes 4 (co_oid c) +++ zeros 4)) (re_columns r))).

Definition change_bytes (c : row_change) : string :=
  String (rc_kind c) (number_bytes 4 (re_id (rc_rel c)) +++ String (if is_byte (rc_kind c) "D" then "K" else "N") (row_bytes (rc_row c))).

(** The rows of a transaction's changes; a table is described when it is first met. *)
Fixpoint body_rows (rels : gmap Z relation) (l : list row_change) : list string * gmap Z relation :=
  match l with
  | [] => ([], rels)
  | c :: l =>
      let (rows, rels') := body_rows (<[re_id (rc_rel c) := rc_rel c]> rels) l in
      ((if bool_decide (rels !! re_id (rc_rel c) = Some (rc_rel c)) then [] else [relation_bytes (rc_rel c)]) ++ change_bytes c :: rows, rels')
  end.

Definition begin_bytes (t : txn) : string := String "B" (number_bytes 8 (tx_commit t) +++ zeros 12).
Definition commit_bytes (t : txn) : string := String "C" (zeros 9 +++ number_bytes 8 (tx_commit t + 1) +++ zeros 8).

(** Whole transactions, until the rows asked for are reached. *)
Fixpoint peek_rows (budget : Z) (rels : gmap Z relation) (ts : list txn) : list string :=
  match ts with
  | [] => []
  | t :: ts =>
      let (body, rels) := body_rows rels (tx_changes t) in
      let rows := begin_bytes t :: body ++ [commit_bytes t] in
      let left := (budget - Z.of_nat (List.length rows))%Z in
      if (left <=? 0)%Z then rows else rows ++ peek_rows left rels ts
  end.

(** A database whose log is as it is, with one slot. *)
Record Memory := mkMemory { my_log : list txn; my_confirmed : Z }.

Definition my_flushed (d : Memory) : Z := match List.rev (my_log d) with t :: _ => tx_commit t + 1 | [] => 1 end.

#[export] Instance memory_server : PgServer Memory := {
  db_regclass _ d := (Ok (Some 7%Z), d);
  db_published _ d := (Ok true, d);
  db_identity _ d := (Ok ("d", true), d);
  db_create_publication _ _ _ d := (None, d);
  db_has_slot _ d := (Ok true, d);
  db_create_slot _ d := (None, d);
  db_confirmed _ d := (Ok (Some (formatLSN (my_confirmed d))), d);
  db_flush_lsn d := (Ok (formatLSN (my_flushed d)), d);
  db_peek _ upto budget _ d :=
    match parseLSN upto with
    | Ok u =>
        (Ok (map Ok (peek_rows budget ∅
          (List.filter (fun t => (my_confirmed d <=? tx_commit t) && (tx_commit t <? u))%Z (my_log d))), None), d)
    | Err e => (Err e, d)
    end;
  db_advance _ lsn d :=
    match parseLSN lsn with
    | Ok l => (None, mkMemory (my_log d) (Z.max (my_confirmed d) (Z.min l (my_flushed d))))
    | Err e => (Some e, d)
    end;
  db_outbox _ _ _ _ d := (Ok ([], None), d);
  db_code _ := None
}.

(** What can be sent. *)
Definition relation_ok (r : relation) : Prop :=
  (0 <= re_id r < 2 ^ 32)%Z /\ text_ok (re_namespace r) /\ text_ok (re_name r) /\ (Z.of_nat (List.length (re_columns r)) < 2 ^ 16)%Z /\
  Forall (fun c => text_ok (co_name c) /\ 0 <= co_oid c < 2 ^ 32)%Z (re_columns r).
Definition change_ok (c : row_change) : Prop :=
  rc_kind c ∈ ["I"; "U"; "D"]%char /\ relation_ok (rc_rel c) /\ row_ok (rc_row c).

#[export] Instance server_view : WalView Memory := {
  wal _ := my_log;
  flushed := my_flushed;
  confirmed _ := my_confirmed;
  server_ok d := wal_ok 7 (my_log d) /\ (0 <= my_confirmed d <= my_flushed d)%Z /\ Forall (fun t => Forall change_ok (tx_changes t)) (my_log d)
}.

(** ** It keeps the laws *)

Lemma relation_decodes r : relation_ok r -> decode (relation_bytes r) = (mkWalMessage "R" 0 0 (Some r) 0 [] [], None).
Proof.
  intros (Hid & Hns & Hn & Hc & Hcs). apply decode_wire. unfold relation_bytes. rewrite <- (str_app_nil_r (concat_bytes _ _)).
  destruct r as [id ns name cols]. cbn [re_id re_namespace re_name re_columns] in *. apply wire_relation; try done.
  clear Hc. induction Hcs as [|[n o] cols [Hn' Ho] _ IH]; [constructor|]. cbn [concat_bytes foldr].
  apply columns_cons; [|exact IH]. by apply (column_bytes_intro (mkColumn n o) zero (zeros 4)).
Qed.

Definition change_message (c : row_change) : wal_message :=
  if is_byte (rc_kind c) "D" then mkWalMessage (rc_kind c) 0 0 None (re_id (rc_rel c)) [] (rc_row c)
  else mkWalMessage (rc_kind c) 0 0 None (re_id (rc_rel c)) (rc_row c) [].

Lemma change_decodes c : change_ok c -> decode (change_bytes c) = (change_message c, None).
Proof.
  intros (Hk & (Hid & _) & Hr). apply decode_wire. destruct c as [k r row]. cbn [rc_kind rc_rel rc_row] in *. unfold change_bytes, change_message.
  cbn [rc_kind rc_rel rc_row]. rewrite <- (str_app_nil_r (row_bytes row)).
  apply elem_of_cons in Hk as [->|Hk]; [by apply wire_insert|]. apply elem_of_cons in Hk as [->|Hk]; [by apply wire_update|].
  apply list_elem_of_singleton in Hk as ->. apply wire_delete; auto.
Qed.

Lemma body_tells l : Forall change_ok l -> forall rels rows rels', body_rows rels l = (rows, rels') -> forall rest msgs,
  Forall2 decodes rest msgs -> (forall rels, tells rels msgs [] rels) ->
  exists ms, Forall2 decodes (map Ok rows ++ rest) ms /\ tells rels ms l rels'.
Proof.
  induction 1 as [|c l Hc _ IH]; intros rels rows rels' H rest msgs Hrest Hm.
  { injection H as <- <-. by exists msgs. }
  cbn in H. destruct (body_rows _ l) as [rows1 rels1] eqn:E. injection H as <- <-. destruct (IH _ _ _ E _ _ Hrest Hm) as (ms & Hd & Ht).
  assert (Hch : decodes (Ok (change_bytes c)) (change_message c)) by (eexists; split; [done|by apply change_decodes]).
  assert (Htell : forall rels, rels !! re_id (rc_rel c) = Some (rc_rel c) -> tells rels ms l rels1 -> tells rels (change_message c :: ms) (c :: l) rels1).
  { intros rs Hrs Hms. destruct Hc as (Hk & _). apply tells_change; [| |by unfold change_message; destruct (is_byte _ _)|
      by unfold change_message; destruct (is_byte _ _)| |done]; unfold change_message; [by destruct (is_byte _ _)| |].
    - unfold of_kinds. apply List.existsb_exists. exists (rc_kind c). split; [by apply list_elem_of_In|]. apply Ascii.eqb_eq. by destruct (is_byte _ _).
    - by destruct (is_byte (rc_kind c) "D") eqn:ED; cbn [wm_kind]; rewrite ED. }
  case_bool_decide as Hin.
  - exists (change_message c :: ms). split; [by constructor|]. apply Htell; [done|]. by rewrite insert_id in Ht.
  - exists (mkWalMessage "R" 0 0 (Some (rc_rel c)) 0 [] [] :: change_message c :: ms). split.
    + constructor; [|by constructor]. eexists. split; [done|]. apply relation_decodes, Hc.
    + apply (tells_relation _ _ (rc_rel c)); [done|done|]. apply Htell; [|done]. by rewrite lookup_insert_eq.
Qed.

Lemma begin_decodes t : (0 < tx_commit t <= maxLSN)%Z -> decode (begin_bytes t) = (mkWalMessage "B" (tx_commit t) 0 None 0 [] [], None).
Proof. intros H. apply decode_wire, wire_begin. unfold maxLSN, indexBits in H. lia. Qed.

Lemma commit_decodes t : (0 < tx_commit t <= maxLSN)%Z -> decode (commit_bytes t) = (mkWalMessage "C" 0 (tx_commit t + 1) None 0 [] [], None).
Proof. intros H. apply decode_wire, wire_commit; [done|]. unfold maxLSN, indexBits in H. lia. Qed.

Lemma peek_tells ts : Forall (txn_ok 7) ts -> Forall (fun t => Forall change_ok (tx_changes t)) ts -> forall budget rels,
  exists txs more rels', ts = txs ++ more /\ tells_log rels txs (map Ok (peek_rows budget rels ts)) rels' /\
    (more = [] \/ (budget <= Z.of_nat (List.length (peek_rows budget rels ts)))%Z).
Proof.
  induction ts as [|t ts IH]; intros Hok Hch budget rels.
  { exists [], [], rels. split; [done|]. split; [constructor|by left]. }
  inversion Hok as [|? ? [Hc _] Hok']; subst. inversion Hch as [|? ? Ht Hch']; subst. cbn [peek_rows].
  destruct (body_rows rels (tx_changes t)) as [body rels1] eqn:E.
  destruct (body_tells _ Ht _ _ _ E [Ok (commit_bytes t)] [mkWalMessage "C" 0 (tx_commit t + 1) None 0 [] []]) as (ms & Hd & Htell).
  { constructor; [|constructor]. eexists. split; [done|]. by apply commit_decodes. }
  { intros rs. apply tells_other; [done|constructor]. }
  assert (Hone : forall ts' rows rels2, tells_log rels1 ts' (map Ok rows) rels2 ->
    tells_log rels (t :: ts') (map Ok ((begin_bytes t :: body ++ [commit_bytes t]) ++ rows)) rels2).
  { intros ts' rows rels2 H. cbn [app map]. rewrite !map_app. cbn [map].
    eapply (tells_log_cons rels t _ (map Ok body ++ [Ok (commit_bytes t)])); [|exact Hd|exact Htell|exact H].
    eexists. split; [done|]. by apply begin_decodes. }
  set (rows := begin_bytes t :: body ++ [commit_bytes t]) in *. cbv zeta.
  destruct (Z.leb_spec (budget - Z.of_nat (List.length rows)) 0) as [Hb|Hb].
  - exists [t], ts, rels1. split; [done|]. split; [|right; lia]. rewrite <- (app_nil_r rows). apply Hone. constructor.
  - destruct (IH Hok' Hch' (budget - Z.of_nat (List.length rows))%Z rels1) as (txs & more & rels2 & -> & Hl & Hm).
    exists (t :: txs), more, rels2. split; [done|]. split; [by apply Hone|]. destruct Hm as [?|Hm]; [by left|]. right. rewrite length_app. lia.
Qed.

Lemma flushed_bounds d : wal_ok 7 (my_log d) -> Forall (fun t => tx_commit t < my_flushed d)%Z (my_log d) /\ (my_flushed d <= 2 ^ 48)%Z /\ (1 <= my_flushed d)%Z.
Proof.
  intros [Hs Hok]. unfold my_flushed. destruct (List.rev (my_log d)) as [|t r] eqn:E.
  - apply (f_equal (@List.rev txn)) in E. rewrite List.rev_involutive in E. rewrite E. split; [constructor|lia].
  - apply (f_equal (@List.rev txn)) in E. rewrite List.rev_involutive in E. cbn in E. rewrite E in *.
    apply Forall_app in Hok as [_ Hok]. inversion Hok as [|? ? [Hc _] _]; subst. unfold maxLSN, indexBits in Hc. cbn in Hc. split; [|lia].
    clear Hok Hc E. apply Forall_app. split; [|constructor; [lia|constructor]].
    induction (List.rev r) as [|x l IH]; [constructor|]. inversion Hs as [|? ? Hs' Hx]; subst. constructor; [|by apply IH].
    rewrite Forall_forall in Hx. specialize (Hx t ltac:(apply elem_of_app; right; left)). cbn in Hx. lia.
Qed.

#[export] Instance server_keeps_laws slot pub : WalLaws 7 slot pub (D := Memory).
Proof.
  assert (Hsame : forall d : Memory, grows d d) by reflexivity.
  split.
  - intros d (Hw & Hc & _). destruct (flushed_bounds d Hw) as (Hf & Hm & _). split; [done|]. split; [done|]. split; [done|]. cbn. lia.
  - intros d r d' [= <- <-] (Hw & Hc & _). destruct (flushed_bounds d Hw) as (_ & Hm & _). split; [done|]. split; [done|].
    intros t [= <-]. apply (parse_formatLSN (my_confirmed d)). lia.
  - intros d r d' [= <- <-] (Hw & _). destruct (flushed_bounds d Hw) as (_ & Hm & H1). split; [done|]. split; [done|].
    intros t [= <-]. apply (parse_formatLSN (my_flushed d)). lia.
  - intros d upto u budget r d' H Hp (Hw & Hc & Hch). cbn in H. rewrite Hp in H. injection H as <- <-.
    split; [done|]. split; [done|]. intros rows [= <-].
    set (ts := List.filter _ (my_log d)).
    destruct (peek_tells ts) with (budget := budget) (rels := ∅ : gmap Z relation) as (txs & more & rels & E & Ht & Hm).
    + apply List.Forall_forall. intros t Ht. apply List.filter_In in Ht as [Ht _]. destruct Hw as [_ Hw]. rewrite List.Forall_forall in Hw. by apply Hw.
    + apply List.Forall_forall. intros t Ht. apply List.filter_In in Ht as [Ht _]. rewrite List.Forall_forall in Hch. by apply Hch.
    + exists txs, more, rels. split; [done|]. split; [done|]. by rewrite List.length_map.
  - intros d lsn l e d' H Hp (Hw & Hc & Hch). cbn in H. rewrite Hp in H. injection H as <- <-. split.
    + split; [|reflexivity|]. * intros pub'. exists []. cbn. by rewrite app_nil_r. * intros _. split; [done|]. cbn in *. change (my_flushed (mkMemory _ _)) with (my_flushed d). split; [lia|done].
    + cbn. lia.
Qed.

(** * Properties *)

(** C37: the decoder of replication messages accepts a message exactly when it is one of the
    wire format: what it returns is what the bytes encode, whatever follows them, and bytes
    that encode no message, a truncated one included, are refused with an error. *)
Theorem decode_accepts_wire (d : string) (m : wal_message) : decode d = (m, None) <-> wire m d.
Proof. apply decode_wire. Qed.


(** positions order events as they were committed. A position fits an int64, tells its
    transaction, and two positions compare as their transactions and then their indexes do;
    an LSN reads back as it is written. *)
Theorem positions_follow_commits (c c' i i' : Z) :
  (0 <= c <= maxLSN)%Z -> (0 <= c' <= maxLSN)%Z -> (0 <= i <= maxIndex)%Z -> (0 <= i' <= maxIndex)%Z ->
  (0 <= position c i <= int_max)%Z /\ commitOf (position c i) = c /\
  ((position c i < position c' i')%Z <-> (c < c' \/ c = c' /\ i < i')%Z) /\ parseLSN (formatLSN c) = Ok c.
Proof.
  intros Hc Hc' Hi Hi'. split; [|split; [by apply commitOf_position|split]].
  - rewrite position_value by done. unfold maxLSN, maxIndex, indexBits, int_max in *. cbn in Hc, Hi. lia.
  - rewrite !position_value by done. unfold maxLSN, maxIndex, indexBits in *. cbn in Hi, Hi'. lia.
  - apply parse_formatLSN. unfold maxLSN, indexBits in Hc. cbn in Hc. lia.
Qed.

(** * Witnesses and findings *)

Module Orders.
#[local] Instance texts : TextTypes := {|
  finite_number := fun _ => true; json_valid := fun _ => true;
  scan_timestamptz := fun _ => None; scan_timestamp := fun _ => None;
  marshal_row := fun m => Ok (match m !! "ref" with Some (VText s) => s | _ => "" end) |}.

Definition orders : relation := mkRelation 7 "shop" "orders" [mkColumn "id" 20; mkColumn "ref" 25].
Definition insert (id ref : string) : row_change := mkRowChange "I" orders [mkTupleValue "t" id; mkTupleValue "t" ref].
Definition placed : Change := withDefaults (mkChange "shop.orders" [] "" "") "Order.Placed".

Definition connected (log : list txn) : Conn Memory := mkConn {["Order.Placed" := 7%Z]} (mkMemory log 0).
Definition poll (after : Z) (c : Conn Memory) := pollChanges "Order.Placed" placed after 100 c.

(** Two transactions of an order each. *)
Definition two : list txn := [mkTxn 16 [insert "1" "a"]; mkTxn 32 [insert "2" "b"]].

Lemma insert_ok id ref : String.length id < 256 -> String.length ref < 256 -> change_ok (insert id ref).
Proof.
  intros H H'. split; [left|]. split; [split; [done|]; split; [done|]; split; [done|]; split; [done|]|].
  { apply Forall_cons; split; [done|]. by apply Forall_singleton. }
  split; [done|]. apply Forall_cons; split; [|apply Forall_singleton]; right; (split; [by left|cbn [tv_data]; lia]).
Qed.

Lemma two_ok : server_ok (mkMemory two 0).
Proof.
  split; [|split; [done|]].
  - split; repeat constructor; by vm_compute.
  - do 2 (apply Forall_cons; split; [apply Forall_singleton, insert_ok; cbn; lia|]). constructor.
Qed.


Lemma positions_follow_commits_witness :
  (0 <= position maxLSN maxIndex <= int_max)%Z /\ commitOf (position maxLSN maxIndex) = maxLSN.
Proof.
  destruct (positions_follow_commits maxLSN 0 maxIndex 0) as (H & H' & _); [by vm_compute..|]. split; [exact H|exact H'].
Defined.

(** ** One transaction of many changes stalls capture *)

(** A transaction of 465 orders, and one more order after it. *)
Definition bulk : list txn :=
  [mkTxn 16 (map (fun n => insert (itoa (Z.of_nat n)) "x") (seq 0 465)); mkTxn 32 [insert "465" "y"]].

(** The connection once the first transaction is delivered and confirmed. *)
Definition delivered : Conn Memory := mkConn {["Order.Placed" := 7%Z]} (mkMemory bulk 16).
Definition last_of_bulk : Z := position 16 465.

Definition again (x : result (list Event) * Conn Memory) : result (list Event) * Conn Memory := poll last_of_bulk (snd x).

Lemma poll_is_stuck : poll last_of_bulk delivered = (Ok [], delivered).
Proof. vm_compute. reflexivity. Qed.

(** Reading starts again with the confirmed transaction, whose rows alone use up the budget
    of a peek: however often it polls, the event behind it is never delivered. *)
Lemma bulk_transaction_stalls (n : nat) :
  fst (Nat.iter n again (poll last_of_bulk delivered)) = Ok [] /\
  exists ev, ev ∈ table_log "Order.Placed" placed 7 (cn_db delivered) /\ (last_of_bulk < sev_Position ev)%Z /\ sev_Payload ev = "y".
Proof.
  split.
  - assert (E : Nat.iter n again (poll last_of_bulk delivered) = (Ok [], delivered)).
    { induction n as [|n IH]; [apply poll_is_stuck|]. cbn. change (again (Nat.iter n again (poll last_of_bulk delivered)) = (Ok [], delivered)). rewrite IH. apply poll_is_stuck. }
    by rewrite E.
  - exists (change_event "Order.Placed" 32 1 (insert "465" "y")). split; [|by vm_compute].
    apply in_log_events. exists (mkTxn 32 [insert "465" "y"]). split; [right; left|left].
Qed.

(** The polls before it deliver the transaction, in batches, and confirm it. *)
Lemma bulk_delivers :
  let c0 := connected bulk in
  let batch after c := match poll after c with (Ok evs, c) => (last_position evs, c) | (Err _, c) => (after, c) end in
  let '(a1, c1) := batch 0%Z c0 in let '(a2, c2) := batch a1 c1 in let '(a3, c3) := batch a2 c2 in
  let '(a4, c4) := batch a3 c3 in let '(a5, c5) := batch a4 c4 in (a5, c5) = (last_of_bulk, delivered).
Proof. vm_compute. reflexivity. Qed.

(** ** Two workflows share a slot *)

(** Both workflows' triggers are the event. The first started its runs and polls on; the
    second could not start any and still has its cursor at the start. The slot is released
    for both, and the second never sees the events. *)
Lemma shared_slot_loses_events :
  let c1 := snd (poll 0 (connected two)) in
  let c2 := snd (poll (position 32 1) c1) in
  fst (poll 0 c2) = Ok [] /\ map sev_Payload (table_log "Order.Placed" placed 7 (cn_db c2)) = ["a"; "b"].
Proof. vm_compute. auto. Qed.
End Orders.
