(* ===== verification/PgAudit.v ===== *)
(** The shared audit log: [src/pkg/store/pgstore/audit.go]. Many workers and the console
    append to one table; a transaction takes the advisory lock, reads the last entry, links
    the next one to it and inserts it. The table's rows are in the order they were
    inserted; the statements that read it order them by number. As in [AuditLog], JSON and
    SHA-256 are outside. *)

From S2P Require Import Turgon Prelude GoStr GoErr AuditLog.
From Stdlib Require Import Ascii String.

(** A row of [turgon_audit]. *)
Record audit_row := mkAuditRow {
  ar_seq : Z;
  ar_time : Z;
  ar_actor : string;
  ar_action : string;
  ar_line : string
}.

(** [meta.Refusal]. *)
Record Refusal := mkRefusal { rf_Operation : string; rf_Error : string; rf_At : Z }.

(** [ORDER BY seq]. *)
Definition by_seq (rows : list audit_row) : list audit_row := isort (fun a b => ar_seq a <=? ar_seq b)%Z rows.

(** [int64(seq)] and [uint64(seq)]. *)
Definition uint64_of (z : Z) : Z := z mod int_mod.

Section audit.
Context (digest : Entry -> string) (encode_entry : Entry -> result string) (decode_entry : string -> result Entry).

(** The number and hash the next entry follows. *)
Definition read_head (rows : list audit_row) : result (Z * string) :=
  match List.rev (by_seq rows) with
  | [] => Ok (0%Z, Genesis)
  | r :: _ =>
      match decode_entry (ar_line r) with
      | Err e => Err (Wrapf (Msg "audit: last entry unreadable: %w" []) [e])
      | Ok last => Ok (Seq last, Hash last)
      end
  end.

(** The next entry and its row. *)
Definition next_row (rows : list audit_row) (now : Z) (actor action raw : string) : result (Entry * audit_row) :=
  match read_head rows with
  | Err e => Err e
  | Ok (seq, prev) =>
      let e := Next digest seq prev now actor action raw in
      match encode_entry e with
      | Err err => Err err
      | Ok line => Ok (e, mkAuditRow (wrap (Seq e)) (Time e) (Actor e) (Action e) line)
      end
  end.

(** [INSERT], refused when the number is taken. *)
Definition insert_row (r : audit_row) (rows : list audit_row) : option (list audit_row) :=
  if existsb (fun x => ar_seq x =? ar_seq r)%Z rows then None else Some (rows ++ [r]).

(** [Verify], over the rows in order. *)
Fixpoint verify_rows (rows : list audit_row) (seq : Z) (prev : string) (last : option Entry) : option Entry * option goerr :=
  match rows with
  | [] => (last, None)
  | r :: rows =>
      match decode_entry (ar_line r) with
      | Err _ => (last, Some (Wrapf (Msg "%w: row %d is not a valid entry" [FInt (ar_seq r)]) [Sentinel ErrTampered]))
      | Ok e =>
          if negb (uint64_of (ar_seq r) =? Seq e)%Z then
            (last, Some (Wrapf (Msg "%w: row %d holds entry %d" [FInt (ar_seq r); FInt (Seq e)]) [Sentinel ErrTampered]))
          else
            match Link digest seq prev e with
            | Some err => (last, Some err)
            | None => verify_rows rows (Seq e) (Hash e) (Some e)
            end
      end
  end.

Definition Verify_table (rows : list audit_row) : option Entry * option goerr := verify_rows (by_seq rows) 0 Genesis None.

(** [Tail]: the newest entries; rows that are not entries are left out. *)
Definition Tail (limit : Z) (rows : list audit_row) : list Entry :=
  List.flat_map (fun r => match decode_entry (ar_line r) with Ok e => [e] | Err _ => [] end)
    (List.firstn (Z.to_nat limit) (List.rev (by_seq rows))).

(** [Refusals]; [target_of] and [failure_of] read the target, and the operation and error,
    of an entry's data. *)
Definition Refusals (target_of : string -> option string) (failure_of : string -> option (string * string))
    (target : string) (since : Z) (rows : list audit_row) : list Refusal :=
  List.flat_map (fun r =>
    if String.eqb (ar_action r) "writeback.failed" && (since <? ar_time r)%Z && bool_decide (target_of (ar_line r) = Some target) then
      match decode_entry (ar_line r) with
      | Ok e =>
          match failure_of (Data e) with
          | Some (op, err) => if String.eqb op "" then [] else [mkRefusal op err (Time e)]
          | None => []
          end
      | Err _ => []
      end
    else []) (by_seq rows).

(** ** Concurrent writers

    Each call of [Record] is a transaction of its own: it begins, waits for the lock, reads
    the head and inserts its row, which others see once it commits. It may fail, or its
    worker die, at any point, which rolls it back and frees the lock; and a commit may
    succeed although its answer is lost. *)

Inductive phase :=
| Waiting (actor action raw : string)
| Locked (actor action raw : string)
| Inserted (e : Entry) (r : audit_row).

Record shared := mkShared {
  sh_rows : list audit_row;
  sh_lock : option nat;
  sh_writers : gmap nat phase;
  sh_answers : list Entry
}.

Inductive audit_step : shared -> shared -> Prop :=
| as_begin s w actor action raw : sh_writers s !! w = None ->
    audit_step s (mkShared (sh_rows s) (sh_lock s) (<[w := Waiting actor action raw]> (sh_writers s)) (sh_answers s))
| as_lock s w actor action raw : sh_writers s !! w = Some (Waiting actor action raw) -> sh_lock s = None ->
    audit_step s (mkShared (sh_rows s) (Some w) (<[w := Locked actor action raw]> (sh_writers s)) (sh_answers s))
| as_insert s w actor action raw now e r : sh_writers s !! w = Some (Locked actor action raw) ->
    next_row (sh_rows s) now actor action raw = Ok (e, r) -> insert_row r (sh_rows s) <> None ->
    audit_step s (mkShared (sh_rows s) (sh_lock s) (<[w := Inserted e r]> (sh_writers s)) (sh_answers s))
| as_commit s w e r rows (lost : bool) : sh_writers s !! w = Some (Inserted e r) -> insert_row r (sh_rows s) = Some rows ->
    audit_step s (mkShared rows None (delete w (sh_writers s)) (if lost then sh_answers s else sh_answers s ++ [e]))
| as_abort s w p : sh_writers s !! w = Some p ->
    audit_step s (mkShared (sh_rows s) (if bool_decide (sh_lock s = Some w) then None else sh_lock s) (delete w (sh_writers s)) (sh_answers s)).

Definition no_writers : shared := mkShared [] None ∅ [].
End audit.

(** ** The chain in the table *)

Section chain.
Context (digest : Entry -> string) (encode_entry : Entry -> result string) (decode_entry : string -> result Entry).

(** The entries of rows, when every row is one. *)
Fixpoint row_entries (rows : list audit_row) : option (list Entry) :=
  match rows with
  | [] => Some []
  | r :: rows =>
      match decode_entry (ar_line r), row_entries rows with
      | Ok e, Some es => if (uint64_of (ar_seq r) =? Seq e)%Z then Some (e :: es) else None
      | _, _ => None
      end
  end.

Lemma verify_rows_ok rows seq prev o r :
  verify_rows digest decode_entry rows seq prev o = (r, None) <->
  exists es, row_entries rows = Some es /\ linked digest seq prev es /\ r = head_after o es.
Proof.
  revert seq prev o. induction rows as [|x rows IH]; intros seq prev o; cbn.
  - split; [intros [= <-]; exists []; repeat constructor|]. by intros (es & [= <-] & _ & ->).
  - destruct (decode_entry (ar_line x)) as [e|]; [|split; [done|]; by intros (? & ? & _)].
    destruct (uint64_of (ar_seq x) =? Seq e)%Z; cbn [negb].
    2: { split; [done|]. intros (es & H & _). by destruct (row_entries rows). }
    destruct (Link digest seq prev e) as [err|] eqn:El.
    + split; [done|]. intros (es & H & Hl & _). destruct (row_entries rows); [|done]. injection H as <-. inversion Hl as [|? ? ? ? H1 H2 H3 H4].
      rewrite (proj2 (Link_none digest seq prev e)) in El by done. done.
    + apply Link_none in El as (E1 & E2 & E3). rewrite IH. split.
      * intros (es & -> & Hl & ->). exists (e :: es). split; [done|]. split; [by constructor|]. by rewrite head_after_cons.
      * intros (es & H & Hl & ->). destruct (row_entries rows) as [es'|]; [|done]. injection H as <-. inversion Hl as [|? ? ? ? H1 H2 H3 H4].
        exists es'. split; [done|]. split; [done|]. by rewrite head_after_cons.
Qed.
End chain.

(** ** The invariant *)

Section invariant.
Context (digest : Entry -> string) (encode_entry : Entry -> result string) (decode_entry : string -> result Entry).
#[local] Abbreviation step := (audit_step digest encode_entry decode_entry).

(** What [encoding/json] promises of an entry and its line. *)
Definition json_ok : Prop := forall e line, encode_entry e = Ok line -> decode_entry line = Ok e.
Context (Hjson : json_ok).

(** Rows number the entries from one, in order. *)
Definition numbered (rows : list audit_row) (es : list Entry) : Prop :=
  map ar_seq rows = map Z.of_nat (seq 1 (List.length rows)) /\ row_entries decode_entry rows = Some es /\
  linked digest 0 Genesis es.

Lemma numbered_length rows es : numbered rows es -> List.length es = List.length rows.
Proof using.
  intros (_ & H & _). revert es H. induction rows as [|r rows IH]; intros es H; cbn in H; [by injection H as <-|].
  destruct (decode_entry _), (row_entries _ rows) eqn:E; try done. destruct (_ =? _)%Z; [|done]. injection H as <-. cbn. by rewrite (IH l).
Qed.

Lemma sorted_numbers rows k : map ar_seq rows = map Z.of_nat (seq k (List.length rows)) -> by_seq rows = rows.
Proof using.
  revert k. induction rows as [|r rows IH]; intros k H; [done|]. cbn in H. injection H as H0 H. cbn.
  change (isort (fun a b => ar_seq a <=? ar_seq b)%Z rows) with (by_seq rows). rewrite (IH (S k)) by done.
  destruct rows as [|r' rows]; [done|]. cbn in *. injection H as H1 _. rewrite (proj2 (Z.leb_le _ _)) by lia. done.
Qed.

Lemma row_entries_snoc rows es r e : row_entries decode_entry rows = Some es -> decode_entry (ar_line r) = Ok e ->
  uint64_of (ar_seq r) = Seq e -> row_entries decode_entry (rows ++ [r]) = Some (es ++ [e]).
Proof using.
  intros H Hd Hs. revert es H. induction rows as [|x rows IH]; intros es H; cbn in *.
  - injection H as <-. rewrite Hd, Hs, Z.eqb_refl. done.
  - destruct (decode_entry (ar_line x)); [|done]. destruct (row_entries _ rows) as [es'|]; [|done]. destruct (_ =? _)%Z; [|done].
    injection H as <-. by rewrite (IH es').
Qed.

Lemma linked_numbers es n h : linked digest (Z.of_nat n) h es -> (Z.of_nat (n + List.length es) < int_mod)%Z ->
  map Seq es = map Z.of_nat (seq (S n) (List.length es)).
Proof using.
  intros H. remember (Z.of_nat n) as z eqn:Ez. revert n Ez. induction H as [|z h e es Hs _ _ _ IH]; intros m -> Hl; [done|].
  cbn in *. unfold next_seq in Hs. rewrite Z.mod_small in Hs by (unfold int_mod in *; lia). f_equal; [lia|]. apply IH; [lia|]. by rewrite Nat.add_succ_r in Hl.
Qed.

(** The head of a numbered table is where its chain stands. *)
Lemma read_head_numbered rows es : numbered rows es -> read_head decode_entry rows = Ok (after 0 Genesis es).
Proof using.
  intros (Hn & He & _). unfold read_head. rewrite (sorted_numbers rows 1) by done. clear Hn.
  destruct (List.rev rows) as [|r l] eqn:E; apply (f_equal (@List.rev audit_row)) in E; rewrite List.rev_involutive in E; cbn in E; subst rows.
  - injection He as <-. done.
  - assert (exists es' e, es = es' ++ [e] /\ decode_entry (ar_line r) = Ok e) as (es' & e & -> & ->).
    { revert es He. induction (List.rev l) as [|x rows IH]; intros es He; cbn in He.
      - destruct (decode_entry (ar_line r)) as [e|]; [|done]. destruct (_ =? _)%Z; [|done]. injection He as <-. by exists [], e.
      - destruct (decode_entry (ar_line x)) as [e0|]; [|done]. destruct (row_entries _ _) as [es0|]; [|done]. destruct (_ =? _)%Z; [|done].
        injection He as <-. destruct (IH es0 eq_refl) as (es' & e & -> & Hd). by exists (e0 :: es'), e. }
    unfold after. by rewrite last_snoc.
Qed.

(** The next row extends a numbered table. *)
Lemma next_row_numbered rows es now actor action raw e r :
  numbered rows es -> (Z.of_nat (S (List.length rows)) <= int_max)%Z ->
  next_row digest encode_entry decode_entry rows now actor action raw = Ok (e, r) -> numbered (rows ++ [r]) (es ++ [e]).
Proof using Hjson.
  intros Hnum Hl H. pose proof (numbered_length _ _ Hnum) as Hlen. unfold next_row in H. rewrite (read_head_numbered _ _ Hnum) in H.
  destruct Hnum as (Hn & He & Hlk). destruct (after 0 Genesis es) as [n h] eqn:Ea.
  set (e' := Next digest n h now actor action raw) in *. destruct (encode_entry e') as [line|] eqn:El; [|done]. injection H as <- <-.
  assert (Hseq : Seq e' = Z.of_nat (S (List.length rows))).
  { assert (Hlk' : linked digest (Z.of_nat 0) Genesis (es ++ [e'])).
    { change (Z.of_nat 0) with 0%Z. apply linked_snoc. rewrite Ea. split; [done|]. apply Next_links. }
    apply linked_numbers in Hlk'; [|rewrite length_app, Hlen; unfold int_max, int_mod in *; cbn; lia].
    apply (f_equal last) in Hlk'. rewrite length_app, Hlen, Nat.add_1_r, seq_S, !map_app in Hlk'. cbn [map] in Hlk'. rewrite !last_snoc in Hlk'.
    injection Hlk' as Hs. etrans; [exact Hs|]. lia. }
  assert (Hw : wrap (Seq e') = Seq e') by (apply wrap_small; unfold int_min, int_max in *; lia).
  split; [|split].
  - rewrite length_app, Nat.add_1_r, seq_S, !map_app, Hn. f_equal. cbn [map]. f_equal. etrans; [exact Hw|]. rewrite Hseq. lia.
  - apply row_entries_snoc; [done|by apply Hjson|]. change (uint64_of (wrap (Seq e')) = Seq e'). rewrite Hw, Hseq. unfold uint64_of.
    apply Z.mod_small. unfold int_max, int_mod in *. lia.
  - apply linked_snoc. rewrite Ea. split; [done|]. apply Next_links.
Qed.

(** What writers keep. *)
Record shared_ok (s : shared) : Prop := mkSharedOk {
  so_chain : exists es, numbered (sh_rows s) es /\ sh_answers s `sublist_of` es;
  so_lock w p : sh_writers s !! w = Some p -> match p with Waiting _ _ _ => True | _ => sh_lock s = Some w end;
  so_next w e r : sh_writers s !! w = Some (Inserted e r) -> exists now actor action raw,
    next_row digest encode_entry decode_entry (sh_rows s) now actor action raw = Ok (e, r)
}.

Lemma insert_row_some r rows rows' : insert_row r rows = Some rows' -> rows' = rows ++ [r].
Proof using. unfold insert_row. destruct (existsb _ _); [done|]. by intros [= <-]. Qed.

Lemma no_writers_ok : shared_ok no_writers.
Proof using. split; [|done|done]. exists []. split; [repeat constructor|constructor]. Qed.

(** The phases of the other writers are as they were. *)
Ltac other_writers := repeat match goal with
  | H : <[?w := _]> _ !! ?w' = Some _ |- _ => let E := fresh in apply lookup_insert_Some in H as [[? E]|[? H]]; [first [discriminate E|subst]|]
  | H : delete ?w _ !! ?w' = Some _ |- _ => apply lookup_delete_Some in H as [? H]
  end.

Lemma audit_step_ok s s' : (Z.of_nat (List.length (sh_rows s')) <= int_max)%Z -> shared_ok s -> step s s' -> shared_ok s'.
Proof using Hjson.
  intros Hl [(es & Hn & Ha) Hlock Hnext] H.
  destruct H as [s w actor action raw Hw|s w actor action raw Hw Hfree|s w actor action raw now e r Hw Hr Hi|s w e r rows lost Hw Hi|s w p Hw]; cbn in *.
  - split; cbn; [by exists es| |].
    + intros w' p Hp. other_writers; [done|by apply (Hlock w' p)].
    + intros w' e r Hp. other_writers. by eapply Hnext.
  - split; cbn; [by exists es| |].
    + intros w' p Hp. other_writers; [done|]. specialize (Hlock _ _ Hp). destruct p; [done|congruence..].
    + intros w' e r Hp. other_writers. by eapply Hnext.
  - split; cbn; [by exists es| |].
    + intros w' p Hp. other_writers; [by specialize (Hlock _ _ Hw)|by apply (Hlock w' p)].
    + intros w' e' r' Hp. apply lookup_insert_Some in Hp as [[<- [= <- <-]]|[? Hp]]; [by eauto|by eapply Hnext].
  - apply insert_row_some in Hi as ->. destruct (Hnext _ _ _ Hw) as (now & actor & action & raw & Hr).
    rewrite length_app, Nat.add_1_r in Hl. pose proof (next_row_numbered _ _ _ _ _ _ _ _ Hn Hl Hr) as Hn'.
    assert (Hw' : forall w' p, delete w (sh_writers s) !! w' = Some p -> exists a b c, p = Waiting a b c).
    { intros w' p Hp. other_writers. destruct p; [by eauto|exfalso..]; apply Hlock in Hp, Hw; congruence. }
    split; cbn.
    + exists (es ++ [e]). split; [done|]. destruct lost; [by apply sublist_inserts_r|]. by apply sublist_app.
    + intros w' p Hp. destruct (Hw' _ _ Hp) as (? & ? & ? & ->). done.
    + intros w' e' r' Hp. destruct (Hw' _ _ Hp) as (? & ? & ? & [=]).
  - split; cbn; [by exists es| |].
    + intros w' p' Hp. other_writers. specialize (Hlock _ _ Hp). destruct p'; [done|case_bool_decide; congruence..].
    + intros w' e r Hp. other_writers. by eapply Hnext.
Qed.

Lemma audit_step_grows s s' : step s s' -> sh_rows s `prefix_of` sh_rows s'.
Proof using. destruct 1 as [| | |s w e r rows lost Hw Hi|]; cbn; try done. apply insert_row_some in Hi as ->. by eexists. Qed.

Lemma audit_star_ok s : star step no_writers s -> (Z.of_nat (List.length (sh_rows s)) <= int_max)%Z -> shared_ok s.
Proof using Hjson.
  intros H. remember no_writers as s0 eqn:E. induction H as [a|a b c Hab IH Hbc]; intros Hl; subst; [apply no_writers_ok|].
  eapply audit_step_ok; [exact Hl| |exact Hbc]. apply IH; [done|]. apply audit_step_grows in Hbc as [new Hnew]. rewrite Hnew, length_app in Hl. lia.
Qed.

Lemma audit_star_grows s s' : star step s s' -> sh_rows s `prefix_of` sh_rows s'.
Proof using. induction 1 as [|a b c _ IH H]; [done|]. etrans; [exact IH|by apply audit_step_grows]. Qed.
End invariant.

(** * Properties *)

(** C36: the shared audit log is one chain, whatever its writers do. However many workers
    append at once, and whichever of their transactions fail, die or lose their answer, the
    table verifies: its rows are numbered from one and each links to the one before. Every
    entry a call returned is in it, once and in the order of the answers, and rows that
    were there are never changed. *)
Theorem shared_audit_log_is_a_chain (digest : Entry -> string) (encode_entry : Entry -> result string) (decode_entry : string -> result Entry)
    (s s' : shared) :
  json_ok encode_entry decode_entry -> star (audit_step digest encode_entry decode_entry) no_writers s ->
  star (audit_step digest encode_entry decode_entry) s s' -> (Z.of_nat (List.length (sh_rows s)) <= int_max)%Z ->
  (exists es, row_entries decode_entry (sh_rows s) = Some es /\ linked digest 0 Genesis es /\
    map ar_seq (sh_rows s) = map Z.of_nat (seq 1 (List.length es)) /\
    sh_answers s `sublist_of` es /\ Verify_table digest decode_entry (sh_rows s) = (last es, None)) /\
  sh_rows s `prefix_of` sh_rows s'.
Proof.
  intros Hj Hs Hs' Hl. split; [|by eapply audit_star_grows].
  destruct (audit_star_ok _ _ _ Hj s Hs Hl) as [(es & Hn & Ha) _ _]. pose proof (numbered_length _ _ _ _ Hn) as Hlen.
  destruct Hn as (Hn & He & Hlk). exists es. rewrite Hlen. do 4 (split; [done|]). unfold Verify_table. rewrite (sorted_numbers _ 1) by done.
  apply verify_rows_ok. exists es. split; [done|]. split; [done|]. unfold head_after. by destruct (last es).
Qed.

(** * Witness *)

Module Workers.
#[local] Abbreviation next rows now actor := (next_row Bars.digest Bars.encode Bars.decode rows now actor "commit" "x").

Definition made (r : result (Entry * audit_row)) : Entry * audit_row :=
  match r with Ok p => p | Err _ => (mkEntry 0 0 "" "" "" "" "", mkAuditRow 0 0 "" "" "") end.
Definition first : Entry * audit_row := Eval vm_compute in made (next [] 1500 "ada").
Definition second : Entry * audit_row := Eval vm_compute in made (next [snd first] 2500 "bob").

(** Two workers at once; the answer of the first one's commit is lost. *)
Definition both : shared := mkShared [snd first; snd second] None ∅ [fst second].

#[local] Abbreviation step := (audit_step Bars.digest Bars.encode Bars.decode).

Lemma reach (a b c c' : shared) : star step a b -> step b c' -> c' = c -> star step a c.
Proof. intros H Hs <-. by eapply star_snoc. Qed.

Definition bob : gmap nat phase := {[2 := Waiting "bob" "commit" "x"]}.
Definition s1 : shared := mkShared [] None bob [].
Definition s2 : shared := mkShared [] None (<[1 := Waiting "ada" "commit" "x"]> bob) [].
Definition s3 : shared := mkShared [] (Some 1) (<[1 := Locked "ada" "commit" "x"]> bob) [].
Definition s4 : shared := mkShared [] (Some 1) (<[1 := Inserted (fst first) (snd first)]> bob) [].
Definition s5 : shared := mkShared [snd first] None bob [].
Definition s6 : shared := mkShared [snd first] (Some 2) {[2 := Locked "bob" "commit" "x"]} [].
Definition s7 : shared := mkShared [snd first] (Some 2) {[2 := Inserted (fst second) (snd second)]} [].

Lemma both_reached : star step no_writers both.
Proof.
  eapply (reach _ s7); [|by apply (as_commit _ _ _ s7 2 (fst second) (snd second) [snd first; snd second] false)|by vm_compute].
  eapply (reach _ s6); [|by apply (as_insert _ _ _ s6 2 "bob" "commit" "x" 2500 (fst second) (snd second))|by vm_compute].
  eapply (reach _ s5); [|by apply (as_lock _ _ _ s5 2 "bob" "commit" "x")|by vm_compute].
  eapply (reach _ s4); [|by apply (as_commit _ _ _ s4 1 (fst first) (snd first) [snd first] true)|by vm_compute].
  eapply (reach _ s3); [|by apply (as_insert _ _ _ s3 1 "ada" "commit" "x" 1500 (fst first) (snd first))|by vm_compute].
  eapply (reach _ s2); [|by apply (as_lock _ _ _ s2 1 "ada" "commit" "x")|by vm_compute].
  eapply (reach _ s1); [|by apply (as_begin _ _ _ s1 1 "ada" "commit" "x")|by vm_compute].
  eapply (reach _ no_writers); [apply star_refl|by apply (as_begin _ _ _ no_writers 2 "bob" "commit" "x")|by vm_compute].
Qed.

Lemma shared_audit_log_is_a_chain_witness :
  Verify_table Bars.digest Bars.decode (sh_rows both) = (Some (fst second), None) /\
  exists es, row_entries Bars.decode (sh_rows both) = Some es /\ sh_answers both `sublist_of` es.
Proof.
  split; [vm_compute; reflexivity|].
  destruct (shared_audit_log_is_a_chain Bars.digest Bars.encode Bars.decode both both) as [(es & He & _ & _ & Ha & _) _].
  - intros e line H. apply (Bars.codec e line H).
  - exact both_reached.
  - apply star_refl.
  - by vm_compute.
  - exists es. split; [exact He|exact Ha].
Defined.
End Workers.
