(* ===== verification/Odoo.v ===== *)
(** The Odoo connector: [src/pkg/connector/odoo/odoo.go]. Odoo is outside: [OdooServer]
    holds its answers over HTTP. A Go map is the list of its entries in the order a loop
    meets them, or a [gmap] where none does; an int64 put into a record is the number it is
    sent as. *)

From S2P Require Import Turgon Prelude GoStr GoErr GoTime GoDate Regex GuardData Guard Engine Identity.
From Stdlib Require Import Ascii String.

(** ** Configuration *)

(** [Event] of the configuration. *)
Record OdooEvent := mkOdooEvent {
  oe_Model : string;
  oe_Domain : list json;
  oe_Fields : list string;
  oe_SettleSeconds : option Z
}.

Record Lines := mkLines {
  ln_Field : string;
  ln_From : string;
  ln_Fields : list (string * string);
  ln_Preview : list string
}.

Record Operation := mkOperation {
  op_Action : string;
  op_Model : string;
  op_Fields : list (string * string);
  op_Constants : list (string * json);
  op_Lines : option Lines;
  op_Reference : string;
  op_Preview : list string;
  op_Method : string
}.

Record Config := mkConfig {
  oc_BaseURL : string;
  oc_Database : string;
  oc_Events : list (string * OdooEvent);
  oc_Operations : list (string * Operation)
}.

Record CreateResult := mkCreateResult {
  cr_Model : string;
  cr_ID : Z;
  cr_Number : string;
  cr_Reference : string;
  cr_Existing : bool;
  cr_Record : json
}.

(** [FieldInfo], the parts that are read. *)
Record FieldInfo := mkFieldInfo { fi_Type : string; fi_Required : bool; fi_Readonly : bool; fi_Relation : string; fi_Size : Z }.

Definition name_char (c : ascii) : bool := is_lower c || is_digit c || Ascii.eqb c "_".
Definition path_head (c : ascii) : bool := is_lower c || is_upper c || Ascii.eqb c "_".
Definition path_char (c : ascii) : bool := path_head c || is_digit c.

Definition modelRE : re :=
  RSeq (RCls is_lower) (RSeq (RStar (RCls name_char)) (RStar (RSeq (RChr ".") (RPlus (RCls name_char))))).
Definition fieldRE : re := RSeq (RCls (fun c => is_lower c || Ascii.eqb c "_")) (RStar (RCls name_char)).
Definition pathRE : re :=
  RSeq (RSeq (RCls path_head) (RStar (RCls path_char)))
    (RStar (RSeq (RChr ".") (RSeq (RCls path_head) (RStar (RCls path_char))))).

(** [fieldRE.MatchString]: at most 63 bytes. *)
Definition is_field (f : string) : bool := fullmatch fieldRE f && (String.length f <=? 63)%nat.
Definition is_model (s : string) : bool := fullmatch modelRE s.
Definition is_path (s : string) : bool := fullmatch pathRE s.

(** ** Domains *)

(** A term of a domain, [[field, operator, value]], or why it is none. *)
Definition check_term (x : json) : option goerr :=
  match x with
  | JArr [f; o; _] =>
      match f with
      | JStr f => if is_path f then match o with JStr _ => None | _ => Some (Errorf (Msg "domain: invalid operator %v" [])) end
                  else Some (Errorf (Msg "domain: invalid field %v" [FStr f]))
      | _ => Some (Errorf (Msg "domain: invalid field %v" []))
      end
  | _ => Some (Errorf (msg0 "domain: a term is [field, operator, value]"))
  end.

(** How many operands an operator has. *)
Definition operands (x : string) : option nat :=
  if String.eqb x "!" then Some 1 else if String.eqb x "&" || String.eqb x "|" then Some 2 else None.

(** The loop over an operator's operands: what is left of the domain after them. *)
Fixpoint after_operands (expr : list json -> option (result (list json))) (n : nat) (d : list json) : option (result (list json)) :=
  match n with
  | O => Some (Ok d)
  | S n => match expr d with Some (Ok d) => after_operands expr n d | r => r end
  end.

(** [expr]: what is left after one expression; [None] when the fuel runs out. *)
Fixpoint expr (fuel : nat) (d : list json) : option (result (list json)) :=
  match fuel with
  | O => None
  | S fuel =>
      match d with
      | [] => Some (Err (Errorf (msg0 "domain: an operator lacks an operand")))
      | JStr x :: d =>
          match operands x with
          | None => Some (Err (Errorf (Msg "domain: %q is not an operator" [FStr x])))
          | Some n => after_operands (expr fuel) n d
          end
      | x :: d => match check_term x with Some e => Some (Err e) | None => Some (Ok d) end
      end
  end.

Fixpoint check_exprs (fuel : nat) (d : list json) : option (option goerr) :=
  match d, fuel with
  | [], _ => Some None
  | _, O => None
  | _, S fuel' =>
      match expr (S fuel) d with
      | None => None
      | Some (Err e) => Some (Some e)
      | Some (Ok d) => check_exprs fuel' d
      end
  end.

(** [checkDomain]; an expression is as long as its parts are many. *)
Definition checkDomain (d : list json) : option (option goerr) := check_exprs (List.length d) d.

(** ** Validation *)

(** The first invalid one of the names. *)
Definition check_fields (message : string) (fields : list string) : option goerr :=
  first_error (fun f => if is_field f then None else Some (Errorf (Msg message [FStr f]))) fields.
Definition check_mapping (message : string) (where_ : string) (fields : list (string * string)) : option goerr :=
  first_error (fun fp => if is_field (fst fp) && is_path (snd fp) then None
    else Some (Errorf (Msg message [FStr where_; FStr (fst fp); FStr (snd fp)]))) fields.

(** The first error of several checks. *)
Definition checks (l : list (option goerr)) : option goerr := first_error id l.

Definition check_lines (where_ : string) (l : Lines) : option goerr :=
  checks [
    if is_field (ln_Field l) && is_path (ln_From l) && negb (match ln_Fields l with [] => true | _ => false end) then None
    else Some (Errorf (Msg "%s: lines need field, from and fields" [FStr where_]));
    check_mapping "%s: invalid line field mapping %q: %q" where_ (ln_Fields l);
    check_fields "%s: invalid line preview field %q" (ln_Preview l)].

Definition check_operation (name : string) (op : Operation) : option goerr :=
  let where_ := "operation " +++ name in
  let no_fields := match op_Fields op with [] => true | _ => false end in
  if negb (is_model (op_Model op)) then Some (Errorf (Msg "%s: model is required" [FStr where_]))
  else if String.eqb (op_Action op) "create" then
    checks [
      if no_fields then Some (Errorf (Msg "%s: create needs fields" [FStr where_])) else None;
      check_mapping "%s: invalid field mapping %q: %q" where_ (op_Fields op);
      check_fields "%s: invalid constant %q" (op_Constants op).*1;
      if negb (String.eqb (op_Reference op) "") && negb (is_field (op_Reference op))
      then Some (Errorf (Msg "%s: invalid reference field %q" [FStr where_; FStr (op_Reference op)])) else None;
      check_fields "%s: invalid preview field %q" (op_Preview op);
      match op_Lines op with Some l => check_lines where_ l | None => None end]
  else if String.eqb (op_Action op) "cancel" then
    if existsb (String.eqb (op_Method op)) [""; "action_cancel"; "unlink"] then None
    else Some (Errorf (Msg "%s: method must be action_cancel or unlink, got %q" [FStr where_; FStr (op_Method op)]))
  else if String.eqb (op_Action op) "get" then
    checks [
      if no_fields then Some (Errorf (Msg "%s: get needs fields" [FStr where_])) else None;
      check_mapping "%s: invalid field mapping %q: %q" where_ (op_Fields op)]
  else Some (Errorf (Msg "%s: action must be create, cancel or get, got %q" [FStr where_; FStr (op_Action op)])).

Definition check_event (name : string) (e : OdooEvent) : option (option goerr) :=
  if negb (is_model (oe_Model e)) then Some (Some (Errorf (Msg "event %s: model is required" [FStr name])))
  else match check_fields "event %s: invalid field %q" (oe_Fields e) with
    | Some err => Some (Some err)
    | None =>
        match checkDomain (oe_Domain e) with
        | Some (Some err) => Some (Some (Wrapf (Msg "event %s: %w" [FStr name]) [err]))
        | r => r
        end
    end.

Fixpoint check_events (l : list (string * OdooEvent)) : option (option goerr) :=
  match l with
  | [] => Some None
  | (name, e) :: l => match check_event name e with Some None => check_events l | r => r end
  end.

Section validation.
(** [url.Parse]: scheme, host and path. *)
Context (url_parse : string -> option (string * string * string)).

Definition instance_url (s : string) : bool :=
  match url_parse s with
  | Some (scheme, host, path) =>
      (String.eqb scheme "https" || String.eqb scheme "http") && negb (String.eqb host "") &&
      (String.eqb path "" || String.eqb path "/")
  | None => false
  end.

(** [Config.validate]. *)
Definition validate (c : Config) : option (option goerr) :=
  if negb (instance_url (oc_BaseURL c)) then
    Some (Some (Errorf (msg0 "baseURL must be the instance's http(s) address, without a path")))
  else match check_events (oc_Events c) with
    | Some None => Some (first_error (fun no => check_operation (fst no) (snd no)) (oc_Operations c))
    | r => r
    end.

Fixpoint trim_slashes (fuel : nat) (s : string) : string :=
  match fuel with
  | O => s
  | S fuel => if has_suffix "/" s then trim_slashes fuel (fst (str_cut (String.length s - 1) s)) else s
  end.

(** [New]: the configuration and the key of the connector. *)
Definition New (cfg : Config) (secret : string) : option (result (Config * string)) :=
  let cfg := mkConfig (trim_slashes (String.length (oc_BaseURL cfg)) (oc_BaseURL cfg)) (oc_Database cfg) (oc_Events cfg) (oc_Operations cfg) in
  match validate cfg with
  | None => None
  | Some (Some e) => Some (Err e)
  | Some None =>
      let key := trim_space secret in
      if String.eqb key "" then Some (Err (Errorf (msg0 "the secret must be an Odoo API key"))) else Some (Ok (cfg, key))
  end.
End validation.

(** ** Positions *)

Definition idBits : Z := 31.

(** [position]: seconds and ID. *)
Definition position (t id : Z) : Z := wrap (Z.lor (wrap (Z.shiftl t idBits)) id).

(** [cursor]: the second and the ID to read after. *)
Definition cursor (after : Z) : Z * Z :=
  if (after <? 2 ^ 40)%Z then (after / 1000, 2 ^ idBits - 1)%Z
  else (Z.shiftr after idBits, Z.land after (2 ^ idBits - 1)).

(** ** Values *)

(** [strconv.ParseInt]'s value whatever its error, as [Int64] of a number gives it. *)
Definition clamp (o : option Z) : Z :=
  match o with Some z => Z.max int_min (Z.min int_max z) | None => 0%Z end.
Definition int64_of (s : string) : Z :=
  match s with
  | "" => 0%Z
  | String c r =>
      if ascii_dec c "+" then clamp (digits_value r)
      else if ascii_dec c "-" then clamp (Z.opp <$> digits_value r)
      else clamp (digits_value s)
  end.

(** [id64]. *)
Definition id64 (v : json) : Z :=
  match v with JNum lit => int64_of lit | JFloat f => float_trunc f | _ => 0%Z end.

(** [lookup]. *)
Definition lookup (doc : json) (path : string) : json := default JNull (json_at doc (split_on "." path)).

Definition string_of (v : json) : string := match v with JStr s => s | _ => "" end.

Section values.
(** [strconv.ParseFloat]. *)
Context (parse_float : string -> option float64).

Definition one_of (s : string) (l : list string) : bool := existsb (String.eqb s) l.

(** [convert]. *)
Definition convert (model field : string) (v : json) (f : FieldInfo) : result json :=
  let bad := Err (Wrapf (Msg "%w: %s.%s is a %s field, and %v is not one" [FStr model; FStr field; FStr (fi_Type f)]) [Sentinel ErrInvalid]) in
  match v with
  | JNull => Ok (JBool false)
  | _ =>
      if one_of (fi_Type f) ["many2one"; "integer"] then
        match v with
        | JNum lit => match atoi lit with Some n => Ok (JNum (itoa n)) | None => bad end
        | JFloat x => if PrimFloat.eqb x (float_of_Z (float_trunc x)) then Ok (JNum (itoa (float_trunc x))) else bad
        | JStr s => match atoi (trim_space s) with Some n => Ok (JNum (itoa n)) | None => bad end
        | _ => bad
        end
      else if one_of (fi_Type f) ["float"; "monetary"] then
        match v with
        | JNum lit => match parse_float lit with Some x => Ok (JFloat x) | None => bad end
        | JFloat x => Ok (JFloat x)
        | JStr s => match parse_float (trim_space s) with Some x => Ok (JFloat x) | None => bad end
        | _ => bad
        end
      else if String.eqb (fi_Type f) "boolean" then
        match v with JBool b => Ok (JBool b) | _ => bad end
      else if one_of (fi_Type f) ["char"; "text"; "html"; "selection"; "date"; "datetime"] then
        match v with
        | JStr s =>
            if (0 <? fi_Size f)%Z && (fi_Size f <? Z.of_nat (List.length (runes_of s)))%Z
            then Err (Wrapf (Msg "%w: %s.%s holds at most %d characters" [FStr model; FStr field; FInt (fi_Size f)]) [Sentinel ErrInvalid])
            else Ok (JStr s)
        | JNum lit => Ok (JStr lit)
        | _ => bad
        end
      else Ok v
  end.

(** The loop of [values] over the mapping. *)
Fixpoint add_values (model : string) (fields : gmap string FieldInfo) (doc : json) (mapping : list (string * string))
    (out : gmap string json) : result (gmap string json) :=
  match mapping with
  | [] => Ok out
  | (f, p) :: mapping =>
      match fields !! f with
      | None => Err (Wrapf (Msg "%w: %s has no field %s" [FStr model; FStr f]) [Sentinel ErrInvalid])
      | Some info =>
          match lookup doc p with
          | JNull => add_values model fields doc mapping out
          | raw => let! v := convert model f raw info in add_values model fields doc mapping (<[f := v]> out)
          end
      end
  end.

(** [values]. *)
Definition values (model : string) (fields : gmap string FieldInfo) (doc : json) (mapping : list (string * string))
    (constants : list (string * json)) : result (gmap string json) :=
  add_values model fields doc mapping (list_to_map (List.rev constants)).

Definition object (m : gmap string json) : json := JObj (map_to_list m).

(** The loop of [record] over the lines: the commands that create them. *)
Fixpoint line_commands (relation : string) (fields : gmap string FieldInfo) (l : Lines) (i : Z) (list_ : list json) : result (list json) :=
  match list_ with
  | [] => Ok []
  | (JObj _) as line :: rest =>
      match values relation fields line (ln_Fields l) [] with
      | Err e => Err (Wrapf (Msg "%s[%d]: %w" [FStr (ln_From l); FInt i]) [e])
      | Ok lv => let! cmds := line_commands relation fields l (i + 1)%Z rest in Ok (JArr [JNum "0"; JNum "0"; object lv] :: cmds)
      end
  | _ :: _ => Err (Wrapf (Msg "%w: %s[%d] is not an object" [FStr (ln_From l); FInt i]) [Sentinel ErrInvalid])
  end.
End values.

(** ** Calls *)

(** What an HTTP call gives: no answer, or a status and a body. *)
Inductive http_answer :=
| NoAnswer (e : goerr)
| Answer (status : Z) (body : string).

(** The instance: a method called with its arguments by name, and the clock, in Unix
    nanoseconds. *)
Class OdooServer (D : Type) := {
  od_post : string -> string -> list (string * json) -> D -> http_answer * D;
  od_now : D -> Z
}.

(** JSON: decoding with [UseNumber], encoding, an error body's name and message, the
    answer of fields_get, and results of writes; [fmt.Sprint] and [ParseFloat]. *)
Class OdooText := {
  ot_decode : string -> option json;
  ot_marshal : json -> result string;
  ot_error : string -> option (string * string);
  ot_fields : string -> option (gmap string FieldInfo);
  ot_result : CreateResult -> result string;
  ot_prior : string -> option CreateResult;
  ot_named : string -> option (Z * string);
  ot_sprint : json -> string;
  ot_float : string -> option float64
}.

(** [Conn]: the instance, and the fields already asked for. *)
Record Conn (D : Type) := mkConn { oc_db : D; oc_fields : gmap string (gmap string FieldInfo) }.
Arguments mkConn {_}. Arguments oc_db {_}. Arguments oc_fields {_}.

(** Why a call failed: Odoo's refusal ([APIError]) with its status, or anything else. *)
Inductive failure :=
| Refused (status : Z) (e : goerr)
| Failed (e : goerr).
Definition failure_error (f : failure) : goerr := match f with Refused _ e | Failed e => e end.

(** [errors.As(err, &api) && api.Status == http.StatusNotFound]. *)
Definition not_found (f : failure) : bool := match f with Refused status _ => (status =? 404)%Z | Failed _ => false end.

(** [permanent]. *)
Definition permanent (status : Z) : bool := existsb (Z.eqb status) [400; 401; 403; 404; 422]%Z.

(** [APIError.Error]. *)
Definition class_name (name : string) : string := match cut_last "." name with Some (_, r) => r | None => name end.
Definition api_error (model method : string) (status : Z) (name msg : string) : goerr :=
  let name := class_name name in
  Errorf (Msg "odoo %s/%s: %d %s%s" [FStr model; FStr method; FInt status; FStr (if String.eqb name "" then "" else name +++ ": "); FStr msg]).

Definition ellipsis : string := bytes [226; 128; 166]%N.
Definition short_message (s : string) : string :=
  if (500 <? String.length s)%nat then fst (str_cut 500 s) +++ ellipsis else s.

(** Decoding into [[]any] and [[]map[string]any]: null is a nil slice, and a nil map in one. *)
Definition as_list (v : json) : option (list json) := match v with JArr l => Some l | JNull => Some [] | _ => None end.
Definition is_record (v : json) : bool := match v with JObj _ | JNull => true | _ => false end.
Definition as_records (v : json) : option (list json) :=
  match as_list v with Some l => if forallb is_record l then Some l else None | None => None end.

(** [rec[k]]; a nil map has nothing. *)
Definition field (rec : json) (k : string) : json := match rec with JObj fields => json_field fields k | _ => JNull end.

Section calls.
Context {D : Type} `{OS : OdooServer D} `{OT : OdooText}.

Definition O_ (A : Type) : Type := Conn D -> A * Conn D.
#[export] Instance O_ret : MRet O_ := fun A a c => (a, c).
#[export] Instance O_bind : MBind O_ := fun A B k m c => let (a, c) := m c in k a c.

(** Continuing when a call succeeds. *)
Definition ok_then {A B} (r : failure + A) (k : A -> O_ (result B)) : O_ (result B) :=
  match r with inl f => mret (Err (failure_error f)) | inr a => k a end.
Definition res_then {A B} (r : result A) (k : A -> O_ (result B)) : O_ (result B) :=
  match r with Err e => mret (Err e) | Ok a => k a end.

Definition refusal (model method : string) (status : Z) (data : string) : failure :=
  let (name, msg) := match ot_error data with
    | Some (name, msg) => if String.eqb msg "" then ("", trim_space data) else (name, msg)
    | None => ("", trim_space data)
    end in
  let api := api_error model method status name (short_message msg) in
  Refused status (if permanent status then Wrapf (Msg "%w: %w" []) [Sentinel ErrInvalid; api] else api).

(** [call], with what its answer is decoded into. *)
Definition call {A} (decode : string -> option A) (model method : string) (args : list (string * json)) : O_ (failure + A) :=
  match ot_marshal (JObj args) with
  | Err e => mret (inl (Failed e))
  | Ok _ => fun c =>
      let (a, d) := od_post model method args (oc_db c) in
      (match a with
       | NoAnswer e => inl (Failed (Wrapf (Msg "odoo %s/%s: %w" [FStr model; FStr method]) [e]))
       | Answer status data =>
           if (300 <=? status)%Z then inl (refusal model method status data)
           else match decode data with
             | Some v => inr v
             | None => inl (Failed (Errorf (Msg "odoo %s/%s: the answer is not JSON: %w" [FStr model; FStr method])))
             end
       end, mkConn d (oc_fields c))
  end.

Definition decode_with {A} (f : json -> option A) (data : string) : option A :=
  match ot_decode data with Some v => f v | None => None end.

Definition strings (l : list string) : json := JArr (map JStr l).

(** [fieldsOf]. *)
Definition fieldsOf (model : string) : O_ (result (gmap string FieldInfo)) :=
  fun c => match oc_fields c !! model with
  | Some f => (Ok f, c)
  | None =>
      (r ← call ot_fields model "fields_get"
         [("attributes", strings ["type"; "string"; "required"; "readonly"; "relation"; "size"])];
       ok_then r (fun f c => (Ok f, mkConn (oc_db c) (<[model := f]> (oc_fields c))))) c
  end.

(** ** Events *)

Definition sprint (v : json) : string :=
  match v with JNum lit => lit | JStr s => s | _ => ot_sprint v end.

(** [toEvent]. *)
Definition toEvent (name : string) (e : OdooEvent) (rec : json) : result Event :=
  let id := sprint (field rec "id") in
  let s := string_of (field rec "write_date") in
  match parse_stamp s with
  | None => Err (Errorf (Msg "odoo: %s record %s has no valid write_date (%q)" [FStr (oe_Model e); FStr id; FStr s]))
  | Some t =>
      let! payload := ot_marshal rec in
      let n := id64 (field rec "id") in
      if (n <=? 0)%Z || (2 ^ idBits <=? n)%Z
      then Err (Errorf (Msg "odoo: %s record ID %s is outside the positions' range" [FStr (oe_Model e); FStr id]))
      else Ok (mkSourceEvent id (position t n) name payload)
  end.

(** The loop of [Poll] over the records. *)
Fixpoint to_events (name : string) (e : OdooEvent) (after : Z) (recs : list json) : result (list Event) :=
  match recs with
  | [] => Ok []
  | rec :: recs =>
      let! ev := toEvent name e rec in
      let! events := to_events name e after recs in
      Ok (if (after <? sev_Position ev)%Z then ev :: events else events)
  end.

Definition term (f o : string) (v : json) : json := JArr [JStr f; JStr o; v].

(** What a poll asks for: the event's domain, the cursor and the settle limit. *)
Definition settled_by (now : Z) (e : OdooEvent) : Z :=
  ((now + wrap (- default 60 (oe_SettleSeconds e) * 1000000000)) / 1000000000)%Z.
Definition poll_domain (e : OdooEvent) (after now : Z) : list json :=
  let (since, lastID) := cursor after in
  let stamp := JStr (format_stamp since) in
  oe_Domain e ++ [JStr "|"; term "write_date" ">" stamp; JStr "&"; term "write_date" "=" stamp; term "id" ">" (JNum (itoa lastID));
    term "write_date" "<=" (JStr (format_stamp (settled_by now e)))].

Context (cfg : Config) (PageSize : Z).

Definition find_event (name : string) : option OdooEvent :=
  match find_first (fun e => String.eqb (fst e) name) (oc_Events cfg) with Some (_, e) => Some e | None => None end.

(** [Poll]. *)
Definition Poll_odoo (name : string) (after limit : Z) : O_ (result (list Event)) :=
  match find_event name with
  | None => mret (Err (Errorf (Msg "odoo: event %q is not configured on this connection" [FStr name])))
  | Some e =>
      let limit := if (limit <=? 0)%Z || (PageSize <? limit)%Z then PageSize else limit in
      now ← (fun c => (od_now (oc_db c), c)) : O_ Z;
      r ← call (decode_with as_records) (oe_Model e) "search_read"
        [("domain", JArr (poll_domain e after now)); ("fields", strings (["id"; "write_date"] ++ oe_Fields e));
         ("order", JStr "write_date asc, id asc"); ("limit", JNum (itoa limit))];
      ok_then r (fun recs => mret (to_events name e after recs))
  end.

(** ** Writes *)

(** [operation]. *)
Definition operation (name action : string) : result Operation :=
  match find_first (fun o => String.eqb (fst o) name) (oc_Operations cfg) with
  | None => Err (Errorf (Msg "odoo: operation %q is not configured on this connection" [FStr name]))
  | Some (_, op) =>
      if negb (String.eqb action "") && negb (String.eqb (op_Action op) action)
      then Err (Errorf (Msg "odoo: operation %q is a %s, not a %s" [FStr name; FStr (op_Action op); FStr action]))
      else Ok op
  end.

(** [decode]. *)
Definition decode_payload (payload : string) : result json :=
  match ot_decode payload with
  | Some (JObj fields) => Ok (JObj fields)
  | _ => Err (Wrapf (msg0 "%w: the payload must be a JSON object") [Sentinel ErrInvalid])
  end.

(** The lines of a record, as commands. *)
Definition record_lines (op : Operation) (doc : json) (fields : gmap string FieldInfo) (l : Lines) : O_ (result (list json)) :=
  let bad := Err (Wrapf (Msg "%w: %s.%s is not a one2many field" [FStr (op_Model op); FStr (ln_Field l)]) [Sentinel ErrInvalid]) in
  match fields !! ln_Field l with
  | None => mret bad
  | Some info =>
      if negb (String.eqb (fi_Type info) "one2many") || String.eqb (fi_Relation info) "" then mret bad
      else
        lf ← fieldsOf (fi_Relation info);
        res_then lf (fun lf => mret
          match lookup doc (ln_From l) with
          | JArr ((_ :: _) as list_) => line_commands ot_float (fi_Relation info) lf l 0 list_
          | _ => Err (Wrapf (Msg "%w: %s must list at least one line" [FStr (ln_From l)]) [Sentinel ErrInvalid])
          end)
  end.

(** [record]. *)
Definition record (op : Operation) (payload : string) : O_ (result (gmap string json)) :=
  res_then (decode_payload payload) (fun doc =>
    fields ← fieldsOf (op_Model op);
    res_then fields (fun fields =>
      res_then (values ot_float (op_Model op) fields doc (op_Fields op) (op_Constants op)) (fun vals =>
        match op_Lines op with
        | None => mret (Ok vals)
        | Some l =>
            cmds ← record_lines op doc fields l;
            res_then cmds (fun cmds => mret (Ok (<[ln_Field l := JArr cmds]> vals)))
        end))).

Definition equals (field : string) (v : json) : json := JArr [term field "=" v].

(** [existing]. *)
Definition existing (op : Operation) (key : string) : O_ (result (option json)) :=
  r ← call (decode_with as_records) (op_Model op) "search_read"
    [("domain", equals (op_Reference op) (JStr key)); ("fields", strings ["id"; "display_name"; op_Reference op]); ("limit", JNum "2")];
  ok_then r (fun recs => mret
    match recs with
    | [] => Ok None
    | [JNull] => Ok None
    | [rec] => Ok (Some rec)
    | _ => Err (Wrapf (Msg "%w: more than one %s has %s %s; the reference must be unique" [FStr (op_Model op); FStr (op_Reference op); FStr key])
             [Sentinel ErrInvalid])
    end).

(** What [create] makes sure of before it looks the key up. *)
Definition key_fits (op : Operation) (key : string) (fields : gmap string FieldInfo) : option goerr :=
  let ref := default (mkFieldInfo "" false false "" 0) (fields !! op_Reference op) in
  if negb (String.eqb (fi_Type ref) "char") then
    Some (Wrapf (Msg "%w: %s.%s must be a char field to hold the idempotency key, not %q"
      [FStr (op_Model op); FStr (op_Reference op); FStr (fi_Type ref)]) [Sentinel ErrInvalid])
  else if (0 <? fi_Size ref)%Z && (fi_Size ref <? Z.of_nat (List.length (runes_of key)))%Z then
    Some (Wrapf (Msg "%w: the idempotency key %q is longer than %s.%s holds (%d)"
      [FStr key; FStr (op_Model op); FStr (op_Reference op); FInt (fi_Size ref)]) [Sentinel ErrInvalid])
  else None.

(** The call of create and the read after it. *)
Definition insert_record (op : Operation) (vals : gmap string json) (reference : string) : O_ (result string) :=
  r ← call (decode_with as_list) (op_Model op) "create" [("vals_list", JArr [object vals])];
  ok_then r (fun ids =>
    match ids with
    | [v] =>
        if (id64 v =? 0)%Z then mret (Err (Errorf (Msg "odoo %s/create: answered %v, not one record ID" [FStr (op_Model op)])))
        else
          r ← call (decode_with as_records) (op_Model op) "read"
            [("ids", JArr [JNum (itoa (id64 v))]); ("fields", strings ("display_name" :: op_Preview op))];
          mret (ot_result
            match r with
            | inr [rec] => mkCreateResult (op_Model op) (id64 v) (string_of (field rec "display_name")) reference false rec
            | _ => mkCreateResult (op_Model op) (id64 v) "" reference false JNull
            end)
    | _ => mret (Err (Errorf (Msg "odoo %s/create: answered %v, not one record ID" [FStr (op_Model op)])))
    end).

(** [create]. *)
Definition create (op : Operation) (key payload : string) : O_ (result string) :=
  vals ← record op payload;
  res_then vals (fun vals =>
    if String.eqb (op_Reference op) "" then insert_record op vals ""
    else if String.eqb key "" then
      mret (Err (Wrapf (Msg "%w: the write has no idempotency key for %s" [FStr (op_Reference op)]) [Sentinel ErrInvalid]))
    else
      fields ← fieldsOf (op_Model op);
      res_then fields (fun fields =>
        match key_fits op key fields with
        | Some e => mret (Err e)
        | None =>
            found ← existing op key;
            res_then found (fun found =>
              match found with
              | Some rec => mret (ot_result (mkCreateResult (op_Model op) (id64 (field rec "id"))
                              (string_of (field rec "display_name")) key true rec))
              | None => insert_record op (<[op_Reference op := JStr key]> vals) key
              end)
        end)).

(** [cancel]. *)
Definition cancel_answer (op : Operation) (id : Z) (method outcome : string) : json :=
  JObj [("model", JStr (op_Model op)); ("id", JNum (itoa id)); ("method", JStr method); (outcome, JBool true)].

Definition cancel (op : Operation) (payload : string) : O_ (result string) :=
  match ot_prior payload with
  | None => mret (Err (Wrapf (msg0 "%w: cancel needs the result of a create") [Sentinel ErrInvalid]))
  | Some prior =>
      let id := cr_ID prior in
      if (id =? 0)%Z then mret (Err (Wrapf (msg0 "%w: cancel needs the result of a create") [Sentinel ErrInvalid]))
      else if negb (String.eqb (cr_Model prior) (op_Model op)) then
        mret (Err (Wrapf (Msg "%w: cannot cancel a %s with an operation on %s" [FStr (cr_Model prior); FStr (op_Model op)]) [Sentinel ErrInvalid]))
      else
        let method := if String.eqb (op_Method op) "" then "action_cancel" else op_Method op in
        gone ← call (decode_with as_list) (op_Model op) "search" [("domain", equals "id" (JNum (itoa id)))];
        ok_then gone (fun gone =>
          match gone with
          | [] => mret (ot_marshal (cancel_answer op id method "alreadyGone"))
          | _ =>
              answer ← call ot_decode (op_Model op) method
                (("ids", JArr [JNum (itoa id)]) ::
                 (if String.eqb method "action_cancel" then [("context", JObj [("disable_cancel_warning", JBool true)])] else []));
              match answer with
              | inl f => if not_found f then mret (ot_marshal (cancel_answer op id method "alreadyGone")) else mret (Err (failure_error f))
              | inr (JObj action) =>
                  mret (Err (Wrapf (Msg "%w: Odoo answered %s of %s %d with an action (%v) instead of cancelling it; cancel it in Odoo"
                    [FStr method; FStr (op_Model op); FInt id; FStr (sprint (json_field action "res_model"))]) [Sentinel ErrInvalid]))
              | inr _ => mret (ot_marshal (cancel_answer op id method "done"))
              end
          end)
  end.

(** [Commit]. *)
Definition Commit (name key payload : string) : O_ (result string) :=
  res_then (operation name "") (fun op =>
    if String.eqb (op_Action op) "create" then create op key payload
    else if String.eqb (op_Action op) "cancel" then cancel op payload
    else mret (Err (Errorf (Msg "odoo: operation %q is a %s, not a write" [FStr name; FStr (op_Action op)])))).

(** [Confirm]; no error is [None]. *)
Definition confirm_fields (op : Operation) : list string :=
  "id" :: (if String.eqb (op_Action op) "create" && negb (String.eqb (op_Reference op) "") then [op_Reference op]
           else if String.eqb (op_Action op) "cancel" && negb (String.eqb (op_Method op) "unlink") then ["state"] else []).

Definition confirm_records (op : Operation) (id : Z) (reference : string) (recs : list json) : option goerr :=
  match recs with
  | [] =>
      if String.eqb (op_Action op) "cancel" then None
      else Some (Errorf (Msg "%s %d is not in Odoo after the create" [FStr (op_Model op); FInt id]))
  | rec :: _ =>
      if String.eqb (op_Action op) "cancel" then
        if String.eqb (op_Method op) "unlink" then Some (Errorf (Msg "%s %d still exists after unlink" [FStr (op_Model op); FInt id]))
        else match field rec "state" with
          | JStr s => if String.eqb s "cancel" then None
                      else Some (Errorf (Msg "%s %d reads back state %v after action_cancel, want cancel" [FStr (op_Model op); FInt id; FStr s]))
          | s => Some (Errorf (Msg "%s %d reads back state %v after action_cancel, want cancel" [FStr (op_Model op); FInt id; FStr (sprint s)]))
          end
      else if negb (String.eqb (op_Reference op) "") && negb (String.eqb (sprint (field rec (op_Reference op))) reference)
      then Some (Errorf (Msg "%s %d reads back %s %v, want %q"
        [FStr (op_Model op); FInt id; FStr (op_Reference op); FStr (sprint (field rec (op_Reference op))); FStr reference]))
      else None
  end.

Definition Confirm (name result_ : string) : O_ (option goerr) :=
  match operation name "" with
  | Err e => mret (Some e)
  | Ok op =>
      match ot_named result_ with
      | Some (id, reference) =>
          if (id =? 0)%Z then mret (Some (Errorf (Msg "odoo: %s's result names no record" [FStr name])))
          else
            r ← call (decode_with as_records) (op_Model op) "search_read"
              [("domain", equals "id" (JNum (itoa id))); ("fields", strings (confirm_fields op))];
            mret match r with inl f => Some (failure_error f) | inr recs => confirm_records op id reference recs end
      | None => mret (Some (Errorf (Msg "odoo: %s's result names no record" [FStr name])))
      end
  end.

(** ** Dry runs and reads *)

(** [linesOf]. *)
Definition linesOf (v : json) : list json :=
  match v with
  | JArr cmds => omap (fun x => match x with JArr [_; _; JObj vals] => Some (JObj vals) | _ => None end) cmds
  | _ => []
  end.

Definition empty_specs (fields : list string) : gmap string json := list_to_map (map (fun f => (f, JObj [])) fields).

(** What [Simulate] asks onchange to compute. *)
Definition fields_spec (op : Operation) (vals : gmap string json) : gmap string json :=
  let spec := empty_specs (op_Preview op ++ (map_to_list vals).*1) in
  match op_Lines op with
  | Some l => match ln_Preview l with
      | [] => spec
      | preview => <[ln_Field l := JObj [("fields", object (empty_specs (preview ++ (ln_Fields l).*1)))]]> spec
      end
  | None => spec
  end.

(** What it returns of the answer. *)
Definition preview_record (op : Operation) (value : json) : gmap string json :=
  let record := list_to_map (map (fun f => (f, field value f)) (op_Preview op)) in
  match op_Lines op with
  | Some l => match ln_Preview l with [] => record | _ => <[ln_Field l := JArr (linesOf (field value (ln_Field l)))]> record end
  | None => record
  end.

(** The answer of onchange: its value, a map, and its warning. *)
Definition as_onchange (v : json) : option (json * json) :=
  match v with
  | JObj fields => if is_record (json_field fields "value") then Some (json_field fields "value", json_field fields "warning") else None
  | JNull => Some (JNull, JNull)
  | _ => None
  end.

(** [Simulate]. *)
Definition Simulate (name payload : string) : O_ (result string) :=
  res_then (operation name "") (fun op =>
    if negb (String.eqb (op_Action op) "create") || match op_Preview op with [] => true | _ => false end
    then mret (Err (Sentinel ErrSimulationUnsupported))
    else
      vals ← record op payload;
      res_then vals (fun vals =>
        r ← call (decode_with as_onchange) (op_Model op) "onchange"
          [("values", object vals); ("field_names", strings (sort_strings (map_to_list vals).*1)); ("fields_spec", object (fields_spec op vals))];
        ok_then r (fun '(value, warning) =>
          let warned := match warning with JNull | JBool false => [] | w => [("warning", w)] end in
          mret (ot_marshal (JObj ([("mode", JStr "onchange"); ("model", JStr (op_Model op)); ("record", object (preview_record op value));
            ("values", object vals)] ++ warned)))))).

(** A many2one, [[id, name]], reads as its ID. *)
Definition read_value (types : gmap string FieldInfo) (f : string) (v : json) : json :=
  match v with
  | JArr [id; _] => match types !! f with Some i => if String.eqb (fi_Type i) "many2one" then id else v | None => v end
  | _ => v
  end.

(** The loop of [Read]: names that several fields are returned under keep the last one's value. *)
Definition read_record (op : Operation) (types : gmap string FieldInfo) (rec : json) : gmap string json :=
  foldl (fun out fa => <[snd fa := read_value types (fst fa) (field rec (fst fa))]> out) ∅ (op_Fields op).

(** [Read]. *)
Definition Read (name id : string) : O_ (result string) :=
  res_then (operation name "get") (fun op =>
    match atoi id with
    | None => mret (Err (Sentinel ErrNotFound))
    | Some n =>
        if (n <=? 0)%Z then mret (Err (Sentinel ErrNotFound))
        else
          r ← call (decode_with as_records) (op_Model op) "search_read"
            [("domain", equals "id" (JNum (itoa n))); ("fields", strings (sort_strings (op_Fields op).*1))];
          match r with
          | inl f => mret (Err (if not_found f then Sentinel ErrNotFound else failure_error f))
          | inr [] => mret (Err (Sentinel ErrNotFound))
          | inr (rec :: _) =>
              types ← fieldsOf (op_Model op);
              res_then types (fun types => mret (ot_marshal (object (read_record op types rec))))
          end
    end).
End calls.
