(* ===== verification/OdooProps.v ===== *)
(** The Odoo connector's pure parts: domains, positions and the types of values. *)

From S2P Require Import Turgon Prelude GoStr GoErr GoTime GoDate Regex GuardData Guard Engine Identity Odoo.
From Stdlib Require Import Ascii String.

(** ** Domains *)

(** An expression of a domain, and how Odoo writes it. *)
Inductive dexp :=
| DTerm (f o : string) (v : json)
| DNot (a : dexp)
| DAnd (a b : dexp)
| DOr (a b : dexp).

Fixpoint polish (e : dexp) : list json :=
  match e with
  | DTerm f o v => [term f o v]
  | DNot a => JStr "!" :: polish a
  | DAnd a b => JStr "&" :: polish a ++ polish b
  | DOr a b => JStr "|" :: polish a ++ polish b
  end.

Fixpoint named (e : dexp) : Prop :=
  match e with
  | DTerm f _ _ => is_path f = true
  | DNot a => named a
  | DAnd a b | DOr a b => named a /\ named b
  end.

Definition domain_of (es : list dexp) : list json := List.concat (map polish es).

Lemma polish_length e : 1 <= List.length (polish e).
Proof. destruct e; cbn; lia. Qed.

Lemma expr_polish e : named e -> forall fuel rest, List.length (polish e) <= fuel -> expr fuel (polish e ++ rest) = Some (Ok rest).
Proof.
  induction e as [f o v|a IHa|a IHa b IHb|a IHa b IHb]; cbn; intros Hn [|fuel] rest Hf; try lia.
  - cbn. by rewrite Hn.
  - cbn. by rewrite IHa by (done || lia).
  - cbn. rewrite length_app in Hf. rewrite <- app_assoc, IHa by (apply Hn || lia). by rewrite IHb by (apply Hn || lia).
  - cbn. rewrite length_app in Hf. rewrite <- app_assoc, IHa by (apply Hn || lia). by rewrite IHb by (apply Hn || lia).
Qed.

Lemma check_term_some x : check_term x = None -> exists f o v, x = term f o v /\ is_path f = true.
Proof.
  unfold check_term. repeat (case_match; try done). intros _. subst. by do 3 eexists.
Qed.

Lemma expr_sound fuel : forall d rest, expr fuel d = Some (Ok rest) -> exists e, named e /\ d = polish e ++ rest.
Proof.
  induction fuel as [|fuel IH]; intros d rest H; [done|]. destruct d as [|x d]; [done|]. cbn in H.
  assert (Ht : match check_term x with Some e => Some (Err e) | None => Some (Ok d) end = Some (Ok rest) ->
    exists e, named e /\ x :: d = polish e ++ rest).
  { destruct (check_term x) as [e|] eqn:E; [done|]. intros [= <-]. apply check_term_some in E as (f & o & v & -> & Hf).
    by exists (DTerm f o v). }
  destruct x as [| | | |x| |]; [by apply Ht..| |by apply Ht|by apply Ht]. clear Ht.
  unfold operands in H. destruct (String.eqb_spec x "!") as [->|].
  { cbn in H. destruct (expr fuel d) as [[d1|]|] eqn:E; [|done..]. injection H as <-. apply IH in E as (e & He & ->). by exists (DNot e). }
  destruct (String.eqb_spec x "&") as [->|]; [|destruct (String.eqb_spec x "|") as [->|]; [|done]].
  all: cbn in H; destruct (expr fuel d) as [[d1|]|] eqn:E; [|done..].
  all: destruct (expr fuel d1) as [[d2|]|] eqn:E2; [|done..]; injection H as <-.
  all: apply IH in E as (a & Ha & ->); apply IH in E2 as (b & Hb & ->).
  - exists (DAnd a b). cbn. by rewrite app_assoc.
  - exists (DOr a b). cbn. by rewrite app_assoc.
Qed.

Lemma expr_ends fuel : forall d, List.length d < fuel -> expr fuel d <> None.
Proof.
  induction fuel as [|fuel IH]; intros d Hd; [lia|]. destruct d as [|x d]; [done|]. cbn in *.
  assert (Ho : forall n d', List.length d' < fuel -> after_operands (expr fuel) n d' <> None).
  { induction n as [|n IHn]; intros d' Hd'; [done|]. cbn. destruct (expr fuel d') as [[d1|]|] eqn:E; [|done|by apply IH in E].
    apply expr_sound in E as (e & _ & ->). rewrite length_app in Hd'. apply IHn. lia. }
  destruct x as [| | | |x| |]; try (by destruct (check_term _)). destruct (operands x) as [n|]; [|done]. apply Ho. lia.
Qed.

Lemma check_exprs_spec fuel : forall d, List.length d <= fuel ->
  check_exprs fuel d <> None /\ (check_exprs fuel d = Some None <-> exists es, Forall named es /\ d = domain_of es).
Proof.
  induction fuel as [|fuel IH]; intros d Hd.
  { destruct d; [|cbn in Hd; lia]. split; [done|]. split; [|done]. by exists []. }
  destruct d as [|x d]; [split; [done|]; split; [|done]; by exists []|]. cbn [check_exprs].
  pose proof (expr_ends (S (S fuel)) (x :: d) ltac:(cbn in *; lia)) as Hends.
  destruct (expr (S (S fuel)) (x :: d)) as [[d1|e]|] eqn:E; [|split; [done|]|done].
  - pose proof (expr_sound _ _ _ E) as (e & He & Heq). pose proof (polish_length e) as Hl.
    assert (Hd1 : List.length d1 <= fuel).
    { assert (Hx : List.length (x :: d) = List.length (polish e) + List.length d1) by (by rewrite Heq, length_app). cbn in Hx, Hd. lia. }
    destruct (IH d1 Hd1) as [He1 He2]. split; [done|]. rewrite He2. split.
    + intros (es & Hes & ->). exists (e :: es). rewrite Heq. split; [by constructor|done].
    + intros ([|e' es] & Hes & Hx); [done|]. inversion Hes; subst. exists es. split; [done|].
      cbn [domain_of map List.concat] in Hx. rewrite Hx in E. rewrite expr_polish in E; [by injection E as <-|done|].
      assert (Hlen : List.length (x :: d) = List.length (polish e') + List.length (domain_of es)) by (rewrite Hx; apply length_app).
      cbn in Hlen, Hd. lia.
  - split; [done|]. intros ([|e' es] & Hes & Hx); [done|]. inversion Hes; subst. cbn [domain_of map List.concat] in Hx.
    rewrite Hx in E. rewrite expr_polish in E; [done|done|].
    assert (Hlen : List.length (x :: d) = List.length (polish e') + List.length (domain_of es)) by (rewrite Hx; apply length_app).
    cbn in Hlen, Hd. lia.
Qed.

(** C40: Checking a domain always ends, and accepts it exactly when it is a sequence of
    complete expressions: terms of a field path, an operator and a value, and the operators
    not, and, or with one and two operands, each with all of its operands. So what is put
    after an accepted domain, the cursor and the settle limit of a poll, is never an operand
    of it. *)
Theorem checkDomain_decides (d : list json) :
  checkDomain d <> None /\ (checkDomain d = Some None <-> exists es, Forall named es /\ d = domain_of es).
Proof. by apply check_exprs_spec. Qed.

(** ** Positions *)

#[local] Ltac Zify.zify_post_hook ::= Z.to_euclidean_division_equations.

Lemma lor_add a b n : (0 < n)%Z -> (0 <= b < 2 ^ n)%Z -> Z.lor (Z.shiftl a n) b = (a * 2 ^ n + b)%Z.
Proof.
  intros Hn Hb. rewrite Z.shiftl_mul_pow2 by lia. pose proof (Z.add_lor_land (a * 2 ^ n) b) as Ea.
  assert (E : Z.land (a * 2 ^ n) b = 0%Z); [|by rewrite E, Z.add_0_r in Ea].
  apply Z.bits_inj'. intros i Hi. rewrite Z.land_spec, Z.bits_0.
  destruct (Z.lt_ge_cases i n) as [Hlt|Hge]; [by rewrite Z.mul_pow2_bits_low|].
  rewrite (Z.bits_above_log2 b i); [apply andb_false_r|lia|].
  destruct (Z.eq_dec b 0) as [->|]; [cbn; lia|]. apply Z.log2_lt_pow2; [lia|].
  apply (Z.lt_le_trans _ (2 ^ n)); [lia|by apply Z.pow_le_mono_r].
Qed.

Lemma odoo_position_value t id : (0 <= t < 2 ^ 32)%Z -> (0 <= id < 2 ^ idBits)%Z -> position t id = (t * 2 ^ idBits + id)%Z.
Proof.
  unfold idBits. intros Ht Hid. unfold position, idBits. rewrite (wrap_small (Z.shiftl t 31)).
  2: { rewrite Z.shiftl_mul_pow2 by done. unfold int_min, int_max. lia. }
  rewrite lor_add by lia. apply wrap_small. unfold int_min, int_max. lia.
Qed.

Lemma cursor_position t id : (512 <= t < 2 ^ 32)%Z -> (0 <= id < 2 ^ idBits)%Z -> cursor (position t id) = (t, id).
Proof.
  intros Ht Hid. rewrite odoo_position_value by (done || lia). unfold cursor, idBits in *. rewrite (proj2 (Z.ltb_ge _ _)) by lia.
  f_equal.
  - rewrite Z.shiftr_div_pow2 by done. lia.
  - change (2 ^ 31 - 1)%Z with (Z.ones 31). rewrite Z.land_ones by done. lia.
Qed.

(** Any cursor splits into a second and an ID. *)
Lemma cursor_split after : (2 ^ 40 <= after <= int_max)%Z ->
  exists t id, cursor after = (t, id) /\ (512 <= t < 2 ^ 32)%Z /\ (0 <= id < 2 ^ idBits)%Z /\ after = (t * 2 ^ idBits + id)%Z.
Proof.
  intros H. unfold cursor, idBits, int_max in *. rewrite (proj2 (Z.ltb_ge _ _)) by lia. rewrite Z.shiftr_div_pow2 by done.
  change (2 ^ 31 - 1)%Z with (Z.ones 31). rewrite Z.land_ones by done. do 2 eexists. split; [done|]. lia.
Qed.

(** Positions of earlier versions, Unix milliseconds of a time after November 2004, are
    not told from those of today: they are read as a second of the first hour of 1970, so
    that every record is read again. *)
Lemma old_positions_restart (ms : Z) : (2 ^ 40 <= ms < 2 ^ 42)%Z -> (fst (cursor ms) < 2048)%Z.
Proof.
  intros H. unfold cursor, idBits. rewrite (proj2 (Z.ltb_ge _ _)) by lia. cbn [fst]. rewrite Z.shiftr_div_pow2 by done. lia.
Qed.

Example old_position : cursor 1750000000000 = (814, 1948310528)%Z /\ format_stamp 814 = "1970-01-01 00:13:34".
Proof. split; reflexivity. Qed.

(** ** Types of values *)

(** What a field of a declared type holds. *)
Definition integer_field (f : FieldInfo) : bool := one_of (fi_Type f) ["many2one"; "integer"].
Definition number_field (f : FieldInfo) : bool := one_of (fi_Type f) ["float"; "monetary"].
Definition text_field (f : FieldInfo) : bool := one_of (fi_Type f) ["char"; "text"; "html"; "selection"; "date"; "datetime"].

Record typed (f : FieldInfo) (raw v : json) : Prop := mkTyped {
  ty_integer : integer_field f = true -> exists n, v = JNum (itoa n) /\ (int_min <= n <= int_max)%Z;
  ty_number : number_field f = true -> exists x, v = JFloat x;
  ty_boolean : fi_Type f = "boolean" -> exists b, v = JBool b;
  ty_text : text_field f = true -> exists s, v = JStr s /\
    (raw = JNum s \/ raw = JStr s /\ ((0 < fi_Size f)%Z -> (Z.of_nat (List.length (runes_of s)) <= fi_Size f)%Z));
  ty_other : integer_field f = false -> number_field f = false -> text_field f = false -> fi_Type f <> "boolean" -> v = raw
}.

Lemma float_trunc_range x : (int_min <= float_trunc x <= int_max)%Z.
Proof.
  unfold float_trunc. destruct (FloatOps.Prim2SF x); try (unfold int_min, int_max; lia).
  destruct ((int_min <=? _)%Z && _) eqn:E; [|unfold int_min, int_max; lia]. lia.
Qed.

Lemma one_of_in s l : one_of s l = true <-> s ∈ l.
Proof.
  unfold one_of. rewrite List.existsb_exists. split.
  - intros (x & Hx & Heq). apply String.eqb_eq in Heq as ->. by apply list_elem_of_In.
  - intros Hs. exists s. rewrite String.eqb_refl. by rewrite <- list_elem_of_In.
Qed.

Section typing.
Context (parse_float : string -> option float64).

Lemma convert_typed model name raw f v : raw <> JNull -> convert parse_float model name raw f = Ok v -> typed f raw v.
Proof.
  intros Hraw H. unfold convert in H. fold (integer_field f) in H. fold (number_field f) in H. fold (text_field f) in H.
  assert (Hint : integer_field f = true -> number_field f = false /\ text_field f = false /\ fi_Type f <> "boolean").
  { unfold integer_field. rewrite one_of_in, !elem_of_cons. unfold number_field, text_field.
    intros [->|[->|Hn]]; [done..|by apply elem_of_nil in Hn]. }
  assert (Hnum : number_field f = true -> text_field f = false /\ fi_Type f <> "boolean").
  { unfold number_field. rewrite one_of_in, !elem_of_cons. unfold text_field.
    intros [->|[->|Hn]]; [done..|by apply elem_of_nil in Hn]. }
  assert (Hbool : fi_Type f = "boolean" -> text_field f = false) by (unfold text_field; by intros ->).
  destruct (integer_field f) eqn:Ei.
  { destruct (Hint eq_refl) as (En & Et & Eb). split; try congruence. intros _.
    destruct raw as [|b|lit|x|s|l|l]; try done.
    - destruct (atoi lit) as [n|] eqn:E; [|done]. injection H as <-. eapply ex_intro. split; [done|]. by eapply atoi_bounds.
    - destruct (PrimFloat.eqb _ _); [|done]. injection H as <-. eapply ex_intro. split; [done|]. apply float_trunc_range.
    - destruct (atoi _) as [n|] eqn:E; [|done]. injection H as <-. eapply ex_intro. split; [done|]. by eapply atoi_bounds. }
  clear Hint. destruct (number_field f) eqn:En.
  { destruct (Hnum eq_refl) as (Et & Eb). split; try congruence. intros _.
    destruct raw as [|b|lit|x|s|l|l]; try done; [destruct (parse_float _); [|done]|..|destruct (parse_float _); [|done]]; injection H as <-; eauto. }
  clear Hnum. destruct (String.eqb_spec (fi_Type f) "boolean") as [Eb|Eb].
  { pose proof (Hbool Eb). split; try congruence. intros _. destruct raw; try done. injection H as <-. eauto. }
  clear Hbool. destruct (text_field f) eqn:Et.
  { split; try congruence. intros _. destruct raw as [|b|lit|x|s|l|l]; try done.
    - injection H as <-. eauto.
    - destruct (_ && _) eqn:E; [done|]. injection H as <-. exists s. split; [done|]. right. split; [done|]. lia. }
  split; try congruence. intros _ _ _ _. by destruct raw; injection H.
Qed.

(** What a mapping adds: the mapped fields the payload has, each of its declared type. *)
Definition mapped (fields : gmap string FieldInfo) (doc : json) (mapping : list (string * string)) (f : string) (v : json) : Prop :=
  exists p info, (f, p) ∈ mapping /\ fields !! f = Some info /\ lookup doc p <> JNull /\ typed info (lookup doc p) v.

Lemma add_values_typed model fields doc mapping : forall out out', add_values parse_float model fields doc mapping out = Ok out' ->
  (forall f v, out' !! f = Some v -> out !! f = Some v \/ mapped fields doc mapping f v) /\
  (forall f p, (f, p) ∈ mapping -> fields !! f <> None) /\
  (forall f p, (f, p) ∈ mapping -> lookup doc p <> JNull -> is_Some (out' !! f)) /\
  (forall f, is_Some (out !! f) -> is_Some (out' !! f)).
Proof.
  induction mapping as [|[f0 p0] mapping IH]; intros out out' H.
  { injection H as <-. split; [eauto|]. split; [by intros f p Hf; apply elem_of_nil in Hf|]. split; [by intros f p Hf; apply elem_of_nil in Hf|done]. }
  cbn [add_values] in H. destruct (fields !! f0) as [info|] eqn:Ef; [|done].
  assert (Hw : forall f v, mapped fields doc mapping f v -> mapped fields doc ((f0, p0) :: mapping) f v).
  { intros f v (p & i & Hin & Hrest). exists p, i. split; [by right|done]. }
  assert (Hn : lookup doc p0 = JNull \/ lookup doc p0 <> JNull) by (destruct (lookup doc p0); [by left|by right..]).
  destruct Hn as [E|Hne].
  { rewrite E in H. apply IH in H as (H1 & H2 & H3 & H4). split; [|split; [|split; [|done]]].
    - intros f v Hf. apply H1 in Hf as [?|?]; auto.
    - intros f p [[= -> ->]|Hf]%elem_of_cons; [congruence|eauto].
    - intros f p [[= -> ->]|Hf]%elem_of_cons; [done|eauto]. }
  assert (H' : rbind (convert parse_float model f0 (lookup doc p0) info) (fun v => add_values parse_float model fields doc mapping (<[f0:=v]> out)) = Ok out').
  { by destruct (lookup doc p0). }
  clear H. apply rbind_ok in H' as (v0 & Hc & H). apply convert_typed in Hc; [|done]. apply IH in H as (H1 & H2 & H3 & H4).
  split; [|split; [|split]].
  - intros f v Hf. apply H1 in Hf as [Hf|?]; [|auto]. destruct (decide (f0 = f)) as [->|Hd].
    + rewrite lookup_insert_eq in Hf. injection Hf as <-. right. exists p0, info. split; [by left|done].
    + rewrite lookup_insert_ne in Hf by done. auto.
  - intros f p [[= -> ->]|Hf]%elem_of_cons; [congruence|eauto].
  - intros f p [[= -> ->]|Hf]%elem_of_cons Hp; [|eauto]. apply H4. rewrite lookup_insert_eq. eauto.
  - intros f Hf. apply H4. destruct (decide (f0 = f)) as [->|Hd]; [rewrite lookup_insert_eq; eauto|by rewrite lookup_insert_ne].
Qed.
End typing.
