(* ===== verification/OdooPoll.v ===== *)
(** Polling Odoo: what is relied on of an instance, and that over any run of polls every
    record that has settled is read once per change, whatever else happens meanwhile. *)

From S2P Require Import Turgon Prelude GoStr GoErr GoTime GoDate Regex GuardData Guard Engine Identity Dispatcher DispatcherTheorems PgTheorems Odoo OdooProps.
From Stdlib Require Import Ascii String.

(** ** An instance *)

(** A record as it is: its ID, when it was last changed, and its fields. *)
Record row := mkRow { ro_id : Z; ro_stamp : Z; ro_values : gmap string json }.

Definition row_position (r : row) : Z := position (ro_stamp r) (ro_id r).

(** Its records, in the order of their last change; what a term of a domain says of a
    record; how a record is answered; and that time passes. *)
Class OdooView (D : Type) := {
  od_rows : string -> D -> list row;
  od_holds : row -> string -> string -> json -> bool;
  od_render : list string -> row -> json;
  od_later : D -> D -> Prop;
  od_ok : D -> Prop
}.

Section laws.
Context {D : Type} `{OS : OdooServer D} `{OT : OdooText} `{V : OdooView D}.

Fixpoint holds (r : row) (e : dexp) : bool :=
  match e with
  | DTerm f o v => od_holds r f o v
  | DNot a => negb (holds r a)
  | DAnd a b => holds r a && holds r b
  | DOr a b => holds r a || holds r b
  end.

Definition row_ok (r : row) : Prop := (512 <= ro_stamp r < 2 ^ 32)%Z /\ (0 < ro_id r < 2 ^ idBits)%Z.
Definition row_before (r s : row) : Prop := (row_position r < row_position s)%Z.

Definition settled (e : OdooEvent) (d : D) (r : row) : Prop := (ro_stamp r <= settled_by (od_now d) e)%Z.

(** What Odoo documents of search_read, for an event's model; and that no transaction lasts
    longer than the event's settle time, so that a change shows before its second settles. A
    domain speaks of the record's own fields. *)
Class PollLaws (e : OdooEvent) : Prop := {
  later_preorder :: PreOrder od_later;
  later_law d d' : od_later d d' -> od_ok d -> od_ok d' /\ (od_now d <= od_now d')%Z /\
    forall r, r ∈ od_rows (oe_Model e) d' -> r ∈ od_rows (oe_Model e) d \/ ~ settled e d r;
  rows_law d : od_ok d -> StronglySorted row_before (od_rows (oe_Model e) d) /\ Forall row_ok (od_rows (oe_Model e) d) /\
    (512 <= settled_by (od_now d) e < 2 ^ 32)%Z;
  after_law r s t : parse_stamp s = Some t -> od_holds r "write_date" ">" (JStr s) = (t <? ro_stamp r)%Z;
  same_law r s t : parse_stamp s = Some t -> od_holds r "write_date" "=" (JStr s) = (t =? ro_stamp r)%Z;
  upto_law r s t : parse_stamp s = Some t -> od_holds r "write_date" "<=" (JStr s) = (ro_stamp r <=? t)%Z;
  id_law r lit n : atoi lit = Some n -> od_holds r "id" ">" (JNum lit) = (n <? ro_id r)%Z;
  render_law r fields : field (od_render ("id" :: "write_date" :: fields) r) "id" = JNum (itoa (ro_id r)) /\
    field (od_render ("id" :: "write_date" :: fields) r) "write_date" = JStr (format_stamp (ro_stamp r));
  search_law es fields lit n d a d' : od_ok d -> atoi lit = Some n -> (0 < n)%Z ->
    od_post (oe_Model e) "search_read" [("domain", JArr (domain_of es)); ("fields", strings fields);
      ("order", JStr "write_date asc, id asc"); ("limit", JNum lit)] d = (a, d') ->
    exists d1, od_later d d1 /\ od_later d1 d' /\ forall status body recs, a = Answer status body -> (status < 300)%Z ->
      decode_with as_records body = Some recs ->
      recs = map (od_render fields) (List.firstn (Z.to_nat n) (List.filter (fun r => forallb (holds r) es) (od_rows (oe_Model e) d1)))
}.

Context (e : OdooEvent) (es : list dexp) `{L : !PollLaws e} (Hdomain : oe_Domain e = domain_of es).

Definition matches (r : row) : bool := forallb (holds r) es.

(** A record after a cursor: changed later, or in the same second with a higher ID. *)
Definition unread (after : Z) (r : row) : bool :=
  let (since, lastID) := cursor after in (since <? ro_stamp r)%Z || ((since =? ro_stamp r)%Z && (lastID <? ro_id r)%Z).

(** What a poll asks for. *)
Definition wanted (after now : Z) (r : row) : bool := matches r && unread after r && (ro_stamp r <=? settled_by now e)%Z.

Lemma row_position_value r : row_ok r -> row_position r = (ro_stamp r * 2 ^ idBits + ro_id r)%Z.
Proof. intros [Hs Hi]. unfold row_position. rewrite odoo_position_value; [done|split; lia|split; [lia|apply Hi]]. Qed.

(** Positions say which records are unread: those of other cursors too, as long as they
    are of a record or from the beginning. *)
Lemma unread_position after r : row_ok r -> (after = 0 \/ 2 ^ 40 <= after <= int_max)%Z -> unread after r = (after <? row_position r)%Z.
Proof.
  intros Hr Ha. unfold unread. rewrite row_position_value by done. destruct Hr as [Hs Hi]. destruct Ha as [->|Ha].
  - change (cursor 0) with (0, 2 ^ 31 - 1)%Z. unfold idBits in *. cbv beta iota. apply Bool.eq_true_iff_eq.
    rewrite orb_true_iff, !Z.ltb_lt. split; [lia|]. intros _. left. lia.
  - destruct (cursor_split after Ha) as (t & id & -> & Ht & Hid & ->). unfold idBits in *. apply Bool.eq_true_iff_eq.
    rewrite orb_true_iff, andb_true_iff, !Z.ltb_lt, Z.eqb_eq. lia.
Qed.

(** The domain a poll sends says what is wanted. *)
Definition cursor_exprs (after now : Z) : list dexp :=
  let (since, lastID) := cursor after in
  let stamp := JStr (format_stamp since) in
  [DOr (DTerm "write_date" ">" stamp) (DAnd (DTerm "write_date" "=" stamp) (DTerm "id" ">" (JNum (itoa lastID))));
   DTerm "write_date" "<=" (JStr (format_stamp (settled_by now e)))].

Lemma poll_domain_of after now : poll_domain e after now = domain_of (es ++ cursor_exprs after now).
Proof using Hdomain.
  unfold poll_domain, cursor_exprs, domain_of. rewrite Hdomain, map_app, List.concat_app. by destruct (cursor after).
Qed.

Lemma cursor_bounds after : (after = 0 \/ 2 ^ 40 <= after <= int_max)%Z ->
  (0 <= fst (cursor after) < 2 ^ 32)%Z /\ (0 <= snd (cursor after) < 2 ^ idBits)%Z.
Proof.
  intros [->|H]; [by cbn|]. destruct (cursor_split after H) as (t & id & -> & ? & ? & _). cbn. lia.
Qed.

Lemma cursor_exprs_hold after now r : (after = 0 \/ 2 ^ 40 <= after <= int_max)%Z -> (0 <= settled_by now e < 2 ^ 32)%Z ->
  forallb (holds r) (es ++ cursor_exprs after now) = wanted after now r.
Proof using L.
  intros Ha Hn. pose proof (cursor_bounds after Ha) as Hc. rewrite forallb_app. unfold wanted, matches, cursor_exprs, unread.
  destruct (cursor after) as [since lastID]. cbn [fst snd] in Hc. destruct Hc as [Hs Hi]. unfold idBits in Hi. cbn [forallb holds].
  rewrite (after_law r _ since), (same_law r _ since), (upto_law r _ (settled_by now e)) by (apply parse_stamp_format; lia).
  rewrite (id_law r _ lastID) by (apply atoi_itoa; unfold int_max; lia). by rewrite andb_true_r, andb_assoc.
Qed.

(** ** One poll *)

(** An event is told of a record. *)
Definition told (name : string) (r : row) (ev : Event) : Prop :=
  sev_ID ev = itoa (ro_id r) /\ sev_Position ev = row_position r /\ sev_Name ev = name /\
  ot_marshal (od_render ("id" :: "write_date" :: oe_Fields e) r) = Ok (sev_Payload ev).

Lemma int64_of_itoa z : (0 < z <= int_max)%Z -> int64_of (itoa z) = z.
Proof using.
  intros Hz. pose proof (atoi_itoa z ltac:(lia)) as H. unfold atoi in H. unfold int64_of. destruct (itoa z) as [|c r] eqn:E; [done|].
  destruct (ascii_dec c "+"); [|destruct (ascii_dec c "-")]; apply in_int64_some in H as [-> H]; unfold clamp; lia.
Qed.

Lemma toEvent_told name r ev : row_ok r -> toEvent name e (od_render ("id" :: "write_date" :: oe_Fields e) r) = Ok ev -> told name r ev.
Proof using L.
  intros Hr H. destruct (render_law r (oe_Fields e)) as [Hid Hdate]. destruct Hr as [Hs Hi]. unfold toEvent in H. cbv zeta in H.
  rewrite Hid, Hdate in H. cbn [string_of sprint] in H. rewrite parse_stamp_format in H by lia.
  apply rbind_ok in H as (payload & Hp & H). cbn [id64] in H. rewrite int64_of_itoa in H by (unfold idBits, int_max in *; lia).
  destruct (_ || _); [done|]. injection H as <-. done.
Qed.

Lemma to_events_told name after rows : Forall row_ok rows -> Forall (fun r => after < row_position r)%Z rows ->
  forall events, to_events name e after (map (od_render ("id" :: "write_date" :: oe_Fields e)) rows) = Ok events -> Forall2 (told name) rows events.
Proof using L.
  induction 1 as [|r rows Hr _ IH]; intros Ha events H; inversion_clear Ha; cbn in H; [by injection H as <-|].
  apply rbind_ok in H as (ev & He & H). apply toEvent_told in He; [|done]. apply rbind_ok in H as (evs & Hevs & [= <-]).
  pose proof He as (_ & Hp & _). rewrite Hp, (proj2 (Z.ltb_lt _ _)) by done. constructor; auto.
Qed.

(** What a call does, and what its success says. *)
Lemma odoo_call_inv {A} (decode : string -> option A) model method args c r c' : call decode model method args c = (r, c') ->
  oc_fields c' = oc_fields c /\
  (c' = c /\ (exists e, r = inl (Failed e)) \/
   exists a, od_post model method args (oc_db c) = (a, oc_db c') /\
     forall v, r = inr v -> exists status body, a = Answer status body /\ (status < 300)%Z /\ decode body = Some v).
Proof using.
  unfold call. destruct (ot_marshal _) as [text|err]; [|intros [= <- <-]; split; [done|]; left; eauto].
  destruct (od_post _ _ _ _) as [a d] eqn:E. intros [= <- <-]. split; [done|]. right. exists a. split; [done|].
  intros v Hv. destruct a as [?|status body]; [done|]. destruct (Z.leb_spec 300 status); [done|].
  destruct (decode body) as [x|] eqn:Ed; [|done]. injection Hv as ->. by exists status, body.
Qed.

Context (cfg : Config) (PageSize : Z) (name : string) (Hname : find_event cfg name = Some e) (Hpage : (0 < PageSize <= int_max)%Z).

Definition page (limit : Z) : Z := if (limit <=? 0)%Z || (PageSize <? limit)%Z then PageSize else limit.

Definition wanted_rows (after now : Z) (d : D) : list row := List.filter (wanted after now) (od_rows (oe_Model e) d).

Lemma filter_in {A} (f : A -> bool) l x : x ∈ List.filter f l <-> x ∈ l /\ f x = true.
Proof using. rewrite !list_elem_of_In. apply List.filter_In. Qed.

Lemma firstn_in {A} k (l : list A) x : x ∈ List.firstn k l -> x ∈ l.
Proof using. intros H. rewrite <- (List.firstn_skipn k l). apply elem_of_app. by left. Qed.

Lemma Poll_inv after limit c r c' : od_ok (oc_db c) -> (after = 0 \/ 2 ^ 40 <= after <= int_max)%Z ->
  Poll_odoo cfg PageSize name after limit c = (r, c') -> exists d1, od_later (oc_db c) d1 /\ od_later d1 (oc_db c') /\
    forall events, r = Ok events ->
      Forall2 (told name) (List.firstn (Z.to_nat (page limit)) (wanted_rows after (od_now (oc_db c)) d1)) events.
Proof using L Hdomain Hname Hpage.
  intros Hok Ha H. pose proof later_preorder as Hpre. unfold Poll_odoo in H. rewrite Hname in H. unfold mbind, O_bind in H.
  fold (page limit) in H. rewrite poll_domain_of in H.
  destruct (call _ _ _ _ c) as [r1 c1] eqn:Ec in H. apply odoo_call_inv in Ec as [_ [(-> & err & ->)|(a & Ep & Hr1)]].
  { injection H as <- <-. exists (oc_db c). by split_and!. }
  assert (Hpg : (0 < page limit <= int_max)%Z) by (unfold page; destruct (_ || _) eqn:E; lia).
  apply (search_law _ _ _ (page limit)) in Ep as (d1 & Hl1 & Hl2 & Hrecs); [|done|apply atoi_itoa; lia|lia].
  assert (Hc' : c' = c1) by (destruct r1; by injection H). subst c'. exists d1. split; [done|]. split; [done|].
  intros events ->. destruct r1 as [f|recs]; [done|]. injection H as H. destruct (Hr1 recs eq_refl) as (status & body & -> & Hst & Hd).
  pose proof (Hrecs _ _ _ eq_refl Hst Hd) as Hrec. rewrite Hrec in H. clear Hrecs Hrec.
  destruct (rows_law _ Hok) as (_ & _ & Hlim). destruct (later_law _ _ Hl1 Hok) as (Hok1 & _). destruct (rows_law _ Hok1) as (_ & Hrows & _).
  rewrite (List.filter_ext _ (wanted after (od_now (oc_db c)))) in H by (intros x; apply cursor_exprs_hold; [done|lia]).
  assert (Hin : forall x, x ∈ List.firstn (Z.to_nat (page limit)) (wanted_rows after (od_now (oc_db c)) d1) -> row_ok x /\ (after < row_position x)%Z).
  { intros x Hx. apply firstn_in, filter_in in Hx as [Hx Hw]. rewrite Forall_forall in Hrows.
    specialize (Hrows _ Hx). split; [done|]. unfold wanted in Hw. rewrite !andb_true_iff, unread_position, Z.ltb_lt in Hw by done. apply Hw. }
  apply to_events_told in H; [done|..]; apply Forall_forall; intros x Hx; by apply Hin.
Qed.

(** ** Runs of polls *)

(** The cursor after the events of a poll. *)
Definition moved (z : Z) (events : list Event) : Z := match events with [] => z | _ => last_position events end.

(** A cursor, the events read with it, and the instance: it starts from nothing, time
    passes (what is known of fields may be forgotten, as when the connector starts again),
    and a poll moves the cursor to its last event, or fails. *)
Inductive reading : Z -> list Event -> Conn D -> Prop :=
| reading_starts c : od_ok (oc_db c) -> reading 0 [] c
| reading_waits z evs c d fields : reading z evs c -> od_later (oc_db c) d -> reading z evs (mkConn d fields)
| reading_polls z evs c limit events c' : reading z evs c -> Poll_odoo cfg PageSize name z limit c = (Ok events, c') ->
    reading (moved z events) (evs ++ events) c'
| reading_fails z evs c limit err c' : reading z evs c -> Poll_odoo cfg PageSize name z limit c = (Err err, c') -> reading z evs c'.

(** A record's last change is among the events. *)
Definition read_in (r : row) (evs : list Event) : Prop :=
  exists ev, ev ∈ evs /\ sev_Position ev = row_position r /\ sev_ID ev = itoa (ro_id r).

(** The second a cursor stands in has settled. *)
Definition cursor_settled (z now : Z) : Prop :=
  (z = 0 \/ 2 ^ 40 <= z <= int_max)%Z /\ (z < (settled_by now e + 1) * 2 ^ idBits)%Z.

Definition all_read (z : Z) (evs : list Event) (d : D) : Prop :=
  forall r, r ∈ od_rows (oe_Model e) d -> matches r = true -> (row_position r <= z)%Z -> read_in r evs.

Record read_upto (z : Z) (evs : list Event) (d : D) : Prop := mkReadUpto {
  ru_ok : od_ok d;
  ru_cursor : cursor_settled z (od_now d);
  ru_sorted : StronglySorted before evs;
  ru_bound : forall ev, ev ∈ evs -> (sev_Position ev <= z)%Z;
  ru_read : all_read z evs d
}.

Lemma settled_by_mono now now' : (now <= now')%Z -> (settled_by now e <= settled_by now' e)%Z.
Proof using. intros H. unfold settled_by. apply Z.div_le_mono; lia. Qed.

Lemma unsettled_later z d r : row_ok r -> cursor_settled z (od_now d) -> ~ settled e d r -> (z < row_position r)%Z.
Proof using.
  intros Hr [_ Hz] Hs. rewrite row_position_value by done. unfold settled in Hs. destruct Hr as [_ Hi].
  assert ((settled_by (od_now d) e + 1) * 2 ^ idBits <= ro_stamp r * 2 ^ idBits)%Z by (apply Z.mul_le_mono_nonneg_r; lia). lia.
Qed.

Lemma row_in_range d r : od_ok d -> r ∈ od_rows (oe_Model e) d -> row_ok r.
Proof using L. intros Hok Hr. destruct (rows_law _ Hok) as (_ & Hrows & _). rewrite Forall_forall in Hrows. by apply Hrows. Qed.

Lemma cursor_settled_later z d d' : od_ok d -> od_later d d' -> cursor_settled z (od_now d) -> cursor_settled z (od_now d').
Proof using L.
  intros Hok Hl [Hz Hb]. destruct (later_law _ _ Hl Hok) as (_ & Hn & _). apply settled_by_mono in Hn. split; [done|].
  assert ((settled_by (od_now d) e + 1) * 2 ^ idBits <= (settled_by (od_now d') e + 1) * 2 ^ idBits)%Z by (apply Z.mul_le_mono_nonneg_r; lia). lia.
Qed.

(** What was read stays read: a change behind the cursor would be one that had not settled. *)
Lemma all_read_later z evs d d' : od_ok d -> od_later d d' -> cursor_settled z (od_now d) -> all_read z evs d -> all_read z evs d'.
Proof using L.
  intros Hok Hl Hz Hr r Hin Hm Hp. destruct (later_law _ _ Hl Hok) as (Hok' & _ & Hnew). destruct (Hnew r Hin) as [?|Hu]; [by apply Hr|].
  apply (unsettled_later z) in Hu; [lia|by eapply row_in_range|done].
Qed.

Lemma read_upto_later z evs d d' : od_later d d' -> read_upto z evs d -> read_upto z evs d'.
Proof using L.
  intros Hl [Hok Hz Hs Hb Hr]. destruct (later_law _ _ Hl Hok) as (Hok' & _). split; try done.
  - exact (cursor_settled_later z d d' Hok Hl Hz).
  - exact (all_read_later z evs d d' Hok Hl Hz Hr).
Qed.

Lemma sorted_append {A} (R : A -> A -> Prop) l1 l2 : StronglySorted R l1 -> StronglySorted R l2 ->
  (forall x y, x ∈ l1 -> y ∈ l2 -> R x y) -> StronglySorted R (l1 ++ l2).
Proof using.
  induction 1 as [|x l1 _ IH Hx]; intros H2 Hc; [done|]. cbn. constructor; [apply IH; [done|]; intros; apply Hc; [by right|done]|].
  apply Forall_app. split; [done|]. apply Forall_forall. intros y Hy. apply Hc; [by left|done].
Qed.

Lemma sorted_map_row rows evs : StronglySorted row_before rows -> Forall2 (told name) rows evs -> StronglySorted before evs.
Proof using.
  intros Hs Ht. induction Ht as [|r ev rows evs Hr Ht IH]; [constructor|]. inversion Hs as [|? ? Hs' Hf]; subst. constructor; [by apply IH|].
  clear IH Hs Hs'. induction Ht as [|r' ev' rows evs Hr' _ IH]; [constructor|]. inversion Hf; subst. constructor; [|by apply IH].
  unfold before. destruct Hr as (_ & -> & _), Hr' as (_ & -> & _). done.
Qed.

Lemma told_read rows evs r : Forall2 (told name) rows evs -> r ∈ rows -> read_in r evs.
Proof using.
  induction 1 as [|r0 ev rows evs Hr Ht IH]; intros Hin; [by apply elem_of_nil in Hin|].
  apply elem_of_cons in Hin as [->|Hin]; [exists ev; split; [by left|]; by destruct Hr as (? & ? & _)|].
  destruct (IH Hin) as (x & Hx & Hrest). exists x. split; [by right|done].
Qed.

Lemma told_rows rows evs ev : Forall2 (told name) rows evs -> ev ∈ evs -> exists r, r ∈ rows /\ told name r ev.
Proof using.
  induction 1 as [|r0 ev0 rows evs Hr Ht IH]; intros Hin; [by apply elem_of_nil in Hin|].
  apply elem_of_cons in Hin as [->|Hin]; [exists r0; split; [by left|done]|].
  destruct (IH Hin) as (x & Hx & Hrest). exists x. split; [by right|done].
Qed.

Lemma read_in_app r evs evs' : read_in r evs \/ read_in r evs' -> read_in r (evs ++ evs').
Proof using. intros [(ev & H & R)|(ev & H & R)]; exists ev; (split; [apply elem_of_app; auto|done]). Qed.

(** The rows a poll is told of: sorted, after the cursor and settled; and any other wanted
    row is after them. *)
Lemma polled_rows z now d k rows : od_ok d -> (z = 0 \/ 2 ^ 40 <= z <= int_max)%Z -> 0 < k -> rows = List.firstn k (wanted_rows z now d) ->
  StronglySorted row_before rows /\
  (forall r, r ∈ rows -> row_ok r /\ (z < row_position r)%Z /\ (ro_stamp r <= settled_by now e)%Z) /\
  (forall r, r ∈ wanted_rows z now d -> r ∈ rows \/ List.length rows = k /\ forall s, s ∈ rows -> row_before s r).
Proof using L.
  intros Hok Hz Hk ->. destruct (rows_law _ Hok) as (Hs & Hrows & _). apply (sorted_filter _ (wanted z now)) in Hs. fold (wanted_rows z now d) in Hs.
  pose proof (List.firstn_skipn k (wanted_rows z now d)) as Hsplit. split; [|split].
  - rewrite <- Hsplit in Hs. by apply sorted_prefix in Hs.
  - intros r Hr. apply firstn_in, filter_in in Hr as [Hr Hw]. rewrite Forall_forall in Hrows. specialize (Hrows _ Hr). split; [done|].
    unfold wanted in Hw. rewrite !andb_true_iff, unread_position, Z.ltb_lt, Z.leb_le in Hw by done. split; apply Hw.
  - intros r Hr. rewrite <- Hsplit in Hr. apply elem_of_app in Hr as [Hr|Hr]; [by left|right]. split.
    + apply firstn_length_le. destruct (Nat.le_gt_cases k (List.length (wanted_rows z now d))) as [H|H]; [done|].
      rewrite List.skipn_all2 in Hr by lia. by apply elem_of_nil in Hr.
    + intros s Hin. rewrite <- Hsplit in Hs. apply list_elem_of_In, List.in_split in Hin as (l1 & l2 & E). rewrite E in Hs.
      rewrite <- app_assoc in Hs. clear E Hsplit. induction l1 as [|x l1 IH]; inversion Hs as [|? ? Hs' Hf]; subst; [|by apply IH].
      rewrite Forall_forall in Hf. apply Hf. rewrite elem_of_app. by right.
Qed.

Lemma last_event rows evs : Forall2 (told name) rows evs -> evs <> [] -> exists r, r ∈ rows /\ row_position r = last_position evs.
Proof using.
  intros Ht Hne. destruct (last_position_in evs Hne) as (ev & Hin & <-). destruct (told_rows _ _ _ Ht Hin) as (r & Hr & (_ & Hp & _)).
  by exists r.
Qed.

Lemma wanted_in z now d r : od_ok d -> (z = 0 \/ 2 ^ 40 <= z <= int_max)%Z -> r ∈ od_rows (oe_Model e) d -> matches r = true ->
  (z < row_position r)%Z -> (ro_stamp r <= settled_by now e)%Z -> r ∈ wanted_rows z now d.
Proof using L.
  intros Hok Hz Hr Hm Hp Hs. pose proof (row_in_range _ _ Hok Hr). apply filter_in. split; [done|].
  unfold wanted. rewrite Hm, unread_position, (proj2 (Z.ltb_lt _ _)) by done. by apply Z.leb_le.
Qed.

(** What a poll is told at an instant is behind the cursor it leaves. *)
Lemma read_upto_rows z evs d now k events : read_upto z evs d -> (now <= od_now d)%Z -> 0 < k ->
  Forall2 (told name) (List.firstn k (wanted_rows z now d)) events -> read_upto (moved z events) (evs ++ events) d.
Proof using L.
  intros [Hok Hc Hs Hb Hr] Hnow Hk Ht. set (rows := List.firstn k (wanted_rows z now d)) in *.
  destruct (polled_rows z now d k rows Hok (proj1 Hc) Hk eq_refl) as (Hsr & Hin & Hrest).
  assert (Hpos : forall ev, ev ∈ events -> (z < sev_Position ev)%Z).
  { intros ev Hev. destruct (told_rows _ _ _ Ht Hev) as (r & Hr' & (_ & -> & _)). apply (Hin r Hr'). }
  assert (Hlast : events = [] \/ exists r, r ∈ rows /\ row_position r = moved z events).
  { destruct events as [|ev events]; [by left|right]. by apply last_event. }
  pose proof (sorted_map_row _ _ Hsr Ht) as Hse. split; [done|..].
  - destruct Hlast as [->|(r & Hr' & <-)]; [done|]. destruct (Hin r Hr') as ([Hst Hid] & Hzr & Hset). apply settled_by_mono in Hnow.
    unfold cursor_settled. rewrite row_position_value by done. unfold idBits, int_max in *. split; [right; lia|].
    assert ((ro_stamp r + 1) * 2 ^ 31 <= (settled_by (od_now d) e + 1) * 2 ^ 31)%Z by (apply Z.mul_le_mono_nonneg_r; lia). lia.
  - apply sorted_append; [done|done|]. intros x y Hx Hy. unfold before. apply Hb in Hx. apply Hpos in Hy. lia.
  - intros ev Hev. apply elem_of_app in Hev as [Hev|Hev].
    + apply Hb in Hev. destruct Hlast as [->|(r & Hr' & <-)]; [done|]. apply Hin in Hr'. lia.
    + destruct events; [by apply elem_of_nil in Hev|]. by apply last_position_max.
  - intros r Hr' Hm Hp. apply read_in_app. destruct (Z.le_gt_cases (row_position r) z) as [Hle|Hgt]; [left; by apply Hr|right].
    destruct Hlast as [->|(rl & Hrl & Hl)]; [cbn in Hp; lia|]. rewrite <- Hl in Hp.
    pose proof (row_in_range _ _ Hok Hr') as Hrok. destruct (Hin rl Hrl) as (Hlok & _ & Hset).
    assert (Hst : (ro_stamp r <= settled_by now e)%Z).
    { rewrite !row_position_value in Hp by done. destruct Hrok, Hlok. unfold idBits in *. lia. }
    destruct (Hrest r (wanted_in _ _ _ _ Hok (proj1 Hc) Hr' Hm Hgt Hst)) as [Hd|[_ Hall]]; [by apply (told_read rows)|].
    specialize (Hall _ Hrl). unfold row_before in Hall. lia.
Qed.

Lemma read_upto_poll z evs c limit events c' : read_upto z evs (oc_db c) -> Poll_odoo cfg PageSize name z limit c = (Ok events, c') ->
  read_upto (moved z events) (evs ++ events) (oc_db c') /\
  exists d, od_later (oc_db c) d /\ od_later d (oc_db c') /\
    (forall ev, ev ∈ events -> exists r, r ∈ od_rows (oe_Model e) d /\ matches r = true /\ told name r ev) /\
    ((Z.of_nat (List.length events) < page limit)%Z -> forall r, r ∈ od_rows (oe_Model e) d -> matches r = true ->
      settled e (oc_db c) r -> read_in r (evs ++ events)).
Proof using L Hdomain Hname Hpage.
  intros Hu H. pose proof (ru_ok _ _ _ Hu) as Hok. pose proof (ru_cursor _ _ _ Hu) as Hcs.
  apply Poll_inv in H as (d & Hl1 & Hl2 & Ht); [|done|apply Hcs]. specialize (Ht _ eq_refl).
  pose proof (read_upto_later _ _ _ _ Hl1 Hu) as Hu1. destruct (later_law _ _ Hl1 Hok) as (Hok1 & Hnow & _).
  assert (Hk : (0 < page limit)%Z) by (unfold page; destruct (_ || _) eqn:E; lia).
  split; [eapply read_upto_later; [exact Hl2|]; by eapply (read_upto_rows _ _ _ _ (Z.to_nat (page limit))); [done|done|lia|]|].
  exists d. split; [done|]. split; [done|]. split.
  { intros ev Hev. destruct (told_rows _ _ _ Ht Hev) as (r & Hr & Htold). exists r. apply firstn_in, filter_in in Hr as [Hr Hw].
    split; [done|]. split; [|done]. unfold wanted in Hw. rewrite !andb_true_iff in Hw. apply Hw. }
  intros Hshort r Hr Hm Hset. apply read_in_app.
  destruct (Z.le_gt_cases (row_position r) z) as [Hle|Hgt]; [left; by apply (ru_read _ _ _ Hu1)|right].
  assert (Hk' : 0 < Z.to_nat (page limit)) by lia.
  destruct (polled_rows z (od_now (oc_db c)) d _ _ Hok1 (proj1 Hcs) Hk' eq_refl) as (_ & _ & Hrest).
  destruct (Hrest r (wanted_in _ _ _ _ Hok1 (proj1 Hcs) Hr Hm Hgt Hset)) as [Hd|[Hfull _]]; [by eapply told_read|].
  apply Forall2_length in Ht. lia.
Qed.

Lemma reading_upto z evs c : reading z evs c -> read_upto z evs (oc_db c).
Proof using L Hdomain Hname Hpage.
  induction 1 as [c Hok|z evs c d fields _ IH Hl|z evs c limit events c' _ IH H|z evs c limit err c' _ IH H].
  - destruct (rows_law _ Hok) as (_ & _ & Hset). split; [done|split; [by left|unfold idBits; lia]|constructor|by intros ev Hev; apply elem_of_nil in Hev|].
    intros r Hr _ Hp. pose proof (row_in_range _ _ Hok Hr) as Hrok. rewrite row_position_value in Hp by done. destruct Hrok. unfold idBits in *. lia.
  - by eapply read_upto_later.
  - by eapply read_upto_poll.
  - pose proof later_preorder. apply Poll_inv in H as (d & Hl1 & Hl2 & _); [|apply IH|apply IH]. eapply read_upto_later; [|exact IH]. by etrans.
Qed.

(** C11: Whatever run of polls, failures and waits, with whatever limits: each record's
    last change, once a cursor has passed it, is among the events read; events come in the
    order of positions, none twice; each is told of a record of the event's domain as it
    was; and when a poll gives fewer than it may, all that had settled when it began has
    been read. So a record changed in the same second as others, or by a transaction that
    began earlier, is not skipped, as long as transactions are shorter than the settle
    time. *)
Theorem odoo_polls_lose_nothing (z : Z) (evs : list Event) (c : Conn D) (Hrun : reading z evs c) :
  StronglySorted before evs /\ all_read z evs (oc_db c) /\
  forall limit events c', Poll_odoo cfg PageSize name z limit c = (Ok events, c') ->
    exists d, od_later (oc_db c) d /\ od_later d (oc_db c') /\
      (forall ev, ev ∈ events -> exists r, r ∈ od_rows (oe_Model e) d /\ matches r = true /\ told name r ev) /\
      ((Z.of_nat (List.length events) < page limit)%Z -> forall r, r ∈ od_rows (oe_Model e) d -> matches r = true ->
        settled e (oc_db c) r -> read_in r (evs ++ events)).
Proof using L Hdomain Hname Hpage.
  apply reading_upto in Hrun. split; [apply Hrun|]. split; [apply Hrun|]. intros limit events c' H. by eapply read_upto_poll.
Qed.
End laws.
