(* ===== verification/OdooWrites.v ===== *)
(** Writing to Odoo: a create that is attempted again, whatever became of the earlier
    attempts, leaves one record; and what the values sent are. *)

From S2P Require Import Turgon Prelude GoStr GoErr GoTime GoDate Regex GuardData Guard Engine Identity Dispatcher DispatcherTheorems PgTheorems Odoo OdooProps OdooPoll.
From Stdlib Require Import Ascii String.

(** ** Running calls in sequence *)

Section runs.
Context {D : Type} `{OS : OdooServer D} `{OT : OdooText}.

Lemma O_bind_inv {A B} (m : O_ A) (k : A -> O_ B) (c : Conn D) r c' : (m ≫= k) c = (r, c') ->
  exists a c1, m c = (a, c1) /\ k a c1 = (r, c').
Proof. unfold mbind, O_bind. destruct (m c) as [a c1]. eauto. Qed.

Lemma res_then_inv {A B} (x : result A) (k : A -> O_ (result B)) (c : Conn D) r c' : res_then x k c = (r, c') ->
  (exists e, r = Err e /\ c' = c) \/ exists a, x = Ok a /\ k a c = (r, c').
Proof. destruct x as [a|e]; cbn; [eauto|]. intros [= <- <-]. eauto. Qed.

Lemma ok_then_inv {A B} (x : failure + A) (k : A -> O_ (result B)) (c : Conn D) r c' : ok_then x k c = (r, c') ->
  (exists e, r = Err e /\ c' = c) \/ exists a, x = inr a /\ k a c = (r, c').
Proof. destruct x as [f|a]; cbn; [|eauto]. intros [= <- <-]. eauto. Qed.

(** ** The values of a record *)

(** A line of a record is created with values of the types its model declares. *)
Definition line_created (fields : gmap string FieldInfo) (l : Lines) (line cmd : json) : Prop :=
  exists lv, cmd = JArr [JNum "0"; JNum "0"; object lv] /\
    forall f v, lv !! f = Some v -> mapped fields line (ln_Fields l) f v.

Lemma values_typed model fields doc mapping constants vals : values ot_float model fields doc mapping constants = Ok vals ->
  (forall f v, vals !! f = Some v -> (f, v) ∈ constants \/ mapped fields doc mapping f v) /\
  (forall f p, (f, p) ∈ mapping -> is_Some (fields !! f) /\ (lookup doc p <> JNull -> is_Some (vals !! f))).
Proof.
  intros H. apply add_values_typed in H as (H1 & H2 & H3 & _). split.
  - intros f v Hf. apply H1 in Hf as [Hf|?]; [left|by right]. apply elem_of_list_to_map_2 in Hf. by apply list_elem_of_In, List.in_rev, list_elem_of_In in Hf.
  - intros f p Hf. split; [|by eauto]. specialize (H2 _ _ Hf). destruct (fields !! f); [eauto|done].
Qed.

Lemma line_commands_typed relation fields l lines : forall i cmds, line_commands ot_float relation fields l i lines = Ok cmds ->
  Forall2 (line_created fields l) lines cmds.
Proof.
  induction lines as [|line lines IH]; intros i cmds H; [injection H as <-; constructor|]. destruct line as [| | | | | |obj]; try done.
  cbn in H. destruct (values _ _ _ _ _ _) as [lv|e] eqn:E; [|done]. apply rbind_ok in H as (rest & Hrest & [= <-]).
  constructor; [|by eapply IH]. exists lv. split; [done|]. apply values_typed in E as [E _]. intros f v Hf.
  apply E in Hf as [Hf|?]; [by apply elem_of_nil in Hf|done].
Qed.

(** Fields are kept once they are known. *)
Lemma fieldsOf_keeps model (c : Conn D) r c' : fieldsOf model c = (r, c') ->
  (forall m f, oc_fields c !! m = Some f -> oc_fields c' !! m = Some f) /\ forall f, r = Ok f -> oc_fields c' !! model = Some f.
Proof.
  unfold fieldsOf. destruct (oc_fields c !! model) as [f0|] eqn:E0; [by intros [= <- <-]; split; [|intros f [= <-]]|].
  intros H. apply O_bind_inv in H as (r1 & c1 & Hc & H). apply odoo_call_inv in Hc as [Ef _].
  apply ok_then_inv in H as [(e & -> & ->)|(f1 & -> & H)]; [by rewrite Ef|]. injection H as <- <-. cbn. rewrite Ef. split.
  - intros m f Hm. rewrite lookup_insert_ne by congruence. done.
  - intros f [= <-]. by rewrite lookup_insert_eq.
Qed.

(** C39: The record a create sends has, under each field, a constant of the operation, a
    value of the payload in the type that the model's field declares (an int64 for a
    many2one or an integer, a float, a boolean, a text no longer than the field unless it
    was given as a number), or the lines, each created with values of the types of its own
    model. Every mapped field exists, and one that the payload has is sent. *)
Theorem record_well_typed (op : Operation) (payload : string) (c : Conn D) (vals : gmap string json) (c' : Conn D)
    (Hrun : record op payload c = (Ok vals, c')) :
  exists doc fields, decode_payload payload = Ok doc /\ oc_fields c' !! op_Model op = Some fields /\
    (forall f v, vals !! f = Some v -> (f, v) ∈ op_Constants op \/ mapped fields doc (op_Fields op) f v \/
       exists l info lf lines cmds, op_Lines op = Some l /\ f = ln_Field l /\ fields !! f = Some info /\ fi_Type info = "one2many" /\
         oc_fields c' !! fi_Relation info = Some lf /\ lookup doc (ln_From l) = JArr lines /\ lines <> [] /\ v = JArr cmds /\
         Forall2 (line_created lf l) lines cmds) /\
    (forall f p, (f, p) ∈ op_Fields op -> is_Some (fields !! f) /\ (lookup doc p <> JNull -> is_Some (vals !! f))).
Proof.
  unfold record in Hrun. apply res_then_inv in Hrun as [(? & ? & _)|(doc & Hdoc & H)]; [done|].
  apply O_bind_inv in H as (rf & c1 & Hf & H). apply res_then_inv in H as [(? & ? & _)|(fields & -> & H)]; [done|].
  apply fieldsOf_keeps in Hf as [_ Hf]. specialize (Hf _ eq_refl).
  apply res_then_inv in H as [(? & ? & _)|(vals0 & Hv & H)]; [done|]. apply values_typed in Hv as [Hv1 Hv2]. exists doc, fields. split; [done|].
  destruct (op_Lines op) as [l|] eqn:El.
  2: { injection H as <- <-. split; [done|]. split; [|done]. intros f v Hin. apply Hv1 in Hin. tauto. }
  apply O_bind_inv in H as (rl & c2 & Hl & H). apply res_then_inv in H as [(? & ? & _)|(cmds & -> & H)]; [done|]. injection H as <- <-.
  unfold record_lines in Hl. destruct (fields !! ln_Field l) as [info|] eqn:Ei; [|done].
  destruct (String.eqb_spec (fi_Type info) "one2many") as [Et|]; [|done]. destruct (String.eqb (fi_Relation info) ""); [done|]. cbn [negb orb] in Hl.
  apply O_bind_inv in Hl as (rlf & c3 & Hlf & Hl). apply fieldsOf_keeps in Hlf as [Hkeep Hlf].
  apply res_then_inv in Hl as [(? & ? & _)|(lf & -> & Hl)]; [done|]. specialize (Hlf _ eq_refl).
  destruct (lookup doc (ln_From l)) as [| | | | |lines|] eqn:Elines; try done. destruct lines as [|line lines]; [done|].
  unfold mret, O_ret in Hl. pose proof (f_equal snd Hl) as Ec. apply (f_equal fst) in Hl. cbn [fst snd] in Hl, Ec. subst c3.
  apply line_commands_typed in Hl. split; [by apply Hkeep|]. split.
  - intros f v Hin. destruct (decide (ln_Field l = f)) as [<-|Hne].
    + rewrite lookup_insert_eq in Hin. injection Hin as <-. right. right. by exists l, info, lf, (line :: lines), cmds.
    + rewrite lookup_insert_ne in Hin by done. apply Hv1 in Hin. tauto.
  - intros f p Hin. destruct (Hv2 f p Hin) as [Hs Hp]. split; [done|]. intros Hn. destruct (decide (ln_Field l = f)) as [<-|Hne].
    + rewrite lookup_insert_eq. eauto.
    + rewrite lookup_insert_ne by done. auto.
Qed.
End runs.

(** ** Creating once *)

(** What an instance stores of a model, and what others do to it meanwhile. *)
Class OdooStore (D : Type) := {
  os_schema : string -> gmap string FieldInfo;
  os_others : D -> D -> Prop
}.

Section once.
Context {D : Type} `{OS : OdooServer D} `{OT : OdooText} `{V : OdooView D} `{S : OdooStore D}.
Context (op : Operation) (key : string).

(** The records that carry the key in the reference field. *)
Definition carries (r : row) : bool :=
  match ro_values r !! op_Reference op with Some (JStr s) => String.eqb s key | _ => false end.
Definition carrying (d : D) : list Z := map ro_id (List.filter carries (od_rows (op_Model op) d)).

(** The methods that change nothing. *)
Definition asks (method : string) : bool := one_of method ["search_read"; "read"; "fields_get"].

(** What Odoo documents of its methods. Others may change or delete what carries the key but
    create no such record: the guard lets one attempt at a key run at a time. A text no
    longer than its field is stored whole. *)
Class WriteLaws : Prop := {
  others_preorder :: PreOrder os_others;
  others_law d d' : os_others d d' -> od_ok d -> od_ok d' /\ (carrying d' = carrying d \/ carrying d' = []);
  asks_law model method args d a d' : asks method = true -> od_post model method args d = (a, d') -> od_ok d -> os_others d d';
  fields_law model args d status body d' f : od_post model "fields_get" args d = (Answer status body, d') -> (status < 300)%Z ->
    ot_fields body = Some f -> f = os_schema model;
  lookup_law fields d a d' : od_ok d ->
    od_post (op_Model op) "search_read" [("domain", equals (op_Reference op) (JStr key)); ("fields", strings ("id" :: fields)); ("limit", JNum "2")] d = (a, d') ->
    exists d1, os_others d d1 /\ os_others d1 d' /\ forall status body recs, a = Answer status body -> (status < 300)%Z ->
      decode_with as_records body = Some recs ->
      Forall2 (fun id rec => rec <> JNull /\ id64 (field rec "id") = id) (List.firstn 2 (carrying d1)) recs;
  create_law vals d a d' : od_ok d -> vals !! op_Reference op = Some (JStr key) -> key_fits op key (os_schema (op_Model op)) = None ->
    od_post (op_Model op) "create" [("vals_list", JArr [object vals])] d = (a, d') ->
    exists d1 d2, os_others d d1 /\ os_others d2 d' /\ od_ok d2 /\
      (carrying d2 = carrying d1 \/ exists id, carrying d2 = carrying d1 ++ [id]) /\
      forall status body ids, a = Answer status body -> (status < 300)%Z -> decode_with as_list body = Some ids ->
        exists v, ids = [v] /\ carrying d2 = carrying d1 ++ [id64 v]
}.

Context `{L : !WriteLaws}.

(** The fields a connector knows are the model's. *)
Definition conn_ok (c : Conn D) : Prop := od_ok (oc_db c) /\ forall m f, oc_fields c !! m = Some f -> f = os_schema m.

(** An operation that only asks. *)
Definition quiet {A} (m : O_ A) : Prop :=
  forall (c : Conn D) r c', m c = (r, c') -> conn_ok c -> conn_ok c' /\ os_others (oc_db c) (oc_db c').

Lemma quiet_ret {A} (a : A) : quiet (mret a).
Proof using L. by intros c r c' [= <- <-] Hok. Qed.

Lemma quiet_bind {A B} (m : O_ A) (k : A -> O_ B) : quiet m -> (forall a, quiet (k a)) -> quiet (m ≫= k).
Proof using L.
  intros Hm Hk c r c' H Hok. apply O_bind_inv in H as (a & c1 & H1 & H2). destruct (Hm _ _ _ H1 Hok) as [Hok1 Ho1].
  destruct (Hk _ _ _ _ H2 Hok1) as [Hok2 Ho2]. split; [done|]. etrans; [exact Ho1|exact Ho2].
Qed.

Lemma quiet_res_then {A B} (x : result A) (k : A -> O_ (result B)) : (forall a, quiet (k a)) -> quiet (res_then x k).
Proof using L. intros Hk. destruct x; [apply Hk|apply quiet_ret]. Qed.

Lemma quiet_call {A} (decode : string -> option A) model method args : asks method = true -> quiet (call decode model method args).
Proof using L.
  intros Ha c r c' H Hok. apply odoo_call_inv in H as [Ef [(-> & _)|(a & Hp & _)]]; [done|].
  apply asks_law in Hp; [|done|apply Hok]. split; [|done]. split; [|rewrite Ef; apply Hok]. by destruct (others_law _ _ Hp (proj1 Hok)).
Qed.

Lemma quiet_fieldsOf model : quiet (fieldsOf model).
Proof using L.
  intros c r c' H Hok. unfold fieldsOf in H. destruct (oc_fields c !! model); [by injection H as <- <-|].
  apply O_bind_inv in H as (r1 & c1 & H1 & H). destruct (quiet_call _ _ "fields_get" _ eq_refl _ _ _ H1 Hok) as [Hok1 Ho].
  apply ok_then_inv in H as [(e & -> & ->)|(f & -> & H)]; [done|]. injection H as <- <-. split; [|done]. split; [apply Hok1|].
  intros m f' Hm. cbn in Hm. destruct (decide (model = m)) as [<-|Hne].
  - rewrite lookup_insert_eq in Hm. injection Hm as <-. apply odoo_call_inv in H1 as [_ [(_ & ? & ?)|(a & Hp & Hr)]]; [done|].
    destruct (Hr _ eq_refl) as (status & body & -> & Hs & Hd). by eapply fields_law.
  - rewrite lookup_insert_ne in Hm by done. by apply Hok1.
Qed.

Lemma fieldsOf_schema model c f c' : fieldsOf model c = (Ok f, c') -> conn_ok c -> f = os_schema model.
Proof using L.
  intros H Hok. pose proof (quiet_fieldsOf _ _ _ _ H Hok) as [Hok' _]. apply fieldsOf_keeps in H as [_ H]. by apply Hok', H.
Qed.

Lemma quiet_record payload : quiet (record op payload).
Proof using L.
  apply quiet_res_then. intros doc. apply quiet_bind; [apply quiet_fieldsOf|]. intros rf. apply quiet_res_then. intros fields.
  apply quiet_res_then. intros vals. destruct (op_Lines op) as [l|]; [|apply quiet_ret].
  apply quiet_bind; [|intros rc; apply quiet_res_then; intros cmds; apply quiet_ret]. unfold record_lines.
  destruct (fields !! ln_Field l); [|apply quiet_ret]. destruct (_ || _); [apply quiet_ret|].
  apply quiet_bind; [apply quiet_fieldsOf|]. intros rl. apply quiet_res_then. intros lf. apply quiet_ret.
Qed.

(** The record with the key, if others leave it be. *)
Definition nobody_deletes : Prop := forall d d', os_others d d' -> carrying d' = carrying d.

(** What a successful attempt returns: a result that names the record. *)
Definition names (id : Z) (text : string) : Prop :=
  exists res, ot_result res = Ok text /\ cr_Model res = op_Model op /\ cr_ID res = id /\ cr_Reference res = key.

(** A call that adds at most one record, when there is none. *)
Definition settles (c : Conn D) (r : result string) (c' : Conn D) : Prop :=
  conn_ok c' /\ List.length (carrying (oc_db c')) <= 1 /\
  (nobody_deletes -> (forall id, carrying (oc_db c) = [id] -> carrying (oc_db c') = [id]) /\
    forall text, r = Ok text -> exists id, carrying (oc_db c') = [id] /\ names id text).

Lemma others_length d d' : os_others d d' -> od_ok d -> List.length (carrying d') <= List.length (carrying d).
Proof using L. intros Ho Hok. destruct (others_law _ _ Ho Hok) as [_ [->| ->]]; cbn; lia. Qed.

Lemma others_none d d' : os_others d d' -> od_ok d -> carrying d = [] -> carrying d' = [].
Proof using L. intros Ho Hok E. destruct (others_law _ _ Ho Hok) as [_ [->| ->]]; done. Qed.

Lemma insert_settles vals c r c' : conn_ok c -> carrying (oc_db c) = [] -> vals !! op_Reference op = Some (JStr key) ->
  key_fits op key (os_schema (op_Model op)) = None -> insert_record op vals key c = (r, c') -> settles c r c'.
Proof using L.
  intros Hok Hnone Hvals Hfits H. unfold insert_record in H. apply O_bind_inv in H as (r1 & c1 & Hc & H).
  apply odoo_call_inv in Hc as [Ef [(-> & e & ->)|(a & Hp & Hr1)]].
  { injection H as <- <-. split; [done|]. rewrite Hnone. split; [cbn; lia|]. intros _. by split. }
  apply create_law in Hp as (d1 & d2 & Ho1 & Ho2 & Hok2 & Hadd & Hans); [|apply Hok|done..].
  pose proof (others_none _ _ Ho1 (proj1 Hok) Hnone) as E1. rewrite E1 in Hadd, Hans. cbn [app] in Hadd, Hans.
  assert (Hc1 : conn_ok c1) by (split; [apply (others_law _ _ Ho2 Hok2)|rewrite Ef; apply Hok]).
  assert (Hl2 : List.length (carrying d2) <= 1) by (destruct Hadd as [->|[id ->]]; cbn; lia).
  assert (Hl1 : List.length (carrying (oc_db c1)) <= 1) by (pose proof (others_length _ _ Ho2 Hok2); lia).
  apply ok_then_inv in H as [(e & -> & ->)|(ids & -> & H)].
  { split; [done|]. split; [done|]. intros _. split; [by rewrite Hnone|done]. }
  destruct (Hr1 _ eq_refl) as (status & body & -> & Hs & Hd). destruct (Hans _ _ _ eq_refl Hs Hd) as (v & -> & Ev).
  destruct (id64 v =? 0)%Z.
  { injection H as <- <-. split; [done|]. split; [done|]. intros _. split; [by rewrite Hnone|done]. }
  apply O_bind_inv in H as (r2 & c2 & Hc & H). destruct (quiet_call _ _ "read" _ eq_refl _ _ _ Hc Hc1) as [Hc2 Ho3]. injection H as Hres <-.
  split; [done|]. split; [pose proof (others_length _ _ Ho3 (proj1 Hc1)); lia|]. intros Hnd. split; [by rewrite Hnone|].
  intros text ->. exists (id64 v). split; [by rewrite (Hnd _ _ Ho3), (Hnd _ _ Ho2)|].
  destruct r2 as [f|[|rec [|rec' recs]]]; eexists; (split; [exact Hres|done]).
Qed.

Lemma existing_inv c r c' : existing op key c = (r, c') -> conn_ok c -> conn_ok c' /\ os_others (oc_db c) (oc_db c') /\
  exists d1, os_others (oc_db c) d1 /\ os_others d1 (oc_db c') /\
    (r = Ok None -> carrying d1 = []) /\ forall rec, r = Ok (Some rec) -> carrying d1 = [id64 (field rec "id")].
Proof using L.
  intros H Hok. unfold existing in H. apply O_bind_inv in H as (r1 & c1 & Hc & H). destruct (quiet_call _ _ "search_read" _ eq_refl _ _ _ Hc Hok) as [Hok1 Ho].
  assert (Ec : c' = c1) by (destruct r1 as [?|[|? [|? ?]]]; cbn in H; by injection H). subst c'.
  split; [done|]. split; [done|]. apply odoo_call_inv in Hc as [_ [(-> & e & ->)|(a & Hp & Hr1)]].
  { exists (oc_db c). injection H as <-. done. }
  apply lookup_law in Hp as (d1 & Ho1 & Ho2 & Hrecs); [|apply Hok]. exists d1. split; [done|]. split; [done|].
  destruct r1 as [f|recs]; [by injection H as <-|]. destruct (Hr1 _ eq_refl) as (status & body & -> & Hs & Hd).
  specialize (Hrecs _ _ _ eq_refl Hs Hd). injection H as <-. destruct (carrying d1) as [|id [|id2 ids]]; cbn in Hrecs.
  - inversion Hrecs; subst. done.
  - inversion Hrecs as [|? rec ? ? [Hn Hid] Hrest]; subst. inversion Hrest; subst. destruct rec; try done; by split; [|intros ? [= <-]].
  - inversion Hrecs as [|? ? ? ? _ Hrest]; subst. inversion Hrest as [|? ? ? ? _ Hrest2]; subst. inversion Hrest2; subst.
    by destruct y.
Qed.

Lemma create_settles payload c r c' : op_Reference op <> "" -> conn_ok c -> List.length (carrying (oc_db c)) <= 1 ->
  create op key payload c = (r, c') -> settles c r c'.
Proof using L.
  intros Href Hok Hlen H.
  assert (Hquiet : forall c1, conn_ok c1 -> os_others (oc_db c) (oc_db c1) -> forall e, settles c (Err e) c1).
  { intros c1 Hc1 Ho e. split; [done|]. split; [pose proof (others_length _ _ Ho (proj1 Hok)); lia|]. intros Hnd.
    split; [intros id <-; by apply Hnd|done]. }
  unfold create in H. apply O_bind_inv in H as (rv & c1 & Hrec & H). destruct (quiet_record _ _ _ _ Hrec Hok) as [Hok1 Ho1].
  apply res_then_inv in H as [(e & -> & ->)|(vals & -> & H)]; [by apply Hquiet|].
  destruct (String.eqb_spec (op_Reference op) ""); [done|]. destruct (String.eqb key ""); [injection H as <- <-; by apply Hquiet|].
  apply O_bind_inv in H as (rf & c2 & Hf & H). destruct (quiet_fieldsOf _ _ _ _ Hf Hok1) as [Hok2 Ho2].
  assert (Ho02 : os_others (oc_db c) (oc_db c2)) by (by etrans).
  apply res_then_inv in H as [(e & -> & ->)|(fields & -> & H)]; [by apply Hquiet|].
  rewrite (fieldsOf_schema _ _ _ _ Hf Hok1) in H. destruct (key_fits _ _ _) as [e|] eqn:Efit; [injection H as <- <-; by apply Hquiet|].
  apply O_bind_inv in H as (re & c3 & He & H). apply existing_inv in He as (Hok3 & Ho3 & d1 & Hd1 & Hd2 & Hnone & Hsome); [|done].
  assert (Ho03 : os_others (oc_db c) (oc_db c3)) by (by etrans).
  apply res_then_inv in H as [(e & -> & ->)|([rec|] & -> & H)]; [by apply Hquiet|..].
  - injection H as <- <-. split; [done|]. split; [pose proof (others_length _ _ Ho03 (proj1 Hok)); lia|]. intros Hnd.
    split; [intros id <-; by apply Hnd|]. intros text Ht. exists (id64 (field rec "id")). split; [by rewrite (Hnd _ _ Hd2), (Hsome _ eq_refl)|].
    eexists. by split; [exact Ht|].
  - destruct (others_law _ _ Hd1 (proj1 Hok2)) as [Hokd _]. pose proof (others_none _ _ Hd2 Hokd (Hnone eq_refl)) as E3.
    apply insert_settles in H as (Hok4 & Hl4 & Hnd4); [|done|done|by rewrite lookup_insert_eq|done].
    split; [done|]. split; [done|]. intros Hnd. split; [|by apply Hnd4].
    intros id Eid. rewrite (Hnd _ _ Ho03), Eid in E3. done.
Qed.

(** Attempts at one write, one after the other: each may fail at any call, with or without
    its record created; between them time passes and the connector may start anew. The
    texts are those that attempts returned. *)
Inductive attempts : list string -> Conn D -> Prop :=
| attempts_start c : conn_ok c -> List.length (carrying (oc_db c)) <= 1 -> attempts [] c
| attempts_wait texts c d fields : attempts texts c -> os_others (oc_db c) d -> (forall m f, fields !! m = Some f -> f = os_schema m) ->
    attempts texts (mkConn d fields)
| attempts_fail texts c payload e c' : attempts texts c -> create op key payload c = (Err e, c') -> attempts texts c'
| attempts_succeed texts c payload text c' : attempts texts c -> create op key payload c = (Ok text, c') -> attempts (text :: texts) c'.

End once.
