(* ===== verification/OdooMemory.v ===== *)
(** An Odoo in memory: an instance with one model that keeps the laws the connector relies
    on, and loses answers; and what the connector does with it. *)

From S2P Require Import Turgon Prelude GoStr GoErr GoTime GoDate Regex GuardData Guard Engine Identity Dispatcher DispatcherTheorems PgTheorems Odoo OdooProps OdooPoll OdooWrites.
From Stdlib Require Import Ascii String.

(** ** Bodies *)

(** An answer is a list of scalars and of records of scalars, written in binary. *)
Definition item : Type := (nat * string) + list (string * (nat * string)).

Definition scalar_item (v : json) : nat * string :=
  match v with JBool true => (1, "") | JBool false => (2, "") | JNum s => (3, s) | JStr s => (4, s) | _ => (0, "") end.
Definition item_scalar (i : nat * string) : json :=
  match i with (1, _) => JBool true | (2, _) => JBool false | (3, s) => JNum s | (4, s) => JStr s | _ => JNull end.
Definition to_item (v : json) : item :=
  match v with JObj fields => inr (map (fun f => (fst f, scalar_item (snd f))) fields) | _ => inl (scalar_item v) end.
Definition of_item (i : item) : json :=
  match i with inl s => item_scalar s | inr fields => JObj (map (fun f => (fst f, item_scalar (snd f))) fields) end.

Fixpoint bits (p : positive) : string := match p with xH => "" | xO p => String "0" (bits p) | xI p => String "1" (bits p) end.
Fixpoint bits_value (s : string) : positive :=
  match s with "" => xH | String c s => if Ascii.eqb c "0" then xO (bits_value s) else xI (bits_value s) end.

Definition body_of (l : list json) : string := bits (encode (map to_item l)).
Definition of_body (s : string) : option (list json) := map of_item <$> (decode (bits_value s) : option (list item)).

Definition is_scalar (v : json) : bool := match v with JBool _ | JNum _ | JStr _ | JNull => true | _ => false end.
Definition is_flat (v : json) : bool := match v with JObj fields => forallb (fun f => is_scalar (snd f)) fields | _ => is_scalar v end.

Lemma scalar_item_inv v : is_scalar v = true -> item_scalar (scalar_item v) = v.
Proof. destruct v as [|[]| | | | |]; done. Qed.

Lemma item_inv v : is_flat v = true -> of_item (to_item v) = v.
Proof.
  destruct v as [|b|s|x|s|l|fields]; cbn; try (by intros _; apply scalar_item_inv); try done; [by destruct b|].
  intros H. f_equal. rewrite map_map. cbn. induction fields as [|[k v] fields IH]; [done|]. cbn in *.
  apply andb_prop in H as [Hv H]. by rewrite scalar_item_inv, IH.
Qed.

Lemma bits_inv p : bits_value (bits p) = p.
Proof. induction p as [p IH|p IH|]; cbn; [by rewrite IH..|done]. Qed.

Lemma body_inv l : Forall (fun v => is_flat v = true) l -> of_body (body_of l) = Some l.
Proof.
  intros H. unfold of_body, body_of. rewrite bits_inv, decode_encode. cbn. f_equal.
  induction H as [|v l Hv _ IH]; [done|]. cbn. by rewrite item_inv, IH.
Qed.

(** A payload is one record; an answer is a list. *)
Definition order_schema : gmap string FieldInfo := {[
  "partner_id" := mkFieldInfo "many2one" true false "res.partner" 0;
  "client_order_ref" := mkFieldInfo "char" false false "" 20;
  "note" := mkFieldInfo "text" false false "" 0
]}.

Definition payload_of (v : json) : string := String "=" (body_of [v]).
Definition read_text (s : string) : option json :=
  match s with
  | String c r => if Ascii.eqb c "=" then match of_body r with Some (v :: _) => Some v | _ => None end else JArr <$> of_body s
  | "" => JArr <$> of_body s
  end.

Lemma read_body l : Forall (fun v => is_flat v = true) l -> read_text (body_of l) = Some (JArr l).
Proof.
  intros H. apply body_inv in H. unfold read_text, body_of in *. destruct (bits _) as [|c r] eqn:E; [by rewrite H|].
  assert (c <> "="%char) as Hc by (intros ->; destruct (encode _); discriminate).
  destruct (Ascii.eqb_spec c "="); [done|]. by rewrite H.
Qed.

#[export] Instance memory_text : OdooText := {
  ot_decode := read_text;
  ot_marshal v := Ok (body_of [v]);
  ot_error _ := None;
  ot_fields _ := Some order_schema;
  ot_result r := Ok (itoa (cr_ID r));
  ot_prior _ := None;
  ot_named _ := None;
  ot_sprint _ := "";
  ot_float _ := None
}.

(** ** The database *)

Fixpoint parse_expr (fuel : nat) (d : list json) : option (dexp * list json) :=
  match fuel with
  | O => None
  | S fuel =>
      match d with
      | JArr [JStr f; JStr o; v] :: d => Some (DTerm f o v, d)
      | JStr x :: d =>
          match parse_expr fuel d with
          | None => None
          | Some (a, d) =>
              if String.eqb x "!" then Some (DNot a, d)
              else match parse_expr fuel d with
                | None => None
                | Some (b, d) => Some (if String.eqb x "&" then DAnd a b else DOr a b, d)
                end
          end
      | _ => None
      end
  end.
Fixpoint parse_domain (fuel : nat) (d : list json) : list dexp :=
  match fuel, d with
  | S fuel, _ :: _ => match parse_expr (S (List.length d)) d with Some (e, d) => e :: parse_domain fuel d | None => [] end
  | _, _ => []
  end.

Lemma parse_polish e : forall fuel rest, List.length (polish e) <= fuel -> parse_expr fuel (polish e ++ rest) = Some (e, rest).
Proof.
  induction e as [f o v|a IHa|a IHa b IHb|a IHa b IHb]; cbn; intros [|fuel] rest Hf; try lia.
  - done.
  - cbn. by rewrite IHa by lia.
  - rewrite length_app in Hf. cbn. rewrite <- app_assoc, IHa by lia. cbn. by rewrite IHb by lia.
  - rewrite length_app in Hf. cbn. rewrite <- app_assoc, IHa by lia. cbn. by rewrite IHb by lia.
Qed.

Lemma parse_domain_of es : forall fuel, List.length (domain_of es) <= fuel -> parse_domain fuel (domain_of es) = es.
Proof.
  induction es as [|e es IH]; intros fuel Hf; [by destruct fuel|]. unfold domain_of in *. cbn [map List.concat] in *. rewrite length_app in Hf.
  pose proof (polish_length e). destruct fuel as [|fuel]; [lia|]. destruct (polish e ++ List.concat (map polish es)) as [|x d] eqn:E.
  { apply (f_equal List.length) in E. rewrite length_app in E. cbn in E. lia. }
  cbn [parse_domain]. rewrite <- E, parse_polish by (rewrite length_app; lia). by rewrite IH by lia.
Qed.

(** Its records, the clock in nanoseconds, the next ID, and whether each answer gets lost. *)
Record Memory := mkMemory { me_rows : list row; me_now : Z; me_next : Z; me_lost : list bool }.

Definition value_at (r : row) (f : string) : json :=
  if String.eqb f "id" then JNum (itoa (ro_id r))
  else if String.eqb f "write_date" then JStr (format_stamp (ro_stamp r))
  else match ro_values r !! f with Some v => if is_scalar v then v else JBool false | None => JBool false end.

(** What comparing a record with a term's value says. *)
Definition compare_date (f : Z -> Z -> bool) (r : row) (v : json) : bool :=
  match v with JStr s => match parse_stamp s with Some t => f t (ro_stamp r) | None => false end | _ => false end.
Definition same_value (v w : json) : bool :=
  match v, w with JStr a, JStr b => String.eqb a b | JNum a, JNum b => String.eqb a b | _, _ => false end.
Definition term_holds (r : row) (f o : string) (v : json) : bool :=
  if String.eqb f "write_date" then
    compare_date (if String.eqb o ">" then Z.ltb else if String.eqb o "=" then Z.eqb else fun t s => (s <=? t)%Z) r v
  else if String.eqb f "id" && String.eqb o ">" then
    match v with JNum lit => match atoi lit with Some n => (n <? ro_id r)%Z | None => false end | _ => false end
  else same_value (value_at r f) v.

Definition render (fields : list string) (r : row) : json := JObj (map (fun f => (f, value_at r f)) fields).

Definition second (now : Z) : Z := (now / 1000000000)%Z.

Definition argument (args : list (string * json)) (k : string) : json := json_field args k.
Definition names_of (v : json) : list string := match v with JArr l => map string_of l | _ => [] end.

Fixpoint memory_holds (r : row) (e : dexp) : bool :=
  match e with
  | DTerm f o v => term_holds r f o v
  | DNot a => negb (memory_holds r a)
  | DAnd a b => memory_holds r a && memory_holds r b
  | DOr a b => memory_holds r a || memory_holds r b
  end.

Definition search (args : list (string * json)) (d : Memory) : list json :=
  let domain := match argument args "domain" with JArr l => parse_domain (List.length l) l | _ => [] end in
  map (render (names_of (argument args "fields")))
    (List.firstn (Z.to_nat (id64 (argument args "limit"))) (List.filter (fun r => forallb (memory_holds r) domain) (me_rows d))).

(** Creating a record, if IDs are left. *)
Definition insert_row (vals : list (string * json)) (d : Memory) : Memory :=
  mkMemory (me_rows d ++ [mkRow (me_next d) (second (me_now d)) (list_to_map vals)]) (me_now d) (me_next d + 1) (me_lost d).
Definition answer_lost (a : http_answer) (d : Memory) : http_answer * Memory :=
  (match me_lost d with true :: _ => NoAnswer (Sentinel "connection reset") | _ => a end,
   mkMemory (me_rows d) (me_now d) (me_next d) (List.tl (me_lost d))).

Definition orders : string := "sale.order".

#[export] Instance memory_server : OdooServer Memory := {
  od_post model method args d :=
    if String.eqb method "fields_get" then answer_lost (Answer 200 "") d
    else if negb (String.eqb model orders) then answer_lost (Answer 404 "") d
    else if String.eqb method "search_read" then answer_lost (Answer 200 (body_of (search args d))) d
    else if String.eqb method "create" then
      match argument args "vals_list" with
      | JArr [JObj vals] =>
          if (me_next d <? 2 ^ idBits - 1)%Z then answer_lost (Answer 200 (body_of [JNum (itoa (me_next d))])) (insert_row vals d)
          else answer_lost (Answer 500 "") d
      | _ => answer_lost (Answer 422 "") d
      end
    else answer_lost (Answer 200 (body_of [])) d;
  od_now := me_now
}.

(** ** It keeps the laws *)

Record memory_ok (d : Memory) : Prop := mkMemoryOk {
  mo_sorted : StronglySorted row_before (me_rows d);
  mo_rows : Forall (fun r => row_ok r /\ ro_stamp r <= second (me_now d) /\ ro_id r < me_next d)%Z (me_rows d);
  mo_now : (572 <= second (me_now d) < 2 ^ 32)%Z;
  mo_next : (0 < me_next d < 2 ^ idBits)%Z
}.

Definition recent (d : Memory) (r : row) : Prop := (second (me_now d) - 60 < ro_stamp r)%Z.

(** Time passes in which records are changed, created and deleted, each change in the
    second of its transaction, which is a minute long at most. *)
Record passes (d d' : Memory) : Prop := mkPasses {
  pa_ok : memory_ok d -> memory_ok d';
  pa_now : (me_now d <= me_now d')%Z;
  pa_rows : forall r, r ∈ me_rows d' -> r ∈ me_rows d \/ recent d r
}.

#[export] Instance passes_preorder : PreOrder passes.
Proof.
  split; [by intros d; split; [|lia|left]|]. intros a b c [O1 N1 R1] [O2 N2 R2]. split; [auto|lia|].
  intros r Hr. destruct (R2 r Hr) as [?|Hb]; [auto|right]. unfold recent, second in *.
  assert (me_now a / 1000000000 <= me_now b / 1000000000)%Z by (apply Z.div_le_mono; lia). lia.
Qed.

#[export] Instance memory_view : OdooView Memory := {
  od_rows model d := if String.eqb model orders then me_rows d else [];
  od_holds := term_holds;
  od_render := render;
  od_later := passes;
  od_ok := memory_ok
}.

Lemma passes_lost a d : passes d (snd (answer_lost a d)).
Proof. split; [|cbn; lia|by left]. intros [? ? ? ?]. by split. Qed.

Lemma value_at_scalar r f : is_scalar (value_at r f) = true.
Proof.
  unfold value_at. repeat case_match; try done.
Qed.

Lemma render_flat fields r : is_flat (render fields r) = true.
Proof. unfold render, is_flat. apply List.forallb_forall. intros x Hx. apply in_map_iff in Hx as (f & <- & _). apply value_at_scalar. Qed.

Lemma search_decodes args d : decode_with as_records (body_of (search args d)) = Some (search args d).
Proof.
  unfold decode_with. cbn [ot_decode memory_text]. rewrite read_body.
  - cbn. rewrite (proj2 (List.forallb_forall _ _)); [done|]. intros x Hx. unfold search in Hx. by apply in_map_iff in Hx as (r & <- & _).
  - apply Forall_forall. intros x Hx. apply list_elem_of_In, in_map_iff in Hx as (r & <- & _). apply render_flat.
Qed.

Lemma passes_answer a d a' d' : answer_lost a d = (a', d') -> passes d d'.
Proof. intros H. pose proof (passes_lost a d) as P. by rewrite H in P. Qed.

(** An order's event: the orders of one customer. *)
Definition by_customer : dexp := DTerm "partner_id" "=" (JNum "7").
Definition changed : OdooEvent := mkOdooEvent orders (domain_of [by_customer]) ["note"] None.

Lemma changed_settled now : settled_by now changed = (second now - 60)%Z.
Proof.
  unfold settled_by, second. change (wrap (- default 60 (oe_SettleSeconds changed) * 1000000000)%Z) with (- 60 * 1000000000)%Z.
  by rewrite Z.div_add by done.
Qed.

Lemma string_of_names l : map string_of (map JStr l) = l.
Proof. rewrite map_map. apply map_id. Qed.

Lemma search_value args es fields lit n d : argument args "domain" = JArr (domain_of es) -> argument args "fields" = strings fields ->
  argument args "limit" = JNum lit -> atoi lit = Some n -> (0 < n)%Z ->
  search args d = map (render fields) (List.firstn (Z.to_nat n) (List.filter (fun r => forallb (holds r) es) (me_rows d))).
Proof.
  intros Hd Hf Hl Hn Hp. unfold search. rewrite Hd, Hf, Hl, parse_domain_of by done. cbn [names_of strings id64]. rewrite string_of_names.
  do 3 f_equal. unfold atoi in Hn. unfold int64_of. destruct lit as [|c r]; [done|].
  destruct (ascii_dec c "+"); [|destruct (ascii_dec c "-")]; apply in_int64_some in Hn as [-> Hn]; unfold clamp, int_min, int_max in *; lia.
Qed.

Lemma decode_search args d status body recs a d' : answer_lost (Answer 200 (body_of (search args d))) d = (a, d') -> a = Answer status body ->
  decode_with as_records body = Some recs -> recs = search args d.
Proof.
  unfold answer_lost. intros [= <- _] Ha Hd. assert (body = body_of (search args d)) as -> by (destruct (me_lost d) as [|[] l]; congruence).
  rewrite search_decodes in Hd. by injection Hd.
Qed.

#[export] Instance changed_laws : PollLaws changed.
Proof.
  split.
  - apply passes_preorder.
  - intros d d' [Ho Hn Hr] Hok. split; [by apply Ho|]. split; [done|]. intros r Hin. destruct (Hr r Hin) as [?|Hb]; [by left|right].
    unfold settled. rewrite changed_settled. cbn. unfold recent in Hb. lia.
  - intros d [Hs Hr Hn _]. rewrite changed_settled. split; [done|]. split; [|cbn in *; lia].
    eapply Forall_impl; [exact Hr|]. by intros r [? _].
  - intros r s t Hp. cbn. by rewrite Hp.
  - intros r s t Hp. cbn. by rewrite Hp.
  - intros r s t Hp. cbn. by rewrite Hp.
  - intros r lit n Hn. cbn. by rewrite Hn.
  - done.
  - intros es fields lit n d a d' Hok Hn Hp H. exists d. change (answer_lost (Answer 200 (body_of (search [("domain", JArr (domain_of es));
      ("fields", strings fields); ("order", JStr "write_date asc, id asc"); ("limit", JNum lit)] d))) d = (a, d')) in H.
    split; [done|]. split; [by eapply passes_answer|]. intros status body recs Ha _ Hd.
    rewrite (decode_search _ _ _ _ _ _ _ H Ha Hd). by apply (search_value _ es fields lit n).
Qed.

(** ** Creating orders *)

Definition place : Operation :=
  mkOperation "create" orders [("partner_id", "customer"); ("note", "text")] [] None "client_order_ref" [] "".

Section keyed.
Context (key : string).

(** Others leave orders with the key alone or delete them. *)
Record others (d d' : Memory) : Prop := mkOthers {
  ot_ok : memory_ok d -> memory_ok d';
  ot_key : carrying place key d' = carrying place key d \/ carrying place key d' = []
}.

#[export] Instance others_order : PreOrder others.
Proof.
  split; [by split; [|left]|]. intros a b c [O1 K1] [O2 K2]. split; [auto|]. destruct K2 as [->|K2]; auto.
Qed.

#[export] Instance memory_store : OdooStore Memory := { os_schema _ := order_schema; os_others := others }.

Lemma others_lost a d : others d (snd (answer_lost a d)).
Proof. split; [apply (pa_ok _ _ (passes_lost a d))|by left]. Qed.

Lemma lookup_carries fields d : Forall (fun r => 0 < ro_id r < 2 ^ idBits)%Z (me_rows d) ->
  Forall2 (fun id rec => rec <> JNull /\ id64 (field rec "id") = id) (List.firstn 2 (carrying place key d))
    (map (render ("id" :: fields)) (List.firstn 2 (List.filter (fun r => forallb (holds r) [DTerm "client_order_ref" "=" (JStr key)]) (me_rows d)))).
Proof.
  intros Hr. unfold carrying. cbn [od_rows memory_view place op_Model orders String.eqb Ascii.eqb Bool.eqb].
  assert (E : List.filter (carries place key) (me_rows d) = List.filter (fun r => forallb (holds r) [DTerm "client_order_ref" "=" (JStr key)]) (me_rows d)).
  { apply List.filter_ext. intros r. cbn. unfold carries, value_at. cbn. rewrite andb_true_r.
    destruct (ro_values r !! "client_order_ref") as [[]|]; done. }
  rewrite E, List.firstn_map. assert (Hf : Forall (fun r => 0 < ro_id r < 2 ^ idBits)%Z
    (List.firstn 2 (List.filter (fun r => forallb (holds r) [DTerm "client_order_ref" "=" (JStr key)]) (me_rows d)))).
  { rewrite Forall_forall in *. intros r Hin. by apply firstn_in, filter_in in Hin as [Hin _]; apply Hr. }
  clear E Hr. induction Hf as [|r l Hr _ IH]; [constructor|]. cbn. constructor; [|exact IH]. split; [done|].
  cbn. apply int64_of_itoa. unfold idBits, int_max in *. lia.
Qed.

Lemma insert_row_ok vals d : memory_ok d -> (me_next d < 2 ^ idBits - 1)%Z -> memory_ok (insert_row vals d).
Proof.
  intros [Hs Hr Hn Hx] Hlt. split; cbn; [| |done|lia].
  - apply sorted_append; [done|repeat constructor|]. intros x y Hx' Hy. apply list_elem_of_singleton in Hy as ->.
    rewrite Forall_forall in Hr. destruct (Hr _ Hx') as (Hok & Hst & Hid). unfold row_before. rewrite !row_position_value.
    + cbn. destruct Hok. unfold idBits in *. lia.
    + split; cbn; lia.
    + done.
  - apply Forall_app. split.
    + eapply Forall_impl; [exact Hr|]. cbn. intros r (? & ? & ?). split_and!; [done|lia|lia].
    + constructor; [|constructor]. split; [split; cbn; lia|cbn; lia].
Qed.

Lemma insert_carries vals d : vals !! "client_order_ref" = Some (JStr key) ->
  carrying place key (insert_row (map_to_list vals) d) = carrying place key d ++ [me_next d].
Proof.
  intros Hv. unfold carrying. cbn [od_rows memory_view place op_Model orders String.eqb Ascii.eqb Bool.eqb insert_row me_rows].
  rewrite List.filter_app, map_app. f_equal. cbn [List.filter]. unfold carries at 1. cbn [ro_values op_Reference place].
  by rewrite list_to_map_to_list, Hv, String.eqb_refl.
Qed.

Lemma create_carries vals d a d' : memory_ok d -> vals !! "client_order_ref" = Some (JStr key) ->
  od_post orders "create" [("vals_list", JArr [object vals])] d = (a, d') ->
  exists d2, memory_ok d2 /\ others d2 d' /\
    (carrying place key d2 = carrying place key d \/ exists id, carrying place key d2 = carrying place key d ++ [id]) /\
    forall status body ids, a = Answer status body -> (status < 300)%Z -> decode_with as_list body = Some ids ->
      exists v, ids = [v] /\ carrying place key d2 = carrying place key d ++ [id64 v].
Proof.
  intros Hok Hv H. cbn in H. destruct (Z.ltb_spec (me_next d) (2 ^ idBits - 1)) as [Hlt|Hge].
  - exists (insert_row (map_to_list vals) d). pose proof (insert_carries vals d Hv) as Hins. split; [by apply insert_row_ok|]. split.
    { pose proof (others_lost (Answer 200 (body_of [JNum (itoa (me_next d))])) (insert_row (map_to_list vals) d)) as P. by rewrite H in P. }
    split; [right; by exists (me_next d)|]. intros status body ids Ha _ Hd. exists (JNum (itoa (me_next d))).
    assert (body = body_of [JNum (itoa (me_next d))]) as ->.
    { unfold answer_lost in H. injection H as <- _. destruct (me_lost _) as [|[] l]; congruence. }
    unfold decode_with in Hd. cbn [ot_decode memory_text] in Hd. rewrite read_body in Hd by by repeat constructor. injection Hd as <-.
    split; [done|]. cbn [id64]. rewrite int64_of_itoa; [done|]. destruct Hok as [_ _ _ Hx]. unfold idBits, int_max in *. lia.
  - exists d. split; [done|]. split; [pose proof (others_lost (Answer 500 "") d) as P; by rewrite H in P|]. split; [by left|].
    intros status body ids Ha Hs _. unfold answer_lost in H. injection H as <- _. destruct (me_lost d) as [|[] l]; try done; injection Ha as <- _; lia.
Qed.

#[export] Instance place_laws : WriteLaws place key.
Proof.
  split.
  - apply others_order.
  - intros d d' [Ho Hk] Hok. split; [by apply Ho|done].
  - intros model method args d a d' Ha H _. cbn in H. unfold asks in Ha. apply one_of_in in Ha.
    assert (Hget : forall x, answer_lost x d = (a, d') -> others d d') by (intros x Hx; pose proof (others_lost x d) as P; by rewrite Hx in P).
    rewrite !elem_of_cons in Ha. destruct Ha as [->|[->|[->|Ha]]]; [| | |by apply elem_of_nil in Ha]; cbn in H;
      try destruct (String.eqb model orders); cbn in H; by eapply Hget.
  - intros model args d status body d' f _ _ [= <-]. done.
  - intros fields d a d' Hok H. exists d. split; [done|]. split.
    { pose proof (others_lost (Answer 200 (body_of (search [("domain", equals "client_order_ref" (JStr key)); ("fields", strings ("id" :: fields)); ("limit", JNum "2")] d))) d) as P.
      change (others d d'). by cbn in H; rewrite H in P. }
    intros status body recs Ha _ Hd. rewrite (decode_search _ _ _ _ _ _ _ H Ha Hd).
    rewrite (search_value _ [DTerm "client_order_ref" "=" (JStr key)] ("id" :: fields) "2" 2) by done.
    apply lookup_carries. eapply Forall_impl; [apply Hok|]. by intros r [[_ ?] _].
  - intros vals d a d' Hok Hv _ H. destruct (create_carries vals d a d' Hok Hv H) as (d2 & Hok2 & Ho & Hadd & Hans).
    by exists d, d2.
Qed.
End keyed.

(** ** Runs *)

Module Sales.
Definition sales : Config := mkConfig "https://acme.odoo.com" "" [("order.changed", changed)] [("placeOrder", place)].

Definition at_second (s : Z) : Z := (s * 1000000000)%Z.
Definition order (id stamp : Z) (note : string) : row := mkRow id stamp {[ "partner_id" := JNum "7"; "note" := JStr note ]}.

(** The first answer to a create is lost; the second attempt finds the order. *)
Definition shop : Conn Memory := mkConn (mkMemory [] (at_second 1700000000) 41 [false; false; true]) ∅.
Definition request : string := payload_of (JObj [("customer", JStr " 7 "); ("text", JStr "deliver on Monday")]).
Definition run_key : string := "run-7".
#[local] Instance sales_store : OdooStore Memory := memory_store run_key.
#[local] Instance sales_laws : WriteLaws place run_key := place_laws run_key.

Definition first_try : result string * Conn Memory := create place run_key request shop.
Definition second_try : result string * Conn Memory := create place run_key request (snd first_try).

Definition lost : goerr := Wrapf (Msg "odoo %s/%s: %w" [FStr orders; FStr "create"]) [Sentinel "connection reset"].

Lemma tries : fst first_try = Err lost /\ fst second_try = Ok "41" /\ List.length (me_rows (oc_db (snd second_try))) = 1.
Proof. split; [|split]; vm_compute; reflexivity. Qed.

Lemma shop_ok : memory_ok (oc_db shop).
Proof. split; cbn; [constructor|constructor|by vm_compute|by vm_compute]. Qed.

Lemma run_of_tries : attempts place run_key ["41"] (snd second_try).
Proof.
  destruct tries as (H1 & H2 & _).
  refine (attempts_succeed place run_key [] (snd first_try) request "41" (snd second_try) _ _).
  - refine (attempts_fail place run_key [] shop request lost (snd first_try) _ _).
    + apply attempts_start; [|cbn; lia]. split; [apply shop_ok|]. intros m f Hm. cbn [oc_fields shop] in Hm. by rewrite lookup_empty in Hm.
    + rewrite <- H1. apply surjective_pairing.
  - rewrite <- H2. apply surjective_pairing.
Qed.


(** What is sent for a request whose customer is given as text. *)
Definition sent : gmap string json := {[ "partner_id" := JNum "7"; "note" := JStr "deliver on Monday" ]}.

Lemma record_well_typed_witness :
  (record place request shop).1 = Ok sent /\
  exists doc fields, decode_payload request = Ok doc /\ oc_fields (record place request shop).2 !! orders = Some fields /\
    forall f p, (f, p) ∈ op_Fields place -> is_Some (fields !! f).
Proof.
  assert (E : (record place request shop).1 = Ok sent) by (vm_compute; reflexivity). split; [exact E|].
  destruct (record_well_typed place request shop sent (record place request shop).2) as (doc & fields & H1 & H2 & _ & H3).
  { rewrite <- E. apply surjective_pairing. }
  exists doc, fields. split; [exact H1|]. split; [exact H2|]. intros f p Hf. apply (H3 f p Hf).
Defined.

(** Two orders changed in one second, and one that has not settled; then one is changed
    again before it was read. *)
Definition busy : Conn Memory :=
  mkConn (mkMemory [order 1 1700000000 "a"; order 2 1700000000 "b"; order 3 1700000090 "c"] (at_second 1700000100) 4 []) ∅.
Definition poll_one : result (list Event) * Conn Memory := Poll_odoo sales 100 "order.changed" 0 1 busy.
Definition first_events : list Event := match fst poll_one with Ok l => l | Err _ => [] end.
Definition later_db : Memory :=
  mkMemory [order 1 1700000000 "a"; order 3 1700000090 "c"; order 2 1700000150 "b2"] (at_second 1700000300) 4 [].
Definition later_shop : Conn Memory := mkConn later_db ∅.
Definition poll_rest : result (list Event) * Conn Memory := Poll_odoo sales 100 "order.changed" (moved 0 first_events) 10 later_shop.
Definition rest_events : list Event := match fst poll_rest with Ok l => l | Err _ => [] end.

Lemma polls : fst poll_one = Ok first_events /\ fst poll_rest = Ok rest_events /\ map sev_ID (first_events ++ rest_events) = ["1"; "3"; "2"].
Proof. split; [|split]; vm_compute; reflexivity. Qed.

Lemma busy_ok : memory_ok (oc_db busy).
Proof.
  split; cbn; [| |by vm_compute|by vm_compute].
  - repeat (constructor; [|repeat constructor; by vm_compute]). constructor.
  - repeat constructor; by vm_compute.
Qed.

Lemma busy_passes : passes (oc_db (snd poll_one)) later_db.
Proof.
  split; [|by vm_compute|].
  - intros _. split; cbn; [| |by vm_compute|by vm_compute]; [|repeat constructor; by vm_compute].
    repeat (constructor; [|repeat constructor; by vm_compute]). constructor.
  - intros r Hr. cbn [me_rows later_db] in Hr. rewrite !elem_of_cons in Hr. destruct Hr as [->|[->|[->|Hr]]]; [left|left|right; by vm_compute|by apply elem_of_nil in Hr].
    + change (order 1 1700000000 "a" ∈ me_rows (oc_db busy)). by left.
    + change (order 3 1700000090 "c" ∈ me_rows (oc_db busy)). right. right. by left.
Qed.

Lemma run_of_polls : reading sales 100 "order.changed" (moved (moved 0 first_events) rest_events) (first_events ++ rest_events) (snd poll_rest).
Proof.
  destruct polls as (H1 & H2 & H3).
  assert (R1 : reading sales 100 "order.changed" (moved 0 first_events) first_events (snd poll_one)).
  { refine (reading_polls sales 100 "order.changed" 0 [] busy 1 first_events (snd poll_one) _ _); [by apply reading_starts, busy_ok|].
    rewrite <- H1. apply surjective_pairing. }
  apply (reading_waits _ _ _ _ _ _ later_db ∅) in R1; [|apply busy_passes].
  refine (reading_polls sales 100 "order.changed" _ first_events later_shop 10 rest_events (snd poll_rest) R1 _). rewrite <- H2. apply surjective_pairing.
Qed.

Lemma odoo_polls_lose_nothing_witness :
  map sev_ID (first_events ++ rest_events) = ["1"; "3"; "2"] /\ StronglySorted before (first_events ++ rest_events) /\
  all_read changed [by_customer] (moved (moved 0 first_events) rest_events) (first_events ++ rest_events) (oc_db (snd poll_rest)).
Proof.
  split; [apply polls|].
  destruct (odoo_polls_lose_nothing changed [by_customer] eq_refl sales 100 "order.changed" eq_refl ltac:(by vm_compute)
    (moved (moved 0 first_events) rest_events) (first_events ++ rest_events) (snd poll_rest) run_of_polls) as (H1 & H2 & _).
  split; [exact H1|exact H2].
Defined.
End Sales.
