(* ===== verification/NetGuard.v ===== *)
(** Requests made on someone else's behalf: [src/pkg/netguard/netguard.go], with the
    addresses of [net/netip]. Looking names up and connecting are outside. *)

From S2P Require Import Turgon Prelude GoStr GoErr.
From Stdlib Require Import Ascii String.

#[local] Ltac Zify.zify_post_hook ::= Z.to_euclidean_division_equations.

(** ** Addresses *)

(** [netip.Addr]: an IPv4 address, or an IPv6 address with its zone, as numbers of 32 and
    128 bits. *)
Inductive addr :=
| V4 (n : Z)
| V6 (n : Z) (zone : string).

#[export] Instance addr_eq : EqDecision addr.
Proof. solve_decision. Defined.

Definition bit_len (ip : addr) : Z := match ip with V4 _ => 32 | V6 _ _ => 128 end.
Definition number (ip : addr) : Z := match ip with V4 n | V6 n _ => n end.
Definition has_zone (ip : addr) : bool := match ip with V4 _ => false | V6 _ z => negb (String.eqb z "") end.

(** [Unmap]: an IPv4 address written as an IPv6 one loses its zone. *)
Definition mapped_v4 (n : Z) : bool := (n / 2 ^ 32 =? 65535)%Z.
Definition Unmap (ip : addr) : addr :=
  match ip with V6 n _ => if mapped_v4 n then V4 (n mod 2 ^ 32) else ip | V4 _ => ip end.

(** [netip.Prefix], and [Contains]: an address with a zone is in none. *)
Record prefix := mkPrefix { px_addr : addr; px_bits : Z }.

Definition high_bits (ip : addr) (bits : Z) : Z := (number ip / 2 ^ (bit_len ip - bits))%Z.
Definition in_prefix (p : prefix) (ip : addr) : bool :=
  negb (has_zone ip) && (bit_len (px_addr p) =? bit_len ip)%Z && (high_bits (px_addr p) (px_bits p) =? high_bits ip (px_bits p))%Z.

(** [Masked]. *)
Definition set_number (ip : addr) (n : Z) : addr := match ip with V4 _ => V4 n | V6 _ z => V6 n z end.
Definition Masked (p : prefix) : prefix :=
  let ip := px_addr p in
  mkPrefix (set_number (match ip with V6 n _ => V6 n "" | _ => ip end)
    (high_bits ip (px_bits p) * 2 ^ (bit_len ip - px_bits p))%Z) (px_bits p).

(** The classes of addresses [netip] tells apart. *)
Definition IsLoopback (ip : addr) : bool :=
  match ip with V4 n => (n / 2 ^ 24 =? 127)%Z | V6 n _ => (n =? 1)%Z end.
Definition IsMulticast (ip : addr) : bool :=
  match ip with V4 n => (n / 2 ^ 28 =? 14)%Z | V6 n _ => (n / 2 ^ 120 =? 255)%Z end.
Definition IsLinkLocalUnicast (ip : addr) : bool :=
  match ip with V4 n => (n / 2 ^ 16 =? 43518)%Z | V6 n _ => (n / 2 ^ 118 =? 1018)%Z end.
Definition IsGlobalUnicast (ip : addr) : bool :=
  negb (match ip with V4 n => (n =? 0)%Z || (n =? 2 ^ 32 - 1)%Z | V6 _ _ => false end) &&
  bool_decide (ip <> V6 0 "") && negb (IsLoopback ip) && negb (IsMulticast ip) && negb (IsLinkLocalUnicast ip).
Definition IsPrivate (ip : addr) : bool :=
  match ip with
  | V4 n => (n / 2 ^ 24 =? 10)%Z || (n / 2 ^ 20 =? 2753)%Z || (n / 2 ^ 16 =? 49320)%Z
  | V6 n _ => (n / 2 ^ 121 =? 126)%Z
  end.

(** ** The guard *)

(** The four bytes of an IPv4 address, and the first four groups of an IPv6 one. *)
Definition ip4 (a b c d : Z) : addr := V4 (((a * 256 + b) * 256 + c) * 256 + d)%Z.
Definition ip6 (a b c d : Z) : addr := V6 ((((a * 65536 + b) * 65536 + c) * 65536 + d) * 2 ^ 64)%Z "".

(** [notPublic]. *)
Definition notPublic : list prefix := [
  mkPrefix (ip4 100 64 0 0) 10;
  mkPrefix (ip4 192 0 0 0) 24;
  mkPrefix (ip4 192 0 2 0) 24;
  mkPrefix (ip4 198 18 0 0) 15;
  mkPrefix (ip4 198 51 100 0) 24;
  mkPrefix (ip4 203 0 113 0) 24;
  mkPrefix (ip4 240 0 0 0) 4;
  mkPrefix (ip6 100 65435 0 0) 96;
  mkPrefix (ip6 100 65435 1 0) 48;
  mkPrefix (ip6 8193 0 0 0) 32;
  mkPrefix (ip6 8193 3512 0 0) 32;
  mkPrefix (ip6 8194 0 0 0) 16].

(** [Guard], without its resolver. *)
Record NetGuard := mkNetGuard { ng_Allow : list prefix }.

Definition allowed (g : NetGuard) (ip : addr) : bool := existsb (fun p => in_prefix p (Unmap ip)) (ng_Allow g).

Definition permitted (g : NetGuard) (ip : addr) : bool :=
  let ip := Unmap ip in
  if existsb (fun p => in_prefix p ip) (ng_Allow g) then true
  else if negb (IsGlobalUnicast ip) || IsPrivate ip then false
  else negb (existsb (fun p => in_prefix p ip) notPublic).

(** A parsed URL, as far as it is looked at. *)
Record URL := mkURL { ur_Scheme : string; ur_Host : string; ur_User : bool; ur_Hostname : string }.

(** Parsing of URLs and addresses. *)
Class NetText := {
  url_parse : string -> option URL;
  ParseAddr : string -> option addr;
  ParsePrefix : string -> option prefix
}.

(** ** Allowed ranges *)

Section parsing.
Context `{T : NetText}.

Definition allow_entry (f : string) : result prefix :=
  match ParsePrefix f with
  | Some p => Ok (Masked p)
  | None => match ParseAddr f with
      | Some a => Ok (Masked (mkPrefix a (bit_len a)))
      | None => Err (Errorf (Msg "%q is not a CIDR or an address" [FStr f]))
      end
  end.

Fixpoint allow_entries (l : list string) : result (list prefix) :=
  match l with
  | [] => Ok []
  | f :: l =>
      let f := trim_space f in
      if String.eqb f "" then allow_entries l
      else let! p := allow_entry f in let! ps := allow_entries l in Ok (p :: ps)
  end.

(** [ParseAllow]. *)
Definition ParseAllow (s : string) : result (list prefix) := allow_entries (split_on "," s).
End parsing.

(** ** Checking and connecting *)

(** Names are looked up, which may answer differently each time; and connections tried,
    each of which may fail. *)
Class Net (N : Type) := {
  nt_lookup : string -> N -> result (list addr) * N;
  nt_connect : addr -> N -> option goerr * N
}.

Section net.
Context {N : Type} `{T : NetText} `{I : Net N} (g : NetGuard).

Definition resolve (host : string) (n : N) : result (list addr) * N :=
  match ParseAddr host with
  | Some ip => (Ok [ip], n)
  | None =>
      let (r, n) := nt_lookup host n in
      (match r with Ok [] => Err (Errorf (msg0 "no addresses")) | r => r end, n)
  end.

(** The loop of [CheckURL] over the addresses. *)
Definition check_address (u : URL) (ip : addr) : option goerr :=
  if negb (permitted g ip) then
    Some (Errorf (Msg "%s is not a public address; Turgon only calls public addresses, or ranges its operators allow" [FStr (ur_Hostname u)]))
  else if String.eqb (ur_Scheme u) "http" && negb (allowed g ip) then Some (Errorf (msg0 "the URL must use https"))
  else None.

Definition url_ok (u : URL) : bool :=
  negb (String.eqb (ur_Host u) "") && negb (ur_User u) && (String.eqb (ur_Scheme u) "https" || String.eqb (ur_Scheme u) "http").

(** [CheckURL]; no error is [None]. *)
Definition CheckURL (raw : string) (n : N) : option goerr * N :=
  match url_parse raw with
  | Some u =>
      if url_ok u then
        let (r, n) := resolve (ur_Hostname u) n in
        (match r with
         | Err err => Some (Errorf (Msg "%s does not resolve: %v" [FStr (ur_Hostname u); FErr err]))
         | Ok ips => first_error (check_address u) ips
         end, n)
      else (Some (Errorf (msg0 "the URL must be https://host/path, without credentials in it")), n)
  | None => (Some (Errorf (msg0 "the URL must be https://host/path, without credentials in it")), n)
  end.

Definition ErrRefused : string := "not a permitted address".

(** The dialer of [Client]: each address of the name in turn, through [Control]; what was
    connected to, and the address that answered. *)
Fixpoint dial (ips : list addr) (first : option goerr) (n : N) : result addr * list addr * N :=
  match ips with
  | [] => (Err (match first with Some e => e | None => Errorf (msg0 "no addresses") end), [], n)
  | ip :: ips =>
      if permitted g ip then
        let (e, n) := nt_connect ip n in
        match e with
        | None => (Ok ip, [ip], n)
        | Some e => let '(r, tried, n) := dial ips (match first with Some f => Some f | None => Some e end) n in (r, ip :: tried, n)
        end
      else
        let e := Wrapf (Msg "%s: %w" []) [Sentinel ErrRefused] in
        dial ips (match first with Some f => Some f | None => Some e end) n
  end.

Definition dial_host (host : string) (n : N) : result addr * list addr * N :=
  let (r, n) := resolve host n in
  match r with Err e => (Err e, [], n) | Ok ips => dial ips None n end.
End net.

(** ** What is public *)

(** Blocks of addresses, first and last. *)
Definition block (p : prefix) : Z * Z :=
  let size := (2 ^ (bit_len (px_addr p) - px_bits p))%Z in (number (px_addr p), number (px_addr p) + size - 1)%Z.

(** The special blocks of the two families: unspecified, private, shared, loopback,
    link-local, protocol assignments, documentation, benchmarking, multicast, reserved, and
    the ones whose addresses are translated into IPv4. *)
Definition special4 : list prefix := [
  mkPrefix (ip4 0 0 0 0) 32; mkPrefix (ip4 127 0 0 0) 8; mkPrefix (ip4 224 0 0 0) 4; mkPrefix (ip4 169 254 0 0) 16;
  mkPrefix (ip4 10 0 0 0) 8; mkPrefix (ip4 172 16 0 0) 12; mkPrefix (ip4 192 168 0 0) 16;
  mkPrefix (ip4 100 64 0 0) 10; mkPrefix (ip4 192 0 0 0) 24; mkPrefix (ip4 192 0 2 0) 24; mkPrefix (ip4 198 18 0 0) 15;
  mkPrefix (ip4 198 51 100 0) 24; mkPrefix (ip4 203 0 113 0) 24; mkPrefix (ip4 240 0 0 0) 4].
Definition special6 : list prefix := [
  mkPrefix (ip6 0 0 0 0) 128; mkPrefix (V6 1 "") 128; mkPrefix (ip6 65280 0 0 0) 8; mkPrefix (ip6 65152 0 0 0) 10;
  mkPrefix (ip6 64512 0 0 0) 7; mkPrefix (ip6 100 65435 0 0) 96; mkPrefix (ip6 100 65435 1 0) 48; mkPrefix (ip6 8193 0 0 0) 32;
  mkPrefix (ip6 8193 3512 0 0) 32; mkPrefix (ip6 8194 0 0 0) 16].

Definition in_block (p : prefix) (n : Z) : Prop := ((block p).1 <= n <= (block p).2)%Z.
Definition public (ip : addr) : Prop :=
  Forall (fun p => ~ in_block p (number ip)) (match ip with V4 _ => special4 | V6 _ _ => special6 end).

Definition addr_ok (ip : addr) : Prop := (0 <= number ip < 2 ^ bit_len ip)%Z.

(** The IPv4 address that an IPv6 one is delivered to by translation: IPv4-mapped, NAT64
    with either prefix, and 6to4. *)
Inductive delivered_to : addr -> Z -> Prop :=
| mapped_to n z : mapped_v4 n = true -> delivered_to (V6 n z) (n mod 2 ^ 32)%Z
| nat64_to n z : in_block (mkPrefix (ip6 100 65435 0 0) 96) n -> delivered_to (V6 n z) (n mod 2 ^ 32)%Z
| local_nat64_to n z v : in_block (mkPrefix (ip6 100 65435 1 0) 48) n -> delivered_to (V6 n z) v
| sixtofour_to n z : (n / 2 ^ 112 = 8194)%Z -> delivered_to (V6 n z) (n / 2 ^ 80 mod 2 ^ 32)%Z.

Lemma Unmap_ok ip : addr_ok ip -> addr_ok (Unmap ip).
Proof. unfold addr_ok. destruct ip as [n|n z]; [done|]. cbn. destruct (mapped_v4 n); [|done]. cbn. lia. Qed.

Lemma Unmap_zone ip : has_zone ip = false -> has_zone (Unmap ip) = false.
Proof. destruct ip as [n|n z]; [done|]. cbn. by destruct (mapped_v4 n). Qed.

Lemma Forall_iff_in {A} (P Q : A -> Prop) l : (forall x, x ∈ l -> P x <-> Q x) -> Forall P l <-> Forall Q l.
Proof. intros H. rewrite !Forall_forall. split; intros Hl x Hx; by apply (H x Hx), Hl. Qed.

(** A block holds the addresses its prefix contains, if it begins at a multiple of its size. *)
Definition aligned (p : prefix) : bool :=
  (0 <=? bit_len (px_addr p) - px_bits p)%Z && (number (px_addr p) mod 2 ^ (bit_len (px_addr p) - px_bits p) =? 0)%Z.

Lemma contains_block p ip : aligned p = true -> has_zone ip = false -> bit_len (px_addr p) = bit_len ip ->
  in_prefix p ip = false <-> ~ in_block p (number ip).
Proof.
  unfold aligned, in_prefix, in_block, block, high_bits. intros Ha Hz Hl. apply andb_prop in Ha as [Hb Ha].
  apply Z.leb_le in Hb. apply Z.eqb_eq in Ha. rewrite Hz, Hl, Z.eqb_refl in *. cbn [negb andb fst snd].
  rewrite Z.eqb_neq. assert (Hs : (0 < 2 ^ (bit_len ip - px_bits p))%Z) by (apply Z.pow_pos_nonneg; lia).
  generalize dependent (2 ^ (bit_len ip - px_bits p))%Z. intros size Ha Hs. clear Hz Hl Hb.
  assert (E : number (px_addr p) = (size * (number (px_addr p) / size))%Z) by (apply Z_div_exact_full_2; lia).
  generalize dependent (number (px_addr p)). intros a Ha E. generalize dependent (a / size)%Z. intros q ->. clear Ha.
  split.
  - intros H [H1 H2]. apply H. apply (Z.div_unique_pos _ _ _ (number ip - size * q)); lia.
  - intros H Hq. apply H. subst q. pose proof (Z.mul_div_le (number ip) size Hs). pose proof (Z.mul_succ_div_gt (number ip) size Hs). lia.
Qed.

Lemma public_contains ip : has_zone ip = false -> addr_ok ip ->
  public ip <-> Forall (fun p => in_prefix p ip = false) (match ip with V4 _ => special4 | V6 _ _ => special6 end).
Proof.
  intros Hz Hok. unfold public. apply Forall_iff_in. intros p Hp. symmetry. apply contains_block; [|done|].
  all: destruct ip as [n|n z]; unfold special4, special6 in Hp; rewrite !elem_of_cons in Hp;
    repeat destruct Hp as [->|Hp]; try done; by apply elem_of_nil in Hp.
Qed.

Lemma contains_is p c ip k : has_zone ip = false -> bit_len (px_addr p) = bit_len ip -> (bit_len ip - px_bits p)%Z = k ->
  high_bits (px_addr p) (px_bits p) = c -> in_prefix p ip = (number ip / 2 ^ k =? c)%Z.
Proof. intros Hz Hl <- <-. unfold in_prefix. rewrite Hz, Hl, Z.eqb_refl, Z.eqb_sym. done. Qed.

Definition classified (ip : addr) : bool :=
  IsGlobalUnicast ip && negb (IsPrivate ip) && negb (existsb (fun p => in_prefix p ip) notPublic).

Ltac all_blocks :=
  unfold classified, IsGlobalUnicast, IsPrivate, IsLoopback, IsMulticast, IsLinkLocalUnicast, notPublic, special4, special6;
  cbn [existsb]; repeat rewrite Forall_cons; rewrite Forall_nil;
  rewrite ?andb_true_iff, ?negb_true_iff, ?orb_false_iff.

Lemma classified4 n : (0 <= n < 2 ^ 32)%Z -> classified (V4 n) = true <-> public (V4 n).
Proof.
  intros Hn. rewrite public_contains by done. all_blocks. rewrite bool_decide_true by done.
  rewrite (contains_is (mkPrefix (ip4 0 0 0 0) 32) 0 (V4 n) 0), (contains_is (mkPrefix (ip4 127 0 0 0) 8) 127 (V4 n) 24),
    (contains_is (mkPrefix (ip4 224 0 0 0) 4) 14 (V4 n) 28), (contains_is (mkPrefix (ip4 169 254 0 0) 16) 43518 (V4 n) 16),
    (contains_is (mkPrefix (ip4 10 0 0 0) 8) 10 (V4 n) 24), (contains_is (mkPrefix (ip4 172 16 0 0) 12) 2753 (V4 n) 20),
    (contains_is (mkPrefix (ip4 192 168 0 0) 16) 49320 (V4 n) 16) by done.
  cbn [number]. rewrite Z.div_1_r. split; [intros H; destruct_and! H; repeat split; done|].
  intros H. destruct_and! H. repeat split; try done.
  apply Z.eqb_neq. intros ->. done.
Qed.

Lemma classified6 n : (0 <= n < 2 ^ 128)%Z -> mapped_v4 n = false -> classified (V6 n "") = true <-> public (V6 n "").
Proof.
  intros Hn Hm. rewrite public_contains by done. all_blocks.
  rewrite (contains_is (mkPrefix (ip6 0 0 0 0) 128) 0 (V6 n "") 0), (contains_is (mkPrefix (V6 1 "") 128) 1 (V6 n "") 0),
    (contains_is (mkPrefix (ip6 65280 0 0 0) 8) 255 (V6 n "") 120), (contains_is (mkPrefix (ip6 65152 0 0 0) 10) 1018 (V6 n "") 118),
    (contains_is (mkPrefix (ip6 64512 0 0 0) 7) 126 (V6 n "") 121) by done.
  cbn [number]. rewrite Z.div_1_r. rewrite bool_decide_eq_true. assert (E : V6 n "" <> V6 0 "" <-> (n =? 0)%Z = false).
  { rewrite Z.eqb_neq. split; [intros H ->; done|intros H [= ->]; done]. }
  rewrite E. split; [intros H; destruct_and! H; repeat split; done|]. intros H. destruct_and! H. repeat split; done.
Qed.

(** * Properties *)

Lemma permitted_public g ip : addr_ok ip -> has_zone ip = false -> permitted g ip = true -> allowed g ip = false -> public (Unmap ip).
Proof.
  intros Hok Hz Hp Ha. unfold permitted in Hp. unfold allowed in Ha. cbv zeta in Hp. rewrite Ha in Hp.
  assert (Hc : classified (Unmap ip) = true).
  { unfold classified. destruct (IsGlobalUnicast (Unmap ip)), (IsPrivate (Unmap ip)); try done. }
  clear Hp Ha. apply Unmap_ok in Hok. destruct ip as [n|n z]; [by apply classified4|]. cbn in Hz. destruct z; [|done].
  unfold Unmap in *. destruct (mapped_v4 n) eqn:E; [by apply classified4|by apply classified6].
Qed.

Lemma public_permitted g ip : addr_ok ip -> has_zone ip = false -> public (Unmap ip) -> permitted g ip = true.
Proof.
  intros Hok Hz Hp. unfold permitted. destruct (existsb _ (ng_Allow g)); [done|].
  assert (Hc : classified (Unmap ip) = true).
  { apply Unmap_ok in Hok. destruct ip as [n|n z]; [by apply classified4|]. cbn in Hz. destruct z; [|done].
    unfold Unmap in *. destruct (mapped_v4 n) eqn:E; [by apply classified4|by apply classified6]. }
  unfold classified in Hc. destruct (IsGlobalUnicast (Unmap ip)), (IsPrivate (Unmap ip)); done.
Qed.

(** A public address is not handed on to an IPv4 address that is not public. *)
Lemma public_delivered ip v : addr_ok ip -> public (Unmap ip) -> delivered_to ip v -> public (V4 v).
Proof.
  intros Hok Hp Hd. destruct Hd as [n z Hm|n z Hb|n z v Hb|n z Hs].
  - cbn in Hp. by rewrite Hm in Hp.
  - exfalso. assert (Hm : mapped_v4 n = false) by (unfold mapped_v4; apply Z.eqb_neq; unfold in_block, block, ip6 in Hb; cbn in Hb; lia).
    cbn in Hp. rewrite Hm in Hp. unfold public, special6 in Hp. rewrite Forall_forall in Hp. apply (Hp (mkPrefix (ip6 100 65435 0 0) 96)); [|done].
    rewrite !elem_of_cons. tauto.
  - exfalso. assert (Hm : mapped_v4 n = false) by (unfold mapped_v4; apply Z.eqb_neq; unfold in_block, block, ip6 in Hb; cbn in Hb; lia).
    cbn in Hp. rewrite Hm in Hp. unfold public, special6 in Hp. rewrite Forall_forall in Hp. apply (Hp (mkPrefix (ip6 100 65435 1 0) 48)); [|done].
    rewrite !elem_of_cons. tauto.
  - exfalso. assert (Hm : mapped_v4 n = false) by (unfold mapped_v4; apply Z.eqb_neq; lia).
    cbn in Hp. rewrite Hm in Hp. unfold public, special6 in Hp. rewrite Forall_forall in Hp. apply (Hp (mkPrefix (ip6 8194 0 0 0) 16)).
    + rewrite !elem_of_cons. tauto.
    + unfold in_block, block, ip6. cbn. lia.
Qed.

Section connections.
Context {N : Type} `{T : NetText} `{I : Net N} (g : NetGuard).

Lemma dial_permitted ips : forall first (n : N) r tried n', dial g ips first n = (r, tried, n') ->
  Forall (fun ip => permitted g ip = true /\ ip ∈ ips) tried /\ forall ip, r = Ok ip -> ip ∈ tried.
Proof.
  induction ips as [|ip ips IH]; intros first n r tried n' H; cbn in H; [injection H as <- <- <-; by split|].
  destruct (permitted g ip) eqn:Ep.
  - destruct (nt_connect ip n) as [[e|] n1].
    + destruct (dial g ips _ n1) as [[r1 tried1] n2] eqn:E. injection H as <- <- <-. apply IH in E as [E1 E2]. split.
      * constructor; [by split; [|left]|]. eapply Forall_impl; [exact E1|]. intros x [? ?]. split; [done|by right].
      * intros x Hx. right. by apply E2.
    + injection H as <- <- <-. split; [constructor; [by split; [|left]|constructor]|]. intros x [= <-]. by left.
  - apply IH in H as [E1 E2]. split; [|done]. eapply Forall_impl; [exact E1|]. intros x [? ?]. split; [done|by right].
Qed.

(** C27: Whatever a name is found to stand for, at each look-up, a request connects only to
    addresses the guard permits. Of those written without a zone, an address outside the
    allowed ranges is public: in none of the private, shared, loopback, link-local,
    multicast, documentation, benchmarking, reserved or unspecified blocks, nor delivered
    by IPv4 mapping, NAT64 or 6to4 to an IPv4 address that is in one; and every public
    address is permitted. A URL that is checked without error is https, or http to allowed
    ranges only, and each address it stood for is permitted. *)
Theorem requests_stay_public (host : string) (n : N) (r : result addr) (tried : list addr) (n' : N)
    (Hdial : dial_host g host n = (r, tried, n')) :
  (forall ip, ip ∈ tried -> permitted g ip = true) /\ (forall ip, r = Ok ip -> ip ∈ tried) /\
  (forall ip, addr_ok ip -> has_zone ip = false -> allowed g ip = false -> permitted g ip = true <-> public (Unmap ip)) /\
  (forall ip v, addr_ok ip -> has_zone ip = false -> permitted g ip = true -> allowed g ip = false -> delivered_to ip v -> public (V4 v)) /\
  (forall raw m, CheckURL g raw n = (None, m) -> exists u ips, url_parse raw = Some u /\ url_ok u = true /\
    fst (resolve (ur_Hostname u) n) = Ok ips /\
    forall ip, ip ∈ ips -> permitted g ip = true /\ (ur_Scheme u = "https" \/ allowed g ip = true)).
Proof.
  split; [|split; [|split; [|split]]].
  - unfold dial_host in Hdial. destruct (resolve host n) as [[ips|e] n1]; [|injection Hdial as <- <- <-; by intros ip Hip; apply elem_of_nil in Hip].
    apply dial_permitted in Hdial as [H _]. rewrite Forall_forall in H. intros ip Hip. by destruct (H ip Hip).
  - unfold dial_host in Hdial. destruct (resolve host n) as [[ips|e] n1]; [|by injection Hdial as <- <- <-].
    by apply dial_permitted in Hdial as [_ H].
  - intros ip Hok Hz Ha. split; [by intros H; eapply permitted_public|by apply public_permitted].
  - intros ip v Hok Hz Hp Ha Hd. eapply public_delivered; [done| |done]. by eapply permitted_public.
  - intros raw m H. unfold CheckURL in H. destruct (url_parse raw) as [u|]; [|done]. destruct (url_ok u) eqn:Eu; [|done].
    destruct (resolve (ur_Hostname u) n) as [r1 n1] eqn:Er. destruct r1 as [ips|e]; [|done]. injection H as H _. exists u, ips.
    rewrite Er. do 3 (split; [done|]). clear Er. induction ips as [|ip ips IH]; intros x Hx; [by apply elem_of_nil in Hx|].
    cbn in H. destruct (check_address g u ip) eqn:Ec; [done|]. apply elem_of_cons in Hx as [->|Hx]; [|by apply IH].
    unfold check_address in Ec. destruct (permitted g ip); [|done]. split; [done|]. cbn in Ec.
    destruct (allowed g ip); [by right|left]. unfold url_ok in Eu. destruct (String.eqb_spec (ur_Scheme u) "https"); [done|].
    destruct (String.eqb (ur_Scheme u) "http"); [done|]. by rewrite !andb_false_r in Eu.
Qed.
End connections.

(** An address with a zone is in no prefix, so the blocks that only [notPublic] names, and
    the unspecified address, are let through: NAT64 to a metadata service, and this host. *)
Lemma zone_passes : let metadata zone := V6 (number (ip6 100 65435 0 0) + number (ip4 169 254 169 254)) zone in
  permitted (mkNetGuard []) (metadata "") = false /\ permitted (mkNetGuard []) (metadata "x") = true /\
  permitted (mkNetGuard []) (V6 0 "") = false /\ permitted (mkNetGuard []) (V6 0 "x") = true.
Proof. by vm_compute. Qed.

(** ** A network *)

Module Names.
#[local] Instance names_text : NetText := { url_parse _ := Some (mkURL "https" "hooks.acme.com" false "hooks.acme.com"); ParseAddr _ := None; ParsePrefix _ := None }.

(** A name that stands for another address at each look-up. *)
#[local] Instance names_net : Net (list (list addr)) := {
  nt_lookup _ n := match n with ips :: n => (Ok ips, n) | [] => (Ok [], []) end;
  nt_connect _ n := (None, n)
}.

Definition here : NetGuard := mkNetGuard [mkPrefix (ip4 10 8 0 0) 16].
Definition rebound : list (list addr) := [[V4 134744072]; [ip4 169 254 169 254; ip4 10 8 1 1]].

Lemma requests_stay_public_witness :
  CheckURL here "https://hooks.acme.com/a" rebound = (None, List.tl rebound) /\
  dial_host here "hooks.acme.com" (List.tl rebound) = (Ok (ip4 10 8 1 1), [ip4 10 8 1 1], []) /\
  permitted here (ip4 10 8 1 1) = true.
Proof.
  assert (E : dial_host here "hooks.acme.com" (List.tl rebound) = (Ok (ip4 10 8 1 1), [ip4 10 8 1 1], [])) by (vm_compute; reflexivity).
  split; [vm_compute; reflexivity|]. split; [exact E|].
  destruct (requests_stay_public here "hooks.acme.com" (List.tl rebound) _ _ _ E) as (H & _). apply H. by left.
Defined.
End Names.
