(* ===== verification/Streams.v ===== *)
(** Subscriptions: [Streams] of [src/pkg/engine/stream.go] over the state database's
    [DeliverStream] and [StreamResume]. The source system and the lock are outside;
    metrics and logs are left out. *)

From S2P Require Import Turgon Prelude GoStr GoErr GoTime Policy GuardData Idempotency Governor Guard RuntimeSpec Compiler Template AuditLog.
From S2P Require Import ApiKinds Engine Identity Dispatcher DispatcherTheorems PgStore PgTheorems Deployment.
From Stdlib Require Import Ascii String.

(** The system that pushes: what a subscription opened from a position hands over, batch
    after batch with the position after each, and the error it ends with; and the lock. *)
Inductive lock_answer := Taken | Busy | LockFailed (e : goerr).
Class Pushing (S : Type) := {
  ps_stream : string -> option string -> S -> list (list Event * string) * option goerr * S;
  ps_lock : string -> S -> lock_answer * S
}.

Record Streams := mkStreams { sm_MinBackoff : Z; sm_MaxBackoff : Z; sm_Standby : Z; sm_Locker : bool }.

(** [or]: a setting, or its default. *)
Definition setting (d def : Z) : Z := if (0 <? d)%Z then d else def.
Definition min_backoff (s : Streams) : Z := setting (sm_MinBackoff s) 1000000000.
Definition max_backoff (s : Streams) : Z := setting (sm_MaxBackoff s) 60000000000.
Definition standby (s : Streams) : Z := setting (sm_Standby s) 10000000000.

Section streams.
Context {J S : Type} `{C : JsonColumns J} `{P : Pushing S} (cfg : Streams) (endpoint event : string).

Definition source : string := InboxSource endpoint event.

(** A worker: the database as it reaches it, the source system, the backoff, and how often
    it woke the dispatcher. *)
Record sub_worker := mkWorker { wk_pg : Pg J (goerr * bool); wk_src : S; wk_backoff : Z; wk_woken : Z }.

(** The callback of [run]. *)
Definition deliver_batch (batch : list Event * string) (w : sub_worker) : option goerr * sub_worker :=
  let (r, pg) := pg_DeliverStream source (fst batch) (snd batch) (wk_pg w) in
  match r with
  | Err e => (Some e, mkWorker pg (wk_src w) (wk_backoff w) (wk_woken w))
  | Ok n => (None, mkWorker pg (wk_src w) (min_backoff cfg) (if (0 <? n)%Z then wk_woken w + 1 else wk_woken w)%Z)
  end.

(** [Stream]: what arrives is delivered before more is read; an error of the callback ends it. *)
Fixpoint stream_loop (batches : list (list Event * string)) (err : option goerr) (w : sub_worker) : option goerr * sub_worker :=
  match batches with
  | [] => (err, w)
  | b :: batches =>
      let (e, w) := deliver_batch b w in
      match e with Some e => (Some e, w) | None => stream_loop batches err w end
  end.

Definition stream (resume : option string) (w : sub_worker) : option goerr * sub_worker :=
  let '(batches, err, src) := ps_stream event resume (wk_src w) in
  stream_loop batches err (mkWorker (wk_pg w) src (wk_backoff w) (wk_woken w)).

(** One round of the loop of [run]: how long it sleeps after it, and the worker. *)
Definition subscribe (w : sub_worker) : Z * sub_worker :=
  let (r, pg) := pg_StreamResume source (wk_pg w) in
  let w := mkWorker pg (wk_src w) (wk_backoff w) (wk_woken w) in
  let w := match r with Ok resume => snd (stream resume w) | Err _ => w end in
  (wk_backoff w, mkWorker (wk_pg w) (wk_src w) (Z.min (wrap (wk_backoff w * 2)) (max_backoff cfg)) (wk_woken w)).

Definition round (w : sub_worker) : Z * sub_worker :=
  if sm_Locker cfg then
    let (a, src) := ps_lock ("stream:" +++ source) (wk_src w) in
    let w := mkWorker (wk_pg w) src (wk_backoff w) (wk_woken w) in
    match a with Taken => subscribe w | Busy | LockFailed _ => (standby cfg, w) end
  else subscribe w.

(** ** What a source promises *)

(** The events a source has pushed to everyone, the place in them that a position stands
    for, and the place a subscription without a position starts from. *)
Class PushedLog := {
  pl_log : S -> list Event;
  pl_place : string -> option nat;
  pl_now : string -> S -> nat
}.

Context `{V : PushedLog}.

(** Batches go through the log from a place without leaving an event out, each followed by
    the position after it, or none. *)
Inductive goes_through (lg : list Event) : nat -> list (list Event * string) -> Prop :=
| goes_end k : goes_through lg k []
| goes_on k k' next batches : k <= k' -> k' <= List.length lg -> (next = "" \/ pl_place next = Some k') -> goes_through lg k' batches ->
    goes_through lg k ((List.firstn (k' - k) (List.skipn k lg), next) :: batches).

Class PushingLaws : Prop := {
  stream_law resume s batches err s' : ps_stream event resume s = (batches, err, s') ->
    pl_log s `prefix_of` pl_log s' /\
    match resume with
    | Some text => forall k, pl_place text = Some k -> goes_through (pl_log s') k batches
    | None => List.length (pl_log s) <= pl_now event s <= List.length (pl_log s') /\ goes_through (pl_log s') (pl_now event s) batches
    end;
  lock_law name s a s' : ps_lock name s = (a, s') -> pl_log s `prefix_of` pl_log s'
}.

Context `{L : !PushingLaws}.

(** Every event of the log from one place to another is in the inbox. *)
Definition stored (lg : list Event) (from upto : nat) (rows : list InboxRow) : Prop :=
  forall i ev, from <= i < upto -> lg !! i = Some ev -> existsb (same_event source (sev_ID ev)) rows = true.

(** The inbox keeps what is stored up to the position kept with it. *)
Record resumable (from : nat) (db : Db J) (s : S) : Prop := mkResumable {
  rs_inbox : inbox_ok (t_inbox db) (inbox_seq db);
  rs_stored : exists text k, t_positions db !! source = Some text /\ pl_place text = Some k /\ from <= k <= List.length (pl_log s) /\
    stored (pl_log s) from k (t_inbox db)
}.

Lemma stored_grows lg lg' from upto rows rows' : lg `prefix_of` lg' -> upto <= List.length lg -> stored lg from upto rows ->
  (forall id, existsb (same_event source id) rows = true -> existsb (same_event source id) rows' = true) -> stored lg' from upto rows'.
Proof.
  intros [more ->] Hk Hs Hrows i ev Hi Hev. apply Hrows, (Hs i); [done|]. by rewrite lookup_app_l in Hev by lia.
Qed.

Lemma same_event_app rows new id : existsb (same_event source id) rows = true -> existsb (same_event source id) (rows ++ new) = true.
Proof using. intros H. by rewrite List.existsb_app, H. Qed.

(** While batches are delivered: what came before the place reached is in the inbox, and a
    position kept with it is not beyond that place; one that there was stays. *)
Record reached (was : bool) (lg : list Event) (from k : nat) (db : Db J) : Prop := mkReached {
  rc_inbox : inbox_ok (t_inbox db) (inbox_seq db);
  rc_range : from <= k <= List.length lg;
  rc_stored : stored lg from k (t_inbox db);
  rc_position : forall text, t_positions db !! source = Some text -> exists p, pl_place text = Some p /\ from <= p <= k;
  rc_kept : was = true -> is_Some (t_positions db !! source)
}.

(** A delivery of the next batch. *)
Lemma reached_deliver was lg from k k' next now (db : Db J) r db' : k <= k' -> k' <= List.length lg ->
  (next = "" \/ pl_place next = Some k') -> reached was lg from k db ->
  deliver_tx now source (List.firstn (k' - k) (List.skipn k lg)) next db = (r, db') ->
  match r with Ok _ => reached was lg from k' db' | Err _ => reached was lg from k db' end.
Proof using.
  intros Hk Hk' Hnext [Hi Hr Hs Hp Hw] H. apply deliver_tx_spec in H as (Hi' & _ & _ & _ & new & Hrows & _ & Hres); [|done].
  destruct r as [n|e].
  - destruct Hres as (_ & Hev & Hpos). split; [done|lia|..].
    + intros i ev Hrange Hlook. destruct (Nat.lt_ge_cases i k) as [Hlt|Hge].
      * rewrite Hrows. apply same_event_app. apply (Hs i ev); [lia|done].
      * apply Hev. apply list_elem_of_lookup. exists (i - k). rewrite lookup_take_lt by lia. rewrite lookup_drop. by replace (k + (i - k)) with i by lia.
    + intros text Ht. rewrite Hpos in Ht. destruct (String.eqb_spec next "") as [->|Hne].
      * destruct (Hp text Ht) as (p & Hpl & Hle). exists p. split; [done|lia].
      * rewrite lookup_insert_eq in Ht. injection Ht as <-. destruct Hnext as [?|Hpl]; [done|]. exists k'. split; [done|lia].
    + intros E. rewrite Hpos. destruct (String.eqb next ""); [by apply Hw|]. rewrite lookup_insert_eq. eauto.
  - destruct Hres as [-> Hpos]. rewrite app_nil_r in Hrows. split; [done|done|by rewrite Hrows|by rewrite Hpos|by rewrite Hpos].
Qed.

Lemma deliver_batch_reached was lg from k k' next w e w' : k <= k' -> k' <= List.length lg -> (next = "" \/ pl_place next = Some k') ->
  reached was lg from k (pg_db (wk_pg w)) -> deliver_batch (List.firstn (k' - k) (List.skipn k lg), next) w = (e, w') ->
  wk_src w' = wk_src w /\ match e with
    | None => reached was lg from k' (pg_db (wk_pg w'))
    | Some _ => exists p, reached was lg from p (pg_db (wk_pg w'))
    end.
Proof using.
  intros Hk Hk' Hnext Hr H. unfold deliver_batch in H. cbn [fst snd] in H. destruct (pg_DeliverStream _ _ _ _) as [r pg] eqn:E.
  unfold pg_DeliverStream in E. apply exec_lossy in E as [(r0 & Ef & Hres)|[Hdb (err & ->)]].
  - pose proof (reached_deliver _ _ _ _ _ _ _ _ _ _ Hk Hk' Hnext Hr Ef) as Hd. destruct r as [n|err]; injection H as <- <-; (split; [done|]).
    + destruct Hres as [<-|(? & ?)]; done.
    + destruct r0; eauto.
  - injection H as <- <-. split; [done|]. exists k. cbn. by rewrite Hdb.
Qed.

Lemma stream_loop_reached was lg from k batches : goes_through lg k batches -> forall err w e w',
  reached was lg from k (pg_db (wk_pg w)) -> stream_loop batches err w = (e, w') ->
  wk_src w' = wk_src w /\ exists p, reached was lg from p (pg_db (wk_pg w')).
Proof using.
  induction 1 as [k|k k' next batches Hk Hk' Hnext Hgo IH]; intros err w e w' Hr H; [injection H as <- <-; eauto|]. cbn [stream_loop] in H.
  destruct (deliver_batch _ w) as [e1 w1] eqn:E. destruct (deliver_batch_reached _ _ _ _ _ _ _ _ _ Hk Hk' Hnext Hr E) as [Hs Hd].
  destruct e1 as [e1|]; [injection H as <- <-; by split|]. rewrite <- Hs. by eapply IH.
Qed.

(** ** Rounds *)

(** The source system as the subscription of a round finds it. *)
Definition opening (w : sub_worker) : S := if sm_Locker cfg then snd (ps_lock ("stream:" +++ source) (wk_src w)) else wk_src w.

Definition position_of (w : sub_worker) : option string := t_positions (pg_db (wk_pg w)) !! source.

(** The invariant: an inbox without repeats, and, once a position is kept, everything from
    the place the first of them started from. *)
Definition watching (o : option nat) (db : Db J) (s : S) : Prop :=
  inbox_ok (t_inbox db) (inbox_seq db) /\
  match o with None => t_positions db !! source = None | Some from => resumable from db s end.

Lemma reached_resumable was lg from k db s : lg = pl_log s -> reached was lg from k db ->
  watching (match t_positions db !! source with None => None | Some _ => Some from end) db s.
Proof using.
  intros -> [Hi Hr Hs Hp _]. split; [done|]. destruct (t_positions db !! source) as [text|] eqn:Et; [|done]. split; [done|].
  destruct (Hp text eq_refl) as (p & Hpl & Hle). exists text, p. split; [done|]. split; [done|]. split; [lia|].
  intros i ev Hi' Hev. apply (Hs i ev); [lia|done].
Qed.

Lemma watching_grows o db s s' : pl_log s `prefix_of` pl_log s' -> watching o db s -> watching o db s'.
Proof using.
  intros Hl [Hi Ho]. split; [done|]. destruct o as [from|]; [|done]. destruct Ho as [_ (text & k & Ht & Hp & Hr & Hs)]. split; [done|].
  exists text, k. split; [done|]. split; [done|]. split.
  - destruct Hl as [more ->]. rewrite length_app. lia.
  - apply (stored_grows (pl_log s) _ _ _ (t_inbox db)); [done|lia|done|done].
Qed.

Lemma subscribe_watching o w z w' : watching o (pg_db (wk_pg w)) (wk_src w) -> subscribe w = (z, w') ->
  exists o', watching o' (pg_db (wk_pg w')) (wk_src w') /\
    match o with
    | Some from => o' = Some from
    | None => o' = match position_of w' with None => None | Some _ => Some (pl_now event (wk_src w)) end
    end.
Proof using L.
  intros [Hi Ho] H. unfold subscribe in H. destruct (pg_StreamResume source (wk_pg w)) as [r pg] eqn:E.
  assert (Hdb : pg_db pg = pg_db (wk_pg w) /\ forall x, r = Ok x -> x = t_positions (pg_db (wk_pg w)) !! source).
  { clear H. unfold pg_StreamResume, exec_query in E. apply exec_lossy in E as [(r0 & Er & [->|(e & ->)])|[Hdb (e & ->)]].
    - injection Er as <- <-. split; [done|]. by intros x [= <-].
    - injection Er as _ <-. by split.
    - by split. }
  clear E. destruct Hdb as [Hdb Hx]. revert H Hx. destruct r as [resume|e]; intros H Hx.
  2: { injection H as _ <-. cbn. rewrite Hdb. exists o. split; [by split|]. destruct o; [done|]. unfold position_of. cbn. by rewrite Hdb, Ho. }
  specialize (Hx _ eq_refl). destruct (stream resume _) as [e1 w1] eqn:Es. cbn [snd] in H. injection H as _ <-. cbn [wk_pg wk_src].
  unfold stream in Es. cbn [wk_src wk_pg wk_backoff wk_woken] in Es. destruct (ps_stream event resume (wk_src w)) as [[batches err] s'] eqn:Ep.
  apply stream_law in Ep as [Hlog Hgo]. subst resume. destruct o as [from|].
  - destruct Ho as [_ (text & k & Ht & Hpl & Hr & Hst)]. rewrite Ht in Hgo. specialize (Hgo k Hpl).
    assert (Hlen : List.length (pl_log (wk_src w)) <= List.length (pl_log s')) by (by apply prefix_length).
    assert (H0 : reached true (pl_log s') from k (pg_db pg)).
    { rewrite Hdb. split; [done|lia|apply (stored_grows (pl_log (wk_src w)) _ _ _ (t_inbox (pg_db (wk_pg w)))); [done|lia|done|done]| |by rewrite Ht; eauto].
      intros t Hin. rewrite Ht in Hin.
      injection Hin as <-. exists k. split; [done|lia]. }
    destruct (stream_loop_reached _ _ _ _ _ Hgo err (mkWorker pg s' (wk_backoff w) (wk_woken w)) _ _ H0 Es) as [Hs (p & Hp)].
    cbn in Hs. assert (El : pl_log s' = pl_log (wk_src w1)) by (by rewrite Hs). destruct (rc_kept _ _ _ _ _ Hp eq_refl) as [t' Ht'].
    apply (reached_resumable _ _ _ _ _ _ El) in Hp. rewrite Ht' in Hp. by exists (Some from).
  - rewrite Ho in Hgo. destruct Hgo as [Hnow Hgo].
    assert (H0 : reached false (pl_log s') (pl_now event (wk_src w)) (pl_now event (wk_src w)) (pg_db pg)).
    { rewrite Hdb. split; [done|lia|intros i ev Hi'; lia| |done]. intros t Hin. by rewrite Ho in Hin. }
    destruct (stream_loop_reached _ _ _ _ _ Hgo err (mkWorker pg s' (wk_backoff w) (wk_woken w)) _ _ H0 Es) as [Hs (p & Hp)].
    cbn in Hs. assert (El : pl_log s' = pl_log (wk_src w1)) by (by rewrite Hs). apply (reached_resumable _ _ _ _ _ _ El) in Hp.
    eexists. split; [exact Hp|done].
Qed.

Lemma round_watching o w z w' : watching o (pg_db (wk_pg w)) (wk_src w) -> round w = (z, w') ->
  exists o', watching o' (pg_db (wk_pg w')) (wk_src w') /\
    match o with
    | Some from => o' = Some from
    | None => o' = match position_of w' with None => None | Some _ => Some (pl_now event (opening w)) end
    end.
Proof using L.
  intros Hw H. unfold round, opening in *. destruct (sm_Locker cfg); [|by eapply subscribe_watching].
  destruct (ps_lock _ _) as [a s'] eqn:El. apply lock_law in El. apply (watching_grows _ _ _ _ El) in Hw. cbn [snd].
  destruct a as [| |e]; [by apply (subscribe_watching _ (mkWorker (wk_pg w) s' (wk_backoff w) (wk_woken w)) z w')|..].
  all: injection H as _ <-; exists o; (split; [done|]); destruct o; [done|]; destruct Hw as [_ Ho]; unfold position_of; cbn; by rewrite Ho.
Qed.

(** ** Runs *)

(** What others do to the database: rows of this inbox are kept, and its position. *)
Definition others_keep (db db' : Db J) : Prop :=
  inbox_ok (t_inbox db') (inbox_seq db') /\ t_positions db' !! source = t_positions db !! source /\
  forall id, existsb (same_event source id) (t_inbox db) = true -> existsb (same_event source id) (t_inbox db') = true.

(** Rounds of one worker after another, each with its own faults, clock and backoff, while
    others use the database and the source system goes on: where the subscription that first
    kept a position started from, and the worker. *)
Inductive watched : option nat -> sub_worker -> Prop :=
| watched_none w : inbox_ok (t_inbox (pg_db (wk_pg w))) (inbox_seq (pg_db (wk_pg w))) -> position_of w = None -> watched None w
| watched_round o w : watched o w ->
    watched (match o with
             | Some from => Some from
             | None => match position_of (snd (round w)) with None => None | Some _ => Some (pl_now event (opening w)) end
             end) (snd (round w))
| watched_else o w pg s backoff woken : watched o w -> others_keep (pg_db (wk_pg w)) (pg_db pg) -> pl_log (wk_src w) `prefix_of` pl_log s ->
    watched o (mkWorker pg s backoff woken).

Lemma watched_watching o w : watched o w -> watching o (pg_db (wk_pg w)) (wk_src w).
Proof using L.
  induction 1 as [w Hi Hp|o w _ IH|o w pg s backoff woken _ IH Ho Hl]; [by split| |].
  - destruct (round w) as [z w'] eqn:E. destruct (round_watching _ _ _ _ IH E) as (o' & Hw & Ho). cbn [snd].
    destruct o as [from|]; by rewrite <- Ho.
  - apply (watching_grows _ _ _ _ Hl) in IH. destruct Ho as (Hi & Hpos & Hrows), IH as [_ IH]. split; [done|]. cbn. rewrite Hpos.
    destruct o as [from|]; [|done]. destruct IH as [_ (text & k & Ht & Hp & Hr & Hs)]. split; [done|]. exists text, k. rewrite Hpos.
    split; [done|]. split; [done|]. split; [done|]. intros i ev Hi' Hev. apply Hrows. by apply (Hs i ev).
Qed.

(** C18: However often a subscription fails, its worker is replaced, or a call of the
    database fails before or after its effect: the inbox holds no event twice, and every
    event that the source system pushed, from where the subscription that first kept a
    position had started, up to the position kept now. So a subscription reopened there
    neither loses an event nor reads one into the inbox again. *)
Theorem subscriptions_lose_nothing (o : option nat) (w : sub_worker) (Hrun : watched o w) :
  inbox_ok (t_inbox (pg_db (wk_pg w))) (inbox_seq (pg_db (wk_pg w))) /\
  match o with
  | None => position_of w = None
  | Some from => exists text k, position_of w = Some text /\ pl_place text = Some k /\ from <= k <= List.length (pl_log (wk_src w)) /\
      forall i ev, from <= i < k -> pl_log (wk_src w) !! i = Some ev ->
        exists r, r ∈ t_inbox (pg_db (wk_pg w)) /\ ib_source r = source /\ ib_event_id r = sev_ID ev
  end.
Proof using L.
  apply watched_watching in Hrun as [Hi Ho]. split; [done|]. destruct o as [from|]; [|done].
  destruct Ho as [_ (text & k & Ht & Hp & Hr & Hs)]. exists text, k. do 3 (split; [done|]). intros i ev Hi' Hev.
  specialize (Hs i ev Hi' Hev). apply List.existsb_exists in Hs as (r & Hin & He). exists r. split; [by apply list_elem_of_In|].
  unfold same_event in He. apply andb_prop in He as [H1 H2]. by apply String.eqb_eq in H1, H2.
Qed.

(** An event the inbox cannot store stops its subscription: the batch fails each time, the
    position does not move, and nothing behind it arrives. *)
Lemma unstorable_event_stops w batches err s' ev next rest :
  pg_faults (wk_pg w) = [] -> ps_stream event (position_of w) (wk_src w) = (([ev], next) :: rest ++ batches, err, s') ->
  payload_text (sev_Payload ev) = None -> sm_Locker cfg = false ->
  t_inbox (pg_db (wk_pg (snd (round w)))) = t_inbox (pg_db (wk_pg w)) /\ position_of (snd (round w)) = position_of w.
Proof using.
  intros Hf Hs Hp Hl. unfold round, subscribe, pg_StreamResume, exec_query, exec, position_of in *. rewrite Hl, Hf.
  unfold stream. cbn [wk_src wk_pg snd]. rewrite Hs. cbn [stream_loop]. unfold deliver_batch, pg_DeliverStream, exec. cbn [fst snd pg_faults wk_pg pg_db pg_now].
  unfold deliver_tx. cbn [insert_events]. rewrite Hp. done.
Qed.
End streams.

(** ** A system that pushes *)

(** A source with one more event each time a subscription is opened, whose positions count
    the events before them. *)
Module Pushes.
Definition pushed (i : nat) : Event := mkSourceEvent (String.concat "" (repeat "i" i)) 0 "order-changed" "{}".
Definition log (n : nat) : list Event := map pushed (seq 0 n).
Definition position_text (k : nat) : string := String.concat "" (repeat "p" (S k)).
Definition place (text : string) : option nat := match String.length text with O => None | S k => Some k end.

Lemma length_repeat c k : String.length (String.concat "" (repeat (String c "") k)) = k.
Proof. induction k as [|[|k] IH]; [done|done|]. cbn in *. by f_equal. Qed.

Lemma place_position_text k : place (position_text k) = Some k.
Proof. unfold place, position_text. by rewrite length_repeat. Qed.

#[export] Instance pushing : Pushing nat := {|
  ps_stream event resume n :=
    let from := match resume with None => n | Some text => default 0 (place text) end in
    ((if Nat.leb from (S n) then [(List.firstn (S n - from) (List.skipn from (log (S n))), position_text (S n))] else []),
     Some (Errorf (msg0 "the connection was closed")), S n);
  ps_lock name n := (Taken, n)
|}.

#[export] Instance pushed_log : PushedLog (S := nat) := {| pl_log := log; pl_place := place; pl_now _ n := n |}.

Lemma log_length n : List.length (log n) = n.
Proof. unfold log. by rewrite length_map, length_seq. Qed.

Lemma log_grows n : log n `prefix_of` log (S n).
Proof. unfold log. rewrite seq_S, map_app. by eexists. Qed.

Lemma one_batch n from : from <= S n ->
  goes_through (log (S n)) from [(List.firstn (S n - from) (List.skipn from (log (S n))), position_text (S n))].
Proof. intros H. apply goes_on; [done|by rewrite log_length|right; apply place_position_text|constructor]. Qed.

#[export] Instance pushing_laws : PushingLaws "order-changed".
Proof.
  split.
  - intros resume n batches err n' [= <- <- <-]. split; [apply log_grows|]. cbn [pl_log pl_place pl_now pushed_log]. destruct resume as [text|].
    + intros k Hk. rewrite Hk. cbn [default]. change (id k) with k. destruct (Nat.leb k (S n)) eqn:E; [|constructor]. apply Nat.leb_le in E. by apply one_batch.
    + rewrite !log_length. split; [lia|]. replace (Nat.leb n (S n)) with true by (symmetry; apply Nat.leb_le; lia). apply one_batch. lia.
  - by intros name n a n' [= <- <-].
Qed.

(** A first subscription whose delivery takes effect though its answer is lost, a round that
    cannot read the position, and a subscription reopened from it. *)
Definition lost : goerr := Errorf (msg0 "conn closed").
Definition cfg : Streams := mkStreams 0 0 0 true.
Definition start : sub_worker (J := Outcome) (S := nat) :=
  mkWorker (mkPg empty_db 100 300 [None; Some (lost, true); Some (lost, false)]) 2 1000000000 0.
Definition next (w : sub_worker (J := Outcome) (S := nat)) : sub_worker := snd (round cfg "shop" "order-changed" w).

Lemma subscriptions_lose_nothing_witness :
  watched cfg "shop" "order-changed" (Some 2) (next (next (next start))) /\
  map ib_event_id (t_inbox (pg_db (wk_pg (next start)))) = ["ii"] /\
  map ib_event_id (t_inbox (pg_db (wk_pg (next (next (next start)))))) = ["ii"; "iii"] /\
  inbox_ok (t_inbox (pg_db (wk_pg (next (next (next start)))))) (inbox_seq (pg_db (wk_pg (next (next (next start)))))).
Proof.
  assert (Hw : watched cfg "shop" "order-changed" (Some 2) (next (next (next start)))).
  { refine (watched_round cfg "shop" "order-changed" (Some 2) (next (next start)) _).
    refine (watched_round cfg "shop" "order-changed" (Some 2) (next start) _).
    refine (watched_round cfg "shop" "order-changed" None start _).
    apply watched_none; [|reflexivity]. split; [constructor|constructor|reflexivity|constructor]. }
  split; [exact Hw|]. split; [vm_compute; reflexivity|]. split; [vm_compute; reflexivity|].
  exact (proj1 (subscriptions_lose_nothing cfg "shop" "order-changed" (Some 2) _ Hw)).
Defined.
End Pushes.
