(* ===== verification/RestAuth.v ===== *)
(** Authentication of HTTP requests: [src/pkg/connector/rest/auth.go], with the stores of
    rotated tokens of [src/pkg/connector/tokens.go]. The network and the clock are outside
    ([Http]), as are JSON, URLs and hashes ([AuthText]). *)

From S2P Require Import Turgon Prelude GoStr GoText GoErr GoTime.
From Stdlib Require Import Ascii String.

(** ** Requests and answers *)

(** A request: the URL as it is sent, headers with one value each, and whether a redirect
    of its answer is followed. *)
Record request := mkRequest { rq_method : string; rq_target : string; rq_header : Header; rq_body : string; rq_follow : bool }.

Inductive answer :=
| NoAnswer (e : goerr)
| Answer (status : Z) (header : Header) (cookies : list (string * string)) (body : string).

(** The network, the clock in Unix nanoseconds, and random bytes. A request that cannot be
    built has no answer. *)
Class Http (S : Type) := {
  http_do : request -> S -> answer * S;
  http_now : S -> Z * S;
  http_random : nat -> S -> string * S
}.

Definition MethodPost : string := "POST".
Definition StatusOK : Z := 200.
Definition StatusUnauthorized : Z := 401.

(** [APIError], as the error it is: [AnsweredWith] marks it for [errors.As]. *)
Inductive failure :=
| AnsweredWith (status : Z) (e : goerr)
| Failed (e : goerr).
Definition failure_error (f : failure) : goerr := match f with AnsweredWith _ e | Failed e => e end.

Definition APIError (method path : string) (status : Z) (body : string) : failure :=
  AnsweredWith status (Errorf (Msg "%s %s: HTTP %d: %s" [FStr method; FStr path; FInt status; FStr body])).

(** ** Configuration *)

Record Auth := mkAuth {
  au_Type : string;
  au_Header : string;
  au_TokenURL : string;
  au_Scopes : list string;
  au_Realm : string;
  au_ClientAuth : string;
  au_LoginURL : string;
  au_Cookies : list string
}.

(** A parsed URL: its scheme, host and escaped path, and its query's pairs. *)
Record HttpURL := mkHttpURL { hu_Scheme : string; hu_Host : string; hu_Path : string; hu_Query : list (string * string) }.

Record oauth1Creds := mkOAuth1 { oa_ConsumerKey : string; oa_ConsumerSecret : string; oa_TokenID : string; oa_TokenSecret : string }.
Record tokenState := mkTokenState { tk_Seed : string; tk_RefreshToken : string; tk_AccessToken : string; tk_Expires : Z }.

(** Hashes, URLs, and the JSON of secrets, token answers and stored tokens; what a struct's
    field is missing is empty. *)
Class AuthText := {
  at_sha256 : string -> string;
  at_hmac : string -> string -> string;
  at_url : string -> option HttpURL;
  at_client : string -> option (string * string * string);
  at_oauth1 : string -> option oauth1Creds;
  at_login : string -> option nat;
  at_token : string -> option (string * string * Z);
  at_timeout : string -> float64;
  at_state : string -> option tokenState;
  at_marshal_state : tokenState -> string
}.

Definition equal_fold (a b : string) : bool := String.eqb (to_lower a) (to_lower b).

Section auth.
Context `{T : AuthText}.

(** A URL that requests can be sent to. *)
Definition http_url (s : string) : option HttpURL :=
  match at_url s with
  | Some u => if (String.eqb (hu_Scheme u) "https" || String.eqb (hu_Scheme u) "http") && negb (String.eqb (hu_Host u) "") then Some u else None
  | None => None
  end.

(** [Auth.validate]. *)
Definition validate_auth (a : Auth) : option goerr :=
  let t := au_Type a in
  if existsb (String.eqb t) ["bearer"; "basic"; "none"] then None
  else if String.eqb t "oauth1" then
    if String.eqb (au_Realm a) "" then Some (Errorf (msg0 "auth: oauth1 needs a realm (the NetSuite account ID, e.g. 1234567_SB1)")) else None
  else if String.eqb t "header" then
    if String.eqb (au_Header a) "" || equal_fold (au_Header a) "Authorization"
    then Some (Errorf (msg0 "auth: header needs a header name other than Authorization (use bearer)")) else None
  else if String.eqb t "session" then
    if is_some (http_url (au_LoginURL a)) then None else Some (Errorf (msg0 "auth: session needs an http(s) loginURL"))
  else if String.eqb t "oauth2" || String.eqb t "oauth2-refresh" then
    if negb (is_some (http_url (au_TokenURL a))) then Some (Errorf (Msg "auth: %s needs an http(s) tokenURL" [FStr t]))
    else if existsb (String.eqb (au_ClientAuth a)) [""; "basic"; "body"] then None
    else Some (Errorf (Msg "auth: clientAuth must be basic or body, got %q" [FStr (au_ClientAuth a)]))
  else Some (Errorf (Msg "auth: type must be bearer, header, basic, oauth2, oauth2-refresh, oauth1, session or none, got %q" [FStr t])).

(** [SameOrigin]. *)
Definition SameOrigin (a : Auth) (base : HttpURL) : option goerr :=
  if negb (String.eqb (au_Type a) "session") then None
  else match at_url (au_LoginURL a) with
    | None => Some (Errorf (msg0 "auth: session needs an http(s) loginURL"))
    | Some login =>
        if equal_fold (hu_Scheme login) (hu_Scheme base) && equal_fold (hu_Host login) (hu_Host base) then None
        else Some (Errorf (Msg "auth: the session's loginURL (%s://%s) and the API (%s://%s) must share scheme and host: the login's cookies are sent to the API"
               [FStr (hu_Scheme login); FStr (hu_Host login); FStr (hu_Scheme base); FStr (hu_Host base)]))
    end.

(** ** The authenticator *)

Record rotation := mkRotation { ro_spent : string; ro_state : tokenState }.

Record authenticator := mkAuthenticator {
  ac_cfg : Auth;
  ac_secret : string;
  ac_clientID : string;
  ac_clientSecret : string;
  ac_oauth1 : oauth1Creds;
  ac_token : string;
  ac_expires : Z;
  ac_refreshToken : string;
  ac_tokens : bool;
  ac_tokenKey : string;
  ac_legacyKey : string;
  ac_rejected : string;
  ac_pending : option rotation
}.

Definition set_token (token : string) (expires : Z) (a : authenticator) : authenticator :=
  mkAuthenticator (ac_cfg a) (ac_secret a) (ac_clientID a) (ac_clientSecret a) (ac_oauth1 a) token expires
    (ac_refreshToken a) (ac_tokens a) (ac_tokenKey a) (ac_legacyKey a) (ac_rejected a) (ac_pending a).
Definition set_rejected (rejected : string) (a : authenticator) : authenticator :=
  mkAuthenticator (ac_cfg a) (ac_secret a) (ac_clientID a) (ac_clientSecret a) (ac_oauth1 a) (ac_token a) (ac_expires a)
    (ac_refreshToken a) (ac_tokens a) (ac_tokenKey a) (ac_legacyKey a) rejected (ac_pending a).
Definition set_pending (p : option rotation) (a : authenticator) : authenticator :=
  mkAuthenticator (ac_cfg a) (ac_secret a) (ac_clientID a) (ac_clientSecret a) (ac_oauth1 a) (ac_token a) (ac_expires a)
    (ac_refreshToken a) (ac_tokens a) (ac_tokenKey a) (ac_legacyKey a) (ac_rejected a) p.
Definition set_keys (tokens : bool) (key legacy : string) (a : authenticator) : authenticator :=
  mkAuthenticator (ac_cfg a) (ac_secret a) (ac_clientID a) (ac_clientSecret a) (ac_oauth1 a) (ac_token a) (ac_expires a)
    (ac_refreshToken a) tokens key legacy (ac_rejected a) (ac_pending a).

Definition no_oauth1 : oauth1Creds := mkOAuth1 "" "" "" "".

(** The time that [time.Time] has before it is set. *)
Definition zero_time : Z := -62135596800000000000.

Definition plain (cfg : Auth) (secret id client_secret refresh : string) (c : oauth1Creds) : authenticator :=
  mkAuthenticator cfg secret id client_secret c "" zero_time refresh false "" "" "" None.

(** [newAuthenticator]. *)
Definition newAuthenticator (cfg : Auth) (secret : string) : result authenticator :=
  let s := trim_space secret in
  let t := au_Type cfg in
  let made := Ok (plain cfg s "" "" "" no_oauth1) in
  if String.eqb t "bearer" || String.eqb t "header" then
    if String.eqb s "" then Err (Errorf (Msg "auth: the secret must hold the %s token" [FStr t])) else made
  else if String.eqb t "basic" then
    if contains_byte ":" s then made else Err (Errorf (msg0 "auth: the basic secret must be user:password"))
  else if String.eqb t "oauth2" then
    match at_client s with
    | Some (id, sec, _) =>
        if String.eqb id "" || String.eqb sec "" then Err (Errorf (msg0 "auth: the oauth2 secret must have a clientId and a clientSecret"))
        else Ok (plain cfg s id sec "" no_oauth1)
    | None => Err (Errorf (msg0 "auth: the oauth2 secret must have a clientId and a clientSecret"))
    end
  else if String.eqb t "oauth2-refresh" then
    match at_client s with
    | Some (id, sec, refresh) =>
        if String.eqb id "" || String.eqb sec "" || String.eqb refresh "" then
          Err (Errorf (msg0 "auth: the oauth2-refresh secret must have a clientId, a clientSecret and a refreshToken"))
        else Ok (plain cfg s id sec refresh no_oauth1)
    | None => Err (Errorf (msg0 "auth: the oauth2-refresh secret must have a clientId, a clientSecret and a refreshToken"))
    end
  else if String.eqb t "session" then
    match at_login s with
    | Some (S _) => made
    | _ => Err (Errorf (msg0 "auth: the session secret must be the login's JSON body"))
    end
  else if String.eqb t "oauth1" then
    match at_oauth1 s with
    | Some c =>
        if existsb (String.eqb "") [oa_ConsumerKey c; oa_ConsumerSecret c; oa_TokenID c; oa_TokenSecret c] then
          Err (Errorf (msg0 "auth: the oauth1 secret must have consumerKey, consumerSecret, tokenId and tokenSecret"))
        else Ok (plain cfg s "" "" "" c)
    | None => Err (Errorf (msg0 "auth: the oauth1 secret must have consumerKey, consumerSecret, tokenId and tokenSecret"))
    end
  else made.

(** [NewAuthenticator], which other connectors share. *)
Definition NewAuthenticator (cfg : Auth) (secret : string) : result authenticator :=
  match validate_auth cfg with Some e => Err e | None => newAuthenticator cfg secret end.

Definition refreshable (a : authenticator) : bool :=
  existsb (String.eqb (au_Type (ac_cfg a))) ["oauth2"; "oauth2-refresh"; "session"].

(** [invalidate]; no request drops whatever is current. *)
Definition sent_token (a : authenticator) (req : request) : string :=
  if String.eqb (au_Type (ac_cfg a)) "session" then get_header (rq_header req) "Cookie"
  else trim_prefix "Bearer " (get_header (rq_header req) "Authorization").
Definition invalidate (req : option request) (a : authenticator) : authenticator :=
  let drop := set_token "" (ac_expires a) (set_rejected (ac_token a) a) in
  if String.eqb (ac_token a) "" then a
  else match req with
    | Some req => if String.eqb (sent_token a req) (ac_token a) then drop else a
    | None => drop
    end.

(** [useTokens]. *)
Definition nul : string := bytes [0]%N.
Definition useTokens (key : string) (a : authenticator) : authenticator :=
  let app := au_TokenURL (ac_cfg a) +++ nul +++ ac_clientID a in
  set_keys true (key +++ "@" +++ hex_encode (fst (str_cut 12 (at_sha256 (app +++ nul +++ ac_refreshToken a)))))
    (key +++ "@" +++ hex_encode (fst (str_cut 8 (at_sha256 app)))) a.

(** ** OAuth 1.0a *)

(** [oauthEscape] and [signOAuth1] with HMAC-SHA256. *)
Definition oauthEscape : string -> string := escape_with unreserved.

Definition oauth_params (c : oauth1Creds) (t : Z) (nonce : string) : gmap string string := {[
  "oauth_consumer_key" := oa_ConsumerKey c; "oauth_token" := oa_TokenID c; "oauth_signature_method" := "HMAC-SHA256";
  "oauth_timestamp" := itoa (t / 1000000000); "oauth_nonce" := nonce; "oauth_version" := "1.0" ]}.

Definition oauth_pair (kv : string * string) : string := oauthEscape (fst kv) +++ "=" +++ oauthEscape (snd kv).
Definition base_string (method : string) (u : HttpURL) (oauth : gmap string string) : string :=
  to_upper method +++ "&" +++ oauthEscape (to_lower (hu_Scheme u) +++ "://" +++ to_lower (hu_Host u) +++ hu_Path u) +++ "&" +++
  oauthEscape (join "&" (sort_strings (map oauth_pair (map_to_list oauth ++ hu_Query u)))).

Definition quote : string := String "034" "".
Definition SignOAuth1 (method : string) (u : HttpURL) (realm : string) (c : oauth1Creds) (t : Z) (nonce : string) : string :=
  let oauth := oauth_params c t nonce in
  let key := oauthEscape (oa_ConsumerSecret c) +++ "&" +++ oauthEscape (oa_TokenSecret c) in
  let signed := <["oauth_signature" := base64_encode (at_hmac key (base_string method u oauth))]> oauth in
  fold_left (fun h k => h +++ ", " +++ k +++ "=" +++ quote +++ oauthEscape (default "" (signed !! k)) +++ quote)
    (sort_strings (elements (dom signed))) ("OAuth realm=" +++ quote +++ oauthEscape realm +++ quote).

(** ** Tokens *)

Context {S : Type} `{H : Http S}.

(** The authenticator and the world, under the authenticator's lock. *)
Definition U (A : Type) : Type := authenticator * S -> A * (authenticator * S).
#[export] Instance U_ret : MRet U := fun A a s => (a, s).
#[export] Instance U_bind : MBind U := fun A B k m s => let (a, s) := m s in k a s.

Definition self : U authenticator := fun s => (fst s, s).
Definition update (f : authenticator -> authenticator) : U unit := fun s => (tt, (f (fst s), snd s)).
Definition world {A} (f : S -> A * S) : U A := fun s => let (r, w) := f (snd s) in (r, (fst s, w)).

(** A token request: the form, the client's credentials in it or in a header, and the body
    of the answer. *)
Definition token_request (form : gmap string string) (url : string) : U request :=
  a ← self;
  let in_form := String.eqb (au_ClientAuth (ac_cfg a)) "body" in
  let form := if in_form then <["client_id" := ac_clientID a]> (<["client_secret" := ac_clientSecret a]> form) else form in
  let header := set_header "Accept" "application/json" (set_header "Content-Type" "application/x-www-form-urlencoded" ∅) in
  let header := if in_form then header
    else set_header "Authorization"
      ("Basic " +++ base64_encode (query_escape (ac_clientID a) +++ ":" +++ query_escape (ac_clientSecret a))) header in
  mret (mkRequest MethodPost url header (encode_query form) false).

Definition seconds (n : Z) : Z := wrap (n * 1000000000).
Definition minute : Z := 60000000000.
Definition token_life (expires_in : Z) : Z := if (seconds expires_in <=? 0)%Z then (60 * minute)%Z else seconds expires_in.

(** How long before its end a token is no longer used. *)
Definition margin (life : Z) : Z := if (life <? 4 * minute)%Z then Z.quot life 4 else minute.

(** A token that is still good. *)
Definition live (a : authenticator) (now : Z) : bool := negb (String.eqb (ac_token a) "") && (now <? ac_expires a)%Z.

(** What the token requests have in common after they are sent. *)
Definition answered (what url : string) (ans : answer) : failure + string :=
  match ans with
  | NoAnswer e => inl (Failed (Wrapf (Msg "%s: %w" [FStr what]) [e]))
  | Answer status _ _ body => if (status =? StatusOK)%Z then inr body else inl (APIError MethodPost url status (trim_space body))
  end.

(** [current]. *)
Definition current_token : U (failure + string) :=
  a ← self;
  now ← world http_now;
  if live a now then mret (inr (ac_token a))
  else
    let form := <["grant_type" := "client_credentials"]> (∅ : gmap string string) in
    let form := match au_Scopes (ac_cfg a) with [] => form | l => <["scope" := join " " l]> form end in
    req ← token_request form (au_TokenURL (ac_cfg a));
    ans ← world (http_do req);
    match answered "oauth2 token" (au_TokenURL (ac_cfg a)) ans with
    | inl f => mret (inl f)
    | inr body =>
        match at_token body with
        | None => mret (inl (Failed (Errorf (msg0 "oauth2 token: no access_token in the response"))))
        | Some (access, _, expires_in) =>
            if String.eqb access "" then mret (inl (Failed (Errorf (msg0 "oauth2 token: no access_token in the response"))))
            else
              let life := token_life expires_in in
              now ← world http_now;
              update (set_token access (now + (life - margin life)));;
              mret (inr access)
        end
    end.

(** [refreshGrant]: an answer that says the token is of no use any more, and the tokens of
    one that gives them. *)
Definition revoked (url : string) (ans : answer) : option failure :=
  match ans with
  | NoAnswer _ => None
  | Answer status _ _ body =>
      if negb (status =? StatusOK)%Z && contains_text "invalid_grant" (trim_space body)
      then Some (AnsweredWith status (Wrapf (msg0 "%w (the refresh token was revoked, expired or already spent: authorize the app again and put its new refresh token in the secret)")
             [failure_error (APIError MethodPost url status (trim_space body))]))
      else None
  end.

Definition granted (url : string) (ans : answer) : failure + (string * string * Z) :=
  match revoked url ans with
  | Some f => inl f
  | None =>
      match answered "oauth2 refresh" url ans with
      | inl f => inl f
      | inr body =>
          match at_token body with
          | None => inl (Failed (Errorf (msg0 "oauth2 refresh: no access_token in the response")))
          | Some (access, next, expires_in) =>
              if String.eqb access "" then inl (Failed (Errorf (msg0 "oauth2 refresh: no access_token in the response")))
              else inr (access, next, token_life expires_in)
          end
      end
  end.

Definition refreshGrant (refresh : string) : U (failure + (string * string * Z)) :=
  a ← self;
  req ← token_request (<["grant_type" := "refresh_token"]> (<["refresh_token" := refresh]> ∅)) (au_TokenURL (ac_cfg a));
  ans ← world (http_do req);
  mret (granted (au_TokenURL (ac_cfg a)) ans).

(** ** Stores of rotated tokens *)

(** A [TokenStore], as the two ends of its transaction: reading the value under the lock,
    and storing what the callback returned, if anything, and releasing it. *)
Class TokenStore := {
  ts_open : string -> S -> result (option string) * S;
  ts_close : string -> option string -> S -> option goerr * S
}.

Context `{K : TokenStore}.

(** [UpdateToken], with what the callback leaves behind besides the new value. *)
Definition UpdateToken {X} (key : string) (fn : option string -> U (failure + (option string * X))) : U (failure + X) :=
  cur ← world (ts_open key);
  match cur with
  | Err e => mret (inl (Failed e))
  | Ok cur =>
      r ← fn cur;
      match r with
      | inl f => mret (inl f)
      | inr (next, x) =>
          e ← world (ts_close key next);
          mret match e with Some e => inl (Failed e) | None => inr x end
      end
  end.

(** The token that an older release kept under another key. *)
Definition read_legacy (seed : string) : U (failure + option tokenState) :=
  a ← self;
  if String.eqb (ac_legacyKey a) "" then mret (inr None)
  else UpdateToken (ac_legacyKey a) (fun cur => mret (inr (None,
    match cur with
    | None => None
    | Some text =>
        match at_state text with
        | Some st => if String.eqb (tk_Seed st) seed && negb (String.eqb (tk_RefreshToken st) "") then Some st else None
        | None => None
        end
    end))).

(** The tokens in force, and whether they are to be stored: the stored ones, those of an
    older release, or the seed; and the rotation that the store missed. *)
Definition in_force (seed seed_token : string) (legacy : option tokenState) (cur : option string) : failure + (tokenState * bool) :=
  match match cur with
    | Some text => match at_state text with Some st => inr (st, false) | None => inl (Failed (Wrapf (msg0 "oauth2-refresh: the stored token is not readable: %w") [])) end
    | None => match legacy with Some st => inr (st, true) | None => inr (mkTokenState "" "" "" zero_time, false) end
    end with
  | inl f => inl f
  | inr (st, changed) =>
      if negb (String.eqb (tk_Seed st) seed) || String.eqb (tk_RefreshToken st) "" then inr (mkTokenState seed seed_token "" zero_time, true)
      else inr (st, changed)
  end.

Definition catch_up (st : tokenState) (changed : bool) : U (tokenState * bool) :=
  a ← self;
  match ac_pending a with
  | None => mret (st, changed)
  | Some p =>
      if String.eqb (tk_RefreshToken st) (ro_spent p) then mret (ro_state p, true)
      else update (set_pending None);; mret (st, changed)
  end.

(** Spending the refresh token, when the access token is of no use. *)
Definition needs_grant (a : authenticator) (st : tokenState) (now : Z) : bool :=
  String.eqb (tk_AccessToken st) "" || String.eqb (tk_AccessToken st) (ac_rejected a) || negb (now <? tk_Expires st)%Z.

Definition rotate (st : tokenState) (changed : bool) : U (failure + (tokenState * bool)) :=
  a ← self;
  now ← world http_now;
  if needs_grant a st now then
    r ← refreshGrant (tk_RefreshToken st);
    match r with
    | inl f => mret (inl f)
    | inr (access, next, life) =>
        now ← world http_now;
        let st' := mkTokenState (tk_Seed st) (if String.eqb next "" then tk_RefreshToken st else next) access (now + (life - margin life)) in
        let spent := match ac_pending a with Some p => ro_spent p | None => tk_RefreshToken st end in
        update (set_pending (Some (mkRotation spent st')));;
        mret (inr (st', true))
    end
  else mret (inr (st, changed)).

(** The callback of [refreshed]. *)
Definition refresh_with (seed : string) (legacy : option tokenState) (cur : option string) : U (failure + (option string * tokenState)) :=
  a ← self;
  match in_force seed (ac_refreshToken a) legacy cur with
  | inl f => mret (inl f)
  | inr (st, changed) =>
      c ← catch_up st changed;
      r ← rotate (fst c) (snd c);
      mret match r with
      | inl f => inl f
      | inr (st, changed) => inr (if changed : bool then Some (at_marshal_state st) else None, st)
      end
  end.

Definition ErrNoTokenStore : string := "oauth2-refresh keeps the refresh tokens the server rotates in Turgon's database: give the command --database-url (TURGON_DATABASE_URL) and set TURGON_TOKEN_KEYS".

Definition seed_hash (token : string) : string := hex_encode (fst (str_cut 8 (at_sha256 token))).

(** [refreshed]. *)
Definition refreshed : U (failure + string) :=
  a ← self;
  now ← world http_now;
  if live a now then mret (inr (ac_token a))
  else if negb (ac_tokens a) then mret (inl (Failed (Sentinel ErrNoTokenStore)))
  else
    let seed := seed_hash (ac_refreshToken a) in
    legacy ← read_legacy seed;
    match legacy with
    | inl f => mret (inl f)
    | inr legacy =>
        r ← UpdateToken (ac_tokenKey a) (refresh_with seed legacy);
        match r with
        | inl f => mret (inl f)
        | inr st =>
            update (fun a => set_token (tk_AccessToken st) (tk_Expires st) (set_pending None (set_keys (ac_tokens a) (ac_tokenKey a) "" a)));;
            mret (inr (tk_AccessToken st))
        end
    end.

(** [session]. *)
Definition cookie_header (keep : list string) (cookies : list (string * string)) : string :=
  join "; " (map (fun c => fst c +++ "=" +++ snd c)
    (List.filter (fun c => match keep with [] => true | _ => existsb (String.eqb (fst c)) keep end) cookies)).
Definition has_cookie (keep : list string) (cookies : list (string * string)) : bool :=
  existsb (fun c => match keep with [] => true | _ => existsb (String.eqb (fst c)) keep end) cookies.
Definition session_life (minutes : float64) : Z :=
  if PrimFloat.ltb 0%float minutes then float_trunc (minutes * float_of_Z minute)%float else (30 * minute)%Z.

Definition session : U (failure + string) :=
  a ← self;
  now ← world http_now;
  if live a now then mret (inr (ac_token a))
  else
    let url := au_LoginURL (ac_cfg a) in
    ans ← world (http_do (mkRequest MethodPost url
      (set_header "Accept" "application/json" (set_header "Content-Type" "application/json" ∅)) (ac_secret a) false));
    match answered "session login" url ans, ans with
    | inl f, _ => mret (inl f)
    | inr body, Answer _ _ cookies _ =>
        if has_cookie (au_Cookies (ac_cfg a)) cookies then
          let token := cookie_header (au_Cookies (ac_cfg a)) cookies in
          now ← world http_now;
          update (set_token token (now + Z.quot (wrap (session_life (at_timeout body) * 3)) 4));;
          mret (inr token)
        else mret (inl (Failed (Errorf (Msg "session login: %s set no session cookie" [FStr url]))))
    | inr _, NoAnswer e => mret (inl (Failed e))
    end.

(** [apply]: the request with its credentials. *)
Definition with_header (k v : string) (req : request) : request :=
  mkRequest (rq_method req) (rq_target req) (set_header k v (rq_header req)) (rq_body req) (rq_follow req).
Definition with_token (k prefix : string) (req : request) (m : U (failure + string)) : U (failure + request) :=
  t ← m; mret match t with inl f => inl f | inr t => inr (with_header k (prefix +++ t) req) end.

Definition apply (req : request) : U (failure + request) :=
  a ← self;
  let t := au_Type (ac_cfg a) in
  if String.eqb t "bearer" then mret (inr (with_header "Authorization" ("Bearer " +++ ac_secret a) req))
  else if String.eqb t "header" then mret (inr (with_header (au_Header (ac_cfg a)) (ac_secret a) req))
  else if String.eqb t "basic" then mret (inr (with_header "Authorization" ("Basic " +++ base64_encode (ac_secret a)) req))
  else if String.eqb t "oauth2" then with_token "Authorization" "Bearer " req current_token
  else if String.eqb t "oauth2-refresh" then with_token "Authorization" "Bearer " req refreshed
  else if String.eqb t "session" then with_token "Cookie" "" req session
  else if String.eqb t "oauth1" then
    now ← world http_now;
    random ← world (http_random 16);
    mret match at_url (rq_target req) with
    | Some u => inr (with_header "Authorization" (SignOAuth1 (rq_method req) u (au_Realm (ac_cfg a)) (ac_oauth1 a) now (hex_encode random)) req)
    | None => inr req
    end
  else mret (inr req).
End auth.
