(* ===== verification/Rest.v ===== *)
(** The REST connector: [src/pkg/connector/rest/rest.go], and the configuration of
    [webhook.go]. The API is outside: [Http] holds its answers. A Go map is the list of its
    entries in the order a loop meets them. *)

From S2P Require Import Turgon Prelude GoStr GoText GoErr GoTime GoDate Regex GuardData Guard Template Engine RestAuth.
From Stdlib Require Import Ascii String.

(** ** Configuration *)

Record Pagination := mkPagination { pn_Param : string; pn_Cursor : string; pn_More : string; pn_MaxPages : Z }.

Record WebhookConfig := mkWebhookConfig {
  wh_Signature : string;
  wh_SecretRef : string;
  wh_Header : string;
  wh_Encoding : string;
  wh_Prefix : string;
  wh_ToleranceSeconds : Z;
  wh_Items : string;
  wh_Filter : list (string * string)
}.

(** [Event] of the configuration; no body is [JNull]. *)
Record RestEvent := mkRestEvent {
  re_Method : string;
  re_Path : string;
  re_Params : list (string * string);
  re_Body : json;
  re_Items : string;
  re_ID : string;
  re_Position : string;
  re_PositionFormat : string;
  re_Order : string;
  re_Pagination : option Pagination;
  re_Headers : list (string * string);
  re_Webhook : option WebhookConfig
}.

Record Existing := mkExisting { ex_Path : string; ex_Params : list (string * string); ex_Items : string }.
Record Capture := mkCapture { ca_Path : string; ca_Result : string }.

Record Operation := mkOperation {
  op_Method : string;
  op_Path : string;
  op_Headers : list (string * string);
  op_IDFrom : string;
  op_Fields : list (string * string);
  op_Wrap : string;
  op_BodyFormat : string;
  op_Result : string;
  op_IdempotencyHeader : string;
  op_Capture : option Capture;
  op_Restore : bool;
  op_NullValue : option string;
  op_Constants : list (string * json);
  op_KeyField : string;
  op_Existing : option Existing
}.

Record Config := mkConfig {
  rc_BaseURL : string;
  rc_Auth : Auth;
  rc_Headers : list (string * string);
  rc_OpenAPI : string;
  rc_Events : list (string * RestEvent);
  rc_Operations : list (string * Operation)
}.

(** [UpdateResult]; each part is an object or nil. *)
Record UpdateResult := mkUpdateResult { up_Params : json; up_Previous : json; up_Applied : json; up_Response : json }.

(** ** Names *)

Definition letter (c : ascii) : bool := is_lower c || is_upper c.
Definition field_head (c : ascii) : bool := letter c || Ascii.eqb c "_".
Definition field_char (c : ascii) : bool := field_head c || is_digit c || Ascii.eqb c ".".
Definition api_head (c : ascii) : bool := field_head c || Ascii.eqb c "@".
Definition api_char (c : ascii) : bool := api_head c || field_char c || Ascii.eqb c "\".
Definition fieldRE : re := RSeq (RCls field_head) (RStar (RCls field_char)).
Definition apiFieldRE : re := RSeq (RCls api_head) (RStar (RCls api_char)).
Definition is_field (s : string) : bool := fullmatch fieldRE s.
Definition is_api_field (s : string) : bool := fullmatch apiFieldRE s.

(** A [{{name}}] of a template at the start of a text: its name, itself and what follows. *)
Definition hole (s : string) : option (string * string * string) :=
  match strip_prefix "{{" s with
  | None => None
  | Some r =>
      let (sp1, r) := span is_space r in
      match r with
      | String c _ =>
          if negb (field_head c) then None
          else
            let (name, r) := span field_char r in
            let (sp2, r) := span is_space r in
            match strip_prefix "}}" r with
            | Some r => Some (name, "{{" +++ sp1 +++ name +++ sp2 +++ "}}", r)
            | None => None
            end
      | "" => None
      end
  end.

(** A template: bytes, and variables with the text that names them. *)
Inductive piece := Byte (c : ascii) | Var (name raw : string).

Fixpoint pieces_of (fuel : nat) (s : string) : list piece :=
  match fuel with
  | O => []
  | S fuel =>
      match hole s with
      | Some (name, raw, rest) => Var name raw :: pieces_of fuel rest
      | None => match s with "" => [] | String c s => Byte c :: pieces_of fuel s end
      end
  end.
Definition pieces (tmpl : string) : list piece := pieces_of (String.length tmpl) tmpl.

(** ** JSON values *)

(** Decoding with [UseNumber], of which only the first value is read; into an
    [UpdateResult], where numbers are floats; encoding; and floats as [FormatFloat] and
    [ParseFloat] write and read them. *)
Class RestText := {
  rt_decode : string -> option json;
  rt_update : string -> option UpdateResult;
  rt_marshal : json -> string;
  rt_format : float64 -> string;
  rt_float : string -> float64
}.

(** [lookup]: through objects, and lists by number. *)
Fixpoint json_path (v : json) (path : list string) : json :=
  match path with
  | [] => v
  | p :: path =>
      match v with
      | JObj fields => json_path (json_field fields p) path
      | JArr l =>
          match atoi p with
          | Some i => if (i <? 0)%Z then JNull else json_path (default JNull (l !! Z.to_nat i)) path
          | None => JNull
          end
      | _ => JNull
      end
  end.
Definition lookup (v : json) (path : string) : json := if String.eqb path "" then v else json_path v (split_on "." path).

Definition entries (v : json) : list (string * json) := match v with JObj l => l | _ => [] end.
Definition is_map (v : json) : bool := match v with JObj _ => true | _ => false end.
Definition is_null (v : json) : bool := match v with JNull => true | _ => false end.

(** [m[k] = v]. *)
Fixpoint set_field (k : string) (v : json) (m : list (string * json)) : list (string * json) :=
  match m with
  | [] => [(k, v)]
  | (k', v') :: m => if String.eqb k' k then (k, v) :: m else (k', v') :: set_field k v m
  end.

(** [or]. *)
Definition or_else (v def : string) : string := if String.eqb v "" then def else v.

(** [emptyList]: the object that would hold the list is there. *)
Definition emptyList (resp : json) (path : string) : bool :=
  is_null (lookup resp path) &&
  match cut_last "." path with Some (before, _) => is_map (lookup resp before) | None => false end.

Section values.
Context `{T : RestText}.

(** [scalar]. *)
Definition scalar (v : json) : string :=
  match v with
  | JStr s => s
  | JNum lit => lit
  | JFloat f => rt_format f
  | JBool b => if b then "true" else "false"
  | _ => ""
  end.

(** [sameJSON]: both as they are read back, numbers as floats. *)
Fixpoint as_floats (v : json) : json :=
  match v with
  | JNum lit => JFloat (rt_float lit)
  | JArr l => JArr (map as_floats l)
  | JObj l => JObj (map (fun '(k, x) => (k, as_floats x)) l)
  | _ => v
  end.

Fixpoint deep_equal (a b : json) : bool :=
  match a, b with
  | JNull, JNull => true
  | JBool x, JBool y => Bool.eqb x y
  | JNum x, JNum y => String.eqb x y
  | JFloat x, JFloat y => PrimFloat.eqb x y
  | JStr x, JStr y => String.eqb x y
  | JArr l, JArr m =>
      (fix all l m := match l, m with
       | [], [] => true
       | x :: l, y :: m => deep_equal x y && all l m
       | _, _ => false
       end) l m
  | JObj l, JObj m =>
      Nat.eqb (List.length l) (List.length m) &&
      (fix all l := match l with
       | [] => true
       | (k, x) :: l => match find_first (fun f => String.eqb (fst f) k) m with Some (_, y) => deep_equal x y | None => false end && all l
       end) l
  | _, _ => false
  end.
Definition sameJSON (a b : json) : bool := deep_equal (as_floats a) (as_floats b).

(** ** Templates *)

Definition double_quotes : string -> string :=
  fix go s := match s with
    | "" => ""
    | String c s => if Ascii.eqb c "'" then String c (String c (go s)) else String c (go s)
    end.

(** The loop of [renderWith]: the text, the values used, and the names without a value. *)
Fixpoint render_pieces (escape : string -> string) (vars : json) (quoted : bool) (ps : list piece)
    : string * list (string * json) * list string :=
  match ps with
  | [] => ("", [], [])
  | Byte c :: ps =>
      let '(out, used, missing) := render_pieces escape vars (xorb quoted (Ascii.eqb c "'")) ps in
      (String c out, used, missing)
  | Var name _ :: ps =>
      let '(out, used, missing) := render_pieces escape vars quoted ps in
      let v := lookup vars name in
      let s := scalar v in
      if existsb (String.eqb s) [""; "."; ".."] then (out, used, name :: missing)
      else (escape (if quoted then double_quotes s else s) +++ out, set_field name v used, missing)
  end.

(** [renderWith] and [render]. *)
Definition renderWith (tmpl : string) (vars : json) (escape : string -> string) : result (string * json) :=
  let '(out, used, missing) := render_pieces escape vars false (pieces tmpl) in
  match missing with
  | [] => Ok (out, JObj used)
  | _ => Err (Wrapf (Msg "%w: path %s needs %s (not empty, ., or ..)" [FStr tmpl; FStr (join ", " missing)]) [Sentinel ErrInvalid])
  end.
Definition render (tmpl : string) (vars : json) : result (string * json) := renderWith tmpl vars path_escape.

(** ** Bodies *)

(** [nest]: the parts of a dotted key, where a backslash keeps a dot. *)
Fixpoint hide_dots (s : string) : string :=
  match s with
  | String "\" (String "." s) => String "000" (hide_dots s)
  | String c s => String c (hide_dots s)
  | "" => ""
  end.
Definition key_parts (k : string) : list string := map (replace_byte "000" ".") (split_on "." (hide_dots k)).

Fixpoint nest_at (parts : list string) (v : json) (m : list (string * json)) : list (string * json) :=
  match parts with
  | [] => m
  | [p] => set_field p v m
  | p :: parts => set_field p (JObj (nest_at parts v (entries (json_field m p)))) m
  end.
Definition nest (flat : list (string * json)) : list (string * json) :=
  fold_left (fun m kv => nest_at (key_parts (fst kv)) (snd kv) m) flat [].

(** [replaceNull]. *)
Fixpoint replaceNull (with_ : string) (v : json) : json :=
  match v with
  | JNull => JStr with_
  | JArr l => JArr (map (replaceNull with_) l)
  | JObj l => JObj (map (fun '(k, x) => (k, replaceNull with_ x)) l)
  | _ => v
  end.

(** [encodeForm]. *)
Fixpoint form_pairs (prefix : string) (v : json) : list (string * string) :=
  match v with
  | JObj l => List.concat (map (fun '(k, x) => form_pairs (if String.eqb prefix "" then k else prefix +++ "[" +++ k +++ "]") x) l)
  | JArr l =>
      (fix go (i : Z) l := match l with
       | [] => []
       | x :: l => form_pairs (prefix +++ "[" +++ itoa i +++ "]") x ++ go (i + 1)%Z l
       end) 0%Z l
  | JNull => [(prefix, "")]
  | v => [(prefix, scalar v)]
  end.
Definition encodeForm (v : json) : gmap string string := fold_left (fun m kv => <[fst kv := snd kv]> m) (form_pairs "" v) ∅.

Inductive body := NoBody | JsonBody (v : json) | FormBody (v : json).

(** [values]: the API fields of a write. *)
Fixpoint mapped_values (doc : json) (fields : list (string * string)) : result (list (string * json)) :=
  match fields with
  | [] => Ok []
  | (api, field) :: fields =>
      match lookup doc field with
      | JNull => Err (Wrapf (Msg "%w: payload has no %s for %s" [FStr field; FStr api]) [Sentinel ErrInvalid])
      | v => let! b := mapped_values doc fields in Ok ((api, v) :: b)
      end
  end.
Definition values (op : Operation) (doc : json) : result json :=
  match op_Fields op with
  | [] => match op_Constants op with [] => Ok doc | _ => Ok (JObj []) end
  | fields => let! b := mapped_values doc fields in Ok (JObj b)
  end.

(** [request]: the body of a write. *)
Definition is_nil {A} (l : list A) : bool := match l with [] => true | _ => false end.
Definition merge_constants (op : Operation) (vals : json) : json :=
  if negb (is_nil (op_Constants op)) && negb (op_Restore op)
  then JObj (fold_left (fun m kv => set_field (fst kv) (snd kv) m) (op_Constants op) (entries vals))
  else vals.
Definition wrapped (op : Operation) (v : json) : json := if String.eqb (op_Wrap op) "" then v else JObj [(op_Wrap op, v)].
Definition op_request (op : Operation) (vals : json) : body :=
  if String.eqb (op_BodyFormat op) "none" then NoBody
  else
    let vals := merge_constants op vals in
    let v := if negb (is_nil (op_Fields op)) || negb (is_nil (op_Constants op)) || op_Restore op then JObj (nest (entries vals)) else vals in
    if String.eqb (op_BodyFormat op) "form" then FormBody (wrapped op (JObj (entries v)))
    else match op_NullValue op with
      | Some with_ => JsonBody (replaceNull with_ (wrapped op (JObj (entries v))))
      | None => JsonBody (wrapped op v)
      end.

(** [previous]. *)
Definition previous (rec vals : json) : json := JObj (map (fun kv => (fst kv, lookup rec (fst kv))) (entries vals)).

(** [idFrom]. *)
Definition drop_last (s : string) : string := str_rev (snd (str_cut 1 (str_rev s))).
Definition trim_with (c : ascii) : string -> string :=
  fix go s := match s with String a r => if Ascii.eqb a c then go r else s | "" => "" end.
Definition trim_end (c : ascii) (s : string) : string := str_rev (trim_with c (str_rev s)).
Definition idFrom (u : string) : string :=
  let u := trim_end "/" u in
  let last := match cut_last "/" u with Some (_, r) => r | None => u end in
  if has_suffix ")" u then
    match cut_last "(" u with
    | Some (_, r) => trim_end "'" (trim_with "'" (drop_last r))
    | None => last
    end
  else last.

(** ** Positions *)

(** [formatPosition]. *)
Definition formatPosition (pos : Z) (format : string) : string :=
  if String.eqb format "msjson" then "/Date(" +++ itoa pos +++ "+0000)/"
  else if String.eqb format "rfc3339" then format_rfc3339 pos
  else if String.eqb format "unix" then itoa (Z.quot pos 1000)
  else itoa pos.

(** [msjsonRE]: the milliseconds of a match. *)
Definition msjson_end (s : string) : bool :=
  match s with
  | ")/" => true
  | String sg (String a (String b (String c (String d ")/")))) => (Ascii.eqb sg "+" || Ascii.eqb sg "-") && str_all is_digit (String a (String b (String c (String d ""))))
  | _ => false
  end.
Definition msjson (s : string) : option string :=
  match strip_prefix "/Date(" s with
  | None => None
  | Some r =>
      let (sign, r) := match r with String "-" r' => ("-", r') | _ => ("", r) end in
      let (ds, r) := span is_digit r in
      if negb (String.eqb ds "") && msjson_end r then Some (sign +++ ds) else None
  end.

(** [parsePosition]. *)
Definition parse_int (s : string) : result Z :=
  match atoi s with Some n => Ok n | None => Err (Errorf (Msg "strconv.ParseInt: parsing %q" [FStr s])) end.
Definition parsePosition (v : json) (format : string) : result Z :=
  let s := scalar v in
  if String.eqb format "msjson" then
    match msjson s with
    | Some n => parse_int n
    | None => Err (Errorf (Msg "%q is not a /Date(milliseconds)/ value" [FStr s]))
    end
  else if String.eqb format "rfc3339" then
    match parse_rfc3339 s with Some ms => Ok ms | None => Err (Errorf (Msg "parsing time %q" [FStr s])) end
  else if String.eqb format "unix" then let! n := parse_int s in Ok (wrap (n * 1000))
  else parse_int s.

(** ** Lists of events *)

(** The variables of [listRequest]. *)
Definition fill (e : RestEvent) (after limit : Z) (tmpl : string) : string :=
  String.concat "" (map (fun p => match p with
    | Byte c => String c ""
    | Var name raw =>
        if String.eqb name "position" then formatPosition after (re_PositionFormat e)
        else if String.eqb name "positionMillis" then itoa after
        else if String.eqb name "positionTime" then format_time_T after
        else if String.eqb name "limit" then itoa limit
        else raw
    end) (pieces tmpl)).

(** [fillBody]. *)
Fixpoint fillBody (e : RestEvent) (after limit : Z) (v : json) : json :=
  match v with
  | JObj l => JObj (map (fun '(k, x) => (k, fillBody e after limit x)) l)
  | JArr l => JArr (map (fillBody e after limit) l)
  | JStr s =>
      match pieces s with
      | [Var name _] => if String.eqb name "limit" then JNum (itoa limit) else JStr (fill e after limit s)
      | _ => JStr (fill e after limit s)
      end
  | v => v
  end.

(** [listRequest] and [headers]. *)
Definition listRequest (e : RestEvent) (after limit : Z) : string * gmap string string * body :=
  let q := fold_left (fun q kv => <[fst kv := fill e after limit (snd kv)]> q) (re_Params e) ∅ in
  if String.eqb (re_Method e) "POST"
  then ("POST", q, JsonBody (match fillBody e after limit (re_Body e) with JNull => JObj [] | v => v end))
  else ("GET", q, NoBody).
Definition event_headers (e : RestEvent) (after limit : Z) : Header :=
  fold_left (fun h kv => set_header (fst kv) (fill e after limit (snd kv)) h) (re_Headers e) ∅.

(** One item of a page. *)
Definition event_of (e : RestEvent) (name : string) (item : json) : result Event :=
  let idField := or_else (re_ID e) "id" in
  let posField := or_else (re_Position e) idField in
  let id := scalar (lookup item idField) in
  let bad := Err (Errorf (Msg "rest: %s: item without a usable %s/%s: %v" [FStr (re_Path e); FStr idField; FStr posField])) in
  match parsePosition (lookup item posField) (re_PositionFormat e) with
  | Err _ => bad
  | Ok pos => if String.eqb id "" then bad else Ok (mkSourceEvent id pos name (rt_marshal item))
  end.

(** The loop over a page's items: the new events, whether the position was reached, and the
    last item. *)
Fixpoint page_events (e : RestEvent) (name : string) (after : Z) (items : list json) (reached : bool) (last : json)
    : result (list Event * bool * json) :=
  match items with
  | [] => Ok ([], reached, last)
  | item :: items =>
      if negb (is_map item) then Err (Errorf (Msg "rest: %s: items must be objects" [FStr (re_Path e)]))
      else
        let! ev := event_of e name item in
        if (sev_Position ev <=? after)%Z then page_events e name after items true item
        else
          let! '(evs, reached, last) := page_events e name after items reached item in
          Ok (ev :: evs, reached, last)
  end.

(** The group of events at the end of a batch that share its last position is left out,
    unless it is all of it. *)
Fixpoint drop_while {A} (p : A -> bool) (l : list A) : list A :=
  match l with [] => [] | x :: r => if p x then drop_while p r else l end.
Definition leave_group (events : list Event) : list Event :=
  match List.rev events with
  | [] => []
  | last :: _ =>
      match drop_while (fun ev => (sev_Position ev =? sev_Position last)%Z) (List.rev events) with
      | [] => events
      | kept => List.rev kept
      end
  end.

(** The end of [Poll]: the events in position order, cut to the limit. *)
Definition by_position (events : list Event) : list Event := isort (fun x y => (sev_Position x <=? sev_Position y)%Z) events.
Definition cut_batch (e : RestEvent) (limit : Z) (truncated : bool) (events : list Event) : list Event :=
  let events := by_position events in
  let over := (limit <? Z.of_nat (List.length events))%Z in
  let events := if over then List.firstn (Z.to_nat limit) events else events in
  if (over || truncated) && negb (existsb (String.eqb (re_PositionFormat e)) [""; "number"]) then leave_group events else events.
End values.

(** ** Validation *)

Section validation.
Context `{A : AuthText}.

Definition first_of (l : list (option goerr)) : option goerr := first_error id l.
Definition unless (ok : bool) (e : goerr) : option goerr := if ok then None else Some e.
Definition one_of (s : string) (l : list string) : bool := existsb (String.eqb s) l.

(** [WebhookConfig.validate]. *)
Definition validate_webhook (w : WebhookConfig) : option goerr :=
  first_of [
    if one_of (wh_Signature w) ["stripe"; "shopify"] then None
    else if String.eqb (wh_Signature w) "hmac-sha256" then
      if String.eqb (wh_Header w) "" then Some (Errorf (msg0 "an hmac-sha256 signature needs its header"))
      else unless (one_of (wh_Encoding w) [""; "hex"; "base64"]) (Errorf (msg0 "encoding must be hex or base64"))
    else Some (Errorf (Msg "signature must be stripe, shopify or hmac-sha256, not %q" [FStr (wh_Signature w)]));
    unless (negb (String.eqb (wh_SecretRef w) "")) (Errorf (msg0 "secretRef is required: deliveries are only accepted when signed"));
    first_error (fun kv => unless (is_field (fst kv)) (Errorf (Msg "invalid filter field %q" [FStr (fst kv)]))) (wh_Filter w)].

(** [checkHeaders]. *)
Definition checkHeaders (c : Config) (where_ : string) (h : list (string * string)) : option goerr :=
  first_error (fun kv =>
    unless (negb (equal_fold (fst kv) "Authorization" || (negb (String.eqb (au_Header (rc_Auth c)) "") && equal_fold (fst kv) (au_Header (rc_Auth c)))))
      (Errorf (Msg "%sheader %s carries a credential; use the connection's secret" [FStr where_; FStr (fst kv)]))) h.

Definition event_error (name format : string) : goerr := Errorf (Msg format [FStr name]).
Definition check_event (c : Config) (ne : string * RestEvent) : option goerr :=
  let (name, e) := ne in
  first_of [
    unless (has_prefix "/" (re_Path e)) (event_error name "event %s: path must start with /");
    if one_of (re_Method e) [""; "GET"] then unless (is_null (re_Body e)) (event_error name "event %s: a GET list has no body")
    else unless (String.eqb (re_Method e) "POST") (event_error name "event %s: method must be GET or POST");
    unless (one_of (re_PositionFormat e) [""; "number"; "rfc3339"; "unix"; "msjson"])
      (event_error name "event %s: positionFormat must be number, rfc3339, unix or msjson");
    if one_of (re_Order e) [""; "asc"] then None
    else if String.eqb (re_Order e) "desc" then unless (is_some (re_Pagination e)) (event_error name "event %s: a descending list needs pagination to reach the cursor")
    else Some (event_error name "event %s: order must be asc or desc");
    match re_Pagination e with
    | Some p => unless (negb (String.eqb (pn_Param p) "" || String.eqb (pn_More p) "")) (event_error name "event %s: pagination needs param and more")
    | None => None
    end;
    checkHeaders c ("event " +++ name +++ ": ") (re_Headers e);
    match re_Webhook e with
    | Some w => match validate_webhook w with Some err => Some (Wrapf (Msg "event %s: webhook: %w" [FStr name]) [err]) | None => None end
    | None => None
    end].

Definition op_error (name format : string) : goerr := Errorf (Msg format [FStr name]).
Definition check_constant (op : Operation) (name : string) (kv : string * json) : option goerr :=
  let api := fst kv in
  first_of [
    unless (is_api_field api) (Errorf (Msg "operation %s: invalid constant field %q" [FStr name; FStr api]));
    first_error (fun ff => let f := fst ff in
      unless (negb (String.eqb f api || has_prefix (api +++ ".") f || has_prefix (f +++ ".") api))
        (Errorf (Msg "operation %s: constant %s overlaps the mapped field %s" [FStr name; FStr api; FStr f]))) (op_Fields op)].
Definition has_key {X} (k : string) (l : list (string * X)) : bool := existsb (fun kv => String.eqb (fst kv) k) l.
Definition check_key_field (op : Operation) (name : string) : option goerr :=
  let k := op_KeyField op in
  if String.eqb k "" then None
  else first_of [
    unless (is_api_field k && one_of (op_Method op) ["POST"; "PUT"; "PATCH"]) (op_error name "operation %s: keyField must be an API field of a POST, PUT or PATCH");
    unless (negb (has_key k (op_Fields op))) (Errorf (Msg "operation %s: keyField %s is also mapped" [FStr name; FStr k]));
    unless (negb (has_key k (op_Constants op))) (Errorf (Msg "operation %s: keyField %s is also a constant" [FStr name; FStr k]))].

Definition check_operation (c : Config) (no : string * Operation) : option goerr :=
  let (name, op) := no in
  first_of [
    unless (has_prefix "/" (op_Path op)) (op_error name "operation %s: path must start with /");
    if String.eqb (op_Method op) "GET" then
      unless (contains_text "{{id}}" (op_Path op) || contains_text "{{ id }}" (op_Path op)) (op_error name "operation %s: a read's path must contain {{id}}")
    else unless (one_of (op_Method op) ["POST"; "PUT"; "PATCH"; "DELETE"]) (op_error name "operation %s: method must be GET, POST, PUT, PATCH or DELETE");
    checkHeaders c ("operation " +++ name +++ ": ") (op_Headers op);
    unless (one_of (op_IDFrom op) [""; "Location"; "OData-EntityId"]) (op_error name "operation %s: idFrom must be Location or OData-EntityId");
    first_error (fun af => unless (is_api_field (fst af) && is_field (snd af))
      (Errorf (Msg "operation %s: invalid field mapping %q: %q" [FStr name; FStr (fst af); FStr (snd af)]))) (op_Fields op);
    first_error (check_constant op name) (op_Constants op);
    check_key_field op name;
    match op_Capture op with
    | Some ca => unless (negb (is_nil (op_Fields op)) && has_prefix "/" (ca_Path ca)) (op_error name "operation %s: capture needs fields and a path")
    | None => None
    end;
    match op_Existing op with
    | Some e => first_of [
        unless (has_prefix "/" (ex_Path e) && negb (String.eqb (ex_Items e) "")) (op_error name "operation %s: existing needs a path and items");
        unless (one_of (op_Method op) ["POST"; "PUT"]) (op_error name "operation %s: existing finds a created record, so the operation must POST or PUT")]
    | None => None
    end;
    unless (negb (op_Restore op && String.eqb (op_Method op) "GET")) (op_error name "operation %s: restore must write");
    if one_of (op_BodyFormat op) [""; "json"] then None
    else if String.eqb (op_BodyFormat op) "none" then
      unless (is_nil (op_Fields op) && is_nil (op_Constants op) && String.eqb (op_KeyField op) "" && negb (is_some (op_Capture op)) && negb (op_Restore op))
        (op_error name "operation %s: a request without a body has no fields, constants or keyField")
    else if String.eqb (op_BodyFormat op) "form" then
      unless (negb (is_some (op_NullValue op))) (op_error name "operation %s: a form body sends null as empty already; nullValue is for JSON bodies")
    else Some (op_error name "operation %s: bodyFormat must be json, form or none")].

(** [Config.validate]. *)
Definition validate (c : Config) : option goerr :=
  match http_url (rc_BaseURL c) with
  | None => Some (Errorf (Msg "baseURL %q must be an http(s) URL" [FStr (rc_BaseURL c)]))
  | Some u => first_of [
      validate_auth (rc_Auth c);
      SameOrigin (rc_Auth c) u;
      if String.eqb (rc_OpenAPI c) "" then None
      else unless (is_some (http_url (rc_OpenAPI c))) (Errorf (Msg "openapi %q must be an http(s) URL" [FStr (rc_OpenAPI c)]));
      checkHeaders c "" (rc_Headers c);
      first_error (check_event c) (rc_Events c);
      first_error (check_operation c) (rc_Operations c)]
  end.

(** [New]: the configuration in use, and its authenticator. *)
Definition New (c : Config) (secret : string) : result (Config * authenticator) :=
  match validate c with
  | Some e => Err e
  | None =>
      let! a := newAuthenticator (rc_Auth c) secret in
      Ok (mkConfig (trim_end "/" (rc_BaseURL c)) (rc_Auth c) (rc_Headers c) (rc_OpenAPI c) (rc_Events c) (rc_Operations c), a)
  end.
End validation.

(** [UseTokens]. *)
Definition UseTokens `{A : AuthText} (c : Config) (endpoint : string) (a : authenticator) : authenticator :=
  useTokens ("rest/" +++ or_else endpoint (rc_BaseURL c)) a.

(** ** Requests *)

Section conn.
Context `{A : AuthText} `{T : RestText} {S : Type} `{H : Http S} `{K : !TokenStore (S := S)} (cfg : Config).

(** Steps that may fail. *)
Definition then_ {X Y} (m : U (S := S) (failure + X)) (k : X -> U (S := S) (failure + Y)) : U (S := S) (failure + Y) :=
  r ← m; match r with inl f => mret (inl f) | inr x => k x end.
Definition lift {X} (r : result X) : U (S := S) (failure + X) :=
  mret match r with Ok x => inr x | Err e => inl (Failed e) end.
Definition answer_ {X} (x : X) : U (S := S) (failure + X) := mret (inr x).
Definition refuse {X} (e : goerr) : U (S := S) (failure + X) := mret (inl (Failed e)).
#[local] Notation "'try' x ':=' m 'in' k" := (then_ m (fun x => k)) (at level 10, x name, m at level 200, k at level 200).
#[local] Notation "'try' ' p ':=' m 'in' k" := (then_ m (fun x => match x with p => k end)) (at level 10, p pattern, m at level 200, k at level 200).

Definition ellipsis : string := bytes [226; 128; 166]%N.
Definition short_message (s : string) : string := if Nat.ltb 300 (String.length s) then fst (str_cut 300 s) +++ ellipsis else s.

(** The request of [doH], without its credentials. *)
Definition payload_of (b : body) : string :=
  match b with NoBody => "" | JsonBody v => rt_marshal v | FormBody v => encode_query (encodeForm v) end.
Definition content_type (b : body) : string := match b with FormBody _ => "application/x-www-form-urlencoded" | _ => "application/json" end.
Definition unsigned (method path : string) (query : gmap string string) (header : Header) (b : body) : request :=
  let target := rc_BaseURL cfg +++ path +++ (if bool_decide (query = ∅) then "" else "?" +++ encode_query query) in
  let h := set_header "Accept" "application/json" ∅ in
  let h := match b with NoBody => h | _ => set_header "Content-Type" (content_type b) h end in
  let h := fold_left (fun h kv => set_header (fst kv) (snd kv) h) (rc_Headers cfg) h in
  mkRequest method target (header ∪ h) (payload_of b) true.

(** One attempt: the request as it was sent, and its answer. *)
Definition attempt (req : request) : U (failure + (request * answer)) :=
  try sent := apply req in
  ans ← world (http_do sent);
  answer_ (sent, ans).

Definition stale (ans : answer) : bool := match ans with Answer status _ _ _ => (status =? StatusUnauthorized)%Z | NoAnswer _ => false end.

(** [doH]: a credential that was refused is fetched again, once. *)
Definition doH (method path : string) (query : gmap string string) (header : Header) (b : body) : U (failure + (Header * json)) :=
  let req := unsigned method path query header b in
  try '(sent, ans) := attempt req in
  a ← self;
  try ans := (if stale ans && refreshable a then
                update (invalidate (Some sent));;
                try '(_, ans) := attempt req in answer_ ans
              else answer_ ans) in
  mret match ans with
  | NoAnswer e => inl (Failed (Wrapf (Msg "%s %s: %w" [FStr method; FStr path]) [e]))
  | Answer status h _ data =>
      if (300 <=? status)%Z then inl (APIError method path status (short_message (trim_space data)))
      else if String.eqb (trim_space data) "" then inr (h, JNull)
      else match rt_decode data with
        | Some v => inr (h, v)
        | None => inl (Failed (Errorf (msg0 "the answer is not JSON")))
        end
  end.
Definition do_ (method path : string) (query : gmap string string) (header : Header) (b : body) : U (failure + json) :=
  try '(_, v) := doH method path query header b in answer_ v.

(** [permanent] and [classify]. *)
Definition permanent (status : Z) : bool :=
  negb (existsb (Z.eqb status) [408; 409; 425; 429]%Z) && (400 <=? status)%Z && (status <? 500)%Z.
Definition classify_failure (f : failure) : failure :=
  match f with
  | AnsweredWith status e => if permanent status then Failed (Wrapf (Msg "%w: %v" [FErr e]) [Sentinel ErrInvalid]) else f
  | Failed _ => f
  end.
Definition classify {X} (m : U (S := S) (failure + X)) : U (failure + X) :=
  r ← m; mret match r with inl f => inl (classify_failure f) | inr x => inr x end.

(** ** Polling *)

Definition find_named {X} (name : string) (l : list (string * X)) : option X :=
  match find_first (fun x => String.eqb (fst x) name) l with Some (_, x) => Some x | None => None end.

Definition items_of (e : RestEvent) (resp : json) : result (list json) :=
  match lookup resp (re_Items e) with
  | JArr l => Ok l
  | _ => if emptyList resp (re_Items e) then Ok [] else Err (Errorf (Msg "rest: %s: response has no item array at %q" [FStr (re_Path e); FStr (re_Items e)]))
  end.

(** How many pages a poll reads. *)
Definition max_pages (e : RestEvent) : nat :=
  match re_Pagination e with
  | Some p => if String.eqb (re_Order e) "desc" then (if (pn_MaxPages p <=? 0)%Z then 20 else Z.to_nat (pn_MaxPages p)) else 1
  | None => 1
  end.

(** The loop of [Poll] over pages, with as many more pages as it may read: the events, and
    whether the batch was cut short. *)
Fixpoint poll_pages (e : RestEvent) (name : string) (after limit : Z) (more_pages : nat)
    (method : string) (q : gmap string string) (b : body) (events : list Event) : U (failure + (list Event * bool)) :=
  try resp := do_ method (re_Path e) q (event_headers e after limit) b in
  try items := lift (items_of e resp) in
  try '(evs, reached, last) := lift (page_events e name after items false JNull) in
  let events := events ++ evs in
  if negb (String.eqb (re_Order e) "desc") then answer_ (events, (limit <=? Z.of_nat (List.length items))%Z)
  else
    let p := default (mkPagination "" "" "" 0) (re_Pagination e) in
    let more := match lookup resp (pn_More p) with JBool b => b | _ => false end in
    if reached || negb more || is_null last then answer_ (events, false)
    else match more_pages with
      | O => refuse (Errorf (Msg "rest: %s: more than %d pages of new items; raise pagination.maxPages or poll more often"
               [FStr (re_Path e); FInt (Z.of_nat (max_pages e))]))
      | Datatypes.S n =>
          let q := <[pn_Param p := scalar (lookup last (or_else (pn_Cursor p) (or_else (re_ID e) "id")))]> q in
          poll_pages e name after limit n method q b events
      end.

(** [Poll]. *)
Definition Poll_rest (name : string) (after limit : Z) : U (failure + list Event) :=
  match find_named name (rc_Events cfg) with
  | None => refuse (Errorf (Msg "rest: event %q is not configured on this connection" [FStr name]))
  | Some e =>
      let '(method, q, b) := listRequest e after limit in
      try '(events, truncated) := poll_pages e name after limit (max_pages e - 1) method q b [] in
      answer_ (cut_batch e limit truncated events)
  end.

(** ** Writes *)

(** [operation]. *)
Definition operation (name : string) : result Operation :=
  match find_named name (rc_Operations cfg) with
  | Some op => Ok op
  | None => Err (Wrapf (Msg "%w: operation %q is not configured on this connection" [FStr name]) [Sentinel ErrInvalid])
  end.

(** [decodePayload]; null is a nil map. *)
Definition decodePayload (payload : string) : result json :=
  match rt_decode payload with
  | Some (JObj l) => Ok (JObj l)
  | Some JNull => Ok JNull
  | _ => Err (Wrapf (msg0 "%w: payload is not a JSON object: %v") [Sentinel ErrInvalid])
  end.

(** [existing]: the parameters of the lookup, and the first record it lists. *)
Fixpoint render_params (vars : json) (params : list (string * string)) : result (gmap string string) :=
  match params with
  | [] => Ok ∅
  | (k, tmpl) :: params =>
      let! '(v, _) := renderWith tmpl vars id in
      let! q := render_params vars params in
      Ok (<[k := v]> q)
  end.

Definition first_record (e : Existing) (resp : json) : result (option json) :=
  let no_list := Err (Errorf (Msg "rest: the lookup for an existing record answered without a list at %q" [FStr (ex_Items e)])) in
  match lookup resp (ex_Items e) with
  | JArr [] => Ok None
  | JArr (rec :: _) => if is_map rec then Ok (Some rec) else Err (Errorf (msg0 "rest: the lookup for an existing record listed a non-object"))
  | _ => if emptyList resp (ex_Items e) then Ok None else no_list
  end.

Definition existing (e : Existing) (vars : json) : U (failure + option json) :=
  try '(path, _) := lift (render (ex_Path e) vars) in
  try q := lift (render_params vars (ex_Params e)) in
  try resp := classify (do_ "GET" path q ∅ NoBody) in
  lift (first_record e resp).

(** [current]: the record a captured update changes. *)
Definition current (ca : Capture) (vars : json) : U (failure + json) :=
  try '(path, _) := lift (render (ca_Path ca) vars) in
  try resp := classify (do_ "GET" path ∅ ∅ NoBody) in
  match lookup resp (ca_Result ca) with
  | JObj l => answer_ (JObj l)
  | _ => refuse (Errorf (Msg "rest: %s: no record at %q" [FStr path; FStr (ca_Result ca)]))
  end.

(** [Simulate]. *)
Definition Simulate (name payload : string) : U (failure + string) :=
  try op := lift (operation name) in
  match op_Capture op with
  | None =>
      if op_Restore op || one_of (op_Method op) ["DELETE"; "GET"] then refuse (Sentinel ErrSimulationUnsupported)
      else
        try doc := lift (decodePayload payload) in
        try vals := lift (values op doc) in
        let b := match op_request op vals with NoBody => JNull | JsonBody v | FormBody v => v end in
        answer_ (rt_marshal (JObj [("mode", JStr "request"); ("request", JStr (op_Method op +++ " " +++ op_Path op)); ("body", b)]))
  | Some ca =>
      try doc := lift (decodePayload payload) in
      try vals := lift (values op doc) in
      try rec := current ca doc in
      try '(path, _) := lift (render (op_Path op) doc) in
      answer_ (rt_marshal (JObj [("mode", JStr "preview"); ("request", JStr (op_Method op +++ " " +++ path));
        ("current", previous rec vals); ("proposed", vals)]))
  end.

(** What [Commit] sends: the variables of its path, the body, the values, and the captured
    ones. *)
Record prepared := mkPrepared { pr_vars : json; pr_body : body; pr_vals : json; pr_captured : option json }.

Definition with_key_field (op : Operation) (name key : string) (vals : json) : result json :=
  if String.eqb (op_KeyField op) "" then Ok vals
  else if String.eqb key "" then
    Err (Wrapf (Msg "%w: %s stores the idempotency key in %s, and the write has none" [FStr name; FStr (op_KeyField op)]) [Sentinel ErrInvalid])
  else Ok (JObj (set_field (op_KeyField op) (JStr key) (entries vals))).

Definition prepare (op : Operation) (name key payload : string) (doc : json) : U (failure + prepared) :=
  if op_Restore op then
    match rt_update payload with
    | Some r =>
        if is_null (up_Params r) || is_null (up_Previous r) then refuse (Wrapf (msg0 "%w: restore needs a captured update's result") [Sentinel ErrInvalid])
        else answer_ (mkPrepared (up_Params r) (op_request op (up_Previous r)) JNull None)
    | None => refuse (Wrapf (msg0 "%w: restore needs a captured update's result") [Sentinel ErrInvalid])
    end
  else if String.eqb (op_Method op) "DELETE" then answer_ (mkPrepared doc NoBody JNull None)
  else
    try vals := lift (values op doc) in
    try sent := lift (with_key_field op name key vals) in
    match op_Capture op with
    | None => answer_ (mkPrepared doc (op_request op sent) vals None)
    | Some ca => try rec := current ca doc in answer_ (mkPrepared doc (op_request op sent) vals (Some (previous rec vals)))
    end.

Definition with_key (op : Operation) (key : string) (vars : json) : json :=
  if negb (String.eqb key "") && (contains_text "idempotencyKey" (op_Path op) || is_some (op_Existing op))
  then JObj (set_field "idempotencyKey" (JStr key) (entries vars)) else vars.

Definition headers_of (h : list (string * string)) : Header := fold_left (fun h kv => set_header (fst kv) (snd kv) h) h ∅.
Definition write_headers (op : Operation) (key : string) : Header :=
  if negb (String.eqb (op_IdempotencyHeader op) "") && negb (String.eqb key "")
  then set_header (op_IdempotencyHeader op) key (headers_of (op_Headers op)) else headers_of (op_Headers op).

(** The record of an answer, and what [Commit] returns for it. *)
Definition written (op : Operation) (name : string) (h : Header) (resp : json) : result json :=
  let result := lookup resp (op_Result op) in
  if negb (String.eqb (op_IDFrom op) "") && is_null result then
    let u := get_header h (op_IDFrom op) in
    if String.eqb u "" then Err (Errorf (Msg "rest: %s answered without a body or a %s header" [FStr name; FStr (op_IDFrom op)]))
    else Ok (JObj [("id", JStr (idFrom u)); ("url", JStr u)])
  else Ok result.

Definition update_json (r : UpdateResult) : json :=
  JObj ([("params", up_Params r); ("previous", up_Previous r); ("applied", up_Applied r)] ++
    (if is_null (up_Response r) then [] else [("response", up_Response r)])).

Definition commit_result (op : Operation) (path : string) (params : json) (p : prepared) (result : json) : json :=
  match pr_captured p with
  | Some captured => update_json (mkUpdateResult params captured (pr_vals p) result)
  | None =>
      if op_Restore op then JObj [("restored", params); ("response", result)]
      else if is_null result then JObj [("request", JStr (op_Method op +++ " " +++ path)); ("params", params)]
      else result
  end.

(** [Commit]. *)
Definition Commit (name key payload : string) : U (failure + string) :=
  try op := lift (operation name) in
  if String.eqb (op_Method op) "GET" then refuse (Wrapf (Msg "%w: %s is a read" [FStr name]) [Sentinel ErrInvalid])
  else
    try doc := lift (decodePayload payload) in
    try p := prepare op name key payload doc in
    let vars := with_key op key (pr_vars p) in
    try '(path, params) := lift (render (op_Path op) vars) in
    try found := match op_Existing op with None => answer_ None | Some e => existing e vars end in
    match found with
    | Some rec => answer_ (rt_marshal (JObj (set_field "existing" (JBool true) (entries rec))))
    | None =>
        try '(h, resp) := classify (doH (op_Method op) path ∅ (write_headers op key) (pr_body p)) in
        try result := lift (written op name h resp) in
        answer_ (rt_marshal (commit_result op path params p result))
    end.

(** [Confirm]; no error is [None]. *)
Definition confirms (op : Operation) (rec : json) (kw : string * json) : bool :=
  let got := lookup rec (fst kw) in
  sameJSON got (snd kw) || (String.eqb (op_BodyFormat op) "form" && String.eqb (scalar got) (scalar (snd kw))).
Definition Confirm (name result : string) : U (failure + unit) :=
  match find_named name (rc_Operations cfg) with
  | None => answer_ tt
  | Some op =>
      match op_Capture op with
      | None => answer_ tt
      | Some ca =>
          if op_Restore op then answer_ tt
          else match rt_update result with
            | None => refuse (Errorf (msg0 "the result is not JSON"))
            | Some r =>
                try rec := current ca (up_Params r) in
                match first_error (fun kw => unless (confirms op rec kw)
                  (Errorf (Msg "rest: %s reads back %s = %v, want %v" [FStr name; FStr (fst kw)]))) (entries (up_Applied r)) with
                | Some e => refuse e
                | None => answer_ tt
                end
            end
      end
  end.

(** [Read]. *)
Definition gone (f : failure) : bool := match f with AnsweredWith status _ => existsb (Z.eqb status) [404; 410]%Z | Failed _ => false end.
Definition read_fields (op : Operation) (id : string) (rec : json) : json :=
  match op_Fields op with
  | [] => rec
  | fields => JObj (fold_left (fun m af => set_field (snd af) (lookup rec (fst af)) m) fields [("id", JStr id)])
  end.
Definition Read_rest (name id : string) : U (failure + string) :=
  match find_named name (rc_Operations cfg) with
  | None => refuse (Errorf (Msg "rest: %s is not a read on this connection" [FStr name]))
  | Some op =>
      if negb (String.eqb (op_Method op) "GET") then refuse (Errorf (Msg "rest: %s is not a read on this connection" [FStr name]))
      else match render (op_Path op) (JObj [("id", JStr id)]) with
        | Err _ => refuse (Sentinel ErrNotFound)
        | Ok (path, _) =>
            r ← do_ "GET" path ∅ (headers_of (op_Headers op)) NoBody;
            mret match r with
            | inl f => inl (if gone f then Failed (Sentinel ErrNotFound) else f)
            | inr resp =>
                match lookup resp (op_Result op) with
                | JObj l => inr (rt_marshal (read_fields op id (JObj l)))
                | _ => inl (Failed (Sentinel ErrNotFound))
                end
            end
        end
  end.
End conn.
