(* ===== verification/Webhooks.v ===== *)
(** Events that are pushed: webhooks of the REST connector,
    [src/pkg/connector/rest/webhook.go], and the handler that stores what they bring,
    [src/pkg/engine/webhook.go], over the state database. *)

From S2P Require Import Turgon Prelude GoStr GoText GoErr GoTime Policy GuardData Idempotency Governor Guard RuntimeSpec Compiler Template AuditLog.
From S2P Require Import ApiKinds Engine Identity Dispatcher DispatcherTheorems PgStore PgTheorems Deployment RestAuth Rest.
From Stdlib Require Import Ascii String.

Definition ErrNoWebhook : string := "event is not configured for webhooks".
Definition ErrUnauthenticated : string := "webhook signature is missing, invalid or expired".

(** [webhook]: an event's configuration with its signing secret, or why there is none. *)
Record webhook := mkWebhook { hk_event : string; hk_idPath : string; hk_cfg : WebhookConfig; hk_secret : string; hk_err : option goerr }.

Section secrets.
Context (secrets : string -> result string) (cfg : Config).

(** [setWebhookSecret]. *)
Definition setWebhookSecret (e : RestEvent) (w : WebhookConfig) (event secret : string) (err : option goerr) : webhook :=
  mkWebhook event (or_else (re_ID e) "id") w secret err.

(** [resolveWebhookSecrets]. *)
Definition resolve_secret (w : WebhookConfig) : string * option goerr :=
  match secrets (wh_SecretRef w) with
  | Ok s => (s, if String.eqb s "" then Some (Errorf (msg0 "the signing secret is empty")) else None)
  | Err e => ("", Some e)
  end.
Definition resolveWebhookSecrets : gmap string webhook :=
  fold_left (fun hooks ne => match re_Webhook (snd ne) with
    | None => hooks
    | Some w => let (s, err) := resolve_secret w in <[fst ne := setWebhookSecret (snd ne) w (fst ne) s err]> hooks
    end) (rc_Events cfg) ∅.

(** [Webhook]. *)
Definition Webhook (hooks : gmap string webhook) (event : string) : result webhook :=
  match hooks !! event with
  | None => Err (Sentinel ErrNoWebhook)
  | Some w => match hk_err w with
      | Some e => Err (Wrapf (Msg "rest: webhook for %s: signing secret: %w" [FStr event]) [e])
      | None => Ok w
      end
  end.
End secrets.

(** [Factory], from a decoded configuration: the connector in use, its authenticator and its
    webhooks. *)
Definition Factory `{A : AuthText} (secrets : string -> result string) (tokens : bool) (endpoint secretRef : string) (config : option Config)
    : result (Config * authenticator * gmap string webhook) :=
  match config with
  | None => Err (Wrapf (Msg "rest %s: config: %w" [FStr endpoint]) [])
  | Some c =>
      match if String.eqb (au_Type (rc_Auth c)) "none" then Ok "" else secrets secretRef with
      | Err e => Err (Wrapf (Msg "rest %s: %w" [FStr endpoint]) [e])
      | Ok secret =>
          match New c secret with
          | Err e => Err (Wrapf (Msg "rest %s: %w" [FStr endpoint]) [e])
          | Ok (c, a) => Ok (c, if tokens then UseTokens c endpoint a else a, resolveWebhookSecrets secrets c)
          end
      end
  end.

Section receive.
Context `{A : AuthText} `{T : RestText}.

(** [mac], of the parts put together. *)
Definition mac (w : webhook) (data : string) : string := at_hmac (hk_secret w) data.

(** The parts of a Stripe-Signature: the timestamp, and the signatures. *)
Definition signature_part (acc : string * list string) (kv : string) : string * list string :=
  let (k, v) := match cut_first "=" (trim_space kv) with Some p => p | None => (trim_space kv, "") end in
  if String.eqb k "t" then (v, snd acc) else if String.eqb k "v1" then (fst acc, snd acc ++ [v]) else acc.
Definition signature_parts (s : string) : string * list string := fold_left signature_part (split_on "," s) ("", []).

Definition signed_with (decode : string -> option string) (want : string) (s : string) : bool :=
  match decode s with Some got => String.eqb got want | None => false end.

(** [verify]; no error is [None]. *)
Definition verify_stripe (w : webhook) (h : Header) (body : string) (now : Z) : option goerr :=
  let (ts, sigs) := signature_parts (get_header h "Stripe-Signature") in
  match atoi ts with
  | None => Some (Sentinel ErrUnauthenticated)
  | Some t =>
      if is_nil sigs then Some (Sentinel ErrUnauthenticated)
      else
        let tolerance := if (wh_ToleranceSeconds (hk_cfg w) <=? 0)%Z then 300%Z else wh_ToleranceSeconds (hk_cfg w) in
        let d := wrap (now - t) in
        if (tolerance <? d)%Z || (d <? - tolerance)%Z then Some (Wrapf (Msg "%w: timestamp is %ds away from now" [FInt d]) [Sentinel ErrUnauthenticated])
        else if existsb (signed_with hex_decode (mac w (ts +++ "." +++ body))) sigs then None
        else Some (Sentinel ErrUnauthenticated)
  end.

Definition verify (w : webhook) (h : Header) (body : string) (now : Z) : option goerr :=
  let signature := wh_Signature (hk_cfg w) in
  if String.eqb signature "stripe" then verify_stripe w h body now
  else if String.eqb signature "shopify" then
    if signed_with base64_decode (mac w body) (get_header h "X-Shopify-Hmac-Sha256") then None else Some (Sentinel ErrUnauthenticated)
  else
    match strip_prefix (wh_Prefix (hk_cfg w)) (get_header h (wh_Header (hk_cfg w))) with
    | None => Some (Sentinel ErrUnauthenticated)
    | Some v =>
        if String.eqb v "" then Some (Sentinel ErrUnauthenticated)
        else
          let decode := if String.eqb (wh_Encoding (hk_cfg w)) "base64" then base64_decode else hex_decode in
          if signed_with decode (mac w body) v then None else Some (Sentinel ErrUnauthenticated)
    end.

(** [matches]. *)
Definition matches (w : webhook) (item : json) : bool :=
  forallb (fun kv => String.eqb (scalar (lookup item (fst kv))) (snd kv)) (wh_Filter (hk_cfg w)).

(** The loop of [Receive] over the items. *)
Fixpoint item_events (w : webhook) (items : list json) : result (list Event) :=
  match items with
  | [] => Ok []
  | item :: items =>
      if negb (is_map item && matches w item) then item_events w items
      else
        let id := scalar (lookup item (hk_idPath w)) in
        if String.eqb id "" then Err (Errorf (Msg "rest: webhook for %s: item without %s" [FStr (hk_event w); FStr (hk_idPath w)]))
        else let! out := item_events w items in Ok (mkSourceEvent id 0 (hk_event w) (rt_marshal item) :: out)
  end.

(** [Receive]. *)
Definition Receive (w : webhook) (h : Header) (body : string) (now : Z) : result (list Event) :=
  match verify w h body now with
  | Some e => Err e
  | None =>
      match rt_decode body with
      | None => Err (Errorf (Msg "rest: webhook for %s: body is not JSON: %w" [FStr (hk_event w)]))
      | Some doc =>
          match lookup doc (wh_Items (hk_cfg w)) with
          | JArr items => item_events w items
          | JObj l => item_events w [JObj l]
          | _ => Err (Errorf (Msg "rest: webhook for %s: no item at %q" [FStr (hk_event w); FStr (wh_Items (hk_cfg w))]))
          end
      end
  end.

(** ** Storing *)

Definition MaxWebhookBody : N := 4194304.

(** A delivery: where it was posted, and whether its body could be read to the end. *)
Record delivery := mkDelivery { dv_endpoint : string; dv_event : string; dv_header : Header; dv_body : string; dv_complete : bool }.

(** The answer: its status and body, and whether the dispatcher was woken. *)
Record reply := mkReply { rp_status : Z; rp_body : json; rp_woken : bool }.
Definition webhookReply (status : Z) (msg : string) : reply := mkReply status (JObj [("error", JStr msg)]) false.

Context {J : Type} `{C : JsonColumns J} (err_text : goerr -> string) (hooks : string -> string -> option webhook).

(** [WebhookHandler], with the time in Unix seconds. *)
Definition WebhookHandler (d : delivery) (now : Z) (s : Pg J (goerr * bool)) : reply * Pg J (goerr * bool) :=
  match hooks (dv_endpoint d) (dv_event d) with
  | None => (webhookReply 404 ("no webhook event " +++ dv_endpoint d +++ "/" +++ dv_event d +++ " in this spec"), s)
  | Some w =>
      if negb (dv_complete d) || (MaxWebhookBody <? N.of_nat (String.length (dv_body d)))%N then (webhookReply 413 "delivery too large", s)
      else match Receive w (dv_header d) (dv_body d) now with
      | Err e =>
          if errors_is e ErrUnauthenticated then (webhookReply 401 "signature is missing, invalid or expired", s)
          else (webhookReply 400 (err_text e), s)
      | Ok [] => (mkReply 200 (JObj [("received", JNum "0"); ("new", JNum "0")]) false, s)
      | Ok events =>
          let (r, s) := pg_Deliver (InboxSource (dv_endpoint d) (dv_event d)) events s in
          match r with
          | Err _ => (webhookReply 503 "could not store the delivery; retry", s)
          | Ok n => (mkReply 200 (JObj [("received", JNum (itoa (Z.of_nat (List.length events)))); ("new", JNum (itoa n))]) (0 <? n)%Z, s)
          end
      end
  end.

(** ** What a delivery leaves *)

(** A delivery was signed: its code is that of what was signed, which for Stripe includes a
    time that is near. *)
Definition signed (w : webhook) (h : Header) (body : string) (now : Z) : Prop :=
  if String.eqb (wh_Signature (hk_cfg w)) "stripe" then
    exists ts t sig, ts = fst (signature_parts (get_header h "Stripe-Signature")) /\ atoi ts = Some t /\
      (Z.abs (wrap (now - t)) <= (if wh_ToleranceSeconds (hk_cfg w) <=? 0 then 300 else wh_ToleranceSeconds (hk_cfg w)))%Z /\
      hex_decode sig = Some (mac w (ts +++ "." +++ body))
  else exists decode sig, (decode = hex_decode \/ decode = base64_decode) /\ decode sig = Some (mac w body).

Lemma signed_with_spec decode want s : signed_with decode want s = true -> decode s = Some want.
Proof. unfold signed_with. destruct (decode s) as [got|]; [|done]. intros H. by apply String.eqb_eq in H as ->. Qed.

Lemma verify_signed w h body now : verify w h body now = None -> signed w h body now.
Proof.
  unfold verify, signed. destruct (String.eqb (wh_Signature _) "stripe").
  - unfold verify_stripe. destruct (signature_parts _) as [ts sigs]. cbn [fst]. destruct (atoi ts) as [t|] eqn:Et; [|done].
    destruct (is_nil sigs); [done|]. set (tol := if (_ <=? 0)%Z then _ else _). cbv zeta.
    destruct ((tol <? wrap (now - t)) || (wrap (now - t) <? - tol))%Z eqn:Ed; [done|]. apply orb_false_elim in Ed as [E1 E2].
    destruct (existsb _ sigs) eqn:Ex; [|done]. intros _. apply List.existsb_exists in Ex as (sig & _ & Hs). apply signed_with_spec in Hs.
    exists ts, t, sig. repeat split; [done|lia|done].
  - destruct (String.eqb (wh_Signature _) "shopify").
    + destruct (signed_with _ _ _) eqn:Es; [|done]. intros _. apply signed_with_spec in Es. eauto.
    + destruct (strip_prefix _ _) as [v|]; [|done]. destruct (String.eqb v ""); [done|]. cbv zeta.
      destruct (signed_with _ _ v) eqn:Es; [|done]. intros _. apply signed_with_spec in Es.
      destruct (String.eqb (wh_Encoding _) "base64"); eauto.
Qed.

Lemma Receive_signed w h body now evs : Receive w h body now = Ok evs -> signed w h body now.
Proof. unfold Receive. destruct (verify w h body now) eqn:E; [done|]. intros _. by apply verify_signed. Qed.

Lemma item_events_usable w items evs : item_events w items = Ok evs -> Forall (fun ev => sev_ID ev <> "" /\ sev_Name ev = hk_event w) evs.
Proof.
  revert evs. induction items as [|item items IH]; intros evs H; [injection H as <-; constructor|]. cbn [item_events] in H.
  destruct (negb _); [by apply IH|]. destruct (String.eqb_spec (scalar (lookup item (hk_idPath w))) "") as [E|E]; [done|].
  apply rbind_ok in H as (out & Ho & [= <-]). constructor; [done|by apply IH].
Qed.

(** A delivery is stored before it is acknowledged: one that is answered with 200 was
    signed, and each event it brought is in the inbox; any other answer leaves the inbox as
    it was, but for a 503, where what was stored is of a signed delivery all the same. *)
Lemma handled d now s r s' : inbox_ok (t_inbox (pg_db s)) (inbox_seq (pg_db s)) -> WebhookHandler d now s = (r, s') ->
  inbox_ok (t_inbox (pg_db s')) (inbox_seq (pg_db s')) /\
  exists new, t_inbox (pg_db s') = t_inbox (pg_db s) ++ new /\
    (new <> [] -> rp_status r = 200%Z \/ rp_status r = 503%Z) /\
    (rp_status r = 200%Z \/ rp_status r = 503%Z -> exists w events,
      hooks (dv_endpoint d) (dv_event d) = Some w /\ Receive w (dv_header d) (dv_body d) now = Ok events /\
      Forall (fun x => ib_source x = InboxSource (dv_endpoint d) (dv_event d)) new /\
      (rp_status r = 200%Z -> forall ev, ev ∈ events ->
        existsb (same_event (InboxSource (dv_endpoint d) (dv_event d)) (sev_ID ev)) (t_inbox (pg_db s')) = true) /\
      (rp_woken r = true <-> rp_status r = 200%Z /\ new <> [])).
Proof using.
  intros Hok H. unfold WebhookHandler in H.
  assert (Hquiet : forall st msg, st <> 200%Z -> st <> 503%Z -> (webhookReply st msg, s) = (r, s') ->
    inbox_ok (t_inbox (pg_db s')) (inbox_seq (pg_db s')) /\ rp_status r = st /\ s' = s).
  { intros st msg _ _ [= <- <-]. split; [done|by split]. }
  destruct (hooks _ _) as [w|].
  2: { apply Hquiet in H as (Hi & Hst & ->); [|done..]. split; [done|]. exists []. rewrite app_nil_r, Hst. split; [done|]. split; [done|]. by intros []. }
  destruct (_ || _).
  { apply Hquiet in H as (Hi & Hst & ->); [|done..]. split; [done|]. exists []. rewrite app_nil_r, Hst. split; [done|]. split; [done|]. by intros []. }
  destruct (Receive w _ _ now) as [events|e] eqn:Er.
  2: { destruct (errors_is e _); (apply Hquiet in H as (Hi & Hst & ->); [|done..]); (split; [done|]); exists []; rewrite app_nil_r, Hst;
       (split; [done|]); (split; [done|]); by intros []. }
  destruct events as [|ev events].
  { injection H as <- <-. split; [done|]. exists []. rewrite app_nil_r. split; [done|]. split; [done|]. intros _. exists w, [].
    split; [done|]. split; [done|]. split; [constructor|]. split; [intros _ ev Hin; by apply elem_of_nil in Hin|]. cbn. split; [done|by intros []]. }
  revert H Er. generalize (ev :: events). clear ev events. intros events H Er.
  destruct (pg_Deliver _ events s) as [r0 s1] eqn:Ed. unfold pg_Deliver, pg_DeliverStream in Ed.
  apply exec_lossy in Ed as [(r1 & Ef & Hres)|[Hdb (err & ->)]].
  - apply deliver_tx_spec in Ef as (Hi & _ & _ & _ & new & Hrows & Hsrc & Hr1); [|done].
    destruct Hres as [<-|(err & ->)].
    + destruct r0 as [n|err]; injection H as <- <-; (split; [done|]); exists new; (split; [done|]).
      * split; [by left|]. intros _. exists w, events. destruct Hr1 as (Hn & Hev & _). split; [done|]. split; [done|]. split; [done|].
        split; [intros _; exact Hev|]. cbn [rp_woken rp_status]. rewrite Z.ltb_lt, Hn. destruct new; cbn; split; [lia|by intros []|split; [done|done]|lia].
      * destruct Hr1 as [-> _]. split; [done|]. intros _. exists w, events. split; [done|]. split; [done|]. split; [constructor|].
        split; [done|]. cbn. split; [done|by intros []].
    + injection H as <- <-. split; [done|]. exists new. split; [done|]. split; [by right|]. intros _. exists w, events.
      split; [done|]. split; [done|]. split; [done|]. split; [done|]. cbn. split; [done|by intros []].
  - injection H as <- <-. rewrite Hdb. split; [done|]. exists []. rewrite app_nil_r. split; [done|]. split; [done|]. intros _. exists w, events.
    split; [done|]. split; [done|]. split; [constructor|]. split; [done|]. cbn. split; [done|by intros []].
Qed.

Definition stored_event (d : delivery) (ev : Event) (db : Db J) : Prop :=
  existsb (same_event (InboxSource (dv_endpoint d) (dv_event d)) (sev_ID ev)) (t_inbox db) = true.

(** Deliveries with their answers, latest first, while others use the database but remove
    nothing from the inbox. *)
Definition rows_kept (db db' : Db J) : Prop :=
  inbox_ok (t_inbox db') (inbox_seq db') /\
  forall source id, existsb (same_event source id) (t_inbox db) = true -> existsb (same_event source id) (t_inbox db') = true.

Inductive served : list (delivery * Z * reply) -> Pg J (goerr * bool) -> Prop :=
| served_start s : inbox_ok (t_inbox (pg_db s)) (inbox_seq (pg_db s)) -> served [] s
| served_delivery log s d now : served log s ->
    served ((d, now, fst (WebhookHandler d now s)) :: log) (snd (WebhookHandler d now s))
| served_else log s s' : served log s -> rows_kept (pg_db s) (pg_db s') -> served log s'.

Lemma handler_keeps d now s : inbox_ok (t_inbox (pg_db s)) (inbox_seq (pg_db s)) ->
  rows_kept (pg_db s) (pg_db (snd (WebhookHandler d now s))).
Proof using.
  intros Hok. destruct (WebhookHandler d now s) as [r s'] eqn:E. destruct (handled _ _ _ _ _ Hok E) as (Hi & new & Hrows & _).
  split; [done|]. intros source id Hin. cbn [snd]. by rewrite Hrows, List.existsb_app, Hin.
Qed.

Lemma served_ok log s : served log s -> inbox_ok (t_inbox (pg_db s)) (inbox_seq (pg_db s)).
Proof using. induction 1 as [s Hi|log s d now H IH|log s s' H IH Hk]; [done|by apply handler_keeps|by destruct Hk]. Qed.

Lemma unsigned_refused d now s w : hooks (dv_endpoint d) (dv_event d) = Some w -> ~ signed w (dv_header d) (dv_body d) now ->
  snd (WebhookHandler d now s) = s /\ rp_status (fst (WebhookHandler d now s)) <> 200%Z.
Proof using.
  intros Hw Hs. unfold WebhookHandler. rewrite Hw. destruct (_ || _); [done|]. destruct (Receive _ _ _ _) as [evs|e] eqn:Er.
  - by apply Receive_signed in Er.
  - by destruct (errors_is e _).
Qed.

End receive.

(** ** A shop's webhook *)

Module Shop.
#[local] Instance shop_auth : AuthText := {|
  at_sha256 s := s; at_hmac k m := k +++ m; at_url _ := None; at_client _ := None; at_oauth1 _ := None; at_login _ := None;
  at_token _ := None; at_timeout _ := 0%float; at_state _ := None; at_marshal_state _ := "" |}.
#[local] Instance shop_text : RestText := {|
  rt_decode body := if String.eqb body "order 7" then Some (JObj [("id", JNum "7"); ("status", JStr "paid")]) else None;
  rt_update _ := None; rt_marshal _ := "{}"; rt_format _ := "0"; rt_float _ := 0%float |}.

Definition orders : webhook :=
  mkWebhook "orders" "id" (mkWebhookConfig "shopify" "secret/shop" "" "" "" 0 "" [("status", "paid")]) "k" None.
Definition hooks (endpoint event : string) : option webhook :=
  if String.eqb endpoint "shop" && String.eqb event "orders" then Some orders else None.
Definition posted (signature : string) : delivery :=
  mkDelivery "shop" "orders" (set_header "x-shopify-hmac-sha256" signature ∅) "order 7" true.
Definition genuine : delivery := posted (base64_encode "korder 7").
Definition forged : delivery := posted (base64_encode "xorder 7").

(** The first delivery is stored though the database's answer is lost; it is made again. *)
Definition start : Pg Outcome (goerr * bool) := mkPg empty_db 100 300 [Some (Errorf (msg0 "conn closed"), true)].
Definition deliver (d : delivery) (s : Pg Outcome (goerr * bool)) := WebhookHandler (fun _ => "bad") hooks d 1000 s.

End Shop.
