(* ===== verification/PgTokens.v ===== *)
(** The vault of rotated tokens: [src/pkg/store/pgstore/tokens.go], and that it is a token
    store. *)

From S2P Require Import Turgon Prelude GoStr GoText GoErr GoTime PgStore RestAuth.
From Stdlib Require Import Ascii String.

(** ** The vault *)

(** AES-256-GCM: sealing and opening under a key, with a nonce and what the text is bound
    to. *)
Class Aead := {
  ae_seal : string -> string -> string -> string -> string;
  ae_open : string -> string -> string -> string -> option string
}.
Definition NonceSize : nat := 12.

Record TokenVault := mkTokenVault { tv_current : string; tv_keys : gmap string string }.

(** [tokenKeyIDRE]. *)
Definition key_id_byte (c : ascii) : bool := letter_or_digit c || existsb (Ascii.eqb c) ["."; "_"; "-"]%char.
Definition valid_key_id (s : string) : bool := Nat.leb 1 (String.length s) && Nat.leb (String.length s) 64 && str_all key_id_byte s.

(** The loop of [NewTokenVault] over the entries. *)
Fixpoint vault_keys (i : Z) (parts : list string) (v : TokenVault) : result TokenVault :=
  match parts with
  | [] => Ok v
  | part :: parts =>
      let bad := Err (Errorf (Msg "token keys: entry %d is not id:base64key (the id is 1-64 letters, digits, '.', '_' or '-')" [FInt (i + 1)])) in
      match cut_first ":" (trim_space part) with
      | None => bad
      | Some (id, b64) =>
          if negb (valid_key_id id) then bad
          else match base64_decode b64 with
            | None => Err (Errorf (Msg "token key %s: must be 32 bytes, base64-encoded (openssl rand -base64 32)" [FStr id]))
            | Some key =>
                if negb (Nat.eqb (String.length key) 32)
                then Err (Errorf (Msg "token key %s: must be 32 bytes, base64-encoded (openssl rand -base64 32)" [FStr id]))
                else if is_some (tv_keys v !! id) then Err (Errorf (Msg "token key %s is listed twice" [FStr id]))
                else vault_keys (i + 1)%Z parts
                  (mkTokenVault (if String.eqb (tv_current v) "" then id else tv_current v) (<[id := key]> (tv_keys v)))
            end
      end
  end.

(** [NewTokenVault]. *)
Definition NewTokenVault (keys : string) : result TokenVault :=
  if String.eqb (trim_space keys) "" then
    Err (Errorf (msg0 "token keys: none set; TURGON_TOKEN_KEYS=id:base64key seals rotated tokens (openssl rand -base64 32)"))
  else vault_keys 0 (split_on "," keys) (mkTokenVault "" ∅).

(** ** The table *)

(** [turgon_tokens]: the key's ID and the sealed value, which begins with its nonce. *)
Record TokenRow := mkTokenRow { tr_key_id : string; tr_sealed : string }.

(** A worker's world with the table, and the faults of its next statements. *)
Record Site (W : Type) := mkSite { st_world : W; st_tokens : gmap string TokenRow; st_faults : list (option (goerr * bool)) }.
Arguments mkSite {_}. Arguments st_world {_}. Arguments st_tokens {_}. Arguments st_faults {_}.

Section vault.
Context `{E : Aead} {W : Type} `{H : Http W} (v : TokenVault).

Definition on_world {A} (f : W -> A * W) (s : Site W) : A * Site W :=
  let (a, w) := f (st_world s) in (a, mkSite w (st_tokens s) (st_faults s)).

#[export] Instance site_http : Http (Site W) := {|
  http_do req := on_world (http_do req);
  http_now := on_world http_now;
  http_random n := on_world (http_random n)
|}.

(** A statement, with the table it leaves. *)
Definition token_stmt {A} (r : result A) (rows : gmap string TokenRow) (s : Site W) : result A * Site W :=
  match st_faults s with
  | Some (e, done) :: faults => (Err e, mkSite (st_world s) (if done : bool then rows else st_tokens s) faults)
  | None :: faults => (r, mkSite (st_world s) rows faults)
  | [] => (r, mkSite (st_world s) rows [])
  end.

(** What a row holds. *)
Definition open_row (key : string) (row : TokenRow) : result string :=
  match tv_keys v !! tr_key_id row with
  | None => Err (Errorf (Msg "token %s is sealed with key %s, which TURGON_TOKEN_KEYS no longer holds" [FStr key; FStr (tr_key_id row)]))
  | Some k =>
      if Nat.ltb (String.length (tr_sealed row)) NonceSize then Err (Errorf (Msg "token %s: the sealed value is damaged" [FStr key]))
      else
        let (nonce, sealed) := str_cut NonceSize (tr_sealed row) in
        match ae_open k nonce sealed key with
        | Some text => Ok text
        | None => Err (Errorf (Msg "token %s cannot be opened with key %s: %w" [FStr key; FStr (tr_key_id row)]))
        end
  end.

(** [UpdateToken], to where it calls back. *)
Definition vault_open (key : string) (s : Site W) : result (option string) * Site W :=
  let (r, s) := token_stmt (Ok (st_tokens s !! key)) (st_tokens s) s in
  (match r with
   | Err e => Err e
   | Ok None => Ok None
   | Ok (Some row) => match open_row key row with Ok text => Ok (Some text) | Err e => Err e end
   end, s).

(** And from there. *)
Definition vault_close (key : string) (next : option string) (s : Site W) : option goerr * Site W :=
  let (r, s) := match next with
    | None => token_stmt (Ok tt) (st_tokens s) s
    | Some text =>
        let (nonce, w) := http_random NonceSize (st_world s) in
        let sealed := nonce +++ ae_seal (default "" (tv_keys v !! tv_current v)) nonce text key in
        token_stmt (Ok tt) (<[key := mkTokenRow (tv_current v) sealed]> (st_tokens s)) (mkSite w (st_tokens s) (st_faults s))
    end in
  (match r with Ok _ => None | Err e => Some e end, s).

#[export] Instance vault_store : TokenStore (S := Site W) := {| ts_open := vault_open; ts_close := vault_close |}.
End vault.

(** ** What a token store promises *)

(** The values under its keys, read under the lock; what is stored is what the callback
    returned, or nothing when the store fails, and the network does not touch it. *)
Class TokenValues (S : Type) := { tv_value : string -> S -> option string; tv_ok : S -> Prop }.

Class TokenStoreLaws {S : Type} `{Ht : Http S} `{K : !TokenStore (S := S)} (V : TokenValues S) : Prop := {
  open_law key s r s' : tv_ok s -> ts_open key s = (r, s') ->
    tv_ok s' /\ (forall k, tv_value k s' = tv_value k s) /\ forall cur, r = Ok cur -> cur = tv_value key s;
  close_law key next s e s' : tv_ok s -> ts_close key next s = (e, s') ->
    tv_ok s' /\ (forall k, k <> key -> tv_value k s' = tv_value k s) /\
    (tv_value key s' = tv_value key s /\ (next = None \/ is_Some e) \/ exists text, next = Some text /\ tv_value key s' = Some text);
  net_law req s a s' : tv_ok s -> http_do req s = (a, s') -> tv_ok s' /\ forall k, tv_value k s' = tv_value k s;
  now_law s n s' : tv_ok s -> http_now s = (n, s') -> tv_ok s' /\ forall k, tv_value k s' = tv_value k s
}.

(** ** The vault keeps it *)

Class AeadLaws `(E : Aead) (W : Type) `{H : Http W} : Prop := {
  open_seal : forall k nonce text ad, ae_open k nonce (ae_seal k nonce text ad) ad = Some text;
  random_length : forall n w s w', http_random n w = (s, w') -> String.length s = n
}.

Section laws.
Context `{L : AeadLaws} (v : TokenVault).

(** Every row can be opened with a key of the vault. *)
Definition vault_ok (s : Site W) : Prop :=
  is_Some (tv_keys v !! tv_current v) /\ forall key row, st_tokens s !! key = Some row -> is_ok (open_row v key row) = true.

Definition vault_value (key : string) (s : Site W) : option string :=
  match st_tokens s !! key with
  | Some row => match open_row v key row with Ok text => Some text | Err _ => None end
  | None => None
  end.

#[export] Instance vault_values : TokenValues (Site W) := {| tv_value := vault_value; tv_ok := vault_ok |}.

Lemma str_cut_length s rest : str_cut (String.length s) (s +++ rest) = (s, rest).
Proof using. induction s as [|c s IH]; [done|]. cbn [String.length append str_cut]. by rewrite IH. Qed.

Lemma open_sealed key text k nonce : tv_keys v !! tv_current v = Some k -> String.length nonce = NonceSize ->
  open_row v key (mkTokenRow (tv_current v) (nonce +++ ae_seal k nonce text key)) = Ok text.
Proof using L.
  intros Hk Hn. unfold open_row. cbn [tr_key_id tr_sealed]. rewrite Hk.
  replace (Nat.ltb _ _) with false by (symmetry; apply Nat.ltb_ge; rewrite <- Hn, str_length_app; lia).
  rewrite <- Hn, str_cut_length, open_seal. done.
Qed.

Lemma token_stmt_rows {A} (r : result A) rows (s : Site W) r' s' : token_stmt r rows s = (r', s') ->
  st_world s' = st_world s /\ (st_tokens s' = rows /\ (r' = r \/ exists e, r' = Err e) \/ st_tokens s' = st_tokens s /\ exists e, r' = Err e).
Proof using.
  unfold token_stmt. destruct (st_faults s) as [|[[e []]|] faults]; intros [= <- <-]; cbn; (split; [done|]); [by left; eauto|left|right|by left; eauto].
  - split; [done|]. right. by eexists.
  - split; [done|]. by eexists.
Qed.

Lemma vault_same (s s' : Site W) : st_tokens s' = st_tokens s -> vault_ok s -> vault_ok s' /\ forall k, vault_value k s' = vault_value k s.
Proof using. unfold vault_ok, vault_value. intros Et. rewrite Et. done. Qed.

Lemma vault_open_law key (s : Site W) r s' : vault_ok s -> vault_open v key s = (r, s') ->
  vault_ok s' /\ (forall k, vault_value k s' = vault_value k s) /\ forall cur, r = Ok cur -> cur = vault_value key s.
Proof using.
  intros Hok Hs. unfold vault_open in Hs. destruct (token_stmt _ _ _) as [r0 s0] eqn:Es. apply token_stmt_rows in Es as [_ Es].
  assert (Hr : st_tokens s0 = st_tokens s /\ (r0 = Ok (st_tokens s !! key) \/ exists e, r0 = Err e)).
  { destruct Es as [[Et [->|[e ->]]]|[Et [e ->]]]; eauto. }
  destruct Hr as [Et Hr]. injection Hs as <- <-. destruct (vault_same _ _ Et Hok) as [Hok' Hv]. split; [done|]. split; [done|].
  intros cur Hc. unfold vault_value. destruct Hr as [->|[e ->]]; [|done].
  destruct (st_tokens s !! key) as [row|] eqn:Ek; [|by injection Hc]. destruct (open_row v key row) eqn:Eo; [by injection Hc|done].
Qed.

Lemma vault_close_law key next (s : Site W) e s' : vault_ok s -> vault_close v key next s = (e, s') ->
  vault_ok s' /\ (forall k, k <> key -> vault_value k s' = vault_value k s) /\
  (vault_value key s' = vault_value key s /\ (next = None \/ is_Some e) \/ exists text, next = Some text /\ vault_value key s' = Some text).
Proof using L.
  intros Hok Hs. unfold vault_close in Hs. destruct next as [text|].
  - destruct (http_random NonceSize (st_world s)) as [nonce w] eqn:En. apply random_length in En.
    destruct (token_stmt _ _ _) as [r0 s0] eqn:Es. apply token_stmt_rows in Es as [_ Es]. injection Hs as <- <-. cbn [st_tokens] in Es.
    pose proof Hok as [[k Hk] Hrows]. rewrite Hk in Es. cbn [default] in Es. pose proof (open_sealed key text k nonce Hk En) as Hopen.
    destruct Es as [[Et _]|[Et [err ->]]].
    + unfold vault_ok, vault_value. rewrite Et. split; [|split].
      * split; [eauto|]. intros key' row Hl. destruct (decide (key' = key)) as [->|Hne].
        -- rewrite lookup_insert_eq in Hl. injection Hl as <-. unfold id. by rewrite Hopen.
        -- rewrite lookup_insert_ne in Hl by done. by apply Hrows.
      * intros k' Hne. by rewrite lookup_insert_ne.
      * right. exists text. split; [done|]. rewrite lookup_insert_eq. unfold id. by rewrite Hopen.
    + destruct (vault_same s s0 Et Hok) as [Hok' Hv]. split; [done|]. split; [by intros|]. left. split; [by apply Hv|right; by eexists].
  - destruct (token_stmt _ _ _) as [r0 s0] eqn:Es. apply token_stmt_rows in Es as [_ Es]. injection Hs as <- <-.
    assert (Et : st_tokens s0 = st_tokens s) by (destruct Es as [[? _]|[? _]]; done).
    destruct (vault_same _ _ Et Hok) as [Hok' Hv]. split; [done|]. split; [by intros|]. left. split; [by apply Hv|by left].
Qed.
End laws.

(** ** Keys *)

Lemma vault_keys_current i parts v v' : (tv_current v = "" -> tv_keys v = ∅) -> (tv_current v <> "" -> is_Some (tv_keys v !! tv_current v)) ->
  vault_keys i parts v = Ok v' -> (parts <> [] \/ tv_current v <> "") -> is_Some (tv_keys v' !! tv_current v').
Proof.
  revert i v. induction parts as [|part parts IH]; intros i v H0 H1 Hv Hne.
  - injection Hv as <-. destruct Hne as [?|Hne]; [done|]. by apply H1.
  - cbn [vault_keys] in Hv. destruct (cut_first ":" _) as [[id b64]|]; [|done]. destruct (valid_key_id id) eqn:Ei; [|done]. cbn [negb] in Hv.
    destruct (base64_decode b64) as [key|]; [|done]. destruct (negb _); [done|]. destruct (tv_keys v !! id) eqn:Ed; [done|]. cbn [is_some] in Hv.
    assert (Hid : id <> "") by (by intros ->).
    apply (IH _ _) in Hv; [done|..]; cbn [tv_current tv_keys].
    + destruct (String.eqb_spec (tv_current v) ""); done.
    + intros _. destruct (String.eqb_spec (tv_current v) "") as [Ec|Ec]; [rewrite lookup_insert_eq; eauto|].
      destruct (decide (id = tv_current v)) as [->|Hn]; [rewrite lookup_insert_eq; eauto|]. rewrite lookup_insert_ne by done. by apply H1.
    + right. by destruct (String.eqb_spec (tv_current v) "").
Qed.

Lemma NewTokenVault_current keys v : NewTokenVault keys = Ok v -> is_Some (tv_keys v !! tv_current v).
Proof.
  unfold NewTokenVault. destruct (String.eqb _ ""); [done|]. intros H. eapply vault_keys_current in H; [done|done|done|].
  left. destruct keys; [done|]. cbn. destruct (ascii_dec _ _); [done|]. by destruct (split_on "," keys).
Qed.

Lemma more_keys `{L : AeadLaws} (v v' : TokenVault) (s : Site W) : tv_keys v ⊆ tv_keys v' -> is_Some (tv_keys v' !! tv_current v') ->
  vault_ok v s -> vault_ok v' s /\ forall k, vault_value v' k s = vault_value v k s.
Proof.
  intros Hsub Hcur [_ Hrows].
  assert (Hsame : forall key row, st_tokens s !! key = Some row -> open_row v' key row = open_row v key row).
  { intros key row Hrow. specialize (Hrows key row Hrow). unfold open_row in *. destruct (tv_keys v !! tr_key_id row) as [k|] eqn:Ek; [|done].
    by rewrite (lookup_weaken _ _ _ _ Ek Hsub). }
  split.
  - split; [done|]. intros key row Hrow. rewrite (Hsame _ _ Hrow). by apply Hrows.
  - intros key. unfold vault_value. destruct (st_tokens s !! key) as [row|] eqn:Er; [|done]. by rewrite (Hsame _ _ Er).
Qed.

Lemma vault_store_laws `{L : AeadLaws} (v : TokenVault) : TokenStoreLaws (K := vault_store v) (vault_values (W := W) v).
Proof.
  split.
  - intros key s r s'. apply vault_open_law.
  - intros key next s e s'. apply vault_close_law.
  - intros req s a s' Hok Hs. cbn [http_do site_http] in Hs. unfold on_world in Hs. destruct (http_do req (st_world s)) as [a0 w]. injection Hs as <- <-.
    by apply vault_same.
  - intros s n s' Hok Hs. cbn [http_now site_http] in Hs. unfold on_world in Hs. destruct (http_now (st_world s)) as [n0 w]. injection Hs as <- <-.
    by apply vault_same.
Qed.

(** C29: The vault is a token store: a callback sees exactly the value last stored under
    its key, and what it returns is stored under no other, or not at all when the store
    reports an error. A vault made from a list of keys has a key to seal with, and one with
    more keys, whichever is the first, reads the same values. *)
Theorem vault_is_a_token_store `{L : AeadLaws} (v : TokenVault) :
  TokenStoreLaws (K := vault_store v) (vault_values v) /\
  (forall keys v', NewTokenVault keys = Ok v' -> tv_keys v ⊆ tv_keys v' -> forall s : Site W, vault_ok v s ->
    vault_ok v' s /\ forall k, vault_value v' k s = vault_value v k s).
Proof.
  split; [apply vault_store_laws|].
  intros keys v' Hv Hsub s. apply more_keys; [done|]. by eapply NewTokenVault_current.
Qed.

(** ** Two keys *)

Module Vaults.
(** A cipher that keeps its key and its text in the clear. *)
#[local] Instance clear : Aead := {|
  ae_seal k nonce text ad := k +++ ad +++ text;
  ae_open k nonce sealed ad := strip_prefix (k +++ ad) sealed
|}.
#[local] Instance quiet_net : Http unit := {|
  http_do req w := (NoAnswer (Errorf (msg0 "offline")), w); http_now w := (0%Z, w);
  http_random n w := (String.concat "" (repeat "0" n), w)
|}.

Lemma strip_prefix_app p s : strip_prefix p (p +++ s) = Some s.
Proof. induction p as [|c p IH]; [done|]. cbn. by destruct (ascii_dec c c). Qed.

#[local] Instance clear_laws : AeadLaws clear unit.
Proof.
  split.
  - intros k nonce text ad. cbn. rewrite <- str_app_assoc. apply strip_prefix_app.
  - intros n w s w' [= <- <-]. induction n as [|[|n] IH]; [done|done|]. cbn in *. by f_equal.
Qed.

Definition key_text (c : string) : string := base64_encode (String.concat "" (repeat c 32)).
Definition old_keys : string := "2025:" +++ key_text "k".
Definition new_keys : string := "2026:" +++ key_text "n" +++ ", 2025:" +++ key_text "k".
Definition vault_of (keys : string) : TokenVault := match NewTokenVault keys with Ok v => v | Err _ => mkTokenVault "" ∅ end.

(** A token sealed under the old key, read under both, and sealed again under the new. *)
Definition sealed_once : Site unit := snd (vault_close (vault_of old_keys) "rest/shop" (Some "t1") (mkSite tt ∅ [])).
Definition sealed_twice : Site unit := snd (vault_close (vault_of new_keys) "rest/shop" (Some "t2") sealed_once).

Lemma vault_is_a_token_store_witness :
  NewTokenVault old_keys = Ok (vault_of old_keys) /\ tr_key_id <$> st_tokens sealed_twice !! "rest/shop" = Some "2026" /\
  vault_value (vault_of old_keys) "rest/shop" sealed_once = Some "t1" /\
  vault_value (vault_of new_keys) "rest/shop" sealed_once = Some "t1" /\
  TokenStoreLaws (K := vault_store (vault_of new_keys)) (vault_values (W := unit) (vault_of new_keys)).
Proof.
  split; [vm_compute; reflexivity|]. split; [vm_compute; reflexivity|]. split; [vm_compute; reflexivity|]. split; [vm_compute; reflexivity|].
  exact (proj1 (vault_is_a_token_store (W := unit) (vault_of new_keys))).
Defined.
End Vaults.
