(* ===== verification/RestTokens.v ===== *)
(** Refresh tokens that a server rotates: workers that share a token store spend each of
    them once. *)

From S2P Require Import Turgon Prelude GoStr GoText GoErr GoTime PgStore RestAuth PgTokens.
From Stdlib Require Import Ascii String.

(** ** The authorization server *)

(** The refresh token in force and those it replaced, whether a replaced one was used
    again, whether the last answer with new tokens was lost, and the refresh token a request
    asks with. *)
Class AuthServer (S : Type) := {
  og_current : S -> string;
  og_spent : S -> list string;
  og_reused : S -> bool;
  og_lost : S -> bool;
  og_token : request -> option string
}.

Section server.
Context {S : Type} `{G : AuthServer S}.

Definition same_grants (s s' : S) : Prop :=
  og_current s' = og_current s /\ og_spent s' = og_spent s /\ og_reused s' = og_reused s.
Definition rotated (s s' : S) (next : string) : Prop :=
  next <> "" /\ next ∉ og_current s :: og_spent s /\ og_current s' = next /\ og_spent s' = og_current s :: og_spent s /\ og_reused s' = og_reused s.
Definition server_ok (s : S) : Prop := og_current s <> "" /\ og_current s ∉ og_spent s.

Lemma same_server_ok s s' : same_grants s s' -> server_ok s -> server_ok s'.
Proof. intros (E1 & E2 & _). unfold server_ok. by rewrite E1, E2. Qed.

Lemma rotated_server_ok s s' next : rotated s s' next -> server_ok s'.
Proof. intros (Hn & Hf & Hc & Hs & _). unfold server_ok. by rewrite Hc, Hs. Qed.

Lemma same_grants_trans s1 s2 s3 : same_grants s1 s2 -> same_grants s2 s3 -> same_grants s1 s3.
Proof. intros (A1 & A2 & A3) (B1 & B2 & B3). unfold same_grants. by rewrite B1, B2, B3. Qed.
End server.

(** RFC 6749: the token in force gets an access token and, if the server rotates, its
    successor; a refusal changes nothing. Other requests, the clock and the store are no
    concern of the server, and what is stored reads back. *)
Class AuthServerLaws `{T : AuthText} {S : Type} `{H : Http S} `{K : !TokenStore (S := S)} `{G : AuthServer S} : Prop := {
  form_law url h form t : (form : gmap string string) !! "refresh_token" = Some t ->
    og_token (mkRequest MethodPost url h (encode_query form) false) = Some t;
  grant_law req s ans s' : http_do req s = (ans, s') -> og_token req = Some (og_current s) -> og_lost s' = false ->
    same_grants s s' /\ (forall url, exists f, granted url ans = inl f) \/
    exists access next life, (forall url, granted url ans = inr (access, next, life)) /\
      (next = "" /\ same_grants s s' \/ rotated s s' next);
  now_frame s n s' : http_now s = (n, s') -> same_grants s s' /\ og_lost s' = og_lost s;
  open_frame key s r s' : ts_open key s = (r, s') -> same_grants s s' /\ og_lost s' = og_lost s;
  close_frame key next s e s' : ts_close key next s = (e, s') -> same_grants s s' /\ og_lost s' = og_lost s;
  state_law st : at_state (at_marshal_state st) = Some st
}.

Section spending.
Context {S : Type} `{T : AuthText} `{H : Http S} `{K : !TokenStore (S := S)} `{G : AuthServer S} {V : TokenValues S}.
Context `{A : !AuthServerLaws} `{L : !TokenStoreLaws V} (seed_token key legacy_key : string) (Hseed : seed_token <> "").

Definition seed : string := seed_hash seed_token.

(** The token that a worker finds in force in the store. *)
Definition legacy_state (cur : option string) : option tokenState :=
  match cur with
  | None => None
  | Some text =>
      match at_state text with
      | Some st => if String.eqb (tk_Seed st) seed && negb (String.eqb (tk_RefreshToken st) "") then Some st else None
      | None => None
      end
  end.
Definition legacy_of (s : S) : option tokenState := if String.eqb legacy_key "" then None else legacy_state (tv_value legacy_key s).
Definition in_store (s : S) : failure + (tokenState * bool) := in_force seed seed_token (legacy_of s) (tv_value key s).
Definition stored_token (s : S) : option string := match in_store s with inr (st, _) => Some (tk_RefreshToken st) | inl _ => None end.

(** A worker of this connection; the rotation it still holds replaced a token that is spent
    by now, or not at all. *)
Record worker_ok (a : authenticator) (s : S) : Prop := mkWorkerOk {
  wo_seed : ac_refreshToken a = seed_token;
  wo_key : ac_tokenKey a = key;
  wo_legacy : ac_legacyKey a = legacy_key \/ ac_legacyKey a = "" /\ is_Some (tv_value key s);
  wo_pending : forall p, ac_pending a = Some p ->
    tk_Seed (ro_state p) = seed /\ tk_RefreshToken (ro_state p) <> "" /\
    (ro_spent p ∈ og_spent s \/ tk_RefreshToken (ro_state p) = ro_spent p)
}.

(** The store has the token in force, or the worker holds the rotation that it missed. *)
Definition in_charge (a : authenticator) (s : S) : Prop :=
  exists p, ac_pending a = Some p /\ stored_token s = Some (ro_spent p) /\ tk_RefreshToken (ro_state p) = og_current s.
Definition may_go (a : authenticator) (s : S) : Prop := stored_token s = Some (og_current s) \/ in_charge a s.

Definition same_values (s s' : S) : Prop := forall k, tv_value k s' = tv_value k s.

Lemma in_store_same s s' : same_values s s' -> in_store s' = in_store s.
Proof using. intros Hv. unfold in_store, legacy_of. by rewrite !Hv. Qed.

Lemma in_force_wf legacy cur st changed : (forall l, legacy = Some l -> tk_Seed l = seed /\ tk_RefreshToken l <> "") ->
  in_force seed seed_token legacy cur = inr (st, changed) -> tk_Seed st = seed /\ tk_RefreshToken st <> "".
Proof using Hseed.
  intros Hl. unfold in_force. destruct (match cur with Some _ => _ | None => _ end) as [f|[st0 c0]]; [done|].
  destruct (String.eqb_spec (tk_Seed st0) seed) as [E1|E1]; cbn [negb orb]; [|by intros [= <- <-]].
  destruct (String.eqb_spec (tk_RefreshToken st0) ""); [by intros [= <- <-]|]. by intros [= <- <-].
Qed.

(** What a worker stores is what it finds there afterwards. *)
Lemma in_force_stored legacy st : tk_Seed st = seed -> tk_RefreshToken st <> "" ->
  in_force seed seed_token legacy (Some (at_marshal_state st)) = inr (st, false).
Proof using A.
  intros Hs Hr. unfold in_force. rewrite state_law, Hs, String.eqb_refl. by destruct (String.eqb_spec (tk_RefreshToken st) "").
Qed.

(** ** One call *)

Definition same_worker (a a' : authenticator) : Prop :=
  ac_refreshToken a' = ac_refreshToken a /\ ac_tokenKey a' = ac_tokenKey a /\ ac_legacyKey a' = ac_legacyKey a.

Definition usable (st : tokenState) (s : S) : Prop := tk_Seed st = seed /\ tk_RefreshToken st <> "" /\ tk_RefreshToken st = og_current s.

(** What a worker holds while the store has [st0]: a rotation that replaced its token, or
    else the store has the token in force. *)
Definition held (a : authenticator) (s : S) (st0 : tokenState) : Prop :=
  match ac_pending a with
  | None => tk_RefreshToken st0 = og_current s
  | Some p => ro_spent p = tk_RefreshToken st0 /\ usable (ro_state p) s /\
      (ro_spent p ∈ og_spent s \/ tk_RefreshToken (ro_state p) = ro_spent p)
  end.

Lemma held_same a s s' st0 : same_grants s s' -> held a s st0 -> held a s' st0.
Proof using. intros (E1 & E2 & _). unfold held, usable. by rewrite E1, E2. Qed.

Lemma grant_step t a s r a' s' : tv_ok s -> t = og_current s -> refreshGrant t (a, s) = (r, (a', s')) -> og_lost s' = false ->
  a' = a /\ tv_ok s' /\ same_values s s' /\
  match r with inl _ => same_grants s s' | inr (_, next, _) => next = "" /\ same_grants s s' \/ rotated s s' next end.
Proof using A L.
  intros Hv -> Hr Hlost. unfold refreshGrant, token_request in Hr. unfold mbind, U_bind, self, world, mret, U_ret in Hr. cbn [fst snd] in Hr.
  destruct (http_do _ s) as [ans s1] eqn:Ed. injection Hr as <- <- <-. destruct (net_law _ _ _ _ Hv Ed) as [Hv' Hsame].
  split; [done|]. split; [done|]. split; [done|].
  assert (Hask : forall b : bool, (if b then <["client_id" := ac_clientID a]> (<["client_secret" := ac_clientSecret a]>
      (<["grant_type" := "refresh_token"]> (<["refresh_token" := og_current s]> (∅ : gmap string string))))
    else <["grant_type" := "refresh_token"]> (<["refresh_token" := og_current s]> ∅)) !! "refresh_token" = Some (og_current s)).
  { intros []; rewrite !lookup_insert_ne by done; apply lookup_insert_eq. }
  destruct (grant_law _ _ _ _ Ed) as [[Hg Hf]|(access & next & life & Hg & Hn)]; [apply form_law, Hask|done|..].
  - destruct (Hf (au_TokenURL (ac_cfg a))) as [f ->]. done.
  - by rewrite Hg.
Qed.

Lemma catch_up_step st0 c0 a s c a' s' : server_ok s -> worker_ok a s -> tk_Seed st0 = seed -> tk_RefreshToken st0 <> "" ->
  stored_token s = Some (tk_RefreshToken st0) -> may_go a s -> catch_up st0 c0 (a, s) = (c, (a', s')) ->
  s' = s /\ same_worker a a' /\ held a' s st0 /\ usable (fst c) s /\ (ac_pending a' = None -> c = (st0, c0)) /\ (is_Some (ac_pending a') -> snd c = true).
Proof using.
  intros [_ Hfresh] Hw Hs0 Hr0 Hst Hgo HH. unfold catch_up in HH. unfold mbind, U_bind, self, update, mret, U_ret in HH. cbn [fst snd] in HH.
  assert (Hcase : tk_RefreshToken st0 = og_current s \/ exists p, ac_pending a = Some p /\ ro_spent p = tk_RefreshToken st0 /\ tk_RefreshToken (ro_state p) = og_current s).
  { destruct Hgo as [Hgo|(p & Hp & Hgo & Hc)]; rewrite Hst in Hgo; injection Hgo as Hgo; [by left|right; eauto]. }
  destruct (ac_pending a) as [p|] eqn:Ep.
  - destruct (wo_pending _ _ Hw p Ep) as (Hps & Hpr & Hpp). destruct (String.eqb_spec (tk_RefreshToken st0) (ro_spent p)) as [Eq|Hne].
    + injection HH as <- <- <-. cbn [fst snd]. rewrite Ep.
      assert (Hu : usable (ro_state p) s).
      { split; [done|]. split; [done|]. destruct Hcase as [Hc|(p' & [= <-] & _ & Hc)]; [|done].
        destruct Hpp as [Hin| ->]; [|congruence]. rewrite <- Eq, Hc in Hin. done. }
      split; [done|]. split; [done|]. split; [unfold held; by rewrite Ep|]. split; [done|]. split; [done|]. done.
    + injection HH as <- <- <-. cbn [fst snd]. destruct Hcase as [Hc|(p' & [= <-] & Hsp & _)]; [|congruence].
      split; [done|]. split; [done|]. split; [done|]. split; [done|]. split; [done|]. by intros [].
  - injection HH as <- <- <-. cbn [fst snd]. destruct Hcase as [Hc|(p' & [=] & _)]. rewrite Ep. split; [done|]. split; [done|].
    split; [unfold held; by rewrite Ep|]. split; [done|]. split; [done|]. by intros [].
Qed.

Lemma rotate_step st0 st c a s r a' s' : tv_ok s -> server_ok s -> held a s st0 -> usable st s -> rotate st c (a, s) = (r, (a', s')) -> og_lost s' = false ->
  (ac_pending a = None -> st = st0) -> (is_Some (ac_pending a) -> c = true) ->
  tv_ok s' /\ same_values s s' /\ server_ok s' /\ og_spent s ⊆ og_spent s' /\ og_reused s' = og_reused s /\ same_worker a a' /\ held a' s' st0 /\
  match r with
  | inl _ => True
  | inr (st', c') => usable st' s' /\ (c' = true \/ c' = c /\ st' = st /\ ac_pending a' = None)
  end.
Proof using A L.
  intros Hv Hok Hh Hu HH Hlost Hnone Hsome. unfold rotate in HH. unfold mbind, U_bind, self, world, update, mret, U_ret in HH. cbn [fst snd] in HH.
  destruct (http_now s) as [now s1] eqn:En. destruct (now_law _ _ _ Hv En) as [Hv1 Hs1]. destruct (now_frame _ _ _ En) as [Hg1 Hl1].
  pose proof (same_server_ok _ _ Hg1 Hok) as Hok1. pose proof (held_same _ _ _ _ Hg1 Hh) as Hh1.
  assert (Hu1 : usable st s1) by (unfold usable in *; by rewrite (proj1 Hg1)).
  destruct (needs_grant a st now).
  2: { injection HH as <- <- <-. destruct Hg1 as (E1 & E2 & E3). rewrite E2. do 8 (split; [done|]).
       destruct (ac_pending a) eqn:Ep; [left; apply Hsome; by eexists|by right]. }
  destruct (refreshGrant _ (a, s1)) as [g [a2 s2]] eqn:Eg.
  assert (Hlost2 : og_lost s2 = false).
  { destruct g as [f|[[access next] life]]; [by injection HH as _ _ <-|]. cbn [fst snd] in HH.
    destruct (http_now s2) as [now2 s3] eqn:En2. destruct (now_frame _ _ _ En2) as [_ Hl]. injection HH as _ _ <-. by rewrite <- Hl. }
  destruct (grant_step _ _ _ _ _ _ Hv1 (proj2 (proj2 Hu1)) Eg Hlost2) as (-> & Hv2 & Hs2 & Hg2).
  destruct g as [f|[[access next] life]].
  - injection HH as <- <- <-. pose proof (same_grants_trans _ _ _ Hg1 Hg2) as Hg. destruct Hg as (E1 & E2 & E3).
    split; [done|]. split; [intros k; by rewrite Hs2|]. split; [by eapply same_server_ok|]. rewrite E2. split; [done|]. split; [done|]. split; [done|].
    split; [|done]. by eapply held_same.
  - cbn [fst snd] in HH. destruct (http_now s2) as [now2 s3] eqn:En2. destruct (now_law _ _ _ Hv2 En2) as [Hv3 Hs3]. destruct (now_frame _ _ _ En2) as [Hg3 Hl3].
    cbn [fst snd] in HH. injection HH as <- <- <-.
    assert (Hspent : match ac_pending a with Some p => ro_spent p | None => tk_RefreshToken st end = tk_RefreshToken st0).
    { unfold held in Hh. destruct (ac_pending a) as [p|]; [by destruct Hh|]. by rewrite Hnone. }
    assert (Hold : tk_RefreshToken st0 ∈ og_spent s \/ tk_RefreshToken st0 = og_current s).
    { unfold held in Hh. destruct (ac_pending a) as [p|]; [|by right]. destruct Hh as (<- & (_ & _ & Hc) & [Hin|Hin]); [by left|right; by rewrite <- Hin]. }
    destruct Hu as (Hus & Hur & Huc). destruct Hg1 as (A1 & A2 & A3). destruct Hg3 as (C1 & C2 & C3).
    split; [done|]. split; [intros k; by rewrite Hs3, Hs2|]. unfold held, usable, server_ok. cbn [set_pending ac_pending ro_spent ro_state tk_Seed tk_RefreshToken].
    rewrite Hspent, C1, C2, C3. destruct Hg2 as [[-> (B1 & B2 & B3)]|(Hn & Hf & B1 & B2 & B3)].
    + cbn [String.eqb]. rewrite B1, B2, B3, A1, A2, A3. destruct Hok as [O1 O2]. split; [done|]. split; [done|]. split; [done|]. split; [done|].
      split; [|split; [done|by left]]. split; [done|]. split; [done|]. destruct Hold as [?| ->]; [by left|by right].
    + destruct (String.eqb_spec next "") as [?|_]; [done|]. rewrite B1, B2, B3, A1, A2, A3. rewrite A1, A2 in Hf.
      split; [done|]. split; [intros x Hx; by right|]. split; [done|]. split; [done|].
      split; [|split; [done|by left]]. split; [done|]. split; [done|]. left. destruct Hold as [?| ->]; [by right|by left].
Qed.

Lemma legacy_of_wf s st : legacy_of s = Some st -> tk_Seed st = seed /\ tk_RefreshToken st <> "".
Proof using.
  unfold legacy_of, legacy_state. destruct (String.eqb legacy_key ""); [done|]. destruct (tv_value legacy_key s) as [text|]; [|done].
  destruct (at_state text) as [st0|]; [|done]. destruct (String.eqb_spec (tk_Seed st0) seed); [|done].
  destruct (String.eqb_spec (tk_RefreshToken st0) ""); [done|]. by intros [= <-].
Qed.

Lemma in_store_wf s st c : in_store s = inr (st, c) -> tk_Seed st = seed /\ tk_RefreshToken st <> "".
Proof using Hseed. apply in_force_wf, legacy_of_wf. Qed.

Lemma may_go_in_store a s : may_go a s -> exists st c, in_store s = inr (st, c) /\ stored_token s = Some (tk_RefreshToken st).
Proof using.
  unfold may_go, in_charge, stored_token. destruct (in_store s) as [f|[st c]]; [|eauto]. by intros [?|(? & _ & ? & _)].
Qed.

Lemma callback_step legacy a s r a' s' : tv_ok s -> server_ok s -> worker_ok a s -> may_go a s ->
  in_force seed seed_token legacy (tv_value key s) = in_store s ->
  refresh_with seed legacy (tv_value key s) (a, s) = (r, (a', s')) -> og_lost s' = false ->
  exists st0 c0, in_store s = inr (st0, c0) /\
    tv_ok s' /\ same_values s s' /\ server_ok s' /\ og_spent s ⊆ og_spent s' /\ og_reused s' = og_reused s /\ same_worker a a' /\ held a' s' st0 /\
    match r with
    | inl _ => True
    | inr (next, st') => usable st' s' /\ (next = Some (at_marshal_state st') \/ next = None /\ c0 = false /\ st' = st0 /\ ac_pending a' = None)
    end.
Proof using A L Hseed.
  intros Hv Hok Hw Hgo Hin HH Hlost. destruct (may_go_in_store _ _ Hgo) as (st0 & c0 & Hst & Htok). exists st0, c0. split; [done|].
  destruct (in_store_wf _ _ _ Hst) as [Hs0 Hr0]. unfold refresh_with in HH. unfold mbind, U_bind, self, mret, U_ret in HH. cbn [fst snd] in HH.
  rewrite (wo_seed _ _ Hw), Hin, Hst in HH.
  destruct (catch_up st0 c0 (a, s)) as [[st1 c1] [a1 s1]] eqn:Ec.
  destruct (catch_up_step _ _ _ _ _ _ _ Hok Hw Hs0 Hr0 Htok Hgo Ec) as (-> & Hsw & Hh & Hu & Hnone & Hsome). cbn [fst snd] in *.
  destruct (rotate st1 c1 (a1, s)) as [g [a2 s2]] eqn:Er.
  assert (Hlost2 : og_lost s2 = false) by (by injection HH as _ _ <-).
  assert (Hn1 : ac_pending a1 = None -> st1 = st0) by (intros E; by injection (Hnone E)).
  destruct (rotate_step _ _ _ _ _ _ _ _ Hv Hok Hh Hu Er Hlost2 Hn1 Hsome) as (Hv2 & Hsv & Hok2 & Hsp & Hre & Hsw2 & Hh2 & Hg).
  injection HH as <- <- <-. split; [done|]. split; [done|]. split; [done|]. split; [done|]. split; [done|].
  split; [destruct Hsw as (? & ? & ?), Hsw2 as (? & ? & ?); unfold same_worker; split; [congruence|split; congruence]|]. split; [done|].
  destruct g as [f|[st' c']]; [done|]. destruct Hg as [Hu' [->|(-> & -> & Hp)]]; [split; [done|by left]|]. split; [done|].
  destruct c1; [by left|right]. destruct (ac_pending a1) as [p|] eqn:Ep; [by discriminate Hsome; eexists|]. injection (Hnone eq_refl) as -> <-. done.
Qed.

(** What the worker leaves when the transaction has ended. *)
Record after_update (a : authenticator) (s : S) (a' : authenticator) (s' : S) (r : failure + tokenState) : Prop := mkAfterUpdate {
  af_ok : tv_ok s';
  af_server : server_ok s';
  af_spent : og_spent s ⊆ og_spent s';
  af_reused : og_reused s' = og_reused s;
  af_same : same_worker a a';
  af_kept : is_Some (tv_value key s) -> is_Some (tv_value key s');
  af_pending : forall p, ac_pending a' = Some p -> tk_Seed (ro_state p) = seed /\ tk_RefreshToken (ro_state p) <> "" /\
    (ro_spent p ∈ og_spent s' \/ tk_RefreshToken (ro_state p) = ro_spent p);
  af_go : may_go a' s';
  af_done : forall st, r = inr st -> stored_token s' = Some (og_current s') /\ is_Some (tv_value key s')
}.

Lemma held_go a s st0 : stored_token s = Some (tk_RefreshToken st0) -> held a s st0 -> may_go a s.
Proof using.
  unfold held, may_go, in_charge. intros Hs Hh. destruct (ac_pending a) as [p|]; [|left; congruence]. destruct Hh as (E & (_ & _ & Hc) & _).
  right. exists p. split; [done|]. by rewrite Hs, E.
Qed.

Lemma held_pending a s st0 p : held a s st0 -> ac_pending a = Some p -> tk_Seed (ro_state p) = seed /\ tk_RefreshToken (ro_state p) <> "" /\
  (ro_spent p ∈ og_spent s \/ tk_RefreshToken (ro_state p) = ro_spent p).
Proof using. unfold held. intros Hh E. rewrite E in Hh. by destruct Hh as (_ & (? & ? & _) & ?). Qed.

Lemma store_token s st : tv_value key s = Some (at_marshal_state st) -> tk_Seed st = seed -> tk_RefreshToken st <> "" ->
  stored_token s = Some (tk_RefreshToken st).
Proof using A. intros E Hs Hr. unfold stored_token, in_store. by rewrite E, in_force_stored. Qed.

Lemma stored_changed s st c : in_store s = inr (st, c) -> c = false -> is_Some (tv_value key s).
Proof using.
  unfold in_store, in_force. destruct (tv_value key s); [eauto|]. destruct (legacy_of s) as [l|]; destruct (_ || _) eqn:E; intros [= <- <-]; try done.
  cbn in E. by rewrite orb_true_r in E.
Qed.

Lemma worker_moves a s s' : same_values s s' -> same_grants s s' -> worker_ok a s -> worker_ok a s'.
Proof using. intros Hv (_ & E & _) [H1 H2 H3 H4]. split; [done|done|by rewrite Hv|by rewrite E]. Qed.

Lemma may_go_moves a s s' : same_values s s' -> same_grants s s' -> may_go a s -> may_go a s'.
Proof using. intros Hv (E & _). unfold may_go, in_charge, stored_token. by rewrite (in_store_same _ _ Hv), E. Qed.

Lemma update_step legacy a s r a' s' : tv_ok s -> server_ok s -> worker_ok a s -> may_go a s ->
  in_force seed seed_token legacy (tv_value key s) = in_store s ->
  UpdateToken key (refresh_with seed legacy) (a, s) = (r, (a', s')) -> og_lost s' = false -> after_update a s a' s' r.
Proof using A L Hseed.
  intros Hv Hok Hw Hgo Hin HH Hlost. unfold UpdateToken in HH. unfold mbind, U_bind, world, mret, U_ret in HH. cbn [fst snd] in HH.
  destruct (ts_open key s) as [cur s1] eqn:Eo. destruct (open_law _ _ _ _ Hv Eo) as (Hv1 & Hs1 & Hcur). destruct (open_frame _ _ _ _ Eo) as [Hg1 _].
  pose proof (worker_moves _ _ _ Hs1 Hg1 Hw) as Hw1. pose proof (may_go_moves _ _ _ Hs1 Hg1 Hgo) as Hgo1.
  pose proof (same_server_ok _ _ Hg1 Hok) as Hok1. destruct Hg1 as (G1 & G2 & G3).
  destruct cur as [cur|e].
  2: { injection HH as <- <- <-. split; [done|done|by rewrite G2|done|done|by rewrite Hs1|by apply (wo_pending _ _ Hw1)|done|done]. }
  rewrite (Hcur _ eq_refl), <- (Hs1 key) in HH. rewrite <- (Hs1 key), <- (in_store_same _ _ Hs1) in Hin.
  destruct (refresh_with _ _ _ (a, s1)) as [g [a2 s2]] eqn:Eg. cbn [fst snd] in HH.
  assert (Hlost2 : og_lost s2 = false).
  { destruct g as [f|[next st]]; [by injection HH as _ _ <-|]. cbn [fst snd] in HH. destruct (ts_close key next s2) as [e s3] eqn:Ec.
    destruct (close_frame _ _ _ _ _ Ec) as [_ Hl]. injection HH as _ _ <-. by rewrite <- Hl. }
  destruct (callback_step _ _ _ _ _ _ Hv1 Hok1 Hw1 Hgo1 Hin Eg Hlost2) as (st0 & c0 & Hst & Hv2 & Hs2 & Hok2 & Hsp & Hre & Hsw & Hh & Hr).
  assert (Htok2 : stored_token s2 = Some (tk_RefreshToken st0)) by (unfold stored_token; by rewrite (in_store_same _ _ Hs2), Hst).
  destruct g as [f|[next st]].
  { injection HH as <- <- <-. split; [done|done|by rewrite <- G2|by rewrite Hre|done|by rewrite Hs2, Hs1|by (intros p Hpp; exact (held_pending _ _ _ _ Hh Hpp))|by eapply held_go|done]. }
  cbn [fst snd] in HH. destruct (ts_close key next s2) as [e s3] eqn:Ec. injection HH as <- <- <-.
  destruct (close_law _ _ _ _ _ Hv2 Ec) as (Hv3 & Hother & Hkey). destruct (close_frame _ _ _ _ _ Ec) as [Hg3 _].
  pose proof (held_same _ _ _ _ Hg3 Hh) as Hh3. pose proof (same_server_ok _ _ Hg3 Hok2) as Hok3. destruct Hg3 as (E1 & E2 & E3).
  destruct Hr as [Hu Hnext].
  destruct Hkey as [[Hsame He]|(text & -> & Hnew)].
  - assert (Hs3 : same_values s2 s3) by (intros k; destruct (decide (k = key)) as [->|]; [done|by apply Hother]).
    assert (Htok3 : stored_token s3 = Some (tk_RefreshToken st0)) by (unfold stored_token in *; by rewrite (in_store_same _ _ Hs3)).
    split; [done|done|by rewrite E2, <- G2|congruence|done|by rewrite Hs3, Hs2, Hs1|by (intros p Hpp; exact (held_pending _ _ _ _ Hh3 Hpp))|by eapply held_go|].
    intros st' Hst'. destruct e as [e|]; [done|]. destruct Hnext as [->|(-> & -> & -> & Hp)]; [by destruct He as [?|[? ?]]|].
    split; [|rewrite Hs3, Hs2; by eapply stored_changed]. rewrite Htok3. unfold held in Hh3. rewrite Hp in Hh3. by rewrite Hh3.
  - destruct Hnext as [[= ->]|(? & _)]; [|done]. destruct Hu as (U1 & U2 & U3). pose proof (store_token _ _ Hnew U1 U2) as Htok3. rewrite U3, <- E1 in Htok3.
    split; [done|done|by rewrite E2, <- G2|congruence|done|by rewrite Hnew; eauto|by (intros p Hpp; exact (held_pending _ _ _ _ Hh3 Hpp))|by left|].
    intros _ _. split; [done|]. rewrite Hnew. eauto.
Qed.

Lemma in_force_any_legacy legacy legacy' cur : is_Some cur -> in_force seed seed_token legacy cur = in_force seed seed_token legacy' cur.
Proof using. by intros [text ->]. Qed.

Lemma legacy_step a s r a' s' : tv_ok s -> worker_ok a s -> read_legacy seed (a, s) = (r, (a', s')) ->
  a' = a /\ tv_ok s' /\ same_values s s' /\ same_grants s s' /\
  forall legacy, r = inr legacy -> in_force seed seed_token legacy (tv_value key s') = in_store s'.
Proof using A L.
  intros Hv Hw HH. unfold read_legacy in HH. unfold mbind, U_bind, self, mret, U_ret in HH. cbn [fst snd] in HH.
  destruct (String.eqb_spec (ac_legacyKey a) "") as [E|E].
  - injection HH as <- <- <-. split; [done|]. split; [done|]. split; [done|]. split; [done|]. intros legacy [= <-]. unfold in_store, legacy_of.
    destruct (wo_legacy _ _ Hw) as [Hl|[_ Hk]]; [|by apply in_force_any_legacy]. by rewrite <- Hl, E.
  - destruct (wo_legacy _ _ Hw) as [Hl|[? _]]; [|done]. unfold UpdateToken in HH. unfold mbind, U_bind, world, mret, U_ret in HH. cbn [fst snd] in HH.
    destruct (ts_open _ s) as [cur s1] eqn:Eo. destruct (open_law _ _ _ _ Hv Eo) as (Hv1 & Hs1 & Hcur). destruct (open_frame _ _ _ _ Eo) as [Hg1 _].
    destruct cur as [cur|e]; [|by injection HH as <- <- <-]. cbn [fst snd] in HH.
    destruct (ts_close _ None s1) as [e s2] eqn:Ec. destruct (close_law _ _ _ _ _ Hv1 Ec) as (Hv2 & Hother & Hkey). destruct (close_frame _ _ _ _ _ Ec) as [Hg2 _].
    injection HH as <- <- <-.
    assert (Hs2 : same_values s s2).
    { intros k. rewrite <- Hs1. destruct (decide (k = ac_legacyKey a)) as [->|]; [|by apply Hother]. by destruct Hkey as [[? _]|(? & ? & _)]. }
    split; [done|]. split; [done|]. split; [done|]. split; [by eapply same_grants_trans|]. intros legacy Hr. destruct e as [e|]; [done|].
    injection Hr as <-. unfold in_store, legacy_of. rewrite <- Hl. destruct (String.eqb_spec (ac_legacyKey a) ""); [done|].
    rewrite (Hcur _ eq_refl), Hs2. unfold legacy_state. by rewrite Hs2.
Qed.

(** A call of [refreshed]: the worker may go on, and whatever other workers hold stays as
    it should be. *)
Lemma refreshed_step a s r a' s' : tv_ok s -> server_ok s -> worker_ok a s -> may_go a s ->
  refreshed (a, s) = (r, (a', s')) -> og_lost s' = false ->
  tv_ok s' /\ server_ok s' /\ og_spent s ⊆ og_spent s' /\ og_reused s' = og_reused s /\ (is_Some (tv_value key s) -> is_Some (tv_value key s')) /\
  worker_ok a' s' /\ may_go a' s'.
Proof using A L Hseed.
  intros Hv Hok Hw Hgo HH Hlost. unfold refreshed in HH. unfold mbind, U_bind, self, world, update, mret, U_ret in HH. cbn [fst snd] in HH.
  destruct (http_now s) as [now s1] eqn:En. destruct (now_law _ _ _ Hv En) as [Hv1 Hs1]. destruct (now_frame _ _ _ En) as [Hg1 _].
  pose proof (worker_moves _ _ _ Hs1 Hg1 Hw) as Hw1. pose proof (may_go_moves _ _ _ Hs1 Hg1 Hgo) as Hgo1. pose proof (same_server_ok _ _ Hg1 Hok) as Hok1.
  destruct Hg1 as (G1 & G2 & G3).
  assert (Hquiet : forall s2, tv_ok s2 -> same_values s1 s2 -> same_grants s1 s2 ->
    tv_ok s2 /\ server_ok s2 /\ og_spent s ⊆ og_spent s2 /\ og_reused s2 = og_reused s /\ (is_Some (tv_value key s) -> is_Some (tv_value key s2)) /\
    worker_ok a s2 /\ may_go a s2).
  { intros s2 Hv2 Hs2 Hg2. split; [done|]. split; [by eapply same_server_ok|]. pose proof Hg2 as (E1 & E2 & E3). rewrite E2, G2, E3, G3, Hs2, Hs1.
    split; [done|]. split; [done|]. split; [done|]. split; [by eapply worker_moves|by eapply may_go_moves]. }
  destruct (live a now); [injection HH as <- <- <-; by apply Hquiet|]. destruct (negb (ac_tokens a)); [injection HH as <- <- <-; by apply Hquiet|].
  rewrite (wo_seed _ _ Hw), (wo_key _ _ Hw) in HH. fold seed in HH.
  destruct (read_legacy seed (a, s1)) as [l [a2 s2]] eqn:El. destruct (legacy_step _ _ _ _ _ Hv1 Hw1 El) as (-> & Hv2 & Hs2 & Hg2 & Hin).
  destruct l as [f|legacy]; [injection HH as <- <- <-; by apply Hquiet|]. specialize (Hin _ eq_refl).
  destruct (Hquiet s2 Hv2 Hs2 Hg2) as (_ & Hok2 & Hsp2 & Hre2 & Hk2 & Hw2 & Hgo2).
  destruct (UpdateToken key _ (a, s2)) as [g [a3 s3]] eqn:Eu. cbn [fst snd] in HH.
  assert (Hlost3 : og_lost s3 = false) by (destruct g; by injection HH as _ _ <-).
  destruct (update_step _ _ _ _ _ _ Hv2 Hok2 Hw2 Hgo2 Hin Eu Hlost3) as [Hv3 Hok3 Hsp3 Hre3 (Q1 & Q2 & Q3) Hk3 Hp3 Hgo3 Hdone].
  assert (Hcommon : tv_ok s3 /\ server_ok s3 /\ og_spent s ⊆ og_spent s3 /\ og_reused s3 = og_reused s /\ (is_Some (tv_value key s) -> is_Some (tv_value key s3))).
  { split; [done|]. split; [done|]. split; [by transitivity (og_spent s2)|]. split; [congruence|auto]. }
  destruct Hw2 as [W1 W2 W3 _]. destruct Hcommon as (C1 & C2 & C3 & C4 & C5). destruct g as [f|st]; injection HH as <- <- <-; do 5 (split; [done|]).
  - split; [|done]. split; [congruence|congruence|rewrite Q3; destruct W3 as [?|[? ?]]; [by left|right; auto]|done].
  - destruct (Hdone _ eq_refl) as [Htok Hsome]. split; [|by left]. split; cbn; [congruence|congruence|by right|done].
Qed.

(** ** Runs *)

Definition started (a : authenticator) : Prop :=
  ac_refreshToken a = seed_token /\ ac_tokenKey a = key /\ ac_legacyKey a = legacy_key /\ ac_pending a = None.

(** Workers that share the store ask for access tokens, drop ones that were refused and are
    replaced, while time passes and other requests are made. A worker asks while the store
    is not behind, or when it holds the rotation that the store missed; the answer to a
    grant is not lost; and a worker is replaced when the store is not behind. *)
Inductive spending : list authenticator -> S -> Prop :=
| spending_start ws s : Forall started ws -> tv_ok s -> server_ok s -> og_reused s = false -> stored_token s = Some (og_current s) -> spending ws s
| spending_call ws s i a : spending ws s -> ws !! i = Some a -> may_go a s -> og_lost (snd (snd (refreshed (a, s)))) = false ->
    spending (<[i := fst (snd (refreshed (a, s)))]> ws) (snd (snd (refreshed (a, s))))
| spending_refused ws s i a req : spending ws s -> ws !! i = Some a -> spending (<[i := invalidate req a]> ws) s
| spending_replaced ws s i b : spending ws s -> started b -> stored_token s = Some (og_current s) -> spending (<[i := b]> ws) s
| spending_else ws s s' : spending ws s -> tv_ok s' -> same_values s s' -> same_grants s s' -> spending ws s'.

Record shared (ws : list authenticator) (s : S) : Prop := mkShared {
  sh_ok : tv_ok s;
  sh_server : server_ok s;
  sh_reused : og_reused s = false;
  sh_workers : Forall (fun a => worker_ok a s) ws;
  sh_go : stored_token s = Some (og_current s) \/ exists i a, ws !! i = Some a /\ in_charge a s
}.

Lemma started_ok a s : started a -> worker_ok a s.
Proof using. intros (H1 & H2 & H3 & H4). split; [done|done|by left|]. intros p Hp. congruence. Qed.

Lemma invalidate_pending req a : ac_pending (invalidate req a) = ac_pending a /\ ac_refreshToken (invalidate req a) = ac_refreshToken a /\
  ac_tokenKey (invalidate req a) = ac_tokenKey a /\ ac_legacyKey (invalidate req a) = ac_legacyKey a.
Proof using. unfold invalidate. destruct (String.eqb (ac_token a) ""); [done|]. destruct req as [req|]; [|done]. by destruct (String.eqb _ (ac_token a)). Qed.

Lemma spending_shared ws s : spending ws s -> shared ws s.
Proof using A L Hseed.
  induction 1 as [ws s Hw Hv Hok Hre Hst|ws s i a _ [Hv Hok Hre Hws Hgo] Hi Hmay Hlost|ws s i a req _ [Hv Hok Hre Hws Hgo] Hi
    |ws s i b _ [Hv Hok Hre Hws Hgo] Hb Hst|ws s s' _ [Hv Hok Hre Hws Hgo] Hv' Hsame Hg].
  - split; [done|done|done| |by left]. eapply Forall_impl; [exact Hw|]. intros a. apply started_ok.
  - destruct (refreshed (a, s)) as [r [a' s']] eqn:Er. cbn [fst snd] in *.
    destruct (refreshed_step _ _ _ _ _ Hv Hok (proj1 (Forall_lookup _ _) Hws i a Hi) Hmay Er Hlost) as (Hv' & Hok' & Hsp & Hre' & Hk & Hw' & Hgo').
    split; [done|done|congruence| |].
    + apply Forall_insert; [|done]. eapply Forall_impl; [exact Hws|]. intros b [B1 B2 B3 B4]. split; [done|done|destruct B3 as [?|[? ?]]; auto|].
      intros p Hp. destruct (B4 p Hp) as (? & ? & [?|?]); split; try done; split; try done; [left; by apply Hsp|by right].
    + destruct Hgo' as [?|?]; [by left|right]. exists i, a'. split; [|done]. rewrite list_lookup_insert_eq; [done|]. by eapply lookup_lt_Some.
  - destruct (invalidate_pending req a) as (P1 & P2 & P3 & P4). split; [done|done|done| |].
    + apply Forall_insert; [done|]. destruct (proj1 (Forall_lookup _ _) Hws i a Hi) as [B1 B2 B3 B4]. split; [by rewrite P2|by rewrite P3|by rewrite P4|by rewrite P1].
    + destruct Hgo as [?|(j & b & Hj & Hc)]; [by left|right]. destruct (decide (i = j)) as [->|Hne].
      * exists j, (invalidate req a). rewrite Hi in Hj. injection Hj as <-. split; [rewrite list_lookup_insert_eq; [done|by eapply lookup_lt_Some]|].
        destruct Hc as (p & Hp & Hc). exists p. by rewrite P1.
      * exists j, b. by rewrite list_lookup_insert_ne.
  - split; [done|done|done| |by left]. apply Forall_insert; [done|]. by apply started_ok.
  - split; [done|by eapply same_server_ok|by rewrite (proj2 (proj2 Hg))| |].
    + eapply Forall_impl; [exact Hws|]. intros a. by apply worker_moves.
    + destruct Hgo as [Hst|(i & a & Hi & Hc)].
      * left. unfold stored_token in *. by rewrite (in_store_same _ _ Hsame), (proj1 Hg).
      * right. exists i, a. split; [done|]. destruct Hc as (p & Hp & Hsp & Hc). exists p. unfold stored_token in *. by rewrite (in_store_same _ _ Hsame), (proj1 Hg).
Qed.

End spending.

(** ** Two workers and a server *)

Module Rotations.
(** A server whose tokens are of growing length, and the cipher and vault of one key. *)
Record Grantor := mkGrantor { gr_rotations : nat; gr_reused : bool }.
Definition tok (n : nat) : string := String.concat "" (repeat "r" (S n)).
Fixpoint replaced (n : nat) : list string := match n with O => [] | S n => tok n :: replaced n end.

#[local] Instance grantor_http : Http Grantor := {|
  http_do req w :=
    match query_value "refresh_token" (rq_body req) with
    | None => (Answer 404 ∅ [] "", w)
    | Some t =>
        if String.eqb t (tok (gr_rotations w)) then (Answer 200 ∅ [] (tok (S (gr_rotations w))), mkGrantor (S (gr_rotations w)) (gr_reused w))
        else (Answer 400 ∅ [] "invalid_grant", mkGrantor (gr_rotations w) true)
    end;
  http_now w := (0%Z, w);
  http_random n w := (String.concat "" (repeat "0" n), w)
|}.

(** Tokens are stored as the bits of their code. *)
Fixpoint bits (p : positive) : string :=
  match p with xH => "" | xO p => String "0" (bits p) | xI p => String "1" (bits p) end.
Fixpoint of_bits (s : string) : positive :=
  match s with "" => xH | String c s => if Ascii.eqb c "0" then xO (of_bits s) else xI (of_bits s) end.

#[local] Instance grantor_text : AuthText := {|
  at_sha256 s := s; at_hmac k m := k +++ m; at_url _ := None; at_client _ := Some ("app", "secret", tok 0); at_oauth1 _ := None; at_login _ := None;
  at_token body := Some ("access-" +++ body, body, 3600%Z); at_timeout _ := 0%float;
  at_state s := match decode (of_bits s) with Some (a, b, c, d) => Some (mkTokenState a b c d) | None => None end;
  at_marshal_state st := bits (encode (tk_Seed st, tk_RefreshToken st, tk_AccessToken st, tk_Expires st)) |}.

#[local] Instance clear_cipher : Aead := {| ae_seal k nonce text ad := k +++ ad +++ text; ae_open k nonce sealed ad := strip_prefix (k +++ ad) sealed |}.
Definition vault : TokenVault := mkTokenVault "k1" {[ "k1" := "key" ]}.
#[local] Instance vault_tokens : TokenStore (S := Site Grantor) := vault_store vault.
#[local] Instance vault_view : TokenValues (Site Grantor) := vault_values vault.

#[local] Instance cipher_laws : AeadLaws clear_cipher Grantor.
Proof.
  split.
  - intros k nonce text ad. cbn. rewrite <- str_app_assoc. by apply strip_prefix_spec.
  - intros n w s w' [= <- <-]. induction n as [|[|n] IH]; [done|done|]. cbn in *. by f_equal.
Qed.

#[local] Instance grantor_server : AuthServer (Site Grantor) := {|
  og_current s := tok (gr_rotations (st_world s)); og_spent s := replaced (gr_rotations (st_world s));
  og_reused s := gr_reused (st_world s); og_lost _ := false; og_token req := query_value "refresh_token" (rq_body req) |}.

Lemma bits_back p : of_bits (bits p) = p.
Proof. induction p as [p IH|p IH|]; cbn; by rewrite ?IH. Qed.

Lemma tok_length n : String.length (tok n) = S n.
Proof. unfold tok. induction n as [|n IH]; [done|]. cbn in *. by f_equal. Qed.

Lemma tok_fresh n : forall m, n <= m -> tok m ∉ replaced n.
Proof.
  induction n as [|n IH]; intros m Hm Hin; [by apply elem_of_nil in Hin|]. apply elem_of_cons in Hin as [E|Hin]; [|by apply (IH m); [lia|]].
  apply (f_equal String.length) in E. rewrite !tok_length in E. lia.
Qed.

Lemma tok_nonempty n : tok n <> "".
Proof. intros E. apply (f_equal String.length) in E. by rewrite tok_length in E. Qed.

Lemma vault_frame (s s' : Site Grantor) : st_world s' = st_world s -> same_grants s s' /\ og_lost s' = og_lost s.
Proof. unfold same_grants. cbn. by intros ->. Qed.

#[local] Instance grantor_laws : AuthServerLaws (S := Site Grantor).
Proof.
  split.
  - intros url h form t Hf. cbn. by rewrite query_value_encode.
  - intros req s ans s' Hd Ht _. cbn in Hd, Ht. unfold on_world in Hd. cbn in Hd. rewrite Ht, String.eqb_refl in Hd. injection Hd as <- <-. right.
    exists ("access-" +++ tok (S (gr_rotations (st_world s)))), (tok (S (gr_rotations (st_world s)))), (token_life 3600). split; [done|]. right.
    split; [apply tok_nonempty|]. split; [|done]. exact (tok_fresh (S (gr_rotations (st_world s))) (S (gr_rotations (st_world s))) (le_n _)).
  - intros s n s' [= <- <-]. by apply vault_frame.
  - intros key s r s' Ho. cbn in Ho. unfold vault_open in Ho. destruct (token_stmt _ _ s) as [r0 s0] eqn:Es. apply token_stmt_rows in Es as [Ew _].
    injection Ho as _ <-. by apply vault_frame.
  - intros key next s e s' Hc. cbn in Hc. unfold vault_close in Hc. destruct next as [text|].
    + cbn [http_random grantor_http] in Hc. destruct (token_stmt _ _ _) as [r0 s0] eqn:Es. apply token_stmt_rows in Es as [Ew _]. injection Hc as _ <-. by apply vault_frame.
    + destruct (token_stmt _ _ _) as [r0 s0] eqn:Es. apply token_stmt_rows in Es as [Ew _]. injection Hc as _ <-. by apply vault_frame.
  - intros st. cbn. rewrite bits_back, decode_encode. by destruct st.
Qed.

#[local] Instance vault_laws : TokenStoreLaws vault_view := vault_store_laws vault.

(** A connection's worker, as it starts; a store that loses the first rotation. *)
Definition app : Auth := mkAuth "oauth2-refresh" "" "https://auth.example.com/token" [] "" "" "" [].
Definition fresh : authenticator := useTokens "rest/shop" (plain app "" "app" "secret" (tok 0) no_oauth1).
Definition outage : list (option (goerr * bool)) := [None; None; None; Some (Errorf (msg0 "conn closed"), false)].
Definition begun : Site Grantor := mkSite (mkGrantor 0 false) ∅ outage.

Definition ask (i : nat) (x : list authenticator * Site Grantor) : list authenticator * Site Grantor :=
  match x.1 !! i with
  | Some a => let s := snd (refreshed (a, x.2)) in (<[i := fst s]> x.1, snd s)
  | None => x
  end.
Definition drop (i : nat) (x : list authenticator * Site Grantor) : list authenticator * Site Grantor :=
  match x.1 !! i with Some a => (<[i := invalidate None a]> x.1, x.2) | None => x end.

(** The first worker asks twice; the second then shares its token, and asks for another
    when that one is refused. *)
Definition retried := ask 0 (ask 0 ([fresh; fresh], begun)).
Definition shared_run := ask 1 (drop 1 (ask 1 retried)).

Abbreviation Spending := (spending (S := Site Grantor) (tok 0) (ac_tokenKey fresh) (ac_legacyKey fresh)).

Lemma ask_spends i x a : Spending x.1 x.2 -> x.1 !! i = Some a -> may_go (tok 0) (ac_tokenKey fresh) (ac_legacyKey fresh) a x.2 -> Spending (ask i x).1 (ask i x).2.
Proof. intros Hx Ha Hgo. unfold ask. rewrite Ha. by apply spending_call. Qed.

Definition worker_at (i : nat) (x : list authenticator * Site Grantor) : authenticator := default fresh (x.1 !! i).

Lemma first_asked : Spending (ask 0 ([fresh; fresh], begun)).1 (ask 0 ([fresh; fresh], begun)).2.
Proof.
  refine (ask_spends 0 ([fresh; fresh], begun) fresh _ eq_refl _); [|left; vm_compute; reflexivity].
  assert (Hs : started (tok 0) (ac_tokenKey fresh) (ac_legacyKey fresh) fresh) by done.
  apply spending_start; [exact (Forall_cons_2 _ _ _ Hs (Forall_cons_2 _ _ _ Hs (Forall_nil_2 _)))| |split; [done|by (intros Hin; cbn in Hin; apply elem_of_nil in Hin)]|done|vm_compute; reflexivity].
  split; [vm_compute; eauto|]. intros key row Hl. cbn in Hl. by rewrite lookup_empty in Hl.
Qed.


(** While the first worker holds a rotation that could not be stored, another one spends
    the replaced token again, and the server revokes the authorization. *)
Lemma lost_rotation_is_respent : gr_reused (st_world (ask 1 (ask 0 ([fresh; fresh], begun))).2) = true.
Proof. vm_compute. reflexivity. Qed.
End Rotations.
