(* ===== verification/RestProps.v ===== *)
(** Polls of the REST connector: what its requests leave alone, and that a poll passes over
    no item. *)

From S2P Require Import Turgon Prelude GoStr GoText GoErr GoTime GoDate GuardData Guard Template Engine RestAuth Rest.
From Stdlib Require Import Ascii String.

(** ** What a computation leaves alone *)

(** A relation between the worlds before and after, kept by every step of the outside. *)
Class Framed {S : Type} `{H : Http S} `{K : !TokenStore (S := S)} (R : S -> S -> Prop) : Prop := {
  fr_order : PreOrder R;
  fr_do req s a s' : http_do req s = (a, s') -> R s s';
  fr_now s n s' : http_now s = (n, s') -> R s s';
  fr_random n s b s' : http_random n s = (b, s') -> R s s';
  fr_open key s r s' : ts_open key s = (r, s') -> R s s';
  fr_close key next s e s' : ts_close key next s = (e, s') -> R s s'
}.

Section frames.
Context {S : Type} `{A : AuthText} `{H : Http S} `{K : !TokenStore (S := S)} {R : S -> S -> Prop} `{F : !Framed R}.

Definition framed {X} (m : U (S := S) X) : Prop := forall a s r a' s', m (a, s) = (r, (a', s')) -> R s s'.

Lemma framed_ret {X} (x : X) : framed (mret x).
Proof using F. intros a s r a' s' [= _ _ <-]. apply fr_order. Qed.

Lemma framed_bind {X Y} (m : U (S := S) X) (k : X -> U (S := S) Y) : framed m -> (forall x, framed (k x)) -> framed (m ≫= k).
Proof using F.
  intros Hm Hk a s r a' s' Hr. unfold mbind, U_bind in Hr. destruct (m (a, s)) as [x [a1 s1]] eqn:E.
  apply (PreOrder_Transitive (PreOrder := fr_order) s s1 s'); [by eapply Hm|by eapply Hk].
Qed.

Lemma framed_self : framed self.
Proof using F. intros a s r a' s' [= _ _ <-]. apply fr_order. Qed.

Lemma framed_update f : framed (update f).
Proof using F. intros a s r a' s' [= _ _ <-]. apply fr_order. Qed.

Lemma framed_world {X} (f : S -> X * S) : (forall s x s', f s = (x, s') -> R s s') -> framed (world f).
Proof using F.
  intros Hf a s r a' s' Hr. unfold world in Hr. cbn [fst snd] in Hr. destruct (f s) as [x w] eqn:E. injection Hr as _ _ <-. by eapply Hf.
Qed.

Lemma framed_do req : framed (world (http_do req)).
Proof using F. apply framed_world. apply fr_do. Qed.
Lemma framed_now : framed (world http_now).
Proof using F. apply framed_world. apply fr_now. Qed.
Lemma framed_random n : framed (world (http_random n)).
Proof using F. apply framed_world. apply fr_random. Qed.
Lemma framed_open key : framed (world (ts_open key)).
Proof using F. apply framed_world. apply fr_open. Qed.
Lemma framed_close key next : framed (world (ts_close key next)).
Proof using F. apply framed_world. apply fr_close. Qed.
End frames.

(** A computation is framed when its steps are. *)
Ltac frame_step :=
  first
    [ assumption | apply framed_ret | apply framed_self | apply framed_update | apply framed_do | apply framed_now | apply framed_random
    | apply framed_open | apply framed_close
    | apply framed_bind; [|intros]
    | match goal with
      | |- framed (match ?x with _ => _ end) => destruct x
      | |- framed (let _ := _ in _) => cbv zeta
      end ].
Ltac frame := repeat frame_step.

Section requests.
Context {S : Type} `{A : AuthText} `{T : RestText} `{H : Http S} `{K : !TokenStore (S := S)} {R : S -> S -> Prop} `{F : !Framed R} (cfg : Config).
#[local] Abbreviation keeps := (framed (S := S) (R := R)).

Lemma framed_token_request form url : keeps (token_request form url).
Proof using F. unfold token_request. frame. Qed.

Lemma framed_UpdateToken {X} key (fn : option string -> U (S := S) (failure + (option string * X))) : (forall cur, keeps (fn cur)) -> keeps (UpdateToken key fn).
Proof using F. intros Hf. unfold UpdateToken. frame. apply Hf. Qed.

Lemma framed_refreshed : keeps refreshed.
Proof using F.
  unfold refreshed, read_legacy, refresh_with, catch_up, rotate, refreshGrant, token_request. frame; try (apply framed_UpdateToken; intros); frame.
Qed.

Lemma framed_apply req : keeps (apply req).
Proof using F. unfold apply, with_token, current_token, session, token_request. frame. Qed.

Lemma framed_attempt req : keeps (attempt req).
Proof using F. unfold attempt, then_, answer_. apply framed_bind; [apply framed_apply|intros]. frame. Qed.

Lemma framed_doH method path q h b : keeps (doH cfg method path q h b).
Proof using F. unfold doH, then_, answer_. apply framed_bind; [apply framed_attempt|intros]. frame. Qed.

Lemma framed_do_ method path q h b : keeps (do_ cfg method path q h b).
Proof using F. unfold do_, then_, answer_. apply framed_bind; [apply framed_doH|intros]. frame. Qed.

(** Credentials are only headers. *)
Lemma with_token_request k prefix req m (x : authenticator * S) r x' : with_token k prefix req m x = (inr r, x') ->
  rq_method r = rq_method req /\ rq_target r = rq_target req /\ rq_body r = rq_body req.
Proof using. unfold with_token, mbind, U_bind, mret, U_ret. destruct (m x) as [[f|t] x1]; [done|]. by intros [= <- _]. Qed.

Lemma apply_request req (x : authenticator * S) r x' : apply req x = (inr r, x') ->
  rq_method r = rq_method req /\ rq_target r = rq_target req /\ rq_body r = rq_body req.
Proof using.
  unfold apply, mbind, U_bind, self, mret, U_ret, world. cbv zeta. repeat case_match; intros Hr; simplify_eq; try done; try (by eapply with_token_request).
Qed.

(** What an API gave for a request: the body of an answer below 300. *)
Definition good (ans : answer) (h : Header) (v : json) : Prop :=
  exists status cookies data, ans = Answer status h cookies data /\ (status < 300)%Z /\
    (trim_space data = "" /\ v = JNull \/ trim_space data <> "" /\ rt_decode data = Some v).

Lemma attempt_answer req a s sent ans a' s' : attempt req (a, s) = (inr (sent, ans), (a', s')) ->
  exists s1, R s s1 /\ http_do sent s1 = (ans, s') /\ rq_method sent = rq_method req /\ rq_target sent = rq_target req /\ rq_body sent = rq_body req.
Proof using F.
  unfold attempt, then_, answer_, mbind, U_bind, mret, U_ret, world. destruct (apply req (a, s)) as [[f|r] [a1 s1]] eqn:E; [done|]. cbn [fst snd].
  destruct (http_do r s1) as [ans1 s2] eqn:Ed. intros [= <- <- <- <-]. exists s1. split; [by eapply framed_apply|]. split; [done|]. by eapply apply_request.
Qed.

Lemma doH_answer method path q h b a s hd v a' s' : doH cfg method path q h b (a, s) = (inr (hd, v), (a', s')) ->
  exists sent s1 ans, R s s1 /\ http_do sent s1 = (ans, s') /\ good ans hd v /\
    rq_method sent = method /\ rq_target sent = rq_target (unsigned cfg method path q h b) /\ rq_body sent = payload_of b.
Proof using F.
  intros Hd. unfold doH in Hd. unfold then_, mbind, U_bind, mret, U_ret, self, update in Hd. cbn [fst snd] in Hd.
  destruct (attempt _ (a, s)) as [[f|[sent ans]] [a1 s1]] eqn:E1; [done|]. cbn [fst snd] in Hd.
  destruct (attempt_answer _ _ _ _ _ _ _ E1) as (s0 & R0 & D0 & M0).
  assert (Hgood : forall ans0 : answer, match ans0 with
     | NoAnswer e => inl (Failed (Wrapf (Msg "%s %s: %w" [FStr method; FStr path]) [e]))
     | Answer status h0 _ data =>
       if (300 <=? status)%Z then inl (APIError method path status (short_message (trim_space data)))
       else if String.eqb (trim_space data) "" then inr (h0, JNull)
       else match rt_decode data with Some v => inr (h0, v) | None => inl (Failed (Errorf (msg0 "the answer is not JSON"))) end
     end = inr (hd, v) -> good ans0 hd v).
  { intros [e|status h0 cookies data]; [done|]. destruct (300 <=? status)%Z eqn:Es; [done|]. apply Z.leb_gt in Es.
    destruct (String.eqb_spec (trim_space data) "") as [Et|Et].
    - intros [= <- <-]. exists status, cookies, data. eauto.
    - destruct (rt_decode data) as [v0|] eqn:Er; [|done]. intros [= <- <-]. exists status, cookies, data. eauto. }
  destruct (stale ans && refreshable a1); cbn [fst snd] in Hd.
  - destruct (attempt _ (invalidate (Some sent) a1, s1)) as [[f|[sent2 ans2]] [a2 s2]] eqn:E2; [done|]. cbn [fst snd] in Hd. unfold answer_, mret, U_ret in Hd.
    destruct (attempt_answer _ _ _ _ _ _ _ E2) as (s3 & R3 & D3 & M3). injection Hd as Hv _ <-.
    exists sent2, s3, ans2. split; [|by auto].
    assert (Hs1 : R s s1) by (by eapply framed_attempt). by apply (PreOrder_Transitive (PreOrder := fr_order) s s1 s3).
  - unfold answer_, mret, U_ret in Hd. injection Hd as Hv _ <-. exists sent, s0, ans. by auto.
Qed.
End requests.

(** ** Cutting a batch *)

#[local] Abbreviation pos := sev_Position.

(** A later poll asks for what lies after the batch: its items, or more when it is empty. *)
Definition resumed (out : list Event) (ev : Event) : Prop := ev ∈ out \/ (out <> [] /\ forall x, x ∈ out -> (pos x < pos ev)%Z).

Definition at_position (p : Z) (l : list Event) : list Event := List.filter (fun ev => (pos ev =? p)%Z) l.

Lemma at_position_in p l ev : ev ∈ at_position p l <-> ev ∈ l /\ pos ev = p.
Proof. unfold at_position. rewrite !list_elem_of_In, filter_In, Z.eqb_eq. done. Qed.

Lemma at_position_all p l : (forall x, x ∈ l -> pos x = p) -> at_position p l = l.
Proof.
  intros Hl. induction l as [|x l IH]; [done|]. cbn. rewrite (Hl x ltac:(left)), Z.eqb_refl. f_equal. apply IH. intros y Hy. apply Hl. by right.
Qed.

Lemma drop_while_split {X} (p : X -> bool) l : exists dropped, l = dropped ++ drop_while p l /\ (forall x, x ∈ dropped -> p x = true) /\
  match drop_while p l with [] => True | x :: _ => p x = false end.
Proof.
  induction l as [|x l (d & E & Hd & Hk)]; cbn; [by exists []; split; [|split; [by intros x Hx%elem_of_nil|]]|].
  destruct (p x) eqn:Px.
  - exists (x :: d). split; [by rewrite E at 1|]. split; [|done]. intros y Hy. apply elem_of_cons in Hy as [->|Hy]; auto.
  - exists []. split; [done|]. split; [by intros y Hy%elem_of_nil|done].
Qed.

(** The batch less its last group, or whole when the group is all of it. *)
Lemma leave_group_split events : StronglySorted (fun x y => (pos x <= pos y)%Z) events ->
  (leave_group events = events /\ exists p, forall x, x ∈ events -> pos x = p) \/
  exists group p, events = leave_group events ++ group /\ leave_group events <> [] /\
    (forall x, x ∈ group -> pos x = p) /\ (forall x, x ∈ leave_group events -> (pos x < p)%Z) /\ (exists x, x ∈ group).
Proof.
  intros Hs. unfold leave_group. destruct (rev events) as [|lst r] eqn:E.
  { apply (f_equal (@rev Event)) in E. rewrite rev_involutive in E. subst. left. split; [done|]. exists 0%Z. by intros x Hx%elem_of_nil. }
  destruct (drop_while_split (fun ev => (pos ev =? pos lst)%Z) (lst :: r)) as (d & Ed & Hd & Hk).
  assert (Hp : forall x, x ∈ d -> pos x = pos lst) by (intros x Hx; by apply Z.eqb_eq, Hd).
  assert (Ee : events = rev (drop_while (fun ev => (pos ev =? pos lst)%Z) (lst :: r)) ++ rev d).
  { rewrite <- rev_app_distr, <- Ed, <- E. by rewrite rev_involutive. }
  destruct (drop_while _ (lst :: r)) as [|k kept] eqn:Ek.
  - left. split; [done|]. exists (pos lst). intros x Hx. apply Hp. rewrite Ee in Hx. cbn in Hx. by rewrite list_elem_of_In, <- in_rev, <- list_elem_of_In in Hx.
  - right. exists (rev d), (pos lst). split; [done|]. split; [intros Hn; apply (f_equal (@List.length Event)) in Hn; rewrite length_rev in Hn; done|].
    assert (Hlst : lst ∈ rev d).
    { destruct d as [|y d]; [|injection Ed as <- _; rewrite list_elem_of_In, <- in_rev; by left]. cbn in Ed. injection Ed as <- _. by rewrite Z.eqb_refl in Hk. }
    split; [intros x Hx; apply Hp; by rewrite list_elem_of_In, <- in_rev, <- list_elem_of_In in Hx|]. split; [|by exists lst].
    assert (Hkl : (pos k < pos lst)%Z).
    { apply Z.eqb_neq in Hk. rewrite Ee in Hs. cbn [rev] in Hs. rewrite <- app_assoc in Hs. apply StronglySorted_app_1_r in Hs.
      inversion Hs as [|?? _ Hf]; subst. rewrite Forall_forall in Hf. specialize (Hf lst Hlst). lia. }
    intros x Hx. cbn [rev] in Hx. apply elem_of_app in Hx as [Hx|Hx%list_elem_of_singleton]; [|by subst].
    rewrite Ee in Hs. cbn [rev] in Hs. rewrite <- app_assoc in Hs.
    pose proof (StronglySorted_app_1_elem_of _ _ _ x k Hs Hx ltac:(cbn; left)). cbn in *. lia.
Qed.

Lemma by_position_sorted events : StronglySorted (fun x y => (pos x <= pos y)%Z) (by_position events).
Proof.
  assert (Ho : ordered (fun x y => (pos x <=? pos y)%Z) (by_position events)) by (apply isort_ordered; intros; rewrite ?Z.leb_le in *; lia).
  induction Ho as [|x l _ IH Hx]; [constructor|]. constructor; [done|]. eapply Forall_impl; [exact Hx|]. intros y. apply Z.leb_le.
Qed.

Definition numbered (e : RestEvent) : bool := existsb (String.eqb (re_PositionFormat e)) [""; "number"].

(** New items of a list, and those that a poll read: it may leave out only items at or after
    all it read, and says so. *)
Record read_from (e : RestEvent) (limit : Z) (truncated : bool) (events rest : list Event) : Prop := {
  rf_limit : (0 < limit)%Z;
  rf_order x y : x ∈ events -> y ∈ rest -> (pos x <= pos y)%Z;
  rf_told : rest <> [] -> truncated = true /\ events <> [];
  rf_fits p : if numbered e then List.length (at_position p (events ++ rest)) <= 1 else (Z.of_nat (List.length (at_position p (events ++ rest))) <= limit)%Z;
  rf_group p : numbered e = false -> (forall x, x ∈ events -> pos x = p) -> forall y, y ∈ rest -> pos y <> p
}.

Lemma at_position_app p l1 l2 : at_position p (l1 ++ l2) = at_position p l1 ++ at_position p l2.
Proof. apply List.filter_app. Qed.

Lemma at_position_perm p l1 l2 : l1 ≡ₚ l2 -> at_position p l1 ≡ₚ at_position p l2.
Proof.
  unfold at_position. induction 1 as [|x l1 l2 _ IH|x y l|l1 l2 l3 _ IH1 _ IH2]; cbn; [done| | |by rewrite IH1].
  - destruct (_ =? _)%Z; by rewrite ?IH.
  - do 2 destruct (_ =? _)%Z; try done. apply Permutation_swap.
Qed.

(** What is kept and what is put off, in order. *)
Lemma cut_batch_split e limit truncated events rest : read_from e limit truncated events rest ->
  exists over kept later, cut_batch e limit truncated events = (if (over || truncated) && negb (numbered e) then leave_group kept else kept) /\
  events ++ rest ≡ₚ kept ++ later /\ (forall x y, x ∈ kept -> y ∈ later -> (pos x <= pos y)%Z) /\
  (later <> [] -> over || truncated = true /\ kept <> []) /\ StronglySorted (fun x y => (pos x <= pos y)%Z) kept /\
  (if over then Z.of_nat (List.length kept) = limit else kept ≡ₚ events /\ later = rest).
Proof.
  intros R. eexists (limit <? Z.of_nat (List.length (by_position events)))%Z, _,
    ((if (limit <? Z.of_nat (List.length (by_position events)))%Z then skipn (Z.to_nat limit) (by_position events) else []) ++ rest). split; [reflexivity|].
  pose proof (isort_perm (fun x y => (pos x <=? pos y)%Z) events) as P. fold (by_position events) in P. pose proof (by_position_sorted events) as Hs.
  assert (Hin : forall x, x ∈ by_position events -> x ∈ events) by (intros x; by rewrite P).
  destruct (limit <? Z.of_nat (List.length (by_position events)))%Z eqn:O.
  - apply Z.ltb_lt in O. pose proof (rf_limit _ _ _ _ _ R).
    assert (Hl : Z.of_nat (List.length (firstn (Z.to_nat limit) (by_position events))) = limit) by (rewrite length_take; lia).
    split; [by rewrite app_assoc, take_drop, P|]. split.
    + intros x y Hx Hy. apply elem_of_app in Hy as [Hy|Hy].
      * rewrite <- (take_drop (Z.to_nat limit) (by_position events)) in Hs. by apply (StronglySorted_app_1_elem_of _ _ _ x y Hs).
      * apply (rf_order _ _ _ _ _ R); [|done]. apply Hin. by apply subseteq_take in Hx.
    + split; [|split; [|done]].
      * intros _. split; [done|]. intros E. rewrite E in Hl. cbn in Hl. lia.
      * rewrite <- (take_drop (Z.to_nat limit) (by_position events)) in Hs. by apply StronglySorted_app_1_l in Hs.
  - cbn. split; [by rewrite P|]. split; [intros x y Hx; apply (rf_order _ _ _ _ _ R); by rewrite <- P|]. split; [|split; [done|by split]].
    intros Hr. destruct (rf_told _ _ _ _ _ R Hr) as [T N]. split; [done|]. intros E. rewrite E in P. by apply Permutation_nil_l in P.
Qed.

Lemma cut_batch_resumes e limit truncated events rest ev : read_from e limit truncated events rest -> ev ∈ events ++ rest ->
  resumed (cut_batch e limit truncated events) ev.
Proof.
  intros R Hev. destruct (cut_batch_split _ _ _ _ _ R) as (over & kept & later & -> & P & Hle & Htold & Hs & Hfull).
  rewrite P in Hev. destruct (numbered e) eqn:N.
  - rewrite andb_false_r. apply elem_of_app in Hev as [Hev|Hev]; [by left|]. right. split; [apply Htold; intros ->; by apply elem_of_nil in Hev|].
    intros x Hx. pose proof (Hle x ev Hx Hev). assert (pos x <> pos ev); [|lia]. intros E.
    pose proof (rf_fits _ _ _ _ _ R (pos ev)) as F. rewrite N, (at_position_perm _ _ _ P), at_position_app, length_app in F.
    assert (Hx1 : x ∈ at_position (pos ev) kept) by (by apply at_position_in). assert (Hy1 : ev ∈ at_position (pos ev) later) by (by apply at_position_in).
    destruct (at_position (pos ev) kept); [by apply elem_of_nil in Hx1|]. destruct (at_position (pos ev) later); [by apply elem_of_nil in Hy1|]. cbn in F. lia.
  - rewrite andb_true_r. destruct (over || truncated) eqn:O.
    2:{ apply elem_of_app in Hev as [Hev|Hev]; [by left|]. destruct (Htold ltac:(intros ->; by apply elem_of_nil in Hev)). congruence. }
    destruct (leave_group_split kept Hs) as [(-> & p & Hp)|(group & p & E & Hne & Hg & Hk & x0 & Hx0)].
    + apply elem_of_app in Hev as [Hev|Hev]; [by left|]. destruct (Htold ltac:(intros ->; by apply elem_of_nil in Hev)) as [_ Hn]. right. split; [done|].
      intros x Hx. pose proof (Hle x ev Hx Hev). rewrite (Hp x Hx) in *. assert (p <> pos ev); [|lia]. intros ->.
      destruct over; [|destruct Hfull as [Pe ->]; by apply (rf_group _ _ _ _ _ R (pos ev) N (fun y Hy => Hp y ltac:(by rewrite Pe)) ev)].
      pose proof (rf_fits _ _ _ _ _ R (pos ev)) as F. rewrite N, (at_position_perm _ _ _ P), at_position_app, length_app, (at_position_all _ kept Hp) in F.
      assert (Hy1 : ev ∈ at_position (pos ev) later) by (by apply at_position_in). destruct (at_position (pos ev) later); [by apply elem_of_nil in Hy1|]. cbn in F. lia.
    + assert (Hev' : ev ∈ leave_group kept \/ (p <= pos ev)%Z).
      { apply elem_of_app in Hev as [Hev|Hev].
        - rewrite E in Hev. apply elem_of_app in Hev as [Hev|Hev]; [by left|]. right. by rewrite (Hg ev Hev).
        - right. rewrite <- (Hg x0 Hx0). apply Hle; [rewrite E, elem_of_app; by right|done]. }
      destruct Hev' as [?|?]; [by left|]. right. split; [done|]. intros x Hx. specialize (Hk x Hx). lia.
Qed.

(** ** Pages *)

Section pages.
Context {S : Type} `{A : AuthText} `{T : RestText} `{H : Http S} `{K : !TokenStore (S := S)} {R : S -> S -> Prop} `{F : !Framed R}.
Context (cfg : Config) (e : RestEvent) (name : string) (after limit : Z).

(** The new event that an item stands for. *)
Definition new_of (item : json) : option Event :=
  match event_of e name item with
  | Ok ev => if (after <? pos ev)%Z then Some ev else None
  | Err _ => None
  end.
Definition news : list json -> list Event := omap new_of.

Lemma new_of_spec item ev : new_of item = Some ev <-> event_of e name item = Ok ev /\ (after < pos ev)%Z.
Proof using. unfold new_of. destruct (event_of e name item) as [ev'|]; [|naive_solver]. destruct (Z.ltb_spec after (pos ev')); naive_solver lia. Qed.

Lemma elem_of_news items ev : ev ∈ news items <-> exists item, item ∈ items /\ new_of item = Some ev.
Proof using. apply list_elem_of_omap. Qed.

(** An item that a poll has been past. *)
Definition old (item : json) : Prop := exists ev, event_of e name item = Ok ev /\ (pos ev <= after)%Z.

Lemma page_events_spec items : forall reached lst evs reached' lst',
  page_events e name after items reached lst = Ok (evs, reached', lst') ->
  evs = news items /\ Forall (fun i => is_map i = true) items /\ lst' = default lst (last items) /\
  (reached' = true -> reached = true \/ exists i, i ∈ items /\ old i).
Proof using.
  induction items as [|i items IH]; intros reached lst evs reached' lst' Hp; cbn in Hp; [injection Hp as <- <- <-; by auto|].
  destruct (is_map i) eqn:Ei; [cbn in Hp|done]. destruct (event_of e name i) as [ev|] eqn:Eo; [cbn in Hp|done].
  assert (Hl : default lst (last (i :: items)) = default i (last items)) by (rewrite last_cons; by destruct (last items)).
  destruct (Z.leb_spec (pos ev) after) as [Hle|Hgt].
  - destruct (IH _ _ _ _ _ Hp) as (-> & Hm & -> & Hr). split; [|split; [by constructor|split; [done|]]].
    + unfold news. cbn. unfold new_of at 2. rewrite Eo. by destruct (Z.ltb_spec after (pos ev)); [lia|].
    + intros _. right. exists i. split; [left|]. by exists ev.
  - destruct (page_events e name after items reached i) as [[[evs1 r1] l1]|] eqn:Ep; [|done]. injection Hp as <- <- <-.
    destruct (IH _ _ _ _ _ Ep) as (-> & Hm & -> & Hr). split; [|split; [by constructor|split; [done|]]].
    + unfold news. cbn. unfold new_of at 2. rewrite Eo. by destruct (Z.ltb_spec after (pos ev)); [|lia].
    + intros Ht. destruct (Hr Ht) as [?|(j & Hj & Ho)]; [by left|]. right. exists j. split; [by right|done].
Qed.

(** A list request: its method, and where its page comes from. *)
Definition requests (req : request) (q : gmap string string) : Prop :=
  let '(method, _, b) := listRequest e after limit in
  rq_method req = method /\ rq_target req = rq_target (unsigned cfg method (re_Path e) q (event_headers e after limit) b) /\ rq_body req = payload_of b.
Definition first_query : gmap string string := snd (fst (listRequest e after limit)).

Definition page_in (resp : json) (page : list json) : Prop :=
  lookup resp (re_Items e) = JArr page \/ (page = [] /\ emptyList resp (re_Items e) = true).

(** What the API answers to a list request. *)
Definition answers (s : S) (q : gmap string string) (P : json -> list json -> Prop) : Prop :=
  forall req ans s' h resp page, requests req q -> http_do req s = (ans, s') -> good ans h resp -> page_in resp page -> P resp page.

Lemma items_of_page resp items : items_of e resp = Ok items -> page_in resp items.
Proof using.
  unfold items_of, page_in. destruct (lookup resp (re_Items e)); intros; simplify_eq; auto; destruct (emptyList _ _); simplify_eq; by right.
Qed.

(** A page read by a poll, as the API answered it at some moment. *)
Lemma page_read q method q0 b a s resp a' s' (P : json -> list json -> Prop) items :
  listRequest e after limit = (method, q0, b) ->
  do_ cfg method (re_Path e) q (event_headers e after limit) b (a, s) = (inr resp, (a', s')) -> items_of e resp = Ok items ->
  (forall s1, R s s1 -> R s1 s' -> answers s1 q P) -> P resp items.
Proof using F.
  intros El Hd Hi HP. unfold do_, then_, mbind, U_bind in Hd. destruct (doH _ _ _ _ _ _ (a, s)) as [[f|[h v]] [a1 s1]] eqn:E; [done|].
  injection Hd as <- <- <-. destruct (doH_answer (R := R) _ _ _ _ _ _ _ _ _ _ _ _ E) as (sent & s2 & ans & HR & Hdo & Hg & Hm & Ht & Hb).
  apply (HP s2 HR ltac:(by eapply fr_do) sent ans s1 h v items); [|done|done|by apply items_of_page]. unfold requests. by rewrite El.
Qed.

(** How many items of a list the poll was past already. *)
Definition passed (l : list json) : nat := List.length l - List.length (news l).

(** Events of one position fit in a batch of which some places are taken; numbers tell events
    apart. *)
Definition fits (taken : nat) (l : list json) : Prop := forall p,
  (Z.of_nat (taken + List.length (at_position p (news l))) <= limit)%Z /\ (numbered e = true -> List.length (at_position p (news l)) <= 1).

Definition in_order (before : Z -> Z -> Prop) : list json -> Prop :=
  StronglySorted (fun x y => forall a b, event_of e name x = Ok a -> event_of e name y = Ok b -> before (pos a) (pos b)).

(** An ascending list: its items from some position on that is not after the poll's, as many
    as [limit] while there are more. *)
Definition oldest_first (items : list json) (_ : json) (page : list json) : Prop :=
  exists rest, in_order Z.le (page ++ rest) /\ fits (passed (page ++ rest)) (page ++ rest) /\ (forall i, i ∈ items -> is_Some (new_of i) -> i ∈ page ++ rest) /\
    (rest <> [] -> (limit <= Z.of_nat (List.length page))%Z).

Record ascending (items : S -> list json) : Prop := {
  as_grows s s' i : R s s' -> i ∈ items s -> i ∈ items s';
  as_page s : answers s first_query (oldest_first (items s))
}.

(** A descending list, which grows at its head: a page holds what follows the cursor, and
    says whether there is more. *)
Definition more_of (p : Pagination) (resp : json) : bool := match lookup resp (pn_More p) with JBool b => b | _ => false end.
Definition head_of (p : Pagination) (l : list json) (resp : json) (page : list json) : Prop :=
  exists rest, l = page ++ rest /\ (rest <> [] -> page <> [] /\ more_of p resp = true).
Definition page_query (p : Pagination) (item : json) : gmap string string :=
  <[pn_Param p := scalar (lookup item (or_else (pn_Cursor p) (or_else (re_ID e) "id")))]> first_query.

Record descending (p : Pagination) (items : S -> list json) : Prop := {
  de_grows s s' : R s s' -> exists fresh, items s' = fresh ++ items s;
  de_order s : in_order Z.ge (items s);
  de_fits s : fits 0 (items s);
  de_first s : answers s first_query (head_of p (items s));
  de_next s past item rest : items s = past ++ item :: rest -> answers s (page_query p item) (head_of p rest)
}.

Lemma news_app l1 l2 : news (l1 ++ l2) = news l1 ++ news l2.
Proof using. apply omap_app. Qed.

Lemma news_length l : List.length (news l) <= List.length l.
Proof using. induction l as [|i l IH]; [done|]. unfold news in *. cbn. destruct (new_of i); cbn; lia. Qed.

(** What a page of an ascending list holds, and what is left. *)
Lemma ascending_read page rest : (0 < limit)%Z -> in_order Z.le (page ++ rest) -> fits (passed (page ++ rest)) (page ++ rest) ->
  (rest <> [] -> (limit <= Z.of_nat (List.length page))%Z) ->
  read_from e limit (limit <=? Z.of_nat (List.length page))%Z (news page) (news rest).
Proof using.
  intros Hl Ho Hf Hr. pose proof (news_length page) as Np. pose proof (news_length rest) as Nr.
  assert (Hfull : forall y, y ∈ news rest -> (limit <= Z.of_nat (List.length page))%Z) by (intros y Hy; apply Hr; intros ->; by apply elem_of_nil in Hy).
  assert (Hcount : forall y, y ∈ news rest -> (forall x, x ∈ news page -> pos x = pos y) -> False).
  { intros y Hy Hx. specialize (Hfull y Hy). destruct (Hf (pos y)) as [Hb _]. unfold passed in Hb.
    rewrite news_app, at_position_app, (at_position_all _ (news page) Hx), !length_app in Hb.
    assert (Hin : y ∈ at_position (pos y) (news rest)) by (by apply at_position_in).
    destruct (at_position (pos y) (news rest)); [by apply elem_of_nil in Hin|]. cbn in Hb. lia. }
  split; [done| | | |].
  - intros x y (i & Hi & [Ei _]%new_of_spec)%elem_of_news (j & Hj & [Ej _]%new_of_spec)%elem_of_news.
    by apply (StronglySorted_app_1_elem_of _ _ _ i j Ho Hi Hj x y).
  - intros Hn. destruct (news rest) as [|y l] eqn:En; [done|]. split; [apply Z.leb_le, (Hfull y); left|].
    intros E. apply (Hcount y); [left|]. intros x Hx. rewrite E in Hx. by apply elem_of_nil in Hx.
  - intros p. rewrite <- news_app. destruct (Hf p) as [Hb H1]. destruct (numbered e); [auto|lia].
  - intros p _ Hx y Hy <-. by apply (Hcount y).
Qed.

(** A descending list that was read down to what is old. *)
Lemma descending_read seen rest : (0 < limit)%Z -> fits 0 (seen ++ rest) -> news rest = [] ->
  read_from e limit false (news seen) [].
Proof using.
  intros Hl Hf Hn. split; [done|by intros ? ? _ ?%elem_of_nil|done| |by intros p _ _ y ?%elem_of_nil].
  intros p. destruct (Hf p) as [Hb H1]. rewrite news_app, Hn in *. destruct (numbered e); [auto|lia].
Qed.

(** All that is left after an old item of a descending list is old. *)
Lemma old_rest page rest i : in_order Z.ge (page ++ rest) -> i ∈ page -> old i -> news rest = [].
Proof using.
  intros Ho Hi (a & Ea & Ha). destruct (news rest) as [|y l] eqn:E; [done|]. exfalso.
  assert (Hy : y ∈ news rest) by (rewrite E; left). apply elem_of_news in Hy as (j & Hj & [Ej Hp]%new_of_spec).
  pose proof (StronglySorted_app_1_elem_of _ _ _ i j Ho Hi Hj a y Ea Ej). cbn in *. lia.
Qed.

Lemma last_map (items : list json) : Forall (fun i => is_map i = true) items -> items <> [] ->
  exists init i, items = init ++ [i] /\ default JNull (last items) = i /\ is_null i = false.
Proof using.
  intros Hm Hn. destruct (List.exists_last Hn) as (init & i & ->). exists init, i. rewrite last_snoc. cbn. split; [done|]. split; [done|].
  apply Forall_app in Hm as [_ Hi]. inversion Hi; subst. by destruct i.
Qed.

Section descend.
Context (p : Pagination) (items : S -> list json) (D : descending p items) (Hp : re_Pagination e = Some p) (Hdesc : re_Order e = "desc").
Context (method : string) (b : body) (El : listRequest e after limit = (method, first_query, b)).

Definition cursor_of (i : json) : string := scalar (lookup i (or_else (pn_Cursor p) (or_else (re_ID e) "id"))).

(** One page of a descending list: the last, or one that is followed by the next. *)
Lemma page_down n q events a s evs truncated a' s' :
  poll_pages cfg e name after limit n method q b events (a, s) = (inr (evs, truncated), (a', s')) ->
  exists resp page a1 s1, do_ cfg method (re_Path e) q (event_headers e after limit) b (a, s) = (inr resp, (a1, s1)) /\
    items_of e resp = Ok page /\
    ((truncated = false /\ evs = events ++ news page /\ ((exists i, i ∈ page /\ old i) \/ more_of p resp = false \/ page = [])) \/
     exists m init i, page = init ++ [i] /\
       poll_pages cfg e name after limit m method (<[pn_Param p := cursor_of i]> q) b (events ++ news page) (a1, s1) = (inr (evs, truncated), (a', s')) /\
       n = Datatypes.S m).
Proof using Hp Hdesc.
  intros Hr. destruct n as [|n]; cbn [poll_pages] in Hr; unfold then_, mbind, U_bind in Hr;
    destruct (do_ cfg method (re_Path e) q (event_headers e after limit) b (a, s)) as [[f|resp] [a1 s1]] eqn:Ed; try done.
  all: exists resp.
  all: unfold lift, answer_, refuse, mret, U_ret in Hr; cbn [fst snd] in Hr.
  all: destruct (items_of e resp) as [page|] eqn:Ei; [|done]; exists page, a1, s1; split; [done|]; split; [done|].
  all: destruct (page_events e name after page false JNull) as [[[evs1 reached] lst]|] eqn:Ep; [|done].
  all: destruct (page_events_spec _ _ _ _ _ _ Ep) as (-> & Hm & Hl & Hreach).
  all: rewrite Hdesc, String.eqb_refl in Hr; cbn [negb] in Hr; rewrite Hp in Hr; cbn [from_option id] in Hr; fold (more_of p resp) in Hr; cbv zeta in Hr.
  all: destruct (reached || negb (more_of p resp) || is_null lst) eqn:Estop.
  1, 3: injection Hr as <- <- _ _; left; split; [done|]; split; [done|].
  1, 2: apply orb_true_iff in Estop as [[Estop|Estop]%orb_true_iff|Estop];
    [destruct (Hreach Estop) as [|]; [done|by left]|right; left; by apply negb_true_iff in Estop|right; right].
  1, 2: destruct page as [|x page]; [done|]; destruct (last_map _ Hm ltac:(done)) as (init & i & _ & Hi & Hn); congruence.
  - done.
  - right. apply orb_false_iff in Estop as [_ Hn]. destruct page as [|x page]; [by rewrite Hl in Hn|].
    destruct (last_map _ Hm ltac:(done)) as (init & i & Ei' & Hi & _). exists n, init, i. split; [done|]. split; [|done].
    rewrite Hl, Hi in Hr. exact Hr.
Qed.

(** Reading on, when the list is [all] below what was added since, and a part of it was read. *)
Lemma pages_down all n : forall q events a s evs truncated a' s',
  poll_pages cfg e name after limit n method q b events (a, s) = (inr (evs, truncated), (a', s')) ->
  (forall c, <[pn_Param p := c]> q = <[pn_Param p := c]> first_query) ->
  (forall s1, R s s1 -> answers s1 q (fun resp page => exists seen rest, all = seen ++ rest /\ events = news seen /\ head_of p rest resp page)) ->
  (forall s1, R s s1 -> exists fresh, items s1 = fresh ++ all) -> in_order Z.ge all ->
  truncated = false /\ exists seen rest, all = seen ++ rest /\ evs = news seen /\ news rest = [].
Proof using F D Hp Hdesc El.
  induction n as [n IH] using lt_wf_ind; intros q events a s evs truncated a' s' Hr Hqq Hq Hall Ho.
  destruct (page_down _ _ _ _ _ _ _ _ _ Hr) as (resp & page & a1 & s1 & Hd & Hi & Hcase).
  destruct (page_read q method first_query b a s resp a1 s1 _ page El Hd Hi (fun s2 H1 _ => Hq s2 H1)) as (seen & rest & -> & -> & rest' & -> & Hrest).
  assert (HR : R s s1) by (exact (framed_do_ (F := F) cfg _ _ _ _ _ _ _ _ _ _ Hd)).
  destruct Hcase as [(-> & -> & Hstop)|(m & init & i & -> & Hm & ->)].
  - split; [done|]. exists (seen ++ page), rest'. rewrite news_app. split; [by rewrite app_assoc|]. split; [done|].
    destruct Hstop as [(i & Hin & Hold)|[Hmore|Hpage]].
    + apply StronglySorted_app_1_r in Ho. by apply (old_rest page rest' i).
    + destruct rest' as [|x l]; [done|]. destruct (Hrest ltac:(done)) as [_ ?]. congruence.
    + destruct rest' as [|x l]; [done|]. by destruct (Hrest ltac:(done)).
  - rewrite <- news_app in Hm. eapply (IH m ltac:(lia)); [exact Hm| | | |done].
    + intros c. rewrite insert_insert_eq. apply Hqq.
    + intros s2 HR2 req ans s3 h resp2 page2 Hreq Hdo Hgood Hpg. exists (seen ++ init ++ [i]), rest'. rewrite <- !app_assoc. split; [done|]. split; [by rewrite app_assoc|].
      destruct (Hall s2 ltac:(by apply (PreOrder_Transitive (PreOrder := fr_order) s s1 s2))) as (fresh & Ef).
      refine (de_next _ _ D s2 (fresh ++ seen ++ init) i rest' _ req ans s3 h resp2 page2 _ Hdo Hgood Hpg).
      * rewrite Ef. by rewrite <- !app_assoc.
      * unfold page_query. by rewrite <- Hqq.
    + intros s2 HR2. apply Hall. by apply (PreOrder_Transitive (PreOrder := fr_order) s s1 s2).
Qed.

Lemma reads_down n a s evs truncated a' s' : (0 < limit)%Z ->
  poll_pages cfg e name after limit n method first_query b [] (a, s) = (inr (evs, truncated), (a', s')) ->
  exists m, R s m /\ news (items m) = evs /\ read_from e limit truncated evs [].
Proof using F D Hp Hdesc El.
  intros Hl Hr. destruct (page_down _ _ _ _ _ _ _ _ _ Hr) as (resp & page & a1 & s1 & Hd & Hi & Hcase).
  destruct (page_read first_query method first_query b a s resp a1 s1
    (fun resp page => exists m, R s m /\ R m s1 /\ head_of p (items m) resp page) page El Hd Hi) as (m & R1 & R2 & rest & Em & Hrest).
  { intros m R1 R2 req ans s3 h resp2 page2 Hreq Hdo Hgood Hpg. exists m. split; [done|]. split; [done|].
    exact (de_first _ _ D m req ans s3 h resp2 page2 Hreq Hdo Hgood Hpg). }
  assert (Hgoal : truncated = false /\ exists seen rest, items m = seen ++ rest /\ evs = news seen /\ news rest = []).
  { destruct Hcase as [(-> & -> & Hstop)|(n' & init & i & -> & Hm & ->)].
    - split; [done|]. exists page, rest. split; [done|]. split; [done|]. pose proof (de_order _ _ D m) as Ho. rewrite Em in Ho.
      destruct Hstop as [(i & Hin & Hold)|[Hmore|Hpage]].
      + by apply (old_rest page rest i).
      + destruct rest as [|x l]; [done|]. destruct (Hrest ltac:(done)) as [_ ?]. congruence.
      + destruct rest as [|x l]; [done|]. by destruct (Hrest ltac:(done)).
    - eapply (pages_down (items m)); [exact Hm|by intros c; rewrite insert_insert_eq| |  |apply (de_order _ _ D)].
      + intros s2 HR2 req ans s3 h resp2 page2 Hreq Hdo Hgood Hpg. exists (init ++ [i]), rest. split; [done|]. split; [done|].
        destruct (de_grows _ _ D m s2 ltac:(by apply (PreOrder_Transitive (PreOrder := fr_order) m s1 s2))) as (fresh & Ef).
        refine (de_next _ _ D s2 (fresh ++ init) i rest _ req ans s3 h resp2 page2 Hreq Hdo Hgood Hpg). rewrite Ef, Em. by rewrite <- !app_assoc.
      + intros s2 HR2. apply (de_grows _ _ D). by apply (PreOrder_Transitive (PreOrder := fr_order) m s1 s2). }
  destruct Hgoal as (-> & seen & rest' & Es & -> & Hn). exists m. split; [done|]. split; [by rewrite Es, news_app, Hn, app_nil_r|].
  apply (descending_read seen rest'); [done| |done]. rewrite <- Es. apply (de_fits _ _ D).
Qed.
End descend.

(** What a poll of a list reads and leaves out. *)
Definition polled (items : S -> list json) : Prop :=
  if String.eqb (re_Order e) "desc" then exists p, re_Pagination e = Some p /\ descending p items else ascending items.

Lemma reads_on items a s evs truncated a' s' : polled items -> (0 < limit)%Z ->
  (let '(method, q, b) := listRequest e after limit in poll_pages cfg e name after limit (max_pages e - 1) method q b [] (a, s)) = (inr (evs, truncated), (a', s')) ->
  exists rest, read_from e limit truncated evs rest /\ (forall x, x ∈ evs -> (after < pos x)%Z) /\
    forall i ev, i ∈ items s -> new_of i = Some ev -> ev ∈ evs ++ rest.
Proof using F.
  intros HP Hl Hr. destruct (listRequest e after limit) as [[method q] b] eqn:El. assert (El' := El). rewrite (surjective_pairing (listRequest e after limit)) in El'.
  assert (Eq : q = first_query) by (unfold first_query; by rewrite El). subst q. clear El'.
  assert (Hnew : forall l x, x ∈ news l -> (after < pos x)%Z) by (intros l x (i & _ & [_ ?]%new_of_spec)%elem_of_news; done).
  unfold polled in HP. destruct (String.eqb_spec (re_Order e) "desc") as [Ed|Ed].
  - destruct HP as (p & Hp & D). destruct (reads_down p items D Hp Ed method b El _ _ _ _ _ _ _ Hl Hr) as (m & HR & <- & Hread).
    exists []. split; [done|]. split; [apply Hnew|]. intros i ev Hi Hev. rewrite app_nil_r. apply elem_of_news. exists i. split; [|done].
    destruct (de_grows _ _ D s m HR) as (fresh & ->). rewrite elem_of_app. by right.
  - assert (Hmax : max_pages e - 1 = 0) by (unfold max_pages; apply String.eqb_neq in Ed; rewrite Ed; by destruct (re_Pagination e)).
    rewrite Hmax in Hr. cbn [poll_pages] in Hr. unfold then_, mbind, U_bind in Hr.
    destruct (do_ cfg method (re_Path e) first_query (event_headers e after limit) b (a, s)) as [[f|resp] [a1 s1]] eqn:Hd; [done|].
    unfold lift, answer_, refuse, mret, U_ret in Hr; cbn [fst snd] in Hr.
    destruct (items_of e resp) as [page|] eqn:Hi; [|done].
    destruct (page_events e name after page false JNull) as [[[evs1 reached] lst]|] eqn:Ep; [|done].
    destruct (page_events_spec _ _ _ _ _ _ Ep) as (-> & _ & _ & _). apply String.eqb_neq in Ed. rewrite Ed in Hr. injection Hr as <- <- _ _.
    destruct (page_read first_query method first_query b a s resp a1 s1 (fun resp page => exists m, R s m /\ oldest_first (items m) resp page) page El Hd Hi)
      as (m & HR & rest & Ho & Hf & Hall & Hfull).
    { intros m R1 _ req ans s3 h resp2 page2 Hreq Hdo Hgood Hpg. exists m. split; [done|]. exact (as_page _ HP m req ans s3 h resp2 page2 Hreq Hdo Hgood Hpg). }
    exists (news rest). split; [by apply ascending_read|]. split; [apply Hnew|]. intros i ev Hin Hev. rewrite <- news_app. apply elem_of_news.
    exists i. split; [|done]. apply Hall; [|by eexists]. by apply (as_grows _ HP s m).
Qed.
End pages.

Lemma leave_group_prefix events : StronglySorted (fun x y => (pos x <= pos y)%Z) events -> exists group, events = leave_group events ++ group.
Proof. intros Hs. destruct (leave_group_split events Hs) as [[-> _]|(g & p & E & _)]; [exists []; by rewrite app_nil_r|by exists g]. Qed.

(** A batch is a part of what was read, in order, and no larger than asked for. *)
Lemma cut_batch_bounds e limit truncated events rest : read_from e limit truncated events rest ->
  (Z.of_nat (List.length (cut_batch e limit truncated events)) <= limit)%Z /\
  StronglySorted (fun x y => (pos x <= pos y)%Z) (cut_batch e limit truncated events) /\ cut_batch e limit truncated events ⊆ events.
Proof.
  intros R. pose proof (by_position_sorted events) as Hs. pose proof (isort_perm (fun x y => (pos x <=? pos y)%Z) events) as P. fold (by_position events) in P.
  pose proof (rf_limit _ _ _ _ _ R) as Hl.
  assert (Hcut : exists later, by_position events = cut_batch e limit truncated events ++ later /\ (Z.of_nat (List.length (cut_batch e limit truncated events)) <= limit)%Z).
  { unfold cut_batch. fold (numbered e). destruct (limit <? _)%Z eqn:O.
    - assert (Hn : (Z.of_nat (List.length (firstn (Z.to_nat limit) (by_position events))) <= limit)%Z) by (rewrite length_take; lia).
      pose proof (take_drop (Z.to_nat limit) (by_position events)) as E. rewrite <- E in Hs. apply StronglySorted_app_1_l in Hs.
      destruct (leave_group_prefix _ Hs) as (g & Eg). destruct (_ && _); [|by eexists].
      exists (g ++ drop (Z.to_nat limit) (by_position events)). rewrite app_assoc, <- Eg. split; [done|]. apply (f_equal (@List.length _)) in Eg. rewrite length_app in Eg. lia.
    - apply Z.ltb_ge in O. destruct (leave_group_prefix _ Hs) as (g & Eg). destruct (_ && _); [|exists []; by rewrite app_nil_r].
      exists g. split; [done|]. apply (f_equal (@List.length _)) in Eg. rewrite length_app in Eg. lia. }
  destruct Hcut as (later & E & Hn). split; [done|]. rewrite E in Hs. split; [by apply StronglySorted_app_1_l in Hs|].
  intros x Hx. rewrite <- P, E, elem_of_app. by left.
Qed.


(** ** A shop whose newest orders come first *)

Module Orders.
(** Each request takes a moment, and an order is made after the first. *)
Definition shop (t : nat) : list string := match t with O => ["5"; "4"; "3"; "2"; "1"] | _ => ["6"; "5"; "4"; "3"; "2"; "1"] end.
Definition order (n : string) : json := JObj [("id", JNum n)].
Fixpoint below (c : string) (l : list string) : list string :=
  match l with [] => [] | n :: l => if String.eqb n c then l else below c l end.

(** A page is two orders, and a plus sign when there are more. *)
Definition page_text (l : list string) : string :=
  "[" +++ String.concat "" (firstn 2 l) +++ (if Nat.ltb 2 (List.length l) then "+" else "").
Fixpoint digits (s : string) : list string :=
  match s with "" => [] | String c s => if is_digit c then String c "" :: digits s else digits s end.
Definition page_json (s : string) : json := JObj [("data", JArr (map order (digits s))); ("has_more", JBool (has_suffix "+" s))].

#[local] Instance shop_text : RestText := {|
  rt_decode s := Some (page_json s); rt_update _ := None; rt_marshal _ := "{}"; rt_format _ := "0"; rt_float _ := 0%float |}.
#[local] Instance shop_auth : AuthText := {|
  at_sha256 s := s; at_hmac k m := k +++ m; at_url _ := None; at_client _ := None; at_oauth1 _ := None; at_login _ := None;
  at_token _ := None; at_timeout _ := 0%float; at_state _ := None; at_marshal_state _ := "" |}.
#[local] Instance shop_http : Http nat := {|
  http_do req t :=
    (Answer 200 ∅ [] (page_text (match strip_prefix "https://shop.example/orders?after=" (rq_target req) with Some c => below c (shop t) | None => shop t end)), S t);
  http_now t := (0%Z, t);
  http_random n t := ("", t) |}.
#[local] Instance no_tokens : TokenStore (S := nat) := {| ts_open _ t := (Ok None, t); ts_close _ _ t := (None, t) |}.

#[local] Instance time_passes : Framed (S := nat) le.
Proof. split; [split; [intros t; done|intros ???; apply Nat.le_trans]|..]; intros; simplify_eq/=; lia. Qed.

Definition events : RestEvent :=
  mkRestEvent "GET" "/orders" [] JNull "data" "" "" "" "desc" (Some (mkPagination "after" "" "has_more" 0)) [] None.
Definition config : Config :=
  mkConfig "https://shop.example" (mkAuth "none" "" "" [] "" "" "" []) [] "" [("orders", events)] [].
Definition auth : authenticator := plain (rc_Auth config) "" "" "" "" no_oauth1.

Definition pages : Pagination := mkPagination "after" "" "has_more" 0.

Lemma served_page l h resp page : trim_space (page_text l) <> "" -> good (Answer 200 ∅ [] (page_text l)) h resp -> page_in events resp page ->
  page = map order (digits (page_text l)) /\ more_of pages resp = has_suffix "+" (page_text l).
Proof.
  intros Ht (st & ck & data & [= <- <- <- <-] & _ & [[Hd _]|[_ Hd]]) Hp; [done|]. injection Hd as <-.
  split; [|done]. destruct Hp as [Hp|[_ Hp]]; [by injection Hp|done].
Qed.

(** The page after an order. *)
Lemma served_after t past n rest : shop t = past ++ n :: rest -> below n (shop t) = rest /\ trim_space (page_text rest) <> "" /\
  digits (page_text rest) = firstn 2 rest /\ has_suffix "+" (page_text rest) = Nat.ltb 2 (List.length rest).
Proof.
  intros E. destruct t as [|t]; cbn [shop] in E.
  all: repeat (destruct past as [|? past]; cbn [app] in E;
    [first [discriminate E|injection E as <- <-; split; [reflexivity|split; [vm_compute; discriminate|split; reflexivity]]]|first [discriminate E|injection E as _ E]]).
Qed.

Lemma served_all t : trim_space (page_text (shop t)) <> "" /\ digits (page_text (shop t)) = firstn 2 (shop t) /\ has_suffix "+" (page_text (shop t)) = true.
Proof. by destruct t. Qed.

Lemma head_of_page (l : list string) resp : more_of pages resp = Nat.ltb 2 (List.length l) ->
  head_of pages (map order l) resp (map order (firstn 2 l)).
Proof.
  intros Hm. exists (map order (skipn 2 l)). rewrite <- map_app, firstn_skipn. split; [done|].
  destruct l as [|x [|y [|z l]]]; cbn in *; done.
Qed.

Definition listed (t : nat) : list json := map order (shop t).

(** The query of a page names the order that it follows. *)
Lemma page_target t n header b : n ∈ shop t ->
  strip_prefix "https://shop.example/orders?after=" (rq_target (unsigned config "GET" "/orders" (page_query events 1 3 pages (order n)) header b)) = Some n.
Proof.
  intros Hn. assert (Hall : n ∈ ["6"; "5"; "4"; "3"; "2"; "1"]) by (destruct t; cbn in Hn; set_solver).
  repeat (apply elem_of_cons in Hall as [->|Hall]; [vm_compute; reflexivity|]). by apply elem_of_nil in Hall.
Qed.

Lemma shop_fits t : fits events "orders" 1 3 0 (listed t).
Proof.
  intros q. assert (Hn : exists l, news events "orders" 1 (listed t) = map (fun n => mkSourceEvent (itoa n) n "orders" "{}") l /\ (l = [5; 4; 3; 2] \/ l = [6; 5; 4; 3; 2])%Z).
  { destruct t; [exists [5; 4; 3; 2]%Z|exists [6; 5; 4; 3; 2]%Z]; (split; [vm_compute; reflexivity|auto]). }
  destruct Hn as (l & -> & [E|E]); subst l; unfold at_position; cbn [map List.filter sev_Position];
    repeat match goal with |- context [(?n =? q)%Z] => destruct (Z.eqb_spec n q) end; cbn [List.length Nat.add]; (split; [|intros _]); lia.
Qed.

Lemma shop_descends : descending (R := le) config events "orders" 1 3 pages listed.
Proof.
  split.
  - intros [|t] [|t']; [by exists []|by exists [order "6"]|lia|by exists []].
  - intros [|t]; repeat constructor; intros a b; vm_compute; intros [= <-] [= <-]; done.
  - apply shop_fits.
  - intros t req ans t' h resp page (Hm & Ht & Hb) Hd Hg Hp. cbn in Hd. rewrite Ht in Hd. cbn in Hd.
    change (strip_prefix _ _) with (@None string) in Hd. injection Hd as <- <-. destruct (served_all t) as (H1 & H2 & H3).
    destruct (served_page _ _ _ _ H1 Hg Hp) as [-> Hmore]. rewrite H2. apply head_of_page. rewrite Hmore, H3. by destruct t.
  - intros t past item rest E req ans t' h resp page (Hm & Ht & Hb) Hd Hg Hp. unfold listed in E. apply map_eq_app in E as (l1 & l2 & E & <- & E2).
    destruct l2 as [|n l2]; [done|]. injection E2 as <- <-. cbn [http_do shop_http] in Hd. rewrite Ht in Hd.
    rewrite (page_target t) in Hd by (rewrite E, elem_of_app; right; left).
    destruct (served_after _ _ _ _ E) as (Hb2 & H1 & H2 & H3). rewrite Hb2 in Hd. injection Hd as <- <-.
    destruct (served_page _ _ _ _ H1 Hg Hp) as [-> Hmore]. rewrite H2. apply head_of_page. by rewrite Hmore.
Qed.

End Orders.

(** ** An API whose pages are shorter than a batch *)

Module Capped.
(** Three payments, two of them of one moment, in pages of two. *)
Definition payment (id at_ : string) : json := JObj [("id", JStr id); ("at", JNum at_)].
Definition payments : list json := [payment "a" "1"; payment "b" "2"; payment "c" "2"].

#[local] Instance api_text : RestText := {|
  rt_decode s := Some (JObj [("data", JArr (firstn 2 (if String.eqb s "all" then payments else [])))]); rt_update _ := None; rt_marshal _ := "{}";
  rt_format _ := "0"; rt_float _ := 0%float |}.
#[local] Instance api_auth : AuthText := Orders.shop_auth.
#[local] Instance api_http : Http unit := {|
  http_do req t := (Answer 200 ∅ [] (if String.eqb (rq_target req) "https://pay.example/payments?since=0" then "all" else "none"), t);
  http_now t := (0%Z, t);
  http_random n t := ("", t) |}.
#[local] Instance no_tokens : TokenStore (S := unit) := {| ts_open _ t := (Ok None, t); ts_close _ _ t := (None, t) |}.

Definition events : RestEvent :=
  mkRestEvent "GET" "/payments" [("since", "{{position}}")] JNull "data" "id" "at" "unix" "asc" None [] None.
Definition config : Config :=
  mkConfig "https://pay.example" (mkAuth "none" "" "" [] "" "" "" []) [] "" [("payments", events)] [].

(** An ascending page that is shorter than [limit] counts as the end of the list, though the
    API cut it: the payment of the last moment that it left out is passed over. *)
Lemma short_page_passes_over :
  exists evs c x, Poll_rest config "payments" 0 3 (plain (rc_Auth config) "" "" "" "" no_oauth1, tt) = (inr evs, x) /\
    map sev_ID evs = ["a"; "b"] /\ new_of events "payments" 0 (payment "c" "2") = Some c /\ ~ resumed evs c.
Proof.
  eexists _, _, _. split; [vm_compute; reflexivity|]. split; [reflexivity|]. split; [vm_compute; reflexivity|].
  intros [Hin|[_ Hlt]].
  - by repeat (apply elem_of_cons in Hin as [[=]|Hin]); apply elem_of_nil in Hin.
  - specialize (Hlt (mkSourceEvent "b" 2000 "payments" "{}") ltac:(right; left)). cbn in Hlt. lia.
Qed.
End Capped.

(** ** Names with dots *)

Module Dotted.
Section dotted.
Context `{A : AuthText} `{T : RestText} {S : Type} `{H : Http S} `{K : !TokenStore (S := S)}.

Definition path : string := "/orders/{{order.id}}".
Definition undo : Operation := mkOperation "PATCH" path [] "" [] "" "" "" "" None true None [] "" None.
Definition config : Config := mkConfig "https://shop.example" (mkAuth "none" "" "" [] "" "" "" []) [] "" [] [("undo", undo)].
Definition doc : json := JObj [("order", JObj [("id", JStr "7")])].
Definition params : json := JObj [("order.id", JStr "7")].

(** The parameters that a captured update keeps do not render the path that they come from:
    its restore is refused for good, whatever the API does. *)
Lemma dotted_update_is_not_undone key payload r (x : authenticator * S) fields : rt_decode payload = Some (JObj fields) -> rt_update payload = Some r ->
  up_Params r = params -> up_Previous r <> JNull ->
  render path doc = Ok ("/orders/7", params) /\
  exists e, Commit config "undo" key payload x = (inl (Failed e), x) /\ errors_is e ErrInvalid = true.
Proof using.
  intros Hd Hu Hp Hv. assert (En : is_null (up_Previous r) = false) by (by destruct (up_Previous r)). split; [vm_compute; reflexivity|]. eexists. split.
  - unfold Commit, then_, mbind, U_bind. cbn [operation find_named]. unfold lift, mret, U_ret, decodePayload. change (operation config "undo") with (@Ok Operation undo).
    cbn [op_Method undo]. change (String.eqb "PATCH" "GET") with false. cbn iota. rewrite Hd. unfold prepare. cbn [op_Restore undo]. rewrite Hu, Hp.
    rewrite En. cbn [params is_null orb answer_ mret U_ret pr_vars].
    unfold answer_, mret, U_ret, with_key. cbn [pr_vars op_Existing undo op_Path is_some]. change (contains_text "idempotencyKey" path) with false. rewrite andb_false_r.
    vm_compute. reflexivity.
  - reflexivity.
Qed.
End dotted.
End Dotted.
