(* ===== verification/Sap.v ===== *)
(** The SAP connector: [src/pkg/connector/sap/sap.go], with the configuration of
    [eventmesh.go]. The OData services are outside: [Http] holds their answers. A Go map is the
    list of its entries in the order a loop meets them. *)

From S2P Require Import Turgon Prelude GoStr GoText GoErr GoTime GoDate Regex GuardData Guard Engine RestAuth Rest.
From Stdlib Require Import Ascii String.

(** ** Configuration *)

Record SapEvent := mkSapEvent {
  se_Service : string;
  se_EntitySet : string;
  se_Key : string;
  se_Changed : string;
  se_Filter : string;
  se_Select : list string;
  se_Expand : list string
}.

Record Price := mkPrice { pi_Navigation : string; pi_ConditionType : string; pi_Rate : string; pi_Currency : string }.

Record Items := mkItems {
  it_Navigation : string;
  it_From : string;
  it_Fields : list (string * string);
  it_Constants : list (string * json);
  it_Types : list (string * string);
  it_Price : option Price
}.

Record Simulation := mkSimulation { su_Service : string; su_EntitySet : string }.

Record SapOperation := mkSapOperation {
  so_Action : string;
  so_Service : string;
  so_EntitySet : string;
  so_Key : string;
  so_Fields : list (string * string);
  so_Constants : list (string * json);
  so_Types : list (string * string);
  so_Items : option Items;
  so_Reference : string;
  so_Simulate : option Simulation
}.

(** [EventMesh], [Read] and [Subscription] of [eventmesh.go]. *)
Record EventMesh := mkEventMesh { em_URL : string; em_TokenURL : string; em_SecretRef : string }.
Record ReadBy := mkReadBy {
  rb_Service : string;
  rb_EntitySet : string;
  rb_Key : string;
  rb_KeyFrom : string;
  rb_Select : list string;
  rb_Expand : list string
}.
Record Subscription := mkSubscription {
  sb_Queue : string;
  sb_Types : list string;
  sb_Match : list (string * json);
  sb_Read : option ReadBy;
  sb_Idle : string
}.

Record SapConfig := mkSapConfig {
  sc_BaseURL : string;
  sc_ServicePath : string;
  sc_Client : string;
  sc_Auth : Auth;
  sc_Events : list (string * SapEvent);
  sc_Operations : list (string * SapOperation);
  sc_EventMesh : option EventMesh;
  sc_Subscriptions : list (string * Subscription)
}.

(** [CreateResult]; no record is [JNull]. *)
Record SapResult := mkSapResult {
  sr_Service : string;
  sr_EntitySet : string;
  sr_ID : string;
  sr_Reference : string;
  sr_Existing : bool;
  sr_Record : json
}.

(** ** Names *)

Definition word (c : ascii) : bool := letter_or_digit c || Ascii.eqb c "_".
Definition word_head (c : ascii) : bool := letter c || Ascii.eqb c "_".
Definition identRE : re := RSeq (RCls word_head) (RStar (RCls word)).
Definition pathRE : re := RSeq identRE (RStar (RSeq (RChr ".") identRE)).
Definition key_byte (c : ascii) : bool := word c || existsb (Ascii.eqb c) ["."; ":"; "-"]%char.
Definition serviceRE : re :=
  RSeq (RPlus (RCls word)) (ROpt (RSeq (RStr ";v=") (RSeq (RCls is_digit) (RSeq (RCls is_digit) (RSeq (RCls is_digit) (RCls is_digit)))))).
Definition clientRE : re := RSeq (RCls is_digit) (RSeq (RCls is_digit) (RCls is_digit)).
Definition queue_byte (c : ascii) : bool := letter_or_digit c || existsb (Ascii.eqb c) ["_"; "."; "-"]%char.
Definition queueRE : re := RSeq (RPlus (RCls queue_byte)) (RStar (RSeq (RChr "/") (RPlus (RCls queue_byte)))).
Definition eventTypeRE : re := RSeq (RPlus (RCls queue_byte)) (ROpt (RChr "*")).

Definition is_ident (s : string) : bool := fullmatch identRE s && Nat.leb (String.length s) 80.
Definition is_path (s : string) : bool := fullmatch pathRE s.
Definition is_service (s : string) : bool := fullmatch serviceRE s.

(** [keyRE]. *)
Definition is_key (s : string) : bool := Nat.leb 1 (String.length s) && Nat.leb (String.length s) 80 && str_all key_byte s.

(** A property that may go through navigation: "to_Item/Material". *)
Definition is_property (s : string) : bool := is_path (replace_byte "/" "." s).

(** [oneExpression]: the loop, with how many parentheses are open and whether the text is in a
    literal. *)
Fixpoint scan_filter (depth : nat) (quoted : bool) (f : string) : option (nat * bool) :=
  match f with
  | "" => Some (depth, quoted)
  | String c f =>
      if Ascii.eqb c "'" then scan_filter depth (negb quoted) f
      else if quoted then scan_filter depth quoted f
      else if Ascii.eqb c "(" then scan_filter (S depth) quoted f
      else if Ascii.eqb c ")" then match depth with O => None | S depth => scan_filter depth quoted f end
      else scan_filter depth quoted f
  end.
Definition oneExpression (f : string) : bool := match scan_filter 0 false f with Some (0, false) => true | _ => false end.

(** ** Validation *)

Definition at_error (where_ format : string) : goerr := Errorf (Msg format [FStr where_]).
Definition where_error (where_ format : string) (args : list string) : goerr := Errorf (Msg format (FStr where_ :: map FStr args)).

(** [checkTypes]. *)
Definition checkTypes (where_ : string) (types : list (string * string)) : option goerr :=
  first_error (fun pt : string * string => let (p, t) := pt in
    if negb (is_ident p) then Some (where_error where_ "%s: invalid property %q" [p])
    else unless (one_of t ["date"; "decimal"; "string"]) (where_error where_ "%s: type of %s must be date, decimal or string, got %q" [p; t])) types.

Definition check_sap_event (ne : string * SapEvent) : option goerr :=
  let (name, e) := ne in
  first_of [
    unless (is_service (se_Service e) && is_ident (se_EntitySet e) && is_ident (se_Key e)) (at_error name "event %s: service, entitySet and key are required");
    unless (String.eqb (se_Changed e) "" || is_ident (se_Changed e)) (where_error name "event %s: invalid changed property %q" [se_Changed e]);
    first_error (fun p => unless (is_property p) (where_error name "event %s: invalid property %q" [p])) (se_Select e ++ se_Expand e);
    unless (negb (contains_byte "&" (se_Filter e) || contains_byte "#" (se_Filter e)) && oneExpression (se_Filter e))
      (at_error name "event %s: filter must be one OData expression")].

Definition check_price (where_ : string) (p : Price) : option goerr :=
  unless (is_ident (pi_Navigation p) && is_ident (pi_ConditionType p) && is_path (pi_Rate p) && (String.eqb (pi_Currency p) "" || is_path (pi_Currency p)))
    (at_error where_ "%s: an item price needs navigation, conditionType and rate").

Definition check_items (where_ : string) (it : Items) : option goerr :=
  first_of [
    unless (is_ident (it_Navigation it) && is_path (it_From it) && negb (is_nil (it_Fields it))) (at_error where_ "%s: items need navigation, from and fields");
    first_error (fun pf => unless (is_ident (fst pf) && is_path (snd pf)) (where_error where_ "%s: invalid item field mapping %q: %q" [fst pf; snd pf])) (it_Fields it);
    checkTypes (where_ +++ " items") (it_Types it);
    match it_Price it with Some p => check_price where_ p | None => None end].

Definition check_create (where_ : string) (op : SapOperation) : option goerr :=
  first_of [
    unless (negb (is_nil (so_Fields op))) (at_error where_ "%s: create needs fields");
    first_error (fun pf => unless (is_ident (fst pf) && is_path (snd pf)) (where_error where_ "%s: invalid field mapping %q: %q" [fst pf; snd pf])) (so_Fields op);
    first_error (fun pv => unless (is_ident (fst pv)) (where_error where_ "%s: invalid constant %q" [fst pv])) (so_Constants op);
    checkTypes where_ (so_Types op);
    unless (String.eqb (so_Reference op) "" || is_ident (so_Reference op)) (where_error where_ "%s: invalid reference property %q" [so_Reference op]);
    match so_Items op with Some it => check_items where_ it | None => None end;
    match so_Simulate op with
    | Some s => unless (is_service (su_Service s) && is_ident (su_EntitySet s)) (at_error where_ "%s: simulate needs service and entitySet")
    | None => None
    end].

Definition check_sap_operation (no : string * SapOperation) : option goerr :=
  let (name, op) := no in
  let where_ := "operation " +++ name in
  if negb (is_service (so_Service op) && is_ident (so_EntitySet op) && is_ident (so_Key op)) then Some (at_error where_ "%s: service, entitySet and key are required")
  else if String.eqb (so_Action op) "create" then check_create where_ op
  else if String.eqb (so_Action op) "delete" then None
  else if String.eqb (so_Action op) "get" then
    first_of [
      unless (negb (is_nil (so_Fields op))) (at_error where_ "%s: get needs fields");
      first_error (fun pa => unless (is_ident (fst pa) && is_ident (snd pa)) (where_error where_ "%s: invalid field mapping %q: %q" [fst pa; snd pa])) (so_Fields op)]
  else Some (where_error where_ "%s: action must be create, delete or get, got %q" [so_Action op]).

(** URLs: the path that [Parse] gives, unescaped, and [Hostname]; and whether a host is a
    loopback address. *)
Class SapURL := { sp_path : string -> string; sp_hostname : string -> string; sp_loopback : string -> bool }.

Section validation.
Context `{A : AuthText} `{V : SapURL}.

(** [checkURL]. *)
Definition checkURL (field raw : string) : option goerr :=
  let bad := at_error field "%s must be an https URL" in
  match at_url raw with
  | None => Some bad
  | Some u =>
      if String.eqb (hu_Host u) "" then Some bad
      else if String.eqb (hu_Scheme u) "https" then None
      else if String.eqb (hu_Scheme u) "http" && (String.eqb (sp_hostname raw) "localhost" || sp_loopback (sp_hostname raw)) then None
      else Some bad
  end.

Definition check_idle (where_ idle : string) : option goerr :=
  if String.eqb idle "" then None
  else unless (match ParseDuration idle with Some d => (100000000 <=? d)%Z && (d <=? 60000000000)%Z | None => false end)
    (at_error where_ "%s: idle must be a duration from 100ms to 1m").

Definition check_read (where_ : string) (r : ReadBy) : option goerr :=
  first_of [
    unless (is_service (rb_Service r) && is_ident (rb_EntitySet r) && is_ident (rb_Key r)) (at_error where_ "%s: read needs service, entitySet and key");
    unless (String.eqb (rb_KeyFrom r) "" || is_ident (rb_KeyFrom r)) (where_error where_ "%s: invalid keyFrom %q" [rb_KeyFrom r]);
    first_error (fun p => unless (is_property p) (where_error where_ "%s: invalid property %q" [p])) (rb_Select r ++ rb_Expand r)].

(** The loop of [validateSubscriptions], with the queues so far. *)
Fixpoint check_subscriptions (c : SapConfig) (queues : list (string * string)) (subs : list (string * Subscription)) : option goerr :=
  match subs with
  | [] => None
  | (name, s) :: subs =>
      let where_ := "subscription " +++ name in
      match first_of [
        unless (negb (has_key name (sc_Events c))) (where_error where_ "%s: %s is also a polled event; name it once" [name]);
        unless (fullmatch queueRE (sb_Queue s) && Nat.leb (String.length (sb_Queue s)) 200) (where_error where_ "%s: invalid queue %q" [sb_Queue s]);
        match find_first (fun q => String.eqb (fst q) (sb_Queue s)) queues with
        | Some (_, other) => Some (where_error where_ "%s: queue %s is also subscription %s's; consumers of one queue take each other's messages" [sb_Queue s; other])
        | None => None
        end;
        unless (negb (is_nil (sb_Types s))) (at_error where_ "%s: types are required (the CloudEvent types to take, e.g. sap.s4.beh.salesorder.v1.SalesOrder.Created.v1)");
        first_error (fun t => unless (fullmatch eventTypeRE t) (where_error where_ "%s: invalid type %q" [t])) (sb_Types s);
        first_error (fun fv => unless (is_ident (fst fv)) (where_error where_ "%s: invalid match field %q" [fst fv])) (sb_Match s);
        check_idle where_ (sb_Idle s);
        match sb_Read s with Some r => check_read where_ r | None => None end] with
      | Some e => Some e
      | None => check_subscriptions c ((sb_Queue s, name) :: queues) subs
      end
  end.

Definition validateSubscriptions (c : SapConfig) : option goerr :=
  if is_nil (sc_Subscriptions c) then None
  else match sc_EventMesh c with
    | None => Some (Errorf (msg0 "subscriptions need eventMesh: the instance's url, tokenURL and secretRef"))
    | Some m => first_of [
        checkURL "eventMesh.url" (em_URL m);
        checkURL "eventMesh.tokenURL" (em_TokenURL m);
        unless (negb (String.eqb (em_SecretRef m) "")) (Errorf (msg0 "eventMesh.secretRef is required: the service key's OAuth client"));
        check_subscriptions c [] (sc_Subscriptions c)]
    end.

(** [Config.validate]. *)
Definition validate_sap (c : SapConfig) : option goerr :=
  match http_url (sc_BaseURL c) with
  | None => Some (Errorf (msg0 "baseURL must be an http(s) URL"))
  | Some u => first_of [
      SameOrigin (sc_Auth c) u;
      unless (String.eqb (sc_Client c) "" || fullmatch clientRE (sc_Client c)) (Errorf (Msg "client must be three digits, got %q" [FStr (sc_Client c)]));
      first_error check_sap_event (sc_Events c);
      validateSubscriptions c;
      first_error check_sap_operation (sc_Operations c)]
  end.

(** [Conn], without its token and its authenticator. *)
Record SapConn := mkSapConn { cn_cfg : SapConfig; cn_PageSize : Z; cn_MaxPages : nat }.

(** [New]. *)
Definition with_type (t : string) (a : Auth) : Auth :=
  mkAuth t (au_Header a) (au_TokenURL a) (au_Scopes a) (au_Realm a) (au_ClientAuth a) (au_LoginURL a) (au_Cookies a).
Definition defaulted (c : SapConfig) : SapConfig :=
  mkSapConfig (trim_end "/" (sc_BaseURL c)) (or_else (sc_ServicePath c) "/sap/opu/odata/sap") (sc_Client c)
    (with_type (or_else (au_Type (sc_Auth c)) "basic") (sc_Auth c))
    (map (fun '(name, e) => (name, mkSapEvent (se_Service e) (se_EntitySet e) (se_Key e) (or_else (se_Changed e) "LastChangeDateTime")
      (se_Filter e) (se_Select e) (se_Expand e))) (sc_Events c))
    (sc_Operations c) (sc_EventMesh c) (sc_Subscriptions c).
Definition New_sap (c : SapConfig) (secret : string) : result (SapConn * authenticator) :=
  let c := defaulted c in
  match validate_sap c with
  | Some e => Err e
  | None => let! a := NewAuthenticator (sc_Auth c) secret in Ok (mkSapConn c 100 20, a)
  end.
End validation.

(** ** Dates and records *)

(** JSON as the connector reads it: {"d": {...}} with [UseNumber], its raw "d", a list, and
    {"results": [...]}, where a null map is [JNull]; an error's code and message; results of
    creates, and the names in them; [fmt.Sprint]; and whether [ParseFloat] takes a text. *)
Class SapText := {
  sp_entity : string -> option json;
  sp_d : string -> option string;
  sp_list : string -> option (list json);
  sp_results : string -> option (list json);
  sp_error : string -> option (string * string);
  sp_result : SapResult -> string;
  sp_prior : string -> option SapResult;
  sp_named : string -> option (string * string);
  sp_sprint : json -> string;
  sp_is_float : string -> bool
}.

(** [ParseInt]'s value, which is the nearest one when it is out of range. *)
Definition int_text (s : string) : option Z := match s with String "-" r => Z.opp <$> digits_value r | _ => digits_value s end.
Definition clamped (s : string) : Z := match int_text s with Some z => Z.max int_min (Z.min int_max z) | None => 0%Z end.

(** [time.Parse] with the layouts "2006-01-02T15:04:05" and "2006-01-02", in Unix
    milliseconds. *)
Definition parse_time_T (s : string) : option Z :=
  match parse_date s with
  | Some (days, String "T" s) =>
      match clock_fields s with
      | Some (sec, s) => match get_fraction s with (ms, "") => Some ((days * 86400 + sec) * 1000 + ms)%Z | _ => None end
      | None => None
      end
  | _ => None
  end.
Definition parse_day (s : string) : option Z := match parse_date s with Some (days, "") => Some (days * 86400000)%Z | _ => None end.

(** [parseDate], in Unix milliseconds. *)
Definition parseDate (v : json) : option Z :=
  let s := match v with JStr s => s | _ => "" end in
  match msjson s with
  | Some n => atoi n
  | None =>
      match parse_rfc3339 s with
      | Some ms => Some ms
      | None => match parse_time_T s with Some ms => Some ms | None => parse_day s end
      end
  end.

(** [clean]. *)
Definition written_date (ms : Z) : string :=
  if (ms mod 86400000 =? 0)%Z then format_date (ms / 86400000) else format_time_T ms +++ "Z".
Definition deferred (v : json) : bool := match v with JObj l => has_key "__deferred" l | _ => false end.
Fixpoint kept (l cleaned : list (string * json)) : list (string * json) :=
  match l, cleaned with
  | (k, x) :: l, c :: cleaned => if String.eqb k "__metadata" || deferred x then kept l cleaned else c :: kept l cleaned
  | _, _ => []
  end.
Fixpoint clean (v : json) : json :=
  match v with
  | JObj l =>
      let cleaned := map (fun '(k, x) => (k, clean x)) l in
      match json_field l "results" with
      | JArr _ => if Nat.leb (List.length l) 2 then json_field cleaned "results" else JObj (kept l cleaned)
      | _ => JObj (kept l cleaned)
      end
  | JArr l => JArr (map clean l)
  | JStr s => match msjson s with Some n => JStr (written_date (clamped n)) | None => v end
  | _ => v
  end.

(** [lookup]. *)
Fixpoint object_path (v : json) (parts : list string) : json :=
  match parts with
  | [] => v
  | p :: parts => match v with JObj l => object_path (json_field l p) parts | _ => JNull end
  end.
Definition lookup_doc (doc : json) (path : string) : json := object_path doc (split_on "." path).

(** [rec[k]]; a nil map has nothing. *)
Definition property (rec : json) (k : string) : json := json_field (entries rec) k.

Section sap_values.
Context `{T : RestText} `{P : SapText}.

(** [convert]. *)
Definition invalid (format : string) (args : list string) : goerr := Wrapf (Msg format (map FStr args)) [Sentinel ErrInvalid].
Definition convert (prop : string) (v : json) (typ : string) : result json :=
  if is_null v || String.eqb typ "" then Ok v
  else if String.eqb typ "date" then
    match parseDate v with
    | Some ms => Ok (JStr ("/Date(" +++ itoa ms +++ ")/"))
    | None => Err (invalid "%w: %s must be a date, got %v" [prop])
    end
  else if String.eqb typ "decimal" then
    match v with
    | JNum n => Ok (JStr n)
    | JFloat x => Ok (JStr (rt_format x))
    | JStr n => if sp_is_float n then Ok (JStr n) else Err (invalid "%w: %s must be a number, got %v" [prop])
    | _ => Err (invalid "%w: %s must be a number, got %v" [prop])
    end
  else if String.eqb typ "string" then Ok (JStr (sp_sprint v))
  else Ok v.

(** [build]. *)
Fixpoint build_fields (doc : json) (fields types : list (string * string)) (out : list (string * json)) : result (list (string * json)) :=
  match fields with
  | [] => Ok out
  | (p, f) :: fields =>
      let! v := convert p (lookup_doc doc f) (default "" (find_named p types)) in
      build_fields doc fields types (if is_null v then out else set_field p v out)
  end.
Definition build (doc : json) (fields : list (string * string)) (constants : list (string * json)) (types : list (string * string)) : result (list (string * json)) :=
  build_fields doc fields types (fold_left (fun out pv => set_field (fst pv) (snd pv) out) constants []).

(** An item's price, put into it. *)
Definition price_item (doc item : json) (where_ : string) (p : Price) (built : list (string * json)) : result (list (string * json)) :=
  match lookup_doc item (pi_Rate p) with
  | JNull => Ok built
  | r =>
      let! rate := convert (where_ +++ "." +++ pi_Rate p) r "decimal" in
      let currency := if String.eqb (pi_Currency p) "" then JNull else lookup_doc doc (pi_Currency p) in
      let element := [("ConditionType", JStr (pi_ConditionType p)); ("ConditionRateValue", rate)] ++
        (if is_null currency then [] else [("ConditionCurrency", JStr (sp_sprint currency))]) in
      Ok (set_field (pi_Navigation p) (JArr [JObj element]) built)
  end.

(** The loop of [body] over the items. *)
Fixpoint build_items (doc : json) (it : Items) (i : Z) (l : list json) : result (list json) :=
  match l with
  | [] => Ok []
  | item :: l =>
      let where_ := it_From it +++ "[" +++ itoa i +++ "]" in
      if negb (is_map item) then Err (Wrapf (Msg "%w: %s[%d] is not an object" [FStr (it_From it); FInt i]) [Sentinel ErrInvalid])
      else
        let! built := build item (it_Fields it) (it_Constants it) (it_Types it) in
        let! built := match it_Price it with Some p => price_item doc item where_ p built | None => Ok built end in
        let! items := build_items doc it (i + 1)%Z l in
        Ok (JObj built :: items)
  end.

(** [body]. *)
Definition create_body (op : SapOperation) (payload : string) : result (list (string * json)) :=
  match rt_decode payload with
  | Some ((JObj _ | JNull) as doc) =>
      let! out := build doc (so_Fields op) (so_Constants op) (so_Types op) in
      match so_Items op with
      | None => Ok out
      | Some it =>
          match lookup_doc doc (it_From it) with
          | JArr (item :: l) => let! items := build_items doc it 0 (item :: l) in Ok (set_field (it_Navigation it) (JArr items) out)
          | _ => Err (invalid "%w: %s has no items" [it_From it])
          end
      end
  | _ => Err (invalid "%w: payload must be a JSON object" [])
  end.

(** [collection]. *)
Definition collection (data : string) : result (list json) :=
  match sp_d data with
  | None => Err (Errorf (msg0 "sap: response is not an OData v2 collection"))
  | Some d =>
      match if has_prefix "[" (trim_space d) then sp_list d else sp_results d with
      | Some l => Ok l
      | None => Err (Errorf (msg0 "json"))
      end
  end.

(** [entity]. *)
Definition entity (data : string) : result json :=
  match sp_entity data with
  | Some (JObj l) => Ok (JObj l)
  | _ => Err (Errorf (msg0 "sap: response is not an OData v2 entity"))
  end.

(** [toEvent] and [boundary]. *)
Definition toEvent (name : string) (e : SapEvent) (rec : json) : result Event :=
  let id := property rec (se_Key e) in
  match parseDate (property rec (se_Changed e)) with
  | Some ms =>
      if is_null id then Err (Errorf (Msg "sap: %s entity %q has no valid %s" [FStr (se_EntitySet e); FStr (sp_sprint id); FStr (se_Changed e)]))
      else Ok (mkSourceEvent (sp_sprint id) ms name (rt_marshal (clean rec)))
  | None => Err (Errorf (Msg "sap: %s entity %q has no valid %s" [FStr (se_EntitySet e); FStr (sp_sprint id); FStr (se_Changed e)]))
  end.
Fixpoint to_events (name : string) (e : SapEvent) (recs : list json) : result (list Event) :=
  match recs with
  | [] => Ok []
  | rec :: recs => let! ev := toEvent name e rec in let! evs := to_events name e recs in Ok (ev :: evs)
  end.
Definition before_group (events : list Event) : list Event :=
  match List.rev events with
  | [] => []
  | last :: _ => List.rev (drop_while (fun ev => (sev_Position ev =? sev_Position last)%Z) (List.rev events))
  end.
End sap_values.

(** [entityPath] and [literal]. *)
Definition entityPath (set_ id : string) : result string :=
  if is_key id then Ok (set_ +++ "('" +++ id +++ "')") else Err (invalid "%w: %q is not an SAP key" [id]).
Definition literal (s : string) : string := "'" +++ double_quotes s +++ "'".

(** [redact]. *)
Definition redact (target : string) : string := match cut_first "?" target with Some (before, _) => before | None => target end.

(** ** Requests *)

(** The world with the connection's CSRF token. *)
Record Session (W : Type) := mkSession { ss_csrf : string; ss_world : W }.
Arguments mkSession {_}. Arguments ss_csrf {_}. Arguments ss_world {_}.

Section session.
Context {W : Type} `{H : Http W} `{K : !TokenStore (S := W)}.

Definition outside {X} (f : W -> X * W) (s : Session W) : X * Session W :=
  let (x, w) := f (ss_world s) in (x, mkSession (ss_csrf s) w).
#[export] Instance session_http : Http (Session W) := {|
  http_do req := outside (http_do req);
  http_now := outside http_now;
  http_random n := outside (http_random n)
|}.
#[export] Instance session_tokens : TokenStore (S := Session W) := {|
  ts_open key := outside (ts_open key);
  ts_close key next := outside (ts_close key next)
|}.
End session.

Section sap.
Context `{A : AuthText} `{T : RestText} `{V : SapURL} `{P : SapText} {W : Type} `{H : Http W} `{K : !TokenStore (S := W)} (conn : SapConn).
#[local] Notation "'try' x ':=' m 'in' k" := (then_ m (fun x => k)) (at level 10, x name, m at level 200, k at level 200).
#[local] Notation "'try' ' p ':=' m 'in' k" := (then_ m (fun x => match x with p => k end)) (at level 10, p pattern, m at level 200, k at level 200).

Definition cfg_ : SapConfig := cn_cfg conn.
Definition C_ (X : Type) : Type := U (S := Session W) X.

(** [permanent]. *)
Definition permanent_sap (status : Z) : bool := existsb (Z.eqb status) [400; 403; 404; 405; 422]%Z.

(** [apiError]; [AnsweredWith] marks this package's [APIError] for [errors.As]. *)
Definition short_body (s : string) : string := if Nat.ltb 500 (String.length s) then fst (str_cut 500 s) +++ ellipsis else s.
Definition apiError (method target : string) (status : Z) (data : string) : failure :=
  let (code, message) := match sp_error data with
    | Some (code, message) => if String.eqb message "" then ("", trim_space data) else (code, message)
    | None => ("", trim_space data)
    end in
  let message := short_body message in
  let e := Errorf (Msg "sap %s %s: %d %s" [FStr method; FStr (redact target); FInt status;
    FStr (if String.eqb code "" then message else code +++ ": " +++ message)]) in
  AnsweredWith status (if permanent_sap status then Wrapf (msg0 "%w: %w") [Sentinel ErrInvalid; e] else e).

(** The authenticator's errors are not this package's. *)
Definition authorize (req : request) : C_ (failure + request) :=
  r ← apply req; mret match r with inl f => inl (Failed (failure_error f)) | inr req => inr req end.

(** [token] and [dropToken]. *)
Definition directory (path : string) : string := match cut_last "/" path with Some (before, _) => before +++ "/" | None => "" end.
Definition token_root (u : HttpURL) (target : string) : string :=
  hu_Scheme u +++ "://" +++ hu_Host u +++ directory (sp_path target) +++
  (if String.eqb (sc_Client cfg_) "" then "" else "?sap-client=" +++ sc_Client cfg_).
Definition set_csrf (t : string) : C_ unit := world (fun s => (tt, mkSession t (ss_world s))).
Definition token (target : string) : C_ (failure + string) :=
  held ← world (fun s => (ss_csrf s, s));
  if negb (String.eqb held "") then answer_ held
  else match at_url target with
    | None => refuse (Errorf (msg0 "parse"))
    | Some u =>
        let root := token_root u target in
        try req := authorize (mkRequest "GET" root (set_header "Accept" "application/json" (set_header "X-CSRF-Token" "Fetch" ∅)) "" true) in
        ans ← world (http_do req);
        match ans with
        | NoAnswer e => refuse (Wrapf (msg0 "sap csrf token: %w") [e])
        | Answer status h _ data =>
            if (300 <=? status)%Z then mret (inl (apiError "GET" root status data))
            else
              let t := get_header h "X-CSRF-Token" in
              set_csrf t;;
              if String.eqb t "" then refuse (Errorf (msg0 "sap csrf token: the service returned none")) else answer_ t
        end
    end.

(** The request of [do], without the token and the credentials. *)
Definition sap_request (method target : string) (body : option json) (header : Header) : request :=
  let h := set_header "Accept" "application/json" ∅ in
  let h := match body with None => h | Some _ => set_header "Content-Type" "application/json" h end in
  mkRequest method target (header ∪ h) (match body with None => "" | Some v => rt_marshal v end) true.
Definition modifying (method : string) : bool := negb (one_of method ["GET"; "HEAD"]).
Definition token_required (h : Header) : bool := equal_fold (get_header h "X-CSRF-Token") "Required".

(** The loop of [do]: each of the two retries is made once, so there are at most three
    attempts. *)
Fixpoint attempts (fuel : nat) (method target : string) (body : option json) (header : Header) (retriedAuth retriedCSRF : bool)
    : C_ (failure + (Header * string)) :=
  match fuel with
  | O => refuse (Errorf (msg0 "attempts"))
  | Datatypes.S fuel =>
      let req := sap_request method target body header in
      try req := (if modifying method then try t := token target in answer_ (with_header "X-CSRF-Token" t req) else answer_ req) in
      try req := authorize req in
      ans ← world (http_do req);
      a ← self;
      match ans with
      | NoAnswer e => refuse (Wrapf (Msg "sap %s %s: %w" [FStr method; FStr (redact target)]) [e])
      | Answer status h _ data =>
          if (status =? StatusUnauthorized)%Z && refreshable a && negb retriedAuth then
            update (invalidate (Some req));; attempts fuel method target body header true retriedCSRF
          else if (status =? 403)%Z && modifying method && token_required h && negb retriedCSRF then
            set_csrf "";; attempts fuel method target body header retriedAuth true
          else if (300 <=? status)%Z then mret (inl (apiError method target status data))
          else answer_ (h, data)
      end
  end.
Definition do_sap (method target : string) (body : option json) (header : Header) : C_ (failure + (Header * string)) :=
  attempts 3 method target body header false false.

(** [url]. *)
Definition sap_url (service set_ : string) (q : gmap string string) : string :=
  let q := <["$format" := "json"]> q in
  let q := if String.eqb (sc_Client cfg_) "" then q else <["sap-client" := sc_Client cfg_]> q in
  sc_BaseURL cfg_ +++ sc_ServicePath cfg_ +++ "/" +++ service +++ "/" +++ set_ +++ "?" +++ join "%20" (split_on "+" (encode_query q)).

(** ** Polling *)

Definition poll_filter (e : SapEvent) (after : Z) : string :=
  let since := se_Changed e +++ " gt datetimeoffset'" +++ format_rfc3339 after +++ "'" in
  if String.eqb (se_Filter e) "" then since else "(" +++ se_Filter e +++ ") and " +++ since.
Definition selected (select : list string) (must : list string) : list string :=
  fold_left (fun l p => if one_of p l then l else l ++ [p]) must select.
Definition with_lists (select expand : list string) (q : gmap string string) : gmap string string :=
  let q := match select with [] => q | _ => <["$select" := join "," select]> q end in
  match expand with [] => q | _ => <["$expand" := join "," expand]> q end.
Definition poll_query (e : SapEvent) (after limit : Z) : gmap string string :=
  with_lists (match se_Select e with [] => [] | l => selected l [se_Key e; se_Changed e] end) (se_Expand e)
    {[ "$filter" := poll_filter e after; "$orderby" := se_Changed e +++ " asc," +++ se_Key e +++ " asc"; "$top" := itoa limit ]}.

(** The loop of [Poll] over pages. *)
Fixpoint sap_pages (e : SapEvent) (name : string) (q : gmap string string) (limit : Z) (pages : nat) (page : Z) (events : list Event)
    : C_ (failure + list Event) :=
  match pages with
  | O => refuse (Errorf (Msg "sap: more than %d entities of %s share one %s" [FInt (Z.of_nat (cn_MaxPages conn) * limit); FStr (se_EntitySet e); FStr (se_Changed e)]))
  | Datatypes.S pages =>
      try '(_, data) := do_sap "GET" (sap_url (se_Service e) (se_EntitySet e) (<["$skip" := itoa (page * limit)]> q)) None ∅ in
      try recs := lift (collection data) in
      try evs := lift (to_events name e recs) in
      let events := events ++ evs in
      if (Z.of_nat (List.length recs) <? limit)%Z then answer_ events
      else match before_group events with
        | [] => sap_pages e name q limit pages (page + 1)%Z events
        | kept => answer_ kept
        end
  end.

(** [Poll]. *)
Definition page_limit (limit : Z) : Z := if (limit <=? 0)%Z || (cn_PageSize conn <? limit)%Z then cn_PageSize conn else limit.
Definition Poll_sap (name : string) (after limit : Z) : C_ (failure + list Event) :=
  match find_named name (sc_Events cfg_) with
  | None => refuse (Errorf (Msg "sap: event %q is not configured on this connection" [FStr name]))
  | Some e => sap_pages e name (poll_query e after (page_limit limit)) (page_limit limit) (cn_MaxPages conn) 0 []
  end.

(** ** Writes *)

(** [operation]; any action is "". *)
Definition sap_operation (name action : string) : result SapOperation :=
  match find_named name (sc_Operations cfg_) with
  | None => Err (Errorf (Msg "sap: operation %q is not configured on this connection" [FStr name]))
  | Some op =>
      if negb (String.eqb action "") && negb (String.eqb (so_Action op) action)
      then Err (Errorf (Msg "sap: operation %q is a %s, not a %s" [FStr name; FStr (so_Action op); FStr action])) else Ok op
  end.

(** [Simulate]. *)
Definition Simulate_sap (name payload : string) : C_ (failure + string) :=
  try op := lift (sap_operation name "") in
  match so_Simulate op with
  | Some s =>
      if negb (String.eqb (so_Action op) "create") then refuse (Sentinel ErrSimulationUnsupported)
      else
        try req := lift (create_body op payload) in
        try '(_, data) := do_sap "POST" (sap_url (su_Service s) (su_EntitySet s) ∅) (Some (JObj req)) ∅ in
        try rec := lift (entity data) in
        answer_ (rt_marshal (JObj [("mode", JStr "testrun"); ("entitySet", JStr (so_EntitySet op)); ("record", clean rec)]))
  | None => refuse (Sentinel ErrSimulationUnsupported)
  end.

(** [existing]. *)
Definition sap_existing (op : SapOperation) (key : string) : C_ (failure + option json) :=
  let q := {[ "$filter" := so_Reference op +++ " eq " +++ literal key; "$top" := "2" ]} in
  try '(_, data) := do_sap "GET" (sap_url (so_Service op) (so_EntitySet op) q) None ∅ in
  try recs := lift (collection data) in
  match recs with
  | [] => answer_ None
  | [rec] => answer_ (Some rec)
  | _ => refuse (invalid "%w: more than one %s has %s %s; the reference must be unique" [so_EntitySet op; so_Reference op; key])
  end.

(** A null map, as a found record may be, is none. *)
Definition as_record (v : json) : json := match v with JObj l => JObj l | _ => JNull end.

(** [create]. *)
Definition sap_create (op : SapOperation) (key payload : string) : C_ (failure + string) :=
  try req := lift (create_body op payload) in
  let referenced := negb (String.eqb (so_Reference op) "") in
  if referenced && (String.eqb key "" || Nat.ltb 35 (String.length key)) then
    refuse (invalid "%w: the idempotency key must be 1 to 35 characters to fit %s, got %q" [so_Reference op; key])
  else
    try found := (if referenced then sap_existing op key else answer_ None) in
    let reference := if referenced then key else "" in
    match found with
    | Some (JObj l) =>
        answer_ (sp_result (mkSapResult (so_Service op) (so_EntitySet op) (sp_sprint (property (JObj l) (so_Key op))) reference true (as_record (clean (JObj l)))))
    | _ =>
        let req := if referenced then set_field (so_Reference op) (JStr key) req else req in
        try '(_, data) := do_sap "POST" (sap_url (so_Service op) (so_EntitySet op) ∅) (Some (JObj req)) ∅ in
        try rec := lift (entity data) in
        if is_null (property rec (so_Key op)) then refuse (Errorf (Msg "sap: the created %s has no %s" [FStr (so_EntitySet op); FStr (so_Key op)]))
        else answer_ (sp_result (mkSapResult (so_Service op) (so_EntitySet op) (sp_sprint (property rec (so_Key op))) reference false (as_record (clean rec))))
    end.

(** [errors.As(err, &api) && api.Status == http.StatusNotFound]. *)
Definition not_found (f : failure) : bool := match f with AnsweredWith status _ => (status =? 404)%Z | Failed _ => false end.

(** [delete]. *)
Definition deleted (op : SapOperation) (id : string) (gone : bool) : string :=
  rt_marshal (JObj ([("entitySet", JStr (so_EntitySet op)); ("id", JStr id); ("deleted", JBool true)] ++ if gone then [("alreadyGone", JBool true)] else [])).
Definition etag_of (h : Header) (data : string) : string :=
  let etag := get_header h "ETag" in
  let etag := if String.eqb etag "" then
      match entity data with
      | Ok rec => match property rec "__metadata" with
          | JObj md => match json_field md "etag" with JStr s => s | _ => "" end
          | _ => ""
          end
      | Err _ => ""
      end
    else etag in
  or_else etag "*".
Definition sap_delete (op : SapOperation) (payload : string) : C_ (failure + string) :=
  match sp_prior payload with
  | None => refuse (invalid "%w: delete needs the result of a create" [])
  | Some prior =>
      if String.eqb (sr_ID prior) "" then refuse (invalid "%w: delete needs the result of a create" [])
      else if negb (String.eqb (sr_EntitySet prior) (so_EntitySet op) && String.eqb (sr_Service prior) (so_Service op))
      then refuse (invalid "%w: cannot delete a %s with an operation on %s" [sr_EntitySet prior; so_EntitySet op])
      else
        try path := lift (entityPath (so_EntitySet op) (sr_ID prior)) in
        let target := sap_url (so_Service op) path ∅ in
        r ← do_sap "GET" target None ∅;
        match r with
        | inl f => if not_found f then answer_ (deleted op (sr_ID prior) true) else mret (inl f)
        | inr (h, data) =>
            r ← do_sap "DELETE" target None (<["If-Match" := etag_of h data]> ∅);
            match r with
            | inl f => if not_found f then answer_ (deleted op (sr_ID prior) true) else mret (inl f)
            | inr _ => answer_ (deleted op (sr_ID prior) false)
            end
        end
  end.

(** [Commit]. *)
Definition Commit_sap (name key payload : string) : C_ (failure + string) :=
  try op := lift (sap_operation name "") in
  if String.eqb (so_Action op) "create" then sap_create op key payload
  else if String.eqb (so_Action op) "delete" then sap_delete op payload
  else refuse (Errorf (Msg "sap: operation %q is a %s, not a write" [FStr name; FStr (so_Action op)])).

(** [Confirm]; no error is [inr]. *)
Definition Confirm_sap (name result : string) : C_ (failure + unit) :=
  try op := lift (sap_operation name "") in
  match sp_named result with
  | None => refuse (Errorf (msg0 "json"))
  | Some (id, reference) =>
      try path := lift (entityPath (so_EntitySet op) id) in
      r ← do_sap "GET" (sap_url (so_Service op) path ∅) None ∅;
      match r with
      | inl f => if String.eqb (so_Action op) "delete" && not_found f then answer_ tt else mret (inl f)
      | inr (_, data) =>
          if String.eqb (so_Action op) "delete" then refuse (Errorf (Msg "%s %s still exists after deletion" [FStr (so_EntitySet op); FStr id]))
          else if String.eqb (so_Reference op) "" then answer_ tt
          else
            try rec := lift (entity data) in
            let got := sp_sprint (property rec (so_Reference op)) in
            if String.eqb got reference then answer_ tt
            else refuse (Errorf (Msg "%s %s reads back %s %q, want %q" [FStr (so_EntitySet op); FStr id; FStr (so_Reference op); FStr got; FStr reference]))
      end
  end.

(** [Read]. *)
Definition Read_sap (name id : string) : C_ (failure + string) :=
  try op := lift (sap_operation name "get") in
  match entityPath (so_EntitySet op) id with
  | Err _ => refuse (Sentinel ErrNotFound)
  | Ok path =>
      r ← do_sap "GET" (sap_url (so_Service op) path (<["$select" := join "," (sort_strings (so_Fields op).*1)]> ∅)) None ∅;
      match r with
      | inl f => mret (inl (if not_found f then Failed (Sentinel ErrNotFound) else f))
      | inr (_, data) =>
          try rec := lift (entity data) in
          let rec := as_record (clean rec) in
          answer_ (rt_marshal (JObj (fold_left (fun m pa => set_field (snd pa) (property rec (fst pa)) m) (so_Fields op) [("id", JStr id)])))
      end
  end.
End sap.
