(* ===== verification/SapMesh.v ===== *)
(** Business events from SAP Event Mesh: [src/pkg/connector/sap/eventmesh.go], and the factory
    of [sap.go]. The Event Mesh instance and the OData services are outside, each a world of
    its own ([Http]), as is what takes the events. *)

From S2P Require Import Turgon Prelude GoStr GoText GoErr GoTime Guard Engine RestAuth Rest RestProps Sap.
From Stdlib Require Import Ascii String.

(** [cloudEvent]; no data is "". *)
Record cloudEvent := mkCloudEvent {
  ce_SpecVersion : string;
  ce_ID : string;
  ce_Type : string;
  ce_Source : string;
  ce_Subject : string;
  ce_Time : string;
  ce_Data : string;
  ce_DataBase64 : string
}.

(** The JSON of a CloudEvent in structured mode. *)
Class MeshText := { mt_event : string -> option cloudEvent }.

(** [message]. *)
Record message := mkMessage { ms_id : string; ms_header : Header; ms_body : string }.

(** [parseCloudEvent]. *)
Definition parseCloudEvent `{MeshText} (m : message) : result cloudEvent :=
  let header := get_header (ms_header m) in
  match (if String.eqb (header "Ce-Id") "" then mt_event (ms_body m)
         else Some (mkCloudEvent (header "Ce-Specversion") (header "Ce-Id") (header "Ce-Type") (header "Ce-Source")
                      (header "Ce-Subject") (header "Ce-Time") (ms_body m) "")) with
  | None => Err (Errorf (msg0 "not a CloudEvent: %w"))
  | Some ce =>
      if one_of "" [ce_SpecVersion ce; ce_ID ce; ce_Type ce; ce_Source ce]
      then Err (Errorf (msg0 "not a CloudEvent: specversion, id, type and source are required"))
      else if String.eqb (ce_Data ce) "" && negb (String.eqb (ce_DataBase64 ce) "") then
        match base64_decode (ce_DataBase64 ce) with
        | None => Err (Errorf (msg0 "data_base64: %w"))
        | Some data => Ok (mkCloudEvent (ce_SpecVersion ce) (ce_ID ce) (ce_Type ce) (ce_Source ce) (ce_Subject ce) (ce_Time ce) data (ce_DataBase64 ce))
        end
      else Ok ce
  end.

(** [typeMatches]. *)
Definition type_matches (want t : string) : bool :=
  match cut_last "*" want with
  | Some (p, "") => has_prefix p t || String.eqb want t
  | _ => String.eqb want t
  end.
Definition typeMatches (types : list string) (t : string) : bool := existsb (fun want => type_matches want t) types.

(** [matchesData]. *)
Definition matchesData `{T : RestText} (data : json) (want : list (string * json)) : bool :=
  forallb (fun kv => has_key (fst kv) (entries data) && String.eqb (rt_marshal (property data (fst kv))) (rt_marshal (snd kv))) want.

(** What a message is turned into: nothing, an event, or a panic: an assignment into a nil
    map. *)
Inductive converted := Dropped | Taken_as (ev : Event) | Panicked.

(** [meshClient], without its authenticator. *)
Record meshClient := mkMeshClient { mh_base : string; mh_liveness : Z }.
Definition mesh_of (m : EventMesh) : meshClient := mkMeshClient (trim_end "/" (em_URL m) +++ "/messagingrest/v1") 30000000000.

(** [queuePath]. *)
Definition queuePath (queue : string) : string := "/queues/" +++ path_escape queue.
Definition consume_path (queue : string) : string := queuePath queue +++ "/messages/consumption".
Definition ack_path (queue id : string) : string := queuePath queue +++ "/messages/" +++ path_escape id +++ "/acknowledgement".

(** [UseEventMesh]. *)
Definition UseEventMesh `{A : AuthText} (c : SapConfig) (secret : string) : result (meshClient * authenticator) :=
  match sc_EventMesh c with
  | None => Err (Errorf (msg0 "the connection configures no eventMesh"))
  | Some m =>
      let! auth := NewAuthenticator (mkAuth "oauth2" "" (em_TokenURL m) [] "" "body" "" []) secret in
      Ok (mesh_of m, auth)
  end.

(** [Factory] of [sap.go], from a decoded configuration. *)
Definition InterfaceEventMesh : string := "event-mesh".
Definition without_mesh (c : SapConfig) : SapConfig :=
  mkSapConfig (sc_BaseURL c) (sc_ServicePath c) (sc_Client c) (sc_Auth c) (sc_Events c) (sc_Operations c) None [].
Definition Factory_sap `{A : AuthText} `{V : SapURL} (secrets : string -> result string) (endpoint secretRef : string) (interfaces : list string)
    (config : option SapConfig) : result (SapConn * authenticator * option (meshClient * authenticator)) :=
  let fail e := Err (Wrapf (Msg "sap %s: %w" [FStr endpoint]) [e]) in
  let mesh_fail e := Err (Wrapf (Msg "sap %s: event mesh: %w" [FStr endpoint]) [e]) in
  let used := one_of InterfaceEventMesh interfaces in
  match config with
  | None => Err (Wrapf (Msg "sap %s: config: %w" [FStr endpoint]) [])
  | Some c =>
      let c := if is_some (sc_EventMesh c) && negb used then without_mesh c else c in
      match secrets secretRef with
      | Err e => fail e
      | Ok secret =>
          match New_sap c secret with
          | Err e => fail e
          | Ok (conn, a) =>
              match sc_EventMesh c with
              | Some m =>
                  if negb used then Ok (conn, a, None)
                  else match secrets (em_SecretRef m) with
                    | Err e => mesh_fail e
                    | Ok secret =>
                        match UseEventMesh (cn_cfg conn) secret with
                        | Err e => mesh_fail e
                        | Ok mesh => Ok (conn, a, Some mesh)
                        end
                    end
              | None => Ok (conn, a, None)
              end
          end
      end
  end.

(** [Streams]. *)
Definition Streams_sap (c : SapConfig) (event : string) : bool := has_key event (sc_Subscriptions c).

(** ** Calls of the messaging API *)

Section mesh.
Context `{A : AuthText} {Q : Type} `{H : Http Q} `{K : !TokenStore (S := Q)} (mesh : meshClient).
#[local] Notation "'try' x ':=' m 'in' k" := (then_ m (fun x => k)) (at level 10, x name, m at level 200, k at level 200).
#[local] Notation "'try' ' p ':=' m 'in' k" := (then_ m (fun x => match x with p => k end)) (at level 10, p pattern, m at level 200, k at level 200).

Definition mesh_wrap (e : goerr) : goerr := Wrapf (msg0 "event mesh: %w") [e].

(** [call], with what it returns of the answer; [AnsweredWith] marks a [meshError]. *)
Definition mesh_attempt (req : request) : U (S := Q) (failure + (request * (Z * Header * string))) :=
  r ← apply req;
  match r with
  | inl f => refuse (mesh_wrap (failure_error f))
  | inr req =>
      ans ← world (http_do req);
      match ans with
      | NoAnswer e => refuse (mesh_wrap e)
      | Answer status h _ data => answer_ (req, (status, h, data))
      end
  end.
Definition mesh_error (path : string) (status : Z) (data : string) : failure :=
  AnsweredWith status (Errorf (Msg "event mesh %s %s: %d %s" [FStr "POST"; FStr path; FInt status; FStr (short_message (trim_space data))])).
Definition mesh_call (path : string) (header : Header) : U (S := Q) (failure + (Z * Header * string)) :=
  let req := mkRequest "POST" (mh_base mesh +++ path) header "" true in
  try '(sent, ans) := mesh_attempt req in
  try ans := (if (fst (fst ans) =? StatusUnauthorized)%Z
              then update (invalidate (Some sent));; try '(_, ans) := mesh_attempt req in answer_ ans
              else answer_ ans) in
  let '(status, h, data) := ans in
  if (300 <=? status)%Z then mret (inl (mesh_error path status data)) else answer_ (status, h, data).

(** [consume]; no message is [None]. *)
Definition consume (queue : string) : U (S := Q) (failure + option message) :=
  try '(status, h, data) := mesh_call (consume_path queue) (set_header "X-Qos" "1" ∅) in
  if (status =? 204)%Z then answer_ None
  else
    let id := get_header h "X-Message-Id" in
    if String.eqb id "" then refuse (Errorf (msg0 "event mesh: a consumed message came without x-message-id, so it cannot be acknowledged"))
    else answer_ (Some (mkMessage id h data)).

(** [ack]. *)
Definition ack (queue id : string) : U (S := Q) (failure + unit) :=
  try _ := mesh_call (ack_path queue id) ∅ in answer_ tt.
End mesh.

(** [meshErr]. *)
Definition meshErr (f : failure) (queue : string) : goerr :=
  match f with
  | AnsweredWith status e => if (status =? 404)%Z then Wrapf (Msg "%w (is there a queue %s on the instance?)" [FStr queue]) [e] else e
  | Failed e => e
  end.

(** ** Messages *)

Section convert.
Context `{A : AuthText} `{T : RestText} `{V : SapURL} `{P : SapText} `{M : MeshText} {W : Type} `{H : Http W} `{K : !TokenStore (S := W)} (conn : SapConn).
#[local] Notation "'try' x ':=' m 'in' k" := (then_ m (fun x => k)) (at level 10, x name, m at level 200, k at level 200).
#[local] Notation "'try' ' p ':=' m 'in' k" := (then_ m (fun x => match x with p => k end)) (at level 10, p pattern, m at level 200, k at level 200).

(** [readEntity]; an entity that no longer exists is [JNull]. *)
Definition readEntity (r : ReadBy) (key : string) : C_ (W := W) (failure + json) :=
  try path := lift (entityPath (rb_EntitySet r) key) in
  let q := with_lists (match rb_Select r with [] => [] | l => selected l [rb_Key r] end) (rb_Expand r) ∅ in
  r ← do_sap conn "GET" (sap_url conn (rb_Service r) path q) None ∅;
  match r with
  | inl f => if not_found f then answer_ JNull else mret (inl f)
  | inr (_, data) => try rec := lift (entity data) in answer_ (as_record (clean rec))
  end.

(** The message's data: an object, or a nil map. *)
Definition event_data (ce : cloudEvent) : result json :=
  if String.eqb (trim_space (ce_Data ce)) "" then Ok (JObj [])
  else match rt_decode (ce_Data ce) with
    | Some ((JObj _ | JNull) as v) => Ok v
    | _ => Err (Errorf (Msg "event %s: data is not a JSON object: %w" [FStr (ce_ID ce)]))
    end.
Definition entity_key (v : json) : string := match v with JStr s => s | JNum n => n | _ => "" end.
Definition event_info (ce : cloudEvent) : json :=
  JObj [("id", JStr (ce_ID ce)); ("type", JStr (ce_Type ce)); ("source", JStr (ce_Source ce)); ("subject", JStr (ce_Subject ce)); ("time", JStr (ce_Time ce))].

(** The payload: the data, or the object it is about. *)
Definition event_payload (sub : Subscription) (ce : cloudEvent) (data : json) : C_ (W := W) (failure + json) :=
  match sb_Read sub with
  | None => answer_ data
  | Some r =>
      let from := or_else (rb_KeyFrom r) (rb_Key r) in
      let key := entity_key (property data from) in
      if String.eqb key "" then refuse (Errorf (Msg "event %s: data has no %s to read the %s by" [FStr (ce_ID ce); FStr from; FStr (rb_EntitySet r)]))
      else
        current ← readEntity r key;
        mret match current with
        | inl f => inl (Failed (Wrapf (Msg "event %s: %w" [FStr (ce_ID ce)]) [failure_error f]))
        | inr JNull => inr data
        | inr current => inr current
        end
  end.

(** [convertMessage]. *)
Definition convertMessage (event : string) (sub : Subscription) (m : message) : C_ (W := W) (failure + converted) :=
  try ce := lift (parseCloudEvent m) in
  if negb (typeMatches (sb_Types sub) (ce_Type ce)) then answer_ Dropped
  else
    try data := lift (event_data ce) in
    if negb (matchesData data (sb_Match sub)) then answer_ Dropped
    else
      try payload := event_payload sub ce data in
      answer_ match payload with
      | JObj l => Taken_as (mkSourceEvent (ce_ID ce) 0 event (rt_marshal (JObj (set_field "cloudEvent" (event_info ce) l))))
      | _ => Panicked
      end.
End convert.

(** ** Streams *)

(** How a stream ended: with an error, or a panic. *)
Inductive ended := Ended (e : goerr) | Crashed.

(** The state of a stream: the instance with its client's credentials, the OData services
    with the connection's, what takes the events, and when it last did. *)
Record Stream (Q W D : Type) := mkStream {
  sm_mesh : authenticator * Q;
  sm_data : authenticator * Session W;
  sm_sink : D;
  sm_report : Z
}.
Arguments mkStream {_ _ _}. Arguments sm_mesh {_ _ _}. Arguments sm_data {_ _ _}. Arguments sm_sink {_ _ _}. Arguments sm_report {_ _ _}.

Section stream.
Context `{A : AuthText} `{T : RestText} `{V : SapURL} `{P : SapText} `{M : MeshText}.
Context {Q W D : Type} `{HQ : Http Q} `{KQ : !TokenStore (S := Q)} `{HW : Http W} `{KW : !TokenStore (S := W)}.
Context (deliver : list Event -> D -> option goerr * D) (conn : SapConn) (mesh : meshClient) (event : string) (sub : Subscription).

(** The callback, and the time of what it took. *)
Definition hand_over (evs : list Event) (s : Stream Q W D) : option goerr * Stream Q W D :=
  let (e, d) := deliver evs (sm_sink s) in
  match e with
  | Some e => (Some e, mkStream (sm_mesh s) (sm_data s) d (sm_report s))
  | None =>
      let (now, q) := http_now (snd (sm_mesh s)) in
      (None, mkStream (fst (sm_mesh s), q) (sm_data s) d now)
  end.

(** One message, or a look at an empty queue; [None] goes on. *)
Definition stream_step (s : Stream Q W D) : option ended * Stream Q W D :=
  let (r, x) := consume mesh (sb_Queue sub) (sm_mesh s) in
  let s := mkStream x (sm_data s) (sm_sink s) (sm_report s) in
  match r with
  | inl f => (Some (Ended (meshErr f (sb_Queue sub))), s)
  | inr None =>
      let (now, q) := http_now (snd (sm_mesh s)) in
      let s := mkStream (fst (sm_mesh s), q) (sm_data s) (sm_sink s) (sm_report s) in
      if (mh_liveness mesh <=? now - sm_report s)%Z then
        let (e, s) := hand_over [] s in (match e with Some e => Some (Ended e) | None => None end, s)
      else (None, s)
  | inr (Some m) =>
      let (c, y) := convertMessage conn event sub m (sm_data s) in
      let s := mkStream (sm_mesh s) y (sm_sink s) (sm_report s) in
      match c with
      | inl f => (Some (Ended (Wrapf (Msg "sap event mesh %s: message %s: %w" [FStr (sb_Queue sub); FStr (ms_id m)]) [failure_error f])), s)
      | inr Panicked => (Some Crashed, s)
      | inr c =>
          let (e, s) := match c with Taken_as ev => hand_over [ev] s | _ => (None, s) end in
          match e with
          | Some e => (Some (Ended e), s)
          | None =>
              let (r, x) := ack mesh (sb_Queue sub) (ms_id m) (sm_mesh s) in
              (match r with inl f => Some (Ended (meshErr f (sb_Queue sub))) | inr _ => None end,
               mkStream x (sm_data s) (sm_sink s) (sm_report s))
          end
      end
  end.

(** The loop of [Stream], as many times round as the context lasts. *)
Fixpoint stream_steps (n : nat) (s : Stream Q W D) : option ended * Stream Q W D :=
  match n with
  | O => (None, s)
  | S n => let (e, s) := stream_step s in match e with Some e => (Some e, s) | None => stream_steps n s end
  end.
End stream.

(** [Stream]: what is subscribed, and to what. *)
Definition Stream_sap `{A : AuthText} `{T : RestText} `{V : SapURL} `{P : SapText} `{M : MeshText} {Q W D : Type} `{HQ : Http Q} `{KQ : !TokenStore (S := Q)}
    `{HW : Http W} `{KW : !TokenStore (S := W)} (deliver : list Event -> D -> option goerr * D) (conn : SapConn) (mesh : option meshClient) (event : string)
    (n : nat) (s : Stream Q W D) : option ended * Stream Q W D :=
  match find_named event (sc_Subscriptions (cn_cfg conn)), mesh with
  | None, _ => (Some (Ended (Errorf (Msg "sap: event %q is not a subscription on this connection" [FStr event]))), s)
  | _, None => (Some (Ended (Wrapf (msg0 "sap: %w") [Errorf (msg0 "event mesh: no credentials")])), s)
  | Some sub, Some mesh => stream_steps deliver conn mesh event sub n (mkStream (sm_mesh s) (sm_data s) (sm_sink s) zero_time)
  end.
