(* ===== verification/SapProps.v ===== *)
(** The SAP connector: its polls pass over no change, its filters stay apart from what they
    are joined with, and messages of Event Mesh are acknowledged when they are stored. *)

From S2P Require Import Turgon Prelude GoStr GoText GoErr GoTime GoDate Guard Engine RestAuth Rest RestProps Sap SapMesh.
From Stdlib Require Import Ascii String.

(** ** Reads *)

Section reads.
Context `{A : AuthText} `{T : RestText} `{V : SapURL} `{P : SapText} {W : Type} `{H : Http W} `{K : !TokenStore (S := W)}.
Context {R : Session W -> Session W -> Prop} `{F : !Framed (S := Session W) R} (conn : SapConn).

Lemma framed_authorize req : framed (R := R) (authorize (W := W) req).
Proof using F. unfold authorize. apply framed_bind; [apply framed_apply|intros]. frame. Qed.

Lemma authorize_request req (x : authenticator * Session W) r x' : authorize req x = (inr r, x') ->
  rq_method r = rq_method req /\ rq_target r = rq_target req /\ rq_body r = rq_body req.
Proof using.
  unfold authorize, mbind, U_bind, mret, U_ret. destruct (apply req x) as [[f|r1] x1] eqn:E; [done|]. intros Hr. injection Hr as <- _. exact (apply_request _ _ _ _ E).
Qed.

(** The answer a read ends with. *)
Lemma attempts_get fuel target : forall auth csrf a s h data a' s',
  attempts conn fuel "GET" target None ∅ auth csrf (a, s) = (inr (h, data), (a', s')) ->
  exists sent s1 status cookies, R s s1 /\ http_do sent s1 = (Answer status h cookies data, s') /\ (status < 300)%Z /\
    rq_method sent = "GET" /\ rq_target sent = target.
Proof using F.
  induction fuel as [|fuel IH]; intros auth csrf a s h data a' s' Hr; [done|]. cbn [attempts] in Hr.
  unfold then_, mbind, U_bind in Hr. change (modifying "GET") with false in Hr. cbn [answer_ mret U_ret] in Hr. unfold answer_, mret, U_ret in Hr.
  destruct (authorize _ (a, s)) as [[f|req] [a1 s1]] eqn:Ea; [done|]. unfold world, self in Hr. cbn [fst snd] in Hr.
  pose proof (framed_authorize _ _ _ _ _ _ Ea) as HR. destruct (authorize_request _ _ _ _ Ea) as (Hm & Ht & _).
  destruct (http_do req s1) as [ans s2] eqn:Ed. cbn [fst snd] in Hr. destruct ans as [e|status h0 cookies data0]; [done|].
  assert (HR2 : R s s2) by (apply (PreOrder_Transitive (PreOrder := fr_order) s s1 s2); [done|by eapply fr_do]).
  destruct (_ && refreshable a1 && negb auth).
  - unfold update in Hr. cbn [fst snd] in Hr. destruct (IH _ _ _ _ _ _ _ _ Hr) as (sent & s3 & st & ck & R3 & Hrest).
    exists sent, s3, st, ck. split; [|done]. by apply (PreOrder_Transitive (PreOrder := fr_order) s s2 s3).
  - rewrite andb_false_r in Hr. cbn [andb] in Hr. destruct (300 <=? status)%Z eqn:Es; [done|]. injection Hr as <- <- _ <-. apply Z.leb_gt in Es.
    by exists req, s1, status, cookies.
Qed.
End reads.

(** ** Polls *)

Section polls.
Context `{A : AuthText} `{T : RestText} `{V : SapURL} `{P : SapText} {W : Type} `{H : Http W} `{K : !TokenStore (S := W)}.
Context {R : Session W -> Session W -> Prop} `{F : !Framed (S := Session W) R} (conn : SapConn) (e : SapEvent) (name : string) (after limit : Z).

(** The entities changed after the position, in the order of their changes, as a service
    lists them in as many pages as a poll reads; a change puts an entity at the end, and none goes away. *)
Record changes (items : Session W -> list json) : Prop := {
  ch_grows s s' : R s s' -> exists new, items s' = items s ++ new;
  ch_order s : StronglySorted (fun x y => forall a b, toEvent name e x = Ok a -> toEvent name e y = Ok b -> (sev_Position a <= sev_Position b)%Z) (items s);
  ch_page s req status h cookies data s' k recs : k < cn_MaxPages conn ->
    rq_method req = "GET" -> rq_target req = sap_url conn (se_Service e) (se_EntitySet e) (<["$skip" := itoa (Z.of_nat k * limit)]> (poll_query e after limit)) ->
    http_do req s = (Answer status h cookies data, s') -> (status < 300)%Z -> collection data = Ok recs ->
    recs = firstn (Z.to_nat limit) (skipn (k * Z.to_nat limit) (items s))
}.

Lemma to_events_forall recs evs : to_events name e recs = Ok evs -> Forall2 (fun r ev => toEvent name e r = Ok ev) recs evs.
Proof using.
  revert evs. induction recs as [|r recs IH]; intros evs Hr; cbn in Hr; [injection Hr as <-; constructor|].
  destruct (toEvent name e r) as [ev|] eqn:E; [cbn in Hr|done]. destruct (to_events name e recs) as [evs1|]; [|done]. injection Hr as <-. constructor; auto.
Qed.

Lemma before_group_leaves events : before_group events <> [] -> before_group events = leave_group events.
Proof using. unfold before_group, leave_group. destruct (rev events); [done|]. by destruct (drop_while _ _); [done|]. Qed.

Lemma sorted_events items evs : StronglySorted (fun x y => forall a b, toEvent name e x = Ok a -> toEvent name e y = Ok b -> (sev_Position a <= sev_Position b)%Z) items ->
  Forall2 (fun r ev => toEvent name e r = Ok ev) items evs -> StronglySorted (fun x y => (sev_Position x <= sev_Position y)%Z) evs.
Proof using.
  intros Hs He. induction He as [|r ev items evs Hr He IH]; [constructor|]. inversion Hs as [|?? Hs' Hf]; subst. constructor; [by apply IH|].
  rewrite Forall_forall in Hf. apply Forall_forall. intros y Hy. apply list_elem_of_lookup in Hy as [i Hy].
  destruct (Forall2_lookup_r _ _ _ _ _ He Hy) as (r' & Hr' & Hy'). apply (Hf r'); [by eapply list_elem_of_lookup_2|done|done].
Qed.

(** A batch that ends before the group of its last position. *)
Lemma group_left all read rest evs kept : StronglySorted (fun x y => forall a b, toEvent name e x = Ok a -> toEvent name e y = Ok b -> (sev_Position a <= sev_Position b)%Z) all ->
  all = read ++ rest -> Forall2 (fun r ev => toEvent name e r = Ok ev) read evs -> kept = before_group evs -> kept <> [] ->
  forall item ev, item ∈ all -> toEvent name e item = Ok ev -> resumed kept ev.
Proof using.
  intros Hs -> He -> Hk item ev Hi Hev. pose proof (before_group_leaves _ Hk) as Hb. rewrite Hb.
  pose proof (sorted_events _ _ (StronglySorted_app_1_l _ _ _ Hs) He) as Hes.
  destruct (leave_group_split evs Hes) as [[Hl (p & Hp)]|(group & p & E & _ & Hg & Hlt & x0 & Hx0)].
  { exfalso. apply Hk. unfold before_group. destruct (rev evs) as [|l r] eqn:Er; [done|].
    assert (Hall : forall x, x ∈ l :: r -> sev_Position x = p) by (intros x Hx; apply Hp; rewrite <- Er, list_elem_of_In, <- in_rev, <- list_elem_of_In in Hx; done).
    clear -Hall. rewrite (Hall l ltac:(left)). induction (l :: r) as [|x k IH]; [done|]. cbn. rewrite (Hall x ltac:(left)), Z.eqb_refl. apply IH. intros y Hy. apply Hall. by right. }
  assert (Hcase : ev ∈ leave_group evs \/ (p <= sev_Position ev)%Z).
  { apply elem_of_app in Hi as [Hi|Hi].
    - apply list_elem_of_lookup in Hi as [i Hi]. destruct (Forall2_lookup_l _ _ _ _ _ He Hi) as (ev' & Hl & Ht). assert (ev' = ev) as -> by congruence.
      apply list_elem_of_lookup_2 in Hl. rewrite E in Hl. apply elem_of_app in Hl as [Hl|Hl]; [by left|]. right. by rewrite (Hg ev Hl).
    - right. assert (Hx : x0 ∈ evs) by (rewrite E, elem_of_app; by right). apply list_elem_of_lookup in Hx as [i Hx].
      destruct (Forall2_lookup_r _ _ _ _ _ He Hx) as (r & Hr & Ht). rewrite <- (Hg x0 Hx0).
      by apply (StronglySorted_app_1_elem_of _ _ _ r item Hs (list_elem_of_lookup_2 _ _ _ Hr) Hi x0 ev). }
  destruct Hcase as [?|?]; [by left|]. right. split; [by rewrite <- Hb|]. intros x Hx. specialize (Hlt x Hx). lia.
Qed.

Lemma event_of_read read evs item ev : Forall2 (fun r ev => toEvent name e r = Ok ev) read evs -> item ∈ read -> toEvent name e item = Ok ev -> ev ∈ evs.
Proof using.
  intros He Hi Hev. apply list_elem_of_lookup in Hi as [i Hi]. destruct (Forall2_lookup_l _ _ _ _ _ He Hi) as (ev' & Hl & Ht).
  assert (ev' = ev) as -> by congruence. by eapply list_elem_of_lookup_2.
Qed.

(** A page, as it continues what was read. *)
Lemma page_continues items (C : changes items) k q a s h data a' s' recs : k < cn_MaxPages conn ->
  q = <["$skip" := itoa (Z.of_nat k * limit)]> (poll_query e after limit) ->
  do_sap conn "GET" (sap_url conn (se_Service e) (se_EntitySet e) q) None ∅ (a, s) = (inr (h, data), (a', s')) -> collection data = Ok recs ->
  exists m, R s m /\ R m s' /\ recs = firstn (Z.to_nat limit) (skipn (k * Z.to_nat limit) (items m)).
Proof using F.
  intros Hk -> Hd Hc. destruct (attempts_get conn 3 _ _ _ _ _ _ _ _ _ Hd) as (sent & m & status & ck & HR & Hdo & Hst & Hm & Ht).
  exists m. split; [done|]. split; [by eapply fr_do|]. by eapply (ch_page _ C).
Qed.

Lemma pages_read items (C : changes items) pages : (0 < limit)%Z -> forall k events a s evs a' s', k + pages = cn_MaxPages conn ->
  sap_pages conn e name (poll_query e after limit) limit pages (Z.of_nat k) events (a, s) = (inr evs, (a', s')) ->
  (exists read rest, items s = read ++ rest /\ List.length read = k * Z.to_nat limit /\ Forall2 (fun r ev => toEvent name e r = Ok ev) read events) ->
  forall item ev, item ∈ items s -> toEvent name e item = Ok ev -> resumed evs ev.
Proof using F.
  intros Hl. induction pages as [|pages IH]; intros k events a s evs a' s' Hpages Hr (read & rest & Es & Hn & He) item ev Hi Hev; [done|].
  cbn [sap_pages] in Hr. unfold then_, mbind, U_bind in Hr.
  destruct (do_sap conn "GET" _ None ∅ (a, s)) as [[f|[h data]] [a1 s1]] eqn:Ed; [done|]. unfold lift, answer_, mret, U_ret in Hr.
  destruct (collection data) as [recs|] eqn:Ec; [|done]. destruct (to_events name e recs) as [new|] eqn:En; [|done].
  destruct (page_continues items C k _ _ _ _ _ _ _ _ ltac:(lia) eq_refl Ed Ec) as (m & R1 & R2 & Hrecs).
  destruct (ch_grows _ C s m R1) as (new1 & Em). destruct (ch_grows _ C m s1 R2) as (new2 & E1). rewrite Es, <- app_assoc in Em.
  rewrite Em, <- Hn, drop_app_length in Hrecs. set (tail := rest ++ new1) in *.
  pose proof (Forall2_app He (to_events_forall _ _ En)) as He'.
  assert (Hm : items m = (read ++ recs) ++ skipn (Z.to_nat limit) tail) by (by rewrite Em, <- app_assoc, Hrecs, take_drop).
  assert (Him : item ∈ items m) by (rewrite Em; unfold tail; rewrite app_assoc, elem_of_app; left; by rewrite <- Es).
  destruct (Z.of_nat (List.length recs) <? limit)%Z eqn:Eshort.
  - injection Hr as <- _ _. left. apply (event_of_read (read ++ recs) _ item); [done| |done]. rewrite Hm in Him.
    apply Z.ltb_lt in Eshort. assert (Hlen : List.length tail < Z.to_nat limit) by (rewrite Hrecs, length_take in Eshort; lia).
    rewrite (drop_ge tail), app_nil_r in Him by lia. done.
  - apply Z.ltb_ge in Eshort. assert (Hrl : List.length recs = Z.to_nat limit) by (rewrite Hrecs, length_take in *; lia).
    pose proof (ch_order _ C m) as Hs. destruct (before_group (events ++ new)) as [|x kept] eqn:Eb.
    + replace (Z.of_nat k + 1)%Z with (Z.of_nat (Datatypes.S k)) in Hr by lia.
      assert (Hnext : Datatypes.S k + pages = cn_MaxPages conn) by lia. eapply (IH _ _ _ _ _ _ _ Hnext Hr); [| |exact Hev].
      * exists (read ++ recs), (skipn (Z.to_nat limit) tail ++ new2). split; [by rewrite E1, Hm, <- !app_assoc|]. split; [rewrite length_app; lia|done].
      * rewrite E1, elem_of_app. by left.
    + injection Hr as <- _ _. by apply (group_left (items m) (read ++ recs) (skipn (Z.to_nat limit) tail) (events ++ new) (x :: kept) Hs Hm He' (eq_sym Eb) ltac:(done) item).
Qed.
End polls.


(** ** A service whose orders change *)

Module Changed.
(** Three orders of one second, and one that changes while the first page is read. *)
Definition order (id ms : string) : json := JObj [("SalesOrder", JStr id); ("LastChangeDateTime", JStr ("/Date(" +++ ms +++ "+0000)/"))].
Definition orders (t : nat) : list (string * string) :=
  [("1", "1000"); ("2", "1000"); ("3", "1000")] ++ match t with O => [] | _ => [("4", "2000")] end.
Definition listed (s : Session nat) : list json := map (fun o => order (fst o) (snd o)) (orders (ss_world s)).

#[local] Instance sap_json : RestText := {| rt_decode _ := None; rt_update _ := None; rt_marshal _ := "{}"; rt_format _ := "0"; rt_float _ := 0%float |}.
#[local] Instance sap_auth : AuthText := Orders.shop_auth.
#[local] Instance sap_hosts : SapURL := {| sp_path s := s; sp_hostname s := s; sp_loopback _ := false |}.

(** A body is the orders of a page, one letter each. *)
Definition letters (l : list (string * string)) : string := "[" +++ String.concat "" l.*1.
Fixpoint page_of (s : string) : list json :=
  match s with
  | "" => []
  | String c s => if is_digit c then order (String c "") (if Ascii.eqb c "4" then "2000" else "1000") :: page_of s else page_of s
  end.
#[local] Instance sap_text : SapText := {|
  sp_entity _ := None; sp_d s := Some s; sp_list s := Some (page_of s); sp_results _ := None; sp_error _ := None; sp_result _ := "";
  sp_prior _ := None; sp_named _ := None; sp_sprint v := scalar v; sp_is_float _ := false |}.

Definition events : SapEvent := mkSapEvent "API_SALES_ORDER_SRV" "A_SalesOrder" "SalesOrder" "LastChangeDateTime" "" [] [].
Definition config : SapConfig :=
  mkSapConfig "https://sap.example" "/odata" "" (mkAuth "basic" "" "" [] "" "" "" []) [("orders", events)] [] None [].
Definition conn : SapConn := mkSapConn config 100 2.
Definition page_url (k : nat) : string :=
  sap_url conn "API_SALES_ORDER_SRV" "A_SalesOrder" (<["$skip" := itoa (Z.of_nat k * 2)]> (poll_query events 0 2)).

#[local] Instance sap_http : Http nat := {|
  http_do req t :=
    (Answer 200 ∅ [] (letters (if String.eqb (rq_target req) (page_url 0) then firstn 2 (orders t) else firstn 2 (skipn 2 (orders t)))), S t);
  http_now t := (0%Z, t);
  http_random n t := ("", t) |}.
#[local] Instance no_tokens : TokenStore (S := nat) := {| ts_open _ t := (Ok None, t); ts_close _ _ t := (None, t) |}.

Definition later (s s' : Session nat) : Prop := ss_world s <= ss_world s'.
#[local] Instance time_passes : Framed (S := Session nat) later.
Proof. unfold later. split; [split; [intros s; done|intros ???; apply Nat.le_trans]|..]; cbn; unfold outside; cbn; intros; simplify_eq; cbn; lia. Qed.

Lemma orders_change : changes (R := later) conn events "orders" 0 2 listed.
Proof.
  split.
  - intros [c [|t]] [c' [|t']] Hle; unfold later in Hle; cbn in Hle; [by exists []|by exists [order "4" "2000"]|lia|by exists []].
  - intros [c [|t]]; repeat constructor; intros a b; vm_compute; intros [= <-] [= <-]; done.
  - intros [c t] req status h ck data s' k recs Hk Hm Ht Hd Hst Hc. cbn in Hk. cbn [http_do session_http outside sap_http] in Hd. cbn [ss_world fst] in Hd.
    rewrite Ht in Hd. fold (page_url k) in Hd. destruct k as [|[|k]]; [| |lia].
    + rewrite String.eqb_refl in Hd. injection Hd as <- <- <- <- <-. destruct t; vm_compute in Hc; injection Hc as <-; reflexivity.
    + replace (String.eqb (page_url 1) (page_url 0)) with false in Hd by (vm_compute; reflexivity). injection Hd as <- <- <- <- <-. destruct t; vm_compute in Hc; injection Hc as <-; reflexivity.
Qed.

Definition user : authenticator := plain (sc_Auth config) "u:p" "" "" "" no_oauth1.
Definition poll := Poll_sap conn "orders" 0 2 (user, mkSession "" 0).
Definition returned : list Event := match fst poll with inr evs => evs | inl _ => [] end.

Lemma orders_change_at_limit : changes (R := later) conn events "orders" 0 (page_limit conn 2) listed.
Proof. exact orders_change. Qed.

End Changed.

(** ** Attempts *)

(** [do] ends: two retries are all there are, so three attempts are enough. *)
Section retries.
Context `{A : AuthText} `{T : RestText} `{V : SapURL} `{P : SapText} {W : Type} `{H : Http W} `{K : !TokenStore (S := W)} (conn : SapConn).

(** The retries that are left. *)
Definition left_over (auth csrf : bool) : nat := (if auth then 0 else 1) + (if csrf then 0 else 1).

Lemma attempts_enough method target body header more : forall fuel auth csrf x, left_over auth csrf <= fuel ->
  attempts (W := W) conn (Datatypes.S fuel + more) method target body header auth csrf x = attempts conn (Datatypes.S fuel) method target body header auth csrf x.
Proof using.
  induction fuel as [|fuel IH]; intros auth csrf x Hf.
  - assert (auth = true /\ csrf = true) as [-> ->] by (destruct auth, csrf; cbn in Hf; lia || done).
    cbn [attempts Nat.add]. unfold then_, mbind, U_bind. repeat (case_match; try reflexivity); rewrite ?andb_false_r in *; done.
  - change (Datatypes.S (Datatypes.S fuel) + more) with (Datatypes.S (Datatypes.S fuel + more)).
    remember (Datatypes.S fuel + more) as big eqn:Ebig. cbn [attempts]. unfold then_, mbind, U_bind.
    match goal with |- (let (a, s) := ?m x in _) = _ => destruct (m x) as [[f|r1] [a1 s1]]; [done|] end.
    destruct (authorize r1 (a1, s1)) as [[f|r2] [a2 s2]]; [done|]. destruct (world (http_do r2) (a2, s2)) as [ans [a3 s3]].
    unfold self. cbn [fst]. destruct ans as [e|status h ck data]; [done|].
    destruct (_ && refreshable a3 && negb auth) eqn:E1.
    + apply andb_prop in E1 as [_ E1]. destruct auth; [done|]. subst big. destruct (update _ _) as [? ?]. apply IH. cbn in *. lia.
    + destruct (_ && negb csrf) eqn:E2; [|done]. apply andb_prop in E2 as [_ E2]. destruct csrf; [done|]. subst big. destruct (set_csrf _ _) as [? ?]. apply IH. unfold left_over in *. destruct auth; lia.
Qed.

Lemma do_needs_three_attempts method target body header more x :
  attempts (W := W) conn (3 + more) method target body header false false x = do_sap conn method target body header x.
Proof using. by apply (attempts_enough method target body header more 2). Qed.
End retries.

(** A service that refuses the old token: a read gets a new one, but a write that has no
    CSRF token ends when that is refused, and the old token stays. *)
Module Rejected.
#[local] Instance rejected_auth : AuthText := {|
  at_sha256 s := s; at_hmac k m := k +++ m; at_url _ := Some (mkHttpURL "https" "sap.example" "" []); at_client _ := Some ("id", "secret", ""); at_oauth1 _ := None;
  at_login _ := None; at_token _ := Some ("new", "", 3600%Z); at_timeout _ := 0%float; at_state _ := None; at_marshal_state _ := "" |}.
#[local] Instance rejected_json : RestText := Changed.sap_json.
#[local] Instance rejected_text : SapText := Changed.sap_text.
#[local] Instance rejected_hosts : SapURL := Changed.sap_hosts.
#[local] Instance service : Http nat := {|
  http_do req t :=
    (if String.eqb (rq_target req) "https://auth.example/token" then Answer 200 ∅ [] "token"
     else if String.eqb (get_header (rq_header req) "Authorization") "Bearer new" then Answer 200 (set_header "X-CSRF-Token" "c" ∅) [] "{}"
     else Answer 401 ∅ [] "", S t);
  http_now t := (0%Z, t);
  http_random n t := ("", t) |}.
#[local] Instance service_tokens : TokenStore (S := nat) := {| ts_open _ t := (Ok None, t); ts_close _ _ t := (None, t) |}.

Definition oauth : Auth := mkAuth "oauth2" "" "https://auth.example/token" [] "" "" "" [].
Definition conn : SapConn := mkSapConn (mkSapConfig "https://sap.example" "/odata" "" oauth [] [] None []) 100 2.
Definition stale : authenticator := set_token "old" 1 (plain oauth "" "id" "secret" "" no_oauth1).
Definition asked (method : string) := do_sap (W := nat) conn method "https://sap.example/odata/S/Set" (Some (JObj [])) ∅ (stale, mkSession "" O).

Lemma rejected_token_fails_writes :
  (exists r a s, asked "GET" = (inr r, (a, s)) /\ ac_token a = "new") /\
  exists e s, asked "POST" = (inl (AnsweredWith 401 e), (stale, s)) /\ ss_world s = 1.
Proof.
  split.
  - exists (set_header "X-CSRF-Token" "c" ∅, "{}"). eexists _, _. split; [vm_compute; reflexivity|reflexivity].
  - eexists _, _. split; [vm_compute; reflexivity|reflexivity].
Qed.
End Rejected.

(** ** Filters *)

Lemma scan_app f rest : forall d q, scan_filter d q (f +++ rest) = match scan_filter d q f with Some (d', q') => scan_filter d' q' rest | None => None end.
Proof.
  induction f as [|c f IH]; intros d q; [done|]. cbn. destruct (Ascii.eqb c "'"); [apply IH|]. destruct q; [apply IH|].
  destruct (Ascii.eqb c "("); [apply IH|]. destruct (Ascii.eqb c ")"); [destruct d; [done|apply IH]|apply IH].
Qed.

Lemma scan_deeper k f : forall d q n q', scan_filter d q f = Some (n, q') -> scan_filter (k + d) q f = Some (k + n, q').
Proof.
  induction f as [|c f IH]; intros d q n q' Hs; cbn in *; [by injection Hs as <- <-|]. destruct (Ascii.eqb c "'"); [by apply IH|]. destruct q; [by apply IH|].
  destruct (Ascii.eqb c "("); [rewrite <- Nat.add_succ_r; by apply IH|]. destruct (Ascii.eqb c ")"); [|by apply IH].
  destruct d; [done|]. rewrite Nat.add_succ_r. by apply IH.
Qed.

(** A string literal of OData: what it holds, and what follows. *)
Fixpoint literal_rest (s : string) : option (string * string) :=
  match s with
  | String c ((String d s') as s) =>
      if Ascii.eqb c "'" then
        if Ascii.eqb d "'" then match literal_rest s' with Some (t, r) => Some (String c t, r) | None => None end else Some ("", s)
      else match literal_rest s with Some (t, r) => Some (String c t, r) | None => None end
  | String c "" => if Ascii.eqb c "'" then Some ("", "") else None
  | "" => None
  end.
Definition read_literal (s : string) : option (string * string) :=
  match s with String c s => if Ascii.eqb c "'" then literal_rest s else None | "" => None end.

Lemma literal_rest_quotes s rest : has_prefix "'" rest = false -> literal_rest (double_quotes s +++ String "'" rest) = Some (s, rest).
Proof.
  intros Hr. induction s as [|c s IH].
  - destruct rest as [|d rest]; [done|]. unfold has_prefix in Hr. cbn in Hr. cbn. destruct (Ascii.eqb_spec d "'") as [->|]; [done|done].
  - cbn [double_quotes]. destruct (Ascii.eqb_spec c "'") as [->|Hc].
    + change (literal_rest (String "'" (String "'" (double_quotes s +++ String "'" rest))) = Some (String "'" s, rest)). cbn [literal_rest]. cbn. by rewrite IH.
    + change (literal_rest (String c (double_quotes s +++ String "'" rest)) = Some (String c s, rest)).
      assert (Hne : double_quotes s +++ String "'" rest <> "") by (destruct s as [|b s]; [done|]; cbn; by destruct (Ascii.eqb b "'")).
      cbn [literal_rest]. destruct (double_quotes s +++ String "'" rest) as [|d r] eqn:E; [done|]. apply Ascii.eqb_neq in Hc. by rewrite Hc, IH.
Qed.

Lemma first_error_ok {X} (check : X -> option goerr) l : first_error check l = None -> forall x, x ∈ l -> check x = None.
Proof.
  induction l as [|y l IH]; intros Hl x Hx; [by apply elem_of_nil in Hx|]. cbn in Hl. destruct (check y) eqn:E; [done|].
  apply elem_of_cons in Hx as [->|Hx]; [done|]. by apply IH.
Qed.

Lemma find_named_in {X} name (l : list (string * X)) x : find_named name l = Some x -> (name, x) ∈ l.
Proof.
  unfold find_named. induction l as [|[k y] l IH]; cbn; [done|]. destruct (String.eqb_spec k name) as [->|]; [intros [= ->]; left|]. intros Hf. right. by apply IH.
Qed.

(** The filters of a connection that was built are expressions of their own. *)
Lemma built_filters `{A : AuthText} `{V : SapURL} c secret conn a name e : New_sap c secret = Ok (conn, a) ->
  find_named name (sc_Events (cn_cfg conn)) = Some e -> oneExpression (se_Filter e) = true.
Proof.
  unfold New_sap. destruct (validate_sap (defaulted c)) eqn:Hv; [done|]. destruct (NewAuthenticator _ _) as [a0|]; [|done]. intros [= <- <-] Hf. cbn [cn_cfg] in Hf.
  apply find_named_in in Hf. unfold validate_sap in Hv. destruct (http_url _) as [u|]; [|done]. unfold first_of in Hv.
  pose proof (first_error_ok _ _ Hv (first_error check_sap_event (sc_Events (defaulted c))) ltac:(set_solver)) as He. cbn [id] in He.
  pose proof (first_error_ok _ _ He _ Hf) as Hev. cbn [check_sap_event] in Hev. unfold first_of in Hev.
  match type of Hev with first_error _ [_; _; _; ?x] = _ => pose proof (first_error_ok _ _ Hev x ltac:(set_solver)) as Hfil end. cbn [id] in Hfil.
  unfold unless in Hfil. destruct (negb _ && oneExpression (se_Filter e)) eqn:Eb; [|done]. by apply andb_prop in Eb as [_ ?].
Qed.

(** What is put into a filter stays apart from what it is joined with. In a poll of a
    connection that was built, the configured filter opens no parenthesis it does not close
    and closes none it did not open: the group opened before it is closed behind it and
    nowhere else, outside literals, so that the condition on the position applies to the
    whole. And a key that a lookup compares with is read back as one literal, whatever
    quotes it holds. *)
Theorem sap_filters_stay_apart `{A : AuthText} `{V : SapURL} c secret conn a name e after :
  New_sap c secret = Ok (conn, a) -> find_named name (sc_Events (cn_cfg conn)) = Some e -> se_Filter e <> "" ->
  poll_filter e after = "(" +++ se_Filter e +++ ") and " +++ se_Changed e +++ " gt datetimeoffset'" +++ format_rfc3339 after +++ "'" /\
  scan_filter 0 false ("(" +++ se_Filter e +++ ")") = Some (0, false) /\
  (forall p r, se_Filter e = p +++ r -> exists n q, scan_filter 0 false ("(" +++ p) = Some (S n, q)) /\
  forall key rest, has_prefix "'" rest = false -> read_literal (literal key +++ rest) = Some (key, rest).
Proof.
  intros Hn Hf He. pose proof (built_filters _ _ _ _ _ _ Hn Hf) as Hone. unfold oneExpression in Hone.
  destruct (scan_filter 0 false (se_Filter e)) as [[[|] []]|] eqn:Es; try done.
  split; [|split; [|split]].
  - unfold poll_filter. apply String.eqb_neq in He. by rewrite He.
  - pose proof (scan_deeper 1 _ _ _ _ _ Es) as Hd. cbn [Nat.add] in Hd. cbn. rewrite scan_app, Hd. reflexivity.
  - intros p r Ep. rewrite Ep, scan_app in Es. destruct (scan_filter 0 false p) as [[n q]|] eqn:E; [|done].
    exists n, q. exact (scan_deeper 1 _ _ _ _ _ E).
  - intros key rest Hr. unfold literal. cbn. rewrite str_app_assoc. by apply literal_rest_quotes.
Qed.

Lemma sap_filters_stay_apart_witness :
  let e := mkSapEvent "API_SALES_ORDER_SRV" "A_SalesOrder" "SalesOrder" "LastChangeDateTime" "(A eq ')' or B eq 1) and C eq 'x'" [] [] in
  poll_filter e 0 = "((A eq ')' or B eq 1) and C eq 'x') and LastChangeDateTime gt datetimeoffset'1970-01-01T00:00:00.000Z'" /\
  read_literal (literal "O'Hara' or '1' eq '1") = Some ("O'Hara' or '1' eq '1", "").
Proof.
  set (e := mkSapEvent "API_SALES_ORDER_SRV" "A_SalesOrder" "SalesOrder" "LastChangeDateTime" "(A eq ')' or B eq 1) and C eq 'x'" [] []).
  set (auth := {| at_sha256 s := s; at_hmac k m := k +++ m; at_url _ := Some (mkHttpURL "https" "sap.example" "" []); at_client _ := None; at_oauth1 _ := None;
    at_login _ := None; at_token _ := None; at_timeout _ := 0%float; at_state _ := None; at_marshal_state _ := "" |} : AuthText).
  set (c := mkSapConfig "https://sap.example" "" "100" (mkAuth "" "" "" [] "" "" "" []) [("orders", e)] [] None []).
  destruct (sap_filters_stay_apart (A := auth) (V := Changed.sap_hosts) c "user:password"
    (mkSapConn (defaulted c) 100 20) (plain (sc_Auth (defaulted c)) "user:password" "" "" "" no_oauth1) "orders" e 0) as (E1 & _ & _ & E2);
    [vm_compute; reflexivity|vm_compute; reflexivity|discriminate|].
  split; [exact E1|]. rewrite <- (str_app_nil_r (literal "O'Hara' or '1' eq '1")). apply E2. reflexivity.
Defined.

(** ** Messages of Event Mesh *)

Lemma str_app_inv_l (s t u : string) : s +++ t = s +++ u -> t = u.
Proof. induction s as [|c s IH]; [done|]. intros [= Hs]. auto. Qed.

(** What is observed of an Event Mesh instance: the event that each message of the queue
    holds, and the messages acknowledged, only by requests that do so. *)
Class Broker {Q : Type} `{A : AuthText} `{M : MeshText} `{H : Http Q} (mesh : meshClient) (queue : string) (held : string -> result cloudEvent) (acked : Q -> list string) : Prop := {
  bk_do req q ans q' id : http_do req q = (ans, q') -> id ∈ acked q' -> id ∈ acked q \/ rq_target req = mh_base mesh +++ ack_path queue id;
  bk_now q t q' : http_now q = (t, q') -> acked q' = acked q;
  bk_message req q status h cookies data q' : http_do req q = (Answer status h cookies data, q') -> rq_target req = mh_base mesh +++ consume_path queue ->
    (status < 300)%Z -> status <> 204%Z -> parseCloudEvent (mkMessage (get_header h "X-Message-Id") h data) = held (get_header h "X-Message-Id")
}.

Section calls.
Context `{A : AuthText} `{M : MeshText} {Q : Type} `{H : Http Q} `{K : !TokenStore (S := Q)} (mesh : meshClient) (queue : string).
Context (held : string -> result cloudEvent) (acked : Q -> list string) `{B : !Broker mesh queue held acked}.

(** The client's credentials: tokens from elsewhere than the queue's acknowledgements. *)
Definition own_tokens (a : authenticator) : Prop :=
  au_Type (ac_cfg a) = "oauth2" /\ forall id, au_TokenURL (ac_cfg a) <> mh_base mesh +++ ack_path queue id.

Lemma current_acks (a : authenticator) q r a' q' : own_tokens a -> current_token (a, q) = (r, (a', q')) -> own_tokens a' /\ forall id, id ∈ acked q' -> id ∈ acked q.
Proof using B.
  intros Ho. unfold current_token, token_request, mbind, U_bind, self, world, update, mret, U_ret. cbn [fst snd].
  destruct (http_now q) as [now q1] eqn:E1. pose proof (bk_now _ _ _ E1) as H1. cbn [fst snd].
  destruct (live a now); [intros [= _ <- <-]; by rewrite H1|].
  match goal with |- context [http_do ?req ?w] => change w with q1; destruct (http_do req q1) as [ans q2] eqn:E2 end. cbn [fst snd].
  assert (H2 : forall id, id ∈ acked q2 -> id ∈ acked q).
  { intros id Hi. destruct (bk_do _ _ _ _ id E2 Hi) as [?|Ht]; [by rewrite <- H1|]. cbn [rq_target] in Ht. by apply Ho in Ht. }
  destruct (answered _ _ _) as [f|body]; [by intros [= _ <- <-]|]. destruct (at_token body) as [[[access ?] n]|]; [|by intros [= _ <- <-]].
  destruct (String.eqb access ""); [by intros [= _ <- <-]|]. cbn [fst snd]. destruct (http_now q2) as [t q3] eqn:E3. pose proof (bk_now _ _ _ E3) as H3. cbn [fst snd].
  intros [= _ <- <-]. split; [done|]. by rewrite H3.
Qed.

Lemma apply_acks req (a : authenticator) q r a' q' : own_tokens a -> apply req (a, q) = (r, (a', q')) -> own_tokens a' /\ forall id, id ∈ acked q' -> id ∈ acked q.
Proof using B.
  intros Ho. unfold apply, mbind, U_bind, self. cbn [fst snd]. rewrite (proj1 Ho). cbn [String.eqb Ascii.eqb Bool.eqb].
  unfold with_token, mbind, U_bind, mret, U_ret. destruct (current_token (a, q)) as [t [a1 q1]] eqn:E. intros [= _ <- <-]. by eapply current_acks.
Qed.

(** A request to a path, made again or not. *)
Lemma mesh_attempt_acks req (a : authenticator) q r a' q' : own_tokens a -> mesh_attempt req (a, q) = (r, (a', q')) ->
  own_tokens a' /\ (forall id, id ∈ acked q' -> id ∈ acked q \/ rq_target req = mh_base mesh +++ ack_path queue id) /\
  forall sent status h data, r = inr (sent, (status, h, data)) ->
    exists q1 ck, http_do sent q1 = (Answer status h ck data, q') /\ rq_target sent = rq_target req.
Proof using B.
  intros Ho. unfold mesh_attempt, mbind, U_bind. destruct (apply req (a, q)) as [[f|sent] [a1 q1]] eqn:Ea.
  - intros [= <- <- <-]. destruct (apply_acks _ _ _ _ _ _ Ho Ea). split_and!; [done|auto|done].
  - destruct (apply_acks _ _ _ _ _ _ Ho Ea) as [Ho1 H1]. destruct (apply_request _ _ _ _ Ea) as (_ & Ht & _). unfold world. cbn [fst snd].
    destruct (http_do sent q1) as [ans q2] eqn:Ed.
    assert (H2 : forall id, id ∈ acked q2 -> id ∈ acked q \/ rq_target req = mh_base mesh +++ ack_path queue id).
    { intros id Hi. destruct (bk_do _ _ _ _ id Ed Hi) as [?|?]; [left; auto|right; congruence]. }
    destruct ans as [e|status h ck data]; unfold refuse, answer_, mret, U_ret; intros [= <- <- <-]; (split; [done|]); (split; [done|]); intros ????; [done|].
    intros [= <- <- <- <-]. eauto.
Qed.

Lemma mesh_call_acks path header (a : authenticator) q r a' q' : own_tokens a -> mesh_call mesh path header (a, q) = (r, (a', q')) ->
  own_tokens a' /\ (forall id, id ∈ acked q' -> id ∈ acked q \/ path = ack_path queue id) /\
  forall status h data, r = inr (status, h, data) -> (status < 300)%Z /\
    exists sent q1 ck, http_do sent q1 = (Answer status h ck data, q') /\ rq_target sent = mh_base mesh +++ path.
Proof using B.
  intros Ho Hr. unfold mesh_call, then_, mbind, U_bind in Hr.
  destruct (mesh_attempt _ (a, q)) as [r1 [a1 q1]] eqn:E1. destruct (mesh_attempt_acks _ _ _ _ _ _ Ho E1) as (Ho1 & H1 & Hs1). cbn [rq_target] in *.
  assert (Hp : forall id, mh_base mesh +++ path = mh_base mesh +++ ack_path queue id -> path = ack_path queue id) by (intros id; apply str_app_inv_l).
  destruct r1 as [f|[sent [[status h] data]]].
  { injection Hr as <- <- <-. split; [done|]. split; [|done]. intros id Hi. destruct (H1 id Hi); auto. }
  cbn [fst] in Hr. destruct (status =? StatusUnauthorized)%Z.
  - unfold update in Hr. cbn [fst snd] in Hr. destruct (mesh_attempt _ (invalidate _ a1, q1)) as [r2 [a2 q2]] eqn:E2.
    assert (Ho1' : own_tokens (invalidate (Some sent) a1)) by (unfold invalidate; by repeat case_match).
    destruct (mesh_attempt_acks _ _ _ _ _ _ Ho1' E2) as (Ho2 & H2 & Hs2). cbn [rq_target] in *.
    assert (Hall : forall id, id ∈ acked q2 -> id ∈ acked q \/ path = ack_path queue id).
    { intros id Hi. destruct (H2 id Hi) as [Hi1|]; [|auto]. destruct (H1 id Hi1); auto. }
    destruct r2 as [f|[sent2 [[st2 h2] data2]]]; unfold answer_, mret, U_ret in Hr.
    + injection Hr as <- <- <-. by split_and!.
    + destruct (300 <=? st2)%Z eqn:Es; injection Hr as <- <- <-; (split; [done|]); (split; [done|]); [done|].
      intros ??? [= <- <- <-]. split; [apply Z.leb_gt in Es; lia|]. destruct (Hs2 _ _ _ _ eq_refl) as (q3 & ck & ? & ?). eauto.
  - unfold answer_, mret, U_ret in Hr.
    assert (Hall : forall id, id ∈ acked q1 -> id ∈ acked q \/ path = ack_path queue id) by (intros id Hi; destruct (H1 id Hi); auto).
    destruct (300 <=? status)%Z eqn:Es; injection Hr as <- <- <-; (split; [done|]); (split; [done|]); [done|].
    intros ??? [= <- <- <-]. split; [apply Z.leb_gt in Es; lia|]. destruct (Hs1 _ _ _ _ eq_refl) as (q3 & ck & ? & ?). eauto.
Qed.

Lemma str_app_inv_r (s t u : string) : s +++ u = t +++ u -> s = t.
Proof using.
  intros He. assert (Hl : String.length s = String.length t) by (apply (f_equal String.length) in He; rewrite !str_length_app in He; lia).
  pose proof (str_cut_app s u) as H1. rewrite He, Hl, str_cut_app in H1. by injection H1.
Qed.

Lemma ack_path_of id id' : ack_path queue id = ack_path queue id' -> id = id'.
Proof using.
  unfold ack_path. intros He. apply str_app_inv_l, str_app_inv_l in He. apply str_app_inv_r in He.
  apply (f_equal path_unescape) in He. rewrite !path_unescape_escape in He. by injection He.
Qed.

Lemma consume_is_no_ack id : consume_path queue <> ack_path queue id.
Proof using.
  unfold consume_path, ack_path. intros He. apply str_app_inv_l in He.
  change (String.append "/messages/" "consumption" = "/messages/" +++ path_escape id +++ "/acknowledgement") in He. apply str_app_inv_l in He.
  apply (f_equal String.length) in He. rewrite str_length_app in He. cbn in He. lia.
Qed.

Lemma ack_acks id (a : authenticator) q r a' q' : own_tokens a -> ack mesh queue id (a, q) = (r, (a', q')) ->
  own_tokens a' /\ forall id', id' ∈ acked q' -> id' ∈ acked q \/ id' = id.
Proof using B.
  intros Ho. unfold ack, then_, mbind, U_bind. destruct (mesh_call _ _ _ _) as [r1 [a1 q1]] eqn:E. destruct (mesh_call_acks _ _ _ _ _ _ _ Ho E) as (Ho1 & H1 & _).
  intros Hr. assert (a' = a1 /\ q' = q1) as [-> ->] by (destruct r1; by injection Hr). split; [done|].
  intros id' Hi. destruct (H1 id' Hi) as [?|He]; [by left|right]. by apply ack_path_of in He.
Qed.

Lemma consume_acks (a : authenticator) q r a' q' : own_tokens a -> consume mesh queue (a, q) = (r, (a', q')) ->
  own_tokens a' /\ (forall id, id ∈ acked q' -> id ∈ acked q) /\ forall m, r = inr (Some m) -> parseCloudEvent m = held (ms_id m).
Proof using B.
  intros Ho. unfold consume, then_, mbind, U_bind. destruct (mesh_call _ _ _ _) as [r1 [a1 q1]] eqn:E. destruct (mesh_call_acks _ _ _ _ _ _ _ Ho E) as (Ho1 & H1 & Hs).
  assert (Hsub : forall id, id ∈ acked q1 -> id ∈ acked q) by (intros id Hi; destruct (H1 id Hi) as [?|He]; [done|by apply consume_is_no_ack in He]).
  destruct r1 as [f|[[status h] data]]; [intros [= <- <- <-]; by split_and!|]. destruct (Hs _ _ _ eq_refl) as (Hlt & sent & q2 & ck & Hd & Ht).
  unfold answer_, refuse, mret, U_ret. destruct (status =? 204)%Z eqn:E2; [intros [= <- <- <-]; by split_and!|].
  destruct (String.eqb _ ""); [intros [= <- <- <-]; by split_and!|]. intros [= <- <- <-]. split_and!; [done|done|]. intros m [= <-]. cbn [ms_id].
  apply (bk_message _ _ _ _ _ _ _ Hd Ht Hlt). by apply Z.eqb_neq.
Qed.
End calls.

Section streams.
Context `{A : AuthText} `{T : RestText} `{V : SapURL} `{P : SapText} `{M : MeshText}.
Context {Q W D : Type} `{HQ : Http Q} `{KQ : !TokenStore (S := Q)} `{HW : Http W} `{KW : !TokenStore (S := W)}.
Context (deliver : list Event -> D -> option goerr * D) (conn : SapConn) (mesh : meshClient) (event : string) (sub : Subscription).

(** What a subscription takes, and the event that says so. *)
Definition wanted (ce : cloudEvent) : Prop :=
  typeMatches (sb_Types sub) (ce_Type ce) = true /\ exists data, event_data ce = Ok data /\ matchesData data (sb_Match sub) = true.
Definition carries (ce : cloudEvent) (ev : Event) : Prop :=
  sev_ID ev = ce_ID ce /\ sev_Name ev = event /\
  (sb_Read sub = None -> exists l, event_data ce = Ok (JObj l) /\ sev_Payload ev = rt_marshal (JObj (set_field "cloudEvent" (event_info ce) l))).

Lemma converted_message m (x : authenticator * Session W) c y : convertMessage conn event sub m x = (inr c, y) ->
  exists ce, parseCloudEvent m = Ok ce /\ match c with Dropped => ~ wanted ce | Taken_as ev => carries ce ev | Panicked => True end.
Proof using.
  unfold convertMessage, then_, mbind, U_bind, lift, answer_, mret, U_ret. destruct (parseCloudEvent m) as [ce|] eqn:Ep; [|done]. intros Hr. exists ce. split; [done|].
  destruct (typeMatches _ _) eqn:Et; cbn [negb] in Hr; [|injection Hr as <- _; intros [? _]; congruence].
  destruct (event_data ce) as [data|] eqn:Ed; [|done].
  destruct (matchesData data _) eqn:Em; cbn [negb] in Hr; [|injection Hr as <- _; intros (_ & d & ? & ?); congruence].
  destruct (event_payload _ _ _ _ _) as [[f|p] y1] eqn:Epl; [done|]. injection Hr as <- _. destruct p; try done. repeat split.
  intros Hn. unfold event_payload in Epl. rewrite Hn in Epl. injection Epl as -> _. eauto.
Qed.

(** What takes the events: it keeps what it stored, and stored all when it fails nothing. *)
Class Sink (stored : D -> Event -> Prop) : Prop := {
  sk_keeps evs d e d' ev : deliver evs d = (e, d') -> stored d ev -> stored d' ev;
  sk_stores evs d d' ev : deliver evs d = (None, d') -> ev ∈ evs -> stored d' ev
}.

Context (held : string -> result cloudEvent) (acked : Q -> list string) `{B : !Broker mesh (sb_Queue sub) held acked} (stored : D -> Event -> Prop) `{S : !Sink stored}.

(** Nothing is acknowledged that is wanted and not stored. *)
Definition settled (ids : list string) (d : D) : Prop :=
  forall id ce, id ∈ ids -> held id = Ok ce -> wanted ce -> exists ev, stored d ev /\ carries ce ev.
Definition sound (s : Stream Q W D) : Prop :=
  own_tokens mesh (sb_Queue sub) (fst (sm_mesh s)) /\ settled (acked (snd (sm_mesh s))) (sm_sink s).

Lemma hand_over_settles evs s e s' : sound s -> hand_over deliver evs s = (e, s') ->
  sound s' /\ (e = None -> forall ev, ev ∈ evs -> stored (sm_sink s') ev).
Proof using B S.
  intros [Ho Hs] Hh. unfold hand_over in Hh. destruct (deliver evs (sm_sink s)) as [o d] eqn:Ed.
  assert (Hd : forall ids, settled ids (sm_sink s) -> settled ids d).
  { intros ids Hi id ce Hin Hc Hw. destruct (Hi id ce Hin Hc Hw) as (ev & Hev & ?). exists ev. split; [|done]. by eapply sk_keeps. }
  destruct o as [o|].
  - injection Hh as <- <-. split; [split; [done|by apply Hd]|done].
  - destruct (http_now (snd (sm_mesh s))) as [now q] eqn:En. injection Hh as <- <-. cbn. split.
    + split; [done|]. cbn. rewrite (bk_now _ _ _ En). by apply Hd.
    + intros _ ev Hi. by eapply sk_stores.
Qed.

Lemma stream_step_settles s e s' : sound s -> stream_step deliver conn mesh event sub s = (e, s') -> sound s'.
Proof using B S.
  intros [Ho Hs] Hr. unfold stream_step in Hr. destruct (sm_mesh s) as [a q] eqn:Em. cbn [fst snd] in *.
  destruct (consume mesh (sb_Queue sub) (a, q)) as [r [a1 q1]] eqn:Ec. destruct (consume_acks mesh _ held acked _ _ _ _ _ Ho Ec) as (Ho1 & H1 & Hm).
  assert (Hs1 : settled (acked q1) (sm_sink s)) by (intros id ce Hi; apply Hs; auto).
  destruct r as [f|[m|]].
  - injection Hr as <- <-. by split.
  - cbn [sm_mesh sm_data sm_sink sm_report] in Hr. destruct (convertMessage conn event sub m (sm_data s)) as [c y] eqn:Ecv.
    destruct c as [f|c]; [injection Hr as <- <-; by split|]. destruct (converted_message _ _ _ _ Ecv) as (ce & Hp & Hc). rewrite (Hm m eq_refl) in Hp.
    assert (Hack : forall t r x, sound t -> (wanted ce -> exists ev, stored (sm_sink t) ev /\ carries ce ev) -> ack mesh (sb_Queue sub) (ms_id m) (sm_mesh t) = (r, x) ->
      sound (mkStream x (sm_data t) (sm_sink t) (sm_report t))).
    { intros t r x [Hto Hts] Hwant Ha. destruct (sm_mesh t) as [at_ qt], x as [ax qx]. destruct (ack_acks mesh _ held acked _ _ _ _ _ _ Hto Ha) as [Hxo Hx]. split; [done|]. cbn.
      intros id ce' Hi Hh Hw. destruct (Hx id Hi) as [?| ->]; [by apply (Hts id)|]. assert (ce' = ce) as -> by congruence. auto. }
    destruct c as [|ev|]; [| |injection Hr as <- <-; by split].
    + cbn [sm_mesh] in Hr. destruct (ack _ _ _ _) as [ra x] eqn:Ea. injection Hr as _ <-. eapply (Hack (mkStream (a1, q1) y (sm_sink s) (sm_report s))); [by split|done|exact Ea].
    + destruct (hand_over _ _ _) as [o t] eqn:Eh. eapply hand_over_settles in Eh as [Ht Hst]; [|by split].
      destruct o as [o|]; [injection Hr as _ <-; done|]. destruct (ack _ _ _ _) as [ra x] eqn:Ea. injection Hr as _ <-. eapply Hack; [done| |exact Ea].
      intros _. exists ev. split; [|done]. apply Hst; [done|by left].
  - cbn [sm_mesh sm_data sm_sink sm_report fst snd] in Hr. destruct (http_now q1) as [now q2] eqn:En. pose proof (bk_now _ _ _ En) as H2.
    assert (Ht : sound (mkStream (a1, q2) (sm_data s) (sm_sink s) (sm_report s))) by (split; cbn; [done|by rewrite H2]).
    destruct (_ <=? _)%Z; [|injection Hr as <- <-; done]. destruct (hand_over _ _ _) as [o t] eqn:Eh. injection Hr as _ <-. by eapply hand_over_settles in Eh as [? _].
Qed.

Lemma stream_steps_settle n : forall s e s', sound s -> stream_steps deliver conn mesh event sub n s = (e, s') -> sound s'.
Proof using B S.
  induction n as [|n IH]; intros s e s' Hs Hr; cbn in Hr; [by injection Hr as <- <-|].
  destruct (stream_step _ _ _ _ _ s) as [[o|] t] eqn:Et; pose proof (stream_step_settles _ _ _ Hs Et); [by injection Hr as <- <-|eauto].
Qed.
End streams.

(** C19: A message is acknowledged once what it says is stored. After any number of rounds of
    [Stream], and however it ended, each message that is acknowledged and holds an event
    that the subscription takes, by its type and its data, has been stored as an event of
    its id, with its data when no entity is read; and so after any later [Stream] of the
    same queue. It holds for any answers of the services, and of requests made again with
    a new token. *)
Theorem messages_acknowledged_once_stored `{A : AuthText} `{T : RestText} `{V : SapURL} `{P : SapText} `{M : MeshText}
    {Q W D : Type} `{HQ : Http Q} `{KQ : !TokenStore (S := Q)} `{HW : Http W} `{KW : !TokenStore (S := W)}
    (deliver : list Event -> D -> option goerr * D) (conn : SapConn) (mesh : meshClient) (event : string) (sub : Subscription)
    (held : string -> result cloudEvent) (acked : Q -> list string) `{B : !Broker mesh (sb_Queue sub) held acked}
    (stored : D -> Event -> Prop) `{K : !Sink deliver stored} n (s s' : Stream Q W D) e :
  find_named event (sc_Subscriptions (cn_cfg conn)) = Some sub -> own_tokens mesh (sb_Queue sub) (fst (sm_mesh s)) ->
  settled event sub held stored (acked (snd (sm_mesh s))) (sm_sink s) ->
  Stream_sap deliver conn (Some mesh) event n s = (e, s') ->
  settled event sub held stored (acked (snd (sm_mesh s'))) (sm_sink s').
Proof.
  intros Hf Ho Hs Hr. unfold Stream_sap in Hr. rewrite Hf in Hr.
  eapply (stream_steps_settle deliver conn mesh event sub held acked stored n) in Hr; [apply Hr|]. by split.
Qed.

(** ** A queue of three messages, and a database that is down once *)

Module Queue.
Definition taken : Subscription := mkSubscription "orders/q" ["sales/*"] [] None "".
Definition mesh_config : EventMesh := mkEventMesh "https://mesh.example/" "https://auth.example/token" "".
Definition mesh : meshClient := mesh_of mesh_config.
Definition conn : SapConn :=
  mkSapConn (mkSapConfig "https://sap.example" "/odata" "" (mkAuth "basic" "" "" [] "" "" "" []) [] [] (Some mesh_config) [("order", taken)]) 100 2.

(** The messages by their ids; a body is an event's id and type. *)
Definition messages : list (string * string) := [("m1", "e1"); ("m2", "x2"); ("m3", "e3")].
#[local] Instance bodies : MeshText :=
  {| mt_event b := Some (mkCloudEvent "1.0" b (if has_prefix "e" b then "sales/order/changed" else "stock/changed") "/s4" "" "" "" "") |}.
#[local] Instance secrets_text : AuthText := {|
  at_sha256 s := s; at_hmac k m := k +++ m; at_url _ := Some (mkHttpURL "https" "auth.example" "" []); at_client _ := Some ("id", "secret", ""); at_oauth1 _ := None;
  at_login _ := None; at_token _ := Some ("t", "", 3600%Z); at_timeout _ := 0%float; at_state _ := None; at_marshal_state _ := "" |}.
#[local] Instance message_json : RestText := Changed.sap_json.
#[local] Instance text : SapText := Changed.sap_text.
#[local] Instance hosts : SapURL := Changed.sap_hosts.

(** How many messages were acknowledged; the first of the others is what can be consumed. *)
#[local] Instance instance_of : Http nat := {|
  http_do req t :=
    match skipn t messages with
    | [] => (Answer 204 ∅ [] "", t)
    | (id, body) :: _ =>
        if String.eqb (rq_target req) (mh_base mesh +++ consume_path "orders/q") then (Answer 200 (set_header "X-Message-Id" id ∅) [] body, t)
        else if String.eqb (rq_target req) (mh_base mesh +++ ack_path "orders/q" id) then (Answer 204 ∅ [] "", S t)
        else (Answer 200 ∅ [] "", t)
    end;
  http_now t := (0%Z, t);
  http_random n t := ("", t) |}.
#[local] Instance no_store : TokenStore (S := nat) := {| ts_open _ t := (Ok None, t); ts_close _ _ t := (None, t) |}.

Definition consumed (id body : string) : message := mkMessage id (set_header "X-Message-Id" id ∅) body.
Definition held (id : string) : result cloudEvent :=
  parseCloudEvent (consumed id (match find_named id messages with Some b => b | None => "" end)).
Definition acked (t : nat) : list string := (firstn t messages).*1.

Lemma one_more t id : id ∈ acked (S t) -> id ∈ acked t \/ option_map fst (messages !! t) = Some id.
Proof. unfold acked. destruct t as [|[|[|t]]]; cbn; rewrite ?take_nil; set_solver. Qed.

#[local] Instance queue_keeps : Broker mesh "orders/q" held acked.
Proof.
  split.
  - intros req t ans t' id Hd Hi. cbn in Hd. destruct t as [|[|[|t]]]; cbn in Hd; rewrite ?drop_nil in Hd;
      repeat (match type of Hd with context [String.eqb ?a ?b] => destruct (String.eqb_spec a b) as [Ht|] end); injection Hd as <- <-;
      first [by left | apply one_more in Hi as [?|[= <-]]; [by left|by right]].
  - by intros t n t' [= _ <-].
  - intros req t status h ck data t' Hd Ht _ H4. cbn in Hd. rewrite Ht in Hd. destruct t as [|[|[|t]]]; cbn in Hd; rewrite ?drop_nil in Hd; injection Hd as <- <- <- <- <-; try done.
    all: vm_compute; reflexivity.
Qed.

(** A sink that fails as often as it is said. *)
Definition deliver (evs : list Event) (d : nat * list Event) : option goerr * (nat * list Event) :=
  match fst d with
  | O => (None, (O, snd d ++ evs))
  | S k => (Some (Sentinel "the database is down"), (k, snd d))
  end.
Definition stored (d : nat * list Event) (ev : Event) : Prop := ev ∈ snd d.
#[local] Instance deliver_stores : Sink deliver stored.
Proof.
  split; unfold stored, deliver.
  - intros evs [[|k] l] e d' ev [= _ <-]; cbn; set_solver.
  - intros evs [[|k] l] d' ev; [|done]. intros [= <-]; cbn; set_solver.
Qed.

Definition client : authenticator := plain (mkAuth "oauth2" "" "https://auth.example/token" [] "" "body" "" []) "" "id" "secret" "" no_oauth1.
Definition start : Stream nat nat (nat * list Event) := mkStream (client, O) (client, mkSession "" O) (1, []) 0.
Definition first_run := Stream_sap deliver conn (Some mesh) "order" 5 start.
Definition second_run := Stream_sap deliver conn (Some mesh) "order" 5 (snd first_run).

Lemma messages_acknowledged_once_stored_witness :
  fst first_run = Some (Ended (Sentinel "the database is down")) /\ acked (snd (sm_mesh (snd first_run))) = [] /\
  acked (snd (sm_mesh (snd second_run))) = ["m1"; "m2"; "m3"] /\ map sev_ID (snd (sm_sink (snd second_run))) = ["e1"; "e3"] /\
  settled "order" taken held stored (acked (snd (sm_mesh (snd second_run)))) (sm_sink (snd second_run)).
Proof.
  split; [vm_compute; reflexivity|]. split; [vm_compute; reflexivity|]. split; [vm_compute; reflexivity|]. split; [vm_compute; reflexivity|].
  refine (messages_acknowledged_once_stored deliver conn mesh "order" taken held acked stored 5 (snd first_run) (snd second_run) (fst second_run) _ _ _ _).
  - vm_compute; reflexivity.
  - split; [vm_compute; reflexivity|]. intros id He. vm_compute in He. discriminate He.
  - replace (acked (snd (sm_mesh (snd first_run)))) with (@nil string) by (vm_compute; reflexivity). intros id ce Hi. by apply elem_of_nil in Hi.
  - unfold second_run. destruct (Stream_sap _ _ _ _ _ (snd first_run)); reflexivity.
Defined.
End Queue.

(** Data that is null is a nil map: an event of a subscription that reads no entity ends the
    process, and its message is there again when it is back. *)
Module NullData.
#[local] Instance null_json : RestText := {| rt_decode _ := Some JNull; rt_update _ := None; rt_marshal _ := ""; rt_format _ := ""; rt_float _ := 0%float |}.
#[local] Instance null_bodies : MeshText := {| mt_event _ := Some (mkCloudEvent "1.0" "e1" "sales/order/changed" "/s4" "" "" "null" "") |}.
#[local] Instance null_auth : AuthText := Queue.secrets_text.
#[local] Instance null_text : SapText := Changed.sap_text.
#[local] Instance null_hosts : SapURL := Changed.sap_hosts.
#[local] Instance null_queue : Http nat := Queue.instance_of.
#[local] Instance null_tokens : TokenStore (S := nat) := Queue.no_store.

Lemma null_data_crashes :
  let t := Stream_sap Queue.deliver Queue.conn (Some Queue.mesh) "order" 5 Queue.start in
  fst t = Some Crashed /\ Queue.acked (snd (sm_mesh (snd t))) = [].
Proof. split; vm_compute; reflexivity. Qed.
End NullData.
