(* ===== verification/Debezium.v ===== *)
(** Change events of Debezium: [src/pkg/connector/debezium/decode.go] and [debezium.go], with
    [registry.go]. Kafka and the schema registry are outside, as are the decoders of single
    schemas. *)

From S2P Require Import Turgon Prelude GoStr GoText GoErr GoTime GoDate Regex GuardData Guard Engine RestAuth Rest.
From Stdlib Require Import Ascii String.

(** ** Configuration *)

Record Registry := mkRegistry { rg_URL : string; rg_Auth : string }.
Record TableEvent := mkTableEvent { te_Topic : string; te_Operations : list string; te_Match : list (string * json); te_Start : string }.
Record DebeziumConfig := mkDebeziumConfig {
  dc_Brokers : list string;
  dc_TLS : bool;
  dc_SASL : string;
  dc_SchemaRegistry : option Registry;
  dc_Events : list (string * TableEvent)
}.

(** [field]: a field of a Kafka Connect schema. *)
Inductive connect_field := mkField {
  cf_Type : string;
  cf_Name : string;
  cf_Field : string;
  cf_Optional : bool;
  cf_Default : json;
  cf_Parameters : list (string * string);
  cf_Fields : list connect_field
}.

(** A change event as it is decoded, before its rows: absent is [None]. *)
Record raw_envelope := mkRawEnvelope {
  rw_Op : string;
  rw_Before : option json;
  rw_After : option json;
  rw_Source : option (list (string * json));
  rw_TsMs : string
}.

(** [envelope]; a nil map is [None]. *)
Record change_envelope := mkEnvelope {
  ce_Op : string;
  ce_Before : option (list (string * json));
  ce_After : option (list (string * json));
  ce_Source : list (string * json);
  ce_TsMs : Z
}.

(** [registered]. *)
Record reference := mkReference { rf_Name : string; rf_Subject : string; rf_Version : Z }.
Record registered := mkRegistered { rd_Schema : string; rd_SchemaType : string; rd_References : list reference }.

(** What the next offset of each partition is. *)
Abbreviation kafka_position := (gmap Z Z).

(** JSON, addresses, and the decoders of schemas; what [decode] of a decoder reads. *)
Class DebeziumText := {
  dz_decode : string -> option json;
  dz_unmarshal : string -> option json;
  dz_schema : json -> option connect_field;
  dz_raw : json -> option raw_envelope;
  dz_raw_text : string -> option raw_envelope;
  dz_marshal : json -> string;
  dz_sprint : json -> string;
  dz_host : string -> option string;
  dz_hostname : string -> string;
  dz_loopback : string -> bool;
  dz_login : string -> option (string * string);
  dz_registry_login : string -> option (string * string);
  dz_registered : string -> option registered;
  dz_avro : N -> string -> result (string -> result json);
  dz_json_schema : N -> string -> result (string -> result json);
  dz_proto : N -> string -> gmap string string -> result (string -> result json);
  dz_encode : kafka_position -> string;
  dz_position : string -> option kafka_position
}.

Definition opCodes : list (string * string) := [("create", "c"); ("update", "u"); ("delete", "d"); ("read", "r")].
Definition topic_byte (c : ascii) : bool := letter_or_digit c || existsb (Ascii.eqb c) ["."; "_"; "-"]%char.
Definition topicRE (s : string) : bool := Nat.leb 1 (String.length s) && Nat.leb (String.length s) 249 && str_all topic_byte s.
Definition column_byte (c : ascii) : bool := letter_or_digit c || existsb (Ascii.eqb c) ["_"; "$"; "#"]%char.
Definition colRE : re := RSeq (RCls (fun c => letter c || Ascii.eqb c "_")) (RStar (RCls column_byte)).

Section config.
Context `{A : AuthText} `{V : DebeziumText}.

(** [Registry.validate]. *)
Definition validate_registry (r : Registry) : option goerr :=
  match http_url (rg_URL r) with
  | None => Some (Errorf (Msg "schemaRegistry: url %q must be an http(s) URL" [FStr (rg_URL r)]))
  | Some u =>
      first_of [
        unless (negb (String.eqb (hu_Scheme u) "http") || String.eqb (dz_hostname (rg_URL r)) "localhost" || dz_loopback (dz_hostname (rg_URL r)))
          (Errorf (msg0 "schemaRegistry: https is required for a registry that is not on this host"));
        unless (one_of (rg_Auth r) [""; "basic"]) (Errorf (Msg "schemaRegistry: auth must be basic, got %q" [FStr (rg_Auth r)]))]
  end.

Definition on_this_host (broker : string) : bool :=
  match dz_host broker with Some h => String.eqb h "localhost" || dz_loopback h | None => false end.
Definition check_table (ne : string * TableEvent) : option goerr :=
  let (name, e) := ne in
  first_of [
    unless (topicRE (te_Topic e)) (Errorf (Msg "event %s: invalid topic %q" [FStr name; FStr (te_Topic e)]));
    first_error (fun op => unless (has_key op opCodes) (Errorf (Msg "event %s: operation must be create, update, delete or read, got %q" [FStr name; FStr op]))) (te_Operations e);
    first_error (fun kv : string * json => unless (fullmatch colRE (fst kv)) (Errorf (Msg "event %s: invalid match column %q" [FStr name; FStr (fst kv)]))) (te_Match e);
    unless (one_of (te_Start e) [""; "latest"; "earliest"]) (Errorf (Msg "event %s: start must be latest or earliest" [FStr name]))].

(** [Config.validate]. *)
Definition validate_debezium (c : DebeziumConfig) : option goerr :=
  first_of [
    unless (match dc_Brokers c with [] => false | _ => true end) (Errorf (msg0 "brokers are required"));
    first_error (fun b => unless (is_some (dz_host b)) (Errorf (Msg "broker %q must be host:port" [FStr b]))) (dc_Brokers c);
    unless (dc_TLS c || forallb on_this_host (dc_Brokers c)) (Errorf (msg0 "tls is required for brokers that are not on this host: change data holds business records"));
    unless (one_of (dc_SASL c) [""; "plain"; "scram-sha-256"; "scram-sha-512"]) (Errorf (Msg "sasl must be plain, scram-sha-256 or scram-sha-512, got %q" [FStr (dc_SASL c)]));
    unless (negb (String.eqb (dc_SASL c) "plain") || dc_TLS c) (Errorf (msg0 "sasl plain sends the password as it is: it needs tls"));
    match dc_SchemaRegistry c with Some r => validate_registry r | None => None end;
    unless (match dc_Events c with [] => false | _ => true end) (Errorf (msg0 "events are required"));
    first_error check_table (dc_Events c)].

(** [registry], without its cache. *)
Record schema_registry := mkSchemaRegistry { sr_url : string; sr_user : string; sr_pass : string }.
Record DebeziumConn := mkDebezium { db_cfg : DebeziumConfig; db_sasl : option (string * string * string); db_reg : option schema_registry }.

(** [newRegistry]. *)
Definition newRegistry (r : option Registry) (user pass : string) : option schema_registry :=
  match r with Some r => Some (mkSchemaRegistry (trim_end "/" (rg_URL r)) user pass) | None => None end.

(** [New]; the options of the Kafka client are the configuration and the credentials. *)
Definition New_debezium (cfg : DebeziumConfig) (secret : string) : result DebeziumConn :=
  match validate_debezium cfg with
  | Some e => Err e
  | None =>
      let basic := match dc_SchemaRegistry cfg with Some r => String.eqb (rg_Auth r) "basic" | None => false end in
      let! login := (if basic then
                       match dz_registry_login secret with
                       | Some (u, p) => if one_of "" [u; p] then Err (Errorf (msg0 "the secret must hold registry credentials for the schema registry's basic auth")) else Ok (u, p)
                       | None => Err (Errorf (msg0 "the secret must hold registry credentials for the schema registry's basic auth"))
                       end
                     else Ok ("", "")) in
      let! sasl := (if String.eqb (dc_SASL cfg) "" then Ok None
                    else match dz_login secret with
                      | Some (u, p) => if one_of "" [u; p] then Err (Errorf (msg0 "the secret must be a username and a password for sasl")) else Ok (Some (dc_SASL cfg, u, p))
                      | None => Err (Errorf (msg0 "the secret must be a username and a password for sasl"))
                      end) in
      Ok (mkDebezium cfg sasl (newRegistry (dc_SchemaRegistry cfg) (fst login) (snd login)))
  end.

(** [Factory], from a decoded configuration. *)
Definition Factory_debezium (secrets : string -> result string) (endpoint secretRef : string) (config : option DebeziumConfig) : result DebeziumConn :=
  match config with
  | None => Err (Wrapf (Msg "debezium %s: config: %w" [FStr endpoint]) [])
  | Some c =>
      let needs := negb (String.eqb (dc_SASL c) "") || match dc_SchemaRegistry c with Some r => String.eqb (rg_Auth r) "basic" | None => false end in
      match (if needs then secrets secretRef else Ok "") with
      | Err e => Err (Wrapf (Msg "debezium %s: %w" [FStr endpoint]) [e])
      | Ok secret => match New_debezium c secret with Err e => Err (Wrapf (Msg "debezium %s: %w" [FStr endpoint]) [e]) | Ok conn => Ok conn end
      end
  end.

Definition Streams_debezium (c : DebeziumConn) (event : string) : bool := has_key event (dc_Events (db_cfg c)).
End config.

(** ** Values *)

(** [toInt]. *)
Definition toInt (v : json) : result Z :=
  match v with
  | JNum n => parse_int n
  | JFloat x => Ok (float_trunc x)
  | _ => Err (Errorf (msg0 "expected a number, got %v"))
  end.

(** [Int64] of a number that is not there or is no integer: the nearest one in range, or 0. *)
Definition int64_or_zero (s : string) : Z :=
  match match s with String "-" r => Z.opp <$> digits_value r | _ => digits_value s end with
  | Some n => Z.max (- two63) (Z.min (two63 - 1) n)
  | None => 0
  end.

(** Times of [time.Time] in UTC, from nanoseconds since 1970: dates, and with
    [time.RFC3339Nano] and "15:04:05.999999999". *)
Definition year_text (y : Z) : string :=
  if (0 <=? y)%Z && (y <=? 9999)%Z then four_digits y "" else if (y <? 0)%Z && (-9999 <=? y)%Z then "-" +++ four_digits (- y) "" else itoa y.
Definition date_text (days : Z) : string :=
  let '(y, m, d) := date_of_days days in year_text y +++ String "-" (two_digits m (String "-" (two_digits d ""))).
Definition strip_zeros (s : string) : string := trim_end "0" s.
Fixpoint digits_of (n : nat) (z : Z) : string :=
  match n with O => "" | S n => digits_of n (z / 10) +++ String (digit z) "" end.
Definition fraction_text (ns : Z) : string := if (ns =? 0)%Z then "" else "." +++ strip_zeros (digits_of 9 ns).
Definition clock_of (ns : Z) : string :=
  format_clock (ns / 1000000000 mod 86400) +++ fraction_text (ns mod 1000000000).
Definition nano_text (ns : Z) : string := date_text (ns / 86400000000000) +++ "T" +++ clock_of ns +++ "Z".

(** [clock], of a duration in nanoseconds. *)
Definition clock_text (d : Z) : string := clock_of d.

(** [decimal]: bytes in two's complement, the highest first, and a scale. *)
Fixpoint unsigned_bytes (s : string) (n : Z) : Z :=
  match s with "" => n | String c s => unsigned_bytes s (n * 256 + Z.of_N (N_of_ascii c))%Z end.
Definition signed_bytes (s : string) : Z :=
  let n := unsigned_bytes s 0 in
  match s with
  | String c _ => if Z.testbit (Z.of_N (N_of_ascii c)) 7 then (n - 2 ^ (8 * Z.of_nat (String.length s)))%Z else n
  | "" => n
  end.
Fixpoint zeros (n : nat) : string := match n with O => "" | S n => String "0" (zeros n) end.
Definition place_point (s : string) (scale : Z) : string :=
  if (0 <? scale)%Z then
    let k := Z.to_nat scale in
    let s := zeros (k + 1 - String.length s) +++ s in
    let (whole, part) := str_cut (String.length s - k) s in whole +++ "." +++ part
  else s +++ zeros (Z.to_nat (- scale)).
Definition decimal (b64 : string) (scale : Z) : result json :=
  match base64_decode b64 with
  | None => Err (Errorf (msg0 "decimal: %w"))
  | Some b =>
      let n := signed_bytes b in
      Ok (JNum ((if (n <? 0)%Z then "-" else "") +++ place_point (itoa (Z.abs n)) scale))
  end.

Definition one_ms : Z := 1000000.
Section values.
Context `{V : DebeziumText}.

(** [convertValue]. *)
Definition with_int (v : json) (f : Z -> string) : result json := let! n := toInt v in Ok (JStr (f n)).
Definition convertValue (f : connect_field) (v : json) : result json :=
  let name := cf_Name f in
  if String.eqb name "org.apache.kafka.connect.data.Decimal" then
    match v with
    | JStr s => match find_named "scale" (cf_Parameters f) with
                | Some p => match atoi p with Some scale => decimal s scale | None => Err (Errorf (msg0 "decimal without a scale")) end
                | None => Err (Errorf (msg0 "decimal without a scale"))
                end
    | _ => Ok v
    end
  else if String.eqb name "io.debezium.data.VariableScaleDecimal" then
    match v with
    | JObj m => let! scale := toInt (json_field m "scale") in decimal (match json_field m "value" with JStr s => s | _ => "" end) scale
    | _ => Ok v
    end
  else if one_of name ["org.apache.kafka.connect.data.Date"; "io.debezium.time.Date"] then
    with_int v (fun days => date_text (wrap (days * 86400) / 86400))
  else if one_of name ["org.apache.kafka.connect.data.Timestamp"; "io.debezium.time.Timestamp"] then with_int v (fun ms => nano_text (ms * one_ms))
  else if String.eqb name "io.debezium.time.MicroTimestamp" then with_int v (fun us => nano_text (us * 1000))
  else if String.eqb name "io.debezium.time.NanoTimestamp" then with_int v nano_text
  else if one_of name ["org.apache.kafka.connect.data.Time"; "io.debezium.time.Time"] then with_int v (fun ms => clock_text (wrap (ms * one_ms)))
  else if String.eqb name "io.debezium.time.MicroTime" then with_int v (fun us => clock_text (wrap (us * 1000)))
  else if String.eqb name "io.debezium.time.NanoTime" then with_int v clock_text
  else if String.eqb name "io.debezium.data.Json" then
    match v with
    | JStr s => match dz_decode s with Some doc => Ok doc | None => Err (Errorf (msg0 "invalid JSON")) end
    | _ => Ok v
    end
  else Ok v.

(** [row]. *)
Fixpoint convert_row (schema : list connect_field) (r : list (string * json)) : result (list (string * json)) :=
  match schema with
  | [] => Ok r
  | f :: schema =>
      match json_field r (cf_Field f) with
      | JNull => convert_row schema r
      | v => match convertValue f v with
             | Ok cv => convert_row schema (set_field (cf_Field f) cv r)
             | Err e => Err (Wrapf (Msg "column %s (%s): %w" [FStr (cf_Field f); FStr (cf_Name f)]) [e])
             end
      end
  end.
Definition change_row (raw : option json) (schema : list connect_field) : result (option (list (string * json))) :=
  match raw with
  | None | Some JNull => Ok None
  | Some (JObj r) => let! r := convert_row schema r in Ok (Some r)
  | Some _ => Err (Errorf (msg0 "cannot unmarshal into a map"))
  end.

(** ** Envelopes *)

Definition not_a_change : goerr :=
  Errorf (msg0 "not a Debezium change event: op and source are required (is the ExtractNewRecordState transform on? Turgon needs the full envelope)").

(** The row's schema: of the last of the fields before and after that has fields. *)
Definition row_schema (s : connect_field) : list connect_field :=
  fold_left (fun l f => if one_of (cf_Field f) ["after"; "before"] then match cf_Fields f with [] => l | fs => fs end else l) (cf_Fields s) [].

(** [decodeEnvelope]. *)
Definition decodeEnvelope (value : string) : result change_envelope :=
  match dz_decode value with
  | Some ((JObj _ | JNull) as top) =>
      let! '(raw, schema) :=
        (if has_key "payload" (entries top) && negb (is_null (json_field (entries top) "schema")) then
           match dz_schema (json_field (entries top) "schema") with
           | None => Err (Errorf (msg0 "schema: %w"))
           | Some s => Ok (dz_raw (json_field (entries top) "payload"), row_schema s)
           end
         else Ok (dz_raw_text value, [])) in
      match raw with
      | None => Err (Errorf (msg0 "not a Debezium change event: %w"))
      | Some raw =>
          match rw_Source raw with
          | None => Err not_a_change
          | Some source =>
              if String.eqb (rw_Op raw) "" then Err not_a_change
              else
                match change_row (rw_Before raw) schema with
                | Err e => Err (Wrapf (msg0 "before: %w") [e])
                | Ok before =>
                    match change_row (rw_After raw) schema with
                    | Err e => Err (Wrapf (msg0 "after: %w") [e])
                    | Ok after => Ok (mkEnvelope (rw_Op raw) before after source (int64_or_zero (rw_TsMs raw)))
                    end
                end
          end
      end
  | _ => Err (Errorf (msg0 "not a JSON change event: %w (use the JSON converter)"))
  end.

(** [recordEnvelope]. *)
Definition as_map (v : json) : option (list (string * json)) := match v with JObj l => Some l | _ => None end.
Definition recordEnvelope (m : list (string * json)) : result change_envelope :=
  let op := match json_field m "op" with JStr s => s | _ => "" end in
  match as_map (json_field m "source") with
  | Some source =>
      if String.eqb op "" then Err not_a_change
      else Ok (mkEnvelope op (as_map (json_field m "before")) (as_map (json_field m "after")) source
             (match toInt (json_field m "ts_ms") with Ok n => n | Err _ => 0%Z end))
  | None => Err not_a_change
  end.

(** ** Identity *)

(** [positionFields]. *)
Definition positionFields : list (string * list string) := [
  ("postgresql", ["lsn"; "txId"; "sequence"]); ("mysql", ["server_id"; "file"; "pos"; "row"; "gtid"]);
  ("mariadb", ["server_id"; "file"; "pos"; "row"; "gtid"]); ("sqlserver", ["change_lsn"; "commit_lsn"; "event_serial_no"]);
  ("oracle", ["scn"; "commit_scn"; "txId"; "rs_id"; "ssn"; "redo_thread"]); ("db2", ["change_lsn"; "commit_lsn"]);
  ("mongodb", ["ord"; "lsid"; "txnNumber"])].

(** [changeID]: what is hashed, and the ID. *)
Definition source_connector (source : list (string * json)) : string := match json_field source "connector" with JStr s => s | _ => "" end.
Definition place_text (source : list (string * json)) : string :=
  match find_named (source_connector source) positionFields with
  | Some fields => join "" (map (fun f => dz_marshal (json_field source f) +++ nul) fields)
  | None => dz_marshal (JObj (List.filter (fun kv => negb (one_of (fst kv) ["ts_ms"; "ts_us"; "ts_ns"; "version"; "snapshot"])) source))
  end.
Definition table_text (source : list (string * json)) : string :=
  join "" (map (fun k => dz_sprint (json_field source k) +++ nul) ["db"; "schema"; "table"; "collection"]).
Definition identity_text (env : change_envelope) (key : string) : string :=
  source_connector (ce_Source env) +++ nul +++ ce_Op env +++ nul +++ place_text (ce_Source env) +++ table_text (ce_Source env) +++ key.
Definition changeID `{AuthText} (env : change_envelope) (key : string) : string :=
  hex_encode (fst (str_cut 16 (at_sha256 (identity_text env key)))).

(** [canonicalKey]. *)
Definition canonicalKey (key : string) : string :=
  match dz_unmarshal key with
  | None => key
  | Some k =>
      dz_marshal match k with
        | JObj m => if has_key "payload" m && negb (is_null (json_field m "schema")) then json_field m "payload" else k
        | _ => k
        end
  end.

(** [opName] and [sourceSummary]. *)
Definition opName (op : string) : string :=
  match find_first (fun nc : string * string => String.eqb (snd nc) op) opCodes with Some (name, _) => name | None => op end.
Definition sourceSummary (source : list (string * json)) : list (string * json) :=
  List.filter (fun kv => negb (is_null (snd kv))) (map (fun k => (k, json_field source k)) ["connector"; "name"; "db"; "schema"; "table"; "snapshot"]).
End values.
Example date_after : date_text 20000 = "2024-10-04". Proof. reflexivity. Qed.
Example date_before : date_text (-1) = "1969-12-31". Proof. reflexivity. Qed.
Example nano_micro : nano_text 1700000000123456000 = "2023-11-14T22:13:20.123456Z". Proof. reflexivity. Qed.
Example clock_short : clock_text 45296000000000 = "12:34:56". Proof. reflexivity. Qed.
Example decimal_negative : decimal "+go=" 2 = Ok (JNum "-15.26"). Proof. reflexivity. Qed.
Example decimal_small : decimal "BQ==" 3 = Ok (JNum "0.005"). Proof. reflexivity. Qed.

(** ** The schema registry *)

Definition record_decoder : Type := string -> result json.

(** [wireFormat]. *)
Definition wireFormat (b : string) : option (N * string) :=
  match b with
  | String z (String b1 (String b2 (String b3 (String b4 body)))) =>
      if (N_of_ascii z =? 0)%N then Some (((N_of_ascii b1 * 256 + N_of_ascii b2) * 256 + N_of_ascii b3) * 256 + N_of_ascii b4, body)%N else None
  | _ => None
  end.

(** What is read with: the decoders of the schemas seen, and the world. *)
Record reading (W : Type) := mkReading { rd_decoders : gmap N record_decoder; rd_world : W }.
Arguments mkReading {_}. Arguments rd_decoders {_}. Arguments rd_world {_}.

Section registry.
Context `{A : AuthText} `{V : DebeziumText} {W : Type} `{H : Http W} (reg : schema_registry).

(** [get], of a registered schema. *)
Definition get_schema (path : string) (w : W) : result registered * W :=
  let h := set_header "Accept" "application/vnd.schemaregistry.v1+json, application/json" ∅ in
  let h := if String.eqb (sr_user reg) "" then h else set_header "Authorization" ("Basic " +++ base64_encode (sr_user reg +++ ":" +++ sr_pass reg)) h in
  let (ans, w) := http_do (mkRequest "GET" (sr_url reg +++ path) h "" true) w in
  (match ans with
   | NoAnswer e => Err e
   | Answer status _ _ body =>
       if negb (status =? StatusOK)%Z then Err (Errorf (Msg "HTTP %d %s" [FInt status; FStr (trim_space body)]))
       else match dz_registered body with Some s => Ok s | None => Err (Errorf (msg0 "invalid JSON")) end
   end, w).

(** [imports]: what a schema refers to, and what that does, by name; at most as many
    requests as the context lasts for. *)
Definition reference_version (r : reference) : string := if (0 <? rf_Version r)%Z then itoa (rf_Version r) else "latest".
Definition reference_path (r : reference) : string := "/subjects/" +++ path_escape (rf_Subject r) +++ "/versions/" +++ reference_version r.
Fixpoint schema_imports (fuel : nat) (refs : list reference) (into : gmap string string) (w : W) : result (gmap string string) * W :=
  match fuel with
  | O => (match refs with [] => Ok into | _ => Err (Sentinel "context deadline exceeded") end, w)
  | S fuel =>
      match refs with
      | [] => (Ok into, w)
      | ref :: refs =>
          if is_some (into !! rf_Name ref) then schema_imports fuel refs into w
          else
            let (s, w) := get_schema (reference_path ref) w in
            match s with
            | Err e => (Err (Wrapf (Msg "reference %s (subject %s, version %s): %w" [FStr (rf_Name ref); FStr (rf_Subject ref); FStr (reference_version ref)]) [e]), w)
            | Ok s =>
                let (r, w) := schema_imports fuel (rd_References s) (<[rf_Name ref := rd_Schema s]> into) w in
                match r with Err e => (Err e, w) | Ok into => schema_imports fuel refs into w end
            end
      end
  end.

(** [decoder]. *)
Definition schema_error (id : N) (e : goerr) : goerr := Wrapf (Msg "schema registry: schema %d: %w" [FInt (Z.of_N id)]) [e].
Definition new_decoder (fuel : nat) (id : N) (s : registered) (w : W) : result record_decoder * W :=
  if one_of (rd_SchemaType s) [""; "AVRO"] then (dz_avro id (rd_Schema s), w)
  else if String.eqb (rd_SchemaType s) "JSON" then (dz_json_schema id (rd_Schema s), w)
  else if String.eqb (rd_SchemaType s) "PROTOBUF" then
    let (files, w) := schema_imports fuel (rd_References s) ∅ w in
    match files with Err e => (Err e, w) | Ok files => (dz_proto id (rd_Schema s) files, w) end
  else (Err (Errorf (Msg "is %s; Turgon reads Avro, JSON Schema and Protobuf" [FStr (rd_SchemaType s)])), w).
Definition schema_decoder (fuel : nat) (id : N) (st : reading W) : result record_decoder * reading W :=
  match rd_decoders st !! id with
  | Some d => (Ok d, st)
  | None =>
      let (s, w) := get_schema ("/schemas/ids/" +++ itoa (Z.of_N id)) (rd_world st) in
      match s with
      | Err e => (Err (schema_error id e), mkReading (rd_decoders st) w)
      | Ok s =>
          let (d, w) := new_decoder fuel id s w in
          match d with
          | Err e => (Err (schema_error id e), mkReading (rd_decoders st) w)
          | Ok d => (Ok d, mkReading (<[id := d]> (rd_decoders st)) w)
          end
      end
  end.

(** [decodeRecord]. *)
Definition decodeRecord (fuel : nat) (id : N) (body : string) (st : reading W) : result json * reading W :=
  let (d, st) := schema_decoder fuel id st in
  (match d with Err e => Err e | Ok d => d body end, st).
End registry.

(** ** Changes *)

Section changes.
Context `{A : AuthText} `{V : DebeziumText} {W : Type} `{H : Http W} (conn : DebeziumConn) (fuel : nat).

(** [decode]. *)
Definition decode_change (key value : string) (st : reading W) : result (change_envelope * string) * reading W :=
  match wireFormat value with
  | None => (let! env := decodeEnvelope value in Ok (env, canonicalKey key), st)
  | Some (id, body) =>
      match db_reg conn with
      | None => (Err (Errorf (msg0 "this change is in the Confluent wire format (Avro, JSON Schema or Protobuf): set the connection's schemaRegistry")), st)
      | Some reg =>
          let (m, st) := decodeRecord reg fuel id body st in
          match m with
          | Err e => (Err e, st)
          | Ok m =>
              match recordEnvelope (entries m) with
              | Err e => (Err e, st)
              | Ok env =>
                  match wireFormat key with
                  | None => (Ok (env, canonicalKey key), st)
                  | Some (id, body) =>
                      let (km, st) := decodeRecord reg fuel id body st in
                      (match km with Err e => Err (Wrapf (msg0 "key: %w") [e]) | Ok km => Ok (env, dz_marshal km) end, st)
                  end
              end
          end
      end
  end.

(** [convert]; [None] is a record that the event does not take. *)
Definition change_payload (env : change_envelope) (row : list (string * json)) : string :=
  let meta := [("op", JStr (opName (ce_Op env))); ("source", JObj (sourceSummary (ce_Source env)))] in
  let meta := match ce_Before env with Some b => if String.eqb (ce_Op env) "u" then meta ++ [("before", JObj b)] else meta | None => meta end in
  let meta := if (0 <? ce_TsMs env)%Z then meta ++ [("ts", JStr (nano_text (ce_TsMs env * one_ms)))] else meta in
  dz_marshal (JObj (set_field "debezium" (JObj meta) row)).
Definition change_matches (row want : list (string * json)) : bool :=
  forallb (fun kv => String.eqb (dz_marshal (json_field row (fst kv))) (dz_marshal (snd kv))) want.
Definition convert_change (event key value : string) (keep : list string) (want : list (string * json)) (st : reading W) : result (option Event) * reading W :=
  if String.eqb value "" then (Ok None, st)
  else
    let (r, st) := decode_change key value st in
    (let! '(env, canonKey) := r in
     if negb (one_of (ce_Op env) keep) then Ok None
     else match (if String.eqb (ce_Op env) "d" then ce_Before env else ce_After env) with
       | None => Err (Errorf (Msg "a %q change without its row (is the table's replica identity or supplemental logging full?)" [FStr (ce_Op env)]))
       | Some row =>
           Ok (if change_matches row want then Some (mkSourceEvent (changeID env canonKey) 0 event (change_payload env row)) else None)
       end, st).
End changes.

(** ** Kafka *)

(** A record of a topic; a partition is what the client numbers. *)
Record krecord := mkKRecord { kr_Partition : Z; kr_Offset : Z; kr_Key : string; kr_Value : string }.

(** What a poll gives: the end of the context, the errors of partitions, and records. *)
Record fetched := mkFetched { ft_ended : option goerr; ft_errors : list (Z * goerr); ft_records : list krecord }.

(** The Kafka client, its listings of offsets, and a consumer of partitions. *)
Class Kafka (W C : Type) := {
  kf_client : W -> option goerr * W;
  kf_start_offsets : string -> W -> result (list (Z * result Z)) * W;
  kf_end_offsets : string -> W -> result (list (Z * result Z)) * W;
  kf_consumer : string -> kafka_position -> W -> result C * W;
  kf_poll : C -> W -> fetched * (C * W)
}.

(** A subscription: what it reads with, and what takes its events. *)
Record table_stream (W D : Type) := mkTableStream { ts_reading : reading W; ts_sink : D }.
Arguments mkTableStream {_ _}. Arguments ts_reading {_ _}. Arguments ts_sink {_ _}.

Section kafka.
Context `{A : AuthText} `{V : DebeziumText} {W C D : Type} `{H : Http W} `{K : Kafka W C}.
Context (deliver : list Event -> string -> D -> option goerr * D) (conn : DebeziumConn) (fuel : nat).

(** [offsets]. *)
Definition listed (l : list (Z * result Z)) : kafka_position :=
  fold_left (fun m po => match snd po with Ok o => <[fst po := o]> m | Err _ => m end) l ∅.
Definition listing_error (l : list (Z * result Z)) : option goerr := first_error (fun po : Z * result Z => match snd po with Err e => Some e | Ok _ => None end) l.
Definition list_offsets (topic : string) (w : W) : result (kafka_position * kafka_position) * W :=
  let (s, w) := kf_start_offsets topic w in
  match s with
  | Err e => (Err (Wrapf (Msg "debezium: %s: %w" [FStr topic]) [e]), w)
  | Ok s =>
      let (e, w) := kf_end_offsets topic w in
      match e with
      | Err e => (Err (Wrapf (Msg "debezium: %s: %w" [FStr topic]) [e]), w)
      | Ok e =>
          (match listing_error (s ++ e) with
           | Some err => Err (Wrapf (Msg "debezium: topic %s: %w (is Debezium capturing the table, with this topic prefix?)" [FStr topic]) [err])
           | None =>
               if bool_decide (listed e = ∅) then Err (Errorf (Msg "debezium: topic %s does not exist (is Debezium capturing the table, with this topic prefix?)" [FStr topic]))
               else Ok (listed s, listed e)
           end, w)
      end
  end.

(** Where the partitions begin, and whether one of them is new. *)
Fixpoint begin_at (e : TableEvent) (starts : kafka_position) (ends : list (Z * Z)) (pos : kafka_position) (fresh : bool) : result (kafka_position * bool) :=
  match ends with
  | [] => Ok (pos, fresh)
  | (p, end_) :: ends =>
      let oldest := default 0%Z (starts !! p) in
      match pos !! p with
      | None => begin_at e starts ends (<[p := if String.eqb (te_Start e) "earliest" then oldest else end_]> pos) true
      | Some off =>
          if (off <? oldest)%Z then
            Err (Errorf (Msg "debezium: %s partition %d: the stored offset %d is before the oldest change Kafka keeps (%d); changes were lost to retention. Re-run Debezium's snapshot or reset the position" [FStr (te_Topic e); FInt p; FInt off; FInt oldest]))
          else begin_at e starts ends pos fresh
      end
  end.

Definition kept_ops (e : TableEvent) : list string :=
  map (fun op => default "" (find_named op opCodes)) (match te_Operations e with [] => ["create"; "update"; "delete"] | l => l end).

(** The records of a poll, each with the offset after it. *)
Fixpoint read_records (event : string) (e : TableEvent) (records : list krecord) (pos : kafka_position) (st : reading W)
    : result (kafka_position * list Event) * reading W :=
  match records with
  | [] => (Ok (pos, []), st)
  | r :: records =>
      let (ev, st) := convert_change conn fuel event (kr_Key r) (kr_Value r) (kept_ops e) (te_Match e) st in
      match ev with
      | Err err => (Err (Wrapf (Msg "debezium: %s partition %d offset %d: %w" [FStr (te_Topic e); FInt (kr_Partition r); FInt (kr_Offset r)]) [err]), st)
      | Ok ev =>
          let (rest, st) := read_records event e records (<[kr_Partition r := kr_Offset r + 1]> pos)%Z st in
          (let! '(pos, events) := rest in Ok (pos, match ev with Some ev => ev :: events | None => events end), st)
      end
  end.

(** One poll; [None] goes on. *)
Definition poll_round (event : string) (e : TableEvent) (c : C) (pos : kafka_position) (s : table_stream W D)
    : option goerr * (C * kafka_position * table_stream W D) :=
  let '(f, (c, w)) := kf_poll c (rd_world (ts_reading s)) in
  let s := mkTableStream (mkReading (rd_decoders (ts_reading s)) w) (ts_sink s) in
  match ft_ended f, ft_errors f with
  | Some err, _ => (Some err, (c, pos, s))
  | None, (p, err) :: _ => (Some (Wrapf (Msg "debezium: %s partition %d: %w" [FStr (te_Topic e); FInt p]) [err]), (c, pos, s))
  | None, [] =>
      let (r, st) := read_records event e (ft_records f) pos (ts_reading s) in
      let s := mkTableStream st (ts_sink s) in
      match r, ft_records f with
      | Err err, _ => (Some err, (c, pos, s))
      | Ok (pos, _), [] => (None, (c, pos, s))
      | Ok (pos, events), _ :: _ =>
          let (err, d) := deliver events (dz_encode pos) (ts_sink s) in
          (err, (c, pos, mkTableStream st d))
      end
  end.

(** The loop of [Stream], as many times round as the context lasts. *)
Fixpoint poll_rounds (n : nat) (event : string) (e : TableEvent) (c : C) (pos : kafka_position) (s : table_stream W D) : option goerr * table_stream W D :=
  match n with
  | O => (None, s)
  | S n =>
      let '(err, (c, pos, s)) := poll_round event e c pos s in
      match err with Some err => (Some err, s) | None => poll_rounds n event e c pos s end
  end.

(** [Stream]; no stored position is "". *)
Definition in_world (w : W) (s : table_stream W D) : table_stream W D := mkTableStream (mkReading (rd_decoders (ts_reading s)) w) (ts_sink s).
Definition stored_position (resume : string) : result kafka_position :=
  if String.eqb resume "" then Ok ∅
  else match dz_position resume with Some pos => Ok pos | None => Err (Wrapf (Msg "debezium: stored position %q: %w" [FStr resume]) []) end.
Definition consume_from (n : nat) (event : string) (e : TableEvent) (pos : kafka_position) (s : table_stream W D) : option goerr * table_stream W D :=
  let (c, w) := kf_consumer (te_Topic e) pos (rd_world (ts_reading s)) in
  match c with Err err => (Some err, in_world w s) | Ok c => poll_rounds n event e c pos (in_world w s) end.
Definition Stream_debezium (n : nat) (event resume : string) (s : table_stream W D) : option goerr * table_stream W D :=
  match find_named event (dc_Events (db_cfg conn)) with
  | None => (Some (Errorf (Msg "debezium: event %q is not configured on this connection" [FStr event])), s)
  | Some e =>
      match stored_position resume with
      | Err err => (Some err, s)
      | Ok pos =>
          let (err, w) := kf_client (rd_world (ts_reading s)) in
          match err with
          | Some err => (Some err, in_world w s)
          | None =>
              let (o, w) := list_offsets (te_Topic e) w in
              let s := in_world w s in
              match o with
              | Err err => (Some err, s)
              | Ok (starts, ends) =>
                  match begin_at e starts (map_to_list ends) pos false with
                  | Err err => (Some err, s)
                  | Ok (pos, false) => consume_from n event e pos s
                  | Ok (pos, true) =>
                      let (err, d) := deliver [] (dz_encode pos) (ts_sink s) in
                      let s := mkTableStream (ts_reading s) d in
                      match err with Some err => (Some err, s) | None => consume_from n event e pos s end
                  end
              end
          end
      end
  end.
End kafka.
