(* ===== verification/DebeziumProps.v ===== *)
(** Change events of Debezium: a subscription reads each partition without a gap and without
    repeating, a change that is sent again keeps its ID, and decimals are exact. *)

From S2P Require Import Turgon Prelude GoStr GoText GoErr GoTime GoDate Guard Engine RestAuth Rest Debezium.
From Stdlib Require Import Ascii String Sorted DecimalN DecimalString.

(** ** Records of a partition *)

Lemma filter_all {X} (P : X -> Prop) `{forall x, Decision (P x)} (l : list X) : (forall x, x ∈ l -> P x) -> filter P l = l.
Proof. induction l as [|x l IH]; [done|]. intros Hl. rewrite filter_cons_True by (apply Hl; left). f_equal. apply IH. intros y Hy. apply Hl. by right. Qed.

Lemma filter_none {X} (P : X -> Prop) `{forall x, Decision (P x)} (l : list X) : (forall x, x ∈ l -> ~ P x) -> filter P l = [].
Proof. induction l as [|x l IH]; [done|]. intros Hl. rewrite filter_cons_False by (apply Hl; left). apply IH. intros y Hy. apply Hl. by right. Qed.

Definition earlier (a b : krecord) : Prop := (kr_Offset a < kr_Offset b)%Z.
Definition on (p : Z) (l : list krecord) : list krecord := filter (fun r => kr_Partition r = p) l.
Definition from_offset (off : Z) (l : list krecord) : list krecord := filter (fun r => (off <= kr_Offset r)%Z) l.
Definition between (from upto : Z) (l : list krecord) : list krecord := filter (fun r => (from <= kr_Offset r < upto)%Z) l.

(** The offset after records, or the one before them. *)
Definition after (off : Z) (l : list krecord) : Z := match last l with Some r => (kr_Offset r + 1)%Z | None => off end.

Lemma between_none from upto l : (forall r, r ∈ l -> (upto <= kr_Offset r)%Z) -> between from upto l = [].
Proof.
  intros Hl. apply filter_none. intros x Hx. specialize (Hl x Hx). lia.
Qed.

Lemma between_joins from upto upto' l : StronglySorted earlier l -> (from <= upto <= upto')%Z ->
  between from upto' l = between from upto l ++ between upto upto' l.
Proof.
  intros Hs Hle. induction Hs as [|x l Hs IH Hx]; [done|]. rewrite Forall_forall in Hx. unfold earlier in Hx. unfold between in *.
  destruct (decide (kr_Offset x < from)%Z); [by rewrite !filter_cons_False by lia|].
  destruct (decide (kr_Offset x < upto)%Z); [rewrite (filter_cons_False (fun r => upto <= kr_Offset r < upto')%Z) by lia; rewrite !filter_cons_True by lia; cbn; by rewrite IH|].
  rewrite (filter_cons_False (fun r => from <= kr_Offset r < upto)%Z) by lia.
  assert (Hn : filter (fun r => (from <= kr_Offset r < upto)%Z) l = []) by (apply between_none; intros r Hr; specialize (Hx r Hr); lia).
  rewrite Hn in *. destruct (decide (kr_Offset x < upto')%Z); [rewrite !filter_cons_True by lia; cbn; by rewrite IH|by rewrite !filter_cons_False by lia].
Qed.

Lemma sorted_last l r x : StronglySorted earlier l -> last l = Some r -> x ∈ l -> (kr_Offset x <= kr_Offset r)%Z.
Proof.
  intros Hs. induction Hs as [|y l Hs IH Hy]; [done|]. intros Hl Hx. rewrite Forall_forall in Hy. destruct l as [|z l].
  - injection Hl as <-. apply list_elem_of_singleton in Hx as ->. lia.
  - apply elem_of_cons in Hx as [->|Hx]; [|by apply IH]. assert (Hr : r ∈ z :: l) by (apply last_Some_elem_of; exact Hl). specialize (Hy r Hr). unfold earlier in Hy. lia.
Qed.

(** A batch that starts at an offset ends before the offset after it. *)
Lemma batch_between off k l : StronglySorted earlier l -> firstn k (from_offset off l) = between off (after off (firstn k (from_offset off l))) l.
Proof.
  intros Hs. unfold after. destruct (last (take k (from_offset off l))) as [r|] eqn:El.
  - assert (Hh : StronglySorted earlier (from_offset off l)).
    { clear El. induction Hs as [|x l Hs IH Hx]; [constructor|]. unfold from_offset in *. destruct (decide (off <= kr_Offset x)%Z).
      - rewrite filter_cons_True by done. constructor; [done|]. rewrite Forall_forall in *. intros y Hy. apply list_elem_of_filter in Hy as [_ Hy]. auto.
      - by rewrite filter_cons_False. }
    assert (Hb : between off (kr_Offset r + 1) l = filter (fun x => (kr_Offset x < kr_Offset r + 1)%Z) (from_offset off l)).
    { unfold between, from_offset. rewrite list_filter_filter. apply list_filter_iff. intros x. lia. }
    rewrite Hb. rewrite <- (take_drop k (from_offset off l)) at 2. rewrite filter_app. rewrite <- (take_drop k (from_offset off l)) in Hh.
    assert (Hr : r ∈ take k (from_offset off l)) by (by apply last_Some_elem_of).
    rewrite (filter_all _ (take k (from_offset off l))), (filter_none _ (drop k (from_offset off l))); [by rewrite app_nil_r|..].
    + intros x Hx. pose proof (StronglySorted_app_1_elem_of _ _ _ r x Hh Hr Hx) as Hlt. unfold earlier in Hlt. lia.
    + intros x Hx. pose proof (sorted_last _ _ _ (StronglySorted_app_1_l _ _ _ Hh) El Hx). lia.
  - apply last_None in El. rewrite El. symmetry. apply filter_none. intros x _. lia.
Qed.

Lemma in_batch off k l r : r ∈ firstn k (from_offset off l) -> (off <= kr_Offset r)%Z /\ r ∈ l.
Proof.
  intros Hr. assert (Hi : r ∈ from_offset off l) by (rewrite <- (take_drop k (from_offset off l)), elem_of_app; by left). by apply list_elem_of_filter in Hi.
Qed.

Lemma after_joins off l1 l2 : after (after off l1) l2 = after off (l1 ++ l2).
Proof. unfold after. rewrite last_app. by destruct (last l2). Qed.

(** ** What Kafka promises, and what takes the events *)

Section laws.
Context {W C D : Type} `{H : Http W} `{K : Kafka W C}.

(** A topic's partitions, of which those that are read are what a consumer's next offsets
    are of: it reads each from there, in order and without a gap. Records are only added,
    behind the others. *)
Class TopicLaws (e : TableEvent) (R : W -> W -> Prop) (part : Z -> W -> list krecord) (next : C -> kafka_position) : Prop := {
  tp_order :: PreOrder R;
  tp_grows p w w' : R w w' -> part p w `prefix_of` part p w';
  tp_sorted p w : StronglySorted earlier (part p w);
  tp_client w r w' : kf_client w = (r, w') -> R w w';
  tp_start w r w' : kf_start_offsets (te_Topic e) w = (r, w') -> R w w';
  tp_end w r w' : kf_end_offsets (te_Topic e) w = (r, w') -> R w w';
  tp_http req w r w' : http_do req w = (r, w') -> R w w';
  tp_consumer pos w r w' : kf_consumer (te_Topic e) pos w = (r, w') -> R w w' /\ forall c, r = Ok c -> next c = pos;
  tp_poll c w f c' w' : kf_poll c w = (f, (c', w')) -> R w w' /\ forall p, match next c !! p with
    | None => on p (ft_records f) = [] /\ next c' !! p = None
    | Some off => next c' !! p = Some (after off (on p (ft_records f))) /\ exists k, on p (ft_records f) = firstn k (from_offset off (part p w'))
    end
}.

(** Events and the position after them are stored together or not at all; an error may
    follow either. *)
Class PositionSink (deliver : list Event -> string -> D -> option goerr * D) (stored : D -> list Event) (place : D -> string) : Prop :=
  sink_law evs text d e d' : deliver evs text d = (e, d') ->
    stored d' = stored d ++ evs /\ place d' = text \/ e <> None /\ stored d' = stored d /\ place d' = place d.

Class PositionText `{V : DebeziumText} : Prop := dz_position_encode pos : dz_encode pos <> "" /\ dz_position (dz_encode pos) = Some pos.
End laws.

Section consumed.
Context `{A : AuthText} `{V : DebeziumText} {W C D : Type} `{H : Http W} `{K : Kafka W C}.
Context (deliver : list Event -> string -> D -> option goerr * D) (conn : DebeziumConn) (fuel : nat) (event : string) (e : TableEvent).
Context {R : W -> W -> Prop} {part : Z -> W -> list krecord} {next : C -> kafka_position} `{L : !TopicLaws e R part next}.
Context {stored : D -> list Event} {place : D -> string} `{S : !PositionSink deliver stored place} `{J : !PositionText}.

(** What a record was turned into when it was read. *)
Definition told (ro : krecord * option Event) : Prop :=
  exists st st', convert_change conn fuel event (kr_Key (fst ro)) (kr_Value (fst ro)) (kept_ops e) (te_Match e) st = (Ok (snd ro), st').

(** Where a partition begins: as it was listed when it had no stored offset. *)
Definition begins (p from : Z) : Prop :=
  exists w l w', (if String.eqb (te_Start e) "earliest" then kf_start_offsets (te_Topic e) w else kf_end_offsets (te_Topic e) w) = (Ok l, w') /\
    default 0%Z (listed l !! p) = from.

(** What was read of each partition is all between where it began and its next offset. *)
Record tracks (first : kafka_position) (read : list (krecord * option Event)) (pos : kafka_position) (w : W) : Prop := mkTracks {
  tr_told : Forall told read;
  tr_parts p : match pos !! p with
    | None => on p read.*1 = [] /\ first !! p = None
    | Some upto => exists from, first !! p = Some from /\ begins p from /\ (from <= upto)%Z /\
        on p read.*1 = between from upto (part p w) /\ (upto = from \/ exists r, r ∈ part p w /\ (kr_Offset r + 1)%Z = upto)
    end
}.

Lemma tracks_none w : tracks ∅ [] ∅ w.
Proof using. split; [constructor|]. intros p. rewrite lookup_empty. by split. Qed.

Lemma tracks_grows first read pos w w' : R w w' -> tracks first read pos w -> tracks first read pos w'.
Proof using L.
  intros HR [Ht Hp]. split; [done|]. intros p. specialize (Hp p). destruct (pos !! p) as [upto|]; [|done].
  destruct Hp as (from & Hf & Hb & Hle & Hon & Hu). exists from. split_and!; [done|done|done| |].
  - rewrite Hon. destruct (tp_grows p w w' HR) as [more Em]. rewrite Em. pose proof (tp_sorted (e := e) p w') as Hs. rewrite Em in Hs.
    unfold between. rewrite filter_app. rewrite (filter_none _ more); [by rewrite app_nil_r|]. intros x Hx Hr.
    destruct Hu as [->|(r & Hin & <-)]; [lia|]. pose proof (StronglySorted_app_1_elem_of _ _ _ r x Hs Hin Hx) as Hlt. unfold earlier in Hlt. lia.
  - destruct Hu as [Hu|(r & Hin & Hr)]; [by left|right]. exists r. split; [|done]. destruct (tp_grows p w w' HR) as [more ->]. rewrite elem_of_app. by left.
Qed.

Lemma on_app p l1 l2 : on p (l1 ++ l2) = on p l1 ++ on p l2.
Proof using. apply filter_app. Qed.

(** Reading is keeping the offset after each record. *)
Definition advance (pos : kafka_position) (r : krecord) : kafka_position := <[kr_Partition r := (kr_Offset r + 1)%Z]> pos.

Lemma advanced p records : forall pos, fold_left advance records pos !! p =
  match last (on p records) with Some r => Some (kr_Offset r + 1)%Z | None => pos !! p end.
Proof using.
  induction records as [|r records IH]; intros pos; [done|]. cbn [fold_left]. rewrite IH. unfold on. rewrite filter_cons.
  destruct (decide (kr_Partition r = p)) as [<-|Hne].
  - rewrite last_cons. destruct (last _) as [x|]; [done|]. unfold advance. by rewrite lookup_insert_eq.
  - destruct (last _); [done|]. unfold advance. by rewrite lookup_insert_ne.
Qed.

Lemma get_grows reg path w r w' : get_schema reg path w = (r, w') -> R w w'.
Proof using L. unfold get_schema. destruct (http_do _ w) as [ans w1] eqn:Ed. intros [= _ <-]. by eapply tp_http. Qed.

Lemma imports_grow reg n : forall refs into w r w', schema_imports reg n refs into w = (r, w') -> R w w'.
Proof using L.
  induction n as [|n IH]; intros refs into w r w' Hr; cbn [schema_imports] in Hr; [by injection Hr as _ <-|]. destruct refs as [|ref refs]; [by injection Hr as _ <-|].
  destruct (is_some _); [by eapply IH|]. destruct (get_schema reg _ w) as [s w1] eqn:Eg. apply get_grows in Eg. destruct s as [s|]; [|by injection Hr as _ <-].
  destruct (schema_imports reg n _ _ w1) as [o w2] eqn:Ei. apply IH in Ei. destruct o as [o|]; [|injection Hr as _ <-; by etransitivity].
  apply IH in Hr. etransitivity; [exact Eg|]. by etransitivity.
Qed.

Lemma new_decoder_grows reg id s w d w' : new_decoder reg fuel id s w = (d, w') -> R w w'.
Proof using L.
  unfold new_decoder. destruct (one_of _ _); [by intros [= _ <-]|]. destruct (String.eqb _ "JSON"); [by intros [= _ <-]|].
  destruct (String.eqb _ "PROTOBUF"); [|by intros [= _ <-]]. destruct (schema_imports _ _ _ _ w) as [files w2] eqn:Ei. apply imports_grow in Ei.
  by destruct files; intros [= _ <-].
Qed.

Lemma decode_record_grows reg id body st r st' : decodeRecord reg fuel id body st = (r, st') -> R (rd_world st) (rd_world st').
Proof using L.
  unfold decodeRecord, schema_decoder. destruct (rd_decoders st !! id); [by intros [= _ <-]|]. destruct (get_schema reg _ _) as [s w1] eqn:Eg. apply get_grows in Eg.
  destruct s as [s|]; [|by intros [= _ <-]]. destruct (new_decoder _ _ _ _ w1) as [d w2] eqn:En. apply new_decoder_grows in En.
  destruct d; intros [= _ <-]; by etransitivity.
Qed.

Lemma convert_grows key value keep want st r st' : convert_change conn fuel event key value keep want st = (r, st') -> R (rd_world st) (rd_world st').
Proof using L.
  unfold convert_change. destruct (String.eqb value ""); [by intros [= _ <-]|]. destruct (decode_change conn fuel key value st) as [o st1] eqn:Ed. intros [= _ <-].
  unfold decode_change in Ed. destruct (wireFormat value) as [[id body]|]; [|by injection Ed as _ <-]. destruct (db_reg conn) as [reg|]; [|by injection Ed as _ <-].
  destruct (decodeRecord reg fuel id body st) as [m st2] eqn:E1. apply decode_record_grows in E1. destruct m as [m|]; [|by injection Ed as _ <-].
  destruct (recordEnvelope _); [|by injection Ed as _ <-]. destruct (wireFormat key) as [[id2 body2]|]; [|by injection Ed as _ <-].
  destruct (decodeRecord reg fuel id2 body2 st2) as [km st3] eqn:E2. apply decode_record_grows in E2. injection Ed as _ <-. by etransitivity.
Qed.

Lemma read_records_grow records : forall pos st r st', read_records conn fuel event e records pos st = (r, st') -> R (rd_world st) (rd_world st').
Proof using L.
  induction records as [|x records IH]; intros pos st r st' Hr; cbn [read_records] in Hr; [by injection Hr as _ <-|].
  destruct (convert_change _ _ _ _ _ _ _ st) as [[ev|err] st1] eqn:Ec; apply convert_grows in Ec; [|by injection Hr as _ <-].
  destruct (read_records _ _ _ _ _ _ st1) as [rest st2] eqn:Er. apply IH in Er. injection Hr as _ <-. by etransitivity.
Qed.

Lemma read_records_told records : forall pos st pos' evs st', read_records conn fuel event e records pos st = (Ok (pos', evs), st') ->
  pos' = fold_left advance records pos /\ exists read, read.*1 = records /\ Forall told read /\ evs = omap snd read.
Proof using L.
  induction records as [|r records IH]; intros pos st pos' evs st' Hr; cbn [read_records] in Hr.
  - injection Hr as <- <- <-. split; [done|]. by exists [].
  - destruct (convert_change _ _ _ _ _ _ _ st) as [[ev|err] st1] eqn:Ec; [|done]. destruct (read_records _ _ _ _ _ _ st1) as [rest st2] eqn:Er.
    destruct rest as [[pos1 evs1]|]; [|done]. injection Hr as <- <- <-. destruct (IH _ _ _ _ _ Er) as (-> & read & Hf & Hrd & ->).
    split; [done|]. exists ((r, ev) :: read). split; [cbn; by rewrite Hf|]. split; [|by destruct ev].
    constructor; [by exists st, st1|done].
Qed.

Lemma tracks_poll first read pos c w f c' w' more : tracks first read pos w -> next c = pos -> kf_poll c w = (f, (c', w')) ->
  more.*1 = ft_records f -> Forall told more -> tracks first (read ++ more) (fold_left advance (ft_records f) pos) w' /\ next c' = fold_left advance (ft_records f) pos.
Proof using L.
  intros Ht Hn Hf Hm Hmt. apply tp_poll in Hf as [HR Hp]. apply (tracks_grows _ _ _ _ _ HR) in Ht as [Ht Hparts]. rewrite Hn in Hp. split; [split|].
  - by apply Forall_app.
  - intros p. specialize (Hp p). specialize (Hparts p). rewrite advanced, fmap_app, on_app, Hm. destruct (pos !! p) as [upto|] eqn:Ep.
    + destruct Hp as (_ & k & Hk). destruct Hparts as (from & Hfi & Hb & Hle & Hon & Hu). pose proof (tp_sorted (e := e) p w') as Hs.
      pose proof (batch_between upto k _ Hs) as Hbatch. rewrite <- Hk in Hbatch.
      assert (Hafter : match last (on p (ft_records f)) with Some r => Some (kr_Offset r + 1)%Z | None => Some upto end = Some (after upto (on p (ft_records f)))) by (unfold after; by destruct (last _)).
      rewrite Hafter. exists from.
      assert (Hup : (upto <= after upto (on p (ft_records f)))%Z).
      { unfold after. destruct (last _) as [r|] eqn:El; [|lia]. apply last_Some_elem_of in El. rewrite Hk in El. apply in_batch in El as [? _]. lia. }
      split_and!; [done|done|lia| |].
      * rewrite Hon, (between_joins from upto (after upto (on p (ft_records f))) _ Hs) by lia. by rewrite <- Hbatch.
      * unfold after. destruct (last _) as [r|] eqn:El; [|done]. right. exists r. split; [|done]. apply last_Some_elem_of in El. rewrite Hk in El.
        by apply in_batch in El as [_ ?].
    + destruct Hp as [Hnone _]. rewrite Hnone. cbn. rewrite app_nil_r. done.
  - apply map_eq. intros p. specialize (Hp p). rewrite advanced. destruct (pos !! p) as [off|] eqn:Ep.
    + destruct Hp as [-> _]. unfold after. by destruct (last _).
    + destruct Hp as [-> ->]. done.
Qed.

(** What a subscription has stored, and its place, agree with what was read. *)
Definition follows (first : kafka_position) (read : list (krecord * option Event)) (pos : kafka_position) (s : table_stream W D) : Prop :=
  stored (ts_sink s) = omap snd read /\ stored_position (place (ts_sink s)) = Ok pos /\ tracks first read pos (rd_world (ts_reading s)).
Definition keeps_up (s : table_stream W D) : Prop := exists first read pos, follows first read pos s.

Lemma follows_grows first read pos st s : R (rd_world (ts_reading s)) (rd_world st) -> follows first read pos s -> follows first read pos (mkTableStream st (ts_sink s)).
Proof using L. intros HR (Hs & Hp & Ht). split; [done|]. split; [done|]. by eapply tracks_grows. Qed.

Lemma stored_encode pos : stored_position (dz_encode pos) = Ok pos.
Proof using J. destruct (dz_position_encode pos) as [Hne Hp]. unfold stored_position. apply String.eqb_neq in Hne. by rewrite Hne, Hp. Qed.

Lemma in_world_follows first read pos w s : R (rd_world (ts_reading s)) w -> follows first read pos s -> follows first read pos (in_world w s).
Proof using L. apply (follows_grows first read pos (mkReading (rd_decoders (ts_reading s)) w) s). Qed.

(** A delivery that goes on stores; one that fails may have. *)
Lemma deliver_follows first read pos first' more pos' s st err d : follows first read pos s -> R (rd_world (ts_reading s)) (rd_world st) ->
  tracks first' (read ++ more) pos' (rd_world st) -> deliver (omap snd more) (dz_encode pos') (ts_sink s) = (err, d) ->
  match err with None => follows first' (read ++ more) pos' (mkTableStream st d) | Some _ => keeps_up (mkTableStream st d) end.
Proof using L S J.
  intros (Hs & Hp & Ht) HR Ht' Hd. apply S in Hd as [[Hst Hpl]|(Hne & Hst & Hpl)].
  - assert (Hf : follows first' (read ++ more) pos' (mkTableStream st d)).
    { split; [cbn; by rewrite Hst, Hs, omap_app|]. split; [cbn; rewrite Hpl; apply stored_encode|done]. }
    destruct err; [by exists first', (read ++ more), pos'|done].
  - destruct err; [|done]. exists first, read, pos. split; [cbn; by rewrite Hst|]. split; [cbn; by rewrite Hpl|]. by eapply tracks_grows.
Qed.

Lemma poll_round_follows first read pos c s err c' pos' s' : follows first read pos s -> next c = pos ->
  poll_round deliver conn fuel event e c pos s = (err, (c', pos', s')) ->
  match err with None => next c' = pos' /\ exists read', follows first read' pos' s' | Some _ => keeps_up s' end.
Proof using L S J.
  intros Hf Hn Hr. unfold poll_round in Hr. destruct (kf_poll c _) as [f [c1 w1]] eqn:Ep. pose proof (proj1 (tp_poll _ _ _ _ _ Ep)) as HR.
  pose proof (follows_grows _ _ _ (mkReading (rd_decoders (ts_reading s)) w1) s HR Hf) as Hf1.
  destruct (ft_ended f); [injection Hr as <- <- <- <-; by exists first, read, pos|]. destruct (ft_errors f) as [|[p er] ?]; [|injection Hr as <- <- <- <-; by exists first, read, pos].
  cbn [ts_reading ts_sink] in Hr. destruct (read_records _ _ _ _ _ _ _) as [r st] eqn:Er. pose proof (read_records_grow _ _ _ _ _ Er) as HR2. cbn [rd_world] in HR2.
  destruct r as [[pos1 evs]|er]; [|injection Hr as <- <- <- <-; exists first, read, pos; by apply (follows_grows _ _ _ st (mkTableStream (mkReading (rd_decoders (ts_reading s)) w1) (ts_sink s)))].
  destruct (read_records_told _ _ _ _ _ _ Er) as (-> & more & Hm & Hmt & ->). destruct Hf as (Hs & Hp & Ht).
  destruct (tracks_poll _ _ _ _ _ _ _ _ _ Ht Hn Ep Hm Hmt) as [Ht1 Hn1]. apply (tracks_grows _ _ _ _ _ HR2) in Ht1.
  destruct (ft_records f) as [|x rs] eqn:Erec.
  - injection Hr as <- <- <- <-. split; [done|]. exists read. destruct more; [|done]. rewrite app_nil_r in Ht1. by split_and!.
  - destruct (deliver _ _ _) as [er d] eqn:Ed. injection Hr as <- <- <- <-.
    pose proof (deliver_follows first read pos first more _ s st er d ltac:(by split_and!) ltac:(by etransitivity) Ht1 Ed) as Hd. destruct er; [done|]. split; [done|]. eauto.
Qed.

Lemma poll_rounds_keep n : forall first read pos c s err s', follows first read pos s -> next c = pos ->
  poll_rounds deliver conn fuel n event e c pos s = (err, s') -> keeps_up s'.
Proof using L S J.
  induction n as [|n IH]; intros first read pos c s err s' Hf Hn Hr; cbn [poll_rounds] in Hr; [injection Hr as <- <-; by exists first, read, pos|].
  destruct (poll_round _ _ _ _ _ _ _ _) as [er [[c1 pos1] s1]] eqn:E. pose proof (poll_round_follows _ _ _ _ _ _ _ _ _ Hf Hn E) as H1.
  destruct er; [injection Hr as <- <-; done|]. destruct H1 as (Hn1 & read1 & Hf1). by eapply IH.
Qed.

Lemma begin_at_tracks ls le w0 w1 w2 w3 (Hls : kf_start_offsets (te_Topic e) w0 = (Ok ls, w1)) (Hle : kf_end_offsets (te_Topic e) w2 = (Ok le, w3)) ends :
  (forall p o, (p, o) ∈ ends -> listed le !! p = Some o) -> forall first read pos fresh pos' fresh' w, tracks first read pos w ->
  begin_at e (listed ls) ends pos fresh = Ok (pos', fresh') ->
  exists first', tracks first' read pos' w /\ (fresh' = false -> pos' = pos /\ fresh = false).
Proof using.
  induction ends as [|[p o] ends IH]; intros Hin first read pos fresh pos' fresh' w Ht Hr; cbn [begin_at] in Hr.
  - injection Hr as <- <-. eauto.
  - assert (Hin' : forall q x, (q, x) ∈ ends -> listed le !! q = Some x) by (intros q x Hq; apply Hin; by right).
    destruct (pos !! p) as [off|] eqn:Ep; [destruct (_ <? _)%Z; [done|]; by eapply IH|].
    set (v := if String.eqb (te_Start e) "earliest" then default 0%Z (listed ls !! p) else o) in *.
    assert (Hb : begins p v).
    { unfold begins, v. destruct (String.eqb (te_Start e) "earliest"); [by exists w0, ls, w1|]. exists w2, le, w3. split; [done|]. by rewrite (Hin p o ltac:(left)). }
    assert (Ht' : tracks (<[p := v]> first) read (<[p := v]> pos) w).
    { destruct Ht as [Htold Hparts]. split; [done|]. intros q. specialize (Hparts q). destruct (decide (p = q)) as [<-|Hne].
      - rewrite !lookup_insert_eq. rewrite Ep in Hparts. destruct Hparts as [Hon _]. exists v. split_and!; [done|done|done| |by left].
        rewrite Hon. symmetry. apply filter_none. intros x _. lia.
      - rewrite !lookup_insert_ne by done. done. }
    destruct (IH Hin' _ _ _ _ _ _ _ Ht' Hr) as (first' & Hf & Hfresh). exists first'. split; [done|]. intros Hx. by destruct (Hfresh Hx).
Qed.

Lemma stream_keeps n s err s' : keeps_up s -> find_named event (dc_Events (db_cfg conn)) = Some e ->
  Stream_debezium deliver conn fuel n event (place (ts_sink s)) s = (err, s') -> keeps_up s'.
Proof using L S J.
  intros (first & read & pos & Hf) He Hr. unfold Stream_debezium in Hr. rewrite He in Hr. pose proof Hf as (_ & Hpos & _). rewrite Hpos in Hr.
  destruct (kf_client _) as [er w1] eqn:E1. apply tp_client in E1.
  pose proof (in_world_follows _ _ _ _ _ E1 Hf) as Hf1.
  destruct er; [injection Hr as <- <-; by exists first, read, pos|]. unfold list_offsets in Hr.
  destruct (kf_start_offsets _ w1) as [ls w2] eqn:E2. apply tp_start in E2 as R2.
  assert (E12 : R (rd_world (ts_reading s)) w2) by (by etransitivity). pose proof (in_world_follows _ _ _ _ _ E12 Hf) as Hf2.
  destruct ls as [ls|er]; [|injection Hr as <- <-; by exists first, read, pos]. destruct (kf_end_offsets _ w2) as [le w3] eqn:E3. apply tp_end in E3 as R3.
  assert (E13 : R (rd_world (ts_reading s)) w3) by (by etransitivity). pose proof (in_world_follows _ _ _ _ _ E13 Hf) as Hf3.
  destruct le as [le|er]; [|injection Hr as <- <-; by exists first, read, pos].
  destruct (listing_error _); [injection Hr as <- <-; by exists first, read, pos|]. destruct (bool_decide _); [injection Hr as <- <-; by exists first, read, pos|].
  destruct (begin_at _ _ _ _ _) as [[pos1 fresh]|er] eqn:Eb; [|injection Hr as <- <-; by exists first, read, pos].
  assert (Hmap : forall p o, (p, o) ∈ map_to_list (listed le) -> listed le !! p = Some o) by (intros p o Ho; by apply elem_of_map_to_list in Ho).
  destruct (begin_at_tracks ls le w1 w2 w2 w3 E2 E3 _ Hmap _ _ _ _ _ _ _ (proj2 (proj2 Hf3)) Eb) as (first1 & Ht1 & Hfresh).
  assert (Hconsume : forall t er t', follows first1 read pos1 t -> consume_from deliver conn fuel n event e pos1 t = (er, t') -> keeps_up t').
  { intros t er t' Hft Hc. unfold consume_from in Hc. destruct (kf_consumer _ _ _) as [c w4] eqn:E4. apply tp_consumer in E4 as [R4 Hn].
    pose proof (in_world_follows _ _ _ _ _ R4 Hft) as Hf4.
    destruct c as [c|er4]; [|injection Hc as <- <-; by exists first1, read, pos1]. by apply (poll_rounds_keep _ _ _ _ _ _ _ _ Hf4 (Hn c eq_refl) Hc). }
  destruct fresh.
  - destruct (deliver [] _ _) as [er d] eqn:Ed. rewrite <- (app_nil_r read) in Ht1.
    pose proof (deliver_follows first read pos first1 [] pos1 _ (mkReading (rd_decoders (ts_reading s)) w3) er d Hf3 ltac:(reflexivity) Ht1 Ed) as Hd.
    rewrite app_nil_r in Hd. destruct er; [injection Hr as <- <-; exact Hd|]. by eapply Hconsume.
  - destruct (Hfresh eq_refl) as [-> _]. eapply Hconsume; [|exact Hr]. destruct Hf3 as (? & ? & ?). by split_and!.
Qed.

(** What a worker, its successors and everyone else do: streams from the place that is
    stored, each with decoders of its own and as many rounds as it lasts, while the topic
    grows. *)
Inductive consumed : table_stream W D -> Prop :=
| consumed_start s : stored (ts_sink s) = [] -> place (ts_sink s) = "" -> consumed s
| consumed_others s st : consumed s -> R (rd_world (ts_reading s)) (rd_world st) -> consumed (mkTableStream st (ts_sink s))
| consumed_stream s n err s' : consumed s -> Stream_debezium deliver conn fuel n event (place (ts_sink s)) s = (err, s') -> consumed s'.

Lemma consumed_keeps s : find_named event (dc_Events (db_cfg conn)) = Some e -> consumed s -> keeps_up s.
Proof using L S J.
  intros He Hc. induction Hc as [s Hs Hp|s st _ (first & read & pos & Hf) HR|s n err s' _ IH Hr].
  - exists ∅, [], ∅. split; [done|]. split; [by rewrite Hp|]. apply tracks_none.
  - exists first, read, pos. by apply follows_grows.
  - by eapply stream_keeps.
Qed.
End consumed.


(** ** A topic of two partitions, and a database that fails twice *)

Module Orders.
Definition change (p off : Z) (v : string) : krecord := mkKRecord p off "" v.
Definition partition (p : Z) (t : nat) : list krecord :=
  if (p =? 0)%Z then firstn t [change 0 5 "c5"; change 0 6 "u6"; change 0 8 ""; change 0 9 "d9"]
  else if (p =? 1)%Z then firstn (t - 1) [change 1 0 "r0"; change 1 1 "c1"] else [].

(** A value is the operation, and what the row and the place in the log are. *)
Definition first_letter (s : string) : string := fst (str_cut 1 s).
Definition raw_of (v : string) : raw_envelope :=
  mkRawEnvelope (first_letter v) (Some (JObj [("id", JStr v)])) (Some (JObj [("id", JStr v)])) (Some [("connector", JStr "mysql"); ("pos", JStr v)]) "".
Fixpoint bits (p : positive) : string := match p with xH => "1" | xO p => String "a" (bits p) | xI p => String "b" (bits p) end.
Fixpoint of_bits (s : string) : option positive :=
  match s with
  | String c "" => Some xH
  | String c s => if Ascii.eqb c "a" then xO <$> of_bits s else xI <$> of_bits s
  | "" => None
  end.
Lemma bits_round p : bits p <> "" /\ of_bits (bits p) = Some p.
Proof. induction p as [p [Hn IH]|p [Hn IH]|]; cbn; (split; [done|]); [| |done]; destruct (bits p) as [|c s]; try done; by rewrite IH. Qed.

#[local] Instance texts : DebeziumText := {|
  dz_decode _ := Some (JObj []); dz_unmarshal _ := None; dz_schema _ := None; dz_raw _ := None; dz_raw_text v := Some (raw_of v);
  dz_marshal v := match v with JStr s => s | _ => "" end; dz_sprint _ := ""; dz_host _ := None; dz_hostname s := s; dz_loopback _ := false;
  dz_login _ := None; dz_registry_login _ := None; dz_registered _ := None; dz_avro _ _ := Ok (fun _ => Ok JNull);
  dz_json_schema _ _ := Ok (fun _ => Ok JNull); dz_proto _ _ _ := Ok (fun _ => Ok JNull);
  dz_encode pos := bits (encode pos); dz_position s := match of_bits s with Some p => decode p | None => None end |}.
#[local] Instance positions : PositionText.
Proof. intros pos. destruct (bits_round (encode pos)) as [Hn Hb]. split; [done|]. cbn. by rewrite Hb, decode_encode. Qed.

#[local] Instance hashes : AuthText := {| at_sha256 s := s; at_hmac k m := k +++ m; at_url _ := None; at_client _ := None; at_oauth1 _ := None;
  at_login _ := None; at_token _ := None; at_timeout _ := 0%float; at_state _ := None; at_marshal_state _ := "" |}.
#[local] Instance no_registry : Http nat := {| http_do _ t := (Answer 404 ∅ [] "", t); http_now t := (0%Z, t); http_random _ t := ("", t) |}.

Definition polled (p : Z) (c : kafka_position) (t : nat) : list krecord :=
  match c !! p with Some off => firstn 2 (from_offset off (partition p t)) | None => [] end.
Definition poll_both (c : kafka_position) (t : nat) : list krecord := polled 0 c t ++ polled 1 c t.
#[local] Instance broker : Kafka nat kafka_position := {|
  kf_client t := (None, t);
  kf_start_offsets _ t := (Ok [(0, Ok 5); (1, Ok 0)]%Z, t);
  kf_end_offsets _ t := (Ok [(0, Ok 5); (1, Ok 0)]%Z, t);
  kf_consumer _ pos t := (Ok pos, t);
  kf_poll c t := (mkFetched None [] (poll_both c (S t)), (fold_left advance (poll_both c (S t)) c, S t)) |}.

Definition table : TableEvent := mkTableEvent "erp.dbo.Orders" [] [] "earliest".
Definition conn : DebeziumConn := mkDebezium (mkDebeziumConfig ["localhost:9092"] false "" None [("changed", table)]) None None.

Lemma of_partition p t r : r ∈ partition p t -> kr_Partition r = p.
Proof.
  unfold partition. destruct (Z.eqb_spec p 0) as [->|]; [|destruct (Z.eqb_spec p 1) as [->|]; [|intros Hr; by apply elem_of_nil in Hr]].
  all: intros Hr; match type of Hr with _ ∈ take ?k ?l => assert (Hl : r ∈ l) by (rewrite <- (take_drop k l), elem_of_app; by left) end; set_solver.
Qed.

Lemma on_polled p q c t : on q (polled p c t) = if decide (p = q) then polled p c t else [].
Proof.
  unfold polled. destruct (c !! p) as [off|]; [|by destruct (decide _)]. destruct (decide (p = q)) as [<-|Hne].
  - apply filter_all. intros r Hr. apply in_batch in Hr as [_ Hr]. by apply of_partition in Hr.
  - apply filter_none. intros r Hr. apply in_batch in Hr as [_ Hr]. apply of_partition in Hr as ->. done.
Qed.

#[local] Instance topic : TopicLaws table le partition (fun c => c).
Proof.
  split; [split; [intros t; done|intros a b c; apply Nat.le_trans]| | |by intros t r t' [= _ <-]|by intros t r t' [= _ <-]|by intros t r t' [= _ <-]|by intros q t r t' [= _ <-]| |].
  - intros p t t' Hle. unfold partition. destruct (p =? 0)%Z; [|destruct (p =? 1)%Z; [|done]].
    all: match goal with |- take ?a ?l `prefix_of` take ?b _ => rewrite <- (take_drop a (take b l)), take_take; replace (min a b) with a by lia; apply prefix_app_r; done end.
  - intros p t. unfold partition. destruct (p =? 0)%Z; [|destruct (p =? 1)%Z; [|constructor]].
    + destruct t as [|[|[|[|t]]]]; cbn; repeat constructor; rewrite ?take_nil; repeat constructor; unfold earlier; cbn; lia.
    + destruct (t - 1) as [|[|u]]; cbn; rewrite ?take_nil; repeat constructor; unfold earlier; cbn; lia.
  - intros pos t r t' [= <- <-]. split; [done|]. by intros c [= <-].
  - intros c t f c' t' [= <- <- <-]. split; [lia|]. intros p. cbn [ft_records]. rewrite advanced. unfold poll_both. rewrite on_app, !on_polled.
    destruct (decide (0 = p)%Z) as [<-|H0]; [|destruct (decide (1 = p)%Z) as [<-|H1]]; rewrite ?decide_False, ?app_nil_r by done; cbn [app].
    1, 2: unfold polled; destruct (c !! _) as [off|]; [|done]; unfold after; split; [by destruct (last _)|by exists 2].
    destruct (c !! p); [|done]. unfold after. cbn. split; [done|]. by exists 0.
Qed.

(** What the sink does before it works: store and fail, or only fail. *)
Definition deliver (evs : list Event) (text : string) (d : list Event * string * list bool) : option goerr * (list Event * string * list bool) :=
  let '(l, p, fates) := d in
  match fates with
  | [] => (None, (l ++ evs, text, []))
  | b :: fates => (Some (Sentinel "connection reset"), if b then (l ++ evs, text, fates) else (l, p, fates))
  end.
Definition stored (d : list Event * string * list bool) : list Event := fst (fst d).
Definition place (d : list Event * string * list bool) : string := snd (fst d).
#[local] Instance sink : PositionSink deliver stored place.
Proof. intros evs text [[l p] [|[] fates]] e d'; cbn; intros [= <- <-]; auto. Qed.

Definition start : table_stream nat (list Event * string * list bool) := mkTableStream (mkReading ∅ 1) ([], "", [false; true; false; true]).
Definition next_run (s : table_stream nat (list Event * string * list bool)) := Stream_debezium deliver conn 5 3 "changed" (place (ts_sink s)) s.
Definition runs := snd (next_run (snd (next_run (snd (next_run (snd (next_run (snd (next_run start))))))))).

Lemma runs_consumed : consumed deliver conn 5 "changed" (R := le) (stored := stored) (place := place) runs.
Proof.
  assert (Hstep : forall s, consumed deliver conn 5 "changed" (R := le) (stored := stored) (place := place) s -> consumed deliver conn 5 "changed" (R := le) (stored := stored) (place := place) (snd (next_run s))).
  { intros s Hs. unfold next_run. destruct (Stream_debezium _ _ _ _ _ _ s) as [er s'] eqn:E. by eapply consumed_stream. }
  unfold runs. do 5 apply Hstep. by apply consumed_start.
Qed.

Definition id (v : string) : string := hex_encode (fst (str_cut 16 ("mysql" +++ nul +++ first_letter v +++ nul +++ nul +++ nul +++ v +++ nul +++ nul +++ nul +++ nul +++ nul))).

End Orders.

(** ** Decimals *)

(** A decimal number as it is written: its digits as an integer, and how many are behind
    the point. *)
Fixpoint read_digits (s : string) (acc : Z) : option Z :=
  match s with
  | "" => Some acc
  | String c s => if is_digit c then read_digits s (acc * 10 + digit_val c)%Z else None
  end.
Definition read_number (s : string) : option (Z * nat) :=
  let '(sign, r) := match s with String "-" r => ((-1)%Z, r) | _ => (1%Z, s) end in
  match cut_first "." r with
  | Some (whole, part) => if String.eqb whole "" then None else match read_digits (whole +++ part) 0 with Some n => Some ((sign * n)%Z, String.length part) | None => None end
  | None => if String.eqb r "" then None else match read_digits r 0 with Some n => Some ((sign * n)%Z, 0) | None => None end
  end.

Lemma read_digits_app s t : forall acc, read_digits (s +++ t) acc = match read_digits s acc with Some n => read_digits t n | None => None end.
Proof. induction s as [|c s IH]; intros acc; [done|]. cbn. destruct (is_digit c); [apply IH|done]. Qed.

Lemma read_zeros n : forall acc, read_digits (zeros n) acc = Some (acc * 10 ^ Z.of_nat n)%Z.
Proof.
  induction n as [|n IH]; intros acc; [cbn; f_equal; lia|]. cbn [zeros read_digits]. change (is_digit "0") with true. cbn match. rewrite IH.
  change (digit_val "0") with 0%Z. rewrite Nat2Z.inj_succ, Z.pow_succ_r by lia. f_equal. ring.
Qed.

(** Unsigned decimal texts, as the Standard Library reads them. *)
Fixpoint uint_value (u : Decimal.uint) (acc : Z) : Z :=
  match u with
  | Decimal.Nil => acc
  | Decimal.D0 u => uint_value u (acc * 10) | Decimal.D1 u => uint_value u (acc * 10 + 1) | Decimal.D2 u => uint_value u (acc * 10 + 2)
  | Decimal.D3 u => uint_value u (acc * 10 + 3) | Decimal.D4 u => uint_value u (acc * 10 + 4) | Decimal.D5 u => uint_value u (acc * 10 + 5)
  | Decimal.D6 u => uint_value u (acc * 10 + 6) | Decimal.D7 u => uint_value u (acc * 10 + 7) | Decimal.D8 u => uint_value u (acc * 10 + 8)
  | Decimal.D9 u => uint_value u (acc * 10 + 9)
  end%Z.

Lemma uint_acc u : forall p, Zpos (Pos.of_uint_acc u p) = uint_value u (Zpos p).
Proof. induction u as [|u IH|u IH|u IH|u IH|u IH|u IH|u IH|u IH|u IH|u IH]; intros p; [done|..]; cbn [Pos.of_uint_acc uint_value]; rewrite IH; f_equal; lia. Qed.

Lemma uint_of u : Z.of_N (Pos.of_uint u) = uint_value u 0.
Proof. induction u as [|u IH|u IH|u IH|u IH|u IH|u IH|u IH|u IH|u IH|u IH]; [done|exact IH|..]; cbn [Pos.of_uint Z.of_N uint_value]; apply uint_acc. Qed.

Lemma read_uint u : forall acc, read_digits (NilEmpty.string_of_uint u) acc = Some (uint_value u acc).
Proof.
  induction u as [|u IH|u IH|u IH|u IH|u IH|u IH|u IH|u IH|u IH|u IH]; intros acc; [done|..]; cbn [NilEmpty.string_of_uint read_digits];
  match goal with |- context [digit_val ?c] => let v := eval vm_compute in (digit_val c) in change (digit_val c) with v end; rewrite IH; cbn [uint_value]; do 2 f_equal; lia.
Qed.

Lemma read_itoa n : (0 <= n)%Z -> read_digits (itoa n) 0 = Some n.
Proof.
  intros Hn. destruct n as [|p|p]; [done| |lia]. cbn [itoa]. rewrite read_uint. f_equal. rewrite <- uint_of.
  change (Pos.of_uint (Pos.to_uint p)) with (N.of_uint (N.to_uint (Npos p))). by rewrite DecimalN.Unsigned.of_to.
Qed.

Lemma zeros_digits n : str_all is_digit (zeros n) = true.
Proof. induction n as [|n IH]; [done|exact IH]. Qed.

Lemma zeros_length n : String.length (zeros n) = n.
Proof. induction n as [|n IH]; [done|]. cbn. by rewrite IH. Qed.

(** A number that is not negative, with its point. *)
Lemma place_point_reads n scale : (0 <= n)%Z ->
  exists c rest, place_point (itoa n) scale = String c rest /\ is_digit c = true /\
    forall sign, match cut_first "." (place_point (itoa n) scale) with
      | Some (whole, part) => if String.eqb whole "" then None else match read_digits (whole +++ part) 0 with Some m => Some ((sign * m)%Z, String.length part) | None => None end
      | None => match read_digits (place_point (itoa n) scale) 0 with Some m => Some ((sign * m)%Z, 0) | None => None end
      end = Some ((sign * (n * 10 ^ Z.max 0 (- scale)))%Z, Z.to_nat scale).
Proof.
  intros Hn. destruct (itoa_literal n Hn) as (Hd & Hne & _). unfold place_point. destruct (Z.ltb_spec 0 scale) as [Hs|Hs].
  - set (k := Z.to_nat scale). set (t := zeros (k + 1 - String.length (itoa n)) +++ itoa n).
    assert (Ht : str_all is_digit t = true) by (unfold t; rewrite str_all_app, zeros_digits; exact Hd).
    assert (Hl : k < String.length t) by (unfold t; rewrite str_length_app, zeros_length; lia).
    destruct (str_cut (String.length t - k) t) as [whole part] eqn:Ec. apply str_cut_spec in Ec as [Et Hw]; [|lia].
    assert (Hk : String.length part = k) by (pose proof (f_equal String.length Et) as El; rewrite str_length_app in El; lia).
    rewrite Et, str_all_app in Ht. apply andb_prop in Ht as [Hwd Hpd]. destruct whole as [|c whole]; [cbn in Hw; lia|].
    exists c, (whole +++ "." +++ part). split; [done|]. split; [by apply andb_prop in Hwd as [? _]|]. intros sign.
    assert (Hcut : cut_first "." (String c whole +++ "." +++ part) = Some (String c whole, part)).
    { apply cut_first_spec. split; [done|]. by apply (str_all_not_contains _ _ _ Hwd). }
    rewrite Hcut. cbn match. rewrite <- Et. unfold t. rewrite read_digits_app, read_zeros, Z.mul_0_l, read_itoa by done. rewrite Hk. do 2 f_equal. rewrite Z.max_l by lia. lia.
  - assert (Hall : str_all is_digit (itoa n +++ zeros (Z.to_nat (- scale))) = true) by (by rewrite str_all_app, Hd, zeros_digits).
    assert (Hread : read_digits (itoa n +++ zeros (Z.to_nat (- scale))) 0 = Some (n * 10 ^ Z.max 0 (- scale))%Z).
    { rewrite read_digits_app, read_itoa by done. rewrite read_zeros. do 3 f_equal. lia. }
    assert (Hcut : cut_first "." (itoa n +++ zeros (Z.to_nat (- scale))) = None) by (apply cut_first_none; by apply (str_all_not_contains _ _ _ Hall)).
    destruct (itoa n) as [|c rest] eqn:Ei; [done|]. exists c, (rest +++ zeros (Z.to_nat (- scale))). split; [done|].
    split; [by apply andb_prop in Hd as [? _]|]. intros sign. rewrite Hcut, Hread. do 2 f_equal. lia.
Qed.

Lemma unsigned_bytes_bounds s : forall n, (0 <= n)%Z ->
  (n * 2 ^ (8 * Z.of_nat (String.length s)) <= unsigned_bytes s n < (n + 1) * 2 ^ (8 * Z.of_nat (String.length s)))%Z.
Proof.
  induction s as [|c s IH]; intros n Hn; cbn [unsigned_bytes String.length]; [lia|].
  assert (Hc : (0 <= Z.of_N (N_of_ascii c) < 256)%Z) by (pose proof (N_ascii_bounded c); lia).
  specialize (IH (n * 256 + Z.of_N (N_of_ascii c))%Z ltac:(lia)). rewrite Nat2Z.inj_succ.
  replace (8 * Z.succ (Z.of_nat (String.length s)))%Z with (8 + 8 * Z.of_nat (String.length s))%Z by lia. rewrite Z.pow_add_r by lia.
  change (2 ^ 8)%Z with 256%Z. set (w := (2 ^ (8 * Z.of_nat (String.length s)))%Z) in *. assert (0 < w)%Z by (apply Z.pow_pos_nonneg; lia). nia.
Qed.

(** The value is that of the bytes in two's complement. *)
Lemma signed_bytes_range c s : let w := (2 ^ (8 * Z.of_nat (String.length (String c s))))%Z in
  (- w <= 2 * signed_bytes (String c s) < w)%Z /\ (signed_bytes (String c s) mod w = unsigned_bytes (String c s) 0)%Z.
Proof.
  intros w. pose proof (unsigned_bytes_bounds (String c s) 0 ltac:(lia)) as Hb. fold w in Hb.
  assert (Hc : (0 <= Z.of_N (N_of_ascii c) < 256)%Z) by (pose proof (N_ascii_bounded c); lia).
  pose proof (unsigned_bytes_bounds s (Z.of_N (N_of_ascii c)) ltac:(lia)) as Hs.
  assert (Hw : w = (256 * 2 ^ (8 * Z.of_nat (String.length s)))%Z).
  { unfold w. cbn [String.length]. rewrite Nat2Z.inj_succ. replace (8 * Z.succ (Z.of_nat (String.length s)))%Z with (8 + 8 * Z.of_nat (String.length s))%Z by lia. by rewrite Z.pow_add_r by lia. }
  set (v := (2 ^ (8 * Z.of_nat (String.length s)))%Z) in *. assert (0 < v)%Z by (apply Z.pow_pos_nonneg; lia).
  change (unsigned_bytes (String c s) 0) with (unsigned_bytes s (0 * 256 + Z.of_N (N_of_ascii c))) in *. rewrite Z.add_0_l in *.
  assert (Hbit : Z.testbit (Z.of_N (N_of_ascii c)) 7 = (128 <=? Z.of_N (N_of_ascii c))%Z).
  { rewrite Z.testbit_odd, Z.shiftr_div_pow2 by lia. change (2 ^ 7)%Z with 128%Z. set (x := Z.of_N (N_of_ascii c)) in *.
    destruct (Z.leb_spec 128 x).
    - replace (x / 128)%Z with 1%Z; [done|]. apply (Z.div_unique x 128 1 (x - 128)); lia.
    - by rewrite Z.div_small by lia. }
  unfold signed_bytes. fold w. change (unsigned_bytes (String c s) 0) with (unsigned_bytes s (0 * 256 + Z.of_N (N_of_ascii c))). rewrite Z.add_0_l, Hbit.
  destruct (Z.leb_spec 128 (Z.of_N (N_of_ascii c))); (split; [nia|]).
  - rewrite <- (Z.mod_small (unsigned_bytes s (Z.of_N (N_of_ascii c))) w) at 2 by nia. replace (unsigned_bytes s (Z.of_N (N_of_ascii c)) - w)%Z with (unsigned_bytes s (Z.of_N (N_of_ascii c)) + (-1) * w)%Z by lia.
    by rewrite Z.mod_add by lia.
  - apply Z.mod_small. nia.
Qed.

(** Decimals are exact. The text that a decimal's bytes and scale are turned into reads
    back as their value: the bytes in two's complement, of which the scale's last digits
    are behind the point, or are followed by as many zeros when it is negative; and that
    value is the one in range that the bytes stand for, whatever their number. *)
Theorem decimals_are_exact b64 b scale : base64_decode b64 = Some b ->
  exists text, decimal b64 scale = Ok (JNum text) /\ read_number text = Some ((signed_bytes b * 10 ^ Z.max 0 (- scale))%Z, Z.to_nat scale) /\
    forall c s, b = String c s -> let w := (2 ^ (8 * Z.of_nat (String.length b)))%Z in
      (- w <= 2 * signed_bytes b < w)%Z /\ (signed_bytes b mod w = unsigned_bytes b 0)%Z.
Proof.
  intros Hb. unfold decimal. rewrite Hb. eexists. split; [reflexivity|]. split; [|intros c s ->; apply signed_bytes_range].
  destruct (place_point_reads (Z.abs (signed_bytes b)) scale ltac:(lia)) as (c & rest & Et & Hc & Hr). unfold read_number.
  destruct (Z.ltb_spec (signed_bytes b) 0) as [Hn|Hn].
  - cbn [String.append]. rewrite Et in *. specialize (Hr (-1)%Z). cbn match. destruct (cut_first "." (String c rest)) as [[whole part]|]; rewrite Hr; do 2 f_equal; lia.
  - cbn [String.append]. rewrite Et in *. specialize (Hr 1%Z).
    assert (Hm : c <> "-"%char) by (intros ->; done).
    assert (Hsign : (match String c rest with String "-" r => ((-1)%Z, r) | _ => (1%Z, String c rest) end) = (1%Z, String c rest)).
    { destruct c as [[] [] [] [] [] [] [] []]; try done. }
    rewrite Hsign. destruct (cut_first "." (String c rest)) as [[whole part]|]; rewrite Hr; do 2 f_equal; lia.
Qed.

Lemma decimals_are_exact_witness : exists text, decimal "+go=" 2 = Ok (JNum text) /\ read_number text = Some ((-1526)%Z, 2).
Proof.
  destruct (decimals_are_exact "+go=" (bytes [250; 10]%N) 2) as (text & Hd & Hr & _); [reflexivity|]. exists text. split; [exact Hd|exact Hr].
Defined.

(** ** The identity of a change *)

Section identity.
Context `{V : DebeziumText} `{A : AuthText}.

(** The fields of a source that say which change it is. *)
Definition identity_fields (source : list (string * json)) : list string :=
  "connector" :: default [] (find_named (source_connector source) positionFields) ++ ["db"; "schema"; "table"; "collection"].

Lemma join_empty l : forall x, join "" (x :: l) = x +++ join "" l.
Proof using. intros x. destruct l; cbn; [by rewrite str_app_nil_r|done]. Qed.

Lemma nul_cut a b r r' : contains_byte "000" a = false -> contains_byte "000" b = false -> a +++ nul +++ r = b +++ nul +++ r' -> a = b /\ r = r'.
Proof using.
  intros Ha Hb He. change (a +++ String "000" r = b +++ String "000" r') in He.
  assert (H1 : cut_first "000" (a +++ String "000" r) = Some (a, r)) by (by apply cut_first_spec).
  assert (H2 : cut_first "000" (b +++ String "000" r') = Some (b, r')) by (by apply cut_first_spec). rewrite He in H1. rewrite H1 in H2. by injection H2 as -> ->.
Qed.

Lemma nul_cuts {X} (f g : X -> string) l : (forall x, contains_byte "000" (f x) = false) -> (forall x, contains_byte "000" (g x) = false) ->
  forall r r', join "" (map (fun x => f x +++ nul) l) +++ r = join "" (map (fun x => g x +++ nul) l) +++ r' -> map f l = map g l /\ r = r'.
Proof using.
  intros Hf Hg. induction l as [|x l IH]; intros r r' He; [by split|]. cbn [map] in *. rewrite !join_empty, !str_app_assoc in He.
  apply nul_cut in He as [-> He]; [|done|done]. by apply IH in He as [-> ->].
Qed.
End identity.


(** ** A resent change, keys, and partitions *)

Module Resent.
#[local] Instance log_texts : DebeziumText := {|
  dz_decode _ := None; dz_unmarshal s := match atoi s with Some n => Some (JFloat (float_of_Z n)) | None => None end; dz_schema _ := None; dz_raw _ := None; dz_raw_text _ := None;
  dz_marshal v := match v with JStr s => if contains_byte "000" s then "" else s | JNum n => if contains_byte "000" n then "" else n | JFloat x => if contains_byte "000" (itoa (float_trunc x)) then "" else itoa (float_trunc x) | _ => "" end;
  dz_sprint _ := ""; dz_host _ := None; dz_hostname s := s; dz_loopback _ := false;
  dz_login _ := None; dz_registry_login _ := None; dz_registered _ := None; dz_avro _ _ := Ok (fun _ => Ok JNull);
  dz_json_schema _ _ := Ok (fun _ => Ok JNull); dz_proto _ _ _ := Ok (fun _ => Ok JNull); dz_encode _ := ""; dz_position _ := None |}.
#[local] Instance log_hashes : AuthText := Orders.hashes.
Definition sent (pos ts : string) : change_envelope := mkEnvelope "c" None None [("connector", JStr "mysql"); ("pos", JStr pos); ("ts_ms", JStr ts)] 0.


(** A key beyond 2^53 is rounded when it is written by the JSON converter, and not when it
    is read with its schema. *)
Lemma json_keys_are_rounded :
  canonicalKey "9007199254740993" = "9007199254740992" /\ dz_marshal (JNum "9007199254740993") = "9007199254740993".
Proof. split; vm_compute; reflexivity. Qed.
End Resent.

(** A partition that is added to the topic while a subscription runs is found when it is
    opened again, and begins at its end: what was written to it before is passed over. *)
Module Added.
#[local] Instance added_texts : DebeziumText := Orders.texts.
#[local] Instance added_hashes : AuthText := Orders.hashes.
#[local] Instance added_registry : Http nat := Orders.no_registry.
Definition added (p : Z) (t : nat) : list krecord :=
  if (p =? 0)%Z then firstn (t - 1) [Orders.change 0 0 "c5"] else if (p =? 1)%Z then firstn (t - 1) [Orders.change 1 0 "c7"] else [].
Definition read_of (p : Z) (c : kafka_position) (t : nat) : list krecord :=
  match c !! p with Some off => from_offset off (added p t) | None => [] end.
Definition next_offsets (t : nat) : list (Z * result Z) :=
  let ends := fun p => Z.of_nat (List.length (added p t)) in (0%Z, Ok (ends 0%Z)) :: match t with O | S O => [] | _ => [(1%Z, Ok (ends 1%Z))] end.
#[local] Instance growing : Kafka nat kafka_position := {|
  kf_client t := (None, t);
  kf_start_offsets _ t := (Ok (map (fun po => (fst po, Ok 0%Z)) (next_offsets t)), t);
  kf_end_offsets _ t := (Ok (next_offsets t), t);
  kf_consumer _ pos t := (Ok pos, t);
  kf_poll c t := let l := read_of 0 c (S t) ++ read_of 1 c (S t) in (mkFetched None [] l, (fold_left advance l c, S t)) |}.

Definition latest : DebeziumConn := mkDebezium (mkDebeziumConfig ["localhost:9092"] false "" None [("changed", mkTableEvent "erp.dbo.Orders" [] [] "")]) None None.
Definition opened : table_stream nat (list Event * string * list bool) := mkTableStream (mkReading ∅ 1) ([], "", []).
Definition again (s : table_stream nat (list Event * string * list bool)) := snd (Stream_debezium Orders.deliver latest 5 3 "changed" (Orders.place (ts_sink s)) s).

Lemma added_partition_passed_over :
  added 1 1 = [] /\ added 1 2 = [Orders.change 1 0 "c7"] /\
  map sev_ID (Orders.stored (ts_sink (again (again opened)))) = [Orders.id "c5"] /\
  (match stored_position (Orders.place (ts_sink (again (again opened)))) with Ok pos => pos !! 1%Z | Err _ => None end) = Some 1%Z.
Proof. repeat split; vm_compute; reflexivity. Qed.
End Added.
