(* ===== verification/Appliance.v ===== *)
(** The appliance: [src/pkg/appliance/supervisor.go], with the restarts of
    [process.go]. Files of the watched directory, worker processes and the clock are outside;
    the supervisor's own copies of specs are part of its state. Its log is left out. *)

From S2P Require Import Turgon Prelude GoStr GoText GoErr GoTime Regex RuntimeSpec Compiler Signing.
From Stdlib Require Import Ascii String.

(** ** Supervisors *)

(** [Supervisor]: its settings. *)
Record Appliance `{Crypto} := mkAppliance {
  ap_StateDir : string;
  ap_TrustedKeys : list PublicKey;
  ap_HealthBase : Z;
  ap_ReadyTimeout : Z;
  ap_MinBackoff : Z;
  ap_MaxBackoff : Z
}.

(** [proc]: a version of a spec's worker; the handle is the process's. *)
Record proc := mkProc {
  pr_name : string;
  pr_digest : string;
  pr_level : string;
  pr_specPath : string;
  pr_workflows : list string;
  pr_port : Z;
  pr_started : Z;
  pr_handle : nat
}.

(** [unit]. *)
Record unit_ := mkUnit {
  un_current : option proc;
  un_next : option proc;
  un_failed : string;
  un_failedReason : string;
  un_invalid : option goerr;
  un_fileDigest : string
}.
Definition no_unit : unit_ := mkUnit None None "" "" None "".

(** [procInfo]: a worker whose process does not run has no pid, and zero stands for it. *)
Record procInfo := mkInfo { in_pid : Z; in_restarts : Z; in_since : option string; in_lastErr : string }.

(** The host: entries of the directory with whether they are directories, files, the
    answer of a worker's readiness endpoint, what is known of its process, and the clock. *)
Class Host (W : Type) := {
  hs_dir : W -> result (list (string * bool)) * W;
  hs_read : string -> W -> result string * W;
  hs_write : string -> W -> option goerr * W;
  hs_remove : string -> W -> bool * W;
  hs_start : string -> Z -> W -> nat * W;
  hs_stop : nat -> W -> W;
  hs_ready : nat -> W -> bool * W;
  hs_info : nat -> W -> procInfo * W;
  hs_now : W -> Z * W
}.

(** [Status]. *)
Record Status := mkStatus {
  st_Name : string;
  st_State : string;
  st_Digest : string;
  st_Level : string;
  st_Workflows : list string;
  st_PID : Z;
  st_Restarts : Z;
  st_Since : option string;
  st_HealthURL : string;
  st_Pending : string;
  st_Refused : option goerr;
  st_FailedDigest : string;
  st_FailedReason : string;
  st_LastError : string
}.
Definition with_state (state : string) (st : Status) : Status :=
  mkStatus (st_Name st) state (st_Digest st) (st_Level st) (st_Workflows st) (st_PID st) (st_Restarts st) (st_Since st)
    (st_HealthURL st) (st_Pending st) (st_Refused st) (st_FailedDigest st) (st_FailedReason st) (st_LastError st).
Definition or_else {A} (x y : option A) : option A := match x with Some _ => x | None => y end.

(** What a supervisor did to its workers, the last first. *)
Inductive act := Started (p : proc) | Stopped (p : proc) | FoundReady (p : proc).

Record supervisor (W : Type) := mkSupervisor { sv_units : gmap string unit_; sv_copies : gmap string string; sv_acts : list act; sv_world : W }.
Arguments mkSupervisor {_}. Arguments sv_units {_}. Arguments sv_copies {_}. Arguments sv_acts {_}. Arguments sv_world {_}.

(** [nameRE]. *)
Definition name_end (c : ascii) : bool := byte_in "a" "z" c || is_digit c.
Definition name_byte (c : ascii) : bool := name_end c || Ascii.eqb c "-".
Definition nameRE (s : string) : bool :=
  fullmatch (RSeq (RCls name_end) (ROpt (RSeq (RStar (RCls name_byte)) (RCls name_end)))) s && Nat.leb (String.length s) 63.

(** [short]. *)
Definition short (digest : string) : string := fst (str_cut 12 (trim_prefix "sha256:" digest)).

(** [defaults]. *)
Definition or_default (n def : Z) : Z := if (n <=? 0)%Z then def else n.
Definition health_base `{Crypto} (s : Appliance) : Z := if (ap_HealthBase s =? 0)%Z then 18100 else ap_HealthBase s.
Definition ready_timeout `{Crypto} (s : Appliance) : Z := or_default (ap_ReadyTimeout s) 120000000000.
Definition min_restart `{Crypto} (s : Appliance) : Z := or_default (ap_MinBackoff s) 1000000000.
Definition max_restart `{Crypto} (s : Appliance) : Z := or_default (ap_MaxBackoff s) 60000000000.

(** The lowest port from one on that is not used: as many are tried as are used, and one. *)
Fixpoint free_port (fuel : nat) (used : list Z) (p : Z) : Z :=
  match fuel with O => p | S fuel => if existsb (Z.eqb p) used then free_port fuel used (p + 1) else p end.

Definition option_list {A} (o : option A) : list A := match o with Some x => [x] | None => [] end.
Definition trim_suffix (p s : string) : string := str_rev (trim_prefix (str_rev p) (str_rev s)).

Section appliance.
Context `{C : Crypto} `{K : Encoders} {W : Type} `{H : Host W} (cfg : Appliance).
#[local] Abbreviation sup := (supervisor W).

Definition on_host {X} (f : W -> X * W) (s : sup) : X * sup :=
  let (x, w) := f (sv_world s) in (x, mkSupervisor (sv_units s) (sv_copies s) (sv_acts s) w).
Definition put_unit (name : string) (u : unit_) (s : sup) : sup := mkSupervisor (<[name := u]> (sv_units s)) (sv_copies s) (sv_acts s) (sv_world s).
Definition acted (a : act) (s : sup) : sup := mkSupervisor (sv_units s) (sv_copies s) (a :: sv_acts s) (sv_world s).

(** [stop]; a nil worker is not stopped. *)
Definition stop (p : option proc) (s : sup) : sup :=
  match p with
  | None => s
  | Some p => acted (Stopped p) (mkSupervisor (sv_units s) (sv_copies s) (sv_acts s) (hs_stop (pr_handle p) (sv_world s)))
  end.

(** [verify]: the spec, when it could be read, what was read, and why it is refused. *)
Definition accepts (data : string) : option RuntimeSpec * option goerr :=
  match ParseSpec data with
  | Err e => (None, Some e)
  | Ok spec =>
      match ap_TrustedKeys cfg with
      | [] => (Some spec, None)
      | keys => match Verify spec keys with Err e => (Some spec, Some e) | Ok _ => (Some spec, None) end
      end
  end.
Definition verify (file : string) (s : sup) : (option RuntimeSpec * string * option goerr) * sup :=
  let (r, s) := on_host (hs_read file) s in
  (match r with Err e => (None, "", Some e) | Ok data => let (spec, e) := accepts data in (spec, data, e) end, s).

(** [setInvalid]. *)
Definition setInvalid (name : string) (u : unit_) (digest : string) (reason : goerr) (s : sup) : sup :=
  put_unit name (mkUnit (un_current u) (un_next u) (un_failed u) (un_failedReason u) (Some reason) digest) s.

(** [writeCopy]: an immutable copy under its name and digest. *)
Definition copy_path (name digest : string) : string := ap_StateDir cfg +++ "/specs/" +++ name +++ "-" +++ short digest +++ ".json".
Definition writeCopy (name digest data : string) (s : sup) : result string * sup :=
  let path := copy_path name digest in
  if is_some (sv_copies s !! path) then (Ok path, s)
  else
    let (e, s) := on_host (hs_write path) s in
    match e with
    | Some e => (Err e, s)
    | None => (Ok path, mkSupervisor (sv_units s) (<[path := data]> (sv_copies s)) (sv_acts s) (sv_world s))
    end.

(** [port] and [start]. *)
Definition procs (u : unit_) : list proc := option_list (un_current u) ++ option_list (un_next u).
Definition used_ports (s : sup) : list Z := List.concat (map (fun nu => map pr_port (procs (snd nu))) (map_to_list (sv_units s))).
Definition port (s : sup) : Z := free_port (List.length (used_ports s)) (used_ports s) (health_base cfg).
Definition start (name : string) (spec : RuntimeSpec) (specPath : string) (s : sup) : proc * sup :=
  let port := port s in
  let (now, s) := on_host hs_now s in
  let (h, s) := on_host (hs_start specPath port) s in
  let p := mkProc name (rm_Digest (rs_Metadata spec)) (rm_Level (rs_Metadata spec)) specPath (map wf_Name (rb_Workflows (rs_Spec spec))) port now h in
  (p, acted (Started p) s).

(** [ready] and [lastError] of a worker. *)
Definition ready (p : proc) (s : sup) : bool * sup :=
  let (i, s) := on_host (hs_info (pr_handle p)) s in
  if (in_pid i =? 0)%Z then (false, s) else on_host (hs_ready (pr_handle p)) s.
Definition lastError (p : proc) (s : sup) : string * sup :=
  let (i, s) := on_host (hs_info (pr_handle p)) s in (if String.eqb (in_lastErr i) "" then "not ready" else in_lastErr i, s).

(** [promote]. *)
Definition promote (name : string) (u : unit_) (nxt : proc) (s : sup) : sup :=
  let (ok, s) := ready nxt s in
  if ok : bool then
    stop (un_current u) (put_unit name (mkUnit (Some nxt) None (un_failed u) (un_failedReason u) (un_invalid u) (un_fileDigest u)) (acted (FoundReady nxt) s))
  else
    let (now, s) := on_host hs_now s in
    if (now - pr_started nxt <? ready_timeout cfg)%Z then s
    else
      let (reason, s) := lastError nxt s in
      stop (Some nxt) (put_unit name (mkUnit (un_current u) None (pr_digest nxt) reason (un_invalid u) (un_fileDigest u)) s).

(** [reconcileOne]. *)
Definition runs_digest (p : option proc) (digest : string) : bool := match p with Some p => String.eqb (pr_digest p) digest | None => false end.
Definition new_version (name : string) (u : unit_) (spec : RuntimeSpec) (data : string) (s : sup) : sup :=
  let digest := rm_Digest (rs_Metadata spec) in
  let s := stop (un_next u) s in
  let (path, s) := writeCopy name digest data s in
  match path with
  | Err e => setInvalid name u digest (Wrapf (msg0 "cannot keep a copy to run: %w") [e]) s
  | Ok path =>
      let (p, s) := start name spec path s in
      put_unit name (mkUnit (un_current u) (Some p) (un_failed u) (un_failedReason u) (un_invalid u) (un_fileDigest u)) s
  end.
Definition reconcileOne (name file : string) (s : sup) : sup :=
  let u := default no_unit (sv_units s !! name) in
  let s := put_unit name u s in
  if negb (nameRE name) then setInvalid name u "" (Errorf (Msg "%q is not a valid name: lower-case letters, digits and -" [FStr name])) s
  else
    let '((spec, data, err), s) := verify file s in
    let digest := match spec with Some spec => rm_Digest (rs_Metadata spec) | None => "" end in
    match err, spec with
    | Some e, _ => setInvalid name u digest e s
    | None, None => s
    | None, Some spec =>
        let changed := negb (String.eqb (un_fileDigest u) digest) in
        let u := mkUnit (un_current u) (un_next u) (if changed then "" else un_failed u) (if changed then "" else un_failedReason u) None digest in
        let s := put_unit name u s in
        if runs_digest (un_current u) digest then
          match un_next u with
          | None => s
          | Some nxt => put_unit name (mkUnit (un_current u) None (un_failed u) (un_failedReason u) None digest) (stop (Some nxt) s)
          end
        else if String.eqb digest (un_failed u) then s
        else match un_next u with
          | Some nxt => if String.eqb (pr_digest nxt) digest then promote name u nxt s else new_version name u spec data s
          | None => new_version name u spec data s
          end
    end.

(** [pruneCopies]. *)
Definition used_paths (s : sup) : list string := List.concat (map (fun nu => map pr_specPath (procs (snd nu))) (map_to_list (sv_units s))).
Definition pruneCopies (s : sup) : sup :=
  let keep := used_paths s in
  fold_left (fun s path =>
    if existsb (String.eqb path) keep then s
    else let (ok, s) := on_host (hs_remove path) s in
         if ok : bool then mkSupervisor (sv_units s) (delete path (sv_copies s)) (sv_acts s) (sv_world s) else s)
    (map fst (map_to_list (sv_copies s))) s.

(** [Reconcile]. *)
Definition spec_files (entries : list (string * bool)) : list string :=
  map fst (List.filter (fun e => negb (snd e) && has_suffix ".json" (fst e)) entries).
Definition spec_name (file : string) : string := trim_suffix ".json" file.
Definition drop_unit (s : sup) (nu : string * unit_) : sup :=
  stop (un_next (snd nu)) (stop (un_current (snd nu)) (mkSupervisor (delete (fst nu) (sv_units s)) (sv_copies s) (sv_acts s) (sv_world s))).
Definition Reconcile (s : sup) : sup :=
  let (entries, s) := on_host hs_dir s in
  match entries with
  | Err _ => s
  | Ok entries =>
      let files := spec_files entries in
      let s := fold_left (fun s file => reconcileOne (spec_name file) file s) files s in
      let gone := List.filter (fun nu : string * unit_ => negb (existsb (String.eqb (fst nu)) (map spec_name files))) (map_to_list (sv_units s)) in
      pruneCopies (fold_left drop_unit gone s)
  end.

(** [stopAll]. *)
Definition stopAll (s : sup) : sup :=
  fold_left (fun s p => stop (Some p) s) (List.concat (map (fun nu => procs (snd nu)) (map_to_list (sv_units s)))) (mkSupervisor ∅ (sv_copies s) (sv_acts s) (sv_world s)).

(** [Status] and [Statuses]. *)
Definition status_of (name : string) (u : unit_) (s : sup) : Status * sup :=
  let st := mkStatus name "" "" "" [] 0 0 None "" "" (un_invalid u) (un_failed u) (un_failedReason u) "" in
  match or_else (un_current u) (un_next u) with
  | None => (with_state (match un_invalid u with Some _ => "refused" | None => "stopped" end) st, s)
  | Some p =>
      let (i, s) := on_host (hs_info (pr_handle p)) s in
      let (state, s) :=
        if (in_pid i =? 0)%Z then ("restarting", s)
        else match un_current u with
          | None => ("starting", s)
          | Some cur => let (ok, s) := ready cur s in (if ok : bool then "running" else "starting", s)
          end in
      let pending := match un_current u, un_next u with Some _, Some nxt => pr_digest nxt | _, _ => "" end in
      (mkStatus name state (pr_digest p) (pr_level p) (pr_workflows p) (in_pid i) (in_restarts i) (in_since i)
         ("http://127.0.0.1:" +++ itoa (pr_port p) +++ "/readyz") pending (un_invalid u) (un_failed u) (un_failedReason u) (in_lastErr i), s)
  end.
Fixpoint statuses (us : list (string * unit_)) (s : sup) : list Status * sup :=
  match us with
  | [] => ([], s)
  | (name, u) :: us => let (st, s) := status_of name u s in let (sts, s) := statuses us s in (st :: sts, s)
  end.
Definition by_name (a b : string * unit_) : bool := str_le (fst a) (fst b).
Definition Statuses (s : sup) : list Status * sup := statuses (isort by_name (map_to_list (sv_units s))) s.

(** The loop of a worker's restarts: how long each run lasted, and the waits after them. *)
Definition next_backoff (backoff lasted : Z) : Z * Z :=
  let wait := if (5 * max_restart cfg <? lasted)%Z then min_restart cfg else backoff in (wait, Z.min (2 * wait) (max_restart cfg)).
Fixpoint restarts (backoff : Z) (runs : list Z) : list Z :=
  match runs with
  | [] => []
  | lasted :: runs => let (wait, backoff) := next_backoff backoff lasted in wait :: restarts backoff runs
  end.
End appliance.

(** ** Moves of a supervisor *)

Section moves.
Context `{C : Crypto} `{K : Encoders} {W : Type} `{H : Host W} (cfg : Appliance).
#[local] Abbreviation sup := (supervisor W).

(** The workers of a name: the current one, and the next. *)
Definition slot (u : unit_) (next : bool) : option proc := if next then un_next u else un_current u.
Definition worker_at (s : sup) (n : string) (b : bool) : option proc := match sv_units s !! n with Some u => slot u b | None => None end.

(** What a supervisor may do in a pass whose directory lacks the names of [gone]. *)
Inductive move (gone : string -> Prop) (s s' : sup) : Prop :=
| quiet :
    (forall n b, worker_at s' n b = worker_at s n b) -> sv_copies s' = sv_copies s -> sv_acts s' = sv_acts s -> move gone s s'
| copied n data spec :
    accepts cfg data = (Some spec, None) -> sv_copies s' = <[copy_path cfg n (rm_Digest (rs_Metadata spec)) := data]> (sv_copies s) ->
    (forall n b, worker_at s' n b = worker_at s n b) -> sv_acts s' = sv_acts s -> move gone s s'
| discarded path :
    (forall n b p, worker_at s n b = Some p -> pr_specPath p <> path) -> sv_copies s' = delete path (sv_copies s) ->
    (forall n b, worker_at s' n b = worker_at s n b) -> sv_acts s' = sv_acts s -> move gone s s'
| launched n p :
    pr_name p = n -> pr_specPath p = copy_path cfg n (pr_digest p) -> is_Some (sv_copies s !! pr_specPath p) ->
    (forall m b q, worker_at s m b = Some q -> pr_port q <> pr_port p) ->
    worker_at s' n true = Some p -> (forall m b, (m, b) <> (n, true) -> worker_at s' m b = worker_at s m b) ->
    sv_copies s' = sv_copies s -> sv_acts s' = Started p :: sv_acts s -> move gone s s'
| halted n p :
    worker_at s n true = Some p -> worker_at s' n true = None \/ worker_at s' n true = Some p ->
    (forall m b, (m, b) <> (n, true) -> worker_at s' m b = worker_at s m b) ->
    sv_copies s' = sv_copies s -> sv_acts s' = Stopped p :: sv_acts s -> move gone s s'
| promoted n p :
    worker_at s n true = Some p -> worker_at s' n true = None -> worker_at s' n false = Some p ->
    (forall m b, m <> n -> worker_at s' m b = worker_at s m b) -> sv_copies s' = sv_copies s ->
    sv_acts s' = map Stopped (option_list (worker_at s n false)) ++ FoundReady p :: sv_acts s -> move gone s s'
| removed n :
    gone n -> (forall b, worker_at s' n b = None) -> (forall m b, m <> n -> worker_at s' m b = worker_at s m b) ->
    sv_copies s' = sv_copies s ->
    sv_acts s' = map Stopped (option_list (worker_at s n true)) ++ map Stopped (option_list (worker_at s n false)) ++ sv_acts s -> move gone s s'.

(** Copies hold specs that were accepted, under their own digests; a worker runs from
    the copy of its name and digest; and no two workers have the same health port. *)
Record sound (s : sup) : Prop := {
  copies_accepted : forall path data, sv_copies s !! path = Some data ->
    exists n spec, accepts cfg data = (Some spec, None) /\ path = copy_path cfg n (rm_Digest (rs_Metadata spec));
  workers_copied : forall n b p, worker_at s n b = Some p ->
    pr_name p = n /\ pr_specPath p = copy_path cfg n (pr_digest p) /\ is_Some (sv_copies s !! pr_specPath p);
  ports_differ : forall n b p m c q, worker_at s n b = Some p -> worker_at s m c = Some q -> pr_port p = pr_port q -> n = m /\ b = c
}.

(** Supervisors that were run: from one with no workers whose copies were accepted, after
    passes between which anything may change outside, and stops. *)
Inductive supervised : sup -> Prop :=
| begun copies acts w :
    (forall path data, copies !! path = Some data ->
       exists n spec, accepts cfg data = (Some spec, None) /\ path = copy_path cfg n (rm_Digest (rs_Metadata spec))) ->
    supervised (mkSupervisor ∅ copies acts w)
| passed s w : supervised s -> supervised (Reconcile cfg (mkSupervisor (sv_units s) (sv_copies s) (sv_acts s) w))
| ended s : supervised s -> supervised (stopAll s).
End moves.

(** ** Each operation is moves *)

Lemma free_port_unused fuel used p :
  List.length (List.filter (Z.leb p) used) <= fuel -> free_port fuel used p ∉ used.
Proof.
  revert p. induction fuel as [|fuel IH]; intros p Hl; cbn.
  - intros Hp. assert (Hin : p ∈ List.filter (Z.leb p) used) by (apply list_elem_of_In, filter_In; rewrite <- list_elem_of_In; split; [done|lia]).
    destruct (List.filter _ used); [by apply elem_of_nil in Hin|cbn in Hl; lia].
  - destruct (existsb (Z.eqb p) used) eqn:E.
    + apply IH. apply existsb_exists in E as (x & Hx & E). apply Z.eqb_eq in E as <-.
      assert (List.length (List.filter (Z.leb (p + 1)) used) < List.length (List.filter (Z.leb p) used)); [|lia].
      clear -Hx. induction used as [|x used IH]; [done|]. cbn.
      assert (Hle : List.length (List.filter (Z.leb (p + 1)) used) <= List.length (List.filter (Z.leb p) used)).
      { clear. induction used as [|x l IH]; [done|]. cbn. destruct (Z.leb_spec (p + 1) x), (Z.leb_spec p x); cbn; lia. }
      destruct Hx as [->|Hx]; [|apply IH in Hx; destruct (Z.leb_spec (p + 1) x), (Z.leb_spec p x); cbn; lia].
      destruct (Z.leb_spec (p + 1) p), (Z.leb_spec p p); cbn; lia.
    + intros Hp. apply Bool.not_true_iff_false in E. apply E, existsb_exists. exists p. rewrite <- list_elem_of_In. split; [done|lia].
Qed.

Lemma nodup_map_filter {A B} (f : A -> B) (P : A -> bool) l : NoDup (map f l) -> NoDup (map f (List.filter P l)).
Proof.
  induction l as [|x l IH]; cbn; [done|]. intros [Hx Hl]%NoDup_cons. destruct (P x); cbn; [|by apply IH].
  apply NoDup_cons. split; [|by apply IH]. intros Hin. apply Hx. apply list_elem_of_In, in_map_iff in Hin as (y & E & Hy).
  apply filter_In in Hy as [Hy _]. apply list_elem_of_In, in_map_iff. by exists y.
Qed.

Section operations.
Context `{C : Crypto} `{K : Encoders} {W : Type} `{H : Host W} (cfg : Appliance).
#[local] Abbreviation sup := (supervisor W).
Implicit Types s : sup.

Lemma worker_at_put name u s n b : worker_at (put_unit name u s) n b = if decide (n = name) then slot u b else worker_at s n b.
Proof.
  unfold worker_at, put_unit. cbn [sv_units]. destruct (decide (n = name)) as [->|N]; [by rewrite lookup_insert_eq|by rewrite lookup_insert_ne].
Qed.

Lemma stop_eq p s :
  sv_units (stop p s) = sv_units s /\ sv_copies (stop p s) = sv_copies s /\ sv_acts (stop p s) = map Stopped (option_list p) ++ sv_acts s.
Proof. by destruct p. Qed.

Lemma worker_at_units s s' n b : sv_units s' = sv_units s -> worker_at s' n b = worker_at s n b.
Proof. unfold worker_at. by intros ->. Qed.
Lemma worker_at_stop p s n b : worker_at (stop p s) n b = worker_at s n b.
Proof. apply worker_at_units, stop_eq. Qed.

Lemma elem_of_procs u p : p ∈ procs u <-> exists b, slot u b = Some p.
Proof.
  unfold procs, option_list. rewrite elem_of_app. split.
  - intros [Hp|Hp]; [exists false|exists true]; cbn; [destruct (un_current u)|destruct (un_next u)]; apply list_elem_of_In in Hp; by destruct Hp as [->|[]] || destruct Hp.
  - intros [[|] Hp]; cbn in Hp; rewrite Hp; set_solver.
Qed.

(** What the workers have, gathered from the units. *)
Lemma elem_of_workers {A} (f : proc -> A) s x :
  x ∈ List.concat (map (fun nu => map f (procs (snd nu))) (map_to_list (sv_units s))) <-> exists n b p, worker_at s n b = Some p /\ f p = x.
Proof.
  rewrite list_elem_of_In, in_concat. split.
  - intros (l & Hl & Hx). apply in_map_iff in Hl as ((n & u) & <- & Hu). apply list_elem_of_In, elem_of_map_to_list in Hu.
    cbn in Hx. apply in_map_iff in Hx as (p & <- & Hp). apply list_elem_of_In, elem_of_procs in Hp as (b & Hp).
    exists n, b, p. unfold worker_at. by rewrite Hu.
  - intros (n & b & p & Hp & <-). unfold worker_at in Hp. destruct (sv_units s !! n) as [u|] eqn:Hu; [|done].
    exists (map f (procs u)). split.
    + apply in_map_iff. exists (n, u). split; [done|]. by apply list_elem_of_In, elem_of_map_to_list.
    + apply in_map, list_elem_of_In, elem_of_procs. by exists b.
Qed.

Lemma port_unused s n b p : worker_at s n b = Some p -> pr_port p <> port cfg s.
Proof.
  intros Hp E. assert (Hn : port cfg s ∉ used_ports s) by (apply free_port_unused, List.filter_length_le).
  apply Hn, elem_of_workers. eauto.
Qed.

(** *** Moves *)

Section gone.
Context (gone : string -> Prop).
#[local] Abbreviation does := (rtc (move cfg gone)).

Lemma does_host {X} (f : W -> X * W) s : does s (snd (on_host f s)).
Proof. unfold on_host. destruct (f _) as [x w]. by apply rtc_once, quiet. Qed.

Lemma does_put name u s : (forall b, slot u b = worker_at s name b) -> does s (put_unit name u s).
Proof.
  intros Hu. apply rtc_once, quiet; [|done..]. intros n b. rewrite worker_at_put. by destruct (decide _) as [->|].
Qed.

Lemma does_stop_next n s : does s (stop (worker_at s n true) s).
Proof.
  destruct (worker_at s n true) as [p|] eqn:Hp; [|done]. apply rtc_once. eapply (halted _ _ _ _ n p); [done|by right|done..].
Qed.

Lemma verify_does file s : does s (snd (verify cfg file s)) /\
  forall spec data, fst (verify cfg file s) = (Some spec, data, None) -> accepts cfg data = (Some spec, None).
Proof.
  unfold verify. pose proof (does_host (hs_read file) s) as Hd. destruct (on_host _ s) as [r s1]. cbn in *.
  split; [done|]. intros spec data. destruct r as [d|e]; [|done]. destruct (accepts cfg d) as [o e] eqn:E. by intros [= -> -> ->].
Qed.

Lemma writeCopy_does name spec data s : accepts cfg data = (Some spec, None) ->
  let digest := rm_Digest (rs_Metadata spec) in
  let r := writeCopy cfg name digest data s in
  does s (snd r) /\ (forall n b, worker_at (snd r) n b = worker_at s n b) /\
  forall path, fst r = Ok path -> path = copy_path cfg name digest /\ is_Some (sv_copies (snd r) !! path).
Proof.
  intros Ha. unfold writeCopy. cbv zeta. destruct (sv_copies s !! _) as [old|] eqn:Hc; cbn [is_some].
  - split_and!; [done..|]. intros path [= <-]. cbn. rewrite Hc. eauto.
  - unfold on_host. destruct (hs_write _ _) as [[e|] w]; cbn [fst snd].
    + split_and!; [by apply rtc_once, quiet|done|done].
    + split_and!; [|done|].
      * apply rtc_once. by eapply (copied _ _ _ _ name data spec).
      * intros path [= <-]. cbn. rewrite lookup_insert_eq. eauto.
Qed.

Lemma start_does name spec path u s :
  path = copy_path cfg name (rm_Digest (rs_Metadata spec)) -> is_Some (sv_copies s !! path) ->
  un_current u = worker_at s name false ->
  let r := start cfg name spec path s in
  does s (put_unit name (mkUnit (un_current u) (Some (fst r)) (un_failed u) (un_failedReason u) (un_invalid u) (un_fileDigest u)) (snd r)).
Proof.
  intros Hpath Hc Hu. unfold start, on_host. cbv zeta. destruct (hs_now _) as [now w]. cbn [sv_world sv_units sv_copies sv_acts].
  destruct (hs_start _ _ _) as [h w2]. cbn [fst snd acted]. apply rtc_once.
  match goal with |- context [Started ?p] => apply (launched _ _ _ _ name p) end; [done|done|done| | | |done|done].
  - intros m b q Hq. by eapply port_unused.
  - rewrite worker_at_put. by rewrite decide_True.
  - intros m b N. rewrite worker_at_put. destruct (decide _) as [->|]; [|done]. by destruct b.
Qed.

Lemma new_version_does name u spec data s : (forall b, slot u b = worker_at s name b) -> accepts cfg data = (Some spec, None) ->
  does s (new_version cfg name u spec data s).
Proof.
  intros Hu Ha. unfold new_version. cbv zeta.
  transitivity (stop (un_next u) s). { change (un_next u) with (slot u true). rewrite Hu. apply does_stop_next. }
  set (s1 := stop _ _). assert (Hu1 : forall b, slot u b = worker_at s1 name b) by (intros b; unfold s1; by rewrite worker_at_stop).
  destruct (writeCopy_does name spec data s1 Ha) as (Hd & Hw & Hp). destruct (writeCopy _ _ _ _ _) as [r s2]. cbn [fst snd] in *.
  etransitivity; [apply Hd|]. destruct r as [path|e].
  - destruct (Hp path eq_refl) as [Hpath Hc]. pose proof (start_does name spec path u s2 Hpath Hc) as Hs.
    destruct (start _ _ _ _ _) as [p s3]. apply Hs. rewrite Hw. apply (Hu1 false).
  - apply does_put. intros b. rewrite Hw, <- Hu1. by destruct b.
Qed.

Lemma ready_does p s : does s (snd (ready p s)) /\ forall n b, worker_at (snd (ready p s)) n b = worker_at s n b.
Proof.
  unfold ready, on_host. destruct (hs_info _ _) as [i w]. destruct (_ =? _)%Z; cbn; [split; [by apply rtc_once, quiet|done]|].
  destruct (hs_ready _ _) as [ok w2]. split; [by apply rtc_once, quiet|done].
Qed.

Lemma promote_does name u nxt s : (forall b, slot u b = worker_at s name b) -> un_next u = Some nxt -> does s (promote cfg name u nxt s).
Proof.
  intros Hu Hn. unfold promote. destruct (ready_does nxt s) as [Hd Hw]. destruct (ready nxt s) as [ok s1]. cbn [fst snd] in *.
  etransitivity; [apply Hd|]. destruct ok.
  - apply rtc_once. eapply (promoted _ _ _ _ name nxt).
    + rewrite Hw, <- Hu. done.
    + rewrite worker_at_stop, worker_at_put. by rewrite decide_True.
    + rewrite worker_at_stop, worker_at_put. by rewrite decide_True.
    + intros m b N. rewrite worker_at_stop, worker_at_put. by rewrite decide_False.
    + by destruct (un_current u).
    + rewrite Hw, <- Hu. cbn [slot]. by destruct (un_current u).
  - assert (Hh : forall {X} (f : W -> X * W) s', does s1 s' -> (forall n b, worker_at s' n b = worker_at s1 n b) ->
      does s1 (snd (on_host f s')) /\ forall n b, worker_at (snd (on_host f s')) n b = worker_at s1 n b).
    { intros X f s' H1 H2. split; [etransitivity; [done|apply does_host]|]. intros n b. rewrite <- H2. apply worker_at_units. unfold on_host. by destruct (f _). }
    destruct (Hh _ hs_now s1) as [Hd2 Hw2]; [done..|]. destruct (on_host hs_now s1) as [now s2]. cbn [fst snd] in *.
    destruct (_ <? _)%Z; [done|]. unfold lastError. destruct (Hh _ (hs_info (pr_handle nxt)) s2 Hd2 Hw2) as [Hd3 Hw3].
    destruct (on_host _ s2) as [i s3]. cbn [fst snd] in *. etransitivity; [apply Hd3|]. apply rtc_once. eapply (halted _ _ _ _ name nxt).
    + rewrite Hw3, Hw, <- Hu. done.
    + left. rewrite worker_at_stop, worker_at_put. by rewrite decide_True.
    + intros m b N. rewrite worker_at_stop, worker_at_put. destruct (decide _) as [->|]; [|done]. destruct b; [done|].
      rewrite Hw3, Hw. apply (Hu false).
    + done.
    + done.
Qed.
Lemma reconcileOne_does name file s : does s (reconcileOne cfg name file s).
Proof.
  unfold reconcileOne. cbv zeta. set (u := default no_unit _).
  assert (Hu : forall b, slot u b = worker_at s name b) by (intros b; unfold u, worker_at; destruct (sv_units s !! name); by destruct b).
  transitivity (put_unit name u s); [by apply does_put|]. set (s1 := put_unit name u s).
  assert (Hu1 : forall b, slot u b = worker_at s1 name b) by (intros b; unfold s1; rewrite worker_at_put; by rewrite decide_True).
  clearbody u s1. clear Hu.
  destruct (negb (nameRE name)); [apply does_put; intros b; rewrite <- Hu1; by destruct b|].
  destruct (verify_does file s1) as [Hd Ha]. assert (Hw : forall b, slot u b = worker_at (snd (verify cfg file s1)) name b).
  { intros b. rewrite Hu1. symmetry. apply worker_at_units. unfold verify, on_host. by destruct (hs_read _ _). }
  destruct (verify cfg file s1) as [[[spec data] err] s2]. cbn [fst snd] in *. etransitivity; [apply Hd|].
  destruct err as [e|]; [apply does_put; intros b; rewrite <- Hw; by destruct b|]. destruct spec as [spec|]; [|done].
  specialize (Ha spec data eq_refl).
  match goal with |- context [put_unit name ?v s2] => set (u1 := v); transitivity (put_unit name u1 s2) end.
  { apply does_put. intros b. rewrite <- Hw. by destruct b. }
  set (s3 := put_unit name u1 s2). assert (Hw3 : forall b, slot u1 b = worker_at s3 name b) by (intros b; unfold s3; rewrite worker_at_put; by rewrite decide_True).
  clearbody u1 s3. clear Hu1 Hw Hd. destruct (runs_digest _ _).
  - destruct (un_next u1) as [nxt|] eqn:Hn; [|done]. apply rtc_once. eapply (halted _ _ _ _ name nxt); [by rewrite <- Hw3| | |done..].
    + left. rewrite worker_at_put. by rewrite decide_True.
    + intros m b N. rewrite worker_at_put, worker_at_stop. destruct (decide _) as [->|]; [|done]. rewrite <- Hw3. by destruct b.
  - destruct (String.eqb _ _); [done|]. destruct (un_next u1) as [nxt|] eqn:Hn; [|by apply new_version_does].
    destruct (String.eqb _ _); [by apply promote_does|by apply new_version_does].
Qed.

Lemma reconcile_files_does files s : does s (fold_left (fun s file => reconcileOne cfg (spec_name file) file s) files s).
Proof. revert s. induction files as [|f fs IH]; intros s; cbn; [done|]. etransitivity; [apply reconcileOne_does|apply IH]. Qed.

Lemma pruneCopies_does s : does s (pruneCopies s).
Proof.
  unfold pruneCopies. cbv zeta. set (keep := used_paths s).
  assert (Hk : forall n b p, worker_at s n b = Some p -> pr_specPath p ∈ keep) by (intros n b p Hp; apply elem_of_workers; eauto).
  clearbody keep. generalize (map fst (map_to_list (sv_copies s))). intros l. revert s Hk. induction l as [|path l IH]; intros s Hk; cbn; [done|].
  destruct (existsb (String.eqb path) keep) eqn:E; [by apply IH|]. unfold on_host. destruct (hs_remove path _) as [[|] w].
  - etransitivity; [|by apply IH]. apply rtc_once, (discarded _ _ _ _ path); [|done..]. intros n b p Hp <-.
    apply Bool.not_true_iff_false in E. apply E, existsb_exists. exists (pr_specPath p).
    rewrite <- list_elem_of_In, String.eqb_refl. split; [|done]. by eapply Hk.
  - etransitivity; [|by apply IH]. by apply rtc_once, quiet.
Qed.

Lemma drop_units_does (l : list (string * unit_)) s :
  NoDup (map fst l) -> (forall n u, (n, u) ∈ l -> gone n /\ sv_units s !! n = Some u) -> does s (fold_left drop_unit l s).
Proof.
  revert s. induction l as [|[n u] l IH]; intros s Hd Hl; cbn [fold_left]; [done|]. cbn in Hd. apply NoDup_cons in Hd as [Hn Hd].
  destruct (Hl n u) as [Hg Hu]; [by left|].
  assert (Hunits : sv_units (drop_unit s (n, u)) = delete n (sv_units s)).
  { unfold drop_unit. cbn [fst snd]. by destruct (un_next u), (un_current u). }
  etransitivity; [|apply IH; [done|]].
  - apply rtc_once, (removed _ _ _ _ n); [done| | | |].
    + intros b. unfold worker_at. by rewrite Hunits, lookup_delete_eq.
    + intros m b N. unfold worker_at. by rewrite Hunits, lookup_delete_ne.
    + unfold drop_unit. cbn [fst snd]. by destruct (un_next u), (un_current u).
    + unfold drop_unit, worker_at. rewrite Hu. cbn [fst snd slot]. by destruct (un_next u), (un_current u).
  - intros m v Hm. destruct (Hl m v) as [Hg' Hv]; [by right|]. split; [done|]. rewrite Hunits, lookup_delete_ne; [done|].
    intros ->. apply Hn, list_elem_of_In, in_map_iff. exists (m, v). split; [done|]. by apply list_elem_of_In.
Qed.
End gone.

(** A name the directory was listed without. *)
Definition unlisted s (n : string) : Prop :=
  exists entries w, hs_dir (sv_world s) = (Ok entries, w) /\ n ∉ map spec_name (spec_files entries).

Lemma Reconcile_does s : rtc (move cfg (unlisted s)) s (Reconcile cfg s).
Proof.
  unfold Reconcile. pose proof (does_host (unlisted s) hs_dir s) as Hd. unfold on_host in *. destruct (hs_dir (sv_world s)) as [[entries|e] w] eqn:Hdir; [|done].
  cbn [snd] in Hd. etransitivity; [apply Hd|]. cbv zeta. etransitivity; [apply (reconcile_files_does _ (spec_files entries))|].
  set (s1 := fold_left _ _ _). etransitivity; [|apply pruneCopies_does]. apply drop_units_does.
  - apply nodup_map_filter, NoDup_fst_map_to_list.
  - intros n u Hin. apply list_elem_of_In, filter_In in Hin as [Hin Hn]. split; [|by apply elem_of_map_to_list, list_elem_of_In].
    exists entries, w. split; [done|]. intros Hf. apply negb_true_iff, Bool.not_true_iff_false in Hn. apply Hn, existsb_exists.
    exists n. cbn [fst]. rewrite <- list_elem_of_In, String.eqb_refl. done.
Qed.
End operations.

(** ** Every reachable supervisor is sound *)

Section theorems.
Context `{C : Crypto} `{K : Encoders} {W : Type} `{H : Host W} (cfg : Appliance).
#[local] Abbreviation sup := (supervisor W).
Implicit Types s : sup.

(** Fewer workers on the same copies are as sound. *)
Lemma fewer_sound s s' :
  (forall n b p, worker_at s' n b = Some p -> worker_at s n b = Some p) -> sv_copies s' = sv_copies s -> sound cfg s -> sound cfg s'.
Proof.
  intros Hw Hc [Ha Hk Hp]. split.
  - rewrite Hc. apply Ha.
  - intros n b p E. rewrite Hc. by eapply Hk, Hw.
  - intros n b p m c q E1 E2. apply Hp; by apply Hw.
Qed.

(** Copies that workers run from are kept. *)
Lemma copies_sound s s' :
  (forall n b, worker_at s' n b = worker_at s n b) ->
  (forall path data, sv_copies s' !! path = Some data -> sv_copies s !! path = Some data \/
     exists n spec, accepts cfg data = (Some spec, None) /\ path = copy_path cfg n (rm_Digest (rs_Metadata spec))) ->
  (forall n b p, worker_at s n b = Some p -> is_Some (sv_copies s !! pr_specPath p) -> is_Some (sv_copies s' !! pr_specPath p)) ->
  sound cfg s -> sound cfg s'.
Proof.
  intros Hw Hc Hold [Ha Hk Hp]. split.
  - intros path data E. apply Hc in E as [E|E]; [by apply Ha|done].
  - intros n b p E. rewrite Hw in E. destruct (Hk n b p E) as (-> & E2 & E3). eauto 10.
  - intros n b p m c q E1 E2. rewrite Hw in E1, E2. by eapply Hp.
Qed.

Lemma move_sound gone s s' : move cfg gone s s' -> sound cfg s -> sound cfg s'.
Proof.
  intros [Hw Hc Ha|n data spec Hac Hc Hw Ha|path Hn Hc Hw Ha|n p Hname Hpath Hcopy Hport Hnew Hw Hc Ha|n p Hp Hnew Hw Hc Ha
         |n p Hp Hnext Hcur Hw Hc Ha|n Hg Hnone Hw Hc Ha] Hs.
  - eapply fewer_sound; [|done..]. intros n b p. by rewrite Hw.
  - eapply copies_sound; [done| | |done]; rewrite Hc.
    + intros path d. rewrite lookup_insert_Some. intros [[<- <-]|[_ E]]; eauto.
    + intros m b p _ E. rewrite lookup_insert_is_Some'. by right.
  - eapply copies_sound; [done| | |done]; rewrite Hc.
    + intros q d. rewrite lookup_delete_Some. intros [_ E]. by left.
    + intros m b p Hp E. rewrite lookup_delete_ne; [done|]. apply not_eq_sym. by eapply Hn.
  - destruct Hs as [Hac Hk Hp].
    assert (Hcase : forall m b q, worker_at s' m b = Some q -> (m = n /\ b = true /\ q = p) \/ worker_at s m b = Some q).
    { intros m b q E. destruct (decide ((m, b) = (n, true))) as [[= -> ->]|N]; [left; split_and!; [done..|congruence]|right; by rewrite <- Hw]. }
    split; [by rewrite Hc| |].
    + intros m b q E. rewrite Hc. apply Hcase in E as [(-> & -> & ->)|E]; [done|by eapply Hk].
    + intros m b q m2 b2 q2 E1 E2 Eport. apply Hcase in E1 as [(-> & -> & ->)|E1], E2 as [(-> & -> & ->)|E2].
      * done.
      * by destruct (Hport _ _ _ E2).
      * by destruct (Hport _ _ _ E1).
      * by eapply Hp.
  - eapply fewer_sound; [|done..]. intros m b q E. destruct (decide ((m, b) = (n, true))) as [[= -> ->]|N]; [|by rewrite <- Hw].
    destruct Hnew; congruence.
  - destruct Hs as [Hac Hk Hp2]. split; [by rewrite Hc| |].
    + intros m b q E. rewrite Hc. destruct (decide (m = n)) as [->|N]; [|rewrite Hw in E by done; by eapply Hk].
      destruct b; [congruence|]. assert (q = p) as -> by congruence. by eapply Hk.
    + assert (Hcase : forall m b q, worker_at s' m b = Some q -> exists c, worker_at s m c = Some q /\ (m = n -> b = false /\ c = true) /\ (m <> n -> b = c)).
      { intros m b q E. destruct (decide (m = n)) as [->|N]; [|rewrite Hw in E by done; by exists b]. destruct b; [congruence|].
        exists true. split; [congruence|done]. }
      intros m b q m2 b2 q2 E1 E2 Eport. apply Hcase in E1 as (c1 & E1 & Y1 & N1), E2 as (c2 & E2 & Y2 & N2).
      destruct (Hp2 _ _ _ _ _ _ E1 E2 Eport) as [-> ->]. split; [done|].
      destruct (decide (m2 = n)) as [E|E]; [destruct (Y1 E), (Y2 E); congruence|]. rewrite N1, N2 by done. done.
  - eapply fewer_sound; [|done..]. intros m b q E. destruct (decide (m = n)) as [->|N]; [by rewrite Hnone in E|by rewrite <- Hw].
Qed.

Lemma moves_sound gone s s' : rtc (move cfg gone) s s' -> sound cfg s -> sound cfg s'.
Proof. induction 1 as [|x y z Hm _ IH]; [done|]. intros Hs. by eapply IH, move_sound. Qed.

Lemma stopAll_keeps s : sv_units (stopAll s) = ∅ /\ sv_copies (stopAll s) = sv_copies s.
Proof.
  unfold stopAll. generalize (List.concat (map (fun nu => procs (snd nu)) (map_to_list (sv_units s)))). intros l.
  set (s0 := mkSupervisor ∅ _ _ _). change (sv_copies s) with (sv_copies s0). assert (Hu : sv_units s0 = ∅) by done. clearbody s0.
  revert s0 Hu. induction l as [|p l IH]; intros s0 Hu; cbn [fold_left]; [done|].
  destruct (IH (stop (Some p) s0)) as [E1 E2]; [done|]. by rewrite E1, E2.
Qed.

Lemma supervised_sound s : supervised cfg s -> sound cfg s.
Proof.
  assert (Hnone : forall s n b, sv_units s = ∅ -> worker_at s n b = None) by (intros t n b E; unfold worker_at; by rewrite E, lookup_empty).
  induction 1 as [copies acts w Hc|s w Hs IH|s Hs IH].
  - split; [done| |]; intros n b p; by rewrite Hnone.
  - eapply moves_sound; [apply Reconcile_does|]. by apply (fewer_sound s).
  - destruct (stopAll_keeps s) as [Hu Hc]. apply (fewer_sound s); [|apply Hc|apply IH]. intros n b p. by rewrite Hnone.
Qed.


(** ** Serving workers *)

(** A move leaves the current worker of a listed name, or has its ready successor take over. *)
Lemma move_current gone s s' n : move cfg gone s s' -> sound cfg s ->
  gone n \/ exists k, sv_acts s' = k ++ sv_acts s /\
    ((worker_at s' n false = worker_at s n false /\ forall p, worker_at s n false = Some p -> Stopped p ∉ k) \/
     exists nxt, pr_name nxt = n /\ worker_at s' n false = Some nxt /\ k = map Stopped (option_list (worker_at s n false)) ++ [FoundReady nxt]).
Proof.
  intros Hm [_ Hk Hports].
  assert (Hdiff : forall q m c r, worker_at s n false = Some q -> worker_at s m c = Some r -> (n, false) <> (m, c) -> q <> r)
    by (intros q m c r E1 E2 N ->; destruct (Hports _ _ _ _ _ _ E1 E2 eq_refl); congruence).
  destruct Hm as [Hw Hc Ha|m data spec Hac Hc Hw Ha|path Hn Hc Hw Ha|m p Hname Hpath Hcopy Hport Hnew Hw Hc Ha|m p Hp Hnew Hw Hc Ha
         |m p Hp Hnext Hcur Hw Hc Ha|m Hg Hnone Hw Hc Ha];
    try (right; exists []; split; [done|]; left; split; [done|]; set_solver).
  - right. exists [Started p]. split; [done|]. left. split; [by apply Hw|]. set_solver.
  - right. exists [Stopped p]. split; [done|]. left. split; [by apply Hw|]. intros q Hq.
    assert (q <> p) by (apply (Hdiff q m true p); [done..|congruence]). set_solver.
  - right. exists (map Stopped (option_list (worker_at s m false)) ++ [FoundReady p]). split; [by rewrite Ha, <- app_assoc|].
    destruct (decide (n = m)) as [->|N].
    + right. exists p. split_and!; [by destruct (Hk _ _ _ Hp)|done..].
    + left. split; [by apply Hw|]. intros q Hq. destruct (worker_at s m false) as [r|] eqn:Hr; cbn; [|set_solver].
      assert (q <> r) by (apply (Hdiff q m false r); [done..|congruence]). set_solver.
  - destruct (decide (n = m)) as [->|N]; [by left|]. right.
    exists (map Stopped (option_list (worker_at s m true)) ++ map Stopped (option_list (worker_at s m false))). split; [by rewrite Ha, <- app_assoc|].
    left. split; [by apply Hw|]. intros q Hq Hin. apply elem_of_app in Hin as [Hin|Hin]; apply list_elem_of_In, in_map_iff in Hin as (r & [= ->] & Hr).
    + destruct (worker_at s m true) as [q'|] eqn:E; [|done]. destruct Hr as [->|[]]. apply (Hdiff q m true q); done || congruence.
    + destruct (worker_at s m false) as [q'|] eqn:E; [|done]. destruct Hr as [->|[]]. apply (Hdiff q m false q); [done..|congruence|done].
Qed.

(** What became of a serving worker of a name since: it serves, or a ready successor took over. *)
Definition still_served (n : string) (p : proc) (s : sup) (new : list act) : Prop :=
  (worker_at s n false = Some p /\ Stopped p ∉ new) \/
  exists nxt q l1 l2, pr_name nxt = n /\ new = l1 ++ Stopped p :: FoundReady nxt :: l2 /\ worker_at s n false = Some q.

Lemma moves_serve gone n p s s' : rtc (move cfg gone) s s' -> sound cfg s -> forall new acts, sv_acts s = new ++ acts -> still_served n p s new ->
  gone n \/ exists new', sv_acts s' = new' ++ acts /\ still_served n p s' new'.
Proof.
  induction 1 as [s|s s2 s3 Hm _ IH]; intros Hs new acts Ha Hserve; [right; by exists new|].
  destruct (move_current gone s s2 n Hm Hs) as [Hg|(k & Hk & Hcase)]; [by left|].
  apply (IH (move_sound _ _ _ Hm Hs) (k ++ new)); [by rewrite Hk, Ha, app_assoc|].
  destruct Hserve as [[Hp Hn]|(nxt & q & l1 & l2 & Hname & -> & Hq)].
  - destruct Hcase as [[E Hk2]|(nxt & Hname & E & ->)]; [left; split; [congruence|]; rewrite not_elem_of_app; split; [by apply Hk2|done]|].
    right. exists nxt, nxt, [], new. rewrite Hp. done.
  - right. destruct Hcase as [[E _]|(nxt2 & _ & E & ->)].
    + exists nxt, q, (k ++ l1), l2. rewrite <- app_assoc. by rewrite E.
    + eexists nxt, nxt2, (_ ++ l1), l2. split; [done|]. split; [|done]. by rewrite <- (app_assoc _ l1).
Qed.

(** C20: A spec that is served stays served: in a pass, the worker of a spec that is in the
    directory goes on, unstopped, or is stopped right after its successor was found ready
    and took its place. A file that is unreadable or refused, a new version that does not
    start, is not ready, is given up or is taken back, a copy that cannot be written and a
    directory that cannot be listed do not stop it; only a listing without its file may. *)
Theorem served_specs_stay_served s n p :
  supervised cfg s -> worker_at s n false = Some p ->
  unlisted s n \/
  exists new, sv_acts (Reconcile cfg s) = new ++ sv_acts s /\
    ((worker_at (Reconcile cfg s) n false = Some p /\ Stopped p ∉ new) \/
     exists nxt q l1 l2, pr_name nxt = n /\ new = l1 ++ Stopped p :: FoundReady nxt :: l2 /\ worker_at (Reconcile cfg s) n false = Some q).
Proof.
  intros Hs Hp. apply (moves_serve _ _ _ _ _ (Reconcile_does cfg s) (supervised_sound s Hs) []); [done|]. left. split; [done|set_solver].
Qed.

(** Waits between restarts stay between the bounds set for them. *)
Lemma restarts_bounded backoff runs :
  (0 < min_restart cfg <= max_restart cfg)%Z -> (min_restart cfg <= backoff <= max_restart cfg)%Z ->
  Forall (fun wait => min_restart cfg <= wait <= max_restart cfg)%Z (restarts cfg backoff runs).
Proof.
  intros Hm. revert backoff. induction runs as [|lasted runs IH]; intros backoff Hb; [constructor|].
  cbn [restarts]. unfold next_backoff. destruct (_ <? _)%Z; constructor; try lia; apply IH; lia.
Qed.
End theorems.

(** * Witnesses *)

Module Host1.
#[local] Existing Instance toy_crypto.

(** Two versions of a spec, told apart by their policies, and signed by ada. *)
Definition version (policies : list PolicyRef) : RuntimeSpec :=
  mkRuntimeSpec "" KindRuntimeSpec (mkRuntimeMeta "orders" "" "L2" (match policies with [] => "sha256:1" | _ => "sha256:2" end) [])
    (mkRuntimeBody [] [] [] [] [] policies []).
Definition signed (data : string) (s : RuntimeSpec) : RuntimeSpec :=
  with_signatures s [mkSignature "ada" "ed25519" ("ada" +++ message_of s)].

#[local] Instance two_versions : Encoders := {|
  module_digest := fun s => s;
  Digest := fun b => match rb_Policies b with [] => "sha256:1" | _ => "sha256:2" end;
  operation_key := fun _ _ => "";
  decode_spec := fun data =>
    if String.eqb data "one" then Ok (signed data (version []))
    else if String.eqb data "two" then Ok (signed data (version [mkPolicyRef "p" "1" ""]))
    else if String.eqb data "unsigned" then Ok (version []) else Err (Sentinel "not JSON") |}.

(** A host whose workers are ready once started: the file of orders, whether the disk is
    full, the workers that run, how many were started, and the time. *)
Record toy_host := mkHost { th_file : option string; th_full : bool; th_up : list nat; th_count : nat; th_now : Z }.
#[local] Instance toy_hosting : Host toy_host := {|
  hs_dir := fun w => (Ok (match th_file w with Some _ => [("orders.json", false); ("notes", true)] | None => [] end), w);
  hs_read := fun _ w => (match th_file w with Some d => Ok d | None => Err (Sentinel "no such file") end, w);
  hs_write := fun _ w => (if th_full w then Some (Sentinel "no space left on device") else None, w);
  hs_remove := fun _ w => (true, w);
  hs_start := fun _ _ w => (th_count w, mkHost (th_file w) (th_full w) (th_count w :: th_up w) (1 + th_count w) (th_now w));
  hs_stop := fun h w => mkHost (th_file w) (th_full w) (List.filter (fun x => negb (Nat.eqb x h)) (th_up w)) (th_count w) (th_now w);
  hs_ready := fun h w => (existsb (Nat.eqb h) (th_up w), w);
  hs_info := fun _ w => (mkInfo 1 0 None "", w);
  hs_now := fun w => (th_now w, w)
|}.

Definition here : Appliance := mkAppliance toy_crypto "/var/lib/turgon" ["ada"] 0 0 0 0.
Definition fresh : supervisor toy_host := mkSupervisor ∅ ∅ [] (mkHost None false [] 0 0).

(** A pass with a file, a disk that may be full, at a time. *)
Definition pass (file : option string) (full : bool) (now : Z) (s : supervisor toy_host) : supervisor toy_host :=
  let w := sv_world s in Reconcile here (mkSupervisor (sv_units s) (sv_copies s) (sv_acts s) (mkHost file full (th_up w) (th_count w) now)).
Definition serving : supervisor toy_host := pass (Some "one") false 1 (pass (Some "one") false 0 fresh).
Definition both : supervisor toy_host := pass (Some "two") false 2 serving.

Lemma serving_supervised : supervised here serving.
Proof. do 2 apply passed. by apply begun. Qed.
Lemma both_supervised : supervised here both.
Proof. apply passed, serving_supervised. Qed.


(** A refused file, then the second version taking over. *)
Lemma served_specs_stay_served_witness :
  option_map pr_digest (worker_at (pass (Some "unsigned") false 2 serving) "orders" false) = Some "sha256:1" /\
  option_map pr_digest (worker_at (pass (Some "two") true 2 serving) "orders" false) = Some "sha256:1" /\
  option_map pr_digest (worker_at (pass (Some "two") false 3 both) "orders" false) = Some "sha256:2" /\
  exists p, worker_at both "orders" false = Some p /\ Stopped p ∉ sv_acts both /\
    exists new nxt q l1 l2, sv_acts (Reconcile here both) = new ++ sv_acts both /\ pr_name nxt = "orders" /\
      new = l1 ++ Stopped p :: FoundReady nxt :: l2 /\ worker_at (Reconcile here both) "orders" false = Some q.
Proof.
  split_and!; [reflexivity..|]. destruct (worker_at both "orders" false) as [p|] eqn:E; [|vm_compute in E; discriminate E].
  exists p. split; [reflexivity|]. destruct (served_specs_stay_served here both "orders" p both_supervised E) as [Hu|(new & Ha & [[H _]|H])].
  - exfalso. destruct Hu as (entries & w & Hd & Hn). vm_compute in Hd. injection Hd as <- _. apply Hn. vm_compute. left.
  - exfalso. vm_compute in E, H. congruence.
  - split.
    + vm_compute in E. injection E as <-. vm_compute. intros Hin. apply list_elem_of_In in Hin.
      repeat (destruct Hin as [Hin|Hin]; [discriminate Hin|]). exact Hin.
    + destruct H as (nxt & q & l1 & l2 & Hn & Hnew & Hq). exists new, nxt, q, l1, l2. exact (conj Ha (conj Hn (conj Hnew Hq))).
Defined.

(** A new version whose copy cannot be written leaves the worker it stopped in place as
    the next one: with its file put back, the first version is never started again, and is
    given up as not ready. *)
Definition full_disk : supervisor toy_host := pass (Some "two") true 1 (pass (Some "one") false 0 fresh).
Definition put_back : supervisor toy_host := pass (Some "one") false 200000000000 (pass (Some "one") false 2 full_disk).

Example stopped_worker_is_kept :
  th_up (sv_world full_disk) = [] /\ option_map pr_digest (worker_at full_disk "orders" true) = Some "sha256:1" /\
  (exists u, sv_units put_back !! "orders" = Some u /\ un_current u = None /\ un_next u = None /\ un_invalid u = None /\
     un_failed u = un_fileDigest u) /\
  th_up (sv_world (pass (Some "one") false 300000000000 put_back)) = [].
Proof. split_and!; [reflexivity..| |reflexivity]. eexists. split; [vm_compute; reflexivity|]. done. Qed.
End Host1.
